(* ===== verification/_CoqProject ===== *)
-Q . S2P
Prelude.v
Timeval.v
MinHeap.v
Outcome.v
Lines.v
EvbufferDefs.v
Evbuffer.v
EvbufferOps.v
EvbufferPullup.v
EvbufferMove.v
EvbufferSpace.v
EvbufferSearch.v
EvbufferPrintf.v
EvbufferIface.v
EvbufferImpl.v
EvbufferThms.v
TaggingDefs.v
Tagging.v
TaggingThms.v
Evutil.v
InetDefs.v
Inet.v
InetThms.v
DnsDefs.v
Dns.v
DnsWrite.v
DnsThms.v
HttpUriDefs.v
HttpText.v
HttpUri.v
HttpUriParse.v
HttpGrammar.v
HttpUriThms.v
HttpMsgDefs.v
HttpConnDefs.v
HttpFlat.v
HttpCut.v
HttpRead.v
HttpWire.v
HttpSend.v
HttpDeliver.v
HttpMsgThms.v
EventDefs.v
EventApi.v
EventLoop.v
EventInv.v
EventQueue.v
EventOps.v
EventAdd.v
EventBase.v
EventTimers.v
EventRun.v
EventConfig.v
EventSafe.v
EvmapDefs.v
Evmap.v
Backend.v
EventThms.v
EpollTable.v
EpollDefs.v
Epoll.v
EpollThms.v
Weakrand.v
PollDefs.v
Poll.v
PollBase.v
PollThms.v
