(* ===== verification/Prelude.v ===== *)
(** * Verification of libevent: events, timers, buffers, DNS and HTTP

    The program is the C library libevent as vendored under
    [src/Sources/libevent] (with public headers in [include/event2]); the Swift
    package around it only re-exports it.  A program sets up events (for a file
    descriptor, a signal, a timeout or by hand), adds them to an event base and
    runs the loop of the base; the loop waits in a backend, moves the events that
    happened to queues of active events and runs their callbacks by priority.
    Data travels in byte queues (evbuffers); on top of these are records, DNS
    messages and HTTP.

    ** Parts and files

    - This file: bounded integers, lists indexed by integers, the state-and-failure
      monad [prog] with its weakest precondition [wp], shared tactics and hints.
      [Outcome]: results of functions that may return an error, or leave memory
      ([Fault]), and the monad of parsers with a state.
    - [Timeval]: times and the monotonic timer ([evutil_time.c], macros of
      [event2/util.h], [time-internal.h]).
    - [MinHeap]: the heap of timers ([minheap-internal.h]), over an interface
      [TimerStore] of the timeouts and stored positions of events, and an
      allocator [Realloc].
    - [EvbufferDefs]: chains, buffers and their operations ([buffer.c],
      [evbuffer-internal.h]); [Evbuffer], [EvbufferOps], [EvbufferPullup],
      [EvbufferMove], [EvbufferSpace]: the invariant and every operation;
      [Lines], [EvbufferSearch]: line ends, searching and reading lines;
      [EvbufferPrintf]: formatted output; [EvbufferThms]: the contract as a queue
      of bytes.
    - [EvbufferIface], [EvbufferImpl]: the interface that records and HTTP use, and
      that the buffer implements it.
    - [TaggingDefs], [Tagging], [TaggingThms]: tagged records ([event_tagging.c]).
    - [Evutil]: characters and text; [InetDefs], [Inet], [InetThms]: numbers and
      addresses as text ([evutil.c]).
    - [DnsDefs], [Dns], [DnsWrite], [DnsThms]: messages of the domain name system
      ([evdns.c]): names with compression, queries, replies, requests to server
      ports and their responses.
    - [HttpUriDefs], [HttpText], [HttpUri], [HttpUriParse], [HttpUriThms]: escaping,
      percent-encoding and URIs ([http.c]); [HttpGrammar]: the grammar of URIs stated
      apart from the code, and that the code's own predicates agree with it.
    - [HttpMsgDefs]: headers, first lines, queries and virtual hosts;
      [HttpConnDefs]: the state machine that reads a message from a connection,
      the text of messages sent, the choice of a callback ([http.c],
      [http-internal.h], [event2/http_struct.h]); [HttpFlat]: reading from buffers
      simulates reading from plain lists of bytes; [HttpCut]: on lists, input may be
      cut anywhere; [HttpRead]: reading never fails; [HttpWire]: what is written is
      read back; [HttpSend]: what writing appends to the output; [HttpDeliver]: from
      one connection to another; [HttpMsgThms]: the contract.
    - [EventDefs]: [struct event], [struct event_base], its queues, counters,
      timers and clock; [EventApi]: adding, deleting, activating, finalizing and
      inspecting events, timeouts and common timeouts; [EventLoop]: closures,
      active queues, [event_base_loop] and its control; [EventConfig]:
      configurations and [event_base_new_with_config] (all from [event.c] and
      [event-internal.h]).
    - [EventInv]: the invariant of the base and the interfaces with laws;
      [EventQueue], [EventOps], [EventAdd], [EventBase], [EventTimers],
      [EventRun]: every operation keeps it; [EventSafe]: the operations as
      commands of a program.
    - [EvmapDefs], [Evmap]: the map from descriptors and signals to events
      ([evmap.c]) over an abstract backend, and that it implements the interface
      the base is verified against.
    - [Backend]: what every backend needs to keep the invariant of the base;
      [EventThms]: the contract of base and map, on a concrete program.
    - [EpollTable]: the table that turns changes of a descriptor into calls of
      the kernel ([epolltable-internal.h]) and the generator it was made with
      ([make_epoll_table.py]); [EpollDefs]: the list of pending changes ([evmap.c],
      [changelist-internal.h]) and the backend on epoll ([epoll.c]); [Epoll]: that
      it implements the interface of a backend; [EpollThms]: its contract, and
      base, map and backend together.
    - [Weakrand]: weak random numbers ([evutil.c]); [PollDefs]: the backend on poll
      ([poll.c]); [Poll]: its set of descriptors as a map of what they wait for;
      [PollBase]: that it implements the interface of a backend; [PollThms]: its
      contract, and base, map and backend together.

    ** How state and operations correspond to the code

    An [event_base] is a record with the fields of [struct event_base] in groups;
    the events themselves are a finite map from addresses ([evid]) to records, so
    that aliasing is explicit: queues, lists, the heap and the map of descriptors
    hold addresses, and an event's flags and heap position live in the event.
    Every operation is a [prog]: it takes the base, and fails ([None]) where the
    code would fail an assertion, index out of range, or remove an element from a
    list that does not hold it.  The theorems show that this does not happen.

    Text is a list of bytes without its terminating zero, memory a list of bytes
    that is read and written with a check of its bounds.  A function on text
    returns [None] or [Fault] where the code would leave memory, and the result
    that stands for an error where the code returns an error.  A function of a
    connection that ends by calling another part of the library returns which one
    ([HttpConnDefs.next]).

    Components meet at type classes.  The heap sees events through [TimerStore];
    the base sees the map of descriptors through [EvmapOps] (laws: [EvmapLaws],
    proved by [Evmap.evmap_laws]), the clock through [Clock], callbacks of the
    program and the backend's [dispatch] through [Env] (contract: [EnvLaws]); the
    map sees the backend through [Eventop] (laws: [EventopLaws], proved for epoll by
    [Epoll.epoll_laws] and for poll by [PollBase.poll_laws]) and [Sigop]; the backends
    see the kernel through [EpollSys] and [PollSys] (laws: [EpollLaws], [PollLaws]);
    the index that [poll.c] keeps with each descriptor of the map is in a store of the
    backend, because deleting one descriptor changes the index of another; allocation outcomes are [Realloc], [Malloc], [MapAlloc] or
    booleans.  Records and HTTP see the buffer through the class [EvbufferOps] of
    [EvbufferIface] (laws: [EvbufferLaws]), which the buffer implements and which a
    plain list of bytes implements too ([HttpFlat]).

    ** What is shown

    - Base: a program that gives allowed commands never makes the library fail
      ([api_safe]); flags, queues, heap, lists, map and counters always agree
      ([reachable_consistent]); the effect of adding, deleting, activating and
      querying an event; the waiting time; which timers fire; what each
      value that the loop returns means; the next due time of periodic events; order
      of deferred work.
    - Map: it refines an abstract map that recomputes the wanted kinds of events
      from scratch, and activity reaches exactly the events waiting for it.
    - Epoll: the table is what its generator computes and each row does what it
      says; after every change, with or without the list of pending changes, the
      kernel knows what the map told the backend; errors of the kernel that the
      code handles leave the descriptor as wanted; the waiting time is never
      shorter than asked nor more than a millisecond longer; base, map and backend
      together never fail.
    - Poll: the entries given to the kernel are exactly the descriptors with wanted
      events, each once; a dispatch reports each entry that came true once; choosing
      where to begin ends, because the generator has its full period; base, map and
      backend together never fail.
    - Heap: push, erase, pop and adjust keep order and positions.
    - Buffers: each operation as a function on the bytes, reports to callbacks,
      bounds, and the failures that lose or duplicate data; searching and reading
      lines agree with the same on one flat list, however the bytes are split.
    - Records: round trips, safety on arbitrary input and one over-read.
    - Addresses: what is printed is parsed back, but for ports of 0, which are refused,
      and zones, which are not printed; parsing is safe on any text.
    - DNS (for any size of the buffers for names, [ReplyHost]): names are read exactly as their grammar says; no packet makes a parser
      leave its memory; a query and its answer travel unchanged; two ways in which
      writing a response leaves its buffer or leaks memory.
    - URIs: the parser accepts exactly a grammar of its own classes and rules, in which
      only the text of an IPv6 address is what [evutil_inet_pton] reads; joining and parsing, encoding
      and decoding are inverse; setters keep every part well formed.
    - HTTP messages: reading never fails on any bytes; how a message is cut into
      pieces does not matter for what is read; a request that a client writes, and
      a reply that a server sends in chunks, arrive unchanged.
    - Times: the monotonic timer never goes back; conversions do not overflow.  Seconds
      and microseconds are signed 64-bit numbers: sums of times wrap around, and the
      theorems on due times say when they are exact ([sec_fits]).

    ** Bounds and fuel

    Loops that the code runs to the end are structural, or take fuel that is
    shown to suffice: [shift_fuel] (33, a heap of less than 2^31 events is at most
    that deep), [grow_alloc] (64 doublings of a size), [grow_entries] (31
    doublings of an [int]), [encode_loop] (17 nibbles), [decode_tag_loop] (7),
    [encode_tag_loop] (5), the loops over expired timers (the length of the heap
    or of the list: each round removes an event), [signal_loop] (the counter,
    modulo 2^16), [event_add_depth] (1: the timer of a common timeout is itself
    an ordinary timer); [search_fuel] and the loops over line ends (the bytes of
    the buffer), [evbuffer_add_vprintf] (two rounds: the second has the room the
    first asked for), [pton_loop] (the text), [to_base] (64 digits), [name_fuel]
    and [labels_loop] (the packet and the name), [decode_loop] (the text and its
    end), [headers_loop] and [chunked_loop] (the bytes that wait: every round but
    the first takes some), [query_loop] (the text), [evutil_weakrand_range_] (2^31 draws,
    among which the generator yields 0).  The loop of the base need not end:
    [event_base_loop] and [event_process_active] take a number of rounds and
    return [None] when those are used up, and the theorems hold for every number.
    A program uses fewer than 2^31 events.

    ** Not modelled

    - [event.c]: debug mode, locks and waiting for other threads, the descriptors
      of cross-thread notification and of the signal pair, [event_base_free] and
      [event_reinit], dumping and iterating over events, the list of one-time
      events (their callback is modelled), releasing memory, and the write through
      [ev_pncalls] after the loop over the calls of a signal has ended.
    - [evmap.c]: rebuilding after a fork, deleting all events, consistency checks,
      the hash table used where descriptors are pointers.
    - [epoll.c]: the kernel is a parameter; setting up the signal pair, rebuilding
      after a fork and messages are left out.
    - [poll.c]: the kernel is a parameter; what other threads do while the backend
      waits, setting up the signal pair and releasing memory are left out.
    - [buffer.c]: file segments, sendfile and multicast references, socket I/O,
      locking.
    - [http.c]: connecting, retries and timeouts, what follows the end or failure of a
      request, write callbacks, listeners, and releasing connections: sequences of
      calls to bufferevents and sockets.
    - [evdns.c]: what the resolver does with a parsed reply (requests in flight,
      name servers, search domains, files): driven by sockets and timers.
    - [evutil.c]: sockets, name resolution by the system, secure random numbers, the
      environment.
    - The other backends (sets of descriptors for select, interfaces of other
      systems, signal handlers), bufferevents (callbacks around sockets and locks) and
      RPC (generated code around HTTP).  TLS and the Swift wrapper are bindings. *)
From stdpp Require Export base numbers list option gmap strings sorting.
From Stdlib Require Export ZArith Lia.

Declare Scope ev_scope.
Delimit Scope ev_scope with ev.
#[global] Open Scope Z_scope.

(** [lia] also reasons about [div] and [mod] by constants. *)
#[export] Ltac Zify.zify_post_hook ::= Z.div_mod_to_equations.

(** * Hint databases of the development *)

Create HintDb evlib.
Create Rewrite HintDb evlen.
Create Rewrite HintDb evrw.

(** * Machine integers *)

(** C arithmetic on unsigned types wraps modulo the width. *)
Definition u8 (z : Z) : Z := z mod 2 ^ 8.
Definition u16 (z : Z) : Z := z mod 2 ^ 16.
Definition u32 (z : Z) : Z := z mod 2 ^ 32.
Definition u64 (z : Z) : Z := z mod 2 ^ 64.

(** Conversion to a two's complement signed type of width [w]. *)
Definition swrap (w z : Z) : Z := (z + 2 ^ (w - 1)) mod 2 ^ w - 2 ^ (w - 1).
Definition i16 (z : Z) : Z := swrap 16 z.
Definition i32 (z : Z) : Z := swrap 32 z.
Definition i64 (z : Z) : Z := swrap 64 z.

Definition INT_MAX : Z := 2 ^ 31 - 1.
Definition UINT32_MAX : Z := 2 ^ 32 - 1.
Definition EV_SIZE_MAX : Z := 2 ^ 64 - 1.
Definition EV_SSIZE_MAX : Z := 2 ^ 63 - 1.

Lemma u8_small z : 0 <= z < 256 → u8 z = z.
Proof. intros; unfold u8; apply Z.mod_small; lia. Qed.
Lemma u16_small z : 0 <= z < 2 ^ 16 → u16 z = z.
Proof. intros; unfold u16; apply Z.mod_small; lia. Qed.
Lemma u32_small z : 0 <= z < 2 ^ 32 → u32 z = z.
Proof. intros; unfold u32; apply Z.mod_small; lia. Qed.
Lemma u64_small z : 0 <= z < 2 ^ 64 → u64 z = z.
Proof. intros; unfold u64; apply Z.mod_small; lia. Qed.
Lemma i32_small z : - 2 ^ 31 <= z < 2 ^ 31 → i32 z = z.
Proof. intros; unfold i32, swrap; simpl Z.sub; rewrite Z.mod_small; lia. Qed.
Lemma i64_small z : - 2 ^ 63 <= z < 2 ^ 63 → i64 z = z.
Proof. unfold i64, swrap. intros. rewrite Z.mod_small; lia. Qed.
Lemma i64_range z : - 2 ^ 63 <= i64 z < 2 ^ 63.
Proof. unfold i64, swrap. pose proof (Z.mod_pos_bound (z + 2 ^ (64 - 1)) (2 ^ 64)). lia. Qed.
Lemma u8_range z : 0 <= u8 z < 256.
Proof. apply Z.mod_pos_bound; lia. Qed.
Lemma u32_range z : 0 <= u32 z < 2 ^ 32.
Proof. apply Z.mod_pos_bound; lia. Qed.
Lemma u64_range z : 0 <= u64 z < 2 ^ 64.
Proof. apply Z.mod_pos_bound; lia. Qed.

(** A C condition on an integer used as a bit set. *)
Definition has (flags mask : Z) : bool := negb (Z.land flags mask =? 0).
Notation "x &~ y" := (Z.land x (Z.lnot y)) (at level 40, left associativity) : ev_scope.

(** * Byte and element sequences indexed by [Z] *)

Definition zlen {A} (l : list A) : Z := Z.of_nat (length l).
Definition ztake {A} (n : Z) (l : list A) : list A := take (Z.to_nat n) l.
Definition zdrop {A} (n : Z) (l : list A) : list A := drop (Z.to_nat n) l.
Definition zget {A} (l : list A) (i : Z) : option A :=
  if i <? 0 then None else l !! Z.to_nat i.
Definition zset {A} (l : list A) (i : Z) (x : A) : option (list A) :=
  if (0 <=? i) && (i <? zlen l) then Some (<[Z.to_nat i := x]> l) else None.
Definition zrepeat {A} (x : A) (n : Z) : list A := replicate (Z.to_nat n) x.

Section zlists.
Context {A : Type}.
Implicit Types (l k : list A) (n m i : Z) (x : A).

Lemma zlen_nonneg l : 0 <= zlen l.
Proof. unfold zlen; lia. Qed.
Lemma zlen_nil : zlen (@nil A) = 0.
Proof. done. Qed.
Lemma zlen_cons x l : zlen (x :: l) = 1 + zlen l.
Proof. unfold zlen; simpl; lia. Qed.
Lemma zlen_app l k : zlen (l ++ k) = zlen l + zlen k.
Proof. unfold zlen; rewrite length_app; lia. Qed.
Lemma zlen_nil_inv l : zlen l = 0 → l = [].
Proof. destruct l; [done|unfold zlen; simpl; lia]. Qed.
Lemma zlen_ztake n l : 0 <= n <= zlen l → zlen (ztake n l) = n.
Proof. unfold zlen, ztake; intros; rewrite length_take; lia. Qed.
Lemma zlen_ztake_le n l : zlen (ztake n l) <= zlen l.
Proof. unfold zlen, ztake; rewrite length_take; lia. Qed.
Lemma zlen_zdrop n l : 0 <= n <= zlen l → zlen (zdrop n l) = zlen l - n.
Proof. unfold zlen, zdrop; intros; rewrite length_drop; lia. Qed.
Lemma zlen_zrepeat x n : 0 <= n → zlen (zrepeat x n) = n.
Proof. unfold zlen, zrepeat; intros; rewrite length_replicate; lia. Qed.
Lemma ztake_zdrop n l : ztake n l ++ zdrop n l = l.
Proof. apply take_drop. Qed.
Lemma ztake_0 l : ztake 0 l = [].
Proof. done. Qed.
Lemma zdrop_0 l : zdrop 0 l = l.
Proof. done. Qed.
Lemma ztake_all n l : zlen l <= n → ztake n l = l.
Proof. unfold zlen, ztake; intros; apply take_ge; lia. Qed.
Lemma zdrop_all n l : zlen l <= n → zdrop n l = [].
Proof. unfold zlen, zdrop; intros; apply drop_ge; lia. Qed.
Lemma ztake_app_le n l k : 0 <= n <= zlen l → ztake n (l ++ k) = ztake n l.
Proof. unfold zlen, ztake; intros; apply take_app_le; lia. Qed.
Lemma ztake_app_ge n l k :
  zlen l <= n → ztake n (l ++ k) = l ++ ztake (n - zlen l) k.
Proof.
  unfold zlen, ztake; intros; rewrite take_app_ge by lia.
  f_equal; f_equal; lia.
Qed.
Lemma zdrop_app_le n l k : 0 <= n <= zlen l → zdrop n (l ++ k) = zdrop n l ++ k.
Proof. unfold zlen, zdrop; intros; apply drop_app_le; lia. Qed.
Lemma zdrop_app_ge n l k : zlen l <= n → zdrop n (l ++ k) = zdrop (n - zlen l) k.
Proof.
  unfold zlen, zdrop; intros; rewrite drop_app_ge by lia. f_equal; lia.
Qed.
Lemma ztake_ztake n m l : 0 <= n <= m → ztake n (ztake m l) = ztake n l.
Proof. unfold ztake; intros; rewrite take_take; f_equal; lia. Qed.
Lemma zdrop_zdrop n m l : 0 <= n → 0 <= m → zdrop n (zdrop m l) = zdrop (m + n) l.
Proof. unfold zdrop; intros; rewrite drop_drop; f_equal; lia. Qed.
Lemma ztake_zdrop_comm n m l :
  0 <= n → 0 <= m → ztake n (zdrop m l) = zdrop m (ztake (m + n) l).
Proof.
  unfold ztake, zdrop; intros. rewrite take_drop_commute. f_equal; f_equal; lia.
Qed.
Lemma ztake_add n m l :
  0 <= n → 0 <= m → ztake (n + m) l = ztake n l ++ ztake m (zdrop n l).
Proof.
  intros; unfold ztake, zdrop.
  replace (Z.to_nat (n + m)) with (Z.to_nat n + Z.to_nat m)%nat by lia.
  symmetry; apply take_take_drop.
Qed.

Lemma zget_Some_range l i x : zget l i = Some x → 0 <= i < zlen l.
Proof.
  unfold zget, zlen. destruct (Z.ltb_spec i 0); [done|].
  intros ?%lookup_lt_Some. lia.
Qed.
Lemma zget_in_range l i : 0 <= i < zlen l → ∃ x, zget l i = Some x.
Proof.
  unfold zget, zlen. intros. destruct (Z.ltb_spec i 0); [lia|].
  destruct (lookup_lt_is_Some_2 l (Z.to_nat i)) as [x Hx]; [lia|eauto].
Qed.
Lemma zget_out l i : zlen l <= i → zget l i = None.
Proof.
  intros. destruct (zget l i) eqn:E; [|done].
  apply zget_Some_range in E; lia.
Qed.
Lemma zget_nonneg l i : 0 <= i → zget l i = l !! Z.to_nat i.
Proof. unfold zget; intros; destruct (Z.ltb_spec i 0); [lia|done]. Qed.
Lemma zset_in_range l i x :
  0 <= i < zlen l → zset l i x = Some (<[Z.to_nat i := x]> l).
Proof. unfold zset; intros. destruct (Z.leb_spec 0 i), (Z.ltb_spec i (zlen l)); done || lia. Qed.
Lemma zset_Some l l' i x :
  zset l i x = Some l' → 0 <= i < zlen l ∧ l' = <[Z.to_nat i := x]> l.
Proof.
  unfold zset. destruct (Z.leb_spec 0 i), (Z.ltb_spec i (zlen l)); intros [= <-]; auto.
Qed.
Lemma zlen_insert l (i : nat) x : zlen (<[i := x]> l) = zlen l.
Proof. unfold zlen; by rewrite length_insert. Qed.
Lemma zget_insert l i j x :
  0 <= i < zlen l → zget (<[Z.to_nat i := x]> l) j = if decide (i = j) then Some x else zget l j.
Proof.
  unfold zget, zlen; intros Hi.
  destruct (Z.ltb_spec j 0).
  { destruct (decide (i = j)); [lia|done]. }
  destruct (decide (i = j)) as [->|Hne].
  - apply list_lookup_insert_eq; lia.
  - apply list_lookup_insert_ne; lia.
Qed.
Lemma zget_app_l l k i : i < zlen l → zget (l ++ k) i = zget l i.
Proof.
  unfold zget, zlen; intros. destruct (Z.ltb_spec i 0); [done|]. apply lookup_app_l. lia.
Qed.
Lemma zget_app_r l k i : zlen l <= i → zget (l ++ k) i = zget k (i - zlen l).
Proof.
  unfold zget, zlen; intros. destruct (Z.ltb_spec i 0), (Z.ltb_spec (i - Z.of_nat (length l)) 0); try lia.
  rewrite lookup_app_r by lia. f_equal; lia.
Qed.
Lemma zget_ztake n l i : i < n → zget (ztake n l) i = zget l i.
Proof.
  unfold zget, ztake; intros. destruct (Z.ltb_spec i 0); [done|]. apply lookup_take_lt. lia.
Qed.
Lemma zget_zdrop n l i : 0 <= n → 0 <= i → zget (zdrop n l) i = zget l (n + i).
Proof.
  unfold zget, zdrop; intros. destruct (Z.ltb_spec i 0), (Z.ltb_spec (n + i) 0); try lia.
  rewrite lookup_drop. f_equal; lia.
Qed.
End zlists.

#[export] Hint Rewrite @zlen_nil @zlen_cons @zlen_app @zlen_insert : evlen.
Ltac zlen_side := first [lia | rewrite zlen_zdrop by lia; lia | rewrite zlen_ztake by lia; lia].
#[export] Hint Rewrite @zlen_ztake @zlen_zdrop @zlen_zrepeat using zlen_side : evlen.
#[export] Hint Resolve zlen_nonneg : evlib.

(** [len_lia] normalises lengths of sequences and calls [lia]. *)
Ltac pose_len_nonneg :=
  repeat match goal with
  | |- context [zlen ?l] =>
      lazymatch goal with H : 0 <= zlen l |- _ => fail | _ => pose proof (zlen_nonneg l) end
  | _ : context [zlen ?l] |- _ =>
      lazymatch goal with H : 0 <= zlen l |- _ => fail | _ => pose proof (zlen_nonneg l) end
  end.
Ltac len_lia := pose_len_nonneg; autorewrite with evlen in *; pose_len_nonneg; lia.

(** Case analysis on the integer comparison at the head of a goal or
    hypothesis, remembering the arithmetic fact. *)
Ltac zcase_term t :=
  lazymatch t with
  | ?a =? ?b => destruct (Z.eqb_spec a b)
  | ?a <? ?b => destruct (Z.ltb_spec a b)
  | ?a <=? ?b => destruct (Z.leb_spec a b)
  end.
Ltac zcase :=
  match goal with
  | |- context [if ?a =? ?b then _ else _] => zcase_term (a =? b)
  | |- context [if ?a <? ?b then _ else _] => zcase_term (a <? b)
  | |- context [if ?a <=? ?b then _ else _] => zcase_term (a <=? b)
  | _ : context [if ?a =? ?b then _ else _] |- _ => zcase_term (a =? b)
  | _ : context [if ?a <? ?b then _ else _] |- _ => zcase_term (a <? b)
  | _ : context [if ?a <=? ?b then _ else _] |- _ => zcase_term (a <=? b)
  end.

(** * Raw memory *)

(** [memcpy(dst + pos, src, len)]: [None] when the write leaves the block. *)
Definition memcpy_at (dst : list Z) (pos : Z) (src : list Z) : option (list Z) :=
  if (0 <=? pos) && (pos + zlen src <=? zlen dst)
  then Some (ztake pos dst ++ src ++ zdrop (pos + zlen src) dst)
  else None.

(** Reading [n] bytes at [src + pos]: [None] when the read leaves the block. *)
Definition mem_read (src : list Z) (pos n : Z) : option (list Z) :=
  if (0 <=? pos) && (0 <=? n) && (pos + n <=? zlen src)
  then Some (ztake n (zdrop pos src))
  else None.

Lemma memcpy_at_ok dst pos src :
  0 <= pos → pos + zlen src <= zlen dst →
  memcpy_at dst pos src = Some (ztake pos dst ++ src ++ zdrop (pos + zlen src) dst).
Proof.
  unfold memcpy_at; intros.
  destruct (Z.leb_spec 0 pos), (Z.leb_spec (pos + zlen src) (zlen dst)); done || lia.
Qed.
Lemma mem_read_ok src pos n :
  0 <= pos → 0 <= n → pos + n <= zlen src →
  mem_read src pos n = Some (ztake n (zdrop pos src)).
Proof.
  unfold mem_read; intros.
  destruct (Z.leb_spec 0 pos), (Z.leb_spec 0 n), (Z.leb_spec (pos + n) (zlen src)); done || lia.
Qed.
Lemma memcpy_at_len dst pos src dst' :
  memcpy_at dst pos src = Some dst' → zlen dst' = zlen dst.
Proof.
  unfold memcpy_at.
  destruct (Z.leb_spec 0 pos), (Z.leb_spec (pos + zlen src) (zlen dst)); intros [= <-].
  len_lia.
Qed.

(** * A state monad with failure

    A program on states [S] either produces a result and a new state or gets
    stuck: an [EVUTIL_ASSERT] does not hold, or memory outside an object is
    touched.  [wp m Q s] says that [m] run from [s] does not get stuck and
    ends in a result and state satisfying [Q] (total correctness). *)

Definition prog (S A : Type) : Type := S → option (A * S).

#[global] Instance prog_ret S : MRet (prog S) := λ A a s, Some (a, s).
#[global] Instance prog_bind S : MBind (prog S) := λ A B f m s,
  match m s with Some (a, s') => f a s' | None => None end.

Definition get_state {S} : prog S S := λ s, Some (s, s).
Definition put_state {S} (s' : S) : prog S unit := λ _, Some (tt, s').
Definition gets {S A} (f : S → A) : prog S A := λ s, Some (f s, s).
Definition modify {S} (f : S → S) : prog S unit := λ s, Some (tt, f s).
(** [EVUTIL_ASSERT(b)] *)
Definition EVUTIL_ASSERT {S} (b : bool) : prog S unit :=
  λ s, if b then Some (tt, s) else None.
(** A pointer that must not be [NULL], or an index that must be in range. *)
Definition deref {S A} (o : option A) : prog S A :=
  λ s, match o with Some a => Some (a, s) | None => None end.
(** [if (b) m] *)
Definition when {S} (b : bool) (m : prog S unit) : prog S unit :=
  if b then m else mret tt.

(** The same two checks in functions that have no threaded state. *)
Definition assert_ (b : bool) : option unit := if b then Some tt else None.

Definition wp {S A} (m : prog S A) (Q : A → S → Prop) (s : S) : Prop :=
  match m s with Some (a, s') => Q a s' | None => False end.

Section wp_rules.
Context {S A B : Type}.
Implicit Types (m : prog S A) (s : S).

Lemma wp_ret (a : A) (Q : A → S → Prop) s : Q a s → wp (mret a) Q s.
Proof. done. Qed.
Lemma wp_bind m (f : A → prog S B) (Q : B → S → Prop) s :
  wp m (λ a s', wp (f a) Q s') s ↔ wp (m ≫= f) Q s.
Proof. unfold wp, mbind, prog_bind. destruct (m s) as [[a s']|]; done. Qed.
Lemma wp_mono m (P Q : A → S → Prop) s :
  wp m P s → (∀ a s', P a s' → Q a s') → wp m Q s.
Proof. unfold wp. destruct (m s) as [[a s']|]; eauto. Qed.
Lemma wp_and m (P Q : A → S → Prop) s :
  wp m P s → wp m Q s → wp m (λ a s', P a s' ∧ Q a s') s.
Proof. unfold wp. destruct (m s) as [[a s']|]; eauto. Qed.
Lemma wp_gets (f : S → A) (Q : A → S → Prop) s : Q (f s) s → wp (gets f) Q s.
Proof. done. Qed.
Lemma wp_get (Q : S → S → Prop) s : Q s s → wp get_state Q s.
Proof. done. Qed.
Lemma wp_put s' (Q : unit → S → Prop) s : Q tt s' → wp (put_state s') Q s.
Proof. done. Qed.
Lemma wp_modify (f : S → S) (Q : unit → S → Prop) s : Q tt (f s) → wp (modify f) Q s.
Proof. done. Qed.
Lemma wp_assert b (Q : unit → S → Prop) s : b = true → Q tt s → wp (EVUTIL_ASSERT b) Q s.
Proof. by intros ->. Qed.
Lemma wp_deref (o : option A) a (Q : A → S → Prop) s :
  o = Some a → Q a s → wp (deref o) Q s.
Proof. by intros ->. Qed.
Lemma wp_when b (m : prog S unit) (Q : unit → S → Prop) s :
  (b = true → wp m Q s) → (b = false → Q tt s) → wp (when b m) Q s.
Proof. destruct b; intros H1 H2; [by apply H1|by apply H2]. Qed.
Lemma wp_if b m1 m2 (Q : A → S → Prop) s :
  (b = true → wp m1 Q s) → (b = false → wp m2 Q s) → wp (if b then m1 else m2) Q s.
Proof. destruct b; auto. Qed.
Lemma wp_run m (Q : A → S → Prop) s :
  wp m Q s ↔ ∃ a s', m s = Some (a, s') ∧ Q a s'.
Proof.
  unfold wp. destruct (m s) as [[a s']|]; split; try done.
  - eauto.
  - intros (?&?&[= <- <-]&?); done.
  - intros (?&?&?&_); done.
Qed.
End wp_rules.

#[export] Hint Resolve wp_ret wp_gets wp_get wp_put wp_modify : evlib.

(** One step of symbolic execution of a monadic program. *)
Ltac wp_step :=
  lazymatch goal with
  | |- wp (_ ≫= _) _ _ => apply (proj1 (wp_bind _ _ _ _))
  | |- wp (mret _) _ _ => apply wp_ret
  | |- wp (gets _) _ _ => apply wp_gets
  | |- wp get_state _ _ => apply wp_get
  | |- wp (put_state _) _ _ => apply wp_put
  | |- wp (modify _) _ _ => apply wp_modify
  | |- wp (EVUTIL_ASSERT _) _ _ => apply wp_assert
  | |- wp (when _ _) _ _ => apply wp_when; intro
  | |- wp (if _ then _ else _) _ _ => apply wp_if; intro
  end; cbv beta.

(** [simplify_opt] unfolds one successful run of a chain of option binds. *)
Ltac simplify_opt := repeat (simplify_option_eq || case_match).
