(* ===== verification/Timeval.v ===== *)
(** Time values: the [evutil_timer*] macros of [include/event2/util.h] and the
    pure parts of [src/evutil_time.c] (conversion to milliseconds and the
    ratchet that makes a clock monotonic).

    The abstract value of a [timeval] is its number of microseconds [tv_us]; on
    normalised values ([0 <= tv_usec < 1000000]) the macros are ordinary
    comparison, addition and subtraction of these numbers. *)
From S2P Require Import Prelude.

Record timeval := TV { tv_sec : Z; tv_usec : Z }.

#[export] Instance timeval_eq_dec : EqDecision timeval.
Proof. solve_decision. Defined.

Definition evutil_timercmp (cmp : Z → Z → bool) (tvp uvp : timeval) : bool :=
  if tv_sec tvp =? tv_sec uvp
  then cmp (tv_usec tvp) (tv_usec uvp)
  else cmp (tv_sec tvp) (tv_sec uvp).

(** The fields are signed 64-bit numbers: the sums wrap around. *)
Definition evutil_timeradd (tvp uvp : timeval) : timeval :=
  let s := i64 (tv_sec tvp + tv_sec uvp) in
  let us := i64 (tv_usec tvp + tv_usec uvp) in
  if 1000000 <=? us then TV (i64 (s + 1)) (us - 1000000) else TV s us.

Definition evutil_timersub (tvp uvp : timeval) : timeval :=
  let s := i64 (tv_sec tvp - tv_sec uvp) in
  let us := i64 (tv_usec tvp - tv_usec uvp) in
  if us <? 0 then TV (i64 (s - 1)) (us + 1000000) else TV s us.

Definition evutil_timerclear : timeval := TV 0 0.

Definition evutil_timerisset (tvp : timeval) : bool :=
  negb (tv_sec tvp =? 0) || negb (tv_usec tvp =? 0).

(** ** Abstract value *)

Definition tv_us (t : timeval) : Z := tv_sec t * 1000000 + tv_usec t.
Definition tv_norm (t : timeval) : Prop := 0 <= tv_usec t < 1000000.

#[export] Instance tv_norm_dec t : Decision (tv_norm t).
Proof. unfold tv_norm; apply _. Defined.

(** Microseconds that are not far out of their range, and a sum of seconds that
    fits with a carry. *)
Definition small_usec (t : timeval) : Prop := 0 <= tv_usec t < 2 ^ 32.
Definition sec_fits (s : Z) : Prop := - 2 ^ 63 < s < 2 ^ 63 - 1.

#[export] Instance sec_fits_dec s : Decision (sec_fits s).
Proof. unfold sec_fits; apply _. Defined.

Lemma norm_small t : tv_norm t → small_usec t.
Proof. unfold tv_norm, small_usec. lia. Qed.
Lemma timeradd_fits t u :
  small_usec t → small_usec u → sec_fits (tv_sec t + tv_sec u) →
  evutil_timeradd t u =
    if 1000000 <=? tv_usec t + tv_usec u
    then TV (tv_sec t + tv_sec u + 1) (tv_usec t + tv_usec u - 1000000)
    else TV (tv_sec t + tv_sec u) (tv_usec t + tv_usec u).
Proof.
  unfold evutil_timeradd, small_usec, sec_fits. intros.
  rewrite (i64_small (tv_usec t + tv_usec u)), (i64_small (tv_sec t + tv_sec u)), i64_small by lia. done.
Qed.
Lemma timersub_fits t u :
  small_usec t → small_usec u → sec_fits (tv_sec t - tv_sec u) →
  evutil_timersub t u =
    if tv_usec t - tv_usec u <? 0
    then TV (tv_sec t - tv_sec u - 1) (tv_usec t - tv_usec u + 1000000)
    else TV (tv_sec t - tv_sec u) (tv_usec t - tv_usec u).
Proof.
  unfold evutil_timersub, small_usec, sec_fits. intros.
  rewrite (i64_small (tv_usec t - tv_usec u)), (i64_small (tv_sec t - tv_sec u)), i64_small by lia. done.
Qed.
Lemma timeradd_us t u :
  small_usec t → small_usec u → sec_fits (tv_sec t + tv_sec u) →
  tv_us (evutil_timeradd t u) = tv_us t + tv_us u.
Proof. intros. rewrite timeradd_fits by done. unfold tv_us. zcase; simpl; lia. Qed.
Lemma timersub_us t u :
  small_usec t → small_usec u → sec_fits (tv_sec t - tv_sec u) →
  tv_us (evutil_timersub t u) = tv_us t - tv_us u.
Proof. intros. rewrite timersub_fits by done. unfold tv_us. zcase; simpl; lia. Qed.
(** The microseconds are right even when the seconds wrap around. *)
Lemma timeradd_usec t u :
  small_usec t → small_usec u →
  tv_usec (evutil_timeradd t u) =
    if 1000000 <=? tv_usec t + tv_usec u then tv_usec t + tv_usec u - 1000000 else tv_usec t + tv_usec u.
Proof.
  unfold evutil_timeradd, small_usec. intros. rewrite (i64_small (tv_usec t + tv_usec u)) by lia. by zcase.
Qed.
Lemma timeradd_sec_range t u : - 2 ^ 63 <= tv_sec (evutil_timeradd t u) < 2 ^ 63.
Proof. unfold evutil_timeradd. zcase; apply i64_range. Qed.
Lemma timeradd_norm t u : tv_norm t → tv_norm u → tv_norm (evutil_timeradd t u).
Proof.
  intros Ht Hu. unfold tv_norm. rewrite timeradd_usec by by apply norm_small.
  unfold tv_norm in *. zcase; lia.
Qed.
Lemma timersub_norm t u : tv_norm t → tv_norm u → tv_norm (evutil_timersub t u).
Proof.
  unfold evutil_timersub, tv_norm. intros. rewrite (i64_small (tv_usec t - tv_usec u)) by lia. zcase; simpl; lia.
Qed.
Lemma tv_us_inj t u : tv_norm t → tv_norm u → tv_us t = tv_us u → t = u.
Proof.
  destruct t, u; unfold tv_norm, tv_us; simpl; intros.
  f_equal; lia.
Qed.

#[export] Hint Resolve timeradd_norm timersub_norm norm_small : evlib.

(** ** The order of the timer structures

    [tv_gtb] is [evutil_timercmp(a, b, >)].  It is the strict part of a total
    preorder on all [timeval]s, normalised or not, which is what the heap
    relies on. *)
Definition tv_gtb (a b : timeval) : bool := evutil_timercmp Z.gtb a b.

Lemma tv_gtb_spec a b :
  tv_gtb a b = true ↔
  tv_sec b < tv_sec a ∨ (tv_sec a = tv_sec b ∧ tv_usec b < tv_usec a).
Proof.
  unfold tv_gtb, evutil_timercmp. rewrite !Z.gtb_ltb.
  destruct (Z.eqb_spec (tv_sec a) (tv_sec b)); rewrite Z.ltb_lt; lia.
Qed.
Lemma tv_gtb_false a b :
  tv_gtb a b = false ↔
  tv_sec a < tv_sec b ∨ (tv_sec a = tv_sec b ∧ tv_usec a <= tv_usec b).
Proof.
  rewrite <-not_true_iff_false, tv_gtb_spec. lia.
Qed.
Lemma tv_gtb_irrefl a : tv_gtb a a = false.
Proof. apply tv_gtb_false; lia. Qed.
Lemma tv_gtb_asym a b : tv_gtb a b = true → tv_gtb b a = false.
Proof. rewrite tv_gtb_spec, tv_gtb_false; lia. Qed.
(** [tv_gtb a b = false] reads "a is not later than b"; it is transitive. *)
Lemma tv_gtb_trans a b c : tv_gtb a b = false → tv_gtb b c = false → tv_gtb a c = false.
Proof. rewrite !tv_gtb_false; lia. Qed.

Lemma timercmp_us_lt a b :
  tv_norm a → tv_norm b → evutil_timercmp Z.ltb a b = (tv_us a <? tv_us b).
Proof.
  unfold evutil_timercmp, tv_norm, tv_us; intros.
  destruct (Z.eqb_spec (tv_sec a) (tv_sec b)); apply eq_true_iff_eq;
    rewrite !Z.ltb_lt; lia.
Qed.
Lemma timercmp_us_le a b :
  tv_norm a → tv_norm b → evutil_timercmp Z.leb a b = (tv_us a <=? tv_us b).
Proof.
  unfold evutil_timercmp, tv_norm, tv_us; intros.
  destruct (Z.eqb_spec (tv_sec a) (tv_sec b)); apply eq_true_iff_eq;
    rewrite !Z.leb_le; lia.
Qed.
Lemma timercmp_us_gt a b :
  tv_norm a → tv_norm b → tv_gtb a b = (tv_us b <? tv_us a).
Proof.
  intros; apply eq_true_iff_eq. rewrite tv_gtb_spec, Z.ltb_lt.
  unfold tv_norm, tv_us in *; lia.
Qed.

(** ** Milliseconds *)

Definition LONG_MAX : Z := 2 ^ 63 - 1.
Definition MAX_SECONDS_IN_MSEC_LONG : Z := (LONG_MAX - 999) `div` 1000.

(** C's [/] truncates towards zero. *)
Definition evutil_tv_to_msec_ (tv : timeval) : Z :=
  if (1000000 <? tv_usec tv) || (MAX_SECONDS_IN_MSEC_LONG <? tv_sec tv) then -1
  else i64 (tv_sec tv * 1000 + Z.quot (tv_usec tv + 999) 1000).

(** ** The monotonic ratchet *)

Record evutil_monotonic_timer := Timer {
  adjust_monotonic_clock : timeval;
  last_time : timeval
}.

Definition adjust_monotonic_time (base : evutil_monotonic_timer) (tv : timeval)
  : evutil_monotonic_timer * timeval :=
  let tv := evutil_timeradd tv (adjust_monotonic_clock base) in
  if evutil_timercmp Z.ltb tv (last_time base)
  then
    let adjust := evutil_timersub (last_time base) tv in
    let adj := evutil_timeradd adjust (adjust_monotonic_clock base) in
    let tv := last_time base in
    (Timer adj tv, tv)
  else (Timer (adjust_monotonic_clock base) tv, tv).

(** Feeding the ratchet a sequence of raw clock readings. *)
Fixpoint ratchet (base : evutil_monotonic_timer) (raw : list timeval)
  : list timeval :=
  match raw with
  | [] => []
  | tv :: raw =>
      let '(base, out) := adjust_monotonic_time base tv in
      out :: ratchet base raw
  end.

Definition timer_wf (b : evutil_monotonic_timer) : Prop :=
  tv_norm (adjust_monotonic_clock b) ∧ tv_norm (last_time b).

(** Seconds of the timer between 0 and [P]. *)
Definition timer_within (P : Z) (b : evutil_monotonic_timer) : Prop :=
  0 <= tv_sec (adjust_monotonic_clock b) <= P ∧ 0 <= tv_sec (last_time b) <= P.

(** One reading of at most [M] seconds: time does not go back, and the timer
    moves by at most [M + 1] seconds. *)
Lemma adjust_monotonic_step b tv b' out P M :
  timer_wf b → tv_norm tv → timer_within P b → 0 <= tv_sec tv <= M → P + M < 2 ^ 61 →
  adjust_monotonic_time b tv = (b', out) →
  timer_wf b' ∧ timer_within (P + M + 1) b' ∧ last_time b' = out ∧ tv_us (last_time b) <= tv_us out ∧
  tv_us (adjust_monotonic_clock b) <= tv_us (adjust_monotonic_clock b') ∧
  tv_us out = tv_us tv + tv_us (adjust_monotonic_clock b').
Proof.
  intros [Ha Hl] Ht [Hpa Hpl] HM Hfit. unfold adjust_monotonic_time, timer_wf, timer_within.
  set (t := evutil_timeradd tv (adjust_monotonic_clock b)).
  assert (Hn : tv_norm t) by by apply timeradd_norm.
  assert (Hu : tv_us t = tv_us tv + tv_us (adjust_monotonic_clock b)).
  { apply timeradd_us; [by apply norm_small..|unfold sec_fits; lia]. }
  rewrite timercmp_us_lt by done. destruct (Z.ltb_spec (tv_us t) (tv_us (last_time b))) as [Hlt|Hge];
    intros [= <- <-]; cbn [adjust_monotonic_clock last_time].
  - set (d := evutil_timersub (last_time b) t). unfold tv_norm, tv_us in Hn, Hl, Ha, Ht, Hu, Hlt.
    assert (Hdn : tv_norm d) by by apply timersub_norm.
    assert (Hd : tv_us d = tv_us (last_time b) - tv_us t).
    { apply timersub_us; [by apply norm_small..|unfold sec_fits; lia]. }
    assert (Hen : tv_norm (evutil_timeradd d (adjust_monotonic_clock b))) by by apply timeradd_norm.
    assert (He : tv_us (evutil_timeradd d (adjust_monotonic_clock b)) = tv_us d + tv_us (adjust_monotonic_clock b)).
    { apply timeradd_us; [by apply norm_small..|]. unfold tv_norm, tv_us, sec_fits in *. lia. }
    unfold tv_norm, tv_us in *. split_and!; try done; lia.
  - unfold tv_norm, tv_us in *. split_and!; try done; lia.
Qed.

Definition tv_sorted (from : Z) (l : list timeval) : Prop :=
  (fix go lo l := match l with [] => True | t :: l => lo <= tv_us t ∧ go (tv_us t) l end)
    from l.

(** The values handed out by the monotonic timer never go backwards,
    whatever the raw clock does, as long as the adjustments
    cannot add up to more than the seconds can hold. *)
Lemma ratchet_sorted M raw : ∀ b P,
  timer_wf b → timer_within P b → Forall (λ tv, tv_norm tv ∧ 0 <= tv_sec tv <= M) raw →
  0 <= M → P + (zlen raw) * (M + 1) < 2 ^ 61 →
  tv_sorted (tv_us (last_time b)) (ratchet b raw).
Proof.
  induction raw as [|tv raw IH]; intros b P Hb HP Hraw HM Hfit; [done|].
  inversion_clear Hraw as [|? ? [Htv Hsec] Hrest]. simpl. rewrite zlen_cons in Hfit. pose proof (zlen_nonneg raw).
  destruct (adjust_monotonic_time b tv) as [b' out] eqn:E.
  destruct (adjust_monotonic_step _ _ _ _ P M Hb Htv HP Hsec ltac:(nia) E) as (Hb' & HP' & Hl & Hle & _ & _).
  split; [done|]. rewrite <-Hl. apply (IH b' (P + M + 1)); [done..|nia].
Qed.

(** Millisecond conversion rounds up and cannot overflow a [long]. *)
Lemma tv_to_msec_bounds tv :
  0 <= tv_sec tv → 0 <= tv_usec tv → evutil_tv_to_msec_ tv ≠ -1 →
  tv_us tv <= evutil_tv_to_msec_ tv * 1000 < tv_us tv + 1000 ∧
  evutil_tv_to_msec_ tv <= LONG_MAX.
Proof.
  unfold evutil_tv_to_msec_, tv_us.
  change MAX_SECONDS_IN_MSEC_LONG with 9223372036854774.
  change LONG_MAX with 9223372036854775807.
  intros Hs Hu.
  destruct (Z.ltb_spec 1000000 (tv_usec tv)); [done|].
  destruct (Z.ltb_spec 9223372036854774 (tv_sec tv)); [done|].
  intros _. rewrite Z.quot_div_nonneg by lia. cbn [orb]. rewrite i64_small; lia.
Qed.

Lemma ratchet_sorted_witness :
  ratchet (Timer (TV 0 0) (TV 0 0)) [TV 5 0; TV 3 999999; TV 4 1] = [TV 5 0; TV 5 0; TV 5 2] ∧
  tv_sorted 0 [TV 5 0; TV 5 0; TV 5 2].
Proof.
  split; [done|].
  apply (ratchet_sorted 5 [TV 5 0; TV 3 999999; TV 4 1] (Timer (TV 0 0) (TV 0 0)) 0).
  - done.
  - done.
  - repeat constructor; simpl; lia.
  - done.
  - done.
Defined.
