(* ===== verification/MinHeap.v ===== *)
(** The timer heap of [src/minheap-internal.h]: a binary min-heap of events
    ordered by [ev_timeout], in which every event also stores its own position
    ([ev_timeout_pos.min_heap_idx]) so that it can be erased in place.

    The heap does not own the events.  It reads their timeouts and writes their
    positions through the interface [TimerStore]; [EventBase.v] provides the
    instance for the events of an [event_base].  Growing the array goes through
    the interface [Realloc].

    Functions return [None] when they would access memory outside the array
    (or run out of fuel); the theorems show that neither happens. *)
From S2P Require Import Prelude Timeval.

(** Identity (address) of an event. *)
Abbreviation evid := nat.

(** * Interfaces *)

Class TimerStore (St : Type) := {
  ts_timeout : St → evid → timeval;
  ts_idx : St → evid → Z;
  ts_set_idx : evid → Z → St → St
}.

Class TimerStoreLaws (St : Type) `{TimerStore St} := {
  ts_idx_set s e i x :
    ts_idx (ts_set_idx e i s) x = if decide (x = e) then i else ts_idx s x;
  ts_timeout_set s e i x : ts_timeout (ts_set_idx e i s) x = ts_timeout s x
}.

(** [mm_realloc(p, a * sizeof *p)], with [a] the number of elements. *)
Class Realloc := {
  mm_realloc : list evid → Z → option (list evid);
  mm_realloc_len p a p' : mm_realloc p a = Some p' → zlen p <= a → zlen p' = a;
  mm_realloc_keep p a p' i x :
    mm_realloc p a = Some p' → zlen p <= a → zget p i = Some x → zget p' i = Some x
}.

(** * Data and operations *)

(** [p] is the whole allocated array: [a] is its length. *)
Record min_heap := MinHeap { hp : list evid; hn : Z }.
Definition ha (h : min_heap) : Z := zlen (hp h).

Definition min_heap_ctor_ : min_heap := MinHeap [] 0.
Definition min_heap_empty_ (s : min_heap) : bool := hn s =? 0.
Definition min_heap_size_ (s : min_heap) : Z := hn s.
Definition min_heap_top_ (s : min_heap) : option (option evid) :=
  if hn s =? 0 then Some None else e ← zget (hp s) 0; Some (Some e).

Section heap_ops.
Context {St : Type} {TS : TimerStore St} {RA : Realloc}.

Definition min_heap_elem_greater (s : St) (a b : evid) : bool :=
  tv_gtb (ts_timeout s a) (ts_timeout s b).

Definition min_heap_elem_init_ (e : evid) (s : St) : St := ts_set_idx e (-1) s.
Definition min_heap_elt_is_top_ (s : St) (e : evid) : bool := ts_idx s e =? 0.

(** [(s->p[hole_index] = e)->ev_timeout_pos.min_heap_idx = hole_index] *)
Definition put_at (p : list evid) (s : St) (hole : Z) (e : evid)
  : option (list evid * St) :=
  p ← zset p hole e; Some (p, ts_set_idx e (i32 hole) s).

Fixpoint min_heap_shift_up_ (fuel : nat) (p : list evid) (s : St) (hole : Z) (e : evid)
  : option (list evid * St) :=
  match fuel with
  | O => None
  | S fuel =>
      let parent := u32 (hole - 1) `div` 2 in
      if hole =? 0 then put_at p s hole e
      else
        y ← zget p parent;
        if min_heap_elem_greater s y e then
          '(p, s) ← put_at p s hole y;
          min_heap_shift_up_ fuel p s parent e
        else put_at p s hole e
  end.

Definition min_heap_shift_up_unconditional_ (fuel : nat) (p : list evid) (s : St)
    (hole : Z) (e : evid) : option (list evid * St) :=
  let parent := u32 (hole - 1) `div` 2 in
  y ← zget p parent;
  '(p, s) ← put_at p s hole y;
  min_heap_shift_up_ fuel p s parent e.

Fixpoint min_heap_shift_down_ (fuel : nat) (p : list evid) (n : Z) (s : St)
    (hole : Z) (e : evid) : option (list evid * St) :=
  match fuel with
  | O => None
  | S fuel =>
      let min_child := u32 (2 * u32 (hole + 1)) in
      if min_child <=? n then
        dec ← (if min_child =? n then Some true
               else a ← zget p min_child;
                    b ← zget p (u32 (min_child - 1));
                    Some (min_heap_elem_greater s a b));
        let min_child := u32 (min_child - (if dec : bool then 1 else 0)) in
        x ← zget p min_child;
        if negb (min_heap_elem_greater s e x) then put_at p s hole e
        else
          '(p, s) ← put_at p s hole x;
          min_heap_shift_down_ fuel p n s min_child e
      else put_at p s hole e
  end.

(** Positions are 32-bit, and each step halves or doubles one. *)
Definition shift_fuel : nat := 33.

Definition min_heap_reserve_ (h : min_heap) (n : Z) : option min_heap :=
  if ha h <? n then
    let a := if ha h =? 0 then 8 else u32 (ha h * 2) in
    let a := if a <? n then n else a in
    p ← mm_realloc (hp h) a;
    Some (MinHeap p (hn h))
  else Some h.

(** Result code, heap and events; [None] is stuck. *)
Definition min_heap_push_ (h : min_heap) (s : St) (e : evid)
  : option (Z * min_heap * St) :=
  if hn h =? UINT32_MAX then Some (-1, h, s)
  else match min_heap_reserve_ h (hn h + 1) with
  | None => Some (-1, h, s)
  | Some h =>
      '(p, s) ← min_heap_shift_up_ shift_fuel (hp h) s (hn h) e;
      Some (0, MinHeap p (hn h + 1), s)
  end.

Definition min_heap_pop_ (h : min_heap) (s : St) : option (option evid * min_heap * St) :=
  if hn h =? 0 then Some (None, h, s)
  else
    e ← zget (hp h) 0;
    let n := u32 (hn h - 1) in
    last ← zget (hp h) n;
    '(p, s) ← min_heap_shift_down_ shift_fuel (hp h) n s 0 last;
    Some (Some e, MinHeap p n, ts_set_idx e (-1) s).

(** The body shared by [erase] and [adjust]: put [x] into the slot [idx],
    moving it up or down as needed. *)
Definition min_heap_place (p : list evid) (n : Z) (s : St) (idx : Z) (x : evid)
  : option (list evid * St) :=
  let parent := u32 (Z.quot (idx - 1) 2) in
  up ← (if 0 <? idx then y ← zget p parent; Some (min_heap_elem_greater s y x)
        else Some false);
  if up : bool
  then min_heap_shift_up_unconditional_ shift_fuel p s (u32 idx) x
  else min_heap_shift_down_ shift_fuel p n s (u32 idx) x.

Definition min_heap_erase_ (h : min_heap) (s : St) (e : evid)
  : option (Z * min_heap * St) :=
  if negb (ts_idx s e =? -1) then
    let n := u32 (hn h - 1) in
    last ← zget (hp h) n;
    '(p, s) ← min_heap_place (hp h) n s (ts_idx s e) last;
    Some (0, MinHeap p n, ts_set_idx e (-1) s)
  else Some (-1, h, s).

Definition min_heap_adjust_ (h : min_heap) (s : St) (e : evid)
  : option (Z * min_heap * St) :=
  if ts_idx s e =? -1 then min_heap_push_ h s e
  else
    '(p, s) ← min_heap_place (hp h) (hn h) s (ts_idx s e) e;
    Some (0, MinHeap p (hn h), s).
End heap_ops.

(** * Invariants *)

Section heap_theory.
Context {St : Type} {TS : TimerStore St} {TSL : TimerStoreLaws St} {RA : Realloc}.
Implicit Types (p q : list evid) (s : St) (e x y : evid) (n i : Z) (ex : option evid).

(** Array and stored positions agree on the first [n] slots.  [ex] is an
    event that is being removed: its stored position is not constrained. *)
Record slots_ok ex p n s : Prop := {
  so_cap : 0 <= n <= zlen p;
  so_fwd i : 0 <= i < n →
    ∃ x, zget p i = Some x ∧ ts_idx s x = i ∧ Some x ≠ ex;
  so_bwd x : Some x ≠ ex → ts_idx s x ≠ -1 →
    0 <= ts_idx s x < n ∧ zget p (ts_idx s x) = Some x
}.

(** The event in slot [j] is not later than the one in slot [i]. *)
Definition slot_le p s j i : Prop :=
  ∀ x y, zget p j = Some x → zget p i = Some y → min_heap_elem_greater s x y = false.

Definition parent_of i : Z := (i - 1) `div` 2.

Definition heap_ordered p n s : Prop :=
  ∀ i, 0 < i < n → slot_le p s (parent_of i) i.

(** Order with slot [h] possibly earlier than its parent. *)
Definition up_inv p n s h : Prop :=
  (∀ i, 0 < i < n → i ≠ h → slot_le p s (parent_of i) i) ∧
  (∀ i, 0 < i < n → parent_of i = h → 0 < h → slot_le p s (parent_of h) i).
(** Order with slot [h] possibly later than its children. *)
Definition down_inv p n s h : Prop :=
  (∀ i, 0 < i < n → parent_of i ≠ h → slot_le p s (parent_of i) i) ∧
  (∀ i, 0 < i < n → parent_of i = h → 0 < h → slot_le p s (parent_of h) i).

(** The invariant of [struct min_heap].  Positions are stored in an [int] and
    the code computes [2 * (hole_index + 1)] in [unsigned]: the heap works
    up to [2^31 - 1] events. *)
Record heap_wf (h : min_heap) s : Prop := {
  hw_slots : slots_ok None (hp h) (hn h) s;
  hw_order : heap_ordered (hp h) (hn h) s;
  hw_max : hn h < 2 ^ 31
}.

(** Both arrays and stores with the hole filled by [e]. *)
Definition fill p h e : list evid := <[Z.to_nat h := e]> p.

Lemma zget_fill p h e i :
  0 <= h < zlen p → zget (fill p h e) i = if decide (h = i) then Some e else zget p i.
Proof. intros. by apply zget_insert. Qed.
Lemma zlen_fill p h e : zlen (fill p h e) = zlen p.
Proof. apply zlen_insert. Qed.
Lemma put_at_ok p s h e :
  0 <= h < zlen p → h < 2 ^ 31 →
  put_at p s h e = Some (fill p h e, ts_set_idx e h s).
Proof.
  intros. unfold put_at. rewrite zset_in_range by lia. simpl.
  by rewrite i32_small by lia.
Qed.
Lemma greater_set_idx s e i x y :
  min_heap_elem_greater (ts_set_idx e i s) x y = min_heap_elem_greater s x y.
Proof. unfold min_heap_elem_greater. by rewrite !ts_timeout_set. Qed.
Lemma greater_asym s x y :
  min_heap_elem_greater s x y = true → min_heap_elem_greater s y x = false.
Proof. apply tv_gtb_asym. Qed.
Lemma not_greater_trans s x y z :
  min_heap_elem_greater s x y = false → min_heap_elem_greater s y z = false →
  min_heap_elem_greater s x z = false.
Proof. apply tv_gtb_trans. Qed.
Lemma slot_le_set_idx p s e k j i : slot_le p (ts_set_idx e k s) j i ↔ slot_le p s j i.
Proof. unfold slot_le. by setoid_rewrite greater_set_idx. Qed.
Lemma slot_le_trans p s i j k y :
  zget p j = Some y → slot_le p s i j → slot_le p s j k → slot_le p s i k.
Proof. intros Hy H1 H2 x z Hx Hz. eapply not_greater_trans; eauto. Qed.

(** One move: the event [y] of slot [k] goes to [h], and the hole to [k]. *)
Lemma slots_move ex p n s h k e y :
  h ≠ k → 0 <= h < n → 0 <= k < n → zget p k = Some y →
  slots_ok ex (fill p h e) n (ts_set_idx e h s) →
  slots_ok ex (fill (fill p h y) k e) n (ts_set_idx e k (ts_set_idx y h s)) ∧ y ≠ e.
Proof.
  intros Hne Hh Hk Hy [Hcap Hf Hb]. rewrite zlen_fill in Hcap.
  assert (y ≠ e ∧ ts_idx s y = k ∧ Some y ≠ ex) as (Hye & Hyk & Hyex).
  { destruct (Hf k Hk) as (x & Hx & Hi & Hxe).
    rewrite zget_fill, decide_False in Hx by lia.
    rewrite ts_idx_set in Hi. simplify_eq. case_decide; [lia|done]. }
  split; [|done]. split.
  - rewrite !zlen_fill. lia.
  - intros i Hi. rewrite zget_fill by (rewrite zlen_fill; lia).
    rewrite zget_fill by lia.
    destruct (decide (k = i)) as [<-|].
    { exists e. rewrite ts_idx_set, decide_True by done.
      destruct (Hf h Hh) as (x & Hx & _ & Hxe).
      rewrite zget_fill, decide_True in Hx by lia. injection Hx as <-. done. }
    destruct (decide (h = i)) as [<-|].
    { exists y. rewrite !ts_idx_set, decide_False, decide_True by done. done. }
    destruct (Hf i Hi) as (x & Hx & Hxi & Hxe).
    rewrite zget_fill, decide_False in Hx by lia.
    exists x. rewrite !ts_idx_set. rewrite ts_idx_set in Hxi.
    repeat case_decide; subst; done || lia.
  - intros x Hxe Hx1. revert Hx1.
    specialize (Hb x Hxe). rewrite ts_idx_set in Hb. rewrite !ts_idx_set.
    destruct (decide (x = e)) as [->|].
    { intros _. rewrite zget_fill by (rewrite zlen_fill; lia).
      by rewrite decide_True. }
    destruct (decide (x = y)) as [->|].
    { intros _. rewrite zget_fill by (rewrite zlen_fill; lia).
      rewrite decide_False by lia. rewrite zget_fill by lia.
      by rewrite decide_True. }
    intros Hx1. destruct (Hb Hx1) as [Hr Hg]. split; [done|].
    rewrite zget_fill in Hg by lia.
    rewrite zget_fill by (rewrite zlen_fill; lia). rewrite zget_fill by lia.
    repeat case_decide; congruence.
Qed.

Lemma parent_lt i : 0 < i → 0 <= parent_of i < i.
Proof. unfold parent_of; lia. Qed.

(** Reads through one move. *)
Lemma zget_move p h k e y i :
  0 <= h < zlen p → 0 <= k < zlen p →
  zget (fill (fill p h y) k e) i =
    if decide (k = i) then Some e else if decide (h = i) then Some y else zget p i.
Proof.
  intros. rewrite zget_fill by (rewrite zlen_fill; lia). by rewrite zget_fill.
Qed.

Lemma up_inv_move p n s h e y :
  0 < h < n → n <= zlen p → zget p (parent_of h) = Some y →
  min_heap_elem_greater s y e = true →
  up_inv (fill p h e) n s h →
  up_inv (fill (fill p h y) (parent_of h) e) n s (parent_of h).
Proof.
  intros Hh Hn Hy Hgt [Ha Hb]. pose proof (parent_lt h ltac:(lia)) as Hp.
  assert (Hye : min_heap_elem_greater s e y = false) by by apply greater_asym.
  assert (Hle : ∀ i x, 0 < i < n → i ≠ h → parent_of i = parent_of h →
            zget p i = Some x → min_heap_elem_greater s y x = false).
  { intros i x Hi Hih Hpi Hx. apply (Ha i Hi Hih).
    - rewrite Hpi, zget_fill, decide_False by lia. done.
    - rewrite zget_fill, decide_False by lia. done. }
  split.
  - intros i Hi Hip x z. rewrite !zget_move by lia.
    pose proof (parent_lt i ltac:(lia)) as Hpi.
    destruct (decide (parent_of h = parent_of i)) as [Heq|Hneq]; intros [= <-] || intros Hx.
    + rewrite decide_False by lia. case_decide; intros Hz; simplify_eq; try done.
      eapply not_greater_trans; [exact Hye|]. eapply Hle; eauto.
    + rewrite (decide_False (P := parent_of h = i)) by lia.
      destruct (decide (h = i)) as [<-|]; [lia|]. intros Hz.
      destruct (decide (h = parent_of i)) as [Hhi|]; simplify_eq.
      * apply (Hb i Hi); [lia..| |].
        -- rewrite zget_fill, decide_False by lia. done.
        -- rewrite zget_fill, decide_False by lia. done.
      * apply (Ha i Hi); [lia| |]; rewrite zget_fill, decide_False by lia; done.
  - intros i Hi Hpi Hp0 x z. pose proof (parent_lt (parent_of h) ltac:(lia)) as Hpp.
    pose proof (parent_lt i ltac:(lia)) as Hppi.
    rewrite !zget_move by lia.
    rewrite (decide_False (P := parent_of h = _)) by lia.
    rewrite (decide_False (P := h = parent_of _)) by lia.
    rewrite (decide_False (P := parent_of h = i)) by lia. intros Hx Hz.
    assert (Hxy : min_heap_elem_greater s x y = false).
    { apply (Ha (parent_of h)); [lia..| |]; rewrite zget_fill, decide_False by lia; done. }
    case_decide; simplify_eq; try done.
    eapply not_greater_trans; [exact Hxy|]. eapply Hle; eauto.
Qed.

Lemma down_inv_move p n s h c e x :
  0 <= h → h < c → parent_of c = h → c < n → n <= zlen p → zget p c = Some x →
  min_heap_elem_greater s e x = true →
  (∀ i, 0 < i < n → parent_of i = h → slot_le p s c i) →
  down_inv (fill p h e) n s h →
  down_inv (fill (fill p h x) c e) n s c.
Proof.
  intros Hh Hhc Hpc Hc Hn Hx Hgt Hmin [Ha Hb].
  assert (Hxe : min_heap_elem_greater s x e = false) by by apply greater_asym.
  split.
  - intros i Hi Hip u z. rewrite !zget_move by lia.
    pose proof (parent_lt i ltac:(lia)) as Hpi.
    rewrite (decide_False (P := c = parent_of i)) by lia.
    destruct (decide (h = parent_of i)) as [Heq|Hneq].
    + intros [= <-]. destruct (decide (c = i)) as [->|]; [by intros [= <-]|].
      rewrite decide_False by lia. intros Hz. by apply (Hmin i Hi).
    + rewrite (decide_False (P := c = i)) by congruence. intros Hu.
      destruct (decide (h = i)) as [->|].
      * intros [= <-]. apply (Hb c); [lia..| |]; rewrite zget_fill, decide_False by lia; done.
      * intros Hz. apply (Ha i Hi); [lia| |]; rewrite zget_fill, decide_False by lia; done.
  - intros i Hi Hpi Hc0 u z. pose proof (parent_lt i ltac:(lia)).
    rewrite !zget_move by lia. rewrite Hpc.
    rewrite (decide_False (P := c = h)), (decide_True (P := h = h)) by lia.
    intros [= <-]. rewrite !decide_False by lia. intros Hz.
    apply (Ha i Hi); [lia| |]; rewrite ?Hpi, zget_fill, decide_False by lia; done.
Qed.

Lemma up_inv_done p n s h e :
  0 <= h < n → n <= zlen p →
  (0 < h → ∀ y, zget p (parent_of h) = Some y → min_heap_elem_greater s y e = false) →
  up_inv (fill p h e) n s h → heap_ordered (fill p h e) n s.
Proof.
  intros Hh Hn Hle [Ha _] i Hi. destruct (decide (i = h)) as [->|]; [|by apply Ha].
  pose proof (parent_lt h ltac:(lia)). intros y x.
  rewrite !zget_fill by lia. rewrite decide_False, decide_True by lia.
  intros Hy [= <-]. apply Hle; [lia|done].
Qed.

Lemma down_inv_done p n s h e :
  0 <= h → h < zlen p → n <= zlen p →
  (∀ i x, 0 < i < n → parent_of i = h → zget p i = Some x →
     min_heap_elem_greater s e x = false) →
  down_inv (fill p h e) n s h → heap_ordered (fill p h e) n s.
Proof.
  intros Hh Hhp Hn Hle [Ha _] i Hi. destruct (decide (parent_of i = h)); [|by apply Ha].
  pose proof (parent_lt i ltac:(lia)). intros y x.
  rewrite !zget_fill by lia. rewrite decide_True, decide_False by lia.
  intros [= <-] Hx. by apply (Hle i).
Qed.

(** What every shift guarantees: the invariant is re-established, timeouts
    are untouched, and exactly [e] may have changed its membership. *)
Definition shifted ex n e p s p' s' : Prop :=
  slots_ok ex p' n s' ∧ heap_ordered p' n s' ∧ zlen p' = zlen p ∧
  (∀ x, ts_timeout s' x = ts_timeout s x) ∧ ts_idx s' e ≠ -1 ∧
  (∀ x, x ≠ e → ts_idx s' x = -1 ↔ ts_idx s x = -1).

Lemma heap_ordered_set_idx p n s e k :
  heap_ordered p n (ts_set_idx e k s) ↔ heap_ordered p n s.
Proof. unfold heap_ordered. by setoid_rewrite slot_le_set_idx. Qed.
Lemma up_inv_set_idx p n s h e k : up_inv p n (ts_set_idx e k s) h ↔ up_inv p n s h.
Proof. unfold up_inv. by setoid_rewrite slot_le_set_idx. Qed.
Lemma down_inv_set_idx p n s h e k : down_inv p n (ts_set_idx e k s) h ↔ down_inv p n s h.
Proof. unfold down_inv. by setoid_rewrite slot_le_set_idx. Qed.

Lemma put_at_shifted ex p n s h e :
  0 <= h < zlen p → h < 2 ^ 31 →
  slots_ok ex (fill p h e) n (ts_set_idx e h s) → heap_ordered (fill p h e) n s →
  ∃ p' s', put_at p s h e = Some (p', s') ∧ shifted ex n e p s p' s'.
Proof.
  intros. rewrite put_at_ok by lia. eexists _, _; split; [done|].
  split_and!; [done|by apply heap_ordered_set_idx|apply zlen_fill| | |].
  - intros; apply ts_timeout_set.
  - rewrite ts_idx_set, decide_True by done. lia.
  - intros x Hx. by rewrite ts_idx_set, decide_False.
Qed.

Lemma shifted_move ex n e h y p s p' s' :
  0 <= h < zlen p → h ≠ -1 → y ≠ e → ts_idx s y ≠ -1 →
  shifted ex n e (fill p h y) (ts_set_idx y h s) p' s' →
  shifted ex n e p s p' s'.
Proof.
  intros Hh Hh1 Hye Hy (?&?&Hl&Ht&He&Hi). split_and!; try done.
  - by rewrite Hl, zlen_fill.
  - intros x. by rewrite Ht, ts_timeout_set.
  - intros x Hx. rewrite Hi, ts_idx_set by done. case_decide; subst; lia.
Qed.

(** The position stored for the event of slot [k], under a filled hole. *)
Lemma slots_idx_other ex p n s h k e y :
  h ≠ k → 0 <= h < n → 0 <= k < n → zget p k = Some y →
  slots_ok ex (fill p h e) n (ts_set_idx e h s) → ts_idx s y = k ∧ y ≠ e.
Proof.
  intros Hne Hh Hk Hy [Hcap Hf _]. rewrite zlen_fill in Hcap.
  destruct (Hf k Hk) as (x & Hx & Hi & _).
  rewrite zget_fill, decide_False in Hx by lia. rewrite ts_idx_set in Hi.
  simplify_eq. case_decide; [lia|done].
Qed.

Lemma shift_up_ok ex n e fuel : ∀ p s h,
  0 <= h < n → n <= zlen p → n <= 2 ^ 31 → h < 2 ^ (Z.of_nat fuel - 1) →
  slots_ok ex (fill p h e) n (ts_set_idx e h s) → up_inv (fill p h e) n s h →
  ∃ p' s', min_heap_shift_up_ fuel p s h e = Some (p', s') ∧ shifted ex n e p s p' s'.
Proof.
  induction fuel as [|fuel IH]; intros p s h Hh Hn Hm Hf Hs Hu.
  { rewrite Z.pow_neg_r in Hf; lia. }
  simpl. destruct (Z.eqb_spec h 0) as [->|Hh0].
  { apply put_at_shifted; [lia..|done|].
    apply up_inv_done; done || lia. }
  rewrite u32_small by lia. fold (parent_of h).
  pose proof (parent_lt h ltac:(lia)) as Hp.
  destruct (zget_in_range p (parent_of h)) as [y Hy]; [lia|]. rewrite Hy; simpl.
  destruct (min_heap_elem_greater s y e) eqn:Hgt.
  - rewrite put_at_ok by lia. simpl.
    destruct (slots_move ex p n s h (parent_of h) e y) as [Hs' Hye]; [done || lia..|].
    destruct (slots_idx_other ex p n s h (parent_of h) e y) as [Hyk _]; [done || lia..|].
    destruct (IH (fill p h y) (ts_set_idx y h s) (parent_of h)) as (p' & s' & -> & Hr).
    + lia.
    + rewrite zlen_fill; lia.
    + lia.
    + destruct fuel; [simpl in Hf; lia|].
      replace (2 ^ (Z.of_nat (S (S fuel)) - 1)) with (2 * 2 ^ (Z.of_nat (S fuel) - 1)) in Hf.
      { unfold parent_of; lia. }
      rewrite <-Z.pow_succ_r by lia. f_equal; lia.
    + done.
    + apply up_inv_set_idx. apply up_inv_move; done || lia.
    + eexists _, _; split; [done|]. eapply shifted_move; [..|exact Hr]; done || lia.
  - apply put_at_shifted; [lia..|done|].
    apply up_inv_done; [lia..| |done]. intros; by simplify_eq.
Qed.

(** The child the loop of [min_heap_shift_down_] selects. *)
Lemma min_child_selected p n s h :
  0 <= h → 2 * (h + 1) <= n → n <= zlen p → n < 2 ^ 31 →
  let m := 2 * (h + 1) in
  ∃ (d : bool) x, let c := m - (if d then 1 else 0) in
    (if m =? n then Some true
     else a ← zget p m; b ← zget p (u32 (m - 1)); Some (min_heap_elem_greater s a b)) = Some d ∧
    parent_of c = h ∧ h < c < n ∧ zget p c = Some x ∧
    (∀ i, 0 < i < n → parent_of i = h → slot_le p s c i).
Proof.
  intros Hh Hmn Hn Hmax m.
  assert (Hi : ∀ i, parent_of i = h → i = m - 1 ∨ i = m) by (unfold parent_of; lia).
  assert (Hpm : parent_of m = h ∧ parent_of (m - 1) = h) by (unfold parent_of; lia).
  rewrite u32_small by lia.
  destruct (zget_in_range p (m - 1)) as [b Hb]; [lia|].
  destruct (Z.eqb_spec m n) as [Hmeq|].
  - exists true, b. simpl. split_and!; [done|lia..|done|].
    intros i Hi0 [-> | ->]%Hi; [|lia]. intros u v Hu Hv. simplify_eq. apply tv_gtb_irrefl.
  - destruct (zget_in_range p m) as [a Ha]; [lia|]. rewrite Ha, Hb. simpl.
    destruct (min_heap_elem_greater s a b) eqn:Hg; [exists true, b|exists false, a]; simpl;
      rewrite ?Z.sub_0_r; (split_and!; [done|lia..|done|]);
      intros i Hi0 [-> | ->]%Hi u v Hu Hv; simplify_eq;
      done || apply tv_gtb_irrefl || by apply greater_asym.
Qed.

Lemma shift_down_ok ex n e fuel : ∀ p s h,
  0 <= h < n → n <= zlen p → n < 2 ^ 31 → 2 ^ 32 <= (h + 1) * 2 ^ Z.of_nat fuel →
  slots_ok ex (fill p h e) n (ts_set_idx e h s) → down_inv (fill p h e) n s h →
  ∃ p' s', min_heap_shift_down_ fuel p n s h e = Some (p', s') ∧ shifted ex n e p s p' s'.
Proof.
  induction fuel as [|fuel IH]; intros p s h Hh Hn Hm Hf Hs Hd.
  { simpl in Hf; lia. }
  cbn [min_heap_shift_down_]. rewrite (u32_small (h + 1)), (u32_small (2 * _)) by lia.
  destruct (Z.leb_spec (2 * (h + 1)) n) as [Hle|Hgt].
  - destruct (min_child_selected p n s h) as (d & x & -> & Hpc & Hc & Hx & Hmin); [lia..|].
    cbn [mbind option_bind]. rewrite u32_small by (destruct d; lia).
    set (c := 2 * (h + 1) - (if d then 1 else 0)) in *. rewrite Hx. cbn [mbind option_bind].
    destruct (min_heap_elem_greater s e x) eqn:Hg; cbn [negb].
    + rewrite put_at_ok by lia. cbn [mbind option_bind].
      destruct (slots_move ex p n s h c e x) as [Hs' Hye]; [done || lia..|].
      destruct (slots_idx_other ex p n s h c e x) as [Hxk _]; [done || lia..|].
      destruct (IH (fill p h x) (ts_set_idx x h s) c) as (p' & s' & -> & Hr).
      * lia.
      * rewrite zlen_fill; lia.
      * lia.
      * rewrite Nat2Z.inj_succ, Z.pow_succ_r in Hf by lia. unfold parent_of in Hpc. nia.
      * done.
      * apply down_inv_set_idx. apply down_inv_move; done || lia.
      * eexists _, _; split; [done|]. eapply shifted_move; [..|exact Hr]; done || lia.
    + apply put_at_shifted; [lia..|done|].
      apply down_inv_done; [lia..| |done]. intros i z Hi Hpi Hz.
      eapply not_greater_trans; [exact Hg|]. by apply (Hmin i).
  - apply put_at_shifted; [lia..|done|].
    apply down_inv_done; [lia..| |done]. unfold parent_of; lia.
Qed.

(** Order everywhere except around slot [h]. *)
Definition hole_inv p n s h : Prop :=
  (∀ i, 0 < i < n → i ≠ h → parent_of i ≠ h → slot_le p s (parent_of i) i) ∧
  (∀ i, 0 < i < n → parent_of i = h → 0 < h → slot_le p s (parent_of h) i).

Lemma heap_ordered_hole p n m s h :
  heap_ordered p n s → m <= n → n <= zlen p → 0 <= h < n → hole_inv p m s h.
Proof.
  intros Ho Hm Hn Hh. split; [intros; apply Ho; lia|].
  intros i Hi Hpi Hh0. pose proof (parent_lt i ltac:(lia)).
  destruct (zget_in_range p h) as [y Hy]; [lia|].
  eapply slot_le_trans; [exact Hy|by apply Ho; lia|]. rewrite <-Hpi. apply Ho; lia.
Qed.

Lemma shift_up_unconditional_eq fuel p s h e y :
  0 < h < 2 ^ 32 → zget p (parent_of h) = Some y → min_heap_elem_greater s y e = true →
  min_heap_shift_up_unconditional_ fuel p s h e = min_heap_shift_up_ (S fuel) p s h e.
Proof.
  intros Hh Hy Hg. unfold min_heap_shift_up_unconditional_. simpl.
  destruct (Z.eqb_spec h 0); [lia|]. rewrite u32_small by lia.
  fold (parent_of h). rewrite Hy. simpl. by rewrite Hg.
Qed.

Lemma quot_parent i : 0 < i < 2 ^ 31 → u32 (Z.quot (i - 1) 2) = parent_of i.
Proof.
  intros. rewrite Z.quot_div_nonneg, u32_small by lia. done.
Qed.

Lemma place_ok ex n p s h e :
  0 <= h < n → n <= zlen p → n < 2 ^ 31 →
  slots_ok ex (fill p h e) n (ts_set_idx e h s) → hole_inv p n s h →
  ∃ p' s', min_heap_place p n s h e = Some (p', s') ∧ shifted ex n e p s p' s'.
Proof.
  intros Hh Hn Hm Hs [Ha Hb]. unfold min_heap_place.
  assert (Hdown : (0 < h → ∀ y, zget p (parent_of h) = Some y →
             min_heap_elem_greater s y e = false) →
            ∃ p' s', min_heap_shift_down_ shift_fuel p n s (u32 h) e = Some (p', s') ∧
                     shifted ex n e p s p' s').
  { intros Hle. rewrite u32_small by lia.
    apply shift_down_ok; [lia..|unfold shift_fuel; simpl; lia|done|]. split.
    - intros i Hi Hpi x z. pose proof (parent_lt i ltac:(lia)). rewrite !zget_fill by lia.
      rewrite (decide_False (P := h = parent_of i)) by lia.
      destruct (decide (h = i)) as [->|]; [intros Hx [= <-]; apply Hle; done || lia|].
      by apply Ha.
    - intros i Hi Hpi Hh0 x z. pose proof (parent_lt h Hh0). pose proof (parent_lt i ltac:(lia)).
      rewrite !zget_fill, !decide_False by lia. by apply Hb. }
  destruct (Z.ltb_spec 0 h) as [Hh0|]; [|apply Hdown; lia].
  pose proof (parent_lt h Hh0). rewrite quot_parent by lia.
  destruct (zget_in_range p (parent_of h)) as [y Hy]; [lia|]. rewrite Hy; cbn [mbind option_bind].
  destruct (min_heap_elem_greater s y e) eqn:Hg.
  - rewrite u32_small, (shift_up_unconditional_eq _ _ _ _ _ y) by (done || lia).
    apply shift_up_ok; [lia..|unfold shift_fuel; simpl; lia|done|].
    assert (Hey : min_heap_elem_greater s e y = false) by by apply greater_asym.
    split.
    + intros i Hi Hih x z. pose proof (parent_lt i ltac:(lia)). rewrite !zget_fill by lia.
      rewrite (decide_False (P := h = i)) by lia.
      destruct (decide (h = parent_of i)).
      * intros [= <-] Hz. eapply not_greater_trans; [exact Hey|]. by apply (Hb i).
      * by apply Ha.
    + intros i Hi Hpi _ x z. pose proof (parent_lt i ltac:(lia)).
      rewrite !zget_fill, !decide_False by lia. by apply Hb.
  - apply Hdown. intros _ y'. rewrite Hy. by intros [= <-].
Qed.

(** ** The operations *)

Definition min_heap_member s e : Prop := ts_idx s e ≠ -1.

(** Effect of an operation on the rest of the world: timeouts and the
    membership of all events but [e] are untouched. *)
Definition heap_frame s s' e : Prop :=
  (∀ x, ts_timeout s' x = ts_timeout s x) ∧
  (∀ x, x ≠ e → (ts_idx s' x = -1 ↔ ts_idx s x = -1)).

Lemma member_slot (h : min_heap) s e :
  heap_wf h s → ts_idx s e ≠ -1 →
  0 <= ts_idx s e < hn h ∧ zget (hp h) (ts_idx s e) = Some e.
Proof. intros [[_ _ Hb] _ _] He. by apply Hb. Qed.

Lemma slot_member (h : min_heap) s i e :
  heap_wf h s → 0 <= i < hn h → zget (hp h) i = Some e → ts_idx s e = i.
Proof. intros [[_ Hf _] _ _] Hi He. destruct (Hf i Hi) as (x & ? & ? & _). by simplify_eq. Qed.

Lemma heap_wf_empty s : (∀ x, ts_idx s x = -1) → heap_wf min_heap_ctor_ s.
Proof.
  intros Hs. split; [split|..]; simpl; try done || lia.
  - intros x _ Hx. by destruct Hx.
  - intros i ?; lia.
Qed.

Lemma reserve_keeps (h : min_heap) n (h' : min_heap) s :
  heap_wf h s → 0 <= n < 2 ^ 31 → min_heap_reserve_ h n = Some h' →
  hn h' = hn h ∧ n <= zlen (hp h') ∧ zlen (hp h) <= zlen (hp h') ∧
  (∀ i x, zget (hp h) i = Some x → zget (hp h') i = Some x).
Proof.
  intros [[Hc _ _] _ _] Hn. unfold min_heap_reserve_, ha.
  destruct (Z.ltb_spec (zlen (hp h)) n); [|intros [= <-]; auto with lia].
  set (a := if zlen (hp h) =? 0 then 8 else u32 (zlen (hp h) * 2)).
  assert (n <= if a <? n then n else a) by (destruct (Z.ltb_spec a n); lia).
  destruct (mm_realloc _ _) as [p|] eqn:E; [|done]. simpl. intros [= <-]; simpl.
  pose proof (mm_realloc_len _ _ _ E). split_and!; [lia..|].
  intros i x. apply (mm_realloc_keep _ _ _ _ _ E). lia.
Qed.

Lemma heap_wf_grow (h h' : min_heap) s :
  heap_wf h s → hn h' = hn h → zlen (hp h) <= zlen (hp h') →
  (∀ i x, zget (hp h) i = Some x → zget (hp h') i = Some x) → heap_wf h' s.
Proof.
  intros [[Hc Hf Hb] Ho Hm] Hn Hl Hk. split; [split| |lia]; rewrite ?Hn.
  - lia.
  - intros i Hi. destruct (Hf i Hi) as (x & ? & ? & ?). eauto.
  - intros x Hx Hi. destruct (Hb x Hx Hi). eauto.
  - intros i Hi x y. pose proof (parent_lt i ltac:(lia)).
    destruct (zget_in_range (hp h) (parent_of i)) as [u Hu]; [lia|].
    destruct (zget_in_range (hp h) i) as [v Hv]; [lia|].
    rewrite (Hk _ _ Hu), (Hk _ _ Hv). intros [= <-] [= <-]. by apply (Ho i Hi).
Qed.

Lemma push_wf (h : min_heap) s e (h1 : min_heap) :
  heap_wf h s → ts_idx s e = -1 → hn h + 1 < 2 ^ 31 →
  min_heap_reserve_ h (hn h + 1) = Some h1 →
  ∃ h' s', min_heap_push_ h s e = Some (0, h', s') ∧ heap_wf h' s' ∧
    hn h' = hn h + 1 ∧ ts_idx s' e ≠ -1 ∧ heap_frame s s' e.
Proof.
  intros Hwf He Hmax Hres. pose proof (so_cap _ _ _ _ (hw_slots _ _ Hwf)) as Hcap.
  destruct (reserve_keeps h (hn h + 1) h1 s) as (Hn1 & Hc1 & Hl & Hk); [done|lia|done|].
  pose proof (heap_wf_grow h h1 s Hwf Hn1 Hl Hk) as Hwf1.
  unfold min_heap_push_. rewrite Hres. destruct (Z.eqb_spec (hn h) UINT32_MAX) as [Heq|_].
  { unfold UINT32_MAX in Heq; lia. }
  destruct Hwf1 as [[_ Hf Hb] Ho _].
  assert (Hslots : slots_ok None (fill (hp h1) (hn h1) e) (hn h1 + 1)
                     (ts_set_idx e (hn h1) s)).
  { split; [rewrite zlen_fill; lia| |].
    - intros i Hi. rewrite zget_fill by lia. destruct (decide (hn h1 = i)) as [<-|].
      + exists e. by rewrite ts_idx_set, decide_True.
      + destruct (Hf i) as (x & Hx & Hxi & _); [lia|]. exists x.
        rewrite ts_idx_set, decide_False; [done|]. intros ->; lia.
    - intros x _. rewrite ts_idx_set. case_decide as Hxe.
      + subst. intros _. rewrite zget_fill, decide_True by lia. auto with lia.
      + intros Hx. destruct (Hb x) as [? Hg]; [done..|]. split; [lia|].
        rewrite zget_fill, decide_False by lia. done. }
  destruct (shift_up_ok None (hn h1 + 1) e shift_fuel (hp h1) s (hn h1))
    as (p' & s' & E & Hs' & Ho' & Hl' & Ht & He' & Hi).
  { lia. } { lia. } { lia. } { unfold shift_fuel; simpl; lia. } { done. }
  { split.
    - intros i Hi Hih x y. pose proof (parent_lt i ltac:(lia)).
      rewrite !zget_fill, !decide_False by lia. apply Ho; lia.
    - unfold parent_of; lia. }
  rewrite E. cbn [mbind option_bind]. eexists _, _; split; [done|].
  split_and!; [split; done || (simpl; lia)|simpl; lia|done|split; done].
Qed.

(** Removing the event of the last slot. *)
Lemma place_last p n s e :
  0 <= n < zlen p → n + 1 < 2 ^ 31 → heap_ordered p (n + 1) s → zget p n = Some e →
  min_heap_place p n s n e = Some (fill p n e, ts_set_idx e n s).
Proof.
  intros Hn Hmax Ho He. unfold min_heap_place.
  assert (Hdown : min_heap_shift_down_ shift_fuel p n s (u32 n) e =
                    Some (fill p n e, ts_set_idx e n s)).
  { unfold shift_fuel. cbn [min_heap_shift_down_].
    rewrite (u32_small n), (u32_small (n + 1)), (u32_small (2 * _)) by lia.
    destruct (Z.leb_spec (2 * (n + 1)) n); [lia|]. apply put_at_ok; lia. }
  destruct (Z.ltb_spec 0 n); [|done].
  pose proof (parent_lt n ltac:(lia)). rewrite quot_parent by lia.
  destruct (zget_in_range p (parent_of n)) as [y Hy]; [lia|].
  rewrite Hy. cbn [mbind option_bind].
  by rewrite (Ho n ltac:(lia) y e Hy He).
Qed.

(** [e] has left the array but still stores a position; clearing it restores
    the invariant. *)
Lemma clear_idx_wf p n s e :
  slots_ok (Some e) p n s → heap_ordered p n s → n < 2 ^ 31 →
  heap_wf (MinHeap p n) (ts_set_idx e (-1) s).
Proof.
  intros [Hc Hf Hb] Ho Hm. split; simpl; [|by apply heap_ordered_set_idx|done].
  split; [done| |].
  - intros i Hi. destruct (Hf i Hi) as (x & ? & Hx & Hne). exists x.
    rewrite ts_idx_set, decide_False by congruence. done.
  - intros x _. rewrite ts_idx_set. case_decide; [done|]. apply Hb; congruence.
Qed.

Lemma erase_wf (h : min_heap) s e :
  heap_wf h s → ts_idx s e ≠ -1 →
  ∃ h' s', min_heap_erase_ h s e = Some (0, h', s') ∧ heap_wf h' s' ∧
    hn h' = hn h - 1 ∧ ts_idx s' e = -1 ∧ heap_frame s s' e.
Proof.
  intros Hwf He. destruct (member_slot h s e Hwf He) as [Hi Hgi].
  pose proof Hwf as [[Hc Hf Hb] Ho Hmax]. unfold min_heap_erase_.
  destruct (Z.eqb_spec (ts_idx s e) (-1)); [lia|]. cbn [negb].
  rewrite (u32_small (hn h - 1)) by lia.
  destruct (Hf (hn h - 1)) as (last & Hl & Hli & _); [lia|].
  rewrite Hl. cbn [mbind option_bind].
  destruct (decide (e = last)) as [<-|Hne].
  - (* the last element is the one erased *)
    rewrite Hli, place_last by (rewrite ?Z.sub_add; done || lia).
    cbn [mbind option_bind]. eexists _, _; split; [done|]. split_and!; [|simpl; lia| |].
    + apply clear_idx_wf; [|apply heap_ordered_set_idx|lia].
      * split; [rewrite zlen_fill; lia| |].
        -- intros i Hi'. destruct (Hf i) as (x & Hx & Hxi & _); [lia|]. exists x.
           assert (x ≠ e) by (intros ->; lia).
           rewrite zget_fill, decide_False, ts_idx_set, decide_False by (done || lia).
           split_and!; done || congruence.
        -- intros x Hxe. rewrite ts_idx_set, decide_False by congruence. intros Hx.
           destruct (Hb x) as [? Hg]; [done..|].
           assert (ts_idx s x ≠ hn h - 1) by (intros Heq; rewrite Heq in Hg; simplify_eq).
           rewrite zget_fill, decide_False by lia. split; [lia|done].
      * intros i Hi' x y. pose proof (parent_lt i ltac:(lia)).
        rewrite !zget_fill, !decide_False by lia. apply Ho; lia.
    + by rewrite ts_idx_set, decide_True.
    + split; intros x; [by rewrite !ts_timeout_set|]. intros Hx.
      by rewrite !ts_idx_set, !decide_False.
  - (* the last element takes its place *)
    assert (ts_idx s e ≠ hn h - 1) by (intros Heq; rewrite Heq in Hgi; congruence).
    destruct (place_ok (Some e) (hn h - 1) (hp h) s (ts_idx s e) last)
      as (p' & s' & -> & Hs' & Ho' & Hl' & Ht & He' & Hi').
    { lia. } { lia. } { lia. }
    { split; [rewrite zlen_fill; lia| |].
      - intros i Hii. rewrite zget_fill by lia. destruct (decide (ts_idx s e = i)) as [<-|].
        + exists last. rewrite ts_idx_set, decide_True by done. split_and!; congruence.
        + destruct (Hf i) as (x & Hx & Hxi & _); [lia|]. exists x.
          rewrite ts_idx_set, decide_False by (intros ->; lia).
          split_and!; [done..|]. intros [= ->]. lia.
      - intros x Hxe. rewrite ts_idx_set. case_decide as Hxl.
        + subst. intros _. split; [lia|]. by rewrite zget_fill, decide_True by lia.
        + intros Hx. destruct (Hb x) as [? Hg]; [done..|].
          assert (ts_idx s x ≠ hn h - 1) by (intros Heq; rewrite Heq in Hg; congruence).
          assert (ts_idx s x ≠ ts_idx s e) by (intros Heq; rewrite Heq in Hg; congruence).
          rewrite zget_fill, decide_False by lia. split; [lia|done]. }
    { eapply heap_ordered_hole; done || lia. }
    cbn [mbind option_bind]. eexists _, _; split; [done|].
    split_and!; [apply clear_idx_wf; done || lia|simpl; lia| |].
    + by rewrite ts_idx_set, decide_True.
    + split; intros x; [by rewrite ts_timeout_set|]. intros Hx.
      rewrite ts_idx_set, decide_False by done.
      destruct (decide (x = last)) as [->|]; [|by apply Hi'].
      split; intros; [done|lia].
Qed.

(** No event in the heap is earlier than the one in slot 0. *)
Lemma top_minimal (h : min_heap) s e :
  heap_wf h s → zget (hp h) 0 = Some e →
  ∀ x, ts_idx s x ≠ -1 → min_heap_elem_greater s e x = false.
Proof.
  intros Hwf He x Hx. destruct (member_slot h s x Hwf Hx) as [Hi Hg].
  pose proof Hwf as [[Hc _ _] Ho _]. revert x Hx Hi Hg.
  cut (∀ i, 0 <= i → i < hn h → ∀ x, zget (hp h) i = Some x →
         min_heap_elem_greater s e x = false).
  { intros Hall x ? [] ?. by eapply Hall. }
  intros i Hi. pattern i. apply Zlt_0_ind; [|done]. clear i Hi.
  intros i IH Hi Hin x Hx. destruct (decide (i = 0)) as [->|].
  { simplify_eq. apply tv_gtb_irrefl. }
  pose proof (parent_lt i ltac:(lia)).
  destruct (zget_in_range (hp h) (parent_of i)) as [y Hy]; [lia|].
  eapply not_greater_trans; [by eapply (IH (parent_of i)); eauto; lia|].
  apply (Ho i); done || lia.
Qed.

Lemma pop_is_erase (h : min_heap) s e :
  heap_wf h s → hn h ≠ 0 → zget (hp h) 0 = Some e →
  min_heap_pop_ h s = ('(_, h, s) ← min_heap_erase_ h s e; Some (Some e, h, s)).
Proof.
  intros Hwf Hn He. pose proof Hwf as [[Hc Hf Hb] Ho Hmax].
  assert (He0 : ts_idx s e = 0) by (eapply (slot_member h); done || lia).
  unfold min_heap_pop_, min_heap_erase_, min_heap_place. rewrite He0, He.
  destruct (Z.eqb_spec (hn h) 0); [done|]. cbn -[shift_fuel u32].
  rewrite (u32_small (hn h - 1)) by lia.
  destruct (zget_in_range (hp h) (hn h - 1)) as [l ->]; [lia|]. cbn -[shift_fuel u32].
  rewrite (u32_small 0) by lia.
  by destruct (min_heap_shift_down_ _ _ _ _ _ _) as [[p s']|].
Qed.

(** The heap invariant with the timeout of [e] about to change: order holds
    everywhere except around [e]. *)
Definition heap_wf_but (h : min_heap) s e : Prop :=
  slots_ok None (hp h) (hn h) s ∧ hole_inv (hp h) (hn h) s (ts_idx s e) ∧ hn h < 2 ^ 31.

Lemma heap_wf_retime (h : min_heap) s s' e :
  heap_wf h s → ts_idx s e ≠ -1 →
  (∀ x, ts_idx s' x = ts_idx s x) → (∀ x, x ≠ e → ts_timeout s' x = ts_timeout s x) →
  heap_wf_but h s' e.
Proof.
  intros Hwf He Hidx Hto. destruct (member_slot h s e Hwf He) as [Hi Hg].
  pose proof Hwf as [[Hc Hf Hb] Ho Hm]. rewrite <-Hidx in Hi, Hg, He.
  assert (Hne : ∀ i x, i ≠ ts_idx s' e → 0 <= i < hn h → zget (hp h) i = Some x → x ≠ e).
  { intros i x Hie Hin Hx ->. rewrite Hidx in Hie. apply Hie.
    by rewrite (slot_member h s i e). }
  assert (Hle : ∀ j i, j ≠ ts_idx s' e → i ≠ ts_idx s' e → 0 <= j < hn h → 0 <= i < hn h →
            slot_le (hp h) s j i → slot_le (hp h) s' j i).
  { intros j i Hj Hie Hjn Hin Hl x y Hx Hy. unfold min_heap_elem_greater.
    rewrite !Hto by eauto. by apply Hl. }
  destruct (heap_ordered_hole (hp h) (hn h) (hn h) s (ts_idx s' e)) as [H1 H2]; [done|lia..|].
  split_and!; [split; [done| |]|split|done].
  - intros i Hin. destruct (Hf i Hin) as (x & ? & ? & ?). exists x. by rewrite Hidx.
  - intros x. rewrite Hidx. apply Hb.
  - intros i Hin Hie Hpi. pose proof (parent_lt i ltac:(lia)).
    apply Hle; [done|done|lia|lia|]. by apply H1.
  - intros i Hin Hpi Hh0. pose proof (parent_lt i ltac:(lia)).
    pose proof (parent_lt (ts_idx s' e) ltac:(lia)).
    apply Hle; [lia|lia|lia|lia|]. by apply H2.
Qed.

Lemma adjust_wf (h : min_heap) s e :
  heap_wf_but h s e → ts_idx s e ≠ -1 →
  ∃ h' s', min_heap_adjust_ h s e = Some (0, h', s') ∧ heap_wf h' s' ∧
    hn h' = hn h ∧ ts_idx s' e ≠ -1 ∧ heap_frame s s' e.
Proof.
  intros ([Hc Hf Hb] & Hh & Hm) He. destruct (Hb e) as [Hi Hg]; [done..|].
  unfold min_heap_adjust_. destruct (Z.eqb_spec (ts_idx s e) (-1)); [done|].
  destruct (place_ok None (hn h) (hp h) s (ts_idx s e) e)
    as (p' & s' & -> & Hs' & Ho' & Hl' & Ht & He' & Hi'); [lia..| |done|].
  { split; [rewrite zlen_fill; lia| |].
    - intros i Hin. rewrite zget_fill by lia. destruct (decide (ts_idx s e = i)) as [<-|].
      + exists e. by rewrite ts_idx_set, decide_True.
      + destruct (Hf i Hin) as (x & ? & ? & _). exists x.
        rewrite ts_idx_set, decide_False by (intros ->; done). done.
    - intros x _. rewrite ts_idx_set. case_decide as Hxe.
      + subst. intros _. by rewrite zget_fill, decide_True by lia.
      + intros Hx. destruct (Hb x) as [? Hgx]; [done..|]. split; [done|].
        rewrite zget_fill, decide_False by (done || lia || congruence). done. }
  cbn [mbind option_bind]. eexists _, _; split; [done|].
  split_and!; [by split|done|done|by split].
Qed.
End heap_theory.

(** * Concrete instances, for evaluation *)

(** Heap operations write only through [put_at] and [ts_set_idx]: what these
    keep ([R]), the operations keep. *)
Section heap_writes.
Context {St : Type} {TS : TimerStore St} {RA : Realloc}.
Context (R : list evid → St → Prop).
Context (R_put : ∀ p s h e p' s', put_at p s h e = Some (p', s') → R p s → R p' s').
Context (R_idx : ∀ p s e i, R p s → R p (ts_set_idx e i s)).

Lemma shift_up_writes fuel : ∀ p s h e p' s',
  min_heap_shift_up_ fuel p s h e = Some (p', s') → R p s → R p' s'.
Proof.
  induction fuel as [|fuel IH]; intros p s h e p' s' H HR; [done|]. cbn [min_heap_shift_up_] in H.
  destruct (h =? 0); [by eapply R_put|].
  destruct (zget _ _) as [y|] eqn:Ey; [|done]. cbn [mbind option_bind] in H.
  destruct (min_heap_elem_greater _ _ _); [|by eapply R_put].
  destruct (put_at _ _ _ _) as [[p1 s1]|] eqn:E1; [|done]. cbn [mbind option_bind] in H.
  apply IH in H; [done|]. by eapply R_put.
Qed.

Lemma shift_down_writes fuel : ∀ p n s h e p' s',
  min_heap_shift_down_ fuel p n s h e = Some (p', s') → R p s → R p' s'.
Proof.
  induction fuel as [|fuel IH]; intros p n s h e p' s' H HR; [done|]. cbn [min_heap_shift_down_] in H.
  destruct (_ <=? n); [|by eapply R_put].
  destruct (if _ =? n then _ else _) as [dec|]; [|done]. cbn [mbind option_bind] in H.
  destruct (zget _ _) as [x|]; [|done]. cbn [mbind option_bind] in H.
  destruct (negb _); [by eapply R_put|].
  destruct (put_at _ _ _ _) as [[p1 s1]|] eqn:E1; [|done]. cbn [mbind option_bind] in H.
  apply IH in H; [done|]. by eapply R_put.
Qed.

Lemma place_writes p n s i x p' s' :
  min_heap_place p n s i x = Some (p', s') → R p s → R p' s'.
Proof.
  unfold min_heap_place, min_heap_shift_up_unconditional_. intros H HR.
  destruct (if 0 <? i then _ else _) as [[]|]; cbn [mbind option_bind] in H; [|by eapply shift_down_writes|done].
  destruct (zget _ _) as [y|]; [|done]. cbn [mbind option_bind] in H.
  destruct (put_at _ _ _ _) as [[p1 s1]|] eqn:E1; [|done]. cbn [mbind option_bind] in H.
  eapply shift_up_writes; [done|]. by eapply R_put.
Qed.

Lemma push_writes h s e r h' s' :
  min_heap_push_ h s e = Some (r, h', s') → R (hp h) s →
  (∀ h1, min_heap_reserve_ h (hn h + 1) = Some h1 → R (hp h1) s) → R (hp h') s'.
Proof.
  unfold min_heap_push_. intros H HR Hres. destruct (_ =? _); [by injection H as <- <- <-|].
  destruct (min_heap_reserve_ _ _) as [h1|]; [|by injection H as <- <- <-].
  destruct (min_heap_shift_up_ _ _ _ _ _) as [[p1 s1]|] eqn:E1; [|done]. cbn [mbind option_bind] in H.
  injection H as <- <- <-. eapply shift_up_writes; [done|]. by apply Hres.
Qed.

Lemma erase_writes h s e r h' s' :
  min_heap_erase_ h s e = Some (r, h', s') → R (hp h) s → R (hp h') s'.
Proof.
  unfold min_heap_erase_. intros H HR. destruct (negb _); [|by injection H as <- <- <-].
  destruct (zget _ _) as [x|]; [|done]. cbn [mbind option_bind] in H.
  destruct (min_heap_place _ _ _ _ _) as [[p1 s1]|] eqn:E1; [|done]. cbn [mbind option_bind] in H.
  injection H as <- <- <-. apply R_idx. by eapply place_writes.
Qed.
End heap_writes.

(** The invariant looks only at positions and timeouts. *)
Section heap_ext.
Context {St : Type} {TS : TimerStore St}.

Lemma heap_wf_ext (h : min_heap) (s s' : St) :
  (∀ x, ts_idx s' x = ts_idx s x) →
  (∀ x, ts_idx s x ≠ -1 → ts_timeout s' x = ts_timeout s x) →
  heap_wf h s → heap_wf h s'.
Proof.
  intros Hi Ht [[Hc Hf Hb] Ho Hm].
  assert (Hmem : ∀ i x, 0 <= i < hn h → zget (hp h) i = Some x → ts_idx s x ≠ -1).
  { intros i x Hr Hx. destruct (Hf i Hr) as (y & Hy & <- & _). simplify_eq. lia. }
  split; [split| |done]; try done.
  - intros i Hr. destruct (Hf i Hr) as (x & ? & ? & ?). exists x. by rewrite Hi.
  - intros x Hx. rewrite !Hi. by apply Hb.
  - intros i Hr x y Hx Hy. pose proof (parent_lt i ltac:(lia)).
    unfold min_heap_elem_greater. rewrite !Ht by (eapply Hmem; [|done]; lia).
    by apply (Ho i Hr).
Qed.

(** Slots hold distinct events. *)
Lemma heap_slots_NoDup (h : min_heap) (s : St) :
  heap_wf h s → NoDup (ztake (hn h) (hp h)).
Proof.
  intros [[Hc Hf Hb] _ _]. apply NoDup_alt. intros i j x Hi Hj.
  assert (Hz : ∀ k, ztake (hn h) (hp h) !! k = Some x → Z.of_nat k = ts_idx s x).
  { intros k Hk. apply lookup_lt_Some in Hk as Hlt. unfold ztake in Hk, Hlt.
    rewrite length_take in Hlt. rewrite lookup_take in Hk.
    rewrite decide_True in Hk by lia.
    destruct (Hf (Z.of_nat k)) as (y & Hy & <- & _); [lia|].
    rewrite zget_nonneg in Hy by lia. rewrite Nat2Z.id in Hy. congruence. }
  apply Nat2Z.inj. by rewrite (Hz i Hi), (Hz j Hj).
Qed.
End heap_ext.

Record fn_store := FnStore { fs_timeout : evid → timeval; fs_idx : evid → Z }.

#[export] Instance fn_timer_store : TimerStore fn_store := {
  ts_timeout := fs_timeout;
  ts_idx := fs_idx;
  ts_set_idx e i s :=
    FnStore (fs_timeout s) (λ x, if decide (x = e) then i else fs_idx s x)
}.
#[export] Instance fn_timer_store_laws : TimerStoreLaws fn_store.
Proof. split; done. Qed.

(** An allocator that pads with event 0 and never fails. *)
#[export, refine] Instance padding_realloc : Realloc := {
  mm_realloc p a := Some (p ++ zrepeat 0%nat (a - zlen p))
}.
Proof.
  - intros p a p' [= <-] Ha. rewrite zlen_app, zlen_zrepeat; lia.
  - intros p a p' i x [= <-] Ha Hx. pose proof (zget_Some_range _ _ _ Hx).
    rewrite zget_nonneg in Hx |- * by lia. by apply lookup_app_l_Some.
Defined.

(** Event [k] fires at second [10 - k]. *)
Definition demo_timeout (k : evid) : timeval := TV (10 - Z.of_nat k) 0.
Definition demo_empty : fn_store := FnStore demo_timeout (λ _, -1).
Definition demo_heap : min_heap := MinHeap [2; 1; 0]%nat 2.
Definition demo_store : fn_store :=
  FnStore demo_timeout (λ x, match x with 2%nat => 0 | 1%nat => 1 | _ => -1 end).

Lemma demo_heap_wf : heap_wf demo_heap demo_store.
Proof.
  split; simpl; [split| |lia].
  - vm_compute; split; congruence.
  - intros i Hi. assert (i = 0 ∨ i = 1) as [-> | ->] by (simpl in Hi; lia).
    + by exists 2%nat.
    + by exists 1%nat.
  - intros x _. destruct x as [|[|[|x]]]; simpl; done.
  - intros i Hi. assert (i = 1) as -> by (simpl in Hi; lia).
    intros x y. vm_compute. by intros [= <-] [= <-].
Qed.

Example demo_push :
  (fst <$> min_heap_push_ min_heap_ctor_ demo_empty 3%nat)
  = Some (0, MinHeap (3 :: replicate 7 0)%nat 1).
Proof. reflexivity. Qed.

(** * Properties *)

Section heap_properties.
Context {St : Type} {TS : TimerStore St} {TSL : TimerStoreLaws St} {RA : Realloc}.
Implicit Types (h : min_heap) (s : St) (e x : evid).

(** C28: [min_heap_push_] succeeds unless the array cannot be grown; it then
    re-establishes the heap (order, and agreement of array and stored
    positions), adds exactly [e], and leaves every timeout alone.  When the
    allocation fails it reports -1 and changes nothing. *)
Theorem min_heap_push_correct h s e :
  heap_wf h s → ¬ min_heap_member s e → hn h + 1 < 2 ^ 31 →
  match min_heap_push_ h s e with
  | Some (r, h', s') =>
      (r = 0 ∧ heap_wf h' s' ∧ hn h' = hn h + 1 ∧ min_heap_member s' e ∧
       heap_frame s s' e) ∨
      (r = -1 ∧ min_heap_reserve_ h (hn h + 1) = None ∧ h' = h ∧ s' = s)
  | None => False
  end.
Proof.
  intros Hwf He Hmax. destruct (min_heap_reserve_ h (hn h + 1)) as [h1|] eqn:E.
  - destruct (push_wf h s e h1) as (h' & s' & -> & ?); [done| |done..|].
    { destruct (decide (ts_idx s e = -1)); done. }
    left. unfold min_heap_member. tauto.
  - unfold min_heap_push_. rewrite E. destruct (hn h =? UINT32_MAX); by right.
Qed.

(** C29: [min_heap_erase_] removes exactly the given event, wherever it is in
    the heap, and re-establishes the heap; erasing an event that is not in
    the heap reports -1 and changes nothing. *)
Theorem min_heap_erase_correct h s e :
  heap_wf h s →
  match min_heap_erase_ h s e with
  | Some (r, h', s') =>
      (min_heap_member s e ∧ r = 0 ∧ heap_wf h' s' ∧ hn h' = hn h - 1 ∧
       ¬ min_heap_member s' e ∧ heap_frame s s' e) ∨
      (¬ min_heap_member s e ∧ r = -1 ∧ h' = h ∧ s' = s)
  | None => False
  end.
Proof.
  intros Hwf. destruct (decide (ts_idx s e = -1)) as [He|He].
  - unfold min_heap_erase_, min_heap_member. rewrite He. simpl. right. tauto.
  - destruct (erase_wf h s e Hwf He) as (h' & s' & -> & ?&?&Hi&?).
    left. unfold min_heap_member. rewrite Hi. tauto.
Qed.

(** [min_heap_pop_] returns an event of the heap that no other event of
    the heap precedes, removes exactly it, and re-establishes the heap; on an
    empty heap it returns [NULL]. *)
Theorem min_heap_pop_correct h s :
  heap_wf h s →
  match min_heap_pop_ h s with
  | Some (Some e, h', s') =>
      min_heap_top_ h = Some (Some e) ∧ min_heap_member s e ∧
      (∀ x, min_heap_member s x → min_heap_elem_greater s e x = false) ∧
      heap_wf h' s' ∧ hn h' = hn h - 1 ∧ ¬ min_heap_member s' e ∧ heap_frame s s' e
  | Some (None, h', s') => h' = h ∧ s' = s ∧ ∀ x, ¬ min_heap_member s x
  | None => False
  end.
Proof.
  intros Hwf. destruct (decide (hn h = 0)) as [Hn|Hn].
  - unfold min_heap_pop_. rewrite Hn. simpl. split_and!; [done..|]. intros x Hx.
    destruct (member_slot h s x Hwf Hx). lia.
  - pose proof (so_cap _ _ _ _ (hw_slots _ _ Hwf)).
    destruct (so_fwd _ _ _ _ (hw_slots _ _ Hwf) 0) as (e & He & Hi & _); [lia|].
    rewrite (pop_is_erase h s e) by done.
    destruct (erase_wf h s e Hwf) as (h' & s' & -> & ?); [lia|]. cbn [mbind option_bind].
    unfold min_heap_top_. rewrite He. destruct (Z.eqb_spec (hn h) 0); [done|].
    pose proof (top_minimal h s e Hwf He). unfold min_heap_member. split_and!; tauto || lia.
Qed.

(** After the timeout of an event in the heap has changed,
    [min_heap_adjust_] re-establishes the heap without adding or removing
    anything. *)
Theorem min_heap_adjust_correct h s s1 e :
  heap_wf h s → min_heap_member s e →
  (∀ x, ts_idx s1 x = ts_idx s x) → (∀ x, x ≠ e → ts_timeout s1 x = ts_timeout s x) →
  match min_heap_adjust_ h s1 e with
  | Some (r, h', s') =>
      r = 0 ∧ heap_wf h' s' ∧ hn h' = hn h ∧ min_heap_member s' e ∧ heap_frame s1 s' e
  | None => False
  end.
Proof.
  intros Hwf He Hi Ht.
  destruct (adjust_wf h s1 e) as (h' & s' & -> & ?).
  - eapply heap_wf_retime; eauto.
  - by rewrite Hi.
  - unfold min_heap_member. tauto.
Qed.
End heap_properties.

Lemma min_heap_push_correct_witness :
  match min_heap_push_ demo_heap demo_store 5%nat with
  | Some (r, h', s') => r = 0 ∧ hn h' = 3 ∧ heap_wf h' s'
  | None => False
  end.
Proof.
  pose proof (min_heap_push_correct demo_heap demo_store 5%nat demo_heap_wf) as H.
  specialize (H ltac:(by vm_compute) ltac:(by vm_compute)).
  destruct (min_heap_push_ _ _ _) as [[[r h'] s']|]; [|done].
  destruct H as [(?&?&?&?&?)|(_&Hf&_)]; [done|]. vm_compute in Hf. done.
Defined.

Lemma min_heap_erase_correct_witness :
  match min_heap_erase_ demo_heap demo_store 2%nat with
  | Some (r, h', s') => r = 0 ∧ hn h' = 1 ∧ heap_wf h' s'
  | None => False
  end.
Proof.
  pose proof (min_heap_erase_correct demo_heap demo_store 2%nat demo_heap_wf) as H.
  destruct (min_heap_erase_ _ _ _) as [[[r h'] s']|]; [|done].
  destruct H as [(?&?&?&?&?)|(Hf&_)]; [done|]. by destruct Hf.
Defined.

Lemma min_heap_pop_correct_witness :
  match min_heap_pop_ demo_heap demo_store with
  | Some (Some e, h', s') => min_heap_member demo_store e ∧ hn h' = 1
  | _ => False
  end.
Proof.
  pose proof (min_heap_pop_correct demo_heap demo_store demo_heap_wf) as H.
  destruct (min_heap_pop_ _ _) as [[[[e|] h'] s']|]; [|by destruct H as (_&_&H); apply (H 2%nat)|done].
  by destruct H as (_&?&_&_&?&_).
Defined.

Lemma min_heap_adjust_correct_witness :
  match min_heap_adjust_ demo_heap
    (FnStore (λ x, if decide (x = 2%nat) then TV 100 0 else demo_timeout x)
       (fs_idx demo_store)) 2%nat with
  | Some (r, h', s') => r = 0 ∧ heap_wf h' s'
  | None => False
  end.
Proof.
  pose proof (min_heap_adjust_correct demo_heap demo_store
    (FnStore (λ x, if decide (x = 2%nat) then TV 100 0 else demo_timeout x)
       (fs_idx demo_store)) 2%nat demo_heap_wf) as H.
  specialize (H ltac:(by vm_compute) ltac:(done)).
  specialize (H ltac:(intros x Hx; simpl; by rewrite decide_False)).
  destruct (min_heap_adjust_ _ _ _) as [[[r h'] s']|]; [|done].
  by destruct H as (?&?&_).
Defined.
