(* ===== verification/Outcome.v ===== *)
(** * Functions that return an error

    Parsers of network data and the routines that build packets either produce a
    result, take an error exit ([goto err], [return -1]), or touch memory outside
    an object.  [parser S A] threads a state [S] (a position in a packet, say)
    through these three outcomes; an error exit keeps the state reached, because
    the code may have stored results in objects of its caller by then.
    [pwp m Q E s] says that [m] run from [s] never leaves an object, ends in a
    result and state satisfying [Q], or takes an error exit in a state satisfying
    [E]. *)
From S2P Require Import Prelude.

Inductive outcome (S A : Type) : Type :=
  | Ret (a : A) (s : S)
  | Error (s : S)
  | Fault.
Arguments Ret {S A}.
Arguments Error {S A}.
Arguments Fault {S A}.

Definition parser (S A : Type) : Type := S → outcome S A.

#[global] Instance parser_ret S : MRet (parser S) := λ A a s, Ret a s.
#[global] Instance parser_bind S : MBind (parser S) := λ A B f m s,
  match m s with
  | Ret a s' => f a s'
  | Error s' => Error s'
  | Fault => Fault
  end.

(** [goto err] *)
Definition err {S A} : parser S A := λ s, Error s.
(** A read or write outside an object. *)
Definition fault {S A} : parser S A := λ _, Fault.
(** [if (b) goto err] *)
Definition err_if {S} (b : bool) : parser S unit := λ s, if b then Error s else Ret tt s.
(** The result of a memory access. *)
Definition access {S A} (o : option A) : parser S A := λ s,
  match o with Some a => Ret a s | None => Fault end.
Definition pget {S} : parser S S := λ s, Ret s s.
Definition pset {S} (s : S) : parser S unit := λ _, Ret tt s.

Lemma bind_run {S A B} (m : parser S A) (f : A → parser S B) s :
  (m ≫= f) s = match m s with Ret a s' => f a s' | Error s' => Error s' | Fault => Fault end.
Proof. done. Qed.

(** Reading a successful run backwards. *)
Lemma bind_ret {S A B} (m : parser S A) (f : A → parser S B) s b s2 :
  (m ≫= f) s = Ret b s2 ↔ ∃ a s1, m s = Ret a s1 ∧ f a s1 = Ret b s2.
Proof.
  rewrite bind_run. destruct (m s) as [a s1|s1|]; split; try done.
  - eauto.
  - by intros (?&?&[= <- <-]&?).
  - by intros (?&?&?&_).
  - by intros (?&?&?&_).
Qed.
Lemma err_if_ret {S} (b : bool) (s s' : S) u : err_if b s = Ret u s' ↔ b = false ∧ s' = s.
Proof.
  unfold err_if. destruct b, u; split; try done; [by intros [? _]|by intros [= <-]|by intros [_ ->]].
Qed.
Lemma access_ret {S A} (o : option A) (s s' : S) a : access o s = Ret a s' ↔ o = Some a ∧ s' = s.
Proof.
  unfold access. destruct o; split; try done; [by intros [= <- <-]|by intros [[= ->] ->]|by intros [? _]].
Qed.

Definition pwp {S A} (m : parser S A) (Q : A → S → Prop) (E : S → Prop) (s : S) : Prop :=
  match m s with
  | Ret a s' => Q a s'
  | Error s' => E s'
  | Fault => False
  end.

Section pwp_rules.
Context {S A B : Type}.
Implicit Types (m : parser S A) (Q : A → S → Prop) (E : S → Prop).

Lemma pwp_ret (a : A) Q E s : Q a s → pwp (mret a) Q E s.
Proof. done. Qed.
Lemma pwp_bind m (f : A → parser S B) (Q : B → S → Prop) E s :
  pwp m (λ a s', pwp (f a) Q E s') E s ↔ pwp (m ≫= f) Q E s.
Proof. unfold pwp, mbind, parser_bind. by destruct (m s). Qed.
Lemma pwp_mono m (Q Q' : A → S → Prop) (E E' : S → Prop) s :
  pwp m Q E s → (∀ a s', Q a s' → Q' a s') → (∀ s', E s' → E' s') → pwp m Q' E' s.
Proof. unfold pwp. destruct (m s); eauto. Qed.
Lemma pwp_err Q E s : E s → pwp (err : parser S A) Q E s.
Proof. done. Qed.
Lemma pwp_err_if (b : bool) (Q : unit → S → Prop) E s :
  (b = true → E s) → (b = false → Q tt s) → pwp (err_if b) Q E s.
Proof. unfold pwp, err_if. destruct b; auto. Qed.
Lemma pwp_access (o : option A) a Q E s : o = Some a → Q a s → pwp (access o) Q E s.
Proof. by intros ->. Qed.
Lemma pwp_get (Q : S → S → Prop) E s : Q s s → pwp pget Q E s.
Proof. done. Qed.
Lemma pwp_set s' (Q : unit → S → Prop) E s : Q tt s' → pwp (pset s') Q E s.
Proof. done. Qed.
Lemma pwp_if (b : bool) (m1 m2 : parser S A) Q E s :
  (b = true → pwp m1 Q E s) → (b = false → pwp m2 Q E s) →
  pwp (if b then m1 else m2) Q E s.
Proof. destruct b; auto. Qed.
Lemma pwp_run m Q E s :
  pwp m Q E s ↔
  (∃ a s', m s = Ret a s' ∧ Q a s') ∨ (∃ s', m s = Error s' ∧ E s').
Proof.
  unfold pwp. destruct (m s) as [a s'|s'|]; split; try done.
  - eauto.
  - by intros [(?&?&[= -> ->]&?)|(?&?&_)].
  - eauto.
  - by intros [(?&?&?&_)|(?&[= ->]&?)].
  - by intros [(?&?&?&_)|(?&?&_)].
Qed.
End pwp_rules.

(** Unfolds a hypothesis that a parser has returned. *)
Ltac ret_inv H :=
  lazymatch type of H with
  | (_ ≫= _) _ = Ret _ _ =>
      let a := fresh "a" in let s := fresh "s" in let H1 := fresh H in
      apply bind_ret in H as (a & s & H1 & H); ret_inv H1; ret_inv H
  | err_if _ _ = Ret _ _ =>
      let H1 := fresh H in apply err_if_ret in H as [H1 H]; subst
  | access _ _ = Ret _ _ =>
      let H1 := fresh H in apply access_ret in H as [H1 H]; subst
  | pget _ = Ret _ _ => injection H as <- <-
  | pset _ _ = Ret _ _ => injection H as <- <-
  | mret _ _ = Ret _ _ => injection H as <- <-
  | err _ = Ret _ _ => discriminate H
  | _ => idtac
  end; cbv beta iota in *.

(** One step of symbolic execution of a parser. *)
Ltac pwp_step :=
  lazymatch goal with
  | |- pwp (_ ≫= _) _ _ _ => apply (proj1 (pwp_bind _ _ _ _ _))
  | |- pwp (mret _) _ _ _ => apply pwp_ret
  | |- pwp err _ _ _ => apply pwp_err
  | |- pwp (err_if _) _ _ _ => apply pwp_err_if; intro
  | |- pwp pget _ _ _ => apply pwp_get
  | |- pwp (pset _) _ _ _ => apply pwp_set
  | |- pwp (if _ then _ else _) _ _ _ => apply pwp_if; intro
  end; cbv beta.
