(* ===== verification/Lines.v ===== *)
(** * Searching a sequence of bytes, and lines

    What [memchr], [strspn] and a search for a string find in contiguous memory,
    and where a line ends in each of the styles of [evbuffer_search_eol]:
    [eol_at].  The searches of [buffer.c] are shown to agree with these
    ([EvbufferSearch]), and clients of the buffer see lines through them. *)
From S2P Require Import Prelude.

(** [memchr] and [strspn], as offsets. *)
Fixpoint find_first (P : Z → bool) (s : list Z) : option Z :=
  match s with
  | [] => None
  | x :: s => if P x then Some 0 else Z.succ <$> find_first P s
  end.
Definition memchr (s : list Z) (c : Z) : option Z := find_first (λ x, x =? c) s.

Definition in_set (chrset : list Z) (x : Z) : bool := existsb (λ c, x =? c) chrset.
Fixpoint span (chrset : list Z) (s : list Z) : Z :=
  match s with
  | [] => 0
  | x :: s => if in_set chrset x then 1 + span chrset s else 0
  end.

(** [memcmp] of two blocks of the same size. *)
Fixpoint memcmp (a b : list Z) : Z :=
  match a, b with
  | x :: a, y :: b => if x =? y then memcmp a b else if x <? y then -1 else 1
  | _, _ => 0
  end.

(** * Searching a flat sequence *)

(** The first place where [what] occurs. *)
Fixpoint find_sub (what l : list Z) : option Z :=
  if bool_decide (ztake (zlen what) l = what) then Some 0
  else match l with [] => None | _ :: l => Z.succ <$> find_sub what l end.

Inductive evbuffer_eol_style :=
| EVBUFFER_EOL_ANY | EVBUFFER_EOL_CRLF | EVBUFFER_EOL_CRLF_STRICT | EVBUFFER_EOL_LF
| EVBUFFER_EOL_NUL.

(** Where a line ends, and how many bytes its terminator has. *)
Definition eol_at (style : evbuffer_eol_style) (l : list Z) : option (Z * Z) :=
  match style with
  | EVBUFFER_EOL_ANY =>
      d ← find_first (in_set [13; 10]) l; Some (d, span [13; 10] (zdrop d l))
  | EVBUFFER_EOL_CRLF_STRICT => d ← find_sub [13; 10] l; Some (d, 2)
  | EVBUFFER_EOL_CRLF =>
      d ← memchr l 10;
      if (0 <? d) && bool_decide (zget l (d - 1) = Some 13) then Some (d - 1, 2) else Some (d, 1)
  | EVBUFFER_EOL_LF => d ← memchr l 10; Some (d, 1)
  | EVBUFFER_EOL_NUL => d ← memchr l 0; Some (d, 1)
  end.

Section find_first_facts.
Context (P : Z → bool).
Implicit Types (s : list Z).

Lemma find_first_Some s d :
  find_first P s = Some d ↔
  ∃ pre x post, s = pre ++ x :: post ∧ zlen pre = d ∧ P x = true ∧ Forall (λ y, P y = false) pre.
Proof.
  revert d; induction s as [|x s IH]; intros d; simpl.
  { split; [done|]. by intros ([]&?&?&?&?). }
  destruct (P x) eqn:Hx.
  - split.
    + intros [= <-]. by exists [], x, s.
    + intros (pre&y&post&E&<-&Hy&Hp). destruct pre as [|z pre]; [done|].
      injection E as -> ->. inversion Hp; congruence.
  - rewrite fmap_Some. split.
    + intros (d'&H&->). apply IH in H as (pre&y&post&->&<-&Hy&Hp).
      exists (x :: pre), y, post. rewrite zlen_cons. split_and!; auto; lia.
    + intros (pre&y&post&E&<-&Hy&Hp). destruct pre as [|z pre]; [injection E as -> ->; congruence|].
      injection E as <- ->. exists (zlen pre). rewrite zlen_cons. split; [|lia].
      apply IH. inversion Hp; subst. by exists pre, y, post.
Qed.

Lemma find_first_None s : find_first P s = None ↔ Forall (λ y, P y = false) s.
Proof.
  induction s as [|x s IH]; simpl; [by split|]. rewrite Forall_cons.
  destruct (P x); [by split; [|intros []]|]. rewrite fmap_None, IH. by split; [|intros []].
Qed.

Lemma find_first_app s t :
  find_first P (s ++ t) =
  match find_first P s with Some d => Some d | None => Z.add (zlen s) <$> find_first P t end.
Proof.
  induction s as [|x s IH]; simpl.
  { destruct (find_first P t); done. }
  destruct (P x); [done|]. rewrite IH. destruct (find_first P s); simpl; [done|].
  rewrite zlen_cons. destruct (find_first P t); simpl; [f_equal; lia|done].
Qed.

Lemma find_first_range s d : find_first P s = Some d → 0 <= d < zlen s.
Proof. intros (pre&x&post&->&<-&_)%find_first_Some. len_lia. Qed.

Lemma find_first_get s d : find_first P s = Some d → ∃ x, zget s d = Some x ∧ P x = true.
Proof.
  intros (pre&x&post&->&<-&Hx&_)%find_first_Some. exists x. split; [|done].
  by rewrite zget_app_r, Z.sub_diag by lia.
Qed.

Lemma find_first_before s d : find_first P s = Some d → find_first P (ztake d s) = None.
Proof.
  intros (pre&x&post&->&<-&_&Hp)%find_first_Some. apply find_first_None.
  by rewrite ztake_app_ge, Z.sub_diag, ztake_0, app_nil_r by lia.
Qed.
End find_first_facts.

Lemma find_first_ext (P Q : Z → bool) s : (∀ x, P x = Q x) → find_first P s = find_first Q s.
Proof. intros H. induction s as [|x s IH]; simpl; [done|]. by rewrite H, IH. Qed.

(** Looking for two bytes at once. *)
Lemma find_first_or (P Q : Z → bool) s :
  find_first (λ x, P x || Q x) s =
  match find_first P s, find_first Q s with
  | Some a, Some b => Some (if b <? a then b else a)
  | Some a, None => Some a
  | None, r => r
  end.
Proof.
  induction s as [|x s IH]; simpl; [done|]. rewrite IH.
  destruct (P x), (Q x); simpl; try done.
  - destruct (find_first Q s) as [b|] eqn:E; simpl; [|done].
    apply find_first_range in E. destruct (Z.ltb_spec (Z.succ b) 0); [lia|done].
  - destruct (find_first P s) as [a|] eqn:E; simpl; [|done].
    apply find_first_range in E. destruct (Z.ltb_spec 0 (Z.succ a)); [done|lia].
  - destruct (find_first P s) as [a|], (find_first Q s) as [b|]; simpl; try done.
    f_equal. destruct (Z.ltb_spec b a), (Z.ltb_spec (Z.succ b) (Z.succ a)); lia.
Qed.

Lemma find_sub_skip f w s t :
  memchr s f = None → find_sub (f :: w) (s ++ t) = Z.add (zlen s) <$> find_sub (f :: w) t.
Proof.
  unfold memchr. induction s as [|x s IH]; simpl.
  { intros _. change (zlen (@nil Z)) with 0. by destruct (find_sub _ t). }
  destruct (Z.eqb_spec x f) as [|Hx]; [done|]. rewrite fmap_None. intros Hs.
  rewrite bool_decide_eq_false_2.
  2:{ unfold ztake, zlen. rewrite Nat2Z.id. simpl. congruence. }
  rewrite IH by done. rewrite zlen_cons.
  destruct (find_sub (f :: w) t); simpl; [f_equal; lia|done].
Qed.

Lemma find_sub_nil f w : find_sub (f :: w) [] = None.
Proof. simpl. rewrite bool_decide_eq_false_2; [done|]. unfold ztake. by rewrite take_nil. Qed.

Lemma find_sub_range w s d :
  find_sub w s = Some d → 0 <= d ∧ d + zlen w <= zlen s ∧ ztake (zlen w) (zdrop d s) = w.
Proof.
  revert d; induction s as [|x s IH]; intros d; simpl.
  - case_bool_decide as E; [|done]. intros [= <-].
    assert (w = []) as -> by (rewrite <- E; unfold ztake; apply take_nil). done.
  - case_bool_decide as E.
    + intros [= <-]. rewrite zdrop_0, E. split; [done|]. split; [|done].
      rewrite <- E. apply zlen_ztake_le.
    + rewrite fmap_Some. intros (d'&(?&?&H)%IH&->). rewrite zlen_cons.
      split; [lia|]. split; [lia|]. rewrite <- H at 2. f_equal.
      unfold zdrop. by rewrite Z2Nat.inj_succ by lia.
Qed.

Lemma span_range chrset s : 0 <= span chrset s <= zlen s.
Proof.
  induction s as [|x s IH]; simpl; [done|]. rewrite zlen_cons. destruct (in_set chrset x); lia.
Qed.

Lemma eol_at_nil style : eol_at style [] = None.
Proof. by destruct style. Qed.

Lemma eol_at_range style l d n : eol_at style l = Some (d, n) → 0 <= d ∧ 0 <= n ∧ d + n <= zlen l.
Proof.
  destruct style; simpl; rewrite bind_Some; intros (k & Hk & E).
  - apply find_first_range in Hk. injection E as <- <-.
    pose proof (span_range [13; 10] (zdrop k l)) as Hs. rewrite zlen_zdrop in Hs by lia. lia.
  - apply find_first_range in Hk. destruct (Z.ltb_spec 0 k); simpl in E.
    + case_bool_decide; injection E as <- <-; lia.
    + injection E as <- <-. lia.
  - apply find_sub_range in Hk as (?&?&_). injection E as <- <-.
    change (zlen [13; 10]) with 2 in *. lia.
  - apply find_first_range in Hk. injection E as <- <-. lia.
  - apply find_first_range in Hk. injection E as <- <-. lia.
Qed.


Lemma memcmp_app a a' b b' :
  zlen a = zlen a' → memcmp (a ++ b) (a' ++ b') = if memcmp a a' =? 0 then memcmp b b' else memcmp a a'.
Proof.
  revert a'. induction a as [|x a IH]; intros [|x' a'] H; simpl; try done.
  rewrite !zlen_cons in H. destruct (Z.eqb_spec x x'); [apply IH; lia|].
  destruct (x <? x'); done.
Qed.
Lemma memcmp_eq a b : zlen a = zlen b → (memcmp a b = 0 ↔ a = b).
Proof.
  revert b. induction a as [|x a IH]; intros [|y b] H; simpl; try done.
  rewrite !zlen_cons in H. destruct (Z.eqb_spec x y) as [->|].
  - rewrite IH by lia. split; [by intros ->|by intros [= ->]].
  - destruct (x <? y); split; try done; by intros [= -> ->].
Qed.
