(* ===== verification/EvbufferDefs.v ===== *)
(** The byte queue of [src/buffer.c] and [src/evbuffer-internal.h]: data and
    operations.

    A [struct evbuffer] is a linked list of chains.  The list is modelled by a
    Rocq list; the pointer-to-pointer [last_with_datap] by the index of the
    link it points at ([0] is [&buf->first], [S i] is the [next] field of chain
    [i]), so [*last_with_datap] is [chains !! last_with_datap].  [buf->last] is
    the last element of the list.

    Operations return [None] when an [EVUTIL_ASSERT] fails, a [NULL] chain is
    dereferenced or memory outside a chain is touched; an allocation failure is
    an ordinary result.  Locks are no-ops here (the caller holds them), user
    callbacks are recorded in [cb_log] in the order they are invoked.  In a
    two-buffer operation the argument [same] is the test [outbuf == inbuf]. *)
From S2P Require Import Prelude.

(** [mm_malloc]: a block of the requested size with arbitrary contents. *)
Class Malloc := {
  mm_malloc : Z → option (list Z);
  mm_malloc_len n b : 0 <= n → mm_malloc n = Some b → zlen b = n
}.

(** * Data *)

Definition EVBUFFER_CHAIN_MAX : Z := EV_SSIZE_MAX.
(** [sizeof(struct evbuffer_chain)]: five 8-byte fields and two 4-byte ones. *)
Definition EVBUFFER_CHAIN_SIZE : Z := 48.
Definition MIN_BUFFER_SIZE : Z := 1024.

Definition EVBUFFER_FILESEGMENT : Z := 1.
Definition EVBUFFER_SENDFILE : Z := 2.
Definition EVBUFFER_REFERENCE : Z := 4.
Definition EVBUFFER_IMMUTABLE : Z := 8.
Definition EVBUFFER_MEM_PINNED_R : Z := 16.
Definition EVBUFFER_MEM_PINNED_W : Z := 32.
Definition EVBUFFER_MEM_PINNED_ANY : Z := Z.lor EVBUFFER_MEM_PINNED_R EVBUFFER_MEM_PINNED_W.
Definition EVBUFFER_DANGLING : Z := 64.
Definition EVBUFFER_MULTICAST : Z := 128.

(** [struct evbuffer_chain]. *)
Record chain := Chain {
  buffer : list Z;
  buffer_len : Z;
  misalign : Z;
  off : Z;
  ch_flags : Z;
  ch_refcnt : Z
}.

Definition EVBUFFER_CB_ENABLED : Z := 1.
Definition EVBUFFER_CB_NODEFER : Z := 2.
Definition EVBUFFER_CB_OBSOLETE : Z := 0x00040000.
Definition EVBUFFER_CB_INTERNAL_FLAGS : Z := 0xffff0000.

(** [struct evbuffer_cb_entry]; the function pointer is its identity. *)
Record cb_entry := CbEntry { cb_func : Z; cbarg : Z; cb_flags : Z }.

(** One invocation of a callback, with the [evbuffer_cb_info] it receives. *)
Record cb_call := CbCall {
  call_entry : cb_entry;
  orig_size : Z;
  n_added : Z;
  n_deleted : Z;
  new_size : Z
}.

(** [struct evbuffer].  [deferred_queued] is the state of the embedded
    [deferred] event callback; [cb_log] is the trace of callback invocations. *)
Record evbuffer := Evbuffer {
  chains : list chain;
  last_with_datap : nat;
  total_len : Z;
  n_add_for_cb : Z;
  n_del_for_cb : Z;
  freeze_start : bool;
  freeze_end : bool;
  deferred_cbs : bool;
  deferred_queued : bool;
  buf_refcnt : Z;
  callbacks : list cb_entry;
  cb_log : list cb_call
}.

Definition set_chains (cs : list chain) (lwd : nat) (b : evbuffer) : evbuffer :=
  Evbuffer cs lwd (total_len b) (n_add_for_cb b) (n_del_for_cb b) (freeze_start b)
    (freeze_end b) (deferred_cbs b) (deferred_queued b) (buf_refcnt b) (callbacks b) (cb_log b).
Definition set_total_len (n : Z) (b : evbuffer) : evbuffer :=
  Evbuffer (chains b) (last_with_datap b) n (n_add_for_cb b) (n_del_for_cb b) (freeze_start b)
    (freeze_end b) (deferred_cbs b) (deferred_queued b) (buf_refcnt b) (callbacks b) (cb_log b).
Definition set_counters (na nd : Z) (b : evbuffer) : evbuffer :=
  Evbuffer (chains b) (last_with_datap b) (total_len b) na nd (freeze_start b)
    (freeze_end b) (deferred_cbs b) (deferred_queued b) (buf_refcnt b) (callbacks b) (cb_log b).
Definition set_log (l : list cb_call) (b : evbuffer) : evbuffer :=
  Evbuffer (chains b) (last_with_datap b) (total_len b) (n_add_for_cb b) (n_del_for_cb b)
    (freeze_start b) (freeze_end b) (deferred_cbs b) (deferred_queued b) (buf_refcnt b)
    (callbacks b) l.
Definition set_deferred (queued : bool) (rc : Z) (b : evbuffer) : evbuffer :=
  Evbuffer (chains b) (last_with_datap b) (total_len b) (n_add_for_cb b) (n_del_for_cb b)
    (freeze_start b) (freeze_end b) (deferred_cbs b) queued rc (callbacks b) (cb_log b).
Definition set_callbacks (cbs : list cb_entry) (b : evbuffer) : evbuffer :=
  Evbuffer (chains b) (last_with_datap b) (total_len b) (n_add_for_cb b) (n_del_for_cb b)
    (freeze_start b) (freeze_end b) (deferred_cbs b) (deferred_queued b) (buf_refcnt b)
    cbs (cb_log b).
Definition set_freeze (s e : bool) (b : evbuffer) : evbuffer :=
  Evbuffer (chains b) (last_with_datap b) (total_len b) (n_add_for_cb b) (n_del_for_cb b)
    s e (deferred_cbs b) (deferred_queued b) (buf_refcnt b) (callbacks b) (cb_log b).

(** [buf->total_len += n; buf->n_add_for_cb += n] *)
Definition grew (n : Z) (b : evbuffer) : evbuffer :=
  set_counters (u64 (n_add_for_cb b + n)) (n_del_for_cb b)
    (set_total_len (u64 (total_len b + n)) b).

(** * Chains *)

Definition CHAIN_SPACE_LEN (ch : chain) : Z :=
  if has (ch_flags ch) EVBUFFER_IMMUTABLE then 0
  else u64 (buffer_len ch - (misalign ch + off ch)).
Definition CHAIN_PINNED (ch : chain) : bool := has (ch_flags ch) EVBUFFER_MEM_PINNED_ANY.
Definition CHAIN_PINNED_R (ch : chain) : bool := has (ch_flags ch) EVBUFFER_MEM_PINNED_R.

(** The bytes a chain holds: [off] bytes from [buffer + misalign]. *)
Definition chain_data (c : chain) : list Z := ztake (off c) (zdrop (misalign c) (buffer c)).

Definition with_buffer (mem : list Z) (c : chain) : chain :=
  Chain mem (buffer_len c) (misalign c) (off c) (ch_flags c) (ch_refcnt c).
Definition with_extent (mis o : Z) (c : chain) : chain :=
  Chain (buffer c) (buffer_len c) mis o (ch_flags c) (ch_refcnt c).
Definition with_flags (fl : Z) (c : chain) : chain :=
  Chain (buffer c) (buffer_len c) (misalign c) (off c) fl (ch_refcnt c).
Definition with_refcnt (rc : Z) (c : chain) : chain :=
  Chain (buffer c) (buffer_len c) (misalign c) (off c) (ch_flags c) rc.

(** [memcpy(chain->buffer + chain->misalign + chain->off, data, n);
    chain->off += n] *)
Definition chain_append (c : chain) (data : list Z) : option chain :=
  mem ← memcpy_at (buffer c) (misalign c + off c) data;
  Some (with_extent (misalign c) (off c + zlen data) (with_buffer mem c)).

(** [to_alloc] doubles until it is large enough. *)
Fixpoint grow_alloc (fuel : nat) (to_alloc size : Z) : Z :=
  match fuel with
  | O => to_alloc
  | S fuel => if to_alloc <? size then grow_alloc fuel (u64 (Z.shiftl to_alloc 1)) size
              else to_alloc
  end.

Section chain_ops.
Context {MM : Malloc}.

Definition evbuffer_chain_new (size : Z) : option chain :=
  if EVBUFFER_CHAIN_MAX - EVBUFFER_CHAIN_SIZE <? size then None
  else
    let size := u64 (size + EVBUFFER_CHAIN_SIZE) in
    let to_alloc :=
      if size <? EVBUFFER_CHAIN_MAX `div` 2
      then grow_alloc 64 MIN_BUFFER_SIZE size else size in
    block ← mm_malloc to_alloc;
    Some (Chain (zdrop EVBUFFER_CHAIN_SIZE block) (to_alloc - EVBUFFER_CHAIN_SIZE) 0 0 0 1).
End chain_ops.

(** What [evbuffer_chain_free] does with a chain that is unlinked. *)
Inductive free_outcome :=
| StillReferenced (c : chain)
| Dangling (c : chain)
| Freed (run_cleanup : bool).

Definition evbuffer_chain_free (c : chain) : option free_outcome :=
  _ ← assert_ (0 <? ch_refcnt c);
  let c := with_refcnt (ch_refcnt c - 1) c in
  if 0 <? ch_refcnt c then Some (StillReferenced c)
  else if CHAIN_PINNED c then
    Some (Dangling (with_flags (Z.lor (ch_flags c) EVBUFFER_DANGLING)
                      (with_refcnt (ch_refcnt c + 1) c)))
  else Some (Freed (has (ch_flags c) EVBUFFER_REFERENCE)).

Definition evbuffer_free_all_chains (cs : list chain) : option (list free_outcome) :=
  mapM evbuffer_chain_free cs.

Definition evbuffer_chains_all_empty (cs : list chain) : bool :=
  forallb (λ c, off c =? 0) cs.

(** Chains the search for the first victim steps over. *)
Fixpoint skip_kept (cs : list chain) : nat :=
  match cs with
  | c :: cs => if negb (off c =? 0) || CHAIN_PINNED c then S (skip_kept cs) else 0
  | [] => 0
  end.

(** Returns the buffer and the link where the next chain goes. *)
Definition evbuffer_free_trailing_empty_chains (buf : evbuffer) : option (evbuffer * nat) :=
  let ch := (last_with_datap buf + skip_kept (drop (last_with_datap buf) (chains buf)))%nat in
  match chains buf !! ch with
  | Some _ =>
      _ ← assert_ (evbuffer_chains_all_empty (drop ch (chains buf)));
      _ ← evbuffer_free_all_chains (drop ch (chains buf));
      Some (set_chains (take ch (chains buf)) (last_with_datap buf) buf, ch)
  | None => Some (buf, ch)
  end.

Definition evbuffer_chain_insert (buf : evbuffer) (c : chain) : option evbuffer :=
  match chains buf !! last_with_datap buf with
  | None =>
      _ ← assert_ (bool_decide (last_with_datap buf = 0%nat));
      _ ← assert_ (bool_decide (chains buf = []));
      let buf := set_chains [c] 0 buf in
      Some (set_total_len (u64 (total_len buf + off c)) buf)
  | Some _ =>
      '(buf, chp) ← evbuffer_free_trailing_empty_chains buf;
      let lwd := if negb (off c =? 0) then chp else last_with_datap buf in
      let buf := set_chains (take chp (chains buf) ++ [c]) lwd buf in
      Some (set_total_len (u64 (total_len buf + off c)) buf)
  end.

Definition evbuffer_chain_pin_ (c : chain) (flag : Z) : option chain :=
  _ ← assert_ (Z.land (ch_flags c) flag =? 0);
  Some (with_flags (Z.lor (ch_flags c) flag) c).

Definition evbuffer_chain_unpin_ (c : chain) (flag : Z) : option (chain + free_outcome) :=
  _ ← assert_ (has (ch_flags c) flag);
  let c := with_flags (Z.land (ch_flags c) (Z.lnot flag)) c in
  if has (ch_flags c) EVBUFFER_DANGLING
  then r ← evbuffer_chain_free c; Some (inr r)
  else Some (inl c).

(** [NULL] is a value here: [Some None]. *)
Definition evbuffer_chain_insert_new `{Malloc} (buf : evbuffer) (datlen : Z)
  : option (evbuffer * option chain) :=
  match evbuffer_chain_new datlen with
  | None => Some (buf, None)
  | Some c => buf ← evbuffer_chain_insert buf c; Some (buf, Some c)
  end.

(** * Buffers: creation and callbacks *)

Definition evbuffer_new : evbuffer :=
  Evbuffer [] 0 0 0 0 false false false false 1 [] [].

Definition evbuffer_get_length (b : evbuffer) : Z := total_len b.
Definition evbuffer_get_contiguous_space (b : evbuffer) : Z :=
  match chains b with c :: _ => off c | [] => 0 end.

Definition evbuffer_freeze (b : evbuffer) (start : bool) : evbuffer :=
  if start then set_freeze true (freeze_end b) b else set_freeze (freeze_start b) true b.
Definition evbuffer_unfreeze (b : evbuffer) (start : bool) : evbuffer :=
  if start then set_freeze false (freeze_end b) b else set_freeze (freeze_start b) false b.

Definition evbuffer_add_cb (b : evbuffer) (cb arg : Z) : evbuffer :=
  set_callbacks (CbEntry cb arg EVBUFFER_CB_ENABLED :: callbacks b) b.

Fixpoint remove_first_cb (cb arg : Z) (l : list cb_entry) : option (list cb_entry) :=
  match l with
  | [] => None
  | e :: l =>
      if (cb =? cb_func e) && (arg =? cbarg e) then Some l
      else l' ← remove_first_cb cb arg l; Some (e :: l')
  end.
Definition evbuffer_remove_cb (b : evbuffer) (cb arg : Z) : evbuffer * Z :=
  match remove_first_cb cb arg (callbacks b) with
  | Some l => (set_callbacks l b, 0)
  | None => (b, -1)
  end.

(** The enabled callbacks this round runs, given [mask] and [masked_val]. *)
Definition selected_cbs (mask masked_val : Z) (l : list cb_entry) : list cb_entry :=
  List.filter (λ e, Z.land (cb_flags e) mask =? masked_val) l.

Definition evbuffer_run_callbacks (b : evbuffer) (running_deferred : bool) : evbuffer :=
  let both := Z.lor EVBUFFER_CB_NODEFER EVBUFFER_CB_ENABLED in
  let '(mask, masked_val, clear) :=
    if running_deferred then (both, EVBUFFER_CB_ENABLED, true)
    else if deferred_cbs b then (both, both, false)
    else (EVBUFFER_CB_ENABLED, EVBUFFER_CB_ENABLED, true) in
  if bool_decide (callbacks b = []) then set_counters 0 0 b
  else if (n_add_for_cb b =? 0) && (n_del_for_cb b =? 0) then b
  else
    let orig := u64 (total_len b + n_del_for_cb b - n_add_for_cb b) in
    let calls := map (λ e, CbCall e orig (n_add_for_cb b) (n_del_for_cb b) (total_len b))
                   (selected_cbs mask masked_val (callbacks b)) in
    let b := set_log (cb_log b ++ calls) b in
    if clear : bool then set_counters 0 0 b else b.

(** [event_deferred_cb_schedule_] returns non-zero when the callback was not
    scheduled yet; the buffer then holds a reference for it. *)
Definition evbuffer_invoke_callbacks_ (b : evbuffer) : evbuffer :=
  if bool_decide (callbacks b = []) then set_counters 0 0 b
  else
    let b := if deferred_cbs b && negb (deferred_queued b)
             then set_deferred true (buf_refcnt b + 1) b else b in
    evbuffer_run_callbacks b false.

(** The event loop runs the deferred callback (and drops its reference). *)
Definition evbuffer_deferred_callback (b : evbuffer) : option evbuffer :=
  let b := set_deferred false (buf_refcnt b) b in
  let b := evbuffer_run_callbacks b true in
  _ ← assert_ (0 <? buf_refcnt b);
  Some (set_deferred (deferred_queued b) (buf_refcnt b - 1) b).

(** * Adding data *)

Definition EVBUFFER_CHAIN_MAX_AUTO_SIZE : Z := 4096.
Definition MAX_TO_COPY_IN_EXPAND : Z := 4096.
Definition MAX_TO_REALIGN_IN_EXPAND : Z := 2048.

Definition evbuffer_chain_align (c : chain) : option chain :=
  _ ← assert_ (negb (has (ch_flags c) EVBUFFER_IMMUTABLE));
  _ ← assert_ (negb (has (ch_flags c) EVBUFFER_MEM_PINNED_ANY));
  data ← mem_read (buffer c) (misalign c) (off c);
  mem ← memcpy_at (buffer c) 0 data;
  Some (with_extent 0 (off c) (with_buffer mem c)).

Definition evbuffer_chain_should_realign (c : chain) (datlen : Z) : bool :=
  (datlen <=? u64 (buffer_len c - off c)) &&
  (off c <? buffer_len c `div` 2) &&
  (off c <=? MAX_TO_REALIGN_IN_EXPAND).

(** [buf->chains[i] = c] *)
Definition put_chain (i : nat) (c : chain) (b : evbuffer) : evbuffer :=
  set_chains (<[i := c]> (chains b)) (last_with_datap b) b.

Section add_ops.
Context {MM : Malloc}.

(** The chain [evbuffer_add] starts with: the last one with data, or
    [buf->last]. *)
Definition add_target (b : evbuffer) : option nat :=
  match chains b !! last_with_datap b with
  | Some _ => Some (last_with_datap b)
  | None => if bool_decide (chains b = []) then None else Some (length (chains b) - 1)%nat
  end.

(** The part of [evbuffer_add] that uses a new chain for the data that does
    not fit ([remain] bytes fit into chain [i]). *)
Definition add_overflow (b : evbuffer) (i : nat) (c : chain) (remain : Z) (data : list Z)
  : option (evbuffer * Z) :=
  let to_alloc := buffer_len c in
  let to_alloc := if to_alloc <=? EVBUFFER_CHAIN_MAX_AUTO_SIZE `div` 2
                  then u64 (Z.shiftl to_alloc 1) else to_alloc in
  let to_alloc := if to_alloc <? zlen data then zlen data else to_alloc in
  match evbuffer_chain_new to_alloc with
  | None => Some (b, -1)
  | Some tmp =>
      b ← (if negb (remain =? 0) then
             c ← chain_append c (ztake remain data);
             Some (grew remain (put_chain i c b))
           else Some b);
      let data := zdrop remain data in
      mem ← memcpy_at (buffer tmp) 0 data;
      b ← evbuffer_chain_insert b (with_extent 0 (zlen data) (with_buffer mem tmp));
      let b := set_counters (u64 (n_add_for_cb b + zlen data)) (n_del_for_cb b) b in
      Some (evbuffer_invoke_callbacks_ b, 0)
  end.

Definition evbuffer_add (b : evbuffer) (data : list Z) : option (evbuffer * Z) :=
  let datlen := zlen data in
  if freeze_end b then Some (b, -1)
  else if EV_SIZE_MAX - total_len b <? datlen then Some (b, -1)
  else
    (* allocate the first chain if there is none *)
    r ← (match add_target b with
         | Some i => Some (Some (b, i))
         | None =>
             match evbuffer_chain_new datlen with
             | None => Some None
             | Some c => b ← evbuffer_chain_insert b c; Some (Some (b, 0%nat))
             end
         end);
    match r with
    | None => Some (b, -1)
    | Some (b, i) =>
        c ← chains b !! i;
        if negb (has (ch_flags c) EVBUFFER_IMMUTABLE) then
          _ ← assert_ ((0 <=? misalign c) && (misalign c <=? EVBUFFER_CHAIN_MAX));
          let remain := u64 (buffer_len c - misalign c - off c) in
          if datlen <=? remain then
            c ← chain_append c data;
            Some (evbuffer_invoke_callbacks_ (grew datlen (put_chain i c b)), 0)
          else if negb (CHAIN_PINNED c) && evbuffer_chain_should_realign c datlen then
            c ← evbuffer_chain_align c;
            c ← chain_append c data;
            Some (evbuffer_invoke_callbacks_ (grew datlen (put_chain i c b)), 0)
          else add_overflow b i c remain data
        else add_overflow b i c 0 data
    end.

(** [evbuffer_prepend] once the first chain is as full as it can get: the
    rest of the data goes into a new first chain. *)
Definition prepend_new_chain (b : evbuffer) (first_off : Z) (data : list Z)
  : option (evbuffer * Z) :=
  let datlen := zlen data in
  match evbuffer_chain_new datlen with
  | None => Some (b, -1)
  | Some tmp =>
      let lwd := if bool_decide (last_with_datap b = 0%nat) && negb (first_off =? 0)
                 then 1%nat
                 else if bool_decide (last_with_datap b = 0%nat) then 0%nat
                 else S (last_with_datap b) in
      _ ← assert_ (datlen <=? buffer_len tmp);
      let tmp := with_extent (buffer_len tmp - datlen) datlen tmp in
      mem ← memcpy_at (buffer tmp) (misalign tmp) data;
      let b := set_chains (with_buffer mem tmp :: chains b) lwd b in
      Some (evbuffer_invoke_callbacks_ (grew datlen b), 0)
  end.

Definition evbuffer_prepend (b : evbuffer) (data : list Z) : option (evbuffer * Z) :=
  let datlen := zlen data in
  if datlen =? 0 then Some (b, 0)
  else if freeze_start b then Some (b, -1)
  else if EV_SIZE_MAX - total_len b <? datlen then Some (b, -1)
  else
    r ← (match chains b with
         | _ :: _ => Some (Some b)
         | [] =>
             match evbuffer_chain_new datlen with
             | None => Some None
             | Some c => b ← evbuffer_chain_insert b c; Some (Some b)
             end
         end);
    match r with
    | None => Some (b, -1)
    | Some b =>
        c ← chains b !! 0%nat;
        if negb (has (ch_flags c) EVBUFFER_IMMUTABLE) then
          _ ← assert_ ((0 <=? misalign c) && (misalign c <=? EVBUFFER_CHAIN_MAX));
          (* an empty chain is treated as empty at the beginning *)
          let c := if off c =? 0 then with_extent (buffer_len c) 0 c else c in
          if datlen <=? misalign c then
            mem ← memcpy_at (buffer c) (misalign c - datlen) data;
            let c := with_extent (misalign c - datlen) (off c + datlen) (with_buffer mem c) in
            Some (evbuffer_invoke_callbacks_ (grew datlen (put_chain 0 c b)), 0)
          else if negb (misalign c =? 0) then
            let fit := misalign c in
            mem ← memcpy_at (buffer c) 0 (zdrop (datlen - fit) data);
            let c := with_extent 0 (off c + fit) (with_buffer mem c) in
            prepend_new_chain (grew fit (put_chain 0 c b)) (off c) (ztake (datlen - fit) data)
          else prepend_new_chain (put_chain 0 c b) (off c) data
        else prepend_new_chain b (off c) data
    end.

Definition evbuffer_add_reference (b : evbuffer) (data : list Z) : option (evbuffer * Z) :=
  (* sizeof(struct evbuffer_chain_reference) *)
  match evbuffer_chain_new 16 with
  | None => Some (b, -1)
  | Some c =>
      let c := Chain data (zlen data) (misalign c) (zlen data)
                 (Z.lor (ch_flags c) (Z.lor EVBUFFER_REFERENCE EVBUFFER_IMMUTABLE))
                 (ch_refcnt c) in
      if freeze_end b then Some (b, -1)
      else
        b ← evbuffer_chain_insert b c;
        let b := set_counters (u64 (n_add_for_cb b + zlen data)) (n_del_for_cb b) b in
        Some (evbuffer_invoke_callbacks_ b, 0)
  end.
End add_ops.

(** * Removing and reading data *)

Definition HAS_PINNED_R (b : evbuffer) : bool :=
  match last (chains b) with Some c => CHAIN_PINNED_R c | None => false end.
Definition ZERO_CHAIN (b : evbuffer) : evbuffer := set_total_len 0 (set_chains [] 0 b).

(** One step of the two tests on [last_with_datap] in the loop of
    [evbuffer_drain]: [lw] is its position relative to the current chain,
    [None] once it points at [&buf->first]. *)
Definition lwd_passes (lw : option nat) : option nat :=
  match lw with Some (S (S k)) => Some (S (S k)) | _ => None end.

Fixpoint drain_loop (cs : list chain) (remaining : Z) (lw : option nat)
  : option (list chain * Z * option nat) :=
  match cs with
  | [] => None
  | c :: cs' =>
      if off c <=? remaining then
        let remaining := remaining - off c in
        let lw := lwd_passes lw in
        if CHAIN_PINNED_R c then
          _ ← assert_ (remaining =? 0);
          Some (with_extent (misalign c + off c) 0 c :: cs', remaining, lw)
        else
          _ ← evbuffer_chain_free c;
          drain_loop cs' remaining (pred <$> lw)
      else Some (cs, remaining, lw)
  end.

Definition evbuffer_drain (b : evbuffer) (len : Z) : option (evbuffer * Z) :=
  let old_len := total_len b in
  if old_len =? 0 then Some (b, 0)
  else if freeze_start b then Some (b, -1)
  else
    r ← (if (old_len <=? len) && negb (HAS_PINNED_R b) then
           _ ← evbuffer_free_all_chains (chains b);
           Some (ZERO_CHAIN b, old_len)
         else
           let len := if old_len <=? len then old_len else len in
           let b := set_total_len (old_len - len) b in
           let lw := match last_with_datap b with O => None | S k => Some (S k) end in
           '(cs, remaining, lw) ← drain_loop (chains b) len lw;
           match cs with
           | [] => None
           | c :: cs =>
               _ ← assert_ (remaining <=? off c);
               let c := with_extent (misalign c + remaining) (off c - remaining) c in
               Some (set_chains (c :: cs) (default 0%nat lw) b, len)
           end);
    let '(b, len) := r in
    let b := set_counters (n_add_for_cb b) (u64 (n_del_for_cb b + len)) b in
    Some (evbuffer_invoke_callbacks_ b, 0).

(** [memcpy] of [datlen] bytes starting in the first chain of [cs]. *)
Fixpoint copyout_loop (cs : list chain) (datlen pos_in_chain : Z) : option (list Z) :=
  match cs with
  | [] => _ ← assert_ (datlen =? 0); Some []
  | c :: cs =>
      let copylen := u64 (off c - pos_in_chain) in
      if negb (datlen =? 0) && (copylen <=? datlen) then
        data ← mem_read (buffer c) (misalign c + pos_in_chain) copylen;
        rest ← copyout_loop cs (datlen - copylen) 0;
        Some (data ++ rest)
      else if negb (datlen =? 0) then
        _ ← assert_ (datlen + pos_in_chain <=? off c);
        mem_read (buffer c) (misalign c + pos_in_chain) datlen
      else Some []
  end.

(** [struct evbuffer_ptr]: position, chain index ([None] for [NULL]) and
    position in that chain. *)
Record evbuffer_ptr := EvPtr { pos : Z; ptr_chain : option nat; pos_in_chain : Z }.

(** Bytes copied and result code. *)
Definition evbuffer_copyout_from (b : evbuffer) (p : option evbuffer_ptr) (datlen : Z)
  : option (list Z * Z) :=
  match (match p with
         | Some p =>
             if u64 (EV_SSIZE_MAX - pos p) <? datlen then None
             else Some (match ptr_chain p with Some i => drop i (chains b) | None => [] end,
                        pos_in_chain p,
                        if total_len b <? datlen + pos p then total_len b - pos p else datlen)
         | None =>
             Some (chains b, 0, if total_len b <? datlen then total_len b else datlen)
         end) with
  | None => Some ([], -1)
  | Some (cs, pic, datlen) =>
      if datlen =? 0 then Some ([], 0)
      else if freeze_start b then Some ([], -1)
      else data ← copyout_loop cs datlen pic; Some (data, datlen)
  end.

Definition evbuffer_copyout (b : evbuffer) (datlen : Z) : option (list Z * Z) :=
  evbuffer_copyout_from b None datlen.

Definition evbuffer_remove (b : evbuffer) (datlen : Z) : option (evbuffer * list Z * Z) :=
  '(data, n) ← evbuffer_copyout_from b None datlen;
  if 0 <? n then
    '(b, r) ← evbuffer_drain b n;
    Some (b, data, i32 (if r <? 0 then -1 else n))
  else Some (b, data, i32 n).

(** * Making data contiguous *)

(** The loop of [evbuffer_pullup] that copies and frees whole chains into the
    memory [mem] of the target at [at].  [i] is the index of the current chain
    in the original list; [seen_lwd] and [seen_lwdp] are
    [removed_last_with_data] and [removed_last_with_datap]. *)
Fixpoint pullup_loop (cs : list chain) (i : nat) (lwd : option nat) (lwdp : nat)
    (mem : list Z) (at_ size : Z) (seen_lwd seen_lwdp : bool)
  : option (list chain * list Z * Z * Z * bool * bool) :=
  match cs with
  | [] => Some ([], mem, at_, size, seen_lwd, seen_lwdp)
  | c :: cs' =>
      if off c <=? size then
        data ← mem_read (buffer c) (misalign c) (off c);
        mem ← memcpy_at mem at_ data;
        _ ← evbuffer_chain_free c;
        pullup_loop cs' (S i) lwd lwdp mem (at_ + off c) (size - off c)
          (seen_lwd || bool_decide (lwd = Some i)) (seen_lwdp || bool_decide (lwdp = S i))
      else Some (cs, mem, at_, size, seen_lwd, seen_lwdp)
  end.

(** [false] if a chain the data must be copied from is pinned. *)
Fixpoint pullup_unpinned (cs : list chain) (remaining : Z) : bool :=
  match cs with
  | [] => true
  | tmp :: cs =>
      if CHAIN_PINNED tmp then false
      else if remaining <=? off tmp then true
      else pullup_unpinned cs (remaining - off tmp)
  end.

(** The part of [evbuffer_pullup] after the target [tmp] is chosen: [cs] are
    the chains still to be pulled in, the first of which has index [i];
    [at_] is where the data goes and [size] how much of it there is. *)
Definition pullup_into (b : evbuffer) (tmp : chain) (cs : list chain) (i : nat)
    (lwd : option nat) (at_ size : Z) : option (evbuffer * option (list Z)) :=
  let lwdp := last_with_datap b in
  '(rest, mem, at_, size, seen_lwd, seen_lwdp) ←
    pullup_loop cs i lwd lwdp (buffer tmp) at_ size false false;
  '(rest, mem) ←
    (match rest with
     | [] => Some ([], mem)
     | c :: rest =>
         data ← mem_read (buffer c) (misalign c) size;
         mem ← memcpy_at mem at_ data;
         Some (with_extent (misalign c + size) (off c - size) c :: rest, mem)
     end);
  let tmp := with_buffer mem tmp in
  (* links that survive move down by the number of chains that are gone *)
  let kept := match lwdp with
              | O => 0%nat
              | S k => (length (tmp :: rest) - (length (chains b) - S k))%nat
              end in
  let lwd' :=
    if seen_lwd : bool then 0%nat
    else if seen_lwdp : bool then
      match rest with c :: _ => if negb (off c =? 0) then 1%nat else 0%nat | [] => 0%nat end
    else kept in
  Some (set_chains (tmp :: rest) lwd' b, Some (chain_data tmp)).

Section pullup.
Context {MM : Malloc}.

(** The result is [NULL] or the bytes at the returned pointer. *)
Definition evbuffer_pullup (b : evbuffer) (size : Z) : option (evbuffer * option (list Z)) :=
  let size := if size <? 0 then total_len b else size in
  if (size =? 0) || (total_len b <? size) then Some (b, None)
  else
    match chains b with
    | [] => None
    | c :: cs =>
        if size <=? off c then Some (b, Some (chain_data c))
        else if negb (pullup_unpinned cs (size - off c)) then Some (b, None)
        else if CHAIN_PINNED c && (CHAIN_SPACE_LEN c <? size - off c) then Some (b, None)
        else if CHAIN_PINNED c || (size <=? u64 (buffer_len c - misalign c)) then
          pullup_into b (with_extent (misalign c) size c) cs 1 (Some (last_with_datap b))
            (misalign c + off c) (size - off c)
        else
          match evbuffer_chain_new size with
          | None => Some (b, None)
          | Some tmp =>
              (* buf->first is tmp now: *last_with_datap may be tmp itself *)
              let lwd := match last_with_datap b with O => None | S k => Some (S k) end in
              pullup_into b (with_extent 0 size tmp) (c :: cs) 0 lwd 0 size
          end
    end.
End pullup.

(** * Space *)

Definition advance_last_with_data (b : evbuffer) : evbuffer :=
  let fix go (cs : list chain) (i lwd : nat) : nat :=
    match cs with
    | [] => lwd
    | c :: cs => go cs (S i) (if negb (off c =? 0) then i else lwd)
    end in
  match drop (last_with_datap b) (chains b) with
  | [] => b
  | _ :: cs => set_chains (chains b) (go cs (S (last_with_datap b)) (last_with_datap b)) b
  end.

Section expand.
Context {MM : Malloc}.

(** Result: the index of the chain with the space ([NULL] when out of memory). *)
Definition evbuffer_expand_singlechain (b : evbuffer) (datlen : Z)
  : option (evbuffer * option nat) :=
  let finish (b : evbuffer) (i : nat) :=
    result ← chains b !! i;
    _ ← assert_ (datlen <=? CHAIN_SPACE_LEN result); Some (b, Some i) in
  let insert_new :=
    '(b, r) ← evbuffer_chain_insert_new b datlen;
    match r with None => Some (b, None) | Some _ => finish b (pred (length (chains b))) end in
  let chainp := match chains b !! last_with_datap b with
                | Some c => if CHAIN_SPACE_LEN c =? 0 then S (last_with_datap b)
                            else last_with_datap b
                | None => last_with_datap b
                end in
  match chains b !! chainp with
  | None => insert_new
  | Some c =>
      if has (ch_flags c) (Z.lor EVBUFFER_IMMUTABLE EVBUFFER_MEM_PINNED_ANY) then insert_new
      else if datlen <=? CHAIN_SPACE_LEN c then finish b chainp
      else if off c =? 0 then insert_new
      else if evbuffer_chain_should_realign c datlen then
        c ← evbuffer_chain_align c; finish (put_chain chainp c b) chainp
      else if (CHAIN_SPACE_LEN c <? buffer_len c `div` 8) || (MAX_TO_COPY_IN_EXPAND <? off c)
           || (u64 (EVBUFFER_CHAIN_MAX - off c) <=? datlen) then
        match chains b !! S chainp with
        | Some next => if datlen <=? CHAIN_SPACE_LEN next then finish b (S chainp) else insert_new
        | None => insert_new
        end
      else
        match evbuffer_chain_new (off c + datlen) with
        | None => Some (b, None)
        | Some tmp =>
            data ← mem_read (buffer c) (misalign c) (off c);
            mem ← memcpy_at (buffer tmp) 0 data;
            let tmp := with_extent 0 (off c) (with_buffer mem tmp) in
            _ ← evbuffer_chain_free c;
            finish (put_chain chainp tmp b) chainp
        end
  end.

Definition evbuffer_expand (b : evbuffer) (datlen : Z) : option (evbuffer * Z) :=
  '(b, r) ← evbuffer_expand_singlechain b datlen;
  Some (b, match r with Some _ => 0 | None => -1 end).

(** [evutil_vsnprintf] of [text] into [space > 0] bytes at [at_]: memory and
    result; a text longer than an [int] counts is an error. *)
Definition evutil_vsnprintf (mem : list Z) (at_ space : Z) (text : list Z) : option (list Z * Z) :=
  mem ← memcpy_at mem at_ (ztake (space - 1) text ++ [0]);
  mem ← memcpy_at mem (at_ + space - 1) [0];
  Some (mem, if INT_MAX <? zlen text then -1 else zlen text).

(** The loop of [evbuffer_add_vprintf]; [text] is the formatted text. *)
Fixpoint vprintf_loop (fuel : nat) (b : evbuffer) (i : nat) (text : list Z) : option (evbuffer * Z) :=
  match fuel with
  | O => None
  | S fuel =>
      c ← chains b !! i;
      let space := CHAIN_SPACE_LEN c in
      '(mem, sz) ← (if space =? 0 then Some (buffer c, 0)
                    else evutil_vsnprintf (buffer c) (misalign c + off c) space text);
      let b := put_chain i (with_buffer mem c) b in
      if sz <? 0 then Some (b, -1)
      else if (EVBUFFER_CHAIN_MAX <=? INT_MAX) && (EVBUFFER_CHAIN_MAX <=? sz) then Some (b, -1)
      else if sz <? space then
        let c := with_extent (misalign c) (off c + sz) (with_buffer mem c) in
        let b := grew sz (put_chain i c b) in
        Some (evbuffer_invoke_callbacks_ (advance_last_with_data b), sz)
      else
        '(b, r) ← evbuffer_expand_singlechain b (sz + 1);
        match r with
        | None => Some (b, -1)
        | Some i => vprintf_loop fuel b i text
        end
  end.

(** The second round has room. *)
Definition evbuffer_add_vprintf (b : evbuffer) (text : list Z) : option (evbuffer * Z) :=
  if freeze_end b then Some (b, -1)
  else
    '(b, r) ← evbuffer_expand_singlechain b 64;
    match r with
    | None => Some (b, -1)
    | Some i => vprintf_loop 2 b i text
    end.
Definition evbuffer_add_printf (b : evbuffer) (text : list Z) : option (evbuffer * Z) :=
  evbuffer_add_vprintf b text.

(** The loop of [evbuffer_expand_fast_] over the chains from
    [last_with_datap] on: [inl] when there is enough space, otherwise the
    chains used and the space they have. [at_lwd] says that the current chain
    is [*last_with_datap]. *)
Fixpoint expand_fast_loop (cs : list chain) (at_lwd : bool) (datlen : Z) (n used : nat)
    (avail : Z) : option (list chain * (unit + (nat * Z * bool))) :=
  match cs with
  | [] => Some ([], inr (used, avail, true))
  | c :: cs =>
      '(c, used, avail) ←
        (if negb (off c =? 0) then
           let space := CHAIN_SPACE_LEN c in
           _ ← assert_ at_lwd;
           Some (if negb (space =? 0) then (c, S used, u64 (avail + space)) else (c, used, avail))
         else Some (with_extent 0 (off c) c, S used, u64 (avail + buffer_len c)));
      if datlen <=? avail then Some (c :: cs, inl tt)
      else if bool_decide (used = n) then Some (c :: cs, inr (used, avail, false))
      else
        '(cs, r) ← expand_fast_loop cs false datlen n used avail;
        Some (c :: cs, r)
  end.

Definition evbuffer_expand_fast_ (b : evbuffer) (datlen : Z) (n : nat)
  : option (evbuffer * Z) :=
  _ ← assert_ (bool_decide (2 <= n)%nat);
  let fresh :=
    match evbuffer_chain_new datlen with
    | None => Some (b, -1)
    | Some c => b ← evbuffer_chain_insert b c; Some (b, 0)
    end in
  match last (chains b) with
  | None => fresh
  | Some l =>
      if has (ch_flags l) EVBUFFER_IMMUTABLE then fresh
      else
        let lwd := last_with_datap b in
        '(cs, r) ← expand_fast_loop (drop lwd (chains b)) true datlen n 0 0;
        let b := set_chains (take lwd (chains b) ++ cs) lwd b in
        match r with
        | inl _ => Some (b, 0)
        | inr (used, avail, ran_off) =>
            if bool_decide (used < n)%nat then
              _ ← assert_ ran_off;
              match evbuffer_chain_new (u64 (datlen - avail)) with
              | None => Some (b, -1)
              | Some tmp => Some (set_chains (chains b ++ [tmp]) lwd b, 0)
              end
            else
              (* nuke all the empty chains *)
              c ← chains b !! lwd;
              let rmv_all := off c =? 0 in
              _ ← assert_ (implb rmv_all (bool_decide (lwd = 0%nat)));
              let avail := if rmv_all then 0 else CHAIN_SPACE_LEN c in
              let keep := if rmv_all then lwd else S lwd in
              _ ← assert_ (evbuffer_chains_all_empty (drop keep (chains b)));
              _ ← evbuffer_free_all_chains (drop keep (chains b));
              _ ← assert_ (avail <=? datlen);
              match evbuffer_chain_new (u64 (datlen - avail)) with
              | None =>
                  if rmv_all then Some (ZERO_CHAIN b, -1)
                  else Some (set_chains (take keep (chains b)) lwd b, -1)
              | Some tmp => Some (set_chains (take keep (chains b) ++ [tmp]) lwd b, 0)
              end
        end
  end.
End expand.

(** * Moving data between buffers *)

Section two_buffers.
Context {MM : Malloc}.

(** Result: the source without its read-pinned chains, and those chains;
    [inl tt] when out of memory. *)
Definition PRESERVE_PINNED (src : evbuffer) : option (unit + evbuffer * list chain) :=
  if negb (HAS_PINNED_R src) then Some (inr (src, []))
  else
    let lwd := last_with_datap src in
    c ← chains src !! lwd;
    let pinned := if CHAIN_PINNED_R c then lwd else S lwd in
    p ← chains src !! pinned;
    _ ← assert_ (CHAIN_PINNED_R p);
    if negb (off p =? 0) then
      _ ← assert_ (bool_decide (pinned = lwd));
      match evbuffer_chain_new (off p) with
      | None => Some (inl tt)
      | Some tmp =>
          data ← mem_read (buffer p) (misalign p) (off p);
          mem ← memcpy_at (buffer tmp) 0 data;
          let tmp := with_extent (misalign tmp) (off p) (with_buffer mem tmp) in
          let p := with_extent (misalign p + off p) 0 p in
          Some (inr (set_chains (take lwd (chains src) ++ [tmp]) lwd src,
                     p :: drop (S pinned) (chains src)))
      end
    else
      Some (inr (set_chains (take pinned (chains src)) lwd src, drop pinned (chains src))).

Definition RESTORE_PINNED (src : evbuffer) (pinned : list chain) : evbuffer :=
  set_total_len 0 (set_chains pinned 0 src).

Definition COPY_CHAIN (dst src : evbuffer) : evbuffer :=
  set_total_len (total_len src) (set_chains (chains src) (last_with_datap src) dst).

Definition APPEND_CHAIN (dst src : evbuffer) : option evbuffer :=
  '(dst, chp) ← evbuffer_free_trailing_empty_chains dst;
  Some (set_total_len (u64 (total_len dst + total_len src))
          (set_chains (take chp (chains dst) ++ chains src) (chp + last_with_datap src) dst)).

Definition PREPEND_CHAIN (dst src : evbuffer) : evbuffer :=
  let n := length (chains src) in
  let lwd :=
    match chains dst !! last_with_datap dst with
    | None => last_with_datap src
    | Some _ => (n + last_with_datap dst)%nat
    end in
  set_total_len (u64 (total_len dst + total_len src))
    (set_chains (chains src ++ chains dst) lwd dst).

(** [inbuf->n_del_for_cb += n; outbuf->n_add_for_cb += n] and callbacks. *)
Definition moved (n : Z) (outbuf inbuf : evbuffer) : evbuffer * evbuffer :=
  let inbuf := set_counters (n_add_for_cb inbuf) (u64 (n_del_for_cb inbuf + n)) inbuf in
  let outbuf := set_counters (u64 (n_add_for_cb outbuf + n)) (n_del_for_cb outbuf) outbuf in
  let inbuf := evbuffer_invoke_callbacks_ inbuf in
  (evbuffer_invoke_callbacks_ outbuf, inbuf).

Definition evbuffer_add_buffer (outbuf inbuf : evbuffer) (same : bool)
  : option (evbuffer * evbuffer * Z) :=
  let in_total_len := total_len inbuf in
  let out_total_len := total_len outbuf in
  if (in_total_len =? 0) || same then Some (outbuf, inbuf, 0)
  else if freeze_end outbuf || freeze_start inbuf then Some (outbuf, inbuf, -1)
  else
    r ← PRESERVE_PINNED inbuf;
    match r with
    | inl _ => Some (outbuf, inbuf, -1)
    | inr (inbuf, pinned) =>
        outbuf ← (if out_total_len =? 0 then
                    _ ← evbuffer_free_all_chains (chains outbuf);
                    Some (COPY_CHAIN outbuf inbuf)
                  else APPEND_CHAIN outbuf inbuf);
        let inbuf := RESTORE_PINNED inbuf pinned in
        let '(outbuf, inbuf) := moved in_total_len outbuf inbuf in
        Some (outbuf, inbuf, 0)
    end.

Definition evbuffer_prepend_buffer (outbuf inbuf : evbuffer) (same : bool)
  : option (evbuffer * evbuffer * Z) :=
  let in_total_len := total_len inbuf in
  let out_total_len := total_len outbuf in
  if (in_total_len =? 0) || same then Some (outbuf, inbuf, 0)
  else if freeze_start outbuf || freeze_start inbuf then Some (outbuf, inbuf, -1)
  else
    r ← PRESERVE_PINNED inbuf;
    match r with
    | inl _ => Some (outbuf, inbuf, -1)
    | inr (inbuf, pinned) =>
        outbuf ← (if out_total_len =? 0 then
                    _ ← evbuffer_free_all_chains (chains outbuf);
                    Some (COPY_CHAIN outbuf inbuf)
                  else Some (PREPEND_CHAIN outbuf inbuf));
        let inbuf := RESTORE_PINNED inbuf pinned in
        let '(outbuf, inbuf) := moved in_total_len outbuf inbuf in
        Some (outbuf, inbuf, 0)
    end.

(** The loop of [evbuffer_remove_buffer] over the chains that can be moved
    whole.  [lw] is the position of [last_with_datap] relative to the current
    chain, [None] once it is [&src->first] (and the current chain is not the
    first one any more). Result: chains taken, rest, bytes still wanted,
    bytes taken. *)
Fixpoint take_chains (cs : list chain) (datlen nread : Z) (lw : option nat)
  : option (list chain * list chain * Z * Z * option nat) :=
  match cs with
  | [] => None
  | c :: cs' =>
      if off c <=? datlen then
        _ ← assert_ (negb (bool_decide (lw = Some 0%nat)));
        let lw := match lw with Some (S (S k)) => Some (S k) | _ => None end in
        '(taken, rest, datlen, nread, lw) ←
          take_chains cs' (datlen - off c) (nread + off c) lw;
        Some (c :: taken, rest, datlen, nread, lw)
      else Some ([], cs, datlen, nread, lw)
  end.

(** The chains [taken] (with [nread] bytes) go behind the data of [dst]. *)
Definition link_taken (dst : evbuffer) (taken : list chain) (nread : Z) : option evbuffer :=
  match taken with
  | [] => Some dst
  | _ :: _ =>
      '(dst, chp) ← evbuffer_free_trailing_empty_chains dst;
      let dst := set_chains (take chp (chains dst) ++ taken) (last_with_datap dst) dst in
      Some (grew nread (advance_last_with_data dst))
  end.

Definition evbuffer_remove_buffer (src dst : evbuffer) (datlen : Z) (same : bool)
  : option (evbuffer * evbuffer * Z) :=
  if (datlen =? 0) || same then Some (src, dst, 0)
  else if freeze_end dst || freeze_start src then Some (src, dst, -1)
  else if total_len src <=? datlen then
    let datlen := total_len src in
    '(dst, src, _) ← evbuffer_add_buffer dst src same;
    Some (src, dst, i32 datlen)
  else
    '(taken, rest, datlen, nread, lw) ←
      take_chains (chains src) datlen 0 (Some (last_with_datap src));
    dst ← link_taken dst taken nread;
    match rest with
    | [] => None
    | c :: rest =>
        data ← mem_read (buffer c) (misalign c) datlen;
        '(dst, _) ← evbuffer_add dst data;
        let c := with_extent (misalign c + datlen) (off c - datlen) c in
        let nread := nread + datlen in
        let src := set_chains (c :: rest) (default 0%nat lw) src in
        let src := set_counters (n_add_for_cb src) (u64 (n_del_for_cb src + nread))
                     (set_total_len (u64 (total_len src - nread)) src) in
        if negb (nread =? 0) then
          Some (evbuffer_invoke_callbacks_ src, evbuffer_invoke_callbacks_ dst, i32 nread)
        else Some (src, dst, i32 nread)
    end.
End two_buffers.

(** * Committing reserved space

    A vector entry is [(i, o, data)]: [iov_base] points at offset [o] of the
    memory of chain [i], and the user has written [data] there
    ([iov_len = zlen data]). *)
Definition iovec : Type := nat * Z * list Z.

Definition chain_space_at (b : evbuffer) (v : iovec) (i : nat) (c : chain) : bool :=
  let '(j, o, _) := v in bool_decide (j = i) && (o =? misalign c + off c).

(** Pass 1: every vector starts where its chain's free space starts and fits. *)
Fixpoint commit_check (b : evbuffer) (vecs : list iovec) (i : nat) : bool :=
  match vecs with
  | [] => true
  | (j, o, data) as v :: vecs =>
      match chains b !! i with
      | None => false
      | Some c =>
          chain_space_at b v i c && (zlen data <=? CHAIN_SPACE_LEN c) && commit_check b vecs (S i)
      end
  end.

(** Pass 2 (the user's writes included): extend the chains. *)
Fixpoint commit_apply (b : evbuffer) (vecs : list iovec) (i : nat) (added : Z)
  : option (evbuffer * Z) :=
  match vecs with
  | [] => Some (b, added)
  | (_, _, data) :: vecs =>
      c ← chains b !! i;
      c ← chain_append c data;
      let lwd := if negb (zlen data =? 0) then i else last_with_datap b in
      commit_apply (set_chains (<[i := c]> (chains b)) lwd b) vecs (S i) (added + zlen data)
  end.

Definition commit_okay (b : evbuffer) (added : Z) : evbuffer * Z :=
  (evbuffer_invoke_callbacks_ (grew added b), 0).

Definition evbuffer_commit_space (b : evbuffer) (vecs : list iovec) : option (evbuffer * Z) :=
  if freeze_end b then Some (b, -1)
  else
    let general :=
      match chains b !! last_with_datap b with
      | None => Some (b, -1)
      | Some f =>
          let first := if CHAIN_SPACE_LEN f =? 0 then S (last_with_datap b)
                       else last_with_datap b in
          if commit_check b vecs first
          then '(b, added) ← commit_apply b vecs first 0; Some (commit_okay b added)
          else Some (b, -1)
      end in
    match vecs with
    | [] => Some (b, 0)
    | [(_, _, data) as v] =>
        let li := (length (chains b) - 1)%nat in
        match chains b !! li with
        | Some l =>
            if chain_space_at b v li l then
              if CHAIN_SPACE_LEN l <? zlen data then Some (b, -1)
              else
                l ← chain_append l data;
                let b := put_chain li l b in
                let b := if negb (zlen data =? 0) then advance_last_with_data b else b in
                Some (commit_okay b (zlen data))
            else general
        | None => general
        end
    | _ => general
    end.
