(* ===== verification/Evbuffer.v ===== *)
(** Correctness of the byte queue: every operation of [EvbufferDefs] keeps the
    representation invariant [buf_wf], never fails an assertion, and acts on
    the abstract content [bytes b], a list of bytes, the way its contract
    says. *)
From S2P Require Import Prelude EvbufferDefs.

(** * Representation invariant and abstraction function *)

(** A chain: the data lies inside its memory.  Pinning exists only in the
    Windows overlapped-IO backend; a chain over foreign memory
    ([EVBUFFER_IMMUTABLE]) is filled to its end. *)
Record chain_wf (c : chain) : Prop := {
  cw_mis : 0 <= misalign c;
  cw_off : 0 <= off c;
  cw_fit : misalign c + off c <= buffer_len c;
  cw_len : buffer_len c = zlen (buffer c);
  cw_max : buffer_len c <= EVBUFFER_CHAIN_MAX - EVBUFFER_CHAIN_SIZE;
  cw_ref : 0 < ch_refcnt c;
  cw_pin : CHAIN_PINNED c = false;
  cw_imm : has (ch_flags c) EVBUFFER_IMMUTABLE = true → misalign c + off c = buffer_len c;
  cw_imm0 : has (ch_flags c) EVBUFFER_IMMUTABLE = true → off c = 0 → buffer_len c = 0
}.

Definition bytes_of (cs : list chain) : list Z := mjoin (chain_data <$> cs).
Definition bytes (b : evbuffer) : list Z := bytes_of (chains b).

Definition empty_chain (c : chain) : Prop := off c = 0.

(** [last_with_datap] points at the last chain that holds data, or at the first
    chain when none does. *)
Inductive lwd_ok : list chain → nat → Prop :=
| lwd_nil : lwd_ok [] 0
| lwd_at pre c post :
    (pre ≠ [] → off c ≠ 0) → Forall empty_chain post → lwd_ok (pre ++ c :: post) (length pre).

Record buf_wf (b : evbuffer) : Prop := {
  bw_chains : Forall chain_wf (chains b);
  bw_lwd : lwd_ok (chains b) (last_with_datap b);
  bw_total : total_len b = zlen (bytes b);
  bw_max : total_len b <= EV_SIZE_MAX;
  bw_add : 0 <= n_add_for_cb b < 2 ^ 64;
  bw_del : 0 <= n_del_for_cb b < 2 ^ 64
}.

(** What no data operation changes. *)
Record frame (b b' : evbuffer) : Prop := {
  fr_start : freeze_start b' = freeze_start b;
  fr_end : freeze_end b' = freeze_end b;
  fr_defer : deferred_cbs b' = deferred_cbs b;
  fr_cbs : callbacks b' = callbacks b
}.

Lemma frame_refl b : frame b b.
Proof. by constructor. Qed.
Lemma frame_trans b1 b2 b3 : frame b1 b2 → frame b2 b3 → frame b1 b3.
Proof. intros [] []; constructor; congruence. Qed.
#[export] Hint Resolve frame_refl : evlib.

(** What happens before the callbacks are invoked: only data, positions and
    counters change. *)
Record quiet (b b' : evbuffer) : Prop := {
  q_frame : frame b b';
  q_log : cb_log b' = cb_log b;
  q_queued : deferred_queued b' = deferred_queued b;
  q_refcnt : buf_refcnt b' = buf_refcnt b
}.
Lemma quiet_refl b : quiet b b.
Proof. by repeat constructor. Qed.
Lemma quiet_trans b1 b2 b3 : quiet b1 b2 → quiet b2 b3 → quiet b1 b3.
Proof. intros [] []; constructor; try congruence. eauto using frame_trans. Qed.
#[export] Hint Resolve quiet_refl q_frame : evlib.

(** An operation that added [na] bytes and removed [nd] bytes and then ran the
    callbacks. *)
Definition notified (b : evbuffer) (na nd : Z) (b' : evbuffer) : Prop :=
  ∃ b1, b' = evbuffer_invoke_callbacks_ b1 ∧ quiet b b1 ∧
    n_add_for_cb b1 = u64 (n_add_for_cb b + na) ∧ n_del_for_cb b1 = u64 (n_del_for_cb b + nd).

(** Reasons for a failed allocation of a chain for [size] bytes. *)
Definition alloc_failure {MM : Malloc} (size : Z) : Prop :=
  EVBUFFER_CHAIN_MAX - EVBUFFER_CHAIN_SIZE < size ∨ ∃ n, 0 <= n ∧ mm_malloc n = None.

Lemma u64_add_l a b : u64 (u64 a + b) = u64 (a + b).
Proof. apply Zplus_mod_idemp_l. Qed.
Lemma u64_idem a : u64 (u64 a) = u64 a.
Proof. apply Zmod_mod. Qed.
Lemma u64_add_r a b : u64 (a + u64 b) = u64 (a + b).
Proof. apply Zplus_mod_idemp_r. Qed.

(** * Chains *)

Lemma bytes_of_app cs ds : bytes_of (cs ++ ds) = bytes_of cs ++ bytes_of ds.
Proof. unfold bytes_of. by rewrite fmap_app, join_app. Qed.
Lemma bytes_of_cons c cs : bytes_of (c :: cs) = chain_data c ++ bytes_of cs.
Proof. done. Qed.
Lemma bytes_of_nil : bytes_of [] = [].
Proof. done. Qed.
Lemma chain_data_empty c : off c = 0 → chain_data c = [].
Proof. unfold chain_data. by intros ->. Qed.
Lemma bytes_of_empty cs : Forall empty_chain cs → bytes_of cs = [].
Proof. induction 1 as [|c cs Hc _ IH]; [done|]. by rewrite bytes_of_cons, IH, chain_data_empty. Qed.
#[export] Hint Rewrite bytes_of_app bytes_of_cons bytes_of_nil @app_nil_r : evrw.

Lemma chain_data_len c : chain_wf c → zlen (chain_data c) = off c.
Proof.
  intros []. unfold chain_data. rewrite zlen_ztake; [done|].
  rewrite zlen_zdrop by lia. lia.
Qed.
Lemma bytes_of_len_empty cs :
  Forall chain_wf cs → zlen (bytes_of cs) = 0 → Forall empty_chain cs.
Proof.
  induction 1 as [|c cs Hc _ IH]; [by constructor|].
  rewrite bytes_of_cons, zlen_app, chain_data_len by done. intros.
  pose proof (cw_off _ Hc). pose proof (zlen_nonneg (bytes_of cs)).
  constructor; [unfold empty_chain; lia|apply IH; lia].
Qed.

Lemma chain_pin_r c : chain_wf c → CHAIN_PINNED_R c = false.
Proof.
  intros Hc. pose proof (cw_pin _ Hc) as H. unfold CHAIN_PINNED, CHAIN_PINNED_R, has in *.
  apply negb_false_iff, Z.eqb_eq in H. apply negb_false_iff, Z.eqb_eq.
  apply Z.bits_inj'; intros n Hn. apply (f_equal (λ z, Z.testbit z n)) in H.
  unfold EVBUFFER_MEM_PINNED_ANY in H.
  rewrite !Z.land_spec, Z.lor_spec, Z.bits_0 in *.
  destruct (Z.testbit (ch_flags c) n), (Z.testbit EVBUFFER_MEM_PINNED_R n); done.
Qed.

Lemma chain_space c :
  chain_wf c →
  CHAIN_SPACE_LEN c = if has (ch_flags c) EVBUFFER_IMMUTABLE then 0
                      else buffer_len c - misalign c - off c.
Proof.
  intros []. unfold CHAIN_SPACE_LEN. destruct (has _ _); [done|].
  unfold EVBUFFER_CHAIN_MAX, EV_SSIZE_MAX, EVBUFFER_CHAIN_SIZE in *. rewrite u64_small; lia.
Qed.
Lemma chain_space_le c : chain_wf c → 0 <= CHAIN_SPACE_LEN c <= buffer_len c - misalign c - off c.
Proof. intros Hc. rewrite chain_space by done. destruct Hc, (has _ _); lia. Qed.

(** Rebuilding [chain_wf] after the extent or the memory changed. *)
Lemma chain_wf_with c mem mis o :
  chain_wf c → has (ch_flags c) EVBUFFER_IMMUTABLE = false →
  0 <= mis → 0 <= o → mis + o <= buffer_len c → zlen mem = zlen (buffer c) →
  chain_wf (with_extent mis o (with_buffer mem c)).
Proof. intros [] Hi ? ? ? ?. constructor; simpl; try done; try lia; congruence. Qed.

Lemma chain_data_with mem mis o c :
  chain_data (with_extent mis o (with_buffer mem c)) = ztake o (zdrop mis mem).
Proof. done. Qed.
Lemma chain_data_extent mis o c :
  chain_data (with_extent mis o c) = ztake o (zdrop mis (buffer c)).
Proof. done. Qed.

Lemma chain_append_ok c data :
  chain_wf c → has (ch_flags c) EVBUFFER_IMMUTABLE = false →
  zlen data <= buffer_len c - misalign c - off c →
  ∃ c', chain_append c data = Some c' ∧ chain_wf c' ∧
    chain_data c' = chain_data c ++ data ∧ off c' = off c + zlen data ∧
    ch_flags c' = ch_flags c ∧ misalign c' = misalign c ∧ buffer_len c' = buffer_len c.
Proof.
  intros Hc Hi Hd. destruct (Hc) as []. unfold chain_append.
  pose proof (zlen_nonneg data).
  rewrite memcpy_at_ok by lia. cbn [mbind option_bind].
  eexists; split; [done|]. split; [|split; [|done]].
  - apply chain_wf_with; try done; try lia. len_lia.
  - rewrite chain_data_with. unfold chain_data.
    rewrite zdrop_app_le by (rewrite zlen_ztake; lia).
    rewrite Z.add_comm. rewrite <- ztake_zdrop_comm by lia. rewrite Z.add_comm.
    rewrite ztake_app_ge by (rewrite zlen_ztake; [lia|rewrite zlen_zdrop; lia]).
    rewrite zlen_ztake by (rewrite zlen_zdrop; lia).
    f_equal. rewrite ztake_app_ge by lia.
    replace (off c + zlen data - off c - zlen data) with 0 by lia.
    rewrite ztake_0. apply app_nil_r.
Qed.

Lemma chain_align_ok c :
  chain_wf c → has (ch_flags c) EVBUFFER_IMMUTABLE = false →
  ∃ c', evbuffer_chain_align c = Some c' ∧ chain_wf c' ∧ chain_data c' = chain_data c ∧
    off c' = off c ∧ ch_flags c' = ch_flags c ∧ misalign c' = 0 ∧ buffer_len c' = buffer_len c.
Proof.
  intros Hc Hi. destruct (Hc) as []. unfold evbuffer_chain_align.
  rewrite Hi. cbn [negb assert_ mbind option_bind].
  unfold CHAIN_PINNED in *. rewrite cw_pin0. cbn [negb assert_ mbind option_bind].
  rewrite mem_read_ok by lia. cbn [mbind option_bind].
  rewrite memcpy_at_ok by len_lia.
  cbn [mbind option_bind]. eexists; split; [done|]. split; [|split; [|done]].
  - apply chain_wf_with; try done; try lia. fold (chain_data c).
    pose proof (chain_data_len _ Hc). len_lia.
  - rewrite chain_data_with. fold (chain_data c).
    rewrite ztake_0, zdrop_0, app_nil_l.
    pose proof (chain_data_len _ Hc).
    rewrite ztake_app_ge by lia. rewrite H, Z.sub_diag, ztake_0. apply app_nil_r.
Qed.

Lemma chain_free_ok c : chain_wf c → ∃ o, evbuffer_chain_free c = Some o.
Proof.
  intros []. unfold evbuffer_chain_free.
  destruct (Z.ltb_spec 0 (ch_refcnt c)); [|lia]. cbn [assert_ mbind option_bind].
  repeat case_match; eauto.
Qed.
Lemma free_all_ok cs : Forall chain_wf cs → ∃ o, evbuffer_free_all_chains cs = Some o.
Proof.
  induction 1 as [|c cs Hc _ [os IH]]; [by exists []|].
  destruct (chain_free_ok _ Hc) as [o Ho]. exists (o :: os).
  unfold evbuffer_free_all_chains in *. simpl. by rewrite Ho; simpl; rewrite IH.
Qed.
Lemma all_empty_ok cs : Forall empty_chain cs → evbuffer_chains_all_empty cs = true.
Proof.
  induction 1 as [|c cs Hc _ IH]; [done|]. simpl. rewrite Hc. apply IH.
Qed.

(** Taking [n] bytes off the front of a chain. *)
Lemma chain_shrink c n :
  chain_wf c → 0 <= n <= off c → (n = off c → has (ch_flags c) EVBUFFER_IMMUTABLE = false) →
  chain_wf (with_extent (misalign c + n) (off c - n) c) ∧
  chain_data (with_extent (misalign c + n) (off c - n) c) = zdrop n (chain_data c).
Proof.
  intros Hc Hn Himm. destruct (Hc) as []. split.
  - constructor; simpl; try done; try lia.
    intros Hi ?. rewrite Himm in Hi by lia. done.
  - rewrite chain_data_extent. unfold chain_data.
    rewrite <- zdrop_zdrop by lia. rewrite ztake_zdrop_comm by lia.
    f_equal. f_equal. lia.
Qed.

(** ** Allocation *)

Lemma grow_alloc_stop fuel k size : size <= k → grow_alloc fuel k size = k.
Proof. intros. destruct fuel; simpl; [done|]. destruct (Z.ltb_spec k size); [lia|done]. Qed.

(** The doubling loop stops after fewer than 64 rounds, at the first power of
    two times 1024 that is large enough. *)
Lemma grow_alloc_spec fuel k size :
  0 <= k → k + Z.of_nat fuel = 64 → 2 ^ (k + 10) <= 2 ^ 62 → size <= 2 ^ 62 →
  let r := grow_alloc fuel (2 ^ (k + 10)) size in
  size <= r ∧ r <= 2 ^ 62 ∧ (2 ^ (k + 10) < size → r < 2 * size) ∧ 2 ^ (k + 10) <= r.
Proof.
  revert k; induction fuel as [|fuel IH]; intros k Hk Hf Hb Hs r; subst r.
  { assert (k = 64) as -> by lia. by destruct Hb. }
  simpl. destruct (Z.ltb_spec (2 ^ (k + 10)) size); [|lia].
  assert (k + 10 < 62) by (apply (Z.pow_lt_mono_r_iff 2); lia).
  assert (2 ^ (k + 10) < 2 ^ 62) by (apply Z.pow_lt_mono_r; lia).
  assert (Hp : 2 ^ (k + 1 + 10) = 2 * 2 ^ (k + 10)).
  { rewrite <- Z.pow_succ_r by lia. f_equal; lia. }
  assert (2 ^ (k + 1 + 10) <= 2 ^ 62) by (apply Z.pow_le_mono_r; lia).
  assert (0 < 2 ^ (k + 10)) by (apply Z.pow_pos_nonneg; lia).
  rewrite Z.shiftl_mul_pow2 by lia. rewrite u64_small by lia.
  replace (2 ^ (k + 10) * 2 ^ 1) with (2 ^ (k + 1 + 10)) by lia.
  destruct (IH (k + 1)) as (?&?&?&?); try lia.
  split_and!; try done; try lia.
  intros _. destruct (Z.lt_ge_cases (2 ^ (k + 1 + 10)) size); [auto|].
  rewrite grow_alloc_stop; lia.
Qed.

Lemma grow_alloc_min size :
  size <= 2 ^ 62 →
  let r := grow_alloc 64 MIN_BUFFER_SIZE size in
  size <= r ∧ r <= 2 ^ 62 ∧ (MIN_BUFFER_SIZE < size → r < 2 * size) ∧ MIN_BUFFER_SIZE <= r.
Proof. intros. apply (grow_alloc_spec 64 0 size); lia || done. Qed.

Section alloc.
Context {MM : Malloc}.

Lemma chain_new_spec size c :
  0 <= size → evbuffer_chain_new size = Some c →
  chain_wf c ∧ off c = 0 ∧ misalign c = 0 ∧ size <= buffer_len c ∧ ch_flags c = 0 ∧
  (size + EVBUFFER_CHAIN_SIZE < EVBUFFER_CHAIN_MAX `div` 2 →
   buffer_len c + EVBUFFER_CHAIN_SIZE <= Z.max MIN_BUFFER_SIZE (2 * (size + EVBUFFER_CHAIN_SIZE))).
Proof.
  intros Hs. unfold evbuffer_chain_new.
  destruct (Z.ltb_spec (EVBUFFER_CHAIN_MAX - EVBUFFER_CHAIN_SIZE) size); [done|].
  rewrite u64_small by (unfold EVBUFFER_CHAIN_MAX, EVBUFFER_CHAIN_SIZE, EV_SSIZE_MAX in *; lia).
  set (sz := size + EVBUFFER_CHAIN_SIZE) in *.
  set (ta := if sz <? _ then _ else _).
  assert (sz <= ta ∧ ta <= EV_SSIZE_MAX ∧ (sz < EVBUFFER_CHAIN_MAX `div` 2 →
            ta <= Z.max MIN_BUFFER_SIZE (2 * sz))) as (H1&H2&H3).
  { subst ta. destruct (Z.ltb_spec sz (EVBUFFER_CHAIN_MAX `div` 2)) as [Hlt|].
    - destruct (grow_alloc_min sz) as (?&?&?&?).
      { unfold EVBUFFER_CHAIN_MAX, EV_SSIZE_MAX in Hlt.
        change ((2 ^ 63 - 1) `div` 2) with (2 ^ 62 - 1) in Hlt. lia. }
      unfold EV_SSIZE_MAX.
      split; [lia|]. split; [lia|]. intros _.
      destruct (Z.lt_ge_cases MIN_BUFFER_SIZE sz) as [Hm|Hm]; [specialize (H2 Hm); lia|].
      rewrite grow_alloc_stop by lia. lia.
    - subst sz. unfold EVBUFFER_CHAIN_MAX in *. lia. }
  clearbody ta. assert (0 <= sz) by (subst sz; unfold EVBUFFER_CHAIN_SIZE; lia).
  destruct (mm_malloc ta) as [m|] eqn:Em; [|done].
  apply mm_malloc_len in Em; [|lia]. cbn [mbind option_bind]. intros [= <-].
  simpl. subst sz. unfold EVBUFFER_CHAIN_SIZE, EVBUFFER_CHAIN_MAX in *.
  split_and!; try done; try lia.
  constructor; simpl; try done; try (unfold EVBUFFER_CHAIN_MAX, EVBUFFER_CHAIN_SIZE; lia).
  rewrite zlen_zdrop; lia.
Qed.

Lemma chain_new_None size :
  0 <= size → evbuffer_chain_new size = None → alloc_failure size.
Proof.
  intros Hs. unfold evbuffer_chain_new.
  destruct (Z.ltb_spec (EVBUFFER_CHAIN_MAX - EVBUFFER_CHAIN_SIZE) size) as [?|Hle]; [by left|].
  rewrite u64_small by (unfold EVBUFFER_CHAIN_MAX, EVBUFFER_CHAIN_SIZE, EV_SSIZE_MAX in *; lia).
  set (ta := if _ <? _ then _ else _).
  destruct (mm_malloc ta) as [m|] eqn:Em; [done|]. intros _. right. exists ta. split; [|done].
  subst ta. destruct (Z.ltb_spec (size + EVBUFFER_CHAIN_SIZE) (EVBUFFER_CHAIN_MAX `div` 2)) as [Hlt|].
  - destruct (grow_alloc_min (size + EVBUFFER_CHAIN_SIZE)) as (?&?&?&?); [|unfold MIN_BUFFER_SIZE in *; lia].
    unfold EVBUFFER_CHAIN_MAX, EV_SSIZE_MAX in Hlt.
    change ((2 ^ 63 - 1) `div` 2) with (2 ^ 62 - 1) in Hlt. lia.
  - unfold EVBUFFER_CHAIN_SIZE; lia.
Qed.
End alloc.

(** * The invariant under chain updates *)

Lemma insert_middle {A} (pre : list A) x y post :
  <[length pre := y]> (pre ++ x :: post) = pre ++ y :: post.
Proof. rewrite insert_app_r_alt, Nat.sub_diag; done. Qed.
Lemma lookup_middle {A} (pre : list A) x post : (pre ++ x :: post) !! length pre = Some x.
Proof. by apply list_lookup_middle. Qed.
Lemma drop_middle {A} (pre : list A) x post : drop (length pre) (pre ++ x :: post) = x :: post.
Proof. by rewrite drop_app_length. Qed.
Lemma take_middle {A} (pre : list A) x post : take (length pre) (pre ++ x :: post) = pre.
Proof. by rewrite take_app_length. Qed.
Lemma take_middle_S {A} (pre : list A) x post : take (S (length pre)) (pre ++ x :: post) = pre ++ [x].
Proof. rewrite take_app_ge by lia. replace (S (length pre) - length pre)%nat with 1%nat by lia. done. Qed.
Lemma drop_middle_S {A} (pre : list A) x post : drop (S (length pre)) (pre ++ x :: post) = post.
Proof. rewrite drop_app_ge by lia. replace (S (length pre) - length pre)%nat with 1%nat by lia. done. Qed.

(** A new buffer state with contents [cs]. *)
Lemma wf_contents b cs lwd n :
  buf_wf b → Forall chain_wf cs → lwd_ok cs lwd → zlen (bytes_of cs) = n → n <= EV_SIZE_MAX →
  buf_wf (set_total_len n (set_chains cs lwd b)).
Proof. intros []; constructor; simpl; done. Qed.
Lemma wf_counters b na nd :
  buf_wf b → buf_wf (set_counters (u64 na) (u64 nd) b).
Proof. intros []; constructor; simpl; try done; apply u64_range. Qed.
Lemma wf_counters_l b na :
  buf_wf b → buf_wf (set_counters (u64 na) (n_del_for_cb b) b).
Proof. intros []; constructor; simpl; try done; apply u64_range. Qed.
Lemma wf_counters_r b nd :
  buf_wf b → buf_wf (set_counters (n_add_for_cb b) (u64 nd) b).
Proof. intros []; constructor; simpl; try done; apply u64_range. Qed.

Lemma wf_grew b cs lwd n :
  buf_wf b → Forall chain_wf cs → lwd_ok cs lwd →
  zlen (bytes_of cs) = total_len b + n → 0 <= n → total_len b + n <= EV_SIZE_MAX →
  buf_wf (grew n (set_chains cs lwd b)).
Proof.
  intros Hb Hcs Hl Hn ??. destruct (Hb) as [].
  pose proof (zlen_nonneg (bytes b)). unfold EV_SIZE_MAX in *.
  constructor; simpl; try done; try (apply u64_range).
  - rewrite u64_small by lia. done.
  - rewrite u64_small; unfold EV_SIZE_MAX; lia.
Qed.

Lemma wf_nonneg b : buf_wf b → 0 <= total_len b.
Proof. intros [_ _ -> _ _ _]. apply zlen_nonneg. Qed.

(** The three positions of [last_with_datap]. *)
Lemma wf_cases b :
  buf_wf b →
  (chains b = [] ∧ last_with_datap b = 0%nat) ∨
  ∃ pre c post, chains b = pre ++ c :: post ∧ last_with_datap b = length pre ∧
    (pre ≠ [] → off c ≠ 0) ∧ Forall empty_chain post ∧
    Forall chain_wf pre ∧ chain_wf c ∧ Forall chain_wf post.
Proof.
  intros [Hc Hl _ _ _ _]. destruct Hl as [|pre c post Hp He]; [by left|right].
  apply Forall_app in Hc as [Hpre [Hc Hpost]%Forall_cons]. naive_solver.
Qed.

(** * Callbacks leave the data alone *)

Record same_data (b b' : evbuffer) : Prop := {
  sd_chains : chains b' = chains b;
  sd_lwd : last_with_datap b' = last_with_datap b;
  sd_total : total_len b' = total_len b;
  sd_frame : frame b b'
}.

Lemma run_callbacks_same b r : same_data b (evbuffer_run_callbacks b r).
Proof. unfold evbuffer_run_callbacks. repeat case_match; by repeat constructor. Qed.
Lemma run_callbacks_counters b r :
  let b' := evbuffer_run_callbacks b r in
  (n_add_for_cb b' = n_add_for_cb b ∧ n_del_for_cb b' = n_del_for_cb b) ∨
  (n_add_for_cb b' = 0 ∧ n_del_for_cb b' = 0).
Proof. unfold evbuffer_run_callbacks. repeat case_match; simpl; auto. Qed.
Lemma invoke_callbacks_same b : same_data b (evbuffer_invoke_callbacks_ b).
Proof.
  unfold evbuffer_invoke_callbacks_. case_match; [by repeat constructor|].
  case_match; [|apply run_callbacks_same].
  destruct (run_callbacks_same (set_deferred true (buf_refcnt b + 1) b) false) as [? ? ? []].
  by repeat constructor.
Qed.
Lemma invoke_callbacks_counters b :
  let b' := evbuffer_invoke_callbacks_ b in
  (n_add_for_cb b' = n_add_for_cb b ∧ n_del_for_cb b' = n_del_for_cb b) ∨
  (n_add_for_cb b' = 0 ∧ n_del_for_cb b' = 0).
Proof.
  unfold evbuffer_invoke_callbacks_. case_match; [simpl; auto|].
  case_match; [|apply run_callbacks_counters].
  destruct (run_callbacks_counters (set_deferred true (buf_refcnt b + 1) b) false); auto.
Qed.

Lemma wf_same_data b b' :
  buf_wf b → same_data b b' →
  (n_add_for_cb b' = n_add_for_cb b ∧ n_del_for_cb b' = n_del_for_cb b) ∨
  (n_add_for_cb b' = 0 ∧ n_del_for_cb b' = 0) → buf_wf b'.
Proof.
  intros [? ? Ht ? ? ?] [Ec El Et _] Hn.
  constructor; rewrite ?Ec, ?El, ?Et; try done; try lia.
  rewrite Ht. unfold bytes. by rewrite Ec.
Qed.
Lemma wf_invoke b : buf_wf b → buf_wf (evbuffer_invoke_callbacks_ b).
Proof. intros. eapply wf_same_data; eauto using invoke_callbacks_same, invoke_callbacks_counters. Qed.
Lemma bytes_invoke b : bytes (evbuffer_invoke_callbacks_ b) = bytes b.
Proof. unfold bytes. by rewrite (sd_chains _ _ (invoke_callbacks_same b)). Qed.
Lemma frame_invoke b b0 : frame b0 b → frame b0 (evbuffer_invoke_callbacks_ b).
Proof. intros. eapply frame_trans; [done|]. apply invoke_callbacks_same. Qed.
Lemma quiet_grew b b0 n : quiet b0 b → quiet b0 (grew n b).
Proof. by intros [[]]; repeat constructor. Qed.
Lemma quiet_set_chains b b0 cs l : quiet b0 b → quiet b0 (set_chains cs l b).
Proof. by intros [[]]; repeat constructor. Qed.
Lemma quiet_put b b0 i c : quiet b0 b → quiet b0 (put_chain i c b).
Proof. by intros [[]]; repeat constructor. Qed.
Lemma quiet_set_total b b0 n : quiet b0 b → quiet b0 (set_total_len n b).
Proof. by intros [[]]; repeat constructor. Qed.
Lemma quiet_set_counters b b0 n m : quiet b0 b → quiet b0 (set_counters n m b).
Proof. by intros [[]]; repeat constructor. Qed.
Lemma frame_notified b na nd b' : notified b na nd b' → frame b b'.
Proof. intros (b1 & -> & ? & _). apply frame_invoke, q_frame. done. Qed.
#[export] Hint Resolve frame_invoke quiet_grew quiet_set_chains quiet_put quiet_set_total
  quiet_set_counters frame_notified : evlib.
#[export] Hint Rewrite bytes_invoke : evrw.
#[export] Hint Resolve wf_invoke wf_counters wf_counters_l wf_counters_r : evlib.

(** * Linking chains *)

(** After the trailing empty chains are gone, the list ends with the last chain
    that has data. *)
Lemma free_trailing_ok b :
  buf_wf b →
  ∃ cs, evbuffer_free_trailing_empty_chains b =
          Some (set_chains cs (last_with_datap b) b, length cs) ∧
    Forall chain_wf cs ∧ bytes_of cs = bytes b ∧
    (cs = [] ∧ last_with_datap b = 0%nat ∨
     ∃ pre c, cs = pre ++ [c] ∧ off c ≠ 0 ∧ last_with_datap b = length pre).
Proof.
  intros Hb. unfold evbuffer_free_trailing_empty_chains, bytes.
  destruct (wf_cases _ Hb) as [[Hc Hl]|(pre & c & post & Hc & Hl & Hpc & Hpost & Wpre & Wc & Wpost)].
  { exists []. rewrite Hc, Hl. simpl.
    split; [|by auto]. do 2 f_equal. destruct b; simpl in *; by subst. }
  rewrite Hc, Hl, drop_middle. simpl skip_kept. rewrite (cw_pin _ Wc).
  assert (skip_kept post = 0%nat) as Hs.
  { destruct Hpost as [|d post Hd _]; [done|]. apply Forall_cons in Wpost as [Wd _].
    simpl. rewrite (cw_pin _ Wd), Hd. done. }
  destruct (Z.eqb_spec (off c) 0) as [Ho|Ho]; cbn [negb orb].
  - assert (pre = []) as -> by (destruct pre; [done|exfalso; by apply Hpc]).
    simpl length. simpl app. rewrite Nat.add_0_l. cbn [lookup list_lookup drop].
    exists []. rewrite all_empty_ok by (by constructor).
    cbn [assert_ mbind option_bind].
    destruct (free_all_ok (c :: post)) as [o ->]; [by constructor|].
    cbn [mbind option_bind]. split; [done|]. split; [done|]. split; [|auto].
    symmetry. apply bytes_of_empty. by constructor.
  - rewrite Hs. replace (length pre + 1)%nat with (S (length pre)) by lia.
    exists (pre ++ [c]). rewrite length_app, Nat.add_1_r.
    rewrite drop_middle_S, take_middle_S.
    assert (Forall chain_wf (pre ++ [c])) by (apply Forall_app; auto).
    assert (bytes_of (pre ++ [c]) = bytes_of (pre ++ c :: post)) as Hby.
    { rewrite !bytes_of_app, !bytes_of_cons, (bytes_of_empty post) by done. done. }
    destruct post as [|d post].
    + replace ((pre ++ [c]) !! S (length pre)) with (@None chain).
      2:{ symmetry. apply lookup_ge_None_2. rewrite length_app. simpl. lia. }
      split; [|split; [done|]; split; [done|]; right; by exists pre, c].
      do 2 f_equal. destruct b; simpl in *; by subst.
    + replace ((pre ++ c :: d :: post) !! S (length pre)) with (Some d).
      2:{ rewrite lookup_app_r by lia. by replace (S (length pre) - length pre)%nat with 1%nat by lia. }
      rewrite all_empty_ok by done. cbn [assert_ mbind option_bind].
      destruct (free_all_ok (d :: post)) as [o ->]; [done|].
      cbn [mbind option_bind]. split; [done|]. split; [done|]. split; [done|].
      right. by exists pre, c.
Qed.

(** [evbuffer_chain_insert] puts the chain behind all the data. *)
Lemma chain_insert_ok b c :
  buf_wf b → chain_wf c → total_len b + off c <= EV_SIZE_MAX →
  ∃ b' cs, evbuffer_chain_insert b c = Some b' ∧ buf_wf b' ∧ quiet b b' ∧
    chains b' = cs ++ [c] ∧ bytes_of cs = bytes b ∧ bytes b' = bytes b ++ chain_data c ∧
    total_len b' = total_len b + off c ∧
    n_add_for_cb b' = n_add_for_cb b ∧ n_del_for_cb b' = n_del_for_cb b ∧
    (bytes b = [] → cs = [] ∧ last_with_datap b' = 0%nat).
Proof.
  intros Hb Wc Ht. unfold evbuffer_chain_insert.
  pose proof (wf_nonneg _ Hb). pose proof (cw_off _ Wc).
  assert (Hu : u64 (total_len b + off c) = total_len b + off c)
    by (apply u64_small; unfold EV_SIZE_MAX in *; lia).
  destruct (wf_cases _ Hb) as [[Hc Hl]|(pre & d & post & Hc & Hl & _)].
  - rewrite Hc, Hl. simpl lookup. cbn iota.
    rewrite !bool_decide_true by done. cbn [assert_ mbind option_bind].
    simpl. rewrite Hu. eexists _, []. split; [done|].
    assert (bytes b = []) as Hby by (unfold bytes; by rewrite Hc).
    split.
    { change (buf_wf (set_total_len (total_len b + off c) (set_chains [c] 0 b))).
      apply wf_contents; [done|by constructor|by apply (lwd_at [])| |done].
      rewrite (bw_total _ Hb), Hby. autorewrite with evrw. by rewrite chain_data_len. }
    rewrite Hby. unfold bytes. simpl. autorewrite with evrw.
    split; [by repeat constructor|]. auto 10.
  - assert (chains b !! last_with_datap b = Some d) as ->
      by (rewrite Hc, Hl; apply lookup_middle).
    destruct (free_trailing_ok b Hb) as (cs & -> & Wcs & Hby & Hend).
    cbn [mbind option_bind]. simpl total_len. rewrite Hu. simpl chains. simpl last_with_datap.
    rewrite firstn_all. eexists _, cs. split; [done|]. split.
    { match goal with |- buf_wf (set_total_len ?n (set_chains ?l ?k (set_chains _ _ b))) =>
        change (buf_wf (set_total_len n (set_chains l k b))) end.
      apply wf_contents; [done|by apply Forall_app; auto| | |done].
      - destruct Hend as [[-> Hl0]|(pre' & c' & -> & Ho & Hl')].
        + rewrite Hl0. simpl. case_match; by apply (lwd_at []).
        + destruct (Z.eqb_spec (off c) 0); simpl negb; cbn iota.
          * rewrite Hl', <- app_assoc. apply (lwd_at pre' c' [c]); [done|].
            by constructor.
          * by apply lwd_at.
      - rewrite (bw_total _ Hb), <- Hby. autorewrite with evrw.
        rewrite zlen_app, chain_data_len; done. }
    split; [by repeat constructor|]. split; [done|]. split; [done|].
    split. { unfold bytes at 1; simpl. autorewrite with evrw. by rewrite Hby. }
    split; [done|]. split; [done|]. split; [done|].
    intros Hb0. simpl. destruct Hend as [[-> Hl0]|(pre' & c' & -> & Ho & Hl')].
    + split; [done|]. rewrite Hl0. by case_match.
    + exfalso. rewrite bytes_of_app, bytes_of_cons in Hby.
      apply Forall_app in Wcs as [_ [Wc' _]%Forall_cons].
      apply Ho. rewrite <- (chain_data_len c') by done.
      rewrite Hb0 in Hby. apply app_nil in Hby as [_ [Hx _]%app_nil]. by rewrite Hx.
Qed.

(** * Appending *)

(** The chain [last_with_datap] points at grew by [data]. *)
Lemma grow_last b pre c post c' data :
  buf_wf b → chains b = pre ++ c :: post → last_with_datap b = length pre →
  (pre ≠ [] → off c ≠ 0) → Forall empty_chain post →
  chain_wf c' → chain_data c' = chain_data c ++ data → off c' = off c + zlen data →
  total_len b + zlen data <= EV_SIZE_MAX →
  let b' := grew (zlen data) (put_chain (length pre) c' b) in
  buf_wf b' ∧ bytes b' = bytes b ++ data ∧ total_len b' = total_len b + zlen data ∧
  chains b' = pre ++ c' :: post ∧ last_with_datap b' = length pre.
Proof.
  intros Hb Hc Hl Hp He Wc' Hd Ho Ht b'.
  pose proof (wf_nonneg _ Hb). pose proof (zlen_nonneg data).
  assert (Hcs : chains b' = pre ++ c' :: post).
  { unfold b', put_chain; simpl. by rewrite Hc, insert_middle. }
  assert (Hby : bytes b' = bytes b ++ data).
  { unfold bytes. rewrite Hcs, Hc. autorewrite with evrw. rewrite Hd.
    rewrite (bytes_of_empty post) by done. by rewrite !app_nil_r, <- app_assoc. }
  destruct (Hb) as [Wc]. rewrite Hc in Wc. apply Forall_app in Wc as [Wpre [Wc Wpost]%Forall_cons].
  split; [|split; [done|split; [|done]]].
  - unfold b', put_chain. apply wf_grew; try done.
    + rewrite Hc, insert_middle. apply Forall_app; auto.
    + rewrite Hc, insert_middle, Hl. apply lwd_at; [|done].
      intros Hpre%Hp. pose proof (cw_off _ Wc). lia.
    + change (zlen (bytes b') = total_len b + zlen data).
      rewrite Hby, zlen_app. by rewrite (bw_total _ Hb).
  - unfold b'; simpl. apply u64_small. unfold EV_SIZE_MAX in *. lia.
Qed.

Section add.
Context {MM : Malloc}.

(** What [evbuffer_add] promises: all of the data, or none of it for a
    reason. *)
Definition add_spec (b : evbuffer) (data : list Z) (r : option (evbuffer * Z)) : Prop :=
  ∃ b' rc, r = Some (b', rc) ∧ buf_wf b' ∧
    (rc = 0 ∧ bytes b' = bytes b ++ data ∧ notified b (zlen data) 0 b' ∨
     rc = -1 ∧ bytes b' = bytes b ∧ quiet b b' ∧
     (freeze_end b = true ∨ EV_SIZE_MAX < total_len b + zlen data ∨ alloc_failure (zlen data))).

Lemma wf_new_chain_data (tmp : chain) data :
  chain_wf tmp → misalign tmp = 0 → ch_flags tmp = 0 → zlen data <= buffer_len tmp →
  ∃ mem, memcpy_at (buffer tmp) 0 data = Some mem ∧
    let c := with_extent 0 (zlen data) (with_buffer mem tmp) in
    chain_wf c ∧ chain_data c = data.
Proof.
  intros Wt Hm Hf Hle. pose proof (cw_len _ Wt). pose proof (zlen_nonneg data).
  rewrite memcpy_at_ok by lia. eexists. split; [done|]. cbv zeta. split.
  - apply chain_wf_with; rewrite ?Hf; try done; try lia. len_lia.
  - rewrite chain_data_with, ztake_0, zdrop_0, app_nil_l.
    rewrite ztake_app_ge, Z.sub_diag, ztake_0 by lia. apply app_nil_r.
Qed.

Lemma add_overflow_ok b pre c post remain data :
  buf_wf b → chains b = pre ++ c :: post → last_with_datap b = length pre →
  (pre ≠ [] → off c ≠ 0) → Forall empty_chain post →
  remain = 0 ∨ has (ch_flags c) EVBUFFER_IMMUTABLE = false ∧
               remain = buffer_len c - misalign c - off c →
  0 <= remain <= zlen data → total_len b + zlen data <= EV_SIZE_MAX →
  add_spec b data (add_overflow b (length pre) c remain data).
Proof.
  intros Hb Hc Hl Hp He Hr Hrd Ht. unfold add_overflow, add_spec.
  destruct (Hb) as [Wcs]. rewrite Hc in Wcs.
  apply Forall_app in Wcs as [Wpre [Wc Wpost]%Forall_cons].
  set (ta := if buffer_len c <=? _ then _ else _).
  set (ta' := if ta <? zlen data then _ else _).
  pose proof (zlen_nonneg data).
  assert (zlen data <= ta' ∧ (ta' <= EVBUFFER_CHAIN_MAX - EVBUFFER_CHAIN_SIZE ∨ ta' = zlen data))
    as [Hta Hta'].
  { pose proof (cw_max _ Wc). pose proof (cw_off _ Wc). pose proof (cw_mis _ Wc).
    pose proof (cw_fit _ Wc).
    assert (ta <= EVBUFFER_CHAIN_MAX - EVBUFFER_CHAIN_SIZE); [|subst ta'; zcase; lia].
    subst ta. rewrite Z.shiftl_mul_pow2 by lia.
    unfold EVBUFFER_CHAIN_MAX_AUTO_SIZE, EVBUFFER_CHAIN_MAX, EV_SSIZE_MAX, EVBUFFER_CHAIN_SIZE in *.
    zcase; [rewrite u64_small; lia|lia]. }
  clearbody ta'. clear ta.
  destruct (evbuffer_chain_new ta') as [tmp|] eqn:En.
  2:{ apply chain_new_None in En; [|lia]. exists b, (-1). split; [done|]. split; [done|].
      right. split_and!; auto with evlib. right; right.
      destruct En as [?|?]; [left; lia|by right]. }
  apply chain_new_spec in En as (Wt & Hot & Hmt & Hszt & Hft & _); [|lia].
  assert (∃ b1, (if negb (remain =? 0)
    then c ← chain_append c (ztake remain data); Some (grew remain (put_chain (length pre) c b))
    else Some b) = Some b1 ∧ buf_wf b1 ∧ quiet b b1 ∧ bytes b1 = bytes b ++ ztake remain data ∧
    total_len b1 = total_len b + remain ∧ u64 (n_add_for_cb b1) = u64 (n_add_for_cb b + remain) ∧
    n_del_for_cb b1 = n_del_for_cb b) as (b1 & -> & Wb1 & Fb1 & Hb1 & Ht1 & Hna1 & Hnd1).
  { destruct (Z.eqb_spec remain 0) as [->|Hn0]; simpl negb; cbn iota.
    - exists b. rewrite ztake_0, app_nil_r, !Z.add_0_r. auto 10 with evlib.
    - destruct Hr as [?|[Hi Hr]]; [done|].
      destruct (chain_append_ok c (ztake remain data)) as (c' & -> & Wc' & Hd' & Ho' & _);
        [done|done|rewrite zlen_ztake; lia|].
      cbn [mbind option_bind].
      destruct (grow_last b pre c post c' (ztake remain data)) as (?&?&Htl&_); try done;
        rewrite zlen_ztake in * by lia; [lia|].
      eexists. split; [done|]. split; [done|]. split; [auto with evlib|].
      split; [done|]. split; [done|]. simpl. split; [|done].
      apply u64_idem. }
  cbn [mbind option_bind].
  destruct (wf_new_chain_data tmp (zdrop remain data)) as (mem & -> & Wn & Hdn); try done;
    [rewrite zlen_zdrop; lia|].
  cbn [mbind option_bind].
  set (nc := with_extent _ _ _) in *.
  destruct (chain_insert_ok b1 nc) as (b2 & cs & -> & Wb2 & Fb2 & _ & _ & Hby2 & Htl2 & Hna2 & Hnd2 & _); try done.
  { subst nc. simpl. rewrite zlen_zdrop; lia. }
  cbn [mbind option_bind]. eexists _, 0. split; [done|].
  split; [auto with evlib|].
  left. split; [done|]. rewrite bytes_invoke. split.
  { change (bytes b2 = bytes b ++ data). rewrite Hby2, Hb1, Hdn, <- app_assoc, ztake_zdrop. done. }
  eexists. split; [done|]. simpl. split; [eauto using quiet_trans with evlib|].
  rewrite Hna2, Hnd2, Hnd1, Z.add_0_r.
  rewrite <- (u64_add_l (n_add_for_cb b1)), Hna1, u64_add_l, zlen_zdrop by lia.
  split; [f_equal; lia|]. symmetry; apply u64_small. apply (bw_del _ Hb).
Qed.

(** The body of [evbuffer_add] once the buffer has a chain. *)
Lemma add_nonempty_ok b pre c post data :
  buf_wf b → chains b = pre ++ c :: post → last_with_datap b = length pre →
  (pre ≠ [] → off c ≠ 0) → Forall empty_chain post →
  freeze_end b = false → total_len b + zlen data <= EV_SIZE_MAX →
  add_spec b data (evbuffer_add b data).
Proof.
  intros Hb Hc Hl Hp He Hfr Ht.
  destruct (Hb) as [Wcs]. rewrite Hc in Wcs.
  apply Forall_app in Wcs as [Wpre [Wc Wpost]%Forall_cons].
  unfold evbuffer_add, add_target. rewrite Hfr.
  destruct (Z.ltb_spec (EV_SIZE_MAX - total_len b) (zlen data)); [lia|].
  assert (chains b !! last_with_datap b = Some c) as Hlk by (rewrite Hc, Hl; apply lookup_middle).
  rewrite Hlk. cbn [mbind option_bind]. rewrite Hlk. cbn [mbind option_bind].
  rewrite Hl in *. pose proof (zlen_nonneg data).
  destruct (has (ch_flags c) EVBUFFER_IMMUTABLE) eqn:Hi; simpl negb; cbn iota.
  { apply add_overflow_ok with (post := post); auto. lia. }
  destruct (Wc) as []. unfold EVBUFFER_CHAIN_MAX, EV_SSIZE_MAX, EVBUFFER_CHAIN_SIZE in *.
  replace ((0 <=? misalign c) && (misalign c <=? 2 ^ 63 - 1)) with true by lia.
  cbn [assert_ mbind option_bind].
  rewrite u64_small by lia.
  assert (Hgrow : ∀ c1, chain_wf c1 → chain_data c1 = chain_data c → off c1 = off c →
    ch_flags c1 = ch_flags c → zlen data <= buffer_len c1 - misalign c1 - off c1 →
    add_spec b data (c ← chain_append c1 data;
      Some (evbuffer_invoke_callbacks_ (grew (zlen data) (put_chain (length pre) c b)), 0))).
  { intros c1 W1 E1 O1 F1 S1.
    destruct (chain_append_ok c1 data) as (c' & -> & Wc' & Hd' & Ho' & _); try done; [by rewrite F1|].
    cbn [mbind option_bind].
    destruct (grow_last b pre c post c' data) as (?&?&_); try done; try congruence.
    eexists _, 0. split; [done|]. split; [auto with evlib|].
    left. split; [done|]. split; [by rewrite bytes_invoke|]. eexists. split; [done|].
    split; [auto with evlib|]. simpl. split; [done|]. rewrite Z.add_0_r.
    symmetry; apply u64_small. apply (bw_del _ Hb). }
  destruct (Z.leb_spec (zlen data) (buffer_len c - misalign c - off c)); [by apply Hgrow|].
  destruct (negb (CHAIN_PINNED c) && evbuffer_chain_should_realign c (zlen data)) eqn:Hre.
  - apply andb_true_iff in Hre as [_ Hre]. unfold evbuffer_chain_should_realign in Hre.
    rewrite u64_small in Hre by lia.
    destruct (chain_align_ok c) as (c1 & -> & W1 & E1 & O1 & F1 & M1 & B1); try done.
    cbn [mbind option_bind]. apply Hgrow; try done. lia.
  - apply add_overflow_ok with (post := post); auto. lia.
Qed.

Lemma add_ok b data : buf_wf b → add_spec b data (evbuffer_add b data).
Proof.
  intros Hb. destruct (freeze_end b) eqn:Hfr.
  { unfold evbuffer_add. rewrite Hfr. exists b, (-1). auto 15 with evlib. }
  destruct (Z.ltb_spec (EV_SIZE_MAX - total_len b) (zlen data)) as [?|Ht].
  { unfold evbuffer_add. rewrite Hfr.
    destruct (Z.ltb_spec (EV_SIZE_MAX - total_len b) (zlen data)); [|lia].
    exists b, (-1). assert (EV_SIZE_MAX < total_len b + zlen data) by lia. auto 15 with evlib. }
  destruct (wf_cases _ Hb) as [[Hc Hl]|(pre & c & post & Hc & Hl & ? & ? & ? & ? & ?)].
  2:{ eapply add_nonempty_ok; eauto. lia. }
  (* an empty buffer gets its first chain, then the data fits into it *)
  pose proof (zlen_nonneg data).
  assert (evbuffer_add b data =
    match evbuffer_chain_new (zlen data) with
    | None => Some (b, -1)
    | Some c => b ← evbuffer_chain_insert b c; evbuffer_add b data
    end) as ->.
  { unfold evbuffer_add at 1. rewrite Hfr.
    destruct (Z.ltb_spec (EV_SIZE_MAX - total_len b) (zlen data)); [lia|].
    unfold add_target. rewrite Hc, Hl. simpl lookup. cbn iota.
    destruct (evbuffer_chain_new (zlen data)) as [c|] eqn:En; [|done].
    apply chain_new_spec in En as (Wt & Hot & _); [|done].
    destruct (chain_insert_ok b c Hb Wt) as (b1 & cs & E & W1 & F1 & Hc1 & _ & _ & Ht1 & _ & _ & Hl1); [lia|].
    rewrite E. cbn [mbind option_bind].
    destruct Hl1 as [-> Hl1]; [by unfold bytes; rewrite Hc|].
    unfold evbuffer_add at 1, add_target.
    rewrite (fr_end _ _ (q_frame _ _ F1)), Hfr, Ht1, Hot, Hl1, Hc1, Z.add_0_r.
    destruct (Z.ltb_spec (EV_SIZE_MAX - total_len b) (zlen data)); [lia|].
    cbn [mbind option_bind]. done. }
  destruct (evbuffer_chain_new (zlen data)) as [c|] eqn:En.
  2:{ apply chain_new_None in En; [|done]. exists b, (-1). auto 15 with evlib. }
  apply chain_new_spec in En as (Wt & Hot & _); [|done].
  destruct (chain_insert_ok b c Hb Wt)
    as (b1 & cs & E & W1 & F1 & Hc1 & _ & Hb1 & Ht1 & Hna1 & Hnd1 & Hl1); [lia|].
  rewrite E. cbn [mbind option_bind].
  destruct Hl1 as [-> Hl1]; [by unfold bytes; rewrite Hc|].
  rewrite chain_data_empty, app_nil_r in Hb1 by done. rewrite Hot, Z.add_0_r in Ht1.
  destruct (add_nonempty_ok b1 [] c [] data) as (b2 & rc & -> & W2 & H2); try done;
    [by rewrite (fr_end _ _ (q_frame _ _ F1))|lia|].
  exists b2, rc. split; [done|]. split; [done|].
  rewrite Hb1, Ht1, (fr_end _ _ (q_frame _ _ F1)) in H2.
  destruct H2 as [(?&?&N)|(?&?&Q&?)]; [left|right; eauto 10 using quiet_trans].
  split; [done|]. split; [done|]. destruct N as (b3 & ? & ? & N1 & N2).
  exists b3. rewrite N1, N2, Hna1, Hnd1. eauto using quiet_trans.
Qed.
End add.
