(* ===== verification/EvbufferOps.v ===== *)
(** Correctness of the byte queue, continued: prepending, referencing foreign
    memory, draining, copying out and pulling up. *)
From S2P Require Import Prelude EvbufferDefs Evbuffer.

Lemma head_wf b c rest :
  buf_wf b → chains b = c :: rest → chain_wf c ∧ Forall chain_wf rest.
Proof. intros [Hc _ _ _ _ _] E. rewrite E in Hc. by apply Forall_cons in Hc. Qed.

Lemma bytes_cons b c rest : chains b = c :: rest → bytes b = chain_data c ++ bytes_of rest.
Proof. unfold bytes. by intros ->. Qed.

(** [last_with_datap] when the first chain is replaced by one with data. *)
Lemma lwd_ok_head c c' rest lwd :
  lwd_ok (c :: rest) lwd → (off c' = 0 → off c = 0) → lwd_ok (c' :: rest) lwd.
Proof.
  intros Hl Ho. inversion Hl as [|pre d post Hp He E]; subst; destruct pre as [|c0 pre]; simplify_eq/=.
  - by apply (lwd_at []).
  - apply (lwd_at (c' :: pre)); [|done]. intros _. by apply Hp.
Qed.
(** [last_with_datap] when a chain is put in front. *)
Lemma lwd_ok_push c tmp rest lwd :
  lwd_ok (c :: rest) lwd →
  lwd_ok (tmp :: c :: rest)
    (if bool_decide (lwd = 0%nat) && negb (off c =? 0) then 1%nat
     else if bool_decide (lwd = 0%nat) then 0%nat else S lwd).
Proof.
  intros Hl. inversion Hl as [|pre d post Hp He E]; subst; destruct pre as [|c0 pre]; simplify_eq/=.
  - destruct (Z.eqb_spec (off c) 0); simpl.
    + apply (lwd_at []); [done|]. by constructor.
    + by apply (lwd_at [tmp]).
  - apply (lwd_at (tmp :: c :: pre)); [|done]. intros _. by apply Hp.
Qed.

Section prepend.
Context {MM : Malloc}.

(** [evbuffer_prepend] promises all of the data; when the allocation of a
    new first chain fails, the [k] bytes that fitted in front of the first
    chain stay there. *)
Definition prepend_spec (b : evbuffer) (data : list Z) (r : option (evbuffer * Z)) : Prop :=
  ∃ b' rc, r = Some (b', rc) ∧ buf_wf b' ∧
    (rc = 0 ∧ bytes b' = data ++ bytes b ∧ (data = [] ∧ b' = b ∨ notified b (zlen data) 0 b') ∨
     rc = -1 ∧ ∃ k, 0 <= k < zlen data ∧ bytes b' = zdrop (zlen data - k) data ++ bytes b ∧
       quiet b b' ∧
       (k = 0 ∧ (freeze_start b = true ∨ EV_SIZE_MAX < total_len b + zlen data) ∨
        alloc_failure (zlen data - k))).

Lemma prepend_new_chain_ok b c rest data :
  buf_wf b → chains b = c :: rest → data ≠ [] → total_len b + zlen data <= EV_SIZE_MAX →
  (∃ b', prepend_new_chain b (off c) data = Some (b', 0) ∧ buf_wf b' ∧
    bytes b' = data ++ bytes b ∧ notified b (zlen data) 0 b') ∨
  prepend_new_chain b (off c) data = Some (b, -1) ∧ alloc_failure (zlen data).
Proof.
  intros Hb Hc Hd Ht. destruct (head_wf _ _ _ Hb Hc) as [Wc Wrest].
  pose proof (zlen_nonneg data). unfold prepend_new_chain.
  destruct (evbuffer_chain_new (zlen data)) as [tmp|] eqn:En.
  2:{ right. split; [done|]. by apply chain_new_None. }
  apply chain_new_spec in En as (Wt & Hot & Hmt & Hszt & Hft & _); [|done].
  left. destruct (Z.leb_spec (zlen data) (buffer_len tmp)); [|lia].
  cbn [assert_ mbind option_bind]. simpl buffer. simpl misalign.
  pose proof (cw_len _ Wt). rewrite memcpy_at_ok by lia. cbn [mbind option_bind].
  set (mem := ztake _ _ ++ _).
  set (nc := with_extent (buffer_len tmp - zlen data) (zlen data) (with_buffer mem tmp)).
  assert (Wn : chain_wf nc).
  { apply chain_wf_with; rewrite ?Hft; try done; try lia. subst mem. len_lia. }
  assert (Dn : chain_data nc = data).
  { subst nc mem. rewrite chain_data_with.
    rewrite zdrop_app_ge by (rewrite zlen_ztake; lia). rewrite zlen_ztake by lia.
    rewrite Z.sub_diag, zdrop_0, ztake_app_ge by lia. rewrite Z.sub_diag, ztake_0. apply app_nil_r. }
  eexists. split; [done|].
  assert (Wgrow : ∀ cs lwd, cs = nc :: c :: rest → lwd_ok cs lwd →
    buf_wf (grew (zlen data) (set_chains cs lwd b))).
  { intros cs lwd -> Hl. apply wf_grew; try done; [constructor; [done|by constructor]|].
    rewrite !bytes_of_cons, Dn, zlen_app, (bw_total _ Hb), (bytes_cons _ _ _ Hc). lia. }
  split; [|split].
  - apply wf_invoke, Wgrow; [by rewrite Hc|]. rewrite Hc. apply lwd_ok_push.
    rewrite <- Hc. apply Hb.
  - rewrite bytes_invoke. change (bytes_of (nc :: chains b) = data ++ bytes b).
    by rewrite bytes_of_cons, Dn.
  - eexists. split; [done|]. split; [auto with evlib|]. simpl.
    split; [done|]. rewrite Z.add_0_r. symmetry; apply u64_small, Hb.
Qed.

(** [k] bytes are already in place, the rest goes into a new first chain. *)
Lemma prepend_rest_ok b b1 c1 rest k data :
  buf_wf b1 → chains b1 = c1 :: rest → quiet b b1 → buf_wf b →
  0 <= k < zlen data → bytes b1 = zdrop (zlen data - k) data ++ bytes b →
  total_len b1 = total_len b + k → u64 (n_add_for_cb b1) = u64 (n_add_for_cb b + k) →
  n_del_for_cb b1 = n_del_for_cb b → total_len b + zlen data <= EV_SIZE_MAX →
  prepend_spec b data (prepend_new_chain b1 (off c1) (ztake (zlen data - k) data)).
Proof.
  intros W1 Hc1 Q1 Hb Hk Hb1 Ht1 Ha1 Hd1 Ht.
  assert (Hlen : zlen (ztake (zlen data - k) data) = zlen data - k) by (apply zlen_ztake; lia).
  destruct (prepend_new_chain_ok b1 c1 rest (ztake (zlen data - k) data))
    as [(b' & -> & W' & Hb' & N')|[-> Hf]]; try done.
  - intros E. rewrite E, zlen_nil in Hlen. lia.
  - lia.
  - exists b', 0. split; [done|]. split; [done|]. left. split; [done|]. split.
    { rewrite Hb', Hb1, app_assoc, ztake_zdrop. done. }
    right. destruct N' as (b2 & ? & ? & N1 & N2). exists b2. split; [done|].
    split; [eauto using quiet_trans|]. rewrite N1, N2, Hd1. split; [|done].
    rewrite <- u64_add_l, Ha1, u64_add_l, Hlen. f_equal; lia.
  - exists b1, (-1). split; [done|]. split; [done|]. right. split; [done|]. exists k.
    rewrite Hlen in Hf. auto 10.
Qed.

(** The first chain grew by [n] bytes. *)
Lemma grow_head b c rest nc n :
  buf_wf b → chains b = c :: rest → chain_wf nc → off nc = off c + n → 0 <= n →
  total_len b + n <= EV_SIZE_MAX →
  buf_wf (grew n (put_chain 0 nc b)) ∧ bytes (grew n (put_chain 0 nc b)) = chain_data nc ++ bytes_of rest.
Proof.
  intros Hb Hc Wn Ho Hn Ht. destruct (head_wf _ _ _ Hb Hc) as [Wc Wrest].
  assert (chains (put_chain 0 nc b) = nc :: rest) as Hcn by (simpl; by rewrite Hc).
  pose proof (cw_off _ Wc).
  split; [|unfold bytes; simpl in *; by rewrite Hcn].
  unfold put_chain in *. simpl in Hcn. rewrite Hcn. apply wf_grew; try done.
  - by constructor.
  - apply lwd_ok_head with c; [rewrite <- Hc; apply Hb|lia].
  - rewrite bytes_of_cons, zlen_app, (bw_total _ Hb), (bytes_cons _ _ _ Hc), zlen_app,
      !chain_data_len; done || lia.
Qed.

(** The first chain is laid out differently. *)
Lemma put_head b c rest c1 :
  buf_wf b → chains b = c :: rest → chain_wf c1 → off c1 = off c → chain_data c1 = chain_data c →
  buf_wf (put_chain 0 c1 b) ∧ bytes (put_chain 0 c1 b) = bytes b ∧
  chains (put_chain 0 c1 b) = c1 :: rest.
Proof.
  intros Hb Hc W1 O1 D1. destruct (head_wf _ _ _ Hb Hc) as [Wc Wrest].
  assert (chains (put_chain 0 c1 b) = c1 :: rest) as Hcn by (simpl; by rewrite Hc).
  assert (bytes (put_chain 0 c1 b) = bytes b) as B1.
  { unfold bytes at 1. rewrite Hcn, (bytes_cons _ _ _ Hc), bytes_of_cons. by rewrite D1. }
  split; [|done]. destruct Hb. constructor; rewrite ?B1, ?Hcn; try done.
  - by constructor.
  - apply lwd_ok_head with c; [by rewrite <- Hc|lia].
Qed.

(** Copying the last [k] bytes of [data] right in front of a chain's data. *)
Lemma chain_prepend_ok c data :
  chain_wf c → has (ch_flags c) EVBUFFER_IMMUTABLE = false → zlen data <= misalign c →
  ∃ mem, memcpy_at (buffer c) (misalign c - zlen data) data = Some mem ∧
    let nc := with_extent (misalign c - zlen data) (off c + zlen data) (with_buffer mem c) in
    chain_wf nc ∧ chain_data nc = data ++ chain_data c.
Proof.
  intros Wc Hi Hle. pose proof (zlen_nonneg data).
  pose proof (cw_len _ Wc). pose proof (cw_fit _ Wc). pose proof (cw_off _ Wc).
  rewrite memcpy_at_ok by lia. eexists. split; [done|]. cbv zeta. split.
  - apply chain_wf_with; try done; try lia. len_lia.
  - rewrite chain_data_with. unfold chain_data.
    rewrite zdrop_app_ge by (rewrite zlen_ztake; lia). rewrite zlen_ztake by lia.
    rewrite Z.sub_diag, zdrop_0, ztake_app_ge by lia. f_equal. f_equal; [lia|]. f_equal; lia.
Qed.

(** The view of the first chain that [evbuffer_prepend] takes. *)
Lemma prepend_view c :
  chain_wf c → has (ch_flags c) EVBUFFER_IMMUTABLE = false →
  let c1 := if off c =? 0 then with_extent (buffer_len c) 0 c else c in
  chain_wf c1 ∧ chain_data c1 = chain_data c ∧ off c1 = off c ∧
  has (ch_flags c1) EVBUFFER_IMMUTABLE = false.
Proof.
  intros Wc Hi c1. subst c1. destruct (Z.eqb_spec (off c) 0) as [Ho|Ho]; [|auto 10].
  pose proof (cw_mis _ Wc). pose proof (cw_fit _ Wc). pose proof (cw_off _ Wc).
  assert (chain_wf (with_extent (buffer_len c) 0 (with_buffer (buffer c) c)))
    by (apply chain_wf_with; done || lia).
  split; [done|]. by rewrite !chain_data_empty.
Qed.

Lemma prepend_nonempty_ok b c rest data :
  buf_wf b → chains b = c :: rest → data ≠ [] → freeze_start b = false →
  total_len b + zlen data <= EV_SIZE_MAX → prepend_spec b data (evbuffer_prepend b data).
Proof.
  intros Hb Hc Hd Hfr Ht. destruct (head_wf _ _ _ Hb Hc) as [Wc Wrest].
  assert (0 < zlen data) as Hpos.
  { pose proof (zlen_nonneg data). destruct (Z.eq_dec (zlen data) 0) as [?%zlen_nil_inv|]; done || lia. }
  unfold evbuffer_prepend. rewrite Hfr.
  destruct (Z.eqb_spec (zlen data) 0); [lia|].
  destruct (Z.ltb_spec (EV_SIZE_MAX - total_len b) (zlen data)); [lia|].
  rewrite Hc at 1. cbn [mbind option_bind]. rewrite Hc. cbn [lookup list_lookup mbind option_bind].
  assert (Htk : ztake (zlen data - 0) data = data) by (apply ztake_all; lia).
  destruct (has (ch_flags c) EVBUFFER_IMMUTABLE) eqn:Hi; simpl negb; cbn iota.
  { rewrite <- Htk. rewrite Htk at 1.
    apply (prepend_rest_ok b b c rest 0); rewrite ?zdrop_all, ?Z.add_0_r by lia; auto with evlib lia. }
  pose proof (cw_mis _ Wc). pose proof (cw_fit _ Wc). pose proof (cw_off _ Wc). pose proof (cw_max _ Wc).
  replace ((0 <=? misalign c) && (misalign c <=? EVBUFFER_CHAIN_MAX)) with true
    by (unfold EVBUFFER_CHAIN_SIZE in *; lia).
  cbn [assert_ mbind option_bind].
  destruct (prepend_view c Wc Hi) as (W1 & D1 & O1 & F1).
  set (c1 := if off c =? 0 then _ else c) in *. clearbody c1.
  destruct (Z.leb_spec (zlen data) (misalign c1)) as [Hfit|Hfit].
  - destruct (chain_prepend_ok c1 data W1 F1 Hfit) as (mem & -> & Wn & Dn).
    cbn [mbind option_bind]. eexists _, 0. split; [done|].
    destruct (grow_head b c rest _ (zlen data) Hb Hc Wn) as [W' B']; [simpl; lia|lia|done|].
    split; [auto with evlib|]. left. split; [done|]. split.
    + by rewrite bytes_invoke, B', Dn, D1, <- app_assoc, (bytes_cons _ _ _ Hc).
    + right. eexists. split; [done|]. split; [auto with evlib|]. simpl.
      split; [done|]. rewrite Z.add_0_r. symmetry; apply u64_small, Hb.
  - pose proof (cw_mis _ W1).
    assert (Hk : zlen (zdrop (zlen data - misalign c1) data) = misalign c1) by (rewrite zlen_zdrop; lia).
    destruct (chain_prepend_ok c1 (zdrop (zlen data - misalign c1) data) W1 F1) as (mem & Em & Wn & Dn);
      rewrite Hk in *; [lia|]. rewrite Z.sub_diag in *.
    destruct (Z.eqb_spec (misalign c1) 0) as [Hm|Hm]; simpl negb; cbn iota.
    + destruct (put_head b c rest c1 Hb Hc W1 O1 D1) as (W' & B' & Hc').
      rewrite <- Htk. rewrite Htk at 1.
      apply (prepend_rest_ok b (put_chain 0 c1 b) c1 rest 0);
        rewrite ?Z.add_0_r, ?zdrop_all by lia; auto with evlib lia.
    + rewrite Em. cbn [mbind option_bind].
      destruct (grow_head b c rest _ (misalign c1) Hb Hc Wn) as [W' B']; [simpl; lia|lia|lia|].
      eapply (prepend_rest_ok b _ (with_extent 0 (off c1 + misalign c1) (with_buffer mem c1)) rest (misalign c1));
        try done; auto with evlib.
      * simpl. by rewrite Hc.
      * by rewrite B', Dn, D1, <- app_assoc, (bytes_cons _ _ _ Hc).
      * simpl. apply u64_small. unfold EV_SIZE_MAX in *. pose proof (wf_nonneg _ Hb). lia.
      * simpl. apply u64_idem.
Qed.

Lemma prepend_ok b data : buf_wf b → prepend_spec b data (evbuffer_prepend b data).
Proof.
  intros Hb. destruct (decide (data = [])) as [->|Hd].
  { exists b, 0. split; [done|]. split; [done|]. left. split; [done|]. auto. }
  assert (0 < zlen data) as Hpos.
  { pose proof (zlen_nonneg data). destruct (Z.eq_dec (zlen data) 0) as [?%zlen_nil_inv|]; done || lia. }
  assert (Hrefuse : ∀ b1, buf_wf b1 → bytes b1 = bytes b → quiet b b1 →
    (freeze_start b = true ∨ EV_SIZE_MAX < total_len b + zlen data) ∨ alloc_failure (zlen data) →
    prepend_spec b data (Some (b1, -1))).
  { intros b1 ? B1 ? Hwhy. exists b1, (-1). split; [done|]. split; [done|]. right. split; [done|].
    exists 0. rewrite Z.sub_0_r, zdrop_all, B1 by lia. split; [lia|]. tauto. }
  destruct (freeze_start b) eqn:Hfr.
  { unfold evbuffer_prepend. rewrite Hfr. destruct (Z.eqb_spec (zlen data) 0); [lia|].
    apply Hrefuse; auto with evlib. }
  destruct (Z.ltb_spec (EV_SIZE_MAX - total_len b) (zlen data)) as [?|Ht].
  { unfold evbuffer_prepend. rewrite Hfr. destruct (Z.eqb_spec (zlen data) 0); [lia|].
    destruct (Z.ltb_spec (EV_SIZE_MAX - total_len b) (zlen data)); [|lia].
    apply Hrefuse; auto with evlib. left; right; lia. }
  destruct (chains b) as [|c rest] eqn:Hc.
  2:{ eapply prepend_nonempty_ok; eauto. lia. }
  assert (bytes b = []) as Hb0 by (unfold bytes; by rewrite Hc).
  assert (evbuffer_prepend b data =
    match evbuffer_chain_new (zlen data) with
    | None => Some (b, -1)
    | Some c => b ← evbuffer_chain_insert b c; evbuffer_prepend b data
    end) as ->.
  { unfold evbuffer_prepend at 1. rewrite Hfr. destruct (Z.eqb_spec (zlen data) 0); [lia|].
    destruct (Z.ltb_spec (EV_SIZE_MAX - total_len b) (zlen data)); [lia|]. rewrite Hc.
    destruct (evbuffer_chain_new (zlen data)) as [c|] eqn:En; [|done].
    apply chain_new_spec in En as (Wt & Hot & _); [|lia].
    destruct (chain_insert_ok b c Hb Wt) as (b1 & cs & E & W1 & Q1 & Hc1 & _ & _ & Ht1 & _ & _ & Hl1); [lia|].
    rewrite E. cbn [mbind option_bind]. destruct (Hl1 Hb0) as [-> _].
    unfold evbuffer_prepend at 1.
    rewrite (fr_start _ _ (q_frame _ _ Q1)), Hfr, Ht1, Hot, Hc1, Z.add_0_r.
    destruct (Z.eqb_spec (zlen data) 0); [lia|].
    destruct (Z.ltb_spec (EV_SIZE_MAX - total_len b) (zlen data)); [lia|].
    cbn [mbind option_bind app]. by rewrite Hc1. }
  destruct (evbuffer_chain_new (zlen data)) as [c|] eqn:En.
  2:{ apply chain_new_None in En; [|lia]. apply Hrefuse; auto with evlib. }
  apply chain_new_spec in En as (Wt & Hot & _); [|lia].
  destruct (chain_insert_ok b c Hb Wt)
    as (b1 & cs & E & W1 & Q1 & Hc1 & _ & B1 & Ht1 & Hna1 & Hnd1 & Hl1); [lia|].
  rewrite E. cbn [mbind option_bind]. destruct (Hl1 Hb0) as [-> _].
  rewrite chain_data_empty, app_nil_r in B1 by done. rewrite Hot, Z.add_0_r in Ht1.
  destruct (prepend_nonempty_ok b1 c [] data) as (b2 & rc & -> & W2 & H2); try done;
    [by rewrite (fr_start _ _ (q_frame _ _ Q1))|lia|].
  exists b2, rc. split; [done|]. split; [done|].
  rewrite B1, Ht1, (fr_start _ _ (q_frame _ _ Q1)) in H2.
  destruct H2 as [(?&?&N)|(?&k&?&?&?&?)]; [left|right; eauto 10 using quiet_trans].
  split; [done|]. split; [done|]. destruct N as [[? _]|(b3 & ? & ? & N1 & N2)]; [done|].
  right. exists b3. rewrite N1, N2, Hna1, Hnd1. eauto using quiet_trans.
Qed.

(** [evbuffer_add_reference] links the foreign memory behind the data. *)
Lemma add_reference_ok b data :
  buf_wf b → total_len b + zlen data <= EV_SIZE_MAX →
  zlen data <= EVBUFFER_CHAIN_MAX - EVBUFFER_CHAIN_SIZE →
  ∃ b' rc, evbuffer_add_reference b data = Some (b', rc) ∧ buf_wf b' ∧
    (rc = 0 ∧ bytes b' = bytes b ++ data ∧ notified b (zlen data) 0 b' ∨
     rc = -1 ∧ b' = b ∧ (freeze_end b = true ∨ alloc_failure 16)).
Proof.
  intros Hb Ht Hmax. unfold evbuffer_add_reference. pose proof (zlen_nonneg data).
  destruct (evbuffer_chain_new 16) as [c|] eqn:En.
  2:{ exists b, (-1). apply chain_new_None in En; [|lia]. auto 10. }
  apply chain_new_spec in En as (Wt & Hot & Hmt & Hszt & Hft & _); [|lia].
  destruct (freeze_end b) eqn:Hfr; [exists b, (-1); auto 10|].
  set (nc := Chain _ _ _ _ _ _).
  assert (chain_wf nc ∧ chain_data nc = data) as [Wn Dn].
  { split.
    - constructor; simpl; rewrite ?Hmt; try done; try lia; [apply (cw_ref _ Wt)|].
      unfold CHAIN_PINNED, nc; simpl. by rewrite Hft.
    - unfold chain_data, nc; simpl. rewrite Hmt, zdrop_0. by apply ztake_all. }
  destruct (chain_insert_ok b nc Hb Wn)
    as (b1 & cs & -> & W1 & Q1 & _ & _ & B1 & Ht1 & Hna1 & Hnd1 & _); [simpl; lia|].
  cbn [mbind option_bind]. eexists _, 0. split; [done|]. split; [auto with evlib|].
  left. split; [done|]. split; [by rewrite bytes_invoke; change (bytes b1 = bytes b ++ data); rewrite B1, Dn|].
  eexists. split; [done|]. split; [auto with evlib|]. simpl. rewrite Hna1, Hnd1, Z.add_0_r.
  split; [done|]. symmetry. apply u64_small, Hb.
Qed.
End prepend.

(** * Draining *)

Lemma lwd_ok_tail c cs l : lwd_ok (c :: cs) (S l) → lwd_ok cs l.
Proof.
  intros Hl. inversion Hl as [|pre d post Hp He E]; subst.
  destruct pre as [|c0 pre]; simplify_eq/=. apply lwd_at; [|done].
  intros _. by apply Hp.
Qed.
Lemma lwd_ok_0 c cs : lwd_ok (c :: cs) 0 → Forall empty_chain cs.
Proof.
  intros Hl. inversion Hl as [|pre d post Hp He E]; subst.
  destruct pre as [|c0 pre]; by simplify_eq/=.
Qed.

(** The loop stops inside the data, at a chain it has to cut. *)
Lemma drain_loop_ok cs : ∀ remaining lw,
  Forall chain_wf cs → lwd_ok cs (default 0%nat lw) → lw ≠ Some 0%nat →
  0 <= remaining < zlen (bytes_of cs) →
  ∃ c cs' rem' lw', drain_loop cs remaining lw = Some (c :: cs', rem', lw') ∧
    Forall chain_wf (c :: cs') ∧ lwd_ok (c :: cs') (default 0%nat lw') ∧ 0 <= rem' < off c ∧
    zdrop rem' (bytes_of (c :: cs')) = zdrop remaining (bytes_of cs) ∧
    zlen (bytes_of (c :: cs')) - rem' = zlen (bytes_of cs) - remaining.
Proof.
  induction cs as [|c cs IH]; intros remaining lw Hw Hl Hn Hr; [unfold zlen in Hr; simpl in Hr; lia|].
  apply Forall_cons in Hw as [Wc Wcs]. simpl drain_loop.
  destruct (Z.leb_spec (off c) remaining) as [Hle|Hlt].
  2:{ exists c, cs, remaining, lw. split; [done|]. split; [by constructor|]. split; [done|]. split; [lia|]. done. }
  rewrite chain_pin_r by done. destruct (chain_free_ok c Wc) as [o ->]. cbn [mbind option_bind].
  rewrite bytes_of_cons, zlen_app, chain_data_len in Hr by done.
  pose proof (cw_off _ Wc).
  destruct (default 0%nat lw) as [|l] eqn:El.
  { apply lwd_ok_0, bytes_of_empty in Hl. rewrite Hl in Hr. change (zlen (@nil Z)) with 0 in Hr. lia. }
  destruct lw as [k|]; simplify_eq/=. apply lwd_ok_tail in Hl.
  match goal with |- context [drain_loop cs _ ?lw] => destruct (IH (remaining - off c) lw)
    as (c1 & cs1 & rem1 & lw1 & -> & W1 & L1 & R1 & D1 & N1) end; try done.
  - destruct l; done.
  - by destruct l.
  - lia.
  - exists c1, cs1, rem1, lw1. split; [done|]. split; [done|]. split; [done|]. split; [done|].
    rewrite D1, N1, bytes_of_cons. split.
    + rewrite zdrop_app_ge; rewrite chain_data_len by done; [done|lia].
    + rewrite zlen_app, chain_data_len by done. lia.
Qed.

Lemma has_pinned_false b : buf_wf b → HAS_PINNED_R b = false.
Proof.
  intros Hb. unfold HAS_PINNED_R. destruct (last (chains b)) as [c|] eqn:E; [|done].
  apply chain_pin_r. apply last_Some_elem_of in E. destruct Hb. by eapply Forall_forall in E.
Qed.

(** [evbuffer_drain] removes exactly [len] bytes from the front (or all). *)
Definition drain_spec (b : evbuffer) (len : Z) (r : option (evbuffer * Z)) : Prop :=
  ∃ b' rc, r = Some (b', rc) ∧ buf_wf b' ∧
    (rc = 0 ∧ bytes b' = zdrop len (bytes b) ∧
       (bytes b = [] ∧ b' = b ∨ notified b 0 (Z.min len (total_len b)) b') ∨
     rc = -1 ∧ b' = b ∧ freeze_start b = true ∧ bytes b ≠ []).

Lemma drain_ok b len : buf_wf b → 0 <= len → drain_spec b len (evbuffer_drain b len).
Proof.
  intros Hb Hlen. unfold evbuffer_drain, drain_spec. pose proof (bw_total _ Hb) as Htot.
  pose proof (wf_nonneg _ Hb).
  destruct (Z.eqb_spec (total_len b) 0) as [H0|H0].
  { rewrite H0 in Htot. symmetry in Htot. apply zlen_nil_inv in Htot. rewrite Htot.
    exists b, 0. split; [done|]. split; [done|]. left. split; [done|]. split; [|auto].
    by rewrite zdrop_all by (rewrite zlen_nil; lia). }
  assert (bytes b ≠ []) as Hne by (intros E; rewrite E in Htot; done).
  destruct (freeze_start b) eqn:Hfr; [exists b, (-1); auto 10|].
  rewrite has_pinned_false, andb_true_r by done.
  assert (Hfin : ∀ b1 n, buf_wf b1 → quiet b b1 → bytes b1 = zdrop len (bytes b) →
    n = Z.min len (total_len b) → n_add_for_cb b1 = n_add_for_cb b → n_del_for_cb b1 = n_del_for_cb b →
    ∃ b' rc, (let b := set_counters (n_add_for_cb b1) (u64 (n_del_for_cb b1 + n)) b1 in
         Some (evbuffer_invoke_callbacks_ b, 0)) = Some (b', rc) ∧ buf_wf b' ∧
    (rc = 0 ∧ bytes b' = zdrop len (bytes b) ∧
       (bytes b = [] ∧ b' = b ∨ notified b 0 (Z.min len (total_len b)) b') ∨
     rc = -1 ∧ b' = b ∧ false = true ∧ bytes b ≠ [])).
  { intros b1 n W1 Q1 B1 -> Na Nd. eexists _, 0. split; [done|]. split; [auto with evlib|].
    left. split; [done|]. split; [by rewrite bytes_invoke|]. right. eexists. split; [done|].
    split; [auto with evlib|]. simpl. rewrite Na, Nd, Z.add_0_r. split; [|done].
    symmetry; apply u64_small, Hb. }
  destruct (Z.leb_spec (total_len b) len) as [Hall|Hpart].
  - destruct (free_all_ok (chains b) (bw_chains _ Hb)) as [o ->]. cbn [mbind option_bind].
    apply Hfin; try done; [| |lia].
    + apply wf_contents; try done; constructor.
    + rewrite zdrop_all by lia. done.
  - cbn [chains last_with_datap set_total_len].
    set (lw0 := match last_with_datap b with O => None | S k => Some (S k) end).
    assert (default 0%nat lw0 = last_with_datap b ∧ lw0 ≠ Some 0%nat) as [L0 Hn0]
      by (subst lw0; by destruct (last_with_datap b)).
    destruct (drain_loop_ok (chains b) len lw0) as (c & cs & rem & lw & -> & W1 & L1 & R1 & D1 & N1);
      rewrite ?L0; try done; try apply Hb; [fold (bytes b); lia|].
    cbn [mbind option_bind].
    destruct (Z.leb_spec rem (off c)); [|lia]. cbn [assert_ mbind option_bind].
    apply Forall_cons in W1 as [Wc Wcs].
    destruct (chain_shrink c rem Wc) as [Wc' Dc]; [lia|lia|].
    assert (bytes_of (with_extent (misalign c + rem) (off c - rem) c :: cs) = zdrop len (bytes b)) as HB.
    { rewrite bytes_of_cons, Dc. unfold bytes. rewrite <- D1, bytes_of_cons.
      by rewrite zdrop_app_le by (rewrite chain_data_len; [lia|done]). }
    apply Hfin; auto with evlib lia.
    change (buf_wf (set_total_len (total_len b - len) (set_chains
      (with_extent (misalign c + rem) (off c - rem) c :: cs) (default 0%nat lw) b))).
    apply wf_contents; try done; [by constructor| | |].
    + apply lwd_ok_head with c; [done|]. simpl. lia.
    + rewrite HB, zlen_zdrop; lia.
    + pose proof (bw_max _ Hb). lia.
Qed.

(** * Copying out *)

Lemma mem_read_chain c n k :
  chain_wf c → 0 <= n → 0 <= k → n + k <= off c →
  mem_read (buffer c) (misalign c + k) n = Some (ztake n (zdrop k (chain_data c))).
Proof.
  intros Wc Hn Hk Hle. pose proof (cw_len _ Wc). pose proof (cw_fit _ Wc). pose proof (cw_mis _ Wc).
  rewrite mem_read_ok by lia. f_equal. unfold chain_data.
  rewrite <- zdrop_zdrop by lia. rewrite (ztake_zdrop_comm n k (ztake _ _)) by lia.
  rewrite ztake_ztake by lia. by rewrite <- ztake_zdrop_comm by lia.
Qed.

Lemma copyout_loop_ok cs : ∀ datlen pic,
  Forall chain_wf cs → 0 <= datlen → 0 <= pic →
  (∀ c cs', cs = c :: cs' → pic <= off c) → datlen + pic <= zlen (bytes_of cs) →
  copyout_loop cs datlen pic = Some (ztake datlen (zdrop pic (bytes_of cs))).
Proof.
  induction cs as [|c cs IH]; intros datlen pic Hw Hd Hp Hpic Hle.
  { unfold zlen in Hle; simpl in Hle. assert (datlen = 0) as -> by lia. done. }
  apply Forall_cons in Hw as [Wc Wcs]. specialize (Hpic _ _ eq_refl). simpl copyout_loop.
  pose proof (cw_off _ Wc). pose proof (cw_fit _ Wc). pose proof (cw_max _ Wc). pose proof (cw_mis _ Wc).
  rewrite bytes_of_cons, zlen_app, chain_data_len in Hle by done.
  rewrite u64_small by (unfold EVBUFFER_CHAIN_MAX, EV_SSIZE_MAX, EVBUFFER_CHAIN_SIZE in *; lia).
  destruct (Z.eqb_spec datlen 0) as [->|Hd0]; [done|]. simpl negb. simpl andb. cbn iota.
  rewrite bytes_of_cons. rewrite zdrop_app_le by (rewrite chain_data_len; [lia|done]).
  assert (Hlen : zlen (zdrop pic (chain_data c)) = off c - pic)
    by (rewrite zlen_zdrop; rewrite chain_data_len; done || lia).
  destruct (Z.leb_spec (off c - pic) datlen) as [Hc|Hc].
  - rewrite mem_read_chain by (done || lia). cbn [mbind option_bind].
    rewrite IH; try done; try lia; [|intros c' cs' ->; apply Forall_cons in Wcs as [W' _]; apply (cw_off _ W')].
    cbn [mbind option_bind]. rewrite zdrop_0, (ztake_all (off c - pic)) by lia.
    rewrite ztake_app_ge by lia. by rewrite Hlen.
  - destruct (Z.leb_spec (datlen + pic) (off c)); [|lia]. cbn [assert_ mbind option_bind].
    rewrite mem_read_chain by (done || lia). by rewrite ztake_app_le by lia.
Qed.

(** A position in the buffer: chain, offset in the chain and absolute offset
    agree; [None] is the end. *)
Definition ptr_ok (b : evbuffer) (p : evbuffer_ptr) : Prop :=
  0 <= pos p <= total_len b ∧
  match ptr_chain p with
  | Some i => ∃ c, chains b !! i = Some c ∧ 0 <= pos_in_chain p <= off c ∧
                pos p = zlen (bytes_of (take i (chains b))) + pos_in_chain p
  | None => pos p = total_len b
  end.

Lemma bytes_of_split i cs :
  bytes_of cs = bytes_of (take i cs) ++ bytes_of (drop i cs).
Proof. by rewrite <- bytes_of_app, take_drop. Qed.

Lemma bytes_of_lookup cs i c :
  cs !! i = Some c →
  bytes_of cs = bytes_of (take i cs) ++ chain_data c ++ bytes_of (drop (S i) cs).
Proof. intros H. by rewrite (bytes_of_split i), (drop_S _ _ _ H). Qed.

Definition copyout_spec (b : evbuffer) (start datlen : Z) (r : option (list Z * Z)) : Prop :=
  r = Some (ztake datlen (zdrop start (bytes b)), Z.min datlen (total_len b - start)) ∨
  r = Some ([], -1) ∧ (freeze_start b = true ∧ 0 < datlen ∧ start < total_len b ∨
                       EV_SSIZE_MAX - start < datlen).

Lemma copyout_from_ok b p datlen :
  buf_wf b → 0 <= datlen → total_len b <= EV_SSIZE_MAX →
  (∀ q, p = Some q → ptr_ok b q) →
  copyout_spec b (match p with Some q => pos q | None => 0 end) datlen
    (evbuffer_copyout_from b p datlen).
Proof.
  intros Hb Hd Hmax Hp. unfold copyout_spec, evbuffer_copyout_from.
  pose proof (bw_total _ Hb) as Htot. pose proof (wf_nonneg _ Hb).
  (* the chain list the copy starts in *)
  assert (∃ cs pic st, 0 <= st <= total_len b ∧ 0 <= pic ∧ Forall chain_wf cs ∧
    (∀ c cs', cs = c :: cs' → pic <= off c) ∧ zlen (bytes_of cs) - pic = total_len b - st ∧
    zdrop pic (bytes_of cs) = zdrop st (bytes b) ∧
    match p with Some q => pos q | None => 0 end = st ∧
    match p with
    | Some p => (match ptr_chain p with Some i => drop i (chains b) | None => [] end, 
                 match ptr_chain p with Some _ => pos_in_chain p | None => 0 end)
    | None => (chains b, 0)
    end = (cs, pic)) as (cs & pic & st & Hst & Hpic0 & Wcs & Hpic & Hlen & Hby & Est & Ecs).
  { destruct p as [q|].
    - destruct (Hp q eq_refl) as [Hpos Hq]. destruct (ptr_chain q) as [i|].
      + destruct Hq as (c & Hc & Hpc & Hpe).
        exists (drop i (chains b)), (pos_in_chain q), (pos q).
        assert (Hs := bytes_of_split i (chains b)). fold (bytes b) in Hs.
        split; [done|]. split; [lia|]. split; [apply Forall_drop, Hb|]. split; [|split; [|split; [|done]]].
        * intros c' cs' E. rewrite (drop_S _ _ _ Hc) in E. injection E as -> _. lia.
        * rewrite Htot, Hs, zlen_app. lia.
        * rewrite Hs, zdrop_app_ge by lia. f_equal. lia.
      + exists [], 0, (pos q). split; [done|]. split; [done|]. split; [constructor|]. split; [done|].
        split; [unfold zlen; simpl; lia|]. split; [|done]. rewrite !zdrop_all; [done|lia|unfold zlen; simpl; lia].
    - exists (chains b), 0, 0. split; [lia|]. split; [done|]. split; [apply Hb|].
      split; [|fold (bytes b); auto with lia].
      intros c cs' E. destruct (head_wf _ _ _ Hb E) as [Wc _]. apply (cw_off _ Wc). }
  rewrite Est.
  assert (Hmain : ∀ n pic', n = Z.min datlen (total_len b - st) → (n ≠ 0 → pic' = pic) →
    (if n =? 0 then Some ([], 0) else if freeze_start b then Some ([], -1)
     else data ← copyout_loop cs n pic'; Some (data, n)) =
      Some (ztake datlen (zdrop st (bytes b)), Z.min datlen (total_len b - st)) ∨
    (if n =? 0 then Some ([], 0) else if freeze_start b then Some ([], -1)
     else data ← copyout_loop cs n pic'; Some (data, n)) = Some ([], -1) ∧
    (freeze_start b = true ∧ 0 < datlen ∧ st < total_len b ∨ EV_SSIZE_MAX - st < datlen)).
  { intros n pic' Hn Hpic'. assert (Htk : ztake datlen (zdrop st (bytes b)) = ztake n (zdrop st (bytes b))).
    { destruct (Z.le_gt_cases datlen (total_len b - st)); [f_equal; lia|].
      rewrite !ztake_all; rewrite ?zlen_zdrop; done || lia. }
    rewrite Htk, <- Hn. destruct (Z.eqb_spec n 0) as [->|Hn0].
    { left. by rewrite ztake_0. }
    destruct (freeze_start b); [right; split; [done|]; left; lia|]. left.
    rewrite Hpic' by done. rewrite copyout_loop_ok; try done; try lia. cbn [mbind option_bind]. by rewrite Hby. }
  destruct p as [q|].
  - simpl in Est. injection Ecs as E1 E2. rewrite Est, E1.
    rewrite u64_small by (unfold EV_SSIZE_MAX in *; lia).
    destruct (Z.ltb_spec (EV_SSIZE_MAX - st) datlen); [right; auto|].
    apply Hmain.
    + zcase; lia.
    + intros Hn. destruct (Hp q eq_refl) as [Hpos Hq]. destruct (ptr_chain q); [done|].
      exfalso. revert Hn. zcase; lia.
  - injection Ecs as <- <-. apply Hmain; [|done]. zcase; lia.
Qed.

Lemma copyout_ok b datlen :
  buf_wf b → 0 <= datlen → total_len b <= EV_SSIZE_MAX → freeze_start b = false →
  evbuffer_copyout b datlen = Some (ztake datlen (bytes b), Z.min datlen (total_len b)).
Proof.
  intros Hb Hd Hm Hf. unfold evbuffer_copyout, evbuffer_copyout_from.
  assert ((if total_len b <? datlen then total_len b else datlen) = Z.min datlen (total_len b)) as -> by (zcase; lia).
  pose proof (wf_nonneg _ Hb). pose proof (bw_total _ Hb).
  assert (Htk : ztake datlen (bytes b) = ztake (Z.min datlen (total_len b)) (bytes b)).
  { destruct (Z.le_gt_cases datlen (total_len b)); [f_equal; lia|].
    rewrite !ztake_all; done || lia. }
  rewrite Htk. destruct (Z.eqb_spec (Z.min datlen (total_len b)) 0) as [->|]; [done|].
  rewrite Hf, copyout_loop_ok; try lia; [by rewrite zdrop_0|apply Hb| |].
  - intros c cs E. destruct (head_wf _ _ _ Hb E) as [Wc _]. apply (cw_off _ Wc).
  - fold (bytes b). lia.
Qed.

(** [evbuffer_remove] hands out the bytes it drains. *)
Lemma remove_ok b datlen :
  buf_wf b → 0 <= datlen → total_len b <= INT_MAX → freeze_start b = false →
  ∃ b', evbuffer_remove b datlen =
          Some (b', ztake datlen (bytes b), Z.min datlen (total_len b)) ∧
    buf_wf b' ∧ bytes b' = zdrop datlen (bytes b) ∧
    (b' = b ∧ Z.min datlen (total_len b) = 0 ∨ notified b 0 (Z.min datlen (total_len b)) b').
Proof.
  intros Hb Hd Hm Hf. unfold evbuffer_remove. fold (evbuffer_copyout b datlen).
  pose proof (wf_nonneg _ Hb). pose proof (bw_total _ Hb).
  rewrite copyout_ok by (done || unfold INT_MAX, EV_SSIZE_MAX in *; lia).
  cbn [mbind option_bind].
  assert (Hi : i32 (Z.min datlen (total_len b)) = Z.min datlen (total_len b))
    by (apply i32_small; unfold INT_MAX in *; lia).
  destruct (Z.ltb_spec 0 (Z.min datlen (total_len b))) as [Hpos|Hz].
  - destruct (drain_ok b (Z.min datlen (total_len b)) Hb) as (b' & rc & -> & W' & Hr); [lia|].
    cbn [mbind option_bind]. exists b'. destruct Hr as [(-> & B' & N')|(-> & _ & ? & _)]; [|congruence].
    change (0 <? 0) with false. cbn iota. rewrite Hi. split; [done|]. split; [done|]. split.
    + rewrite B'. destruct (Z.le_gt_cases datlen (total_len b)); [f_equal; lia|].
      rewrite !zdrop_all; done || lia.
    + right. replace (Z.min (Z.min datlen (total_len b)) (total_len b)) with (Z.min datlen (total_len b)) in N' by lia.
      destruct N' as [[E _]|?]; [|done]. rewrite E in H0. change (zlen (@nil Z)) with 0 in H0. lia.
  - exists b. rewrite Hi. split; [done|]. split; [done|]. split; [|left; split; [done|lia]].
    destruct (Z.eq_dec datlen 0) as [->|]; [done|].
    assert (zlen (bytes b) = 0) as E%zlen_nil_inv by lia. by rewrite E, zdrop_all by (unfold zlen; simpl; lia).
Qed.
