(* ===== verification/EvbufferPullup.v ===== *)
(** Correctness of [evbuffer_pullup]: the first bytes of the queue become
    contiguous and the content does not change. *)
From S2P Require Import Prelude EvbufferDefs Evbuffer EvbufferOps.

Lemma pullup_unpinned_ok cs : ∀ n, Forall chain_wf cs → pullup_unpinned cs n = true.
Proof.
  induction cs as [|c cs IH]; intros n Hw; [done|]. apply Forall_cons in Hw as [Wc Wcs].
  simpl. rewrite (cw_pin _ Wc). case_match; auto.
Qed.

(** Writing [a ++ d] into memory piece by piece. *)
Lemma memcpy_at_app mem at_ a mem' :
  memcpy_at mem at_ a = Some mem' → ∀ d,
  0 <= at_ → at_ + zlen a + zlen d <= zlen mem →
  memcpy_at mem' (at_ + zlen a) d = memcpy_at mem at_ (a ++ d).
Proof.
  intros E d H0 Hle. pose proof (zlen_nonneg a). pose proof (zlen_nonneg d).
  rewrite memcpy_at_ok in E by lia. injection E as <-.
  rewrite !memcpy_at_ok by len_lia. f_equal.
  rewrite ztake_app_ge by (rewrite zlen_ztake; lia). rewrite zlen_ztake by lia.
  rewrite ztake_app_le by lia. rewrite (ztake_all (at_ + zlen a - at_)) by lia.
  rewrite <- !app_assoc. do 3 f_equal.
  rewrite zdrop_app_ge by (rewrite zlen_ztake; lia). rewrite zlen_ztake by lia.
  rewrite zdrop_app_ge by lia. rewrite zdrop_zdrop by lia. f_equal. rewrite zlen_app. lia.
Qed.

Lemma memcpy_at_nil mem at_ : 0 <= at_ <= zlen mem → memcpy_at mem at_ [] = Some mem.
Proof.
  intros. rewrite memcpy_at_ok; change (zlen (@nil Z)) with 0; [|lia|lia].
  f_equal. rewrite Z.add_0_r. apply ztake_zdrop.
Qed.

(** The loop pulls in a prefix of the chains, as far as whole chains fit. *)
Lemma pullup_loop_ok cs : ∀ i L lwdp mem at_ size seen seenp,
  Forall chain_wf cs → 0 <= size <= zlen (bytes_of cs) → 0 <= at_ → at_ + size <= zlen mem →
  ∃ pulled rest mem',
    cs = pulled ++ rest ∧
    pullup_loop cs i (Some L) lwdp mem at_ size seen seenp =
      Some (rest, mem', at_ + zlen (bytes_of pulled), size - zlen (bytes_of pulled),
        seen || bool_decide (i <= L < i + length pulled)%nat,
        seenp || bool_decide (i < lwdp <= i + length pulled)%nat) ∧
    memcpy_at mem at_ (bytes_of pulled) = Some mem' ∧
    0 <= size - zlen (bytes_of pulled) ∧
    (∀ c rest', rest = c :: rest' → size - zlen (bytes_of pulled) < off c).
Proof.
  induction cs as [|c cs IH]; intros i L lwdp mem at_ size seen seenp Hw Hs Hat Hfit.
  { unfold zlen in Hs; simpl in Hs. exists [], [], mem. simpl.
    rewrite !bool_decide_eq_false_2 by lia. rewrite !orb_false_r.
    change (zlen (bytes_of [])) with 0. rewrite Z.add_0_r, Z.sub_0_r.
    split; [done|]. split; [done|]. split; [apply memcpy_at_nil; lia|split; [lia|done]]. }
  apply Forall_cons in Hw as [Wc Wcs]. simpl pullup_loop.
  rewrite bytes_of_cons, zlen_app, chain_data_len in Hs by done.
  pose proof (cw_off _ Wc).
  destruct (Z.leb_spec (off c) size) as [Hle|Hlt].
  2:{ exists [], (c :: cs), mem. simpl.
      rewrite !bool_decide_eq_false_2 by lia. rewrite !orb_false_r.
      change (zlen (bytes_of [])) with 0. rewrite Z.add_0_r, Z.sub_0_r.
      split; [done|]. split; [done|]. split; [apply memcpy_at_nil; lia|split; [lia|by intros ?? [= <- <-]]]. }
  pose proof (mem_read_chain c (off c) 0 Wc) as Hread. rewrite !Z.add_0_r in Hread.
  rewrite Hread by lia. clear Hread. cbn [mbind option_bind].
  pose proof (chain_data_len c Wc) as Hdl.
  rewrite zdrop_0, ztake_all by lia.
  destruct (memcpy_at mem at_ (chain_data c)) as [mem1|] eqn:Em;
    [|rewrite memcpy_at_ok in Em by lia; done].
  cbn [mbind option_bind]. destruct (chain_free_ok c Wc) as [o ->]. cbn [mbind option_bind].
  pose proof (memcpy_at_len _ _ _ _ Em) as Hml.
  destruct (IH (S i) L lwdp mem1 (at_ + off c) (size - off c)
    (seen || bool_decide (Some L = Some i)) (seenp || bool_decide (lwdp = S i)))
    as (pulled & rest & mem2 & -> & E & Emem & Hrem & Hstop); try done; try lia.
  exists (c :: pulled), rest, mem2.
  rewrite E, bytes_of_cons, zlen_app, Hdl. split; [done|]. split; [|split; [|split; [lia|]]].
  - rewrite <- !orb_assoc, <- !bool_decide_or, Z.add_assoc, Z.sub_add_distr.
    do 2 f_equal; [f_equal|]; f_equal; apply bool_decide_ext; simpl.
    + split; [intros [[= ->]|?]; lia|].
      intros ?. destruct (decide (L = i)) as [->|]; [by left|right; lia].
    + lia.
  - rewrite <- Emem, <- Hdl. symmetry. apply memcpy_at_app; [done|lia|].
    rewrite Hdl. lia.
  - intros d rest' E'. specialize (Hstop _ _ E'). lia.
Qed.

(** The links behind the pulled chains keep their target. *)
Lemma lwd_ok_suffix xs c ys L t :
  lwd_ok (xs ++ c :: ys) L → (length xs <= L)%nat → off c ≠ 0 →
  lwd_ok (t :: c :: ys) (S (L - length xs)).
Proof.
  intros Hl Hle Ho. inversion Hl as [E|pre d post Hp He E]; [by destruct xs|]. subst L.
  assert (∃ pre', pre = xs ++ pre' ∧ c :: ys = pre' ++ d :: post) as (pre' & -> & E').
  { exists (drop (length xs) pre). split.
    - rewrite <- (take_drop (length xs) pre) at 1. f_equal.
      apply (f_equal (take (length xs))) in E. rewrite take_app_length in E.
      by rewrite take_app_le in E by lia.
    - apply (f_equal (drop (length xs))) in E. rewrite drop_app_length in E.
      by rewrite drop_app_le in E by lia. }
  rewrite E'. rewrite length_app. replace (length xs + length pre' - length xs)%nat with (length pre') by lia.
  apply (lwd_at (t :: pre')); [|done]. intros _.
  destruct pre' as [|p pre']; [by injection E' as -> _|]. apply Hp. by destruct xs.
Qed.

Lemma lwd_ok_second t c c' rest l :
  lwd_ok (t :: c :: rest) (S l) → off c' ≠ 0 → lwd_ok (t :: c' :: rest) (S l).
Proof.
  intros Hl Ho. inversion Hl as [|pre d post Hp He E]; subst.
  destruct pre as [|t' [|c2 pre]]; simplify_eq/=.
  - by apply (lwd_at [t]).
  - apply (lwd_at (t :: c' :: pre)); [|done]. intros _. by apply Hp.
Qed.

Lemma lwd_ok_lt cs l : lwd_ok cs l → cs ≠ [] → (l < length cs)%nat.
Proof. intros Hl Hn. inversion Hl; subst; [done|]. rewrite length_app. simpl. lia. Qed.

(** All the data is in front of [rest]. *)
Lemma lwd_ok_beyond xs rest L :
  lwd_ok (xs ++ rest) L → (L < length xs)%nat → Forall empty_chain rest.
Proof.
  intros Hl Hlt. inversion Hl as [E|pre d post Hp He E].
  { symmetry in E. apply app_nil in E as [-> ->]. constructor. }
  subst L. assert (rest = drop (length xs) (pre ++ d :: post)) as -> by (by rewrite E, drop_app_length).
  rewrite cons_middle, app_assoc, drop_app_ge by (rewrite length_app; simpl; lia).
  by apply Forall_drop.
Qed.

Lemma memcpy_at_region mem at_ d mem' mis n :
  memcpy_at mem at_ d = Some mem' → 0 <= mis → at_ = mis + n → 0 <= n → at_ + zlen d <= zlen mem →
  ztake (n + zlen d) (zdrop mis mem') = ztake n (zdrop mis mem) ++ d.
Proof.
  intros E Hm -> Hn Hle. pose proof (zlen_nonneg d).
  rewrite memcpy_at_ok in E by lia. injection E as <-.
  rewrite zdrop_app_le by (rewrite zlen_ztake; lia).
  rewrite <- ztake_zdrop_comm by lia.
  assert (Hl : zlen (ztake n (zdrop mis mem)) = n) by (apply zlen_ztake; rewrite zlen_zdrop; lia).
  rewrite ztake_app_ge by lia. rewrite Hl. f_equal.
  rewrite ztake_app_le by lia. apply ztake_all. lia.
Qed.

Definition pullup_done (b : evbuffer) (size : Z) (r : option (evbuffer * option (list Z))) : Prop :=
  ∃ b' d, r = Some (b', Some d) ∧ buf_wf b' ∧ bytes b' = bytes b ∧ quiet b b' ∧
    total_len b' = total_len b ∧ n_add_for_cb b' = n_add_for_cb b ∧ n_del_for_cb b' = n_del_for_cb b ∧
    d = ztake (zlen d) (bytes b) ∧ size <= zlen d.

Section pullup_into.
Context (b : evbuffer) (tmp : chain) (hd cs : list chain) (size : Z).
Context (Hb : buf_wf b) (Hc : chains b = hd ++ cs) (Wt : chain_wf tmp).
Context (Ht_imm : has (ch_flags tmp) EVBUFFER_IMMUTABLE = false) (Hto : off tmp = size).
Context (Htmem : ztake (zlen (bytes_of hd)) (zdrop (misalign tmp) (buffer tmp)) = bytes_of hd).
Context (Hsize : zlen (bytes_of hd) < size <= total_len b).
Context (HL : (1 <= last_with_datap b)%nat) (HhdL : (length hd <= last_with_datap b)%nat).

(** The chains after the move: [tmp] with all the data, then what is left. *)
Lemma pulled_chains_ok pulled rest mem' c0 rest0 :
  cs = pulled ++ rest →
  zlen mem' = zlen (buffer tmp) →
  rest = c0 :: rest0 →
  0 <= size - zlen (bytes_of hd) - zlen (bytes_of pulled) < off c0 →
  let k := size - zlen (bytes_of hd) - zlen (bytes_of pulled) in
  ztake size (zdrop (misalign tmp) mem') =
    bytes_of hd ++ bytes_of pulled ++ ztake k (chain_data c0) →
  let nc := with_buffer mem' tmp in
  let c1 := with_extent (misalign c0 + k) (off c0 - k) c0 in
  Forall chain_wf (nc :: c1 :: rest0) ∧ bytes_of (nc :: c1 :: rest0) = bytes b ∧
  chain_data nc = ztake size (bytes b).
Proof.
  intros -> Hmem -> Hk k Hreg nc c1.
  destruct (Hb) as [Wall _ _ _ _ _]. rewrite Hc in Wall.
  apply Forall_app in Wall as [Whd [Wp [Wc0 Wr]%Forall_cons]%Forall_app].
  destruct (chain_shrink c0 k Wc0) as [Wc1 Dc1]; [lia|lia|].
  assert (Wnc : chain_wf nc).
  { change (chain_wf (with_extent (misalign tmp) (off tmp) (with_buffer mem' tmp))).
    destruct (Wt). apply chain_wf_with; done || lia. }
  assert (Dnc : chain_data nc = ztake size (bytes b)).
  { change (ztake (off tmp) (zdrop (misalign tmp) mem') = ztake size (bytes b)).
    rewrite Hto, Hreg. unfold bytes. rewrite Hc, !bytes_of_app, bytes_of_cons.
    pose proof (zlen_nonneg (bytes_of pulled)). pose proof (zlen_nonneg (bytes_of hd)).
    rewrite ztake_app_ge by lia. f_equal. rewrite ztake_app_ge by lia. f_equal.
    rewrite ztake_app_le by (rewrite chain_data_len; [lia|done]). done. }
  split; [by repeat (constructor; [done|])|]. split; [|done].
  rewrite !bytes_of_cons, Dnc. subst c1. rewrite Dc1.
  unfold bytes. rewrite Hc, !bytes_of_app, bytes_of_cons.
  pose proof (zlen_nonneg (bytes_of pulled)). pose proof (zlen_nonneg (bytes_of hd)).
  rewrite ztake_app_ge by lia. rewrite <- app_assoc. f_equal.
  rewrite ztake_app_ge by lia. rewrite <- app_assoc. f_equal.
  rewrite ztake_app_le by (rewrite chain_data_len; [lia|done]).
  rewrite app_assoc. f_equal. apply ztake_zdrop.
Qed.

Lemma pullup_finish nc rest lwd :
  Forall chain_wf (nc :: rest) → lwd_ok (nc :: rest) lwd → bytes_of (nc :: rest) = bytes b →
  chain_data nc = ztake size (bytes b) →
  pullup_done b size (Some (set_chains (nc :: rest) lwd b, Some (chain_data nc))).
Proof.
  intros Hw Hl HB HD. eexists _, _. split; [done|].
  assert (zlen (chain_data nc) = size) as Hlen.
  { rewrite HD. apply zlen_ztake. pose proof (bw_total _ Hb). pose proof (zlen_nonneg (bytes_of hd)). lia. }
  split; [|split; [exact HB|split; [auto with evlib|]]].
  - change (buf_wf (set_total_len (total_len b) (set_chains (nc :: rest) lwd b))).
    apply wf_contents; try done; [by rewrite HB, (bw_total _ Hb)|apply Hb].
  - rewrite Hlen. auto 10 with lia.
Qed.

(** No chain is left behind the target. *)
Lemma pulled_all_ok mem' :
  memcpy_at (buffer tmp) (misalign tmp + zlen (bytes_of hd)) (bytes_of cs) = Some mem' →
  size = total_len b →
  let nc := with_buffer mem' tmp in
  pullup_done b size (Some (set_chains [nc] 0 b, Some (chain_data nc))).
Proof.
  intros Em Hall nc. pose proof (zlen_nonneg (bytes_of hd)).
  pose proof (cw_len _ Wt). pose proof (cw_fit _ Wt). pose proof (cw_mis _ Wt).
  pose proof (bw_total _ Hb) as Htot.
  assert (HB : bytes b = bytes_of hd ++ bytes_of cs) by (unfold bytes; by rewrite Hc, bytes_of_app).
  assert (Hbl : zlen (bytes b) = zlen (bytes_of hd) + zlen (bytes_of cs)) by (by rewrite HB, zlen_app).
  assert (Hreg := memcpy_at_region _ _ _ _ (misalign tmp) (zlen (bytes_of hd)) Em).
  rewrite Htmem, <- HB, <- Hbl in Hreg.
  assert (chain_data nc = bytes b) as Dnc.
  { change (ztake (off tmp) (zdrop (misalign tmp) mem') = bytes b).
    rewrite Hto. rewrite <- Hreg by lia. f_equal. lia. }
  apply pullup_finish.
  - constructor; [|done]. change (chain_wf (with_extent (misalign tmp) (off tmp) (with_buffer mem' tmp))).
    pose proof (memcpy_at_len _ _ _ _ Em). destruct (Wt). apply chain_wf_with; done || lia.
  - by apply (lwd_at []).
  - rewrite bytes_of_cons, Dnc. apply app_nil_r.
  - rewrite Dnc, ztake_all; [done|lia].
Qed.

(** The position of [last_with_datap] after a cut behind [pulled]. *)
Lemma pulled_lwd_ok pulled c0 c1 rest0 nc :
  cs = pulled ++ c0 :: rest0 → 0 < off c0 → off c1 ≠ 0 →
  (length hd + length pulled <= last_with_datap b)%nat ∧
  lwd_ok (nc :: c1 :: rest0) (S (last_with_datap b - length (hd ++ pulled))).
Proof.
  intros -> H0 H1. destruct (Hb) as [_ Hlwd _ _ _ _]. rewrite Hc, app_assoc in Hlwd.
  assert (length (hd ++ pulled) <= last_with_datap b)%nat as Hge.
  { destruct (decide (last_with_datap b < length (hd ++ pulled))%nat) as [Hlt|]; [|lia].
    apply (lwd_ok_beyond _ _ _ Hlwd), Forall_cons in Hlt as [He _]. unfold empty_chain in He. lia. }
  split; [by rewrite length_app in Hge|].
  apply lwd_ok_second with c0; [|done]. apply lwd_ok_suffix; done || lia.
Qed.

Lemma pullup_into_ok :
  pullup_done b size
    (pullup_into b tmp cs (length hd) (Some (last_with_datap b))
      (misalign tmp + zlen (bytes_of hd)) (size - zlen (bytes_of hd))).
Proof.
  pose proof (bw_total _ Hb) as Htot. pose proof (zlen_nonneg (bytes_of hd)).
  assert (Hbl : zlen (bytes b) = zlen (bytes_of hd) + zlen (bytes_of cs))
    by (unfold bytes; by rewrite Hc, bytes_of_app, zlen_app).
  destruct (Hb) as [Wall Hlwd _ _ _ _]. rewrite Hc in Wall, Hlwd. apply Forall_app in Wall as [_ Wcs].
  pose proof (cw_len _ Wt). pose proof (cw_fit _ Wt). pose proof (cw_mis _ Wt).
  unfold pullup_into.
  destruct (pullup_loop_ok cs (length hd) (last_with_datap b) (last_with_datap b) (buffer tmp)
    (misalign tmp + zlen (bytes_of hd)) (size - zlen (bytes_of hd)) false false)
    as (pulled & rest & mem1 & Ecs & -> & Em1 & Hk & Hstop); try done; try lia.
  cbn [mbind option_bind orb].
  set (k := size - zlen (bytes_of hd) - zlen (bytes_of pulled)) in *.
  pose proof (zlen_nonneg (bytes_of pulled)).
  assert (Hpr : zlen (bytes_of cs) = zlen (bytes_of pulled) + zlen (bytes_of rest))
    by (by rewrite Ecs, bytes_of_app, zlen_app).
  destruct rest as [|c0 rest0].
  - (* everything was pulled in *)
    rewrite app_nil_r in Ecs. subst pulled.
    assert (last_with_datap b < length hd + length cs)%nat as Hlt.
    { rewrite <- length_app. apply lwd_ok_lt; [done|]. intros E. rewrite E in Hlwd. inversion Hlwd; [lia|].
      by destruct pre. }
    rewrite (bool_decide_true (_ <= _ < _)%nat) by lia. cbn [mbind option_bind].
    apply pulled_all_ok; [done|lia].
  - (* the rest of the last chunk is cut off its chain *)
    specialize (Hstop _ _ eq_refl). rewrite Ecs in Wcs. apply Forall_app in Wcs as [_ [Wc0 _]%Forall_cons].
    pose proof (mem_read_chain c0 k 0 Wc0) as Hread. rewrite !Z.add_0_r in Hread.
    rewrite Hread by lia. clear Hread. cbn [mbind option_bind]. rewrite zdrop_0.
    assert (Hk0 : zlen (ztake k (chain_data c0)) = k) by (apply zlen_ztake; rewrite chain_data_len; [lia|done]).
    assert (zlen (bytes_of (c0 :: rest0)) = off c0 + zlen (bytes_of rest0)) as Hr0
      by (by rewrite bytes_of_cons, zlen_app, chain_data_len).
    rewrite (memcpy_at_app _ _ _ _ Em1) by lia.
    destruct (memcpy_at (buffer tmp) (misalign tmp + zlen (bytes_of hd))
      (bytes_of pulled ++ ztake k (chain_data c0))) as [mem2|] eqn:Em2;
      [|rewrite memcpy_at_ok in Em2; rewrite ?zlen_app; done || lia].
    cbn [mbind option_bind].
    assert (Hreg := memcpy_at_region _ _ _ _ (misalign tmp) (zlen (bytes_of hd)) Em2).
    rewrite Htmem, zlen_app, Hk0 in Hreg. specialize (Hreg ltac:(lia) ltac:(lia) ltac:(lia) ltac:(lia)).
    replace (zlen (bytes_of hd) + (zlen (bytes_of pulled) + k)) with size in Hreg by lia.
    destruct (pulled_chains_ok pulled (c0 :: rest0) mem2 c0 rest0 Ecs) as (Wn & Bn & Dn); try done.
    { by rewrite (memcpy_at_len _ _ _ _ Em2). }
    set (c1 := with_extent (misalign c0 + k) (off c0 - k) c0).
    assert (off c1 ≠ 0) by (simpl; lia).
    destruct (pulled_lwd_ok pulled c0 c1 rest0 (with_buffer mem2 tmp) Ecs) as [Hge Hnew]; [lia|done|].
    rewrite bool_decide_eq_false_2 by lia.
    match goal with |- pullup_done _ _ (Some (set_chains _ ?l _, _)) =>
      assert (l = S (last_with_datap b - length (hd ++ pulled))) as El end.
    { destruct (Z.eqb_spec (off c1) 0); [done|]. simpl negb. rewrite length_app.
      destruct (last_with_datap b) as [|l] eqn:EL; [lia|].
      assert (length (chains b) = length hd + length pulled + S (length rest0))%nat as ->.
      { rewrite Hc, Ecs, !length_app. simpl. lia. }
      apply lwd_ok_lt in Hlwd; [|rewrite Ecs; by destruct hd, pulled].
      rewrite Ecs, !length_app in Hlwd. simpl in Hlwd.
      case_bool_decide; simpl length; cbn iota; lia. }
    rewrite El. by apply pullup_finish.
Qed.
End pullup_into.

Section pullup.
Context {MM : Malloc}.

(** [evbuffer_pullup] fails only for a size the queue does not have or when
    memory runs out; it never changes the content. *)
Definition pullup_spec (b : evbuffer) (size : Z) (r : option (evbuffer * option (list Z))) : Prop :=
  let n := if size <? 0 then total_len b else size in
  0 < n <= total_len b ∧ pullup_done b n r ∨
  r = Some (b, None) ∧ (n = 0 ∨ total_len b < n ∨ alloc_failure n).

Lemma pullup_ok b size : buf_wf b → pullup_spec b size (evbuffer_pullup b size).
Proof.
  intros Hb. unfold pullup_spec, evbuffer_pullup. pose proof (wf_nonneg _ Hb). pose proof (bw_total _ Hb) as Htot.
  set (n := if size <? 0 then _ else _). assert (0 <= n) as Hn by (subst n; zcase; lia). clearbody n.
  destruct (Z.eqb_spec n 0) as [->|Hn0]; [right; auto|].
  destruct (Z.ltb_spec (total_len b) n) as [?|Hle]; [right; auto|]. cbn [orb].
  destruct (chains b) as [|c cs] eqn:Hc.
  { unfold bytes in Htot. rewrite Hc in Htot. change (zlen (bytes_of [])) with 0 in Htot. lia. }
  destruct (head_wf _ _ _ Hb Hc) as [Wc Wcs]. pose proof (cw_off _ Wc). pose proof (cw_len _ Wc).
  pose proof (cw_fit _ Wc). pose proof (cw_mis _ Wc). pose proof (cw_max _ Wc).
  pose proof (bytes_cons _ _ _ Hc) as HB. pose proof (chain_data_len _ Wc).
  destruct (Z.leb_spec n (off c)) as [Hfit|Hbig].
  { left. split; [lia|]. exists b, (chain_data c). split_and!; auto with evlib; [|lia].
    rewrite HB, ztake_app_le, ztake_all by lia. done. }
  rewrite pullup_unpinned_ok, (cw_pin _ Wc) by done. cbn [negb andb orb].
  (* there is data behind the first chain *)
  assert (1 <= last_with_datap b)%nat as HL.
  { destruct (last_with_datap b) eqn:E; [|lia]. pose proof (bw_lwd _ Hb) as Hl. rewrite Hc, E in Hl.
    apply lwd_ok_0, bytes_of_empty in Hl. rewrite HB, Hl, app_nil_r in Htot. lia. }
  rewrite u64_small by (unfold EVBUFFER_CHAIN_MAX, EV_SSIZE_MAX, EVBUFFER_CHAIN_SIZE in *; lia).
  destruct (Z.leb_spec n (buffer_len c - misalign c)) as [Hspace|Hnospace].
  - (* enough room behind the first chain's data *)
    left. split; [lia|].
    assert (has (ch_flags c) EVBUFFER_IMMUTABLE = false) as Hi.
    { destruct (has _ _) eqn:Hi; [|done]. pose proof (cw_imm _ Wc Hi). lia. }
    pose proof (chain_wf_with c (buffer c) (misalign c) n Wc Hi) as Wt.
    rewrite <- (chain_data_len c) by done.
    rewrite <- (app_nil_r (chain_data c)). change (chain_data c ++ []) with (bytes_of [c]).
    apply (pullup_into_ok b (with_extent (misalign c) n c) [c] cs n); try done; try lia.
    + apply Wt; lia || done.
    + rewrite bytes_of_cons, app_nil_r, chain_data_len by done. done.
    + rewrite bytes_of_cons, app_nil_r, chain_data_len by done. lia.
  - destruct (evbuffer_chain_new n) as [tmp|] eqn:En.
    2:{ right. split; [done|]. right; right. by apply chain_new_None. }
    apply chain_new_spec in En as (Wt & Hot & Hmt & Hszt & Hft & _); [|lia].
    left. split; [lia|].
    replace (match last_with_datap b with O => None | S k => Some (S k) end)
      with (Some (last_with_datap b)) by (destruct (last_with_datap b); done || lia).
    assert (chain_wf (with_extent 0 n (with_buffer (buffer tmp) tmp))) as Wt'.
    { apply chain_wf_with; rewrite ?Hft; done || lia. }
    pose proof (pullup_into_ok b (with_extent 0 n tmp) [] (c :: cs) n Hb Hc Wt') as P.
    change (zlen (bytes_of [])) with 0 in P. rewrite Z.sub_0_r in P.
    apply P; try done; simpl; rewrite ?Hft; done || lia.
Qed.
End pullup.
