(* ===== verification/EvbufferMove.v ===== *)
(** Correctness of the operations on two buffers: whole chains change hands
    and no byte is lost, reordered or duplicated -- except in
    [evbuffer_remove_buffer] when memory runs out. *)
From S2P Require Import Prelude EvbufferDefs Evbuffer EvbufferOps EvbufferPullup.

(** A list of chains with data: [last_with_datap] points at data. *)
Lemma lwd_ok_data cs l :
  lwd_ok cs l → Forall chain_wf cs → bytes_of cs ≠ [] →
  ∃ pre c post, cs = pre ++ c :: post ∧ l = length pre ∧ off c ≠ 0 ∧ Forall empty_chain post.
Proof.
  intros Hl Hw Hb. inversion Hl as [E|pre c post Hp He E]; subst; [done|].
  exists pre, c, post. split; [done|]. split; [done|]. split; [|done].
  intros Ho. destruct pre as [|d pre]; [|by apply Hp].
  apply Hb. apply bytes_of_empty. by constructor.
Qed.
Lemma lwd_ok_app xs cs l :
  lwd_ok cs l → Forall chain_wf cs → bytes_of cs ≠ [] → lwd_ok (xs ++ cs) (length xs + l).
Proof.
  intros Hl Hw Hb. destruct (lwd_ok_data cs l Hl Hw Hb) as (pre & c & post & -> & -> & Ho & He).
  rewrite app_assoc, <- length_app. by apply lwd_at.
Qed.

Lemma bytes_nonempty b : buf_wf b → total_len b ≠ 0 → bytes b ≠ [].
Proof. intros Hb H0 E. apply H0. rewrite (bw_total _ Hb), E. done. Qed.
Lemma bytes_total_0 b : buf_wf b → total_len b = 0 → bytes b = [].
Proof. intros Hb H0. apply zlen_nil_inv. by rewrite <- (bw_total _ Hb). Qed.

Section move.
Context {MM : Malloc}.

Definition frozen (b : evbuffer) : Prop := freeze_start b = true ∨ freeze_end b = true.

(** All of [inbuf] moved: [joined] is the new content of [outbuf]. *)
Definition move_spec (joined : list Z) (outbuf inbuf : evbuffer)
    (r : option (evbuffer * evbuffer * Z)) : Prop :=
  ∃ out' in' rc, r = Some (out', in', rc) ∧ buf_wf out' ∧ buf_wf in' ∧
    (rc = 0 ∧ bytes out' = joined ∧ bytes in' = [] ∧
       (bytes inbuf = [] ∧ out' = outbuf ∧ in' = inbuf ∨
        notified outbuf (total_len inbuf) 0 out' ∧ notified inbuf 0 (total_len inbuf) in') ∨
     rc = -1 ∧ out' = outbuf ∧ in' = inbuf ∧ (frozen outbuf ∨ frozen inbuf)).

(** The last steps of both move operations. *)
Lemma moved_ok joined outbuf inbuf out1 :
  buf_wf outbuf → buf_wf inbuf → buf_wf out1 → quiet outbuf out1 → bytes out1 = joined →
  n_add_for_cb out1 = n_add_for_cb outbuf → n_del_for_cb out1 = n_del_for_cb outbuf →
  move_spec joined outbuf inbuf
    (let inbuf1 := RESTORE_PINNED inbuf [] in
     let '(outbuf, inbuf) := moved (total_len inbuf) out1 inbuf1 in Some (outbuf, inbuf, 0)).
Proof.
  intros Ho Hi W1 Q1 B1 Na Nd. unfold moved. cbn zeta.
  assert (W2 : buf_wf (RESTORE_PINNED inbuf [])).
  { apply wf_contents; try done; constructor. }
  eexists _, _, 0. split; [done|]. split; [auto with evlib|].
  split; [apply wf_invoke; by apply wf_counters_r|].
  left. split; [done|]. rewrite !bytes_invoke. split; [done|]. split; [done|]. right. split.
  - eexists. split; [done|]. split; [auto with evlib|]. simpl. rewrite Na, Nd, Z.add_0_r.
    split; [done|]. symmetry. apply u64_small, Ho.
  - eexists. split; [done|]. split.
    { apply quiet_set_counters. unfold RESTORE_PINNED. auto with evlib. }
    simpl. rewrite Z.add_0_r. split; [|done]. symmetry. apply u64_small, Hi.
Qed.

Lemma PRESERVE_PINNED_ok b : buf_wf b → PRESERVE_PINNED b = Some (inr (b, [])).
Proof. intros Hb. unfold PRESERVE_PINNED. by rewrite has_pinned_false. Qed.

Lemma COPY_CHAIN_ok dst src :
  buf_wf dst → buf_wf src → buf_wf (COPY_CHAIN dst src) ∧ bytes (COPY_CHAIN dst src) = bytes src.
Proof. intros Hd []. split; [|done]. by apply wf_contents. Qed.

Lemma APPEND_CHAIN_ok dst src :
  buf_wf dst → buf_wf src → total_len src ≠ 0 → total_len dst + total_len src <= EV_SIZE_MAX →
  ∃ d, APPEND_CHAIN dst src = Some d ∧ buf_wf d ∧ quiet dst d ∧ bytes d = bytes dst ++ bytes src ∧
    n_add_for_cb d = n_add_for_cb dst ∧ n_del_for_cb d = n_del_for_cb dst.
Proof.
  intros Hd Hs H0 Hmax. unfold APPEND_CHAIN.
  destruct (free_trailing_ok dst Hd) as (cs & -> & Wcs & B & _). cbn [mbind option_bind].
  pose proof (wf_nonneg _ Hd). pose proof (wf_nonneg _ Hs).
  simpl chains. simpl total_len. rewrite firstn_all.
  assert (bytes_of (cs ++ chains src) = bytes dst ++ bytes src) as HB by (by rewrite bytes_of_app, B).
  eexists. split; [done|]. split; [|split; [auto with evlib|done]].
  rewrite u64_small by (unfold EV_SIZE_MAX in *; lia).
  match goal with |- buf_wf (set_total_len ?n (set_chains ?l ?k (set_chains _ _ dst))) =>
    change (buf_wf (set_total_len n (set_chains l k dst))) end.
  destruct (Hs) as [Ws Hl Ht _ _ _].
  apply wf_contents; try done.
  - by apply Forall_app.
  - apply lwd_ok_app; try done. by apply bytes_nonempty.
  - rewrite HB, zlen_app, (bw_total _ Hd), Ht. done.
Qed.

Lemma PREPEND_CHAIN_ok dst src :
  buf_wf dst → buf_wf src → total_len dst ≠ 0 → total_len dst + total_len src <= EV_SIZE_MAX →
  buf_wf (PREPEND_CHAIN dst src) ∧ bytes (PREPEND_CHAIN dst src) = bytes src ++ bytes dst.
Proof.
  intros Hd Hs H0 Hmax. pose proof (wf_nonneg _ Hd). pose proof (wf_nonneg _ Hs).
  assert (bytes (PREPEND_CHAIN dst src) = bytes src ++ bytes dst) as HB by apply bytes_of_app.
  split; [|done]. unfold PREPEND_CHAIN.
  destruct (Hd) as [Wd Hl Ht _ _ _].
  pose proof (bytes_nonempty _ Hd H0) as Hne.
  destruct (lwd_ok_data _ _ Hl Wd Hne) as (pre & c & post & Hc & El & _).
  assert (chains dst !! last_with_datap dst = Some c) as -> by (rewrite Hc, El; apply lookup_middle).
  rewrite u64_small by (unfold EV_SIZE_MAX in *; lia).
  apply wf_contents; try done.
  - apply Forall_app. split; [apply Hs|done].
  - by apply lwd_ok_app.
  - rewrite bytes_of_app, zlen_app, (bw_total _ Hd), (bw_total _ Hs). unfold bytes. lia.
Qed.

Lemma add_buffer_ok outbuf inbuf :
  buf_wf outbuf → buf_wf inbuf → total_len outbuf + total_len inbuf <= EV_SIZE_MAX →
  move_spec (bytes outbuf ++ bytes inbuf) outbuf inbuf (evbuffer_add_buffer outbuf inbuf false).
Proof.
  intros Ho Hi Hmax. unfold evbuffer_add_buffer. rewrite orb_false_r.
  destruct (Z.eqb_spec (total_len inbuf) 0) as [H0|H0].
  { pose proof (bytes_total_0 _ Hi H0) as Hb0. exists outbuf, inbuf, 0.
    rewrite Hb0, app_nil_r.
    split; [done|]. split; [done|]. split; [done|]. left. auto 10. }
  destruct (freeze_end outbuf || freeze_start inbuf) eqn:Hf.
  { exists outbuf, inbuf, (-1). apply orb_true_iff in Hf.
    split; [done|]. split; [done|]. split; [done|]. right. unfold frozen. tauto. }
  rewrite PRESERVE_PINNED_ok by done. cbn [mbind option_bind].
  destruct (Z.eqb_spec (total_len outbuf) 0) as [O0|O0].
  - destruct (free_all_ok (chains outbuf) (bw_chains _ Ho)) as [o ->]. cbn [mbind option_bind].
    destruct (COPY_CHAIN_ok outbuf inbuf Ho Hi) as [W1 B1].
    apply moved_ok; try done.
    by rewrite B1, (bytes_total_0 _ Ho).
  - destruct (APPEND_CHAIN_ok outbuf inbuf) as (d & -> & Wd & Qd & Bd & Nad & Ndd); try done.
    cbn [mbind option_bind]. by apply moved_ok.
Qed.

Lemma prepend_buffer_ok outbuf inbuf :
  buf_wf outbuf → buf_wf inbuf → total_len outbuf + total_len inbuf <= EV_SIZE_MAX →
  move_spec (bytes inbuf ++ bytes outbuf) outbuf inbuf (evbuffer_prepend_buffer outbuf inbuf false).
Proof.
  intros Ho Hi Hmax. unfold evbuffer_prepend_buffer. rewrite orb_false_r.
  destruct (Z.eqb_spec (total_len inbuf) 0) as [H0|H0].
  { pose proof (bytes_total_0 _ Hi H0) as Hb0. exists outbuf, inbuf, 0.
    rewrite Hb0, app_nil_l.
    split; [done|]. split; [done|]. split; [done|]. left. auto 10. }
  destruct (freeze_start outbuf || freeze_start inbuf) eqn:Hf.
  { exists outbuf, inbuf, (-1). apply orb_true_iff in Hf.
    split; [done|]. split; [done|]. split; [done|]. right. unfold frozen. tauto. }
  rewrite PRESERVE_PINNED_ok by done. cbn [mbind option_bind].
  destruct (Z.eqb_spec (total_len outbuf) 0) as [O0|O0].
  - destruct (free_all_ok (chains outbuf) (bw_chains _ Ho)) as [o ->]. cbn [mbind option_bind].
    destruct (COPY_CHAIN_ok outbuf inbuf Ho Hi) as [W1 B1].
    apply moved_ok; try done.
    by rewrite B1, (bytes_total_0 _ Ho), app_nil_r.
  - destruct (PREPEND_CHAIN_ok outbuf inbuf) as (Wd & Bd); try done.
    cbn [mbind option_bind]. by apply moved_ok.
Qed.
End move.

(** * Moving a prefix *)

Lemma take_chains_ok cs : ∀ datlen nread lw,
  Forall chain_wf cs → lwd_ok cs (default 0%nat lw) → 0 <= datlen < zlen (bytes_of cs) →
  ∃ taken c rest lw', 
    take_chains cs datlen nread lw =
      Some (taken, c :: rest, datlen - zlen (bytes_of taken), nread + zlen (bytes_of taken), lw') ∧
    cs = taken ++ c :: rest ∧ 0 <= datlen - zlen (bytes_of taken) < off c ∧
    lwd_ok (c :: rest) (default 0%nat lw').
Proof.
  induction cs as [|c cs IH]; intros datlen nread lw Hw Hl Hd; [unfold zlen in Hd; simpl in Hd; lia|].
  apply Forall_cons in Hw as [Wc Wcs]. simpl take_chains.
  rewrite bytes_of_cons, zlen_app, chain_data_len in Hd by done.
  destruct (Z.leb_spec (off c) datlen) as [Hle|Hlt].
  2:{ exists [], c, cs, lw. change (zlen (bytes_of [])) with 0. rewrite Z.sub_0_r, Z.add_0_r.
      split; [done|]. split; [done|]. split; [lia|done]. }
  pose proof (cw_off _ Wc).
  destruct (default 0%nat lw) as [|l] eqn:El.
  { apply lwd_ok_0, bytes_of_empty in Hl. rewrite Hl in Hd. change (zlen (@nil Z)) with 0 in Hd. lia. }
  destruct lw as [k|]; simplify_eq/=. apply lwd_ok_tail in Hl.
  match goal with |- context [take_chains cs _ _ ?lw] =>
    destruct (IH (datlen - off c) (nread + off c) lw) as (taken & d & rest & lw' & -> & E & R & L') end;
    [done|by destruct l|lia|].
  cbn [mbind option_bind]. exists (c :: taken), d, rest, lw'.
  rewrite bytes_of_cons, zlen_app, chain_data_len by done.
  split; [by rewrite Z.sub_add_distr, Z.add_assoc|]. split; [by rewrite E|]. split; [lia|done].
Qed.

(** [advance_last_with_data] walks to the last chain with data. *)
Lemma advance_ok b pre c post :
  chains b = pre ++ c :: post → last_with_datap b = length pre → (pre ≠ [] → off c ≠ 0) →
  ∃ l, advance_last_with_data b = set_chains (chains b) l b ∧ lwd_ok (chains b) l.
Proof.
  intros Hc Hl Hp. unfold advance_last_with_data. rewrite Hc, Hl, drop_middle.
  match goal with |- context [set_chains _ (?g post _ _) _] => set (go := g) end.
  eexists. split; [done|].
  (* invariant: [l] is the position of the last data chain seen so far *)
  assert (∀ post done_ l, lwd_ok done_ l → lwd_ok (done_ ++ post) (go post (length done_) l)) as Hgo.
  { clear. induction post as [|d post IH]; intros done_ l Hd; [by rewrite app_nil_r|].
    simpl. rewrite cons_middle, app_assoc.
    replace (S (length done_)) with (length (done_ ++ [d])) by (rewrite length_app; simpl; lia).
    apply IH. destruct (Z.eqb_spec (off d) 0) as [Ho|Ho]; simpl negb; cbn iota.
    - inversion Hd as [E|pre c post' Hp He E]; subst.
      + by apply (lwd_at [] d []).
      + rewrite <- app_assoc. simpl. apply lwd_at; [done|]. apply Forall_app; by repeat constructor.
    - by apply lwd_at. }
  rewrite cons_middle, app_assoc.
  replace (S (length pre)) with (length (pre ++ [c])) by (rewrite length_app; simpl; lia).
  apply Hgo. by apply lwd_at.
Qed.

Section remove_buffer.
Context {MM : Malloc}.

(** Linking [taken] behind the data of [dst]. *)
Lemma link_taken_ok dst taken :
  buf_wf dst → Forall chain_wf taken →
  total_len dst + zlen (bytes_of taken) <= EV_SIZE_MAX →
  ∃ dst', link_taken dst taken (zlen (bytes_of taken)) = Some dst' ∧ buf_wf dst' ∧ quiet dst dst' ∧ bytes dst' = bytes dst ++ bytes_of taken ∧
    total_len dst' = total_len dst + zlen (bytes_of taken).
Proof.
  intros Hd Wt Hmax. pose proof (wf_nonneg _ Hd). pose proof (zlen_nonneg (bytes_of taken)).
  destruct taken as [|t taken]; simpl link_taken.
  { exists dst. split; [done|]. split; [done|]. split; [auto with evlib|].
    change (bytes_of []) with (@nil Z). rewrite app_nil_r. change (zlen (@nil Z)) with 0. split; [done|lia]. }
  destruct (free_trailing_ok dst Hd) as (cs & -> & Wcs & B & Hend). cbn [mbind option_bind].
  simpl chains. simpl last_with_datap. rewrite firstn_all.
  set (d1 := set_chains (cs ++ t :: taken) _ _).
  assert (∃ l, advance_last_with_data d1 = set_chains (chains d1) l d1 ∧ lwd_ok (chains d1) l) as (l & -> & Hl).
  { destruct Hend as [[-> Hl0]|(pre & c & -> & Ho & Hl0)].
    - by apply (advance_ok d1 [] t taken).
    - apply (advance_ok d1 pre c (t :: taken)); [subst d1; simpl; by rewrite <- app_assoc|done|done]. }
  eexists. split; [done|].
  assert (bytes_of (chains d1) = bytes dst ++ bytes_of (t :: taken)) as HB
    by (subst d1; simpl chains; by rewrite bytes_of_app, B).
  change (grew (zlen (bytes_of (t :: taken))) (set_chains (chains d1) l d1))
    with (grew (zlen (bytes_of (t :: taken))) (set_chains (chains d1) l dst)).
  split; [|split; [auto with evlib|split; [done|]]].
  - apply wf_grew; try done.
    + by apply Forall_app.
    + rewrite HB, zlen_app, (bw_total _ Hd). done.
  - simpl. apply u64_small. unfold EV_SIZE_MAX in *. lia.
Qed.

(** [datlen] bytes leave the front of [src]; [lost] of them do not arrive,
    because the copy of the last part failed. *)
Definition remove_buffer_spec (src dst : evbuffer) (datlen : Z)
    (r : option (evbuffer * evbuffer * Z)) : Prop :=
  ∃ src' dst' rc, r = Some (src', dst', rc) ∧ buf_wf src' ∧ buf_wf dst' ∧
    frame src src' ∧ frame dst dst' ∧
    (rc = i32 (Z.min datlen (total_len src)) ∧ bytes src' = zdrop datlen (bytes src) ∧
       (∃ lost, 0 <= lost <= datlen ∧ bytes dst' = bytes dst ++ ztake (datlen - lost) (bytes src) ∧
                (lost = 0 ∨ lost <= total_len src ∧ alloc_failure lost)) ∨
     rc = -1 ∧ src' = src ∧ dst' = dst ∧ (frozen src ∨ frozen dst)).

Lemma add_buffer_all_ok dst src :
  buf_wf dst → buf_wf src → total_len dst + total_len src <= EV_SIZE_MAX →
  freeze_end dst = false → freeze_start src = false →
  ∃ out' in' rc, evbuffer_add_buffer dst src false = Some (out', in', rc) ∧ buf_wf out' ∧ buf_wf in' ∧
    bytes out' = bytes dst ++ bytes src ∧ bytes in' = [] ∧ frame dst out' ∧ frame src in'.
Proof.
  intros Hd Hs Hmax Hfd Hfs.
  destruct (add_buffer_ok dst src Hd Hs Hmax) as (out' & in' & rc & E & Wo & Wi & Hr).
  exists out', in', rc. split; [done|]. split; [done|]. split; [done|].
  destruct Hr as [(_&?&?&N)|(->&_)]; [|exfalso].
  { split; [done|]. split; [done|].
    destruct N as [(_ & -> & ->)|[No Ni]]; [auto with evlib|]. split; by eapply frame_notified. }
  unfold evbuffer_add_buffer in E. rewrite orb_false_r, Hfd, Hfs in E.
  destruct (Z.eqb_spec (total_len src) 0); [done|].
  rewrite PRESERVE_PINNED_ok in E by done. cbn [mbind option_bind orb] in E.
  destruct (if total_len dst =? 0 then _ else _); cbn [mbind option_bind] in E; [|done].
  by destruct (moved _ _ _) in E.
Qed.

Lemma remove_buffer_ok src dst datlen :
  buf_wf src → buf_wf dst → 0 <= datlen → total_len dst + total_len src <= EV_SIZE_MAX →
  remove_buffer_spec src dst datlen (evbuffer_remove_buffer src dst datlen false).
Proof.
  intros Hs Hd Hdl Hmax. unfold evbuffer_remove_buffer. rewrite orb_false_r.
  pose proof (wf_nonneg _ Hs). pose proof (wf_nonneg _ Hd). pose proof (bw_total _ Hs) as Hts.
  destruct (Z.eqb_spec datlen 0) as [->|Hn0].
  { exists src, dst, 0. split; [done|]. split; [done|]. split; [done|].
    split; [auto with evlib|]. split; [auto with evlib|]. left.
    split; [by rewrite Z.min_l|]. split; [done|]. exists 0.
    rewrite ztake_0, app_nil_r. auto with lia. }
  destruct (freeze_end dst || freeze_start src) eqn:Hf.
  { exists src, dst, (-1). apply orb_true_iff in Hf. split; [done|]. split; [done|]. split; [done|].
    split; [auto with evlib|]. split; [auto with evlib|]. right. unfold frozen. tauto. }
  apply orb_false_iff in Hf as [Hfd Hfs].
  destruct (Z.leb_spec (total_len src) datlen) as [Hall|Hpart].
  { destruct (add_buffer_all_ok dst src) as (out' & in' & rc & -> & Wo & Wi & Bo & Bi & Fo & Fi); try done.
    cbn [mbind option_bind]. eexists in', out', _. split; [done|]. split; [done|]. split; [done|].
    split; [done|]. split; [done|]. left. rewrite Z.min_r, zdrop_all by lia. split; [done|]. split; [done|].
    exists 0. rewrite ztake_all by lia. auto with lia. }
  destruct (take_chains_ok (chains src) datlen 0 (Some (last_with_datap src)))
    as (taken & c & rest & lw & -> & Ecs & Hrem & Hl'); [apply Hs|apply Hs|fold (bytes src); lia|].
  cbn [mbind option_bind]. rewrite Z.add_0_l.
  destruct (Hs) as [Ws _ _ _ _ _]. rewrite Ecs in Ws. apply Forall_app in Ws as [Wt [Wc Wr]%Forall_cons].
  assert (HB : bytes src = bytes_of taken ++ chain_data c ++ bytes_of rest)
    by (unfold bytes; by rewrite Ecs, bytes_of_app, bytes_of_cons).
  pose proof (chain_data_len _ Wc) as Hcl. pose proof (zlen_nonneg (bytes_of taken)) as Htk0.
  pose proof (zlen_nonneg (bytes_of rest)).
  assert (Hlen : total_len src = zlen (bytes_of taken) + off c + zlen (bytes_of rest))
    by (rewrite Hts, HB, !zlen_app; lia).
  destruct (link_taken_ok dst taken Hd Wt) as (d1 & -> & Wd1 & Qd1 & Bd1 & Td1); [lia|].
  cbn [mbind option_bind]. set (k := datlen - zlen (bytes_of taken)) in *.
  pose proof (mem_read_chain c k 0 Wc) as Hread. rewrite !Z.add_0_r in Hread.
  rewrite Hread by lia. clear Hread. cbn [mbind option_bind]. rewrite zdrop_0.
  assert (Hk0 : zlen (ztake k (chain_data c)) = k) by (apply zlen_ztake; lia).
  destruct (add_ok d1 (ztake k (chain_data c)) Wd1) as (d2 & rc & -> & Wd2 & Hadd).
  cbn [mbind option_bind].
  destruct (chain_shrink c k Wc) as [Wc' Dc']; [lia|lia|].
  replace (zlen (bytes_of taken) + k) with datlen by lia.
  set (src2 := set_counters _ _ _).
  assert (Bsrc : bytes_of (with_extent (misalign c + k) (off c - k) c :: rest) = zdrop datlen (bytes src)).
  { rewrite bytes_of_cons, Dc', HB, zdrop_app_ge by lia. fold k. by rewrite zdrop_app_le by lia. }
  assert (Wsrc : buf_wf src2).
  { assert (buf_wf (set_total_len (u64 (total_len src - datlen)) (set_chains
      (with_extent (misalign c + k) (off c - k) c :: rest) (default 0%nat lw) src))) as W3.
    { rewrite u64_small by (unfold EV_SIZE_MAX in *; lia). apply wf_contents; try done.
      - by constructor.
      - apply lwd_ok_head with c; [done|]. simpl. lia.
      - rewrite Bsrc, zlen_zdrop by lia. lia.
      - lia. }
    apply (wf_counters_r _ (n_del_for_cb src + datlen)) in W3.
    exact W3. }
  destruct (Z.eqb_spec datlen 0); [lia|]. simpl negb. cbn iota.
  assert (frame dst d2) as Fd.
  { destruct Hadd as [(_ & _ & N)|(_ & _ & Q & _)]; (eapply frame_trans; [by apply q_frame|]);
      [by eapply frame_notified|by apply q_frame]. }
  eexists _, _, _. split; [done|]. split; [auto with evlib|]. split; [auto with evlib|].
  split; [apply frame_invoke; by constructor|]. split; [by apply frame_invoke|].
  left. rewrite Z.min_l by lia. split; [done|]. rewrite !bytes_invoke. split; [exact Bsrc|].
  assert (Htk : ∀ m, zlen (bytes_of taken) <= m <= datlen →
    ztake m (bytes src) = bytes_of taken ++ ztake (m - zlen (bytes_of taken)) (chain_data c)).
  { intros m Hm. rewrite HB, ztake_app_ge by lia. f_equal. by rewrite ztake_app_le by lia. }
  destruct Hadd as [(_ & B2 & _)|(_ & B2 & _ & Hwhy)].
  - exists 0. rewrite Z.sub_0_r, Htk by lia. rewrite B2, Bd1, <- app_assoc. auto with lia.
  - exists k. split; [lia|]. replace (datlen - k) with (zlen (bytes_of taken)) by lia.
    rewrite Htk, Z.sub_diag, ztake_0, app_nil_r by lia. split; [by rewrite B2|].
    right. split; [lia|]. rewrite Hk0 in Hwhy. rewrite (fr_end _ _ (q_frame _ _ Qd1)) in Hwhy.
    destruct Hwhy as [?|[?|?]]; [congruence|lia|done].
Qed.
End remove_buffer.
