(* ===== verification/EvbufferSpace.v ===== *)
(** Correctness of the operations that make room at the end of the queue and
    of committing what was written there. *)
From S2P Require Import Prelude EvbufferDefs Evbuffer EvbufferOps EvbufferPullup EvbufferMove.

(** The position of [last_with_datap] depends only on the [off] fields. *)
Lemma lwd_ok_off cs cs' l : lwd_ok cs l → off <$> cs' = off <$> cs → lwd_ok cs' l.
Proof.
  intros Hl E. inversion Hl as [|pre c post Hp He E']; subst.
  - apply fmap_nil_inv in E as ->. constructor.
  - rewrite fmap_app, fmap_cons in E.
    apply fmap_app_inv in E as (pre' & cs2 & Epre & E2 & ->).
    symmetry in E2. apply fmap_cons_inv in E2 as (c' & post' & Ec & Epost & ->).
    assert (length pre = length pre') as -> by (by apply (f_equal length) in Epre; rewrite !length_fmap in Epre).
    apply lwd_at.
    + intros Hn. rewrite <- Ec. apply Hp. by intros ->; destruct pre'.
    + clear -He Epost. revert post Epost He. induction post' as [|d post' IH]; intros [|e post] E He; try done.
      simplify_eq/=. apply Forall_cons in He as [H1 H2]. constructor; [by unfold empty_chain in *; congruence|eauto].
Qed.

(** Replacing chain [i] by one with the same data. *)
Lemma put_same b i c c' :
  buf_wf b → chains b !! i = Some c → chain_wf c' → off c' = off c → chain_data c' = chain_data c →
  buf_wf (put_chain i c' b) ∧ bytes (put_chain i c' b) = bytes b.
Proof.
  intros Hb Hi Wc Ho Hd.
  assert (bytes (put_chain i c' b) = bytes b) as B.
  { unfold bytes, bytes_of; simpl. rewrite list_fmap_insert, Hd. f_equal.
    apply list_insert_id. by rewrite list_lookup_fmap, Hi. }
  split; [|done]. destruct (Hb) as [Wcs Hl]. constructor; rewrite ?B; simpl; try apply Hb.
  - by apply Forall_insert.
  - apply lwd_ok_off with (chains b); [done|]. rewrite list_fmap_insert, Ho.
    apply list_insert_id. by rewrite list_lookup_fmap, Hi.
Qed.

Ltac same_content_tac := split; [|split; [|split; [|split]]]; try done; auto with evlib.

Section expand.
Context {MM : Malloc}.

(** The queue is unchanged as a sequence of bytes. *)
Definition same_content (b b' : evbuffer) : Prop :=
  buf_wf b' ∧ bytes b' = bytes b ∧ quiet b b' ∧
  n_add_for_cb b' = n_add_for_cb b ∧ n_del_for_cb b' = n_del_for_cb b.

(** On success the chain has room for [datlen] bytes, and it is not in front of
    [last_with_datap]: what is appended there comes last. *)
Definition expand_spec (b : evbuffer) (datlen : Z) (r : option (evbuffer * option nat)) : Prop :=
  ∃ b' res, r = Some (b', res) ∧ same_content b b' ∧
    match res with
    | Some i => ∃ c, chains b' !! i = Some c ∧ datlen <= CHAIN_SPACE_LEN c ∧ (last_with_datap b' <= i)%nat
    | None => ∃ size, datlen <= size <= datlen + MAX_TO_COPY_IN_EXPAND ∧ alloc_failure size
    end.

(** The last step of every branch. *)
Lemma expand_finish_ok b b' datlen i c :
  same_content b b' → chains b' !! i = Some c → datlen <= CHAIN_SPACE_LEN c →
  (last_with_datap b' <= i)%nat →
  expand_spec b datlen
    (result ← chains b' !! i; _ ← assert_ (datlen <=? CHAIN_SPACE_LEN result); Some (b', Some i)).
Proof.
  intros Hsc Hc Hsp Hi. rewrite Hc. cbn [mbind option_bind]. rewrite (proj2 (Z.leb_le _ _) Hsp).
  cbn [assert_ mbind option_bind]. eexists _, _. split; [done|]. split; [done|]. eauto.
Qed.

Lemma lwd_lt cs l : lwd_ok cs l → cs ≠ [] → (l < length cs)%nat.
Proof. intros Hl Hne. inversion Hl; subst; [done|]. rewrite length_app. simpl. lia. Qed.

Lemma expand_insert_new_ok b datlen :
  buf_wf b → 0 <= datlen →
  expand_spec b datlen
    ('(b, r) ← evbuffer_chain_insert_new b datlen;
     match r with
     | None => Some (b, None)
     | Some _ =>
         result ← chains b !! pred (length (chains b));
         _ ← assert_ (datlen <=? CHAIN_SPACE_LEN result); Some (b, Some (pred (length (chains b))))
     end).
Proof.
  intros Hb Hd. unfold evbuffer_chain_insert_new.
  destruct (evbuffer_chain_new datlen) as [c|] eqn:En; cbn [mbind option_bind].
  2:{ apply chain_new_None in En; [|done]. exists b, None. split; [done|].
      split; [by same_content_tac|]. exists datlen. unfold MAX_TO_COPY_IN_EXPAND. split; [lia|done]. }
  apply chain_new_spec in En as (Wt & Hot & Hmt & Hszt & Hft & _); [|done].
  destruct (chain_insert_ok b c Hb Wt) as (b1 & cs & -> & W1 & Q1 & Hc1 & _ & B1 & _ & Na & Nd & _).
  { rewrite Hot, Z.add_0_r. apply Hb. }
  cbn [mbind option_bind]. rewrite chain_data_empty, app_nil_r in B1 by done.
  assert (length (chains b1) = S (length cs)) as Hl by (rewrite Hc1, length_app; simpl; lia).
  apply (expand_finish_ok b b1 datlen _ c).
  - by same_content_tac.
  - rewrite Hl, Hc1. simpl. by apply list_lookup_middle.
  - rewrite chain_space, Hft by done. change (has 0 EVBUFFER_IMMUTABLE) with false. cbn iota. lia.
  - pose proof (lwd_lt _ _ (bw_lwd _ W1)) as Hlt. rewrite Hl in *. simpl.
    assert (chains b1 ≠ []) as Hne by (rewrite Hc1; by destruct cs). specialize (Hlt Hne). lia.
Qed.

Lemma expand_singlechain_ok b datlen :
  buf_wf b → 0 <= datlen → expand_spec b datlen (evbuffer_expand_singlechain b datlen).
Proof.
  intros Hb Hd. unfold evbuffer_expand_singlechain.
  pose proof (expand_insert_new_ok b datlen Hb Hd) as Hins.
  set (chainp := match chains b !! last_with_datap b with Some _ => _ | None => _ end).
  assert (last_with_datap b <= chainp)%nat as Hcp by (subst chainp; repeat case_match; lia).
  clearbody chainp.
  assert (Hself : same_content b b) by (by same_content_tac).
  destruct (chains b !! chainp) as [c|] eqn:Hc; [|done].
  assert (chain_wf c) as Wc by (eapply Forall_lookup_1; [apply Hb|done]).
  pose proof (cw_off _ Wc) as Hoff. pose proof (cw_len _ Wc) as Hlen. pose proof (cw_fit _ Wc) as Hcf.
  pose proof (cw_mis _ Wc). pose proof (cw_max _ Wc).
  assert (Hput : ∀ c', chains (put_chain chainp c' b) !! chainp = Some c').
  { intros c'. simpl. apply list_lookup_insert_eq. by eapply lookup_lt_Some. }
  destruct (has (ch_flags c) (Z.lor EVBUFFER_IMMUTABLE EVBUFFER_MEM_PINNED_ANY)) eqn:Hfl; [done|].
  assert (Hi : has (ch_flags c) EVBUFFER_IMMUTABLE = false).
  { unfold has in *. apply negb_false_iff, Z.eqb_eq in Hfl. apply negb_false_iff, Z.eqb_eq.
    rewrite Z.land_lor_distr_r in Hfl. by apply Z.lor_eq_0_iff in Hfl as [? _]. }
  destruct (Z.leb_spec datlen (CHAIN_SPACE_LEN c)) as [Hsp|Hsp].
  { rewrite <- Hc. by eapply expand_finish_ok. }
  destruct (Z.eqb_spec (off c) 0) as [Ho0|Ho0]; [done|].
  destruct (evbuffer_chain_should_realign c datlen) eqn:Hre.
  { destruct (chain_align_ok c Wc Hi) as (c1 & -> & W1 & D1 & O1 & F1 & M1 & L1). cbn [mbind option_bind].
    destruct (put_same b chainp c c1) as [Wb Bb]; try done.
    eapply expand_finish_ok; [by same_content_tac|apply Hput| |done].
    rewrite chain_space, F1, Hi by done.
    unfold evbuffer_chain_should_realign in Hre.
    rewrite u64_small in Hre by (unfold EVBUFFER_CHAIN_MAX, EV_SSIZE_MAX, EVBUFFER_CHAIN_SIZE in *; lia). lia. }
  destruct ((CHAIN_SPACE_LEN c <? buffer_len c `div` 8) || _ || _) eqn:Hcopy.
  { destruct (chains b !! S chainp) as [next|] eqn:Hn; [|done].
    destruct (Z.leb_spec datlen (CHAIN_SPACE_LEN next)); [|done].
    rewrite <- Hn. eapply expand_finish_ok; try done. lia. }
  apply orb_false_iff in Hcopy as [Hcopy _]. apply orb_false_iff in Hcopy as [_ Hcpy].
  destruct (evbuffer_chain_new (off c + datlen)) as [tmp|] eqn:En.
  2:{ apply chain_new_None in En; [|lia]. eexists _, _. split; [done|]. split; [done|].
      exists (off c + datlen). split; [lia|done]. }
  apply chain_new_spec in En as (Wt & Hot & Hmt & Hszt & Hft & _); [|lia].
  pose proof (mem_read_chain c (off c) 0 Wc) as Hread. rewrite !Z.add_0_r in Hread.
  rewrite Hread by lia. clear Hread. cbn [mbind option_bind].
  pose proof (chain_data_len _ Wc) as Hdl. rewrite zdrop_0, ztake_all by lia.
  destruct (wf_new_chain_data tmp (chain_data c)) as (mem & -> & Wn & Dn); try done; [lia|].
  cbn [mbind option_bind]. rewrite Hdl in Wn, Dn.
  destruct (chain_free_ok c Wc) as [o ->]. cbn [mbind option_bind].
  destruct (put_same b chainp c (with_extent 0 (off c) (with_buffer mem tmp))) as [Wb Bb]; try done.
  eapply expand_finish_ok; [by same_content_tac|apply Hput| |done].
  rewrite chain_space by done. simpl. rewrite Hft. simpl. lia.
Qed.

Lemma expand_ok b datlen :
  buf_wf b → 0 <= datlen →
  ∃ b' rc, evbuffer_expand b datlen = Some (b', rc) ∧ same_content b b' ∧
    (rc = 0 ∧ (∃ c, c ∈ chains b' ∧ datlen <= CHAIN_SPACE_LEN c) ∨
     rc = -1 ∧ ∃ size, datlen <= size <= datlen + MAX_TO_COPY_IN_EXPAND ∧ alloc_failure size).
Proof.
  intros Hb Hd. unfold evbuffer_expand.
  destruct (expand_singlechain_ok b datlen Hb Hd) as (b' & res & -> & Hs & Hr).
  cbn [mbind option_bind]. eexists _, _. split; [done|]. split; [done|].
  destruct res as [i|]; [left|right]; split; try done.
  destruct Hr as (c & Hc & Hsp & _). exists c. split; [by eapply list_elem_of_lookup_2|done].
Qed.
End expand.

(** * [evbuffer_expand_fast_] *)

Definition spaces (cs : list chain) : Z := foldr (λ c n, CHAIN_SPACE_LEN c + n) 0 cs.

Lemma spaces_app cs ds : spaces (cs ++ ds) = spaces cs + spaces ds.
Proof. induction cs as [|c cs IH]; simpl; lia. Qed.
Lemma spaces_nonneg cs : Forall chain_wf cs → 0 <= spaces cs.
Proof. induction 1 as [|c cs Hc _ IH]; simpl; [lia|]. pose proof (chain_space_le c Hc). lia. Qed.

(** An empty chain can be laid out from the start of its memory. *)
Lemma empty_rewind c :
  chain_wf c → off c = 0 →
  let c' := with_extent 0 (off c) c in
  chain_wf c' ∧ off c' = off c ∧ chain_data c' = chain_data c ∧ CHAIN_SPACE_LEN c' = buffer_len c.
Proof.
  intros Wc Ho c'. destruct (Wc) as [].
  assert (chain_wf c') as Wc'.
  { constructor; simpl; try done; try lia. }
  split; [done|]. split; [done|]. split; [by rewrite !chain_data_empty|].
  rewrite chain_space by done. simpl. rewrite Ho. destruct (has _ _) eqn:Hi; [|lia].
  by rewrite cw_imm0.
Qed.

(** What a run of the loop over empty chains establishes. *)
Definition fast_result (cs cs' : list chain) (n used : nat) (datlen avail : Z)
    (r : unit + (nat * Z * bool)) : Prop :=
  match r with
  | inl _ => datlen <= avail + spaces (take (n - used) cs')
  | inr (used', avail', ran_off) =>
      0 <= avail' < datlen ∧
      if ran_off : bool
      then used' = (used + length cs)%nat ∧ (used' < n)%nat ∧ avail' = avail + spaces cs'
      else used' = n
  end.

Lemma expand_fast_empty cs : ∀ at_lwd datlen n used avail,
  Forall chain_wf cs → Forall empty_chain cs → datlen <= EV_SSIZE_MAX →
  0 <= avail < datlen → (used < n)%nat →
  ∃ cs' r, expand_fast_loop cs at_lwd datlen n used avail = Some (cs', r) ∧
    Forall chain_wf cs' ∧ Forall empty_chain cs' ∧ length cs' = length cs ∧ fast_result cs cs' n used datlen avail r.
Proof.
  induction cs as [|c cs IH]; intros at_lwd datlen n used avail Hw He Hd Ha Hu.
  { exists [], (inr (used, avail, true)). repeat split; simpl; lia || done. }
  apply Forall_cons in Hw as [Wc Wcs]. apply Forall_cons in He as [Ec Ecs]. unfold empty_chain in Ec.
  destruct (empty_rewind c Wc Ec) as (W' & O' & _ & S'). simpl expand_fast_loop.
  destruct (Z.eqb_spec (off c) 0); [|done]. cbn [negb mbind option_bind].
  pose proof (chain_space_le _ W') as Hsp. rewrite S' in Hsp.
  assert (Hu64 : u64 (avail + buffer_len c) = avail + buffer_len c).
  { pose proof (cw_max _ Wc). apply u64_small. unfold EVBUFFER_CHAIN_MAX, EV_SSIZE_MAX, EVBUFFER_CHAIN_SIZE in *. lia. }
  rewrite Hu64. set (c' := with_extent 0 (off c) c) in *.
  destruct (Z.leb_spec datlen (avail + buffer_len c)).
  { eexists (c' :: cs), _. split; [done|]. split; [by constructor|]. split; [by constructor|]. split; [done|]. simpl.
    replace (n - used)%nat with (S (n - used - 1)) by lia. simpl. rewrite S'.
    pose proof (spaces_nonneg _ (Forall_take _ (n - used - 1) _ Wcs)). lia. }
  case_bool_decide as Hn.
  { eexists (c' :: cs), _. split; [done|]. split; [by constructor|]. split; [by constructor|]. split; [done|]. simpl. lia. }
  destruct (IH false datlen n (S used) (avail + buffer_len c)) as (cs' & r & -> & W1 & E1 & L1 & Hr); try done; try lia.
  cbn [mbind option_bind]. eexists (c' :: cs'), r. split; [done|]. split; [by constructor|]. split; [by constructor|].
  split; [simpl; by rewrite L1|].
  destruct r as [[]|[[u a] []]]; simpl in *.
  - replace (n - used)%nat with (S (n - S used)) by lia. simpl. rewrite S'. lia.
  - rewrite S'. lia.
  - lia.
Qed.

(** The chains that can take new data, as [evbuffer_read_setup_vecs_] picks
    them. *)
Definition usable_chains (b : evbuffer) : list chain :=
  match drop (last_with_datap b) (chains b) with
  | c :: cs => if CHAIN_SPACE_LEN c =? 0 then cs else c :: cs
  | [] => []
  end.

Lemma spaces_take_mono n cs : Forall chain_wf cs → spaces (take n cs) <= spaces cs.
Proof.
  intros Hw. rewrite <- (take_drop n cs) at 2. rewrite spaces_app.
  pose proof (spaces_nonneg (drop n cs) (Forall_drop _ n _ Hw)). lia.
Qed.

(** The whole loop, from [*last_with_datap] on. *)
Lemma expand_fast_loop_ok c cs datlen n :
  Forall chain_wf (c :: cs) → Forall empty_chain cs → 0 < datlen <= EV_SSIZE_MAX → (2 <= n)%nat →
  ∃ c' cs' r, expand_fast_loop (c :: cs) true datlen n 0 0 = Some (c' :: cs', r) ∧
    Forall chain_wf (c' :: cs') ∧ Forall empty_chain cs' ∧ off c' = off c ∧ chain_data c' = chain_data c ∧
    let usable := if CHAIN_SPACE_LEN c' =? 0 then cs' else c' :: cs' in
    (off c ≠ 0 → CHAIN_SPACE_LEN c' < datlen ∨ r = inl tt) ∧
    match r with
    | inl _ => datlen <= spaces (take n usable)
    | inr (used', avail', ran_off) =>
        0 <= avail' < datlen ∧
        if ran_off : bool then (used' < n)%nat ∧ (length usable <= used')%nat ∧ avail' = spaces usable
        else used' = n
    end.
Proof.
  intros [Wc Wcs]%Forall_cons He Hd Hn. simpl expand_fast_loop.
  (* the first chain *)
  set (step := if negb (off c =? 0) then _ else _).
  assert (∃ c' used1, step = Some (c', used1, CHAIN_SPACE_LEN c') ∧ chain_wf c' ∧ off c' = off c ∧
    chain_data c' = chain_data c ∧ (used1 <= 1)%nat ∧ (used1 = 0%nat → CHAIN_SPACE_LEN c' = 0))
    as (c' & used1 & -> & W' & O' & D' & Hu1 & Hu0).
  { subst step. destruct (Z.eqb_spec (off c) 0) as [Ho|Ho]; simpl negb; cbn iota.
    - destruct (empty_rewind c Wc Ho) as (W' & O' & D' & S'). pose proof (cw_max _ Wc).
      rewrite Z.add_0_l, <- S', u64_small.
      2:{ pose proof (chain_space_le _ W'). unfold EVBUFFER_CHAIN_MAX, EV_SSIZE_MAX, EVBUFFER_CHAIN_SIZE in *. lia. }
      eexists _, 1%nat. split; [done|]. auto 10 with lia.
    - cbn [assert_ mbind option_bind]. exists c. pose proof (chain_space_le _ Wc). pose proof (cw_max _ Wc).
      pose proof (cw_mis _ Wc). pose proof (cw_off _ Wc).
      destruct (Z.eqb_spec (CHAIN_SPACE_LEN c) 0) as [Hs|Hs]; simpl negb; cbn iota.
      + exists 0%nat. rewrite Hs. auto 10.
      + exists 1%nat. rewrite Z.add_0_l, u64_small
          by (unfold EVBUFFER_CHAIN_MAX, EV_SSIZE_MAX, EVBUFFER_CHAIN_SIZE in *; lia).
        auto 10 with lia. }
  cbn [mbind option_bind]. pose proof (chain_space_le _ W') as Hsp.
  destruct (Z.leb_spec datlen (CHAIN_SPACE_LEN c')) as [Hin|Hout].
  { exists c', cs, (inl tt). split; [done|]. split; [by constructor|]. split; [done|]. split; [done|].
    split; [done|]. split; [auto|]. destruct (Z.eqb_spec (CHAIN_SPACE_LEN c') 0); [lia|].
    replace n with (S (n - 1)) by lia. simpl.
    pose proof (spaces_nonneg _ (Forall_take _ (n - 1) _ Wcs)). lia. }
  rewrite bool_decide_eq_false_2 by lia.
  destruct (expand_fast_empty cs false datlen n used1 (CHAIN_SPACE_LEN c'))
    as (cs' & r & -> & W1 & E1 & L1 & Hr); try done; try lia.
  cbn [mbind option_bind]. exists c', cs', r. split; [done|]. split; [by constructor|]. split; [done|].
  split; [done|]. split; [done|]. split; [auto|].
  pose proof (spaces_nonneg _ W1).
  destruct r as [[]|[[u a] []]]; simpl in Hr.
  - destruct (Z.eqb_spec (CHAIN_SPACE_LEN c') 0) as [Hz|Hz].
    + rewrite Hz, Z.add_0_l in Hr. etransitivity; [exact Hr|].
      replace (n - used1)%nat with (Nat.min (n - used1) n) by lia. rewrite <- take_take.
      apply spaces_take_mono. by apply Forall_take.
    + assert (used1 = 1%nat) as -> by (destruct used1 as [|[|]]; [by rewrite Hu0 in Hz|done|lia]).
      replace n with (S (n - 1)) by lia. simpl. by replace (S (n - 1) - 1)%nat with (n - 1)%nat in Hr by lia.
  - destruct (Z.eqb_spec (CHAIN_SPACE_LEN c') 0); simpl; split; lia || (split; [lia|]; split; [|lia]).
  - lia.
Qed.

Section expand_fast.
Context {MM : Malloc}.

(** The room the first [n] usable chains have. *)
Definition room (n : nat) (b : evbuffer) : Z := spaces (take n (usable_chains b)).

(** A fresh chain at the end is usable. *)
Lemma room_fresh n b tail c :
  (2 <= n)%nat → Forall chain_wf (tail ++ [c]) → (length tail <= 1)%nat → 0 < CHAIN_SPACE_LEN c →
  drop (last_with_datap b) (chains b) = tail ++ [c] →
  room n b = spaces (tail ++ [c]).
Proof.
  intros Hn Hw Ht Hc E. unfold room, usable_chains. rewrite E.
  destruct n as [|[|n]]; [lia|lia|].
  destruct tail as [|d [|]]; simpl in *; [|destruct (Z.eqb_spec (CHAIN_SPACE_LEN d) 0)|lia].
  - destruct (Z.eqb_spec (CHAIN_SPACE_LEN c) 0); [lia|]. by destruct n.
  - destruct n; simpl; lia.
  - destruct n; simpl; lia.
Qed.

Lemma chain_insert_empty b c :
  buf_wf b → chain_wf c → off c = 0 →
  ∃ b', evbuffer_chain_insert b c = Some b' ∧ same_content b b' ∧
    ∃ tail, (length tail <= 1)%nat ∧ Forall chain_wf (tail ++ [c]) ∧
      drop (last_with_datap b') (chains b') = tail ++ [c].
Proof.
  intros Hb Wc Ho.
  destruct (chain_insert_ok b c Hb Wc) as (b' & cs & E & W' & Q' & Hc' & Bcs & B' & _ & Na & Nd & _).
  { rewrite Ho, Z.add_0_r. apply Hb. }
  exists b'. split; [done|]. split.
  { rewrite chain_data_empty, app_nil_r in B' by done. same_content_tac. }
  pose proof (bw_chains _ W') as Wcs. rewrite Hc' in Wcs.
  unfold evbuffer_chain_insert in E.
  destruct (chains b !! last_with_datap b) as [d|] eqn:Hd.
  - destruct (free_trailing_ok b Hb) as (ds & Ef & _ & _ & Hend). rewrite Ef in E.
    cbn [mbind option_bind] in E. rewrite Ho in E. simpl in E. rewrite firstn_all in E.
    injection E as <-. simpl in *. apply app_inj_tail in Hc' as [-> _].
    destruct Hend as [[-> ->]|(pre & e & -> & _ & ->)].
    + exists []. split; [simpl; lia|]. by split.
    + exists [e]. rewrite <- app_assoc in *. simpl app in *. rewrite drop_middle.
      apply Forall_app in Wcs as [_ Wcs]. split; [simpl; lia|]. by split.
  - destruct (wf_cases _ Hb) as [[Hc0 Hl0]|(pre & e & post & Hc0 & Hl0 & _)].
    2:{ rewrite Hc0, Hl0, lookup_middle in Hd. done. }
    rewrite Hc0, Hl0, !bool_decide_true in E by done. cbn [assert_ mbind option_bind] in E.
    injection E as <-. simpl in *. exists []. split; [simpl; lia|]. split; [by constructor|done].
Qed.

Definition expand_fast_spec (b : evbuffer) (datlen : Z) (n : nat) (r : option (evbuffer * Z)) : Prop :=
  ∃ b' rc, r = Some (b', rc) ∧ same_content b b' ∧
    (rc = 0 ∧ datlen <= room n b' ∨ rc = -1 ∧ ∃ size, 0 <= size <= datlen ∧ alloc_failure size).

Lemma expand_fast_fresh_ok b datlen n :
  buf_wf b → 0 < datlen → (2 <= n)%nat →
  expand_fast_spec b datlen n
    match evbuffer_chain_new datlen with
    | None => Some (b, -1)
    | Some c => b ← evbuffer_chain_insert b c; Some (b, 0)
    end.
Proof.
  intros Hb Hd Hn. destruct (evbuffer_chain_new datlen) as [c|] eqn:En.
  2:{ apply chain_new_None in En; [|lia]. exists b, (-1). split; [done|]. split; [same_content_tac|].
      right. split; [done|]. exists datlen. split; [lia|done]. }
  apply chain_new_spec in En as (Wt & Hot & Hmt & Hszt & Hft & _); [|lia].
  destruct (chain_insert_empty b c Hb Wt Hot) as (b1 & -> & S1 & tail & Ht & Wtail & Hdrop).
  cbn [mbind option_bind]. exists b1, 0. split; [done|]. split; [done|]. left. split; [done|].
  assert (CHAIN_SPACE_LEN c = buffer_len c) as Hsp
    by (rewrite chain_space, Hft, Hot, Hmt by done; change (has 0 EVBUFFER_IMMUTABLE) with false; cbn iota; lia).
  rewrite (room_fresh n b1 tail c) by (done || lia). rewrite spaces_app. simpl. rewrite Hsp.
  apply Forall_app in Wtail as [Wtail _]. pose proof (spaces_nonneg _ Wtail). lia.
Qed.

(** The buffer after the loop: chains from [last_with_datap] on replaced. *)
Lemma set_tail_ok b pre c post c' cs' :
  buf_wf b → chains b = pre ++ c :: post → last_with_datap b = length pre → Forall empty_chain post →
  (pre ≠ [] → off c ≠ 0) → Forall chain_wf (c' :: cs') → Forall empty_chain cs' → off c' = off c →
  chain_data c' = chain_data c →
  same_content b (set_chains (pre ++ c' :: cs') (length pre) b).
Proof.
  intros Hb Hc Hl He Hp Hw' He' Ho' Hd'.
  assert (bytes_of (pre ++ c' :: cs') = bytes b) as B.
  { unfold bytes. rewrite Hc, !bytes_of_app, !bytes_of_cons, Hd'.
    by rewrite (bytes_of_empty cs'), (bytes_of_empty post). }
  split; [|split; [done|split; [auto with evlib|done]]].
  change (buf_wf (set_total_len (total_len b) (set_chains (pre ++ c' :: cs') (length pre) b))).
  apply wf_contents; try done.
  - pose proof (bw_chains _ Hb) as W. rewrite Hc in W. apply Forall_app in W as [Wpre _]. by apply Forall_app.
  - apply lwd_at; [|done]. by rewrite Ho'.
  - by rewrite B, (bw_total _ Hb).
  - apply Hb.
Qed.

(** Appending a chain for what is missing behind the usable chains. *)
Lemma fast_append_ok b pre c' cs' datlen avail n :
  same_content b (set_chains (pre ++ c' :: cs') (length pre) b) →
  (pre ≠ [] → off c' ≠ 0) → Forall empty_chain cs' → 0 <= avail < datlen → datlen <= EV_SSIZE_MAX →
  let usable := if CHAIN_SPACE_LEN c' =? 0 then cs' else c' :: cs' in
  (length usable < n)%nat → avail = spaces usable →
  expand_fast_spec b datlen n
    match evbuffer_chain_new (u64 (datlen - avail)) with
    | None => Some (set_chains (pre ++ c' :: cs') (length pre) b, -1)
    | Some tmp => Some (set_chains ((pre ++ c' :: cs') ++ [tmp]) (length pre) b, 0)
    end.
Proof.
  intros Hsame Hp He' Ha Hmax usable Hlen Hav. pose proof Hsame as (Wb & Bb & Qb & Na & Nd).
  rewrite u64_small by (unfold EV_SSIZE_MAX in *; lia).
  destruct (evbuffer_chain_new (datlen - avail)) as [tmp|] eqn:En.
  2:{ apply chain_new_None in En; [|lia]. eexists _, (-1). split; [done|]. split; [done|].
      right. split; [done|]. exists (datlen - avail). split; [lia|done]. }
  apply chain_new_spec in En as (Wt & Hot & Hmt & Hszt & Hft & _); [|lia].
  eexists _, 0. split; [done|].
  assert (HB : bytes_of ((pre ++ c' :: cs') ++ [tmp]) = bytes b).
  { rewrite bytes_of_app, bytes_of_cons, chain_data_empty, app_nil_r by done. exact Bb. }
  split.
  - split; [|split; [done|split; [auto with evlib|done]]].
    change (buf_wf (set_total_len (total_len b)
      (set_chains ((pre ++ c' :: cs') ++ [tmp]) (length pre) (set_chains (pre ++ c' :: cs') (length pre) b)))).
    destruct (Wb) as [W L T M _ _]. simpl in *. apply wf_contents; try done.
    + apply Forall_app. split; [exact W|by constructor].
    + rewrite <- app_assoc. apply lwd_at; [done|]. apply Forall_app. split; [done|by constructor].
    + by rewrite HB, T, Bb.
  - left. split; [done|]. unfold room, usable_chains. simpl.
    rewrite <- app_assoc. simpl app. rewrite drop_middle.
    assert (CHAIN_SPACE_LEN tmp = buffer_len tmp) as Hsp
      by (rewrite chain_space, Hft, Hot, Hmt by done; change (has 0 EVBUFFER_IMMUTABLE) with false; cbn iota; lia).
    replace (if CHAIN_SPACE_LEN c' =? 0 then cs' ++ [tmp] else c' :: cs' ++ [tmp])
      with (usable ++ [tmp]) by (subst usable; by case_match).
    rewrite take_ge by (rewrite length_app; simpl; lia). rewrite spaces_app. simpl. lia.
Qed.

(** All chains were empty and are gone. *)
Lemma fast_restart_ok b b1 datlen n :
  buf_wf b → total_len b = 0 → quiet b b1 → n_add_for_cb b1 = n_add_for_cb b →
  n_del_for_cb b1 = n_del_for_cb b → total_len b1 = total_len b → 0 < datlen → (2 <= n)%nat →
  expand_fast_spec b datlen n
    match evbuffer_chain_new datlen with
    | None => Some (ZERO_CHAIN b1, -1)
    | Some tmp => Some (set_chains [tmp] 0 b1, 0)
    end.
Proof.
  intros Hb Ht0 Q1 Na Nd Ht1 Hd Hn. pose proof (bytes_total_0 _ Hb Ht0) as HB0.
  assert (Hwf : ∀ cs, Forall chain_wf cs → bytes_of cs = [] → lwd_ok cs 0 →
    buf_wf (set_total_len 0 (set_chains cs 0 b1))).
  { intros cs W B L. constructor; simpl; try done.
    - change (0 = zlen (bytes_of cs)). by rewrite B.
    - rewrite Na. apply Hb.
    - rewrite Nd. apply Hb. }
  destruct (evbuffer_chain_new datlen) as [tmp|] eqn:En.
  2:{ apply chain_new_None in En; [|lia]. eexists _, (-1). split; [done|]. split.
      - split; [by apply Hwf; constructor|]. split; [by rewrite HB0|].
        split; [unfold ZERO_CHAIN; auto with evlib|done].
      - right. split; [done|]. exists datlen. split; [lia|done]. }
  apply chain_new_spec in En as (Wt & Hot & Hmt & Hszt & Hft & _); [|lia].
  assert (bytes_of [tmp] = []) as Hbt by (rewrite bytes_of_cons, chain_data_empty; done).
  eexists _, 0. split; [done|]. split.
  - split; [|split; [by rewrite HB0|split; [auto with evlib|done]]].
    assert (set_chains [tmp] 0 b1 = set_total_len 0 (set_chains [tmp] 0 b1)) as ->
      by (unfold set_chains, set_total_len; simpl; f_equal; congruence).
    apply Hwf; [by constructor|done|by apply (lwd_at [])].
  - left. split; [done|].
    assert (CHAIN_SPACE_LEN tmp = buffer_len tmp) as Hsp
      by (rewrite chain_space, Hft, Hot, Hmt by done; change (has 0 EVBUFFER_IMMUTABLE) with false; cbn iota; lia).
    rewrite (room_fresh n _ [] tmp); simpl; try done; try lia. by constructor.
Qed.

Lemma expand_fast_ok b datlen n :
  buf_wf b → 0 < datlen <= EV_SSIZE_MAX → (2 <= n)%nat →
  expand_fast_spec b datlen n (evbuffer_expand_fast_ b datlen n).
Proof.
  intros Hb Hd Hn. unfold evbuffer_expand_fast_.
  rewrite (bool_decide_eq_true_2 (2 <= n)%nat Hn). cbn [assert_ mbind option_bind].
  pose proof (expand_fast_fresh_ok b datlen n Hb (proj1 Hd) Hn) as Hfresh.
  destruct (last (chains b)) as [lst|] eqn:Hlast; [|done].
  destruct (has (ch_flags lst) EVBUFFER_IMMUTABLE); [done|]. clear Hfresh.
  destruct (wf_cases _ Hb) as [[Hc Hl]|(pre & c & post & Hc & Hl & Hp & He & Wpre & Wc & Wpost)];
    [by rewrite Hc in Hlast|].
  rewrite Hc, Hl, drop_middle, take_middle.
  destruct (expand_fast_loop_ok c post datlen n) as (c' & cs' & r & -> & W' & E' & O' & D' & Hfull & Hr);
    [by constructor|done|done|done|].
  cbn [mbind option_bind].
  pose proof (set_tail_ok b pre c post c' cs' Hb Hc Hl He Hp W' E' O' D') as Hsame.
  assert (Hp' : pre ≠ [] → off c' ≠ 0) by (by rewrite O').
  destruct r as [[]|[[used avail] ran_off]].
  { eexists _, 0. split; [done|]. split; [done|]. left. split; [done|].
    unfold room, usable_chains. simpl. rewrite drop_middle. exact Hr. }
  destruct Hr as [Ha Hran]. case_bool_decide as Hu.
  { destruct ran_off; [|lia]. destruct Hran as (_ & Hlen & Hav). cbn [assert_ mbind option_bind].
    simpl chains. apply (fast_append_ok b pre c' cs' datlen avail n); try done; lia. }
  destruct ran_off; [lia|]. simpl chains. rewrite lookup_middle. cbn [mbind option_bind].
  apply Forall_cons in W' as [Wc' Wcs'].
  destruct (Z.eqb_spec (off c') 0) as [Ho|Ho].
  - assert (pre = []) as -> by (destruct pre; [done|exfalso; by apply Hp']).
    assert (total_len b = 0) as Ht0.
    { rewrite (bw_total _ Hb). unfold bytes. rewrite Hc. rewrite bytes_of_empty; [done|].
      constructor; [unfold empty_chain; congruence|done]. }
    cbn [length drop take app implb].
    rewrite bool_decide_true by done. cbn [assert_ mbind option_bind].
    rewrite all_empty_ok by (by constructor). cbn [assert_ mbind option_bind].
    destruct (free_all_ok (c' :: cs')) as [o ->]; [by constructor|]. cbn [mbind option_bind].
    rewrite (proj2 (Z.leb_le 0 datlen)) by lia. cbn [assert_ mbind option_bind].
    rewrite Z.sub_0_r, u64_small by (unfold EV_SSIZE_MAX in *; lia).
    apply (fast_restart_ok b (set_chains (c' :: cs') 0 b)); auto with evlib lia.
  - simpl implb. cbn [assert_ mbind option_bind].
    rewrite drop_middle_S, take_middle_S, all_empty_ok by done. cbn [assert_ mbind option_bind].
    destruct (free_all_ok cs' Wcs') as [o ->]. cbn [mbind option_bind].
    destruct Hfull as [Hsp|?]; [congruence| |done].
    rewrite (proj2 (Z.leb_le _ _)) by lia. cbn [assert_ mbind option_bind].
    pose proof (chain_space_le _ Wc'). 
    apply (fast_append_ok b pre c' [] datlen (CHAIN_SPACE_LEN c') n); try done; try lia.
    + apply (set_tail_ok b pre c post c' []); try done. by constructor.
    + case_match; simpl; lia.
    + destruct (Z.eqb_spec (CHAIN_SPACE_LEN c') 0); simpl; lia.
Qed.
End expand_fast.

(** * Committing *)

Definition vec_data (v : iovec) : list Z := let '(_, _, data) := v in data.
Definition vecs_data (vecs : list iovec) : list Z := mjoin (vec_data <$> vecs).

(** Appending what fits, [ [] ] to a foreign chain included. *)
Lemma chain_append_space c data :
  chain_wf c → zlen data <= CHAIN_SPACE_LEN c →
  ∃ c', chain_append c data = Some c' ∧ chain_wf c' ∧
    chain_data c' = chain_data c ++ data ∧ off c' = off c + zlen data.
Proof.
  intros Wc Hd. rewrite chain_space in Hd by done.
  destruct (has (ch_flags c) EVBUFFER_IMMUTABLE) eqn:Hi.
  - pose proof (zlen_nonneg data). assert (data = []) as -> by (apply zlen_nil_inv; lia).
    pose proof (cw_mis _ Wc). pose proof (cw_off _ Wc). pose proof (cw_fit _ Wc). pose proof (cw_len _ Wc).
    unfold chain_append. rewrite memcpy_at_nil by lia. cbn [mbind option_bind].
    change (zlen (@nil Z)) with 0. rewrite Z.add_0_r, app_nil_r.
    exists c. split; [by destruct c|auto].
  - destruct (chain_append_ok c data Wc Hi Hd) as (c' & ? & ? & ? & ? & _). eauto 10.
Qed.

Lemma commit_check_agree b b' vecs : ∀ i,
  (∀ j, (i <= j)%nat → chains b !! j = chains b' !! j) → commit_check b vecs i = commit_check b' vecs i.
Proof.
  induction vecs as [|[[j o] data] vecs IH]; intros i Hag; [done|]. simpl.
  rewrite (Hag i) by lia. destruct (chains b' !! i); [|done].
  f_equal. apply IH. intros. apply Hag. lia.
Qed.

(** Pass 2 extends the chains that pass 1 approved. *)
Lemma commit_apply_ok vecs : ∀ b pre c post added,
  buf_wf (set_total_len (zlen (bytes b)) b) → chains b = pre ++ c :: post → Forall empty_chain post →
  commit_check b vecs (length pre) = true →
  zlen (bytes b) + zlen (vecs_data vecs) <= EV_SIZE_MAX →
  ∃ b', commit_apply b vecs (length pre) added = Some (b', added + zlen (vecs_data vecs)) ∧
    buf_wf (set_total_len (zlen (bytes b')) b') ∧ bytes b' = bytes b ++ vecs_data vecs ∧
    quiet b b' ∧ total_len b' = total_len b ∧
    n_add_for_cb b' = n_add_for_cb b ∧ n_del_for_cb b' = n_del_for_cb b.
Proof.
  induction vecs as [|[[j o] data] vecs IH]; intros b pre c post added Hb Hc He Hck Hmax.
  { exists b. simpl. change (zlen (vecs_data [])) with 0. change (vecs_data []) with (@nil Z).
    rewrite Z.add_0_r, app_nil_r. auto 10 with evlib. }
  simpl in Hck. rewrite Hc, lookup_middle in Hck.
  apply andb_true_iff in Hck as [Hck Hrest]. apply andb_true_iff in Hck as [_ Hsp]. apply Z.leb_le in Hsp.
  pose proof (bw_chains _ Hb) as Wall. simpl in Wall. rewrite Hc in Wall.
  apply Forall_app in Wall as [Wpre [Wc Wpost]%Forall_cons].
  destruct (chain_append_space c data Wc Hsp) as (c' & Ec & Wc' & Dc' & Oc').
  simpl commit_apply. rewrite Hc, lookup_middle. cbn [mbind option_bind].
  rewrite Ec. cbn [mbind option_bind]. rewrite insert_middle.
  set (l' := if negb (zlen data =? 0) then _ else _). set (b1 := set_chains (pre ++ c' :: post) l' b).
  change (vecs_data ((j, o, data) :: vecs)) with (data ++ vecs_data vecs) in *. rewrite zlen_app in *.
  assert (bytes b1 = bytes b ++ data) as B1.
  { unfold bytes, b1. simpl. rewrite Hc, !bytes_of_app, !bytes_of_cons, Dc', (bytes_of_empty post) by done.
    by rewrite !app_nil_r, <- app_assoc. }
  pose proof (zlen_nonneg data). pose proof (zlen_nonneg (vecs_data vecs)). pose proof (cw_off _ Wc).
  assert (Hl1 : lwd_ok (pre ++ c' :: post) l').
  { subst l'. pose proof (bw_lwd _ Hb) as Hl. simpl in Hl. rewrite Hc in Hl.
    destruct (Z.eqb_spec (zlen data) 0) as [Hz|Hz]; simpl negb; cbn iota.
    - apply lwd_ok_off with (pre ++ c :: post); [done|]. rewrite !fmap_app, !fmap_cons. do 2 f_equal. lia.
    - apply lwd_at; [|done]. lia. }
  assert (Hb1 : buf_wf (set_total_len (zlen (bytes b1)) b1)).
  { destruct Hb. constructor; simpl in *; try done.
    - by apply Forall_app; split; [|constructor].
    - rewrite B1, zlen_app. lia. }
  assert (Q1 : quiet b b1) by (unfold b1; auto with evlib).
  destruct post as [|d post].
  - destruct vecs as [|[[j2 o2] d2] vecs].
    2:{ exfalso. simpl in Hrest. rewrite Hc in Hrest.
        replace ((pre ++ [c]) !! S (length pre)) with (@None chain) in Hrest; [done|].
        symmetry. apply lookup_ge_None_2. rewrite length_app. simpl. lia. }
    exists b1. simpl. change (vecs_data []) with (@nil Z). change (zlen (@nil Z)) with 0.
    rewrite app_nil_r, Z.add_0_r. auto 10.
  - apply Forall_cons in He as [Hed Hepost].
    destruct (IH b1 (pre ++ [c']) d post (added + zlen data)) as (b' & E & W' & B' & Q' & T' & A' & N').
    + done.
    + simpl. by rewrite <- app_assoc.
    + done.
    + rewrite length_app, Nat.add_1_r. rewrite <- Hrest. symmetry. apply commit_check_agree.
      intros k Hk. simpl. rewrite Hc, !lookup_app_r by lia.
      destruct (k - length pre)%nat eqn:Ek; [lia|done].
    + rewrite B1, zlen_app. lia.
    + exists b'. rewrite length_app, Nat.add_1_r in E. rewrite E.
      split; [do 2 f_equal; lia|]. split; [done|]. split; [by rewrite B', B1, <- app_assoc|].
      split; [eauto using quiet_trans|]. simpl in *. auto.
Qed.

(** [evbuffer_commit_space] makes exactly the written bytes part of the queue;
    a vector that does not describe reserved space is refused. *)
Definition commit_spec (b : evbuffer) (vecs : list iovec) (r : option (evbuffer * Z)) : Prop :=
  ∃ b' rc, r = Some (b', rc) ∧ buf_wf b' ∧
    (rc = 0 ∧ bytes b' = bytes b ++ vecs_data vecs ∧
       (vecs = [] ∧ b' = b ∨ notified b (zlen (vecs_data vecs)) 0 b') ∨
     rc = -1 ∧ b' = b).

Lemma commit_okay_ok b b1 vecs :
  buf_wf b → buf_wf (set_total_len (zlen (bytes b1)) b1) → bytes b1 = bytes b ++ vecs_data vecs →
  quiet b b1 → total_len b1 = total_len b → n_add_for_cb b1 = n_add_for_cb b →
  n_del_for_cb b1 = n_del_for_cb b → zlen (bytes b1) <= EV_SIZE_MAX →
  commit_spec b vecs (Some (commit_okay b1 (zlen (vecs_data vecs)))).
Proof.
  intros Hb Hb1 B1 Q1 T1 A1 N1 Hmax. unfold commit_okay.
  pose proof (zlen_nonneg (bytes b1)). pose proof (bw_total _ Hb).
  assert (total_len b1 + zlen (vecs_data vecs) = zlen (bytes b1)) as Htot by (rewrite B1, zlen_app; lia).
  eexists _, 0. split; [done|]. split.
  - apply wf_invoke. destruct Hb1. constructor; simpl in *; try done.
    + change (bytes (grew _ b1)) with (bytes b1). rewrite Htot. apply u64_small. unfold EV_SIZE_MAX in *. lia.
    + rewrite Htot, u64_small; unfold EV_SIZE_MAX in *; lia.
    + apply u64_range.
  - left. split; [done|]. rewrite bytes_invoke. split; [done|]. right. eexists. split; [done|].
    split; [auto with evlib|]. simpl. rewrite A1, N1, Z.add_0_r. split; [done|].
    symmetry. apply u64_small, Hb.
Qed.

Lemma wf_total_id b : buf_wf b → buf_wf (set_total_len (zlen (bytes b)) b).
Proof. intros []. constructor; simpl; try done. lia. Qed.

(** The fast path: one vector, in the last chain. *)
Lemma commit_last_ok b pre l i o data :
  buf_wf b → chains b = pre ++ [l] → zlen data <= CHAIN_SPACE_LEN l →
  total_len b + zlen data <= EV_SIZE_MAX →
  commit_spec b [(i, o, data)]
    (l ← chain_append l data;
     let b := put_chain (length pre) l b in
     let b := if negb (zlen data =? 0) then advance_last_with_data b else b in
     Some (commit_okay b (zlen data))).
Proof.
  intros Hb Hc Hsp Hmax. pose proof (bw_chains _ Hb) as Wall. rewrite Hc in Wall.
  apply Forall_app in Wall as [Wpre [Wl _]%Forall_cons].
  destruct (chain_append_space l data Wl Hsp) as (l' & -> & Wl' & Dl' & Ol'). cbn [mbind option_bind].
  assert (Hvd : vecs_data [(i, o, data)] = data) by apply app_nil_r.
  rewrite <- Hvd at 3.
  assert (Hput : chains (put_chain (length pre) l' b) = pre ++ [l'])
    by (simpl; by rewrite Hc, insert_middle).
  assert (HB : bytes_of (pre ++ [l']) = bytes b ++ data).
  { unfold bytes. rewrite Hc, !bytes_of_app, !bytes_of_cons, Dl', !app_nil_r. by rewrite app_assoc. }
  pose proof (bw_lwd _ Hb) as Hl. rewrite Hc in Hl.
  set (b1 := if negb (zlen data =? 0) then _ else _).
  assert (∃ k, b1 = set_chains (pre ++ [l']) k b ∧ lwd_ok (pre ++ [l']) k) as (k & -> & Hk).
  { subst b1. destruct (Z.eqb_spec (zlen data) 0) as [Hz|Hz]; simpl negb; cbn iota.
    - exists (last_with_datap b). split; [by unfold put_chain; rewrite Hc, insert_middle|].
      apply lwd_ok_off with (pre ++ [l]); [done|]. rewrite !fmap_app, !fmap_cons. do 2 f_equal. lia.
    - destruct (wf_cases _ Hb) as [[Hn _]|(p & c & post & Hc2 & Hl2 & Hp & _)]; [by rewrite Hn in Hc; destruct pre|].
      assert (∃ c' post', chains (put_chain (length pre) l' b) = p ++ c' :: post' ∧ (p ≠ [] → off c' ≠ 0))
        as (c' & post' & E & Hp').
      { rewrite Hput. rewrite Hc in Hc2.
        destruct (decide (post = [])) as [->|Hpost].
        - apply app_inj_tail in Hc2 as [-> <-]. exists l', []. split; [done|]. intros ?%Hp.
          pose proof (cw_off _ Wl). pose proof (zlen_nonneg data). lia.
        - destruct (exists_last Hpost) as (post0 & z & ->).
          rewrite app_comm_cons, app_assoc in Hc2. apply app_inj_tail in Hc2 as [-> <-].
          exists c, (post0 ++ [l']). split; [by rewrite <- app_assoc|done]. }
      destruct (advance_ok (put_chain (length pre) l' b) p c' post' E Hl2 Hp') as (k & -> & Hk).
      rewrite Hput in *. by exists k. }
  apply commit_okay_ok; try done.
  - change (buf_wf (set_total_len (zlen (bytes_of (pre ++ [l']))) (set_chains (pre ++ [l']) k b))).
    apply wf_contents; try done.
    + apply Forall_app. by split; [|constructor].
    + rewrite HB, zlen_app. rewrite <- (bw_total _ Hb). lia.
  - change (bytes_of (pre ++ [l']) = bytes b ++ vecs_data [(i, o, data)]). by rewrite Hvd.
  - change (zlen (bytes_of (pre ++ [l'])) <= EV_SIZE_MAX). rewrite HB, zlen_app, <- (bw_total _ Hb). lia.
Qed.

Lemma commit_ok b vecs :
  buf_wf b → total_len b + zlen (vecs_data vecs) <= EV_SIZE_MAX →
  commit_spec b vecs (evbuffer_commit_space b vecs).
Proof.
  intros Hb Hmax. unfold evbuffer_commit_space.
  assert (Hrefuse : commit_spec b vecs (Some (b, -1))) by (exists b, (-1); auto 10).
  destruct (freeze_end b); [done|].
  set (general := match chains b !! last_with_datap b with Some _ => _ | None => _ end).
  assert (Hgen : commit_spec b vecs general).
  { subst general. destruct (wf_cases _ Hb) as [[Hc Hl]|(pre & c & post & Hc & Hl & _ & He & _)].
    { by rewrite Hc, Hl. }
    assert (chains b !! last_with_datap b = Some c) as -> by (rewrite Hc, Hl; apply lookup_middle).
    set (first := if CHAIN_SPACE_LEN c =? 0 then _ else _).
    destruct (commit_check b vecs first) eqn:Hck; [|done].
    assert (∃ pre' c' post', chains b = pre' ++ c' :: post' ∧ Forall empty_chain post' ∧
      (vecs = [] ∨ first = length pre')) as (pre' & c' & post' & Hc' & He' & Hfirst).
    { subst first. destruct (CHAIN_SPACE_LEN c =? 0).
      - destruct post as [|d post].
        + exists pre, c, []. split; [done|]. split; [done|]. left.
          destruct vecs as [|[[j o] data] vecs]; [done|exfalso]. simpl in Hck. rewrite Hc, Hl in Hck.
          replace ((pre ++ [c]) !! S (length pre)) with (@None chain) in Hck; [done|].
          symmetry. apply lookup_ge_None_2. rewrite length_app. simpl. lia.
        + apply Forall_cons in He as [_ He]. exists (pre ++ [c]), d, post. rewrite <- app_assoc.
          split; [done|]. split; [done|]. right. rewrite Hl, length_app. simpl. lia.
      - exists pre, c, post. auto. }
    assert (∃ b1, commit_apply b vecs first 0 = Some (b1, 0 + zlen (vecs_data vecs)) ∧
      buf_wf (set_total_len (zlen (bytes b1)) b1) ∧ bytes b1 = bytes b ++ vecs_data vecs ∧
      quiet b b1 ∧ total_len b1 = total_len b ∧ n_add_for_cb b1 = n_add_for_cb b ∧
      n_del_for_cb b1 = n_del_for_cb b) as (b1 & -> & W1 & B1 & Q1 & T1 & A1 & N1).
    { pose proof (wf_total_id _ Hb) as Hb'. rewrite (bw_total _ Hb) in Hmax.
      destruct Hfirst as [->| ->].
      - exists b. change (vecs_data []) with (@nil Z). change (zlen (@nil Z)) with 0.
        rewrite app_nil_r. auto 10 with evlib.
      - by apply (commit_apply_ok vecs b pre' c' post' 0). }
    cbn [mbind option_bind]. rewrite Z.add_0_l. apply commit_okay_ok; try done.
    rewrite B1, zlen_app, <- (bw_total _ Hb). lia. }
  clearbody general. destruct vecs as [|[[j o] data] [|v vecs]]; try done.
  { exists b, 0. split; [done|]. split; [done|]. left. rewrite app_nil_r. auto. }
  destruct (chains b !! (length (chains b) - 1)%nat) as [l|] eqn:Hl; [|done].
  destruct (chain_space_at b (j, o, data) (length (chains b) - 1) l); [|done].
  destruct (Z.ltb_spec (CHAIN_SPACE_LEN l) (zlen data)); [done|].
  assert (chains b ≠ []) as Hne by (intros E; by rewrite E in Hl).
  destruct (exists_last Hne) as (pre & z & E). rewrite E, length_app in *. simpl in *.
  replace (length pre + 1 - 1)%nat with (length pre) in * by lia. rewrite lookup_middle in Hl.
  injection Hl as ->. apply commit_last_ok; try done.
  change (vecs_data [(j, o, data)]) with (data ++ []) in Hmax. by rewrite app_nil_r in Hmax.
Qed.
