(* ===== verification/EvbufferSearch.v ===== *)
(** * Positions, searching and lines in a byte queue

    The second half of the interface of [buffer.c]: moving a position, searching
    for a byte, a string or the end of a line, and taking a line off the front.
    The code walks the chains; here each search is shown to be the search of the
    flat content, whatever the chains: [search_range_ok], [search_eol_ok],
    [readln_ok]. *)
From S2P Require Import Prelude Lines EvbufferDefs Evbuffer EvbufferOps EvbufferPullup.

(** * Searching memory *)

Definition CHUNK_SZ : Z := 128.

Fixpoint find_eol_loop (fuel : nat) (s : list Z) (at_ : Z) : option Z :=
  match fuel with
  | O => None
  | S fuel =>
      if 0 <? zlen s then
        let chunk := if CHUNK_SZ <? zlen s then CHUNK_SZ else zlen s in
        match memchr (ztake chunk s) 13, memchr (ztake chunk s) 10 with
        | Some cr, Some lf => Some (at_ + if lf <? cr then lf else cr)
        | Some cr, None => Some (at_ + cr)
        | None, Some lf => Some (at_ + lf)
        | None, None => find_eol_loop fuel (zdrop CHUNK_SZ s) (at_ + CHUNK_SZ)
        end
      else None
  end.
(** Every round drops at least one byte. *)
Definition find_eol_char (s : list Z) : option Z := find_eol_loop (S (length s)) s 0.

(** * Positions *)

Inductive evbuffer_ptr_how := EVBUFFER_PTR_SET | EVBUFFER_PTR_ADD.
Definition PTR_NOT_FOUND : evbuffer_ptr := EvPtr (-1) None 0.

(** The position at the start of the buffer; chain [k] or [NULL]; the chains from
    a position on. *)
Definition chain_at (b : evbuffer) (k : nat) : option nat := (λ _, k) <$> chains b !! k.
Definition ptr_start (b : evbuffer) : evbuffer_ptr := EvPtr 0 (chain_at b 0) 0.
Definition chains_from (b : evbuffer) (p : evbuffer_ptr) : list chain :=
  match ptr_chain p with Some i => drop i (chains b) | None => [] end.

(** The bytes of a chain from offset [i]. *)
Definition rest_of (c : chain) (i : Z) : option (list Z) :=
  mem_read (buffer c) (misalign c + i) (u64 (off c - i)).

(** The walk of [evbuffer_strchr] and [evbuffer_find_eol_char]; [k] is the index
    of the first chain of [cs]. *)
Fixpoint walk (find : list Z → option Z) (cs : list chain) (k : nat) (i pos : Z)
  : option (option evbuffer_ptr) :=
  match cs with
  | [] => Some None
  | c :: cs =>
      s ← rest_of c i;
      match find s with
      | Some d => Some (Some (EvPtr (pos + d) (Some k) (i + d)))
      | None => walk find cs (S k) 0 (pos + u64 (off c - i))
      end
  end.

Definition walk_from (find : list Z → option Z) (b : evbuffer) (it : evbuffer_ptr)
  : option (option evbuffer_ptr) :=
  walk find (chains_from b it) (default O (ptr_chain it)) (pos_in_chain it) (pos it).
Definition evbuffer_strchr (b : evbuffer) (it : evbuffer_ptr) (chr : Z)
  : option (option evbuffer_ptr) := walk_from (λ s, memchr s chr) b it.
Definition evbuffer_find_eol_char (b : evbuffer) (it : evbuffer_ptr)
  : option (option evbuffer_ptr) := walk_from find_eol_char b it.

(** The chain where the span ends, the offset there, and its length. *)
Fixpoint strspn_loop (chrset : list Z) (cs : list chain) (k : nat) (i count : Z)
  : option (nat * Z * Z) :=
  match cs with
  | [] => None
  | c :: cs' =>
      s ← rest_of c i;
      let n := span chrset s in
      if n <? zlen s then Some (k, i + n, count + n)
      else match cs' with
           | [] => Some (k, 0, count + n)
           | _ :: _ => strspn_loop chrset cs' (S k) 0 (count + n)
           end
  end.
Definition evbuffer_strspn (b : evbuffer) (ptr : evbuffer_ptr) (chrset : list Z)
  : option (evbuffer_ptr * Z) :=
  match ptr_chain ptr with
  | None => Some (ptr, 0)
  | Some k0 =>
      '(k, i, count) ← strspn_loop chrset (drop k0 (chains b)) k0 (pos_in_chain ptr) 0;
      Some (EvPtr (pos ptr + count) (Some k) i, count)
  end.

Definition evbuffer_getchr (b : evbuffer) (it : evbuffer_ptr) : option Z :=
  match ptr_chain it with
  | None => Some (-1)
  | Some k => c ← chains b !! k; zget (buffer c) (misalign c + pos_in_chain it)
  end.

(** The loop of [evbuffer_ptr_set]: chain reached, offset in it, bytes left. *)
Fixpoint ptr_set_loop (cs : list chain) (k : nat) (position rem : Z) : option nat * Z * Z :=
  match cs with
  | [] => (None, position, rem)
  | c :: cs =>
      if off c <=? u64 (position + rem)
      then ptr_set_loop cs (S k) 0 (u64 (rem - u64 (off c - position)))
      else (Some k, position, rem)
  end.

(** The new position and the result code. *)
Definition evbuffer_ptr_set (b : evbuffer) (p : evbuffer_ptr) (position : Z)
    (how : evbuffer_ptr_how) : option (evbuffer_ptr * Z) :=
  let go chain (position' pos' : Z) :=
    _ ← assert_ (position' <=? EV_SIZE_MAX - position);
    let '(chain, position, rem) :=
      ptr_set_loop (match chain with Some k => drop k (chains b) | None => [] end)
        (default O chain) position' position in
    match chain with
    | Some k => Some (EvPtr pos' (Some k) (position + rem), 0)
    | None => if rem =? 0 then Some (EvPtr pos' None 0, 0) else Some (PTR_NOT_FOUND, -1)
    end in
  match how with
  | EVBUFFER_PTR_SET => go (chain_at b 0) 0 (i64 position)
  | EVBUFFER_PTR_ADD =>
      if (pos p <? 0) || (EV_SIZE_MAX - position <? pos p) then Some (p, -1)
      else go (ptr_chain p) (pos_in_chain p) (i64 (pos p + position))
  end.

Definition evbuffer_ptr_subtract (b : evbuffer) (p : evbuffer_ptr) (howfar : Z)
  : option (evbuffer_ptr * Z) :=
  if pos p <? 0 then Some (p, -1)
  else if pos p <? howfar then Some (p, -1)
  else match ptr_chain p with
       | Some k =>
           if howfar <=? pos_in_chain p
           then Some (EvPtr (pos p - howfar) (Some k) (pos_in_chain p - howfar), 0)
           else evbuffer_ptr_set b p (pos p - howfar) EVBUFFER_PTR_SET
       | None => evbuffer_ptr_set b p (pos p - howfar) EVBUFFER_PTR_SET
       end.

(** * Searching for a string *)

Fixpoint ptr_memcmp_loop (cs : list chain) (mem : list Z) (position : Z) : option Z :=
  match cs with
  | [] => Some 0
  | c :: cs =>
      let len := zlen mem in
      if len =? 0 then Some 0
      else
        let n_comparable := if off c <? len + position then off c - position else len in
        s ← mem_read (buffer c) (misalign c + position) n_comparable;
        let r := memcmp s (ztake n_comparable mem) in
        if negb (r =? 0) then Some r else ptr_memcmp_loop cs (zdrop n_comparable mem) 0
  end.
Definition evbuffer_ptr_memcmp (b : evbuffer) (p : evbuffer_ptr) (mem : list Z) : option Z :=
  let len := zlen mem in
  if (pos p <? 0) || (EV_SIZE_MAX - len <? pos p) || (total_len b <? pos p + len) then Some (-1)
  else ptr_memcmp_loop (chains_from b p) mem (pos_in_chain p).

(** One step of the position: [++pos.pos; ++pos.internal_.pos_in_chain], then to
    the next chain at the end of this one. *)
Definition next_byte (b : evbuffer) (k : nat) (c : chain) (p : evbuffer_ptr) : evbuffer_ptr :=
  if pos_in_chain p + 1 =? off c then EvPtr (pos p + 1) (chain_at b (S k)) 0
  else EvPtr (pos p + 1) (Some k) (pos_in_chain p + 1).

Fixpoint search_loop (fuel : nat) (b : evbuffer) (what : list Z) (first : Z)
    (end_ : option evbuffer_ptr) (p : evbuffer_ptr) : option evbuffer_ptr :=
  match fuel with
  | O => None
  | S fuel =>
      match ptr_chain p with
      | None => Some PTR_NOT_FOUND
      | Some k =>
          c ← chains b !! k;
          s ← rest_of c (pos_in_chain p);
          match memchr s first with
          | Some d =>
              let p := EvPtr (pos p + d) (Some k) (pos_in_chain p + d) in
              r ← evbuffer_ptr_memcmp b p what;
              if r =? 0 then
                match end_ with
                | Some e => if pos e <? pos p + zlen what then Some PTR_NOT_FOUND else Some p
                | None => Some p
                end
              else search_loop fuel b what first end_ (next_byte b k c p)
          | None =>
              if bool_decide (Some k = (end_ ≫= ptr_chain)) then Some PTR_NOT_FOUND
              else search_loop fuel b what first end_
                     (EvPtr (pos p + u64 (off c - pos_in_chain p)) (chain_at b (S k)) 0)
          end
      end
  end.

(** Every round of the loop passes a byte or a chain. *)
Definition search_fuel (b : evbuffer) : nat := S (length (chains b) + length (bytes b)).

Definition evbuffer_search_range (b : evbuffer) (what : list Z)
    (start end_ : option evbuffer_ptr) : option evbuffer_ptr :=
  let p := default (ptr_start b) start in
  match what with
  | [] => Some p
  | first :: _ =>
      if EV_SSIZE_MAX <? zlen what then Some p
      else search_loop (search_fuel b) b what first end_ p
  end.
Definition evbuffer_search (b : evbuffer) (what : list Z) (start : option evbuffer_ptr)
  : option evbuffer_ptr := evbuffer_search_range b what start None.

(** [Some d]: the match is [d] bytes into the memory returned by
    [evbuffer_pullup]. *)
Definition evbuffer_find {MM : Malloc} (b : evbuffer) (what : list Z)
  : option (evbuffer * option (list Z)) :=
  p ← evbuffer_search b what None;
  if pos p <? 0 then Some (b, None)
  else
    '(b, search) ← evbuffer_pullup b (pos p + zlen what);
    Some (b, match search with Some search => Some (zdrop (pos p) search) | None => None end).

(** * Lines *)

(** Position of the end of the line and length of its terminator. *)
Definition evbuffer_search_eol (b : evbuffer) (start : option evbuffer_ptr)
    (eol_style : evbuffer_eol_style) : option (evbuffer_ptr * Z) :=
  if (match start with Some p => negb (bool_decide (is_Some (ptr_chain p))) | None => false end)
  then Some (PTR_NOT_FOUND, 0)
  else
    let it := default (ptr_start b) start in
    match eol_style with
    | EVBUFFER_EOL_ANY =>
        r ← evbuffer_find_eol_char b it;
        match r with
        | None => Some (PTR_NOT_FOUND, 0)
        | Some it =>
            '(_, extra_drain) ← evbuffer_strspn b it [13; 10];
            Some (it, extra_drain)
        end
    | EVBUFFER_EOL_CRLF_STRICT =>
        it ← evbuffer_search b [13; 10] (Some it);
        if pos it <? 0 then Some (PTR_NOT_FOUND, 0) else Some (it, 2)
    | EVBUFFER_EOL_CRLF =>
        let start_pos := pos it in
        r ← evbuffer_strchr b it 10;
        match r with
        | None => Some (PTR_NOT_FOUND, 0)
        | Some it =>
            if pos it =? start_pos then Some (it, 1)
            else
              '(it2, rc) ← evbuffer_ptr_subtract b it 1;
              if rc <? 0 then Some (it, 1)
              else
                ch ← evbuffer_getchr b it2;
                if ch =? 13 then Some (it2, 2) else Some (it, 1)
        end
    | EVBUFFER_EOL_LF =>
        r ← evbuffer_strchr b it 10;
        match r with None => Some (PTR_NOT_FOUND, 0) | Some it => Some (it, 1) end
    | EVBUFFER_EOL_NUL =>
        r ← evbuffer_strchr b it 0;
        match r with None => Some (PTR_NOT_FOUND, 0) | Some it => Some (it, 1) end
    end.

(** The block returned (the line and a zero), and [*n_read_out]. *)
Definition evbuffer_readln {MM : Malloc} (b : evbuffer) (eol_style : evbuffer_eol_style)
  : option (evbuffer * option (list Z) * Z) :=
  if freeze_start b then Some (b, None, 0)
  else
    '(it, extra_drain) ← evbuffer_search_eol b None eol_style;
    if pos it <? 0 then Some (b, None, 0)
    else
      let n_to_copy := pos it in
      match mm_malloc (n_to_copy + 1) with
      | None => Some (b, None, 0)
      | Some line =>
          '(b, data, _) ← evbuffer_remove b n_to_copy;
          line ← memcpy_at line 0 data;
          line ← memcpy_at line n_to_copy [0];
          '(b, _) ← evbuffer_drain b extra_drain;
          Some (b, Some line, n_to_copy)
      end.
Definition evbuffer_readline {MM : Malloc} (b : evbuffer) : option (evbuffer * option (list Z)) :=
  '(b, line, _) ← evbuffer_readln b EVBUFFER_EOL_ANY; Some (b, line).

(** Searching by chunks of 128 bytes finds what a search byte by byte finds. *)
Lemma find_eol_char_ok s : find_eol_char s = find_first (in_set [13; 10]) s.
Proof.
  unfold find_eol_char.
  assert (∀ fuel s i, (length s < fuel)%nat →
    find_eol_loop fuel s i = Z.add i <$> find_first (in_set [13; 10]) s) as H.
  { clear s. induction fuel as [|fuel IH]; intros s i Hf; [lia|]. simpl find_eol_loop.
    destruct (Z.ltb_spec 0 (zlen s)) as [Hs|Hs].
    2:{ assert (zlen s = 0) as ->%zlen_nil_inv by (pose proof (zlen_nonneg s); lia). done. }
    set (chunk := if CHUNK_SZ <? zlen s then CHUNK_SZ else zlen s).
    assert (chunk = Z.min CHUNK_SZ (zlen s)) as Hc by (subst chunk; zcase; lia).
    clearbody chunk.
    replace (find_first (in_set [13; 10]) s)
      with (find_first (in_set [13; 10]) (ztake chunk s ++ zdrop chunk s)) by (by rewrite ztake_zdrop).
    rewrite find_first_app.
    rewrite (find_first_ext (in_set [13; 10]) (λ x, (x =? 13) || (x =? 10)) (ztake chunk s))
      by (intros x; simpl; by rewrite orb_false_r).
    rewrite find_first_or. fold (memchr (ztake chunk s) 13) (memchr (ztake chunk s) 10).
    destruct (memchr (ztake chunk s) 13), (memchr (ztake chunk s) 10); simpl; try done.
    rewrite IH by (unfold zdrop; rewrite length_drop; unfold CHUNK_SZ, zlen in *; lia).
    destruct (Z.le_gt_cases (zlen s) CHUNK_SZ).
    - rewrite Hc, Z.min_r, !zdrop_all by lia. done.
    - rewrite Hc, Z.min_l by lia. rewrite zlen_ztake by (unfold CHUNK_SZ in *; lia).
      destruct (find_first _ _); simpl; [f_equal; lia|done]. }
  rewrite H by lia. destruct (find_first _ s); simpl; [f_equal; lia|done].
Qed.

(** * Walking the chains *)

(** A position at a byte of the buffer. *)
Definition ptr_at (b : evbuffer) (p : evbuffer_ptr) : Prop :=
  ∃ i c, ptr_chain p = Some i ∧ chains b !! i = Some c ∧ 0 <= pos_in_chain p < off c ∧
    pos p = zlen (bytes_of (take i (chains b))) + pos_in_chain p.

Lemma ptr_at_ok b p : buf_wf b → ptr_at b p → ptr_ok b p ∧ pos p < total_len b.
Proof.
  intros W (i&c&E&Hc&Hp&Hpos). pose proof (bw_chains _ W) as Wcs.
  assert (Wc : chain_wf c) by by eapply Forall_lookup_1.
  pose proof (bytes_of_lookup _ _ _ Hc) as B. fold (bytes b) in B.
  pose proof (bw_total _ W) as T. rewrite B, !zlen_app, chain_data_len in T by done.
  pose proof (zlen_nonneg (bytes_of (drop (S i) (chains b)))).
  pose proof (zlen_nonneg (bytes_of (take i (chains b)))).
  split; [|lia]. split; [lia|]. rewrite E. exists c. split_and!; auto; lia.
Qed.

Lemma ptr_start_ok b : buf_wf b → ptr_ok b (ptr_start b).
Proof.
  intros W. pose proof (wf_nonneg _ W). split; [simpl; lia|]. simpl. unfold chain_at.
  destruct (chains b !! 0%nat) as [c|] eqn:E; simpl.
  - exists c. split; [done|]. change (zlen (bytes_of (take 0 (chains b)))) with 0.
    assert (chain_wf c) as Wc by (eapply Forall_lookup_1; [apply W|done]).
    pose proof (cw_off _ Wc). lia.
  - destruct (chains b) eqn:E'; [|done]. rewrite (bw_total _ W). unfold bytes. by rewrite E'.
Qed.

(** What lies after a position. *)
Lemma chains_from_ok b p :
  buf_wf b → ptr_ok b p →
  Forall chain_wf (chains_from b p) ∧
  zdrop (pos_in_chain p) (bytes_of (chains_from b p)) = zdrop (pos p) (bytes b) ∧
  (∀ c cs, chains_from b p = c :: cs → 0 <= pos_in_chain p <= off c).
Proof.
  intros W [Hp Hq]. unfold chains_from. destruct (ptr_chain p) as [i|].
  - destruct Hq as (c&Hc&Hpc&Hpe). split; [apply Forall_drop, W|]. split.
    + unfold bytes. rewrite (bytes_of_split i (chains b)), zdrop_app_ge by lia. f_equal. lia.
    + intros c' cs E. rewrite (drop_S _ _ _ Hc) in E. by injection E as <- _.
  - split; [constructor|]. split; [|done]. rewrite Hq, (bw_total _ W), (zdrop_all (zlen (bytes b))) by lia.
    unfold zdrop. apply drop_nil.
Qed.

Lemma rest_of_ok c i : chain_wf c → 0 <= i <= off c → rest_of c i = Some (zdrop i (chain_data c)).
Proof.
  intros W Hi. unfold rest_of. pose proof (chain_data_len _ W).
  pose proof (cw_fit _ W). pose proof (cw_max _ W). pose proof (cw_mis _ W).
  unfold EVBUFFER_CHAIN_MAX, EV_SSIZE_MAX, EVBUFFER_CHAIN_SIZE in *.
  rewrite u64_small by lia. rewrite mem_read_chain by (done || lia).
  by rewrite ztake_all by (rewrite zlen_zdrop; lia).
Qed.

Lemma off_sub c i : chain_wf c → 0 <= i <= off c → u64 (off c - i) = off c - i.
Proof.
  intros W Hi. pose proof (cw_fit _ W). pose proof (cw_max _ W). pose proof (cw_mis _ W).
  unfold EVBUFFER_CHAIN_MAX, EV_SSIZE_MAX, EVBUFFER_CHAIN_SIZE in *. apply u64_small. lia.
Qed.

Lemma head_off cs : Forall chain_wf cs → ∀ c cs', cs = c :: cs' → 0 <= 0 <= off c.
Proof. intros W c cs' ->. apply Forall_cons in W as [Wc _]. pose proof (cw_off _ Wc). lia. Qed.

Section walking.
Context (find : list Z → option Z) (P : Z → bool) (Hfind : ∀ s, find s = find_first P s).

Lemma walk_ok cs : ∀ k i pos,
  Forall chain_wf cs → (∀ c cs', cs = c :: cs' → 0 <= i <= off c) →
  match find_first P (zdrop i (bytes_of cs)) with
  | None => walk find cs k i pos = Some None
  | Some d => ∃ j c q,
      walk find cs k i pos = Some (Some (EvPtr (pos + d) (Some (k + j)%nat) q)) ∧
      cs !! j = Some c ∧ 0 <= q < off c ∧ i + d = zlen (bytes_of (take j cs)) + q
  end.
Proof.
  induction cs as [|c cs IH]; intros k i pos W Hi.
  { unfold zdrop. by rewrite bytes_of_nil, drop_nil. }
  apply Forall_cons in W as [Wc Wcs]. specialize (Hi _ _ eq_refl). simpl walk.
  rewrite rest_of_ok by done. cbn [mbind option_bind]. rewrite Hfind, off_sub by done.
  pose proof (chain_data_len _ Wc) as Hl.
  rewrite bytes_of_cons, zdrop_app_le by lia. rewrite find_first_app.
  destruct (find_first P (zdrop i (chain_data c))) as [d|] eqn:E.
  - apply find_first_range in E. rewrite zlen_zdrop in E by lia.
    exists O, c, (i + d). rewrite Nat.add_0_r. split; [done|]. split; [done|].
    change (zlen (bytes_of (take 0 (c :: cs)))) with 0. lia.
  - rewrite zlen_zdrop, Hl by lia.
    specialize (IH (S k) 0 (pos + (off c - i)) Wcs (head_off cs Wcs)). rewrite zdrop_0 in IH.
    destruct (find_first P (bytes_of cs)) as [d|]; simpl; [|done].
    destruct IH as (j&c'&q&->&Hc'&Hq&Hd). exists (S j), c', q.
    rewrite Nat.add_succ_r. split; [do 2 f_equal; f_equal; lia|]. split; [done|]. split; [done|].
    simpl take. rewrite bytes_of_cons, zlen_app, Hl. lia.
Qed.

Lemma walk_from_ok b p :
  buf_wf b → ptr_ok b p →
  match find_first P (zdrop (pos p) (bytes b)) with
  | None => walk_from find b p = Some None
  | Some d => ∃ q, walk_from find b p = Some (Some q) ∧ ptr_at b q ∧ pos q = pos p + d
  end.
Proof.
  intros W Hp. destruct (chains_from_ok b p W Hp) as (Wcs & B & Hi).
  pose proof (walk_ok (chains_from b p) (default O (ptr_chain p)) (pos_in_chain p) (pos p) Wcs Hi) as H.
  rewrite B in H. destruct (find_first P (zdrop (pos p) (bytes b))) as [d|]; [|done].
  destruct H as (j&c&q&E&Hc&Hq&Hd). exists (EvPtr (pos p + d) (Some (default O (ptr_chain p) + j)%nat) q).
  split; [done|]. split; [|done]. revert Hc Hd. unfold chains_from. destruct Hp as [_ Hp].
  destruct (ptr_chain p) as [i|]; [|done]. destruct Hp as (c0&Hc0&Hpc&Hpe). simpl.
  rewrite lookup_drop. intros Hc Hd. exists (i + j)%nat, c. split_and!; simpl; try done; try lia.
  rewrite <- (take_drop i (take (i + j) (chains b))), take_take, bytes_of_app, zlen_app.
  rewrite Nat.min_l by lia. rewrite skipn_firstn_comm.
  replace (i + j - i)%nat with j by lia. lia.
Qed.
End walking.

Lemma strchr_ok b p chr :
  buf_wf b → ptr_ok b p →
  match memchr (zdrop (pos p) (bytes b)) chr with
  | None => evbuffer_strchr b p chr = Some None
  | Some d => ∃ q, evbuffer_strchr b p chr = Some (Some q) ∧ ptr_at b q ∧ pos q = pos p + d
  end.
Proof. apply walk_from_ok. done. Qed.

Lemma strspn_loop_ok chrset cs : ∀ k i count,
  cs ≠ [] → Forall chain_wf cs → (∀ c cs', cs = c :: cs' → 0 <= i <= off c) →
  ∃ k' i', strspn_loop chrset cs k i count =
    Some (k', i', count + span chrset (zdrop i (bytes_of cs))).
Proof.
  assert (Hspan : ∀ s t, span chrset (s ++ t) =
    if span chrset s <? zlen s then span chrset s else zlen s + span chrset t).
  { induction s as [|x s IH]; intros t; [done|]. simpl. rewrite zlen_cons, IH.
    destruct (in_set chrset x).
    - repeat zcase; lia.
    - pose proof (zlen_nonneg s). zcase; lia. }
  induction cs as [|c cs IH]; intros k i count Hne W Hi; [done|].
  apply Forall_cons in W as [Wc Wcs]. specialize (Hi _ _ eq_refl). simpl strspn_loop.
  rewrite rest_of_ok by done. cbn [mbind option_bind].
  pose proof (chain_data_len _ Wc) as Hl.
  rewrite bytes_of_cons, zdrop_app_le by lia. rewrite Hspan.
  assert (span chrset (zdrop i (chain_data c)) <= zlen (zdrop i (chain_data c))) as Hle.
  { generalize (zdrop i (chain_data c)) as s. induction s as [|x s IHs]; [done|].
    simpl. rewrite zlen_cons. destruct (in_set chrset x); [lia|]. pose proof (zlen_nonneg s). lia. }
  zcase; [eauto|]. destruct cs as [|c' cs].
  - rewrite bytes_of_nil. simpl span at 2. do 2 eexists. do 2 f_equal. lia.
  - destruct (IH (S k) 0 (count + span chrset (zdrop i (chain_data c)))) as (k'&i'&->).
    + done.
    + done.
    + by apply head_off.
    + rewrite zdrop_0. do 2 eexists. do 2 f_equal. lia.
Qed.

Lemma strspn_ok b p chrset :
  buf_wf b → ptr_at b p →
  ∃ q, evbuffer_strspn b p chrset = Some (q, span chrset (zdrop (pos p) (bytes b))).
Proof.
  intros W Hp. destruct (ptr_at_ok b p W Hp) as [Hok _].
  destruct (chains_from_ok b p W Hok) as (Wcs & B & Hi).
  destruct Hp as (i&c&E&Hc&_). unfold evbuffer_strspn, chains_from in *. rewrite E in *.
  destruct (strspn_loop_ok chrset (drop i (chains b)) i (pos_in_chain p) 0) as (k'&i'&->).
  - rewrite (drop_S _ _ _ Hc). done.
  - done.
  - done.
  - rewrite B. cbn [mbind option_bind]. eauto.
Qed.

Lemma getchr_ok b p : buf_wf b → ptr_at b p → evbuffer_getchr b p = zget (bytes b) (pos p).
Proof.
  intros W (i&c&E&Hc&Hp&Hpos). unfold evbuffer_getchr. rewrite E, Hc. cbn [mbind option_bind].
  assert (Wc : chain_wf c) by (eapply Forall_lookup_1; [apply W|done]).
  pose proof (cw_fit _ Wc). pose proof (cw_len _ Wc). pose proof (cw_mis _ Wc).
  pose proof (chain_data_len _ Wc).
  unfold bytes. rewrite (bytes_of_lookup _ _ _ Hc), zget_app_r by lia.
  rewrite zget_app_l by lia. unfold chain_data.
  rewrite zget_ztake, zget_zdrop by lia. f_equal. lia.
Qed.

(** * Moving a position *)

Lemma ptr_set_loop_ok cs : ∀ k position rem,
  Forall chain_wf cs → 0 <= rem <= EV_SSIZE_MAX → zlen (bytes_of cs) <= EV_SSIZE_MAX →
  (∀ c cs', cs = c :: cs' → 0 <= position <= off c) → (cs = [] → position = 0) →
  match ptr_set_loop cs k position rem with
  | (Some k', position', rem') =>
      ∃ j c, k' = (k + j)%nat ∧ cs !! j = Some c ∧ 0 <= position' + rem' < off c ∧
        position + rem = zlen (bytes_of (take j cs)) + (position' + rem')
  | (None, _, rem') => 0 <= rem' ∧ position + rem = zlen (bytes_of cs) + rem'
  end.
Proof.
  induction cs as [|c cs IH]; intros k position rem W Hr Hmax Hp He.
  { simpl. rewrite He by done. change (zlen (bytes_of [])) with 0. lia. }
  apply Forall_cons in W as [Wc Wcs]. specialize (Hp _ _ eq_refl). simpl ptr_set_loop.
  pose proof (chain_data_len _ Wc) as Hl. pose proof (cw_off _ Wc).
  rewrite bytes_of_cons, zlen_app, Hl in Hmax.
  pose proof (zlen_nonneg (bytes_of cs)).
  rewrite off_sub by done. unfold EV_SSIZE_MAX in *. rewrite (u64_small (position + rem)) by lia.
  destruct (Z.leb_spec (off c) (position + rem)) as [Hle|Hgt].
  - rewrite u64_small by lia.
    assert (0 <= rem - (off c - position) <= 2 ^ 63 - 1) as Hr' by lia.
    assert (zlen (bytes_of cs) <= 2 ^ 63 - 1) as Hm' by lia.
    specialize (IH (S k) 0 _ Wcs Hr' Hm' (head_off cs Wcs) (λ _, eq_refl)).
    destruct (ptr_set_loop cs _ _ _) as [[[k'|] position'] rem'].
    + destruct IH as (j&c'&->&Hc'&Hq&Hd). exists (S j), c'. split; [lia|]. split; [done|].
      split; [done|]. simpl take. rewrite bytes_of_cons, zlen_app, Hl. lia.
    + rewrite bytes_of_cons, zlen_app, Hl. lia.
  - exists O, c. split; [lia|]. split; [done|]. change (zlen (bytes_of (take 0 (c :: cs)))) with 0. lia.
Qed.

(** The result of moving to [target]: a position there, or none. *)
Definition moved_to (b : evbuffer) (target : Z) (q : evbuffer_ptr) (rc : Z) : Prop :=
  if target <=? total_len b
  then rc = 0 ∧ ptr_ok b q ∧ pos q = target ∧ (target < total_len b → ptr_at b q)
  else rc = -1 ∧ q = PTR_NOT_FOUND.

(** What both ways of moving do after the checks: [n] bytes on from the offset
    [pic] of chain [chain]. *)
Lemma ptr_walk_ok b chain pic n target :
  buf_wf b → 0 <= n <= EV_SSIZE_MAX → total_len b <= EV_SSIZE_MAX →
  ptr_ok b (EvPtr (target - n) chain pic) → (chain = None → pic = 0) →
  ∃ q rc,
    (let '(chain, position, rem) :=
       ptr_set_loop (match chain with Some k => drop k (chains b) | None => [] end)
         (default O chain) pic n in
     match chain with
     | Some k => Some (EvPtr target (Some k) (position + rem), 0)
     | None => if rem =? 0 then Some (EvPtr target None 0, 0) else Some (PTR_NOT_FOUND, -1)
     end) = Some (q, rc) ∧ moved_to b target q rc.
Proof.
  intros W Hn Hmax Hp Hnone. pose proof (bw_total _ W) as T.
  destruct (chains_from_ok b _ W Hp) as (Wcs & B & Hi). unfold chains_from in *. simpl in *.
  set (cs := match chain with Some k => _ | None => _ end) in *.
  assert (zlen (bytes_of cs) - pic = total_len b - (target - n)) as Hlen.
  { destruct Hp as [_ Hp]. simpl in Hp. subst cs. destruct chain as [k|].
    - destruct Hp as (c&Hc&_&Hpe). unfold bytes in T. rewrite (bytes_of_split k), zlen_app in T. lia.
    - rewrite Hnone by done. change (zlen (bytes_of [])) with 0. lia. }
  assert (Hpos : 0 <= target - n <= total_len b) by apply Hp.
  assert (cs = [] → pic = 0) as He.
  { intros E. destruct chain as [k|]; [|auto]. destruct Hp as [_ (c&Hc&_)]. simpl in Hc.
    subst cs. rewrite (drop_S _ _ _ Hc) in E. done. }
  assert (zlen (bytes_of cs) <= EV_SSIZE_MAX) as Hcs.
  { subst cs. destruct chain as [k|]; [|done].
    unfold bytes in T. rewrite (bytes_of_split k), zlen_app in T.
    pose proof (zlen_nonneg (bytes_of (take k (chains b)))). lia. }
  pose proof (ptr_set_loop_ok cs (default O chain) pic n Wcs Hn Hcs Hi He) as H.
  destruct (ptr_set_loop cs _ _ _) as [[[k'|] position] rem].
  - destruct H as (j&c&->&Hc&Hq&Hd). do 2 eexists. split; [done|].
    destruct chain as [k|]; [|done]. subst cs. simpl in *. rewrite lookup_drop in Hc.
    destruct Hp as [_ (c0&Hc0&_&Hpe)]. simpl in *.
    assert (ptr_at b (EvPtr target (Some (k + j)%nat) (position + rem))) as Hat.
    { exists (k + j)%nat, c. split_and!; simpl; try done; try lia.
      rewrite <- (take_drop k (take (k + j) (chains b))), take_take, bytes_of_app, zlen_app.
      rewrite Nat.min_l by lia. rewrite skipn_firstn_comm.
      replace (k + j - k)%nat with j by lia. lia. }
    destruct (ptr_at_ok _ _ W Hat) as [Hok Hlt]. simpl in Hlt.
    unfold moved_to. destruct (Z.leb_spec target (total_len b)); [|lia]. done.
  - destruct H as [Hr Hd]. unfold moved_to.
    destruct (Z.eqb_spec rem 0); (destruct (Z.leb_spec target (total_len b)); [|]); try lia.
    + do 2 eexists. split; [done|]. split; [done|]. split; [|simpl; lia].
      split; simpl; lia.
    + eauto.
Qed.

Lemma ptr_set_ok b p position :
  buf_wf b → total_len b <= EV_SSIZE_MAX → 0 <= position <= EV_SSIZE_MAX →
  ∃ q rc, evbuffer_ptr_set b p position EVBUFFER_PTR_SET = Some (q, rc) ∧ moved_to b position q rc.
Proof.
  intros W Hmax Hp. unfold evbuffer_ptr_set.
  destruct (Z.leb_spec 0 (EV_SIZE_MAX - position)); [|unfold EV_SIZE_MAX, EV_SSIZE_MAX in *; lia].
  cbn [assert_ mbind option_bind].
  replace (i64 position) with position
    by (unfold i64, swrap, EV_SSIZE_MAX in *; rewrite Z.mod_small; lia).
  apply ptr_walk_ok; try done. rewrite Z.sub_diag. by apply ptr_start_ok.
Qed.

Lemma ptr_add_ok b p howfar :
  buf_wf b → total_len b <= EV_SSIZE_MAX → ptr_ok b p → (ptr_chain p = None → pos_in_chain p = 0) →
  0 <= howfar → pos p + howfar <= EV_SSIZE_MAX →
  ∃ q rc, evbuffer_ptr_set b p howfar EVBUFFER_PTR_ADD = Some (q, rc) ∧
    moved_to b (pos p + howfar) q rc.
Proof.
  intros W Hmax Hp Hn H0 Hh. destruct (Hp) as [Hpos _]. unfold evbuffer_ptr_set.
  unfold EV_SSIZE_MAX, EV_SIZE_MAX in *.
  destruct (Z.ltb_spec (pos p) 0); [lia|]. destruct (Z.ltb_spec (2 ^ 64 - 1 - howfar) (pos p)); [lia|].
  simpl orb. cbn iota.
  assert (0 <= pos_in_chain p <= pos p) as Hpic.
  { destruct Hp as [_ Hp]. destruct (ptr_chain p) as [i|]; [|rewrite Hn by done; lia].
    destruct Hp as (c&_&?&?). pose proof (zlen_nonneg (bytes_of (take i (chains b)))). lia. }
  destruct (Z.leb_spec (pos_in_chain p) (2 ^ 64 - 1 - howfar)); [|lia]. cbn [assert_ mbind option_bind].
  replace (i64 (pos p + howfar)) with (pos p + howfar)
    by (unfold i64, swrap; rewrite Z.mod_small; lia).
  apply ptr_walk_ok; try done; [unfold EV_SSIZE_MAX; lia|].
  replace (pos p + howfar - howfar) with (pos p) by lia. by destruct p.
Qed.

Lemma ptr_subtract_ok b p howfar :
  buf_wf b → total_len b <= EV_SSIZE_MAX → ptr_at b p → 0 <= howfar <= pos p →
  ∃ q, evbuffer_ptr_subtract b p howfar = Some (q, 0) ∧ ptr_at b q ∧ pos q = pos p - howfar.
Proof.
  intros W Hmax Hp Hh. destruct (ptr_at_ok _ _ W Hp) as [_ Hlt].
  unfold evbuffer_ptr_subtract.
  destruct (Z.ltb_spec (pos p) 0); [lia|]. destruct (Z.ltb_spec (pos p) howfar); [lia|].
  assert (∃ q, evbuffer_ptr_set b p (pos p - howfar) EVBUFFER_PTR_SET = Some (q, 0) ∧
    ptr_at b q ∧ pos q = pos p - howfar) as Hset.
  { destruct (ptr_set_ok b p (pos p - howfar)) as (q&rc&->&Hq); [done|done|lia|].
    unfold moved_to in Hq. destruct (Z.leb_spec (pos p - howfar) (total_len b)); [|lia].
    destruct Hq as (->&_&?&Hat). exists q. split; [done|]. split; [apply Hat; lia|done]. }
  destruct (Hp) as (i&c&E&Hc&Hpc&Hpe). rewrite E.
  destruct (Z.leb_spec howfar (pos_in_chain p)); [|done].
  eexists. split; [done|]. split; [|done]. exists i, c. simpl. split_and!; try done; lia.
Qed.

(** * Searching for a string *)

Lemma memcmp_loop_ok cs : ∀ mem position,
  Forall chain_wf cs → (∀ c cs', cs = c :: cs' → 0 <= position <= off c) →
  position + zlen mem <= zlen (bytes_of cs) → (cs = [] → position = 0) →
  ptr_memcmp_loop cs mem position =
  Some (memcmp (ztake (zlen mem) (zdrop position (bytes_of cs))) mem).
Proof.
  induction cs as [|c cs IH]; intros mem position W Hp Hle He.
  { rewrite He in Hle by done. change (zlen (bytes_of [])) with 0 in Hle.
    assert (mem = []) as -> by (apply zlen_nil_inv; pose proof (zlen_nonneg mem); lia). done. }
  apply Forall_cons in W as [Wc Wcs]. specialize (Hp _ _ eq_refl). simpl ptr_memcmp_loop.
  pose proof (chain_data_len _ Wc) as Hl. pose proof (zlen_nonneg mem).
  rewrite bytes_of_cons, zlen_app, Hl in Hle.
  destruct (Z.eqb_spec (zlen mem) 0) as [E|E]; [by apply zlen_nil_inv in E as ->|].
  set (n := if off c <? zlen mem + position then _ else _).
  assert (n = Z.min (zlen mem) (off c - position)) as Hn by (subst n; zcase; lia). clearbody n.
  rewrite mem_read_chain by (done || lia). cbn [mbind option_bind].
  rewrite bytes_of_cons, zdrop_app_le by lia.
  assert (zlen (zdrop position (chain_data c)) = off c - position) as Hd by (rewrite zlen_zdrop; lia).
  assert (zlen (ztake n (zdrop position (chain_data c))) = zlen (ztake n mem)) as Hz
    by (rewrite !zlen_ztake; lia).
  assert (ztake (zlen mem) (zdrop position (chain_data c) ++ bytes_of cs) =
    ztake n (zdrop position (chain_data c)) ++ ztake (zlen mem - n) (bytes_of cs)) as ->.
  { destruct (Z.le_gt_cases (off c - position) (zlen mem)).
    - rewrite Hn, Z.min_r by lia. rewrite (ztake_all (off c - position)) by lia.
      rewrite ztake_app_ge by lia. by rewrite Hd.
    - rewrite Hn, Z.min_l by lia. rewrite Z.sub_diag, ztake_0, app_nil_r.
      by rewrite ztake_app_le by lia. }
  assert (∀ a b, zlen a = zlen (ztake n mem) → memcmp (a ++ b) mem =
    if memcmp a (ztake n mem) =? 0 then memcmp b (zdrop n mem) else memcmp a (ztake n mem)) as Hsplit.
  { intros a b Ha. rewrite <- memcmp_app by done. by rewrite ztake_zdrop. }
  rewrite Hsplit by done.
  destruct (Z.eqb_spec (memcmp (ztake n (zdrop position (chain_data c))) (ztake n mem)) 0); [|done].
  simpl negb. cbn iota. rewrite IH; [|done|by apply head_off| |done].
  - rewrite zdrop_0, zlen_zdrop by lia. done.
  - rewrite zlen_zdrop by lia. pose proof (zlen_nonneg (bytes_of cs)). lia.
Qed.

Lemma ptr_memcmp_ok b p mem :
  buf_wf b → ptr_at b p → zlen mem <= EV_SSIZE_MAX → total_len b <= EV_SSIZE_MAX →
  ∃ r, evbuffer_ptr_memcmp b p mem = Some r ∧
    (r = 0 ↔ ztake (zlen mem) (zdrop (pos p) (bytes b)) = mem).
Proof.
  intros W Hp Hm Hmax. destruct (ptr_at_ok _ _ W Hp) as [Hok Hlt]. destruct (Hok) as [Hpos _].
  pose proof (bw_total _ W) as T.
  unfold evbuffer_ptr_memcmp. unfold EV_SIZE_MAX, EV_SSIZE_MAX in *.
  destruct (Z.ltb_spec (pos p) 0); [lia|]. destruct (Z.ltb_spec (2 ^ 64 - 1 - zlen mem) (pos p)); [lia|].
  simpl orb. destruct (Z.ltb_spec (total_len b) (pos p + zlen mem)) as [Hout|Hin].
  - exists (-1). split; [done|]. split; [done|]. intros E.
    apply (f_equal zlen) in E. unfold ztake, zdrop, zlen in *. rewrite length_take, length_drop in E. lia.
  - destruct (chains_from_ok b p W Hok) as (Wcs & B & Hi).
    destruct Hp as (i&c&E&Hc&Hpc&Hpe). unfold chains_from in *. rewrite E in *.
    rewrite memcmp_loop_ok; [| |done| |].
    + eexists. split; [done|]. rewrite B. apply memcmp_eq.
      rewrite zlen_ztake; [done|]. rewrite zlen_zdrop; pose proof (zlen_nonneg mem); lia.
    + done.
    + unfold bytes in T. rewrite (bytes_of_split i), zlen_app in T. lia.
    + rewrite (drop_S _ _ _ Hc). done.
Qed.

(** The result of a search from [p]: the first occurrence, if it ends before the
    limit. *)
Definition search_spec (b : evbuffer) (p : evbuffer_ptr) (what : list Z)
    (end_ : option evbuffer_ptr) (r : option evbuffer_ptr) : Prop :=
  match find_sub what (zdrop (pos p) (bytes b)) with
  | Some d =>
      if match end_ with Some e => pos e <? pos p + d + zlen what | None => false end
      then r = Some PTR_NOT_FOUND
      else ∃ q, r = Some q ∧ ptr_at b q ∧ pos q = pos p + d
  | None => r = Some PTR_NOT_FOUND
  end.

(** Moving the start over bytes where no match begins. *)
Lemma search_spec_shift b p q what end_ r n :
  pos q = pos p + n → 0 <= n → 0 <= pos p →
  find_sub what (zdrop (pos p) (bytes b)) = Z.add n <$> find_sub what (zdrop (pos q) (bytes b)) →
  search_spec b q what end_ r → search_spec b p what end_ r.
Proof.
  intros Hq Hn Hp E. unfold search_spec. rewrite E.
  destruct (find_sub what (zdrop (pos q) (bytes b))) as [d|]; simpl; [|done].
  rewrite Hq. replace (pos p + n + d) with (pos p + (n + d)) by lia. done.
Qed.

(** The rest of the content at a position: the rest of its chain, then the chains
    behind. *)
Lemma content_at b p k c :
  buf_wf b → ptr_ok b p → ptr_chain p = Some k → chains b !! k = Some c →
  chain_wf c ∧ 0 <= pos_in_chain p <= off c ∧
  zdrop (pos p) (bytes b) = zdrop (pos_in_chain p) (chain_data c) ++ bytes_of (drop (S k) (chains b)).
Proof.
  intros W [_ Hp] E Hc. rewrite E in Hp. destruct Hp as (c'&Hc'&Hpc&Hpe).
  rewrite Hc in Hc'. injection Hc' as <-.
  assert (Wc : chain_wf c) by (eapply Forall_lookup_1; [apply W|done]).
  pose proof (chain_data_len _ Wc). split; [done|]. split; [done|].
  unfold bytes. rewrite (bytes_of_lookup _ _ _ Hc), zdrop_app_ge by lia.
  rewrite zdrop_app_le by lia. f_equal. f_equal. lia.
Qed.

(** The position at the start of the next chain. *)
Lemma chain_next_ok b k c p n :
  buf_wf b → ptr_ok b p → ptr_chain p = Some k → chains b !! k = Some c →
  n = pos p + (off c - pos_in_chain p) → ptr_ok b (EvPtr n (chain_at b (S k)) 0).
Proof.
  intros W Hp E Hc ->. destruct (content_at b p k c W Hp E Hc) as (Wc & Hpc & _).
  destruct Hp as [Hpos Hp]. rewrite E in Hp. destruct Hp as (c'&Hc'&_&Hpe).
  pose proof (chain_data_len _ Wc). pose proof (bw_total _ W) as T. unfold bytes in T.
  rewrite (bytes_of_lookup _ _ _ Hc), !zlen_app in T.
  pose proof (zlen_nonneg (bytes_of (drop (S k) (chains b)))).
  split; [simpl; lia|]. simpl. unfold chain_at.
  destruct (chains b !! S k) as [c2|] eqn:E2; simpl.
  - exists c2. split; [done|].
    assert (Wc2 : chain_wf c2) by (eapply Forall_lookup_1; [apply W|done]).
    pose proof (cw_off _ Wc2). rewrite (take_S_r _ _ _ Hc), bytes_of_app, zlen_app.
    rewrite bytes_of_cons, bytes_of_nil, app_nil_r. lia.
  - apply lookup_ge_None in E2. rewrite (drop_ge _ (S k)) in T by lia.
    change (zlen (bytes_of [])) with 0 in T. lia.
Qed.

(** Rounds left: chains and bytes from the position on. *)
Definition search_left (b : evbuffer) (p : evbuffer_ptr) : Z :=
  match ptr_chain p with
  | Some k => zlen (chains b) - Z.of_nat k + (total_len b - pos p)
  | None => 0
  end.

Lemma search_left_next b k c n :
  chains b !! k = Some c → 0 <= n <= total_len b →
  search_left b (EvPtr n (chain_at b (S k)) 0) <= zlen (chains b) - Z.of_nat (S k) + (total_len b - n).
Proof.
  intros Hc Hn. unfold search_left, chain_at. simpl ptr_chain.
  destruct (chains b !! S k); simpl; [lia|]. apply lookup_lt_Some in Hc. unfold zlen. lia.
Qed.

Lemma search_loop_ok b f w end_ fuel : ∀ p,
  buf_wf b → total_len b <= EV_SSIZE_MAX → zlen (f :: w) <= EV_SSIZE_MAX →
  (∀ e, end_ = Some e → ptr_ok b e) → ptr_ok b p → search_left b p < Z.of_nat fuel →
  search_spec b p (f :: w) end_ (search_loop fuel b (f :: w) f end_ p).
Proof.
  induction fuel as [|fuel IH]; intros p W Hmax Hw He Hp Hf.
  { exfalso. destruct Hp as [Hpos Hp]. unfold search_left in Hf. destruct (ptr_chain p); [|lia].
    destruct Hp as (c&Hc%lookup_lt_Some&_). unfold zlen in Hf. lia. }
  simpl search_loop. destruct (ptr_chain p) as [k|] eqn:E.
  2:{ destruct Hp as [_ Hp]. rewrite E in Hp. unfold search_spec.
      by rewrite Hp, (bw_total _ W), zdrop_all, find_sub_nil by lia. }
  destruct (Hp) as [Hpos Hp']. rewrite E in Hp'. destruct Hp' as (c&Hc&_&Hpe). rewrite Hc.
  destruct (content_at b p k c W Hp E Hc) as (Wc & Hpc & B). cbn [mbind option_bind].
  rewrite rest_of_ok by done. cbn [mbind option_bind].
  pose proof (chain_data_len _ Wc) as Hl.
  destruct (memchr (zdrop (pos_in_chain p) (chain_data c)) f) as [d|] eqn:Ed.
  - (* the first byte occurs in this chain, [d] bytes on *)
    set (q := EvPtr (pos p + d) (Some k) (pos_in_chain p + d)).
    pose proof (find_first_range _ _ _ Ed) as Hd. rewrite zlen_zdrop in Hd by lia.
    assert (Hq : ptr_at b q) by (exists k, c; split_and!; simpl; try done; lia).
    destruct (ptr_at_ok b q W Hq) as [Hqok Hqlt].
    destruct (ptr_memcmp_ok b q (f :: w) W Hq Hw Hmax) as (r & -> & Hr). cbn [mbind option_bind].
    apply (search_spec_shift b p q _ _ _ d); [done|lia|lia| |].
    { rewrite B, <- (ztake_zdrop d (zdrop (pos_in_chain p) (chain_data c))), <- app_assoc.
      rewrite find_sub_skip by by apply find_first_before.
      rewrite zlen_ztake by (rewrite zlen_zdrop; lia). do 2 f_equal.
      destruct (content_at b q k c W Hqok eq_refl Hc) as (_ & _ & ->). simpl pos_in_chain.
      by rewrite zdrop_zdrop by lia. }
    destruct (Z.eqb_spec r 0) as [Hr0|Hr0].
    + unfold search_spec. apply Hr in Hr0.
      assert (find_sub (f :: w) (zdrop (pos q) (bytes b)) = Some 0) as ->
        by (destruct (zdrop (pos q) (bytes b)); simpl find_sub; by rewrite bool_decide_eq_true_2).
      rewrite Z.add_0_r. destruct end_ as [e|]; [|eauto]. destruct (pos e <? _); [done|eauto].
    + (* no match here: one byte on *)
      set (q' := next_byte b k c q).
      assert (pos q' = pos q + 1) as Hq' by (subst q'; unfold next_byte; destruct (_ =? _); done).
      assert (ptr_ok b q' ∧ search_left b q' < search_left b q) as [Hok' Hleft].
      { subst q'. unfold next_byte. destruct (Z.eqb_spec (pos_in_chain q + 1) (off c)).
        - split; [apply (chain_next_ok b k c q); simpl in *; try done; lia|].
          eapply Z.le_lt_trans; [apply (search_left_next b k c); [done|simpl in *; lia]|].
          unfold search_left. simpl. lia.
        - split; [|unfold search_left; simpl; lia]. apply ptr_at_ok; [done|].
          exists k, c. split_and!; simpl in *; try done; lia. }
      apply (search_spec_shift b q q' _ _ _ 1); [done|lia|simpl; lia| |].
      * destruct (zget_in_range (bytes b) (pos q)) as [x Hx]; [rewrite <- (bw_total _ W); simpl in *; lia|].
        assert (zdrop (pos q) (bytes b) = x :: zdrop (pos q') (bytes b)) as Eq.
        { rewrite Hq', zget_nonneg in * by (simpl; lia). unfold zdrop.
          rewrite (drop_S _ _ _ Hx). f_equal. f_equal. simpl. lia. }
        rewrite Eq in *. simpl find_sub at 1. rewrite bool_decide_eq_false_2 by tauto.
        destruct (find_sub _ _); simpl; [f_equal; lia|done].
      * apply IH; try done. revert Hf Hleft. unfold search_left at 1 3. rewrite E. simpl. lia.
  - (* the first byte does not occur in the rest of this chain *)
    rewrite off_sub by done. set (n := off c - pos_in_chain p). set (q := EvPtr (pos p + n) (chain_at b (S k)) 0).
    assert (Hskip : find_sub (f :: w) (zdrop (pos p) (bytes b)) =
      Z.add n <$> find_sub (f :: w) (zdrop (pos q) (bytes b))).
    { rewrite B, find_sub_skip by done. rewrite zlen_zdrop by lia. rewrite Hl. f_equal. f_equal.
      replace (pos q) with (n + pos p) by (simpl; lia).
      rewrite Z.add_comm, <- zdrop_zdrop by lia. rewrite B, zdrop_app_ge by (rewrite zlen_zdrop; lia).
      rewrite zlen_zdrop by lia. replace (n - (zlen (chain_data c) - pos_in_chain p)) with 0 by lia.
      by rewrite zdrop_0. }
    assert (Hq : ptr_ok b q) by (apply (chain_next_ok b k c p); done).
    case_bool_decide as Hend.
    + (* the limit is in this chain: any match ends behind it *)
      unfold search_spec. rewrite Hskip.
      destruct (find_sub (f :: w) (zdrop (pos q) (bytes b))) as [d|] eqn:Ed'; simpl; [|done].
      destruct end_ as [e|]; [|done]. simpl in Hend.
      destruct (He e eq_refl) as [_ He']. rewrite <- Hend in He'. destruct He' as (c'&Hc'&Hpc'&Hpe').
      rewrite Hc in Hc'. injection Hc' as <-. apply find_sub_range in Ed' as (?&_&_).
      pose proof (zlen_nonneg w). rewrite zlen_cons.
      destruct (Z.ltb_spec (pos e) (pos p + (n + d) + (1 + zlen w))); [done|lia].
    + apply (search_spec_shift b p q _ _ _ n); [done|lia|lia|done|].
      apply IH; try done. eapply Z.le_lt_trans; [apply (search_left_next b k c); [done|apply Hq]|].
      revert Hf. unfold search_left. rewrite E. lia.
Qed.

Lemma search_range_ok b what start end_ :
  buf_wf b → total_len b <= EV_SSIZE_MAX → what ≠ [] → zlen what <= EV_SSIZE_MAX →
  (∀ p, start = Some p → ptr_ok b p) → (∀ e, end_ = Some e → ptr_ok b e) →
  search_spec b (default (ptr_start b) start) what end_ (evbuffer_search_range b what start end_).
Proof.
  intros W Hmax Hne Hw Hs He. destruct what as [|f w]; [done|]. unfold evbuffer_search_range.
  destruct (Z.ltb_spec EV_SSIZE_MAX (zlen (f :: w))); [lia|].
  assert (Hp : ptr_ok b (default (ptr_start b) start)) by (destruct start; [by apply Hs|by apply ptr_start_ok]).
  apply search_loop_ok; try done. destruct Hp as [Hpos _].
  unfold search_left, search_fuel. rewrite (bw_total _ W) in *. unfold zlen in *.
  destruct (ptr_chain _); lia.
Qed.

(** * Lines *)

Definition eol_spec (b : evbuffer) (st : Z) (style : evbuffer_eol_style)
    (r : option (evbuffer_ptr * Z)) : Prop :=
  match eol_at style (zdrop st (bytes b)) with
  | Some (d, n) => ∃ q, r = Some (q, n) ∧ ptr_at b q ∧ pos q = st + d
  | None => r = Some (PTR_NOT_FOUND, 0)
  end.

(** One byte back from the end of a line. *)
Lemma crlf_ok b p q d :
  buf_wf b → total_len b <= EV_SSIZE_MAX → ptr_ok b p → ptr_at b q → pos q = pos p + d → 0 < d →
  ∃ q', evbuffer_ptr_subtract b q 1 = Some (q', 0) ∧ ptr_at b q' ∧ pos q' = pos p + (d - 1) ∧
    evbuffer_getchr b q' = zget (zdrop (pos p) (bytes b)) (d - 1).
Proof.
  intros W Hmax [Hpos _] Hq E Hd.
  destruct (ptr_subtract_ok b q 1 W Hmax Hq) as (q' & -> & Hq' & E'); [lia|].
  exists q'. split; [done|]. split; [done|]. split; [lia|].
  rewrite (getchr_ok b q' W Hq'), zget_zdrop by lia. f_equal. lia.
Qed.

Lemma search_eol_ok b start style :
  buf_wf b → total_len b <= EV_SSIZE_MAX → (∀ p, start = Some p → ptr_ok b p) →
  eol_spec b (pos (default (ptr_start b) start)) style (evbuffer_search_eol b start style).
Proof.
  intros W Hmax Hs.
  assert (Hp : ptr_ok b (default (ptr_start b) start)) by (destruct start; [by apply Hs|by apply ptr_start_ok]).
  unfold evbuffer_search_eol, eol_spec.
  destruct (match start with Some p => _ | None => false end) eqn:Htriv.
  { destruct start as [p|]; [|done]. simpl in *. destruct Hp as [_ Hp].
    destruct (ptr_chain p); [done|]. by rewrite Hp, (bw_total _ W), zdrop_all, eol_at_nil by lia. }
  clear Htriv. set (p := default (ptr_start b) start) in *. clearbody p.
  set (l := zdrop (pos p) (bytes b)). destruct style; simpl eol_at.
  - pose proof (walk_from_ok _ _ find_eol_char_ok b p W Hp) as H. fold l in H.
    unfold evbuffer_find_eol_char. destruct (find_first (in_set [13; 10]) l) as [d|] eqn:Ed; cbn [mbind option_bind].
    2:{ rewrite H. done. }
    destruct H as (q & -> & Hq & E). cbn [mbind option_bind].
    destruct (strspn_ok b q [13; 10] W Hq) as (q' & ->). cbn [mbind option_bind].
    exists q. split; [|done]. do 2 f_equal. f_equal. subst l. rewrite E.
    apply find_first_range in Ed. destruct Hp as [? _]. by rewrite zdrop_zdrop by lia.
  - pose proof (strchr_ok b p 10 W Hp) as H. fold l in H.
    destruct (memchr l 10) as [d|] eqn:Ed; cbn [mbind option_bind]; [|by rewrite H].
    destruct H as (q & -> & Hq & E). cbn [mbind option_bind].
    pose proof (find_first_range _ _ _ Ed).
    destruct (Z.eqb_spec (pos q) (pos p)), (Z.ltb_spec 0 d); try lia; cbn [andb]; [by exists q|].
    destruct (crlf_ok b p q d W Hmax Hp Hq E) as (q' & -> & Hq' & E' & Hg); [done|].
    cbn [mbind option_bind]. change (0 <? 0) with false. cbn iota. rewrite Hg.
    destruct (zget_in_range l (d - 1)) as [ch Hch]; [lia|]. fold l. rewrite Hch. cbn [mbind option_bind].
    destruct (Z.eqb_spec ch 13) as [->|].
    + rewrite bool_decide_eq_true_2 by done. eauto.
    + rewrite bool_decide_eq_false_2 by (intros [= ->]; done). eauto.
  - pose proof (search_range_ok b [13; 10] (Some p) None W Hmax) as H. unfold search_spec in H.
    simpl default in H. fold l in H. unfold evbuffer_search.
    destruct (find_sub [13; 10] l) as [d|] eqn:Ed; cbn [mbind option_bind].
    + destruct H as (q & -> & Hq & E); try done; [by intros ? [= <-]|]. cbn [mbind option_bind].
      apply find_sub_range in Ed. destruct Hp as [? _].
      destruct (Z.ltb_spec (pos q) 0); [lia|]. eauto.
    + rewrite H; try done. by intros ? [= <-].
  - pose proof (strchr_ok b p 10 W Hp) as H. fold l in H.
    destruct (memchr l 10) as [d|]; cbn [mbind option_bind]; [|by rewrite H].
    destruct H as (q & -> & Hq & E). cbn [mbind option_bind]. eauto.
  - pose proof (strchr_ok b p 0 W Hp) as H. fold l in H.
    destruct (memchr l 0) as [d|]; cbn [mbind option_bind]; [|by rewrite H].
    destruct H as (q & -> & Hq & E). cbn [mbind option_bind]. eauto.
Qed.

(** Reading a line: the line with a zero behind it, and the terminator gone. *)
Definition readln_spec {MM : Malloc} (b : evbuffer) (style : evbuffer_eol_style)
    (r : option (evbuffer * option (list Z) * Z)) : Prop :=
  match eol_at style (bytes b) with
  | None => r = Some (b, None, 0)
  | Some (d, n) =>
      mm_malloc (d + 1) = None ∧ r = Some (b, None, 0) ∨
      ∃ b', r = Some (b', Some (ztake d (bytes b) ++ [0]), d) ∧ buf_wf b' ∧ frame b b' ∧
        bytes b' = zdrop (d + n) (bytes b)
  end.

Lemma line_block (line data : list Z) n :
  zlen line = n + 1 → zlen data = n →
  (line ← memcpy_at line 0 data; memcpy_at line n [0]) = Some (data ++ [0]).
Proof.
  intros Hl <-. pose proof (zlen_nonneg data). rewrite memcpy_at_ok by lia. cbn [mbind option_bind].
  rewrite ztake_0, app_nil_l, Z.add_0_l.
  rewrite memcpy_at_ok by (rewrite ?zlen_app, ?zlen_zdrop; change (zlen [0]) with 1; lia).
  rewrite ztake_app_ge, Z.sub_diag, ztake_0, app_nil_r by lia.
  rewrite zdrop_all by (change (zlen [0]) with 1; rewrite zlen_app, zlen_zdrop; lia).
  by rewrite app_nil_r.
Qed.

Lemma readln_ok {MM : Malloc} b style :
  buf_wf b → total_len b <= INT_MAX → freeze_start b = false →
  readln_spec b style (evbuffer_readln b style).
Proof.
  intros W Hmax Hf. unfold evbuffer_readln, readln_spec. rewrite Hf.
  pose proof (bw_total _ W) as T.
  pose proof (search_eol_ok b None style W) as H. unfold eol_spec in H.
  change (pos (default (ptr_start b) None)) with 0 in H. rewrite zdrop_0 in H.
  assert (total_len b <= EV_SSIZE_MAX) as Hs by (unfold EV_SSIZE_MAX, INT_MAX in *; lia).
  destruct (eol_at style (bytes b)) as [[d n]|] eqn:E.
  2:{ rewrite H by done. done. }
  apply eol_at_range in E as (Hd & Hn & Hdn).
  destruct H as (q & -> & Hq & Eq); [done|done|]. cbn [mbind option_bind]. rewrite Z.add_0_l in Eq.
  rewrite Eq. destruct (Z.ltb_spec d 0); [lia|].
  destruct (mm_malloc (d + 1)) as [line|] eqn:Em; [|by left]. right.
  apply mm_malloc_len in Em; [|lia].
  destruct (remove_ok b d W Hd Hmax Hf) as (b1 & -> & W1 & B1 & N1). cbn [mbind option_bind].
  assert (frame b b1) as F1 by (destruct N1 as [[-> _]|N1]; [done|by eapply frame_notified]).
  pose proof (line_block line (ztake d (bytes b)) d Em) as Hb.
  rewrite zlen_ztake in Hb by lia. specialize (Hb eq_refl).
  destruct (memcpy_at line 0 (ztake d (bytes b))) as [line1|]; [|done]. cbn [mbind option_bind] in *.
  rewrite Hb. cbn [mbind option_bind].
  destruct (drain_ok b1 n W1 Hn) as (b2 & rc & -> & W2 & Hr). cbn [mbind option_bind].
  exists b2. split; [done|]. split; [done|].
  destruct Hr as [(-> & B2 & N2)|(_ & _ & Hf1 & _)]; [|destruct F1; congruence].
  split; [|by rewrite B2, B1, zdrop_zdrop by lia].
  destruct N2 as [[_ ->]|N2]; [done|]. eapply frame_trans; [done|by eapply frame_notified].
Qed.
