(* ===== verification/EvbufferPrintf.v ===== *)
(** * Formatted output to a byte queue

    [evbuffer_add_vprintf] formats straight into the free space of a chain, and
    makes more space and formats again when the text did not fit: two rounds are
    enough, and the text arrives whole behind the content ([printf_ok]). *)
From S2P Require Import Prelude EvbufferDefs Evbuffer EvbufferOps EvbufferPullup EvbufferMove EvbufferSpace.

Lemma ztake_memcpy mem pos (data mem' : list Z) k :
  memcpy_at mem pos data = Some mem' → 0 <= k <= zlen data →
  ztake (pos + k) mem' = ztake pos mem ++ ztake k data.
Proof.
  unfold memcpy_at. destruct (Z.leb_spec 0 pos), (Z.leb_spec (pos + zlen data) (zlen mem)); try done.
  intros [= <-] Hk. rewrite ztake_app_ge by (rewrite zlen_ztake; lia).
  rewrite zlen_ztake by lia. replace (pos + k - pos) with k by lia.
  by rewrite ztake_app_le by lia.
Qed.

(** What is in the memory after formatting. *)
Lemma vsnprintf_ok mem at_ space text :
  0 <= at_ → 0 < space → at_ + space <= zlen mem →
  ∃ mem', evutil_vsnprintf mem at_ space text =
      Some (mem', if INT_MAX <? zlen text then -1 else zlen text) ∧
    zlen mem' = zlen mem ∧
    ztake (at_ + Z.min (zlen text) (space - 1)) mem' = ztake at_ mem ++ ztake (space - 1) text.
Proof.
  intros Ha Hs Hm. unfold evutil_vsnprintf. pose proof (zlen_nonneg text).
  set (data := ztake (space - 1) text ++ [0]).
  assert (zlen (ztake (space - 1) text) = Z.min (zlen text) (space - 1)) as Ht.
  { destruct (Z.le_gt_cases (zlen text) (space - 1)); [rewrite ztake_all by lia; lia|rewrite zlen_ztake; lia]. }
  assert (zlen data = Z.min (zlen text) (space - 1) + 1) as Hd
    by (subst data; rewrite zlen_app, Ht; done).
  destruct (memcpy_at mem at_ data) as [m1|] eqn:E1; [|rewrite memcpy_at_ok in E1 by lia; done].
  pose proof (memcpy_at_len _ _ _ _ E1) as L1. cbn [mbind option_bind].
  destruct (memcpy_at m1 (at_ + space - 1) [0]) as [m2|] eqn:E2.
  2:{ rewrite memcpy_at_ok in E2 by (change (zlen [0]) with 1; lia). done. }
  pose proof (memcpy_at_len _ _ _ _ E2) as L2. cbn [mbind option_bind].
  exists m2. split; [done|]. split; [lia|]. set (k := Z.min (zlen text) (space - 1)) in *.
  pose proof (ztake_memcpy m1 _ _ _ 0 E2) as T2. change (ztake 0 [0]) with (@nil Z) in T2.
  rewrite app_nil_r, Z.add_0_r in T2.
  rewrite <- (ztake_ztake (at_ + k) (at_ + space - 1) m2) by lia. rewrite T2 by (change (zlen [0]) with 1; lia).
  rewrite ztake_ztake by lia. rewrite (ztake_memcpy _ _ _ _ k E1) by lia. f_equal.
  subst data. rewrite ztake_app_le by lia. apply ztake_all. lia.
Qed.

(** A chain whose free space was written to, and then taken into the data. *)
Lemma chain_written c mem' k (data : list Z) :
  chain_wf c → has (ch_flags c) EVBUFFER_IMMUTABLE = false → zlen mem' = zlen (buffer c) →
  0 <= k → misalign c + off c + k <= buffer_len c →
  ztake (misalign c + off c + k) mem' = ztake (misalign c + off c) (buffer c) ++ data →
  chain_wf (with_extent (misalign c) (off c + k) (with_buffer mem' c)) ∧
  chain_data (with_extent (misalign c) (off c + k) (with_buffer mem' c)) = chain_data c ++ data.
Proof.
  intros W Hi Hm Hk Hfit E. pose proof (cw_mis _ W). pose proof (cw_off _ W). pose proof (cw_len _ W).
  split; [by apply chain_wf_with; done || lia|].
  rewrite chain_data_with. unfold chain_data. rewrite !ztake_zdrop_comm by lia.
  replace (misalign c + (off c + k)) with (misalign c + off c + k) by lia.
  by rewrite E, zdrop_app_le by (rewrite zlen_ztake; lia).
Qed.

Section printf.
Context {MM : Malloc}.

Definition printf_spec (b : evbuffer) (text : list Z) (r : option (evbuffer * Z)) : Prop :=
  ∃ b' rc, r = Some (b', rc) ∧ buf_wf b' ∧
    (rc = zlen text ∧ bytes b' = bytes b ++ text ∧ notified b (zlen text) 0 b' ∨
     rc = -1 ∧ bytes b' = bytes b ∧ quiet b b' ∧
     (freeze_end b = true ∨ INT_MAX < zlen text ∨
      ∃ size, size <= Z.max 64 (zlen text + 1) + MAX_TO_COPY_IN_EXPAND ∧ alloc_failure size)).

Lemma lwd_split b i c :
  buf_wf b → chains b !! i = Some c → (last_with_datap b <= i)%nat →
  Forall empty_chain (drop (S i) (chains b)) ∧
  ∃ pre c0 post, chains b = pre ++ c0 :: post ∧ last_with_datap b = length pre ∧ (pre ≠ [] → off c0 ≠ 0).
Proof.
  intros W Hc Hi. pose proof (bw_lwd _ W) as Hl. inversion Hl as [E|pre c0 post Hp He E E'].
  - rewrite <- E in Hc. done.
  - rewrite <- E' in Hi. split; [|by exists pre, c0, post].
    replace (pre ++ c0 :: post) with ((pre ++ [c0]) ++ post) by (by rewrite <- app_assoc).
    rewrite drop_app_ge by (rewrite length_app; simpl; lia). by apply Forall_drop.
Qed.

(** Appending [data] in place to a chain behind which there is no data. *)
Lemma append_at b i c c' data :
  buf_wf b → chains b !! i = Some c → (last_with_datap b <= i)%nat →
  chain_wf c' → chain_data c' = chain_data c ++ data → total_len b + zlen data <= EV_SIZE_MAX →
  ∃ b', advance_last_with_data (grew (zlen data) (put_chain i c' b)) = b' ∧ buf_wf b' ∧
    bytes b' = bytes b ++ data ∧ quiet b b' ∧ n_add_for_cb b' = u64 (n_add_for_cb b + zlen data) ∧
    n_del_for_cb b' = n_del_for_cb b.
Proof.
  intros W Hc Hi Wc' Hd Hmax. eexists. split; [done|].
  destruct (lwd_split b i c W Hc Hi) as (Hempty & pre & c0 & post & Ecs & El & Hp).
  pose proof (chain_data_len _ Wc') as L'. pose proof (zlen_nonneg data).
  assert (Wc : chain_wf c) by (eapply Forall_lookup_1; [apply W|done]).
  pose proof (chain_data_len _ Wc) as L. rewrite Hd, zlen_app, L in L'.
  set (b1 := grew (zlen data) (put_chain i c' b)).
  assert (∃ c1 post1, chains b1 = pre ++ c1 :: post1 ∧ (pre ≠ [] → off c1 ≠ 0)) as (c1 & post1 & E1 & Hp1).
  { simpl. rewrite Ecs. destruct (decide (i = length pre)) as [->|Hne].
    - exists c', post. rewrite insert_middle. split; [done|]. intros Hpre. specialize (Hp Hpre).
      rewrite Ecs, lookup_middle in Hc. injection Hc as <-. pose proof (cw_off _ Wc). lia.
    - exists c0, (<[(i - length pre - 1)%nat := c']> post). split; [|done].
      rewrite insert_app_r_alt by lia.
      destruct (i - length pre)%nat as [|k] eqn:Ek; [lia|]. simpl. by rewrite Nat.sub_0_r. }
  destruct (advance_ok b1 pre c1 post1 E1 El Hp1) as (l & -> & Hl).
  assert (HB : bytes b1 = bytes b ++ data).
  { unfold bytes. simpl. rewrite insert_take_drop by (by eapply lookup_lt_Some).
    rewrite (bytes_of_lookup (chains b) i c Hc), bytes_of_app, bytes_of_cons, Hd.
    by rewrite (bytes_of_empty _ Hempty), !app_nil_r, app_assoc. }
  assert (buf_wf (set_chains (chains b1) l b1)) as Wb.
  { change (buf_wf (grew (zlen data) (set_chains (<[i := c']> (chains b)) l b))).
    apply wf_grew; try done.
    - apply Forall_insert; [apply W|done].
    - change (zlen (bytes b1) = total_len b + zlen data). by rewrite HB, zlen_app, (bw_total _ W). }
  split; [done|]. split; [exact HB|]. split; [|by split].
  subst b1. auto 10 with evlib.
Qed.

Lemma vprintf_loop_ok fuel : ∀ b0 b i c text,
  same_content b0 b → chains b !! i = Some c → (last_with_datap b <= i)%nat →
  0 < CHAIN_SPACE_LEN c → total_len b0 + zlen text <= EV_SIZE_MAX → freeze_end b0 = false →
  ((0 < fuel)%nat ∧ zlen text < CHAIN_SPACE_LEN c ∨ (1 < fuel)%nat) →
  total_len b0 = zlen (bytes b0) → 0 <= n_del_for_cb b0 < 2 ^ 64 →
  printf_spec b0 text (vprintf_loop fuel b i text).
Proof.
  induction fuel as [|fuel IH]; intros b0 b i c text Hsame Hc Hi Hsp Hmax Hfr Hfuel T0 Hdel; [lia|].
  destruct (Hsame) as (W & B & Q & Na & Nd). simpl vprintf_loop. rewrite Hc. cbn [mbind option_bind].
  assert (Wc : chain_wf c) by (eapply Forall_lookup_1; [apply W|done]).
  pose proof (chain_space c Wc) as Hspace. pose proof (cw_mis _ Wc). pose proof (cw_off _ Wc).
  pose proof (cw_len _ Wc). pose proof (zlen_nonneg text).
  destruct (has (ch_flags c) EVBUFFER_IMMUTABLE) eqn:Himm; [lia|].
  destruct (Z.eqb_spec (CHAIN_SPACE_LEN c) 0); [lia|].
  destruct (vsnprintf_ok (buffer c) (misalign c + off c) (CHAIN_SPACE_LEN c) text) as (mem & -> & Hm & E);
    [lia|lia|lia|]. cbn [mbind option_bind].
  (* the buffer after formatting: the data is as before *)
  destruct (chain_written c mem 0 [] Wc Himm Hm) as [Wc0 Dc0]; [lia|lia| |].
  { rewrite app_nil_r, Z.add_0_r. set (k := Z.min _ _) in E.
    assert (0 <= k) by (subst k; lia).
    apply (f_equal (ztake (misalign c + off c))) in E. rewrite ztake_ztake in E by lia.
    rewrite E, ztake_app_le by (rewrite zlen_ztake; lia). rewrite ztake_ztake by lia. done. }
  rewrite Z.add_0_r in Wc0, Dc0. rewrite app_nil_r in Dc0.
  change (with_extent (misalign c) (off c) (with_buffer mem c)) with (with_buffer mem c) in *.
  destruct (put_same b i c (with_buffer mem c) W Hc Wc0 eq_refl Dc0) as [W1 B1].
  set (b1 := put_chain i (with_buffer mem c) b) in *.
  assert (same_content b0 b1) as Hsame1.
  { split; [done|]. split; [congruence|]. split; [|done]. by apply quiet_put. }
  assert (Hc1 : chains b1 !! i = Some (with_buffer mem c))
    by (apply list_lookup_insert_eq; by eapply lookup_lt_Some).
  destruct (Z.ltb_spec INT_MAX (zlen text)).
  { simpl. exists b1, (-1). split; [done|]. split; [done|]. right. split; [done|]. destruct Hsame1 as (_&?&?&_). auto. }
  destruct (Z.ltb_spec (zlen text) 0); [lia|].
  change ((EVBUFFER_CHAIN_MAX <=? INT_MAX) && (EVBUFFER_CHAIN_MAX <=? zlen text)) with false. cbn iota.
  destruct (Z.ltb_spec (zlen text) (CHAIN_SPACE_LEN c)) as [Hfit|Hfit].
  - (* the text fits *)
    rewrite Z.min_l, (ztake_all _ text) in E by lia.
    destruct (chain_written c mem (zlen text) text Wc Himm Hm) as [Wc2 Dc2]; [lia|lia|done|].
    destruct (append_at b1 i (with_buffer mem c) (with_extent (misalign c) (off c + zlen text) (with_buffer mem c)) text)
      as (b2 & -> & W2 & B2 & Q2 & Na2 & Nd2); [done|done|done|done|by rewrite Dc2, Dc0| |].
    { rewrite (bw_total _ W1), B1, B, <- T0. done. }
    eexists _, _. split; [done|]. split; [auto with evlib|]. left. split; [done|].
    rewrite bytes_invoke, B2. destruct Hsame1 as (_ & -> & Q1 & Na1 & Nd1). split; [done|].
    exists b2. split; [done|]. split; [by eapply quiet_trans|]. rewrite Na2, Nd2, Na1, Nd1. split; [done|].
    rewrite Z.add_0_r. symmetry. by apply u64_small.
  - (* more space *)
    destruct (expand_singlechain_ok b1 (zlen text + 1) W1) as (b2 & res & -> & Hs2 & Hres); [lia|].
    cbn [mbind option_bind].
    assert (same_content b0 b2) as Hsame2.
    { destruct Hsame1 as (_&B1'&Q1&Na1&Nd1), Hs2 as (?&B2&Q2&Na2&Nd2). split; [done|].
      split; [congruence|]. split; [by eapply quiet_trans|]. split; congruence. }
    destruct res as [j|].
    + destruct Hres as (c2 & Hc2 & Hsp2 & Hj). apply (IH b0 b2 j c2); try done; lia.
    + exists b2, (-1). split; [done|]. split; [apply Hsame2|]. right. destruct Hsame2 as (_&?&?&_).
      split; [done|]. split; [done|]. split; [done|]. right. right.
      destruct Hres as (size & Hsz & Hf). exists size. split; [lia|done].
Qed.

Lemma printf_ok b text :
  buf_wf b → total_len b + zlen text <= EV_SIZE_MAX → printf_spec b text (evbuffer_add_printf b text).
Proof.
  intros W Hmax. unfold evbuffer_add_printf, evbuffer_add_vprintf. pose proof (zlen_nonneg text).
  destruct (freeze_end b) eqn:Hf.
  { exists b, (-1). split; [done|]. split; [done|]. right. auto with evlib. }
  destruct (expand_singlechain_ok b 64 W) as (b1 & res & -> & Hs & Hres); [lia|]. cbn [mbind option_bind].
  destruct res as [i|].
  - destruct Hres as (c & Hc & Hsp & Hi). apply vprintf_loop_ok with c; try done; try lia; apply W.
  - exists b1, (-1). split; [done|]. split; [apply Hs|]. right. destruct Hs as (_&?&?&_).
    split; [done|]. split; [done|]. split; [done|]. right. right.
    destruct Hres as (size & Hsz & Hfail). exists size. split; [lia|done].
Qed.
End printf.
