(* ===== verification/EvbufferIface.v ===== *)
(** The interface through which the tagging, HTTP and DNS code uses byte
    queues: operations, and what they promise in terms of the content. *)
From S2P Require Import Prelude Lines.

(** The operations of [event2/buffer.h] that clients use.  [None]: stuck, except
    for [eb_new]. *)
Class EvbufferOps (B : Type) := {
  eb_new : option B;                                     (* evbuffer_new; [None] is NULL *)
  eb_length : B → Z;                                     (* evbuffer_get_length *)
  eb_add : B → list Z → option (B * Z);                  (* evbuffer_add *)
  eb_add_printf : B → list Z → option (B * Z);           (* evbuffer_add_printf of a text *)
  eb_drain : B → Z → option (B * Z);                     (* evbuffer_drain *)
  eb_pullup : B → Z → option (B * option (list Z));      (* evbuffer_pullup *)
  eb_remove : B → Z → option (B * list Z * Z);           (* evbuffer_remove *)
  eb_add_buffer : B → B → option (B * B * Z);            (* evbuffer_add_buffer *)
  eb_remove_buffer : B → B → Z → option (B * B * Z);     (* evbuffer_remove_buffer *)
  eb_readln : B → evbuffer_eol_style → option (B * option (list Z) * Z)  (* evbuffer_readln *)
}.

(** Queues that are not frozen, hold at most [eb_cap] bytes and whose
    allocations succeed. *)
Class EvbufferLaws (B : Type) `{EvbufferOps B} := {
  eb_inv : B → Prop;
  eb_bytes : B → list Z;
  eb_cap : Z;
  eb_cap_int : eb_cap <= INT_MAX;
  eb_new_ok : ∃ b, eb_new = Some b ∧ eb_inv b ∧ eb_bytes b = [];
  eb_length_ok b : eb_inv b → eb_length b = zlen (eb_bytes b) ∧ zlen (eb_bytes b) <= eb_cap;
  eb_add_ok b data :
    eb_inv b → zlen (eb_bytes b) + zlen data <= eb_cap →
    ∃ b', eb_add b data = Some (b', 0) ∧ eb_inv b' ∧ eb_bytes b' = eb_bytes b ++ data;
  eb_add_printf_ok b text :
    eb_inv b → zlen (eb_bytes b) + zlen text <= eb_cap →
    ∃ b', eb_add_printf b text = Some (b', zlen text) ∧ eb_inv b' ∧ eb_bytes b' = eb_bytes b ++ text;
  eb_drain_ok b n :
    eb_inv b → 0 <= n →
    ∃ b', eb_drain b n = Some (b', 0) ∧ eb_inv b' ∧ eb_bytes b' = zdrop n (eb_bytes b);
  eb_pullup_ok b n :
    eb_inv b → 0 < n <= zlen (eb_bytes b) →
    ∃ b' d, eb_pullup b n = Some (b', Some d) ∧ eb_inv b' ∧ eb_bytes b' = eb_bytes b ∧
      d = ztake (zlen d) (eb_bytes b) ∧ n <= zlen d;
  eb_pullup_zero b : eb_inv b → eb_pullup b 0 = Some (b, None);
  eb_remove_ok b n :
    eb_inv b → 0 <= n →
    ∃ b', eb_remove b n = Some (b', ztake n (eb_bytes b), Z.min n (zlen (eb_bytes b))) ∧
      eb_inv b' ∧ eb_bytes b' = zdrop n (eb_bytes b);
  eb_add_buffer_ok b1 b2 :
    eb_inv b1 → eb_inv b2 → zlen (eb_bytes b1) + zlen (eb_bytes b2) <= eb_cap →
    ∃ b1' b2', eb_add_buffer b1 b2 = Some (b1', b2', 0) ∧ eb_inv b1' ∧ eb_inv b2' ∧
      eb_bytes b1' = eb_bytes b1 ++ eb_bytes b2 ∧ eb_bytes b2' = [];
  eb_remove_buffer_ok src dst n :
    eb_inv src → eb_inv dst → 0 <= n → zlen (eb_bytes dst) + zlen (eb_bytes src) <= eb_cap →
    ∃ src' dst' rc, eb_remove_buffer src dst n = Some (src', dst', rc) ∧ eb_inv src' ∧ eb_inv dst' ∧
      eb_bytes src' = zdrop n (eb_bytes src) ∧ eb_bytes dst' = eb_bytes dst ++ ztake n (eb_bytes src);
  eb_readln_ok b style :
    eb_inv b →
    match eol_at style (eb_bytes b) with
    | None => eb_readln b style = Some (b, None, 0)
    | Some (d, n) =>
        ∃ b', eb_readln b style = Some (b', Some (ztake d (eb_bytes b) ++ [0]), d) ∧ eb_inv b' ∧
          eb_bytes b' = zdrop (d + n) (eb_bytes b)
    end
}.
