(* ===== verification/EvbufferImpl.v ===== *)
(** [struct evbuffer] implements the byte-queue interface when its allocator
    does not fail. *)
From S2P Require Import Prelude Lines EvbufferDefs Evbuffer EvbufferOps EvbufferPullup EvbufferMove EvbufferSpace EvbufferSearch EvbufferPrintf EvbufferIface.

Class MallocTotal {MM : Malloc} : Prop :=
  malloc_never_fails : ∀ n, 0 <= n → mm_malloc n ≠ None.

Lemma no_alloc_failure_huge {MM : Malloc} {MT : MallocTotal} n : n <= 2 ^ 62 → ¬ alloc_failure n.
Proof.
  intros Hn [H|(m & Hm & E)].
  - unfold EVBUFFER_CHAIN_MAX, EV_SSIZE_MAX, EVBUFFER_CHAIN_SIZE in *. lia.
  - by apply malloc_never_fails in E.
Qed.
Lemma no_alloc_failure {MM : Malloc} {MT : MallocTotal} n : n <= INT_MAX → ¬ alloc_failure n.
Proof. intros Hn. apply no_alloc_failure_huge. unfold INT_MAX in Hn. lia. Qed.

(** [sizeof(struct evbuffer)] where pointers have eight bytes. *)
Definition SIZEOF_EVBUFFER : Z := 136.

#[export] Instance evbuffer_ops {MM : Malloc} : EvbufferOps evbuffer := {
  eb_new := match mm_malloc SIZEOF_EVBUFFER with Some _ => Some evbuffer_new | None => None end;
  eb_length := evbuffer_get_length;
  eb_add := evbuffer_add;
  eb_add_printf := evbuffer_add_printf;
  eb_drain := evbuffer_drain;
  eb_pullup := evbuffer_pullup;
  eb_remove := evbuffer_remove;
  eb_add_buffer b1 b2 := evbuffer_add_buffer b1 b2 false;
  eb_remove_buffer src dst n := evbuffer_remove_buffer src dst n false;
  eb_readln := evbuffer_readln
}.

(** Usable through the interface: well formed, not frozen, at most [INT_MAX]
    bytes. *)
Record open_buf (b : evbuffer) : Prop := {
  ob_wf : buf_wf b;
  ob_start : freeze_start b = false;
  ob_end : freeze_end b = false;
  ob_len : zlen (bytes b) <= INT_MAX
}.

Lemma open_frame b b' :
  open_buf b → buf_wf b' → frame b b' → zlen (bytes b') <= INT_MAX → open_buf b'.
Proof. intros [] ? [] ?. constructor; congruence || done. Qed.

Section impl.
Context {MM : Malloc} {MT : MallocTotal}.

Lemma evbuffer_new_open : open_buf evbuffer_new.
Proof. constructor; try done. constructor; try done. constructor. Qed.

Lemma impl_add b data :
  open_buf b → zlen (bytes b) + zlen data <= INT_MAX →
  ∃ b', evbuffer_add b data = Some (b', 0) ∧ open_buf b' ∧ bytes b' = bytes b ++ data.
Proof.
  intros Hb Hc. destruct (Hb) as [W Hs He _]. pose proof (zlen_nonneg (bytes b)).
  destruct (add_ok b data W) as (b' & rc & -> & W' & [(-> & E & N)|(_ & _ & _ & Hwhy)]).
  - exists b'. split; [done|]. split; [|done]. apply open_frame with b; auto with evlib.
    + by eapply frame_notified.
    + by rewrite E, zlen_app.
  - exfalso. rewrite He, (bw_total _ W) in Hwhy. destruct Hwhy as [?|[?|Hf]]; [done| |].
    + unfold EV_SIZE_MAX, INT_MAX in *. lia.
    + revert Hf. apply no_alloc_failure. lia.
Qed.

Lemma impl_add_printf b text :
  open_buf b → zlen (bytes b) + zlen text <= INT_MAX →
  ∃ b', evbuffer_add_printf b text = Some (b', zlen text) ∧ open_buf b' ∧ bytes b' = bytes b ++ text.
Proof.
  intros Hb Hc. destruct (Hb) as [W Hs He _]. pose proof (zlen_nonneg (bytes b)). pose proof (bw_total _ W).
  destruct (printf_ok b text W) as (b' & rc & -> & W' & [(-> & E & N)|(_ & _ & _ & Hwhy)]).
  - unfold EV_SIZE_MAX, INT_MAX in *. lia.
  - exists b'. split; [done|]. split; [|done]. apply open_frame with b; auto with evlib.
    + by eapply frame_notified.
    + by rewrite E, zlen_app.
  - exfalso. rewrite He in Hwhy. destruct Hwhy as [?|[?|(size & Hsz & Hf)]]; [done|lia|].
    revert Hf. apply no_alloc_failure_huge. unfold INT_MAX, MAX_TO_COPY_IN_EXPAND in *. lia.
Qed.

Lemma impl_drain b n :
  open_buf b → 0 <= n →
  ∃ b', evbuffer_drain b n = Some (b', 0) ∧ open_buf b' ∧ bytes b' = zdrop n (bytes b).
Proof.
  intros Hb Hn. destruct (Hb) as [W Hs He Hl].
  destruct (drain_ok b n W Hn) as (b' & rc & -> & W' & [(-> & E & N)|(_ & _ & ? & _)]); [|congruence].
  exists b'. split; [done|]. split; [|done]. destruct N as [[_ ->]|N]; [done|].
  apply open_frame with b; try done; [by eapply frame_notified|].
  rewrite E. etransitivity; [|exact Hl]. unfold zdrop, zlen. rewrite length_drop. lia.
Qed.

Lemma impl_pullup b n :
  open_buf b → 0 < n <= zlen (bytes b) →
  ∃ b' d, evbuffer_pullup b n = Some (b', Some d) ∧ open_buf b' ∧ bytes b' = bytes b ∧
    d = ztake (zlen d) (bytes b) ∧ n <= zlen d.
Proof.
  intros Hb Hn. destruct (Hb) as [W Hs He Hl]. pose proof (pullup_ok b n W) as P.
  unfold pullup_spec in P. destruct (Z.ltb_spec n 0); [lia|]. rewrite (bw_total _ W) in P.
  destruct P as [[_ (b' & d & -> & W' & E & Q & _ & _ & _ & Ed & Hd)]|[_ [?|[?|Hf]]]]; [|lia|lia|].
  - exists b', d. split; [done|]. split; [|done].
    apply open_frame with b; auto with evlib. by rewrite E.
  - exfalso. revert Hf. apply no_alloc_failure. lia.
Qed.

Lemma impl_remove b n :
  open_buf b → 0 <= n →
  ∃ b', evbuffer_remove b n = Some (b', ztake n (bytes b), Z.min n (zlen (bytes b))) ∧
    open_buf b' ∧ bytes b' = zdrop n (bytes b).
Proof.
  intros Hb Hn. destruct (Hb) as [W Hs He Hl]. pose proof (bw_total _ W) as Ht.
  destruct (remove_ok b n W Hn) as (b' & -> & W' & E & N); [by rewrite Ht|done|].
  exists b'. rewrite <- Ht. split; [done|]. split; [|done]. destruct N as [[-> _]|N]; [done|].
  apply open_frame with b; try done; [by eapply frame_notified|].
  rewrite E. etransitivity; [|exact Hl]. unfold zdrop, zlen. rewrite length_drop. lia.
Qed.

Lemma impl_add_buffer b1 b2 :
  open_buf b1 → open_buf b2 → zlen (bytes b1) + zlen (bytes b2) <= INT_MAX →
  ∃ b1' b2', evbuffer_add_buffer b1 b2 false = Some (b1', b2', 0) ∧ open_buf b1' ∧ open_buf b2' ∧
    bytes b1' = bytes b1 ++ bytes b2 ∧ bytes b2' = [].
Proof.
  intros H1 H2 Hc. destruct (H1) as [W1 S1 E1 _], (H2) as [W2 S2 E2 _].
  destruct (add_buffer_ok b1 b2 W1 W2) as (o & i & rc & -> & Wo & Wi & [(-> & Bo & Bi & N)|(_ & _ & _ & Hf)]).
  { rewrite (bw_total _ W1), (bw_total _ W2). unfold EV_SIZE_MAX, INT_MAX in *. lia. }
  2:{ exfalso. unfold frozen in Hf. rewrite S1, E1, S2, E2 in Hf. by destruct Hf as [[?|?]|[?|?]]. }
  exists o, i. split; [done|]. destruct N as [(B2 & -> & ->)|[No Ni]].
  - rewrite B2, app_nil_r in *. auto 10.
  - split; [|split; [|done]].
    + apply open_frame with b1; try done; [by eapply frame_notified|]. by rewrite Bo, zlen_app.
    + apply open_frame with b2; try done; [by eapply frame_notified|].
      rewrite Bi. unfold INT_MAX. change (zlen (@nil Z)) with 0. lia.
Qed.

Lemma impl_remove_buffer src dst n :
  open_buf src → open_buf dst → 0 <= n → zlen (bytes dst) + zlen (bytes src) <= INT_MAX →
  ∃ src' dst' rc, evbuffer_remove_buffer src dst n false = Some (src', dst', rc) ∧
    open_buf src' ∧ open_buf dst' ∧
    bytes src' = zdrop n (bytes src) ∧ bytes dst' = bytes dst ++ ztake n (bytes src).
Proof.
  intros Hs Hd Hn Hc. destruct (Hs) as [Ws S1 E1 L1], (Hd) as [Wd S2 E2 _].
  pose proof (bw_total _ Ws) as Ts. pose proof (bw_total _ Wd) as Td.
  destruct (remove_buffer_ok src dst n Ws Wd Hn)
    as (src' & dst' & rc & -> & W1 & W2 & F1 & F2 & [(_ & B1 & lost & Hl & B2 & Hwhy)|(_ & _ & _ & Hf)]).
  { rewrite Ts, Td. unfold EV_SIZE_MAX, INT_MAX in *. lia. }
  2:{ exfalso. unfold frozen in Hf. rewrite S1, E1, S2, E2 in Hf. by destruct Hf as [[?|?]|[?|?]]. }
  destruct Hwhy as [->|[Hle Hwhy]]; [|exfalso; revert Hwhy; apply no_alloc_failure; lia].
  rewrite Z.sub_0_r in B2. exists src', dst', rc. split; [done|]. split; [|split; [|done]].
  - apply open_frame with src; try done. rewrite B1. etransitivity; [|exact L1].
    unfold zdrop, zlen. rewrite length_drop. lia.
  - apply open_frame with dst; try done. rewrite B2, zlen_app.
    pose proof (zlen_ztake_le n (bytes src)). lia.
Qed.

Lemma impl_readln b style :
  open_buf b →
  match eol_at style (bytes b) with
  | None => evbuffer_readln b style = Some (b, None, 0)
  | Some (d, n) =>
      ∃ b', evbuffer_readln b style = Some (b', Some (ztake d (bytes b) ++ [0]), d) ∧ open_buf b' ∧
        bytes b' = zdrop (d + n) (bytes b)
  end.
Proof.
  intros Hb. destruct (Hb) as [W Hs He Hl].
  pose proof (readln_ok b style W) as H. rewrite (bw_total _ W) in H. specialize (H Hl Hs).
  unfold readln_spec in H. destruct (eol_at style (bytes b)) as [[d n]|] eqn:E; [|done].
  apply eol_at_range in E as (?&_&_).
  destruct H as [[Hm _]|(b' & -> & W' & F & B)]; [exfalso; by apply (malloc_never_fails (d + 1)); [lia|]|].
  exists b'. split; [done|]. split; [|done]. apply open_frame with b; try done.
  rewrite B. etransitivity; [|exact Hl]. unfold zdrop, zlen. rewrite length_drop. lia.
Qed.

#[export] Instance evbuffer_laws : EvbufferLaws evbuffer.
Proof.
  refine {| eb_inv := open_buf; eb_bytes := bytes; eb_cap := INT_MAX |}.
  - done.
  - exists evbuffer_new. split; [|split; [apply evbuffer_new_open|done]]. unfold eb_new, evbuffer_ops.
    destruct (mm_malloc SIZEOF_EVBUFFER) eqn:E; [done|]. by apply malloc_never_fails in E.
  - intros b []. split; [apply ob_wf0|done].
  - apply impl_add.
  - apply impl_add_printf.
  - apply impl_drain.
  - apply impl_pullup.
  - intros b _. unfold eb_pullup, evbuffer_ops, evbuffer_pullup. done.
  - apply impl_remove.
  - apply impl_add_buffer.
  - apply impl_remove_buffer.
  - apply impl_readln.
Defined.
End impl.
