(* ===== verification/EvbufferThms.v ===== *)
(** The contract of the byte queue: the theorems about [src/buffer.c], each for
    every well-formed buffer, with concrete instances. *)
From S2P Require Import Prelude Lines EvbufferDefs Evbuffer EvbufferOps EvbufferPullup EvbufferMove EvbufferSpace EvbufferSearch EvbufferPrintf.

(** * A concrete buffer and allocator *)

(** Zeroed blocks of at most a megabyte. *)
#[export] Instance demo_malloc : Malloc.
Proof.
  refine {| mm_malloc n := if n <=? 2 ^ 20 then Some (zrepeat 0 n) else None |}.
  intros n b Hn. destruct (n <=? 2 ^ 20); [|done]. intros [= <-]. by apply zlen_zrepeat.
Defined.

(** Two chains holding [10;11;12] and [13;14], with a callback. *)
Definition demo_buf : evbuffer :=
  Evbuffer [Chain [0; 10; 11; 12] 4 1 3 0 1; Chain [13; 14; 0; 0] 4 0 2 0 1] 1 5 0 0
    false false false false 1 [CbEntry 7 8 EVBUFFER_CB_ENABLED] [].
(** The same with deferred callbacks, one of which is not deferrable. *)
Definition demo_deferred : evbuffer :=
  Evbuffer (chains demo_buf) 1 5 0 0 false false true false 1
    [CbEntry 7 8 EVBUFFER_CB_ENABLED;
     CbEntry 9 9 (Z.lor EVBUFFER_CB_ENABLED EVBUFFER_CB_NODEFER)] [].

Lemma demo_wf : buf_wf demo_buf.
Proof.
  constructor; try done.
  - by repeat (constructor; [by constructor|]).
  - by apply (lwd_at [_] _ []).
Qed.
Lemma demo_deferred_wf : buf_wf demo_deferred.
Proof. destruct demo_wf. by constructor. Qed.
Lemma demo_bytes : bytes demo_buf = [10; 11; 12; 13; 14].
Proof. done. Qed.

(** * Reports to callbacks *)

Lemma notified_counts b na nd b' :
  notified b na nd b' → n_add_for_cb b = 0 → n_del_for_cb b = 0 → 0 <= na < 2 ^ 64 → 0 <= nd < 2 ^ 64 →
  ∃ b1, b' = evbuffer_invoke_callbacks_ b1 ∧ quiet b b1 ∧ n_add_for_cb b1 = na ∧ n_del_for_cb b1 = nd ∧
    total_len b' = total_len b1.
Proof.
  intros (b1 & -> & Q & A & D) A0 D0 Ha Hd. exists b1. rewrite A0 in A. rewrite D0 in D.
  rewrite Z.add_0_l, u64_small in A by done. rewrite Z.add_0_l, u64_small in D by done.
  split; [done|]. split; [done|]. split; [done|]. split; [done|].
  apply (sd_total _ _ (invoke_callbacks_same b1)).
Qed.

Definition enabled_cbs (b : evbuffer) : list cb_entry :=
  selected_cbs EVBUFFER_CB_ENABLED EVBUFFER_CB_ENABLED (callbacks b).
(** Enabled callbacks that may, and that may not, be deferred. *)
Definition deferrable_cbs (b : evbuffer) : list cb_entry :=
  selected_cbs (Z.lor EVBUFFER_CB_NODEFER EVBUFFER_CB_ENABLED) EVBUFFER_CB_ENABLED (callbacks b).
Definition nodefer_cbs (b : evbuffer) : list cb_entry :=
  selected_cbs (Z.lor EVBUFFER_CB_NODEFER EVBUFFER_CB_ENABLED)
    (Z.lor EVBUFFER_CB_NODEFER EVBUFFER_CB_ENABLED) (callbacks b).

Lemma notified_log b na nd b' :
  notified b na nd b' → n_add_for_cb b = 0 → n_del_for_cb b = 0 → 0 <= na < 2 ^ 64 → 0 <= nd < 2 ^ 64 →
  deferred_cbs b = false → 0 < na + nd → 0 <= total_len b <= EV_SIZE_MAX →
  total_len b' = total_len b + na - nd →
  cb_log b' = cb_log b ++
    map (λ e, CbCall e (total_len b) na nd (total_len b')) (enabled_cbs b) ∧
  n_add_for_cb b' = 0 ∧ n_del_for_cb b' = 0.
Proof.
  intros N A0 D0 Ha Hd Hdef Hpos Htot Hlen.
  destruct (notified_counts _ _ _ _ N A0 D0 Ha Hd) as (b1 & -> & [[_ _ Fd Fc] Ql _ _] & A & D & T).
  rewrite T in Hlen |- *. unfold evbuffer_invoke_callbacks_, enabled_cbs.
  rewrite Fc, Fd, Hdef. destruct (decide (callbacks b = [])) as [E|Hne].
  { rewrite bool_decide_true by done. rewrite E. simpl. by rewrite Ql, app_nil_r. }
  rewrite bool_decide_false by done. cbn [andb].
  unfold evbuffer_run_callbacks. rewrite Fc, Fd, Hdef, bool_decide_false by done.
  rewrite A, D. replace (u64 (total_len b1 + nd - na)) with (total_len b)
    by (rewrite Hlen, u64_small; unfold EV_SIZE_MAX in *; lia).
  destruct (Z.eqb_spec na 0), (Z.eqb_spec nd 0); try lia; cbn [andb]; simpl; by rewrite Ql.
Qed.

(** In deferred mode nothing is reported to deferrable callbacks until the
    deferred callback runs; the counters accumulate. *)
Lemma notified_deferred b na nd b' :
  notified b na nd b' → deferred_cbs b = true → callbacks b ≠ [] →
  n_add_for_cb b' = u64 (n_add_for_cb b + na) ∧ n_del_for_cb b' = u64 (n_del_for_cb b + nd) ∧
  deferred_queued b' = true ∧
  buf_refcnt b' = buf_refcnt b + (if deferred_queued b then 0 else 1).
Proof.
  intros (b1 & -> & [[_ _ Fd Fc] Ql Qq Qr] & A & D) Hdef Hne.
  unfold evbuffer_invoke_callbacks_. rewrite Fc, Fd, Hdef, bool_decide_false by done. cbn [andb].
  unfold evbuffer_run_callbacks. rewrite Qq.
  destruct (deferred_queued b) eqn:Eq; cbn [negb]; simpl;
    rewrite ?Fc, ?Fd, ?Hdef, bool_decide_false by done;
    (destruct (_ && _); simpl; rewrite ?A, ?D, ?Qq, ?Qr, ?Eq; split_and!; done || lia).
Qed.

Lemma deferred_callback_ok b :
  buf_wf b → callbacks b ≠ [] → 0 < buf_refcnt b →
  0 < n_add_for_cb b + n_del_for_cb b →
  ∃ b', evbuffer_deferred_callback b = Some b' ∧
    cb_log b' = cb_log b ++ map (λ e, CbCall e (u64 (total_len b + n_del_for_cb b - n_add_for_cb b))
      (n_add_for_cb b) (n_del_for_cb b) (total_len b)) (deferrable_cbs b) ∧
    n_add_for_cb b' = 0 ∧ n_del_for_cb b' = 0 ∧ deferred_queued b' = false ∧
    buf_refcnt b' = buf_refcnt b - 1 ∧ bytes b' = bytes b ∧ buf_wf b'.
Proof.
  intros Hb Hne Hrc Hpos. destruct (bw_add _ Hb), (bw_del _ Hb).
  unfold evbuffer_deferred_callback, evbuffer_run_callbacks. cbn [set_deferred callbacks n_add_for_cb n_del_for_cb].
  rewrite bool_decide_false by done.
  assert ((n_add_for_cb b =? 0) && (n_del_for_cb b =? 0) = false) as -> by lia.
  simpl. destruct (Z.ltb_spec 0 (buf_refcnt b)); [|lia]. cbn [assert_ mbind option_bind].
  eexists. split; [done|]. simpl. split_and!; try done.
  destruct Hb. by constructor.
Qed.

(** * Properties *)

(** C27: [evbuffer_add] appends all of the data behind the content, or leaves the
    content alone and reports failure; it fails only when the buffer is frozen,
    the length would overflow or memory runs out, and it never writes outside a
    chain or breaks the representation. *)
Theorem evbuffer_add_correct {MM : Malloc} b data :
  buf_wf b →
  ∃ b' rc, evbuffer_add b data = Some (b', rc) ∧ buf_wf b' ∧
    (rc = 0 ∧ bytes b' = bytes b ++ data ∧ notified b (zlen data) 0 b' ∨
     rc = -1 ∧ bytes b' = bytes b ∧ quiet b b' ∧
     (freeze_end b = true ∨ EV_SIZE_MAX < total_len b + zlen data ∨ alloc_failure (zlen data))).
Proof. apply add_ok. Qed.
Lemma evbuffer_add_correct_witness :
  ∃ b' rc, evbuffer_add demo_buf [1; 2; 3] = Some (b', rc) ∧ buf_wf b' ∧
    (rc = 0 ∧ bytes b' = bytes demo_buf ++ [1; 2; 3] ∧ notified demo_buf (zlen [1; 2; 3]) 0 b' ∨
     rc = -1 ∧ bytes b' = bytes demo_buf ∧ quiet demo_buf b' ∧
     (freeze_end demo_buf = true ∨ EV_SIZE_MAX < total_len demo_buf + zlen [1; 2; 3] ∨
      alloc_failure (zlen [1; 2; 3]))).
Proof. apply evbuffer_add_correct. exact demo_wf. Defined.

(** [evbuffer_prepend] puts the data in front of the content.  When it runs
    out of memory after using the room in front of the first chain it returns
    [-1] although the last [k] bytes of the data are already in the buffer. *)
Theorem evbuffer_prepend_correct {MM : Malloc} b data :
  buf_wf b →
  ∃ b' rc, evbuffer_prepend b data = Some (b', rc) ∧ buf_wf b' ∧
    (rc = 0 ∧ bytes b' = data ++ bytes b ∧ (data = [] ∧ b' = b ∨ notified b (zlen data) 0 b') ∨
     rc = -1 ∧ ∃ k, 0 <= k < zlen data ∧ bytes b' = zdrop (zlen data - k) data ++ bytes b ∧
       quiet b b' ∧
       (k = 0 ∧ (freeze_start b = true ∨ EV_SIZE_MAX < total_len b + zlen data) ∨
        alloc_failure (zlen data - k))).
Proof. apply prepend_ok. Qed.
Lemma evbuffer_prepend_correct_witness :
  ∃ b' rc, evbuffer_prepend demo_buf [1; 2; 3] = Some (b', rc) ∧ buf_wf b' ∧
    (rc = 0 ∧ bytes b' = [1; 2; 3] ++ bytes demo_buf ∧
       ([1; 2; 3] = [] ∧ b' = demo_buf ∨ notified demo_buf (zlen [1; 2; 3]) 0 b') ∨
     rc = -1 ∧ ∃ k, 0 <= k < zlen [1; 2; 3] ∧
       bytes b' = zdrop (zlen [1; 2; 3] - k) [1; 2; 3] ++ bytes demo_buf ∧ quiet demo_buf b' ∧
       (k = 0 ∧ (freeze_start demo_buf = true ∨ EV_SIZE_MAX < total_len demo_buf + zlen [1; 2; 3]) ∨
        alloc_failure (zlen [1; 2; 3] - k))).
Proof. apply evbuffer_prepend_correct. exact demo_wf. Defined.

(** a failing [evbuffer_prepend] really can leave a part of the data in the
    buffer: with an allocator that has no memory, prepending two bytes to a
    buffer with one free byte in front returns [-1] and has inserted one. *)
Theorem evbuffer_prepend_partial :
  let MM := {| mm_malloc := λ _, None; mm_malloc_len := λ n b _ (E : None = Some b), match E with end |} in
  ∃ b', @evbuffer_prepend MM demo_buf [1; 2] = Some (b', -1) ∧
    bytes b' = [2; 10; 11; 12; 13; 14] ∧ total_len b' = 6.
Proof. by eexists. Qed.

(** [evbuffer_drain] removes exactly the requested number of bytes from the
    front, or everything when fewer are there. *)
Theorem evbuffer_drain_correct b len :
  buf_wf b → 0 <= len →
  ∃ b' rc, evbuffer_drain b len = Some (b', rc) ∧ buf_wf b' ∧
    (rc = 0 ∧ bytes b' = zdrop len (bytes b) ∧
       (bytes b = [] ∧ b' = b ∨ notified b 0 (Z.min len (total_len b)) b') ∨
     rc = -1 ∧ b' = b ∧ freeze_start b = true ∧ bytes b ≠ []).
Proof. apply drain_ok. Qed.
Lemma evbuffer_drain_correct_witness :
  0 <= 4 ∧ ∃ b' rc, evbuffer_drain demo_buf 4 = Some (b', rc) ∧ buf_wf b' ∧
    (rc = 0 ∧ bytes b' = zdrop 4 (bytes demo_buf) ∧
       (bytes demo_buf = [] ∧ b' = demo_buf ∨ notified demo_buf 0 (Z.min 4 (total_len demo_buf)) b') ∨
     rc = -1 ∧ b' = demo_buf ∧ freeze_start demo_buf = true ∧ bytes demo_buf ≠ []).
Proof. split; [lia|]. apply evbuffer_drain_correct; [exact demo_wf|lia]. Defined.

(** [evbuffer_copyout_from] copies the bytes at a position without changing
    the buffer; it reads only the chains' data. *)
Theorem evbuffer_copyout_from_correct b p datlen :
  buf_wf b → 0 <= datlen → total_len b <= EV_SSIZE_MAX → (∀ q, p = Some q → ptr_ok b q) →
  let start := match p with Some q => pos q | None => 0 end in
  evbuffer_copyout_from b p datlen =
    Some (ztake datlen (zdrop start (bytes b)), Z.min datlen (total_len b - start)) ∨
  evbuffer_copyout_from b p datlen = Some ([], -1) ∧
    (freeze_start b = true ∧ 0 < datlen ∧ start < total_len b ∨ EV_SSIZE_MAX - start < datlen).
Proof. apply copyout_from_ok. Qed.
Lemma demo_ptr_ok q : Some (EvPtr 4 (Some 1%nat) 1) = Some q → ptr_ok demo_buf q.
Proof.
  intros [= <-]. split; [simpl; lia|]. simpl. eexists. split; [done|].
  split; [simpl; lia|]. done.
Defined.
Lemma evbuffer_copyout_from_correct_witness :
  let p := Some (EvPtr 4 (Some 1%nat) 1) in
  0 <= 3 ∧ total_len demo_buf <= EV_SSIZE_MAX ∧
  (evbuffer_copyout_from demo_buf p 3 =
    Some (ztake 3 (zdrop 4 (bytes demo_buf)), Z.min 3 (total_len demo_buf - 4)) ∨
  evbuffer_copyout_from demo_buf p 3 = Some ([], -1) ∧
    (freeze_start demo_buf = true ∧ 0 < 3 ∧ 4 < total_len demo_buf ∨ EV_SSIZE_MAX - 4 < 3)).
Proof.
  split; [lia|]. split; [by vm_compute|].
  apply (evbuffer_copyout_from_correct demo_buf (Some (EvPtr 4 (Some 1%nat) 1)) 3);
    [exact demo_wf|lia|by vm_compute|exact demo_ptr_ok].
Defined.

(** [evbuffer_remove] returns the first bytes of the content and leaves the
    rest. *)
Theorem evbuffer_remove_correct b datlen :
  buf_wf b → 0 <= datlen → total_len b <= INT_MAX → freeze_start b = false →
  ∃ b', evbuffer_remove b datlen =
          Some (b', ztake datlen (bytes b), Z.min datlen (total_len b)) ∧
    buf_wf b' ∧ bytes b' = zdrop datlen (bytes b) ∧
    (b' = b ∧ Z.min datlen (total_len b) = 0 ∨ notified b 0 (Z.min datlen (total_len b)) b').
Proof. apply remove_ok. Qed.
Lemma evbuffer_remove_correct_witness :
  0 <= 4 ∧ total_len demo_buf <= INT_MAX ∧ freeze_start demo_buf = false ∧
  ∃ b', evbuffer_remove demo_buf 4 =
          Some (b', ztake 4 (bytes demo_buf), Z.min 4 (total_len demo_buf)) ∧
    buf_wf b' ∧ bytes b' = zdrop 4 (bytes demo_buf) ∧
    (b' = demo_buf ∧ Z.min 4 (total_len demo_buf) = 0 ∨
     notified demo_buf 0 (Z.min 4 (total_len demo_buf)) b').
Proof.
  split; [lia|]. split; [by vm_compute|]. split; [done|].
  apply evbuffer_remove_correct; [exact demo_wf|lia|by vm_compute|done].
Defined.

(** [evbuffer_pullup] makes at least the requested number of bytes
    contiguous at the returned pointer and never changes the content; it
    returns [NULL] only for zero bytes, for more than there are, or when memory
    runs out. *)
Theorem evbuffer_pullup_correct {MM : Malloc} b size :
  buf_wf b →
  let n := if size <? 0 then total_len b else size in
  (∃ b' d, evbuffer_pullup b size = Some (b', Some d) ∧ 0 < n <= total_len b ∧
     buf_wf b' ∧ bytes b' = bytes b ∧ quiet b b' ∧ d = ztake (zlen d) (bytes b) ∧ n <= zlen d) ∨
  evbuffer_pullup b size = Some (b, None) ∧ (n = 0 ∨ total_len b < n ∨ alloc_failure n).
Proof.
  intros Hb n. destruct (pullup_ok b size Hb) as [[Hn (b' & d & E & ? & ? & ? & _ & _ & _ & ? & ?)]|?].
  - left. exists b', d. auto 10.
  - by right.
Qed.
Lemma evbuffer_pullup_correct_witness :
  (∃ b' d, evbuffer_pullup demo_buf 4 = Some (b', Some d) ∧ 0 < 4 <= total_len demo_buf ∧
     buf_wf b' ∧ bytes b' = bytes demo_buf ∧ quiet demo_buf b' ∧
     d = ztake (zlen d) (bytes demo_buf) ∧ 4 <= zlen d) ∨
  evbuffer_pullup demo_buf 4 = Some (demo_buf, None) ∧
    (4 = 0 ∨ total_len demo_buf < 4 ∨ alloc_failure 4).
Proof. apply (evbuffer_pullup_correct demo_buf 4). exact demo_wf. Defined.

(** [evbuffer_add_buffer] and [evbuffer_prepend_buffer] move the whole
    content of one buffer behind, respectively in front of, the content of the
    other; they change nothing when a buffer is frozen.  No chain is copied and
    no allocation is needed. *)
Theorem evbuffer_move_correct {MM : Malloc} outbuf inbuf :
  buf_wf outbuf → buf_wf inbuf → total_len outbuf + total_len inbuf <= EV_SIZE_MAX →
  move_spec (bytes outbuf ++ bytes inbuf) outbuf inbuf (evbuffer_add_buffer outbuf inbuf false) ∧
  move_spec (bytes inbuf ++ bytes outbuf) outbuf inbuf (evbuffer_prepend_buffer outbuf inbuf false).
Proof. intros. split; [by apply add_buffer_ok|by apply prepend_buffer_ok]. Qed.
Lemma evbuffer_move_correct_witness :
  total_len demo_buf + total_len demo_deferred <= EV_SIZE_MAX ∧
  move_spec (bytes demo_buf ++ bytes demo_deferred) demo_buf demo_deferred
    (evbuffer_add_buffer demo_buf demo_deferred false) ∧
  move_spec (bytes demo_deferred ++ bytes demo_buf) demo_buf demo_deferred
    (evbuffer_prepend_buffer demo_buf demo_deferred false).
Proof.
  split; [by vm_compute|].
  apply evbuffer_move_correct; [exact demo_wf|exact demo_deferred_wf|by vm_compute].
Defined.

(** [evbuffer_remove_buffer] takes exactly [datlen] bytes off the front of
    [src]; all of them arrive behind the content of [dst], except for a part of
    the last chain whose copy failed for lack of memory: those bytes are lost
    although the function reports them as moved. *)
Theorem evbuffer_remove_buffer_correct {MM : Malloc} src dst datlen :
  buf_wf src → buf_wf dst → 0 <= datlen → total_len dst + total_len src <= EV_SIZE_MAX →
  ∃ src' dst' rc, evbuffer_remove_buffer src dst datlen false = Some (src', dst', rc) ∧
    buf_wf src' ∧ buf_wf dst' ∧ frame src src' ∧ frame dst dst' ∧
    (rc = i32 (Z.min datlen (total_len src)) ∧ bytes src' = zdrop datlen (bytes src) ∧
       (∃ lost, 0 <= lost <= datlen ∧ bytes dst' = bytes dst ++ ztake (datlen - lost) (bytes src) ∧
                (lost = 0 ∨ lost <= total_len src ∧ alloc_failure lost)) ∨
     rc = -1 ∧ src' = src ∧ dst' = dst ∧ (frozen src ∨ frozen dst)).
Proof. apply remove_buffer_ok. Qed.
Lemma evbuffer_remove_buffer_correct_witness :
  0 <= 4 ∧ total_len demo_deferred + total_len demo_buf <= EV_SIZE_MAX ∧
  ∃ src' dst' rc, evbuffer_remove_buffer demo_buf demo_deferred 4 false = Some (src', dst', rc) ∧
    buf_wf src' ∧ buf_wf dst' ∧ frame demo_buf src' ∧ frame demo_deferred dst' ∧
    (rc = i32 (Z.min 4 (total_len demo_buf)) ∧ bytes src' = zdrop 4 (bytes demo_buf) ∧
       (∃ lost, 0 <= lost <= 4 ∧
          bytes dst' = bytes demo_deferred ++ ztake (4 - lost) (bytes demo_buf) ∧
          (lost = 0 ∨ lost <= total_len demo_buf ∧ alloc_failure lost)) ∨
     rc = -1 ∧ src' = demo_buf ∧ dst' = demo_deferred ∧ (frozen demo_buf ∨ frozen demo_deferred)).
Proof.
  split; [lia|]. split; [by vm_compute|].
  apply evbuffer_remove_buffer_correct; [exact demo_wf|exact demo_deferred_wf|lia|by vm_compute].
Defined.

(** without memory, [evbuffer_remove_buffer] loses data: moving four of five
    bytes reports 4, removes 4 and delivers 3. *)
Theorem evbuffer_remove_buffer_loss :
  let MM := {| mm_malloc := λ _, None; mm_malloc_len := λ n b _ (E : None = Some b), match E with end |} in
  ∃ src' dst', @evbuffer_remove_buffer MM demo_buf evbuffer_new 4 false = Some (src', dst', 4) ∧
    bytes src' = [14] ∧ bytes dst' = [10; 11; 12].
Proof. by eexists _, _. Qed.

(** [evbuffer_expand] (through [evbuffer_expand_singlechain]) finds or makes
    a chain with room for [datlen] bytes and keeps the content; it fails only
    when memory runs out. *)
Theorem evbuffer_expand_correct {MM : Malloc} b datlen :
  buf_wf b → 0 <= datlen →
  ∃ b' rc, evbuffer_expand b datlen = Some (b', rc) ∧ same_content b b' ∧
    (rc = 0 ∧ (∃ c, c ∈ chains b' ∧ datlen <= CHAIN_SPACE_LEN c) ∨
     rc = -1 ∧ ∃ size, datlen <= size <= datlen + MAX_TO_COPY_IN_EXPAND ∧ alloc_failure size).
Proof. apply expand_ok. Qed.
Lemma evbuffer_expand_correct_witness :
  0 <= 100 ∧ ∃ b' rc, evbuffer_expand demo_buf 100 = Some (b', rc) ∧ same_content demo_buf b' ∧
    (rc = 0 ∧ (∃ c, c ∈ chains b' ∧ 100 <= CHAIN_SPACE_LEN c) ∨
     rc = -1 ∧ ∃ size, 100 <= size <= 100 + MAX_TO_COPY_IN_EXPAND ∧ alloc_failure size).
Proof. split; [lia|]. apply evbuffer_expand_correct; [exact demo_wf|lia]. Defined.

(** [evbuffer_expand_fast_] makes room for [datlen] bytes in the first [n]
    chains that can take data, without moving any data, and keeps the content
    also when it fails. *)
Theorem evbuffer_expand_fast_correct {MM : Malloc} b datlen n :
  buf_wf b → 0 < datlen <= EV_SSIZE_MAX → (2 <= n)%nat →
  ∃ b' rc, evbuffer_expand_fast_ b datlen n = Some (b', rc) ∧ same_content b b' ∧
    (rc = 0 ∧ datlen <= room n b' ∨ rc = -1 ∧ ∃ size, 0 <= size <= datlen ∧ alloc_failure size).
Proof. apply expand_fast_ok. Qed.
Lemma evbuffer_expand_fast_correct_witness :
  0 < 100 <= EV_SSIZE_MAX ∧ (2 <= 2)%nat ∧
  ∃ b' rc, evbuffer_expand_fast_ demo_buf 100 2 = Some (b', rc) ∧ same_content demo_buf b' ∧
    (rc = 0 ∧ 100 <= room 2 b' ∨ rc = -1 ∧ ∃ size, 0 <= size <= 100 ∧ alloc_failure size).
Proof.
  split; [by vm_compute|]. split; [lia|].
  apply evbuffer_expand_fast_correct; [exact demo_wf|by vm_compute|lia].
Defined.

(** [evbuffer_commit_space] appends exactly the bytes written into the
    reserved vectors; vectors that do not start at the free space of consecutive
    chains, or are too long, are refused without any change. *)
Theorem evbuffer_commit_space_correct b vecs :
  buf_wf b → total_len b + zlen (vecs_data vecs) <= EV_SIZE_MAX →
  ∃ b' rc, evbuffer_commit_space b vecs = Some (b', rc) ∧ buf_wf b' ∧
    (rc = 0 ∧ bytes b' = bytes b ++ vecs_data vecs ∧
       (vecs = [] ∧ b' = b ∨ notified b (zlen (vecs_data vecs)) 0 b') ∨
     rc = -1 ∧ b' = b).
Proof. apply commit_ok. Qed.
Lemma evbuffer_commit_space_correct_witness :
  let v := [(1%nat, 2, [15; 16])] in
  total_len demo_buf + zlen (vecs_data v) <= EV_SIZE_MAX ∧
  ∃ b' rc, evbuffer_commit_space demo_buf v = Some (b', rc) ∧ buf_wf b' ∧
    (rc = 0 ∧ bytes b' = bytes demo_buf ++ vecs_data v ∧
       (v = [] ∧ b' = demo_buf ∨ notified demo_buf (zlen (vecs_data v)) 0 b') ∨
     rc = -1 ∧ b' = demo_buf).
Proof.
  split; [by vm_compute|].
  apply (evbuffer_commit_space_correct demo_buf [(1%nat, 2, [15; 16])]); [exact demo_wf|by vm_compute].
Defined.

(** [evbuffer_chain_new] allocates a block that holds the header and the
    requested bytes, is at most twice that (or the 1024-byte minimum), and does
    not overflow; requests above the limit are refused. *)
Theorem evbuffer_chain_new_bounds {MM : Malloc} size c :
  0 <= size → evbuffer_chain_new size = Some c →
  size <= buffer_len c <= EVBUFFER_CHAIN_MAX - EVBUFFER_CHAIN_SIZE ∧
  zlen (buffer c) = buffer_len c ∧ off c = 0 ∧ misalign c = 0 ∧ ch_refcnt c = 1 ∧
  (size + EVBUFFER_CHAIN_SIZE < EVBUFFER_CHAIN_MAX `div` 2 →
   buffer_len c + EVBUFFER_CHAIN_SIZE <= Z.max MIN_BUFFER_SIZE (2 * (size + EVBUFFER_CHAIN_SIZE))).
Proof.
  intros Hs E. destruct (chain_new_spec size c Hs E) as (W & Ho & Hm & Hsz & _ & Hmax).
  destruct W. split; [done|]. split; [done|]. split; [done|]. split; [done|]. split; [|done].
  unfold evbuffer_chain_new in E. destruct (_ <? size); [done|].
  set (ta := if _ <? _ then _ else _) in E. clearbody ta.
  destruct (mm_malloc ta); [|done]. cbn [mbind option_bind] in E. by injection E as <-.
Qed.
Lemma evbuffer_chain_new_bounds_witness :
  match evbuffer_chain_new 100 with
  | None => False
  | Some c =>
      100 <= buffer_len c <= EVBUFFER_CHAIN_MAX - EVBUFFER_CHAIN_SIZE ∧
      zlen (buffer c) = buffer_len c ∧ off c = 0 ∧ misalign c = 0 ∧ ch_refcnt c = 1 ∧
      (100 + EVBUFFER_CHAIN_SIZE < EVBUFFER_CHAIN_MAX `div` 2 →
       buffer_len c + EVBUFFER_CHAIN_SIZE <=
         Z.max MIN_BUFFER_SIZE (2 * (100 + EVBUFFER_CHAIN_SIZE)))
  end.
Proof.
  destruct (evbuffer_chain_new 100) as [c|] eqn:E; [|by vm_compute in E].
  apply (evbuffer_chain_new_bounds 100 c); [lia|exact E].
Defined.

(** callbacks see every change once: after adding [data] to a buffer whose
    callbacks are immediate and whose counters are clear, exactly the enabled
    callbacks have run, each told the old size, the number of bytes added and
    the new size, and the counters are clear again. *)
Theorem evbuffer_add_reports {MM : Malloc} b data b' :
  buf_wf b → deferred_cbs b = false → n_add_for_cb b = 0 → n_del_for_cb b = 0 → data ≠ [] →
  evbuffer_add b data = Some (b', 0) →
  cb_log b' = cb_log b ++
    map (λ e, CbCall e (total_len b) (zlen data) 0 (total_len b + zlen data)) (enabled_cbs b) ∧
  n_add_for_cb b' = 0 ∧ n_del_for_cb b' = 0.
Proof.
  intros Hb Hdef A0 D0 Hne E.
  destruct (add_ok b data Hb) as (b1 & rc & E1 & W1 & Hr). rewrite E in E1. injection E1 as <- <-.
  destruct Hr as [(_ & B & N)|(? & _)]; [|done].
  pose proof (bw_total _ Hb). pose proof (bw_total _ W1) as T1. rewrite B, zlen_app in T1.
  pose proof (bw_max _ Hb). pose proof (bw_max _ W1). pose proof (wf_nonneg _ Hb).
  assert (0 < zlen data).
  { pose proof (zlen_nonneg data). destruct (Z.eq_dec (zlen data) 0) as [?%zlen_nil_inv|]; done || lia. }
  destruct (notified_log _ _ _ _ N A0 D0) as (L & ? & ?); try (unfold EV_SIZE_MAX in *; lia); [done|].
  rewrite L. replace (total_len b') with (total_len b + zlen data) by lia. done.
Qed.
Lemma evbuffer_add_reports_witness :
  match evbuffer_add demo_buf [1; 2] with
  | Some (b', rc) => rc = 0 ∧
      cb_log b' = cb_log demo_buf ++
        map (λ e, CbCall e (total_len demo_buf) (zlen [1; 2]) 0 (total_len demo_buf + zlen [1; 2]))
          (enabled_cbs demo_buf) ∧
      n_add_for_cb b' = 0 ∧ n_del_for_cb b' = 0
  | None => False
  end.
Proof.
  destruct (evbuffer_add demo_buf [1; 2]) as [[b' rc]|] eqn:E; [|by vm_compute in E].
  assert (rc = 0) as Hrc by (vm_compute in E; congruence). split; [exact Hrc|].
  apply evbuffer_add_reports; [exact demo_wf|done|done|done|done|congruence].
Defined.

(** deferred callbacks coalesce: after adding and then draining with
    deferred callbacks, one deferred callback is queued (holding one reference)
    and its run tells every deferrable callback the size before both changes,
    all bytes added and all bytes removed. *)
Theorem evbuffer_deferred_coalesce {MM : Malloc} b data b1 len b2 :
  buf_wf b → deferred_cbs b = true → callbacks b ≠ [] → deferred_queued b = false → 0 < buf_refcnt b →
  n_add_for_cb b = 0 → n_del_for_cb b = 0 → data ≠ [] → 0 < len →
  evbuffer_add b data = Some (b1, 0) → evbuffer_drain b1 len = Some (b2, 0) →
  let removed := Z.min len (total_len b + zlen data) in
  deferred_queued b2 = true ∧ buf_refcnt b2 = buf_refcnt b + 1 ∧
  ∃ b3, evbuffer_deferred_callback b2 = Some b3 ∧
    cb_log b3 = cb_log b2 ++ map (λ e, CbCall e (total_len b) (zlen data) removed
      (total_len b + zlen data - removed)) (deferrable_cbs b) ∧
    n_add_for_cb b3 = 0 ∧ n_del_for_cb b3 = 0 ∧ deferred_queued b3 = false ∧
    buf_refcnt b3 = buf_refcnt b ∧ bytes b3 = zdrop len (bytes b ++ data).
Proof.
  intros Hb Hdef Hne Hq Hrc A0 D0 Hdata Hlen Ea Ed removed.
  destruct (add_ok b data Hb) as (b1' & rc & E1 & W1 & Hr). rewrite Ea in E1. injection E1 as <- <-.
  destruct Hr as [(_ & B1 & N1)|(? & _)]; [|done].
  destruct (drain_ok b1 len W1 ltac:(lia)) as (b2' & rc & E2 & W2 & Hr). rewrite Ed in E2. injection E2 as <- <-.
  destruct Hr as [(_ & B2 & N2)|(? & _)]; [|done].
  pose proof (bw_total _ Hb). pose proof (bw_total _ W1) as T1. rewrite B1, zlen_app in T1.
  pose proof (bw_total _ W2) as T2. pose proof (bw_max _ W1). pose proof (wf_nonneg _ Hb).
  assert (0 < zlen data) as Hpos.
  { pose proof (zlen_nonneg data). destruct (Z.eq_dec (zlen data) 0) as [?%zlen_nil_inv|]; done || lia. }
  assert (Hfr1 := frame_notified _ _ _ _ N1). destruct Hfr1 as [_ _ Fd Fc].
  destruct N2 as [[E0 _]|N2].
  { rewrite B1 in E0. apply app_nil in E0 as [_ E0]. done. }
  destruct (notified_deferred _ _ _ _ N1 Hdef Hne) as (A1 & D1 & Q1 & R1).
  destruct (notified_deferred _ _ _ _ N2) as (A2 & D2 & Q2 & R2); [congruence|by rewrite Fc|].
  assert (Hfr2 := frame_notified _ _ _ _ N2). destruct Hfr2 as [_ _ Fd2 Fc2].
  assert (Hmin : Z.min len (total_len b1) = removed) by (unfold removed; lia).
  unfold EV_SIZE_MAX in *.
  rewrite A0, Z.add_0_l, u64_small in A1 by lia. rewrite D0, Z.add_0_l in D1. change (u64 0) with 0 in D1.
  rewrite A1, Z.add_0_r, u64_small in A2 by lia. rewrite D1, Z.add_0_l, Hmin, u64_small in D2 by lia.
  rewrite Q1 in R2. rewrite Hq in R1. cbn iota in R1, R2. split; [done|]. split; [lia|].
  destruct (deferred_callback_ok b2 W2) as (b3 & E3 & L3 & A3 & D3 & Q3 & R3 & B3 & _);
    [by rewrite Fc2, Fc|lia|lia|].
  exists b3. split; [done|].
  assert (total_len b2 = total_len b + zlen data - removed) as Tb2.
  { rewrite T2, B2. unfold removed. pose proof (bw_total _ W1). destruct (Z.le_gt_cases len (total_len b1)).
    - rewrite zlen_zdrop; lia.
    - rewrite zdrop_all by (rewrite <- (bw_total _ W1); lia). change (zlen (@nil Z)) with 0. lia. }
  split; [|split; [done|split; [done|split; [done|split; [lia|by rewrite B3, B2, B1]]]]].
  rewrite L3, A2, D2, Tb2. unfold deferrable_cbs. rewrite Fc2, Fc.
  replace (u64 (total_len b + zlen data - removed + removed - zlen data)) with (total_len b); [done|].
  symmetry. replace (total_len b + zlen data - removed + removed - zlen data) with (total_len b) by lia.
  apply u64_small. lia.
Qed.
Lemma evbuffer_deferred_coalesce_witness :
  match evbuffer_add demo_deferred [1; 2] with
  | Some (b1, _) =>
      match evbuffer_drain b1 3 with
      | Some (b2, _) =>
          let removed := Z.min 3 (total_len demo_deferred + zlen [1; 2]) in
          deferred_queued b2 = true ∧ buf_refcnt b2 = buf_refcnt demo_deferred + 1 ∧
          ∃ b3, evbuffer_deferred_callback b2 = Some b3 ∧
            cb_log b3 = cb_log b2 ++
              map (λ e, CbCall e (total_len demo_deferred) (zlen [1; 2]) removed
                (total_len demo_deferred + zlen [1; 2] - removed)) (deferrable_cbs demo_deferred) ∧
            n_add_for_cb b3 = 0 ∧ n_del_for_cb b3 = 0 ∧ deferred_queued b3 = false ∧
            buf_refcnt b3 = buf_refcnt demo_deferred ∧ bytes b3 = zdrop 3 (bytes demo_deferred ++ [1; 2])
      | None => False
      end
  | None => False
  end.
Proof.
  destruct (evbuffer_add demo_deferred [1; 2]) as [[b1 r1]|] eqn:E1; [|by vm_compute in E1].
  assert (r1 = 0) as -> by (vm_compute in E1; congruence).
  destruct (evbuffer_drain b1 3) as [[b2 r2]|] eqn:E2;
    [|vm_compute in E1; injection E1 as <-; by vm_compute in E2].
  assert (r2 = 0) as -> by (vm_compute in E1; injection E1 as <-; vm_compute in E2; congruence).
  apply (evbuffer_deferred_coalesce demo_deferred [1; 2] b1 3 b2);
    [exact demo_deferred_wf|done|done|done|done|done|done|done|lia|exact E1|exact E2].
Defined.

(** * Searching, lines, formatted output *)

(** C36: [evbuffer_search_range] finds exactly the first occurrence at or behind
    the start of the string in the content, as if the content were one flat
    array, whatever chains it is split over; a match that is not wholly before
    the end, and no match, give the position [-1].  It always terminates. *)
Theorem evbuffer_search_correct b what start end_ :
  buf_wf b → total_len b <= EV_SSIZE_MAX → what ≠ [] → zlen what <= EV_SSIZE_MAX →
  (∀ p, start = Some p → ptr_ok b p) → (∀ e, end_ = Some e → ptr_ok b e) →
  let st := match start with Some p => pos p | None => 0 end in
  match find_sub what (zdrop st (bytes b)) with
  | Some d =>
      if match end_ with Some e => pos e <? st + d + zlen what | None => false end
      then evbuffer_search_range b what start end_ = Some PTR_NOT_FOUND
      else ∃ q, evbuffer_search_range b what start end_ = Some q ∧ ptr_ok b q ∧ pos q = st + d
  | None => evbuffer_search_range b what start end_ = Some PTR_NOT_FOUND
  end.
Proof.
  intros W Hmax Hne Hw Hs He st.
  pose proof (search_range_ok b what start end_ W Hmax Hne Hw Hs He) as H. unfold search_spec in H.
  assert (pos (default (ptr_start b) start) = st) as E by by destruct start. rewrite E in H.
  destruct (find_sub _ _) as [d|]; [|done]. destruct (match end_ with Some _ => _ | None => _ end); [done|].
  destruct H as (q & -> & Hq & ?). exists q. split; [done|]. split; [by apply ptr_at_ok|done].
Qed.
Lemma evbuffer_search_correct_witness :
  total_len demo_buf <= EV_SSIZE_MAX ∧ zlen [12; 13] <= EV_SSIZE_MAX ∧
  match find_sub [12; 13] (zdrop 0 (bytes demo_buf)) with
  | Some d =>
      if 4 <? 0 + d + zlen [12; 13]
      then evbuffer_search_range demo_buf [12; 13] None (Some (EvPtr 4 (Some 1%nat) 1)) = Some PTR_NOT_FOUND
      else ∃ q, evbuffer_search_range demo_buf [12; 13] None (Some (EvPtr 4 (Some 1%nat) 1)) = Some q ∧
             ptr_ok demo_buf q ∧ pos q = 0 + d
  | None => evbuffer_search_range demo_buf [12; 13] None (Some (EvPtr 4 (Some 1%nat) 1)) = Some PTR_NOT_FOUND
  end.
Proof.
  split; [by vm_compute|]. split; [by vm_compute|].
  apply (evbuffer_search_correct demo_buf [12; 13] None (Some (EvPtr 4 (Some 1%nat) 1)));
    [exact demo_wf|by vm_compute|done|by vm_compute|done|exact demo_ptr_ok].
Defined.

(** C37: [evbuffer_readln] splits the content at the first line end of its style:
    it returns the bytes before it with a zero behind them and leaves the bytes
    behind the terminator; without a complete line, or without memory for the
    line, it returns [NULL] and changes nothing. *)
Theorem evbuffer_readln_correct {MM : Malloc} b style :
  buf_wf b → total_len b <= INT_MAX → freeze_start b = false →
  match eol_at style (bytes b) with
  | None => evbuffer_readln b style = Some (b, None, 0)
  | Some (d, n) =>
      mm_malloc (d + 1) = None ∧ evbuffer_readln b style = Some (b, None, 0) ∨
      ∃ b', evbuffer_readln b style = Some (b', Some (ztake d (bytes b) ++ [0]), d) ∧ buf_wf b' ∧
        frame b b' ∧ bytes b' = zdrop (d + n) (bytes b)
  end.
Proof. apply readln_ok. Qed.
Lemma evbuffer_readln_correct_witness :
  total_len demo_buf <= INT_MAX ∧ freeze_start demo_buf = false ∧
  match eol_at EVBUFFER_EOL_LF (bytes demo_buf) with
  | None => evbuffer_readln demo_buf EVBUFFER_EOL_LF = Some (demo_buf, None, 0)
  | Some (d, n) =>
      mm_malloc (d + 1) = None ∧ evbuffer_readln demo_buf EVBUFFER_EOL_LF = Some (demo_buf, None, 0) ∨
      ∃ b', evbuffer_readln demo_buf EVBUFFER_EOL_LF = Some (b', Some (ztake d (bytes demo_buf) ++ [0]), d) ∧
        buf_wf b' ∧ frame demo_buf b' ∧ bytes b' = zdrop (d + n) (bytes demo_buf)
  end.
Proof.
  split; [by vm_compute|]. split; [done|].
  apply (evbuffer_readln_correct demo_buf EVBUFFER_EOL_LF); [exact demo_wf|by vm_compute|done].
Defined.

(** [evbuffer_add_printf] appends exactly the formatted text, however much
    longer than the room it tried first, and leaves the content alone when it
    fails; two rounds of formatting are enough. *)
Theorem evbuffer_add_printf_correct {MM : Malloc} b text :
  buf_wf b → total_len b + zlen text <= EV_SIZE_MAX →
  ∃ b' rc, evbuffer_add_printf b text = Some (b', rc) ∧ buf_wf b' ∧
    (rc = zlen text ∧ bytes b' = bytes b ++ text ∧ notified b (zlen text) 0 b' ∨
     rc = -1 ∧ bytes b' = bytes b ∧ quiet b b' ∧
     (freeze_end b = true ∨ INT_MAX < zlen text ∨
      ∃ size, size <= Z.max 64 (zlen text + 1) + MAX_TO_COPY_IN_EXPAND ∧ alloc_failure size)).
Proof. apply printf_ok. Qed.
Lemma evbuffer_add_printf_correct_witness :
  total_len demo_buf + zlen (zrepeat 65 100) <= EV_SIZE_MAX ∧
  ∃ b' rc, evbuffer_add_printf demo_buf (zrepeat 65 100) = Some (b', rc) ∧ buf_wf b' ∧
    (rc = zlen (zrepeat 65 100) ∧ bytes b' = bytes demo_buf ++ zrepeat 65 100 ∧
       notified demo_buf (zlen (zrepeat 65 100)) 0 b' ∨
     rc = -1 ∧ bytes b' = bytes demo_buf ∧ quiet demo_buf b' ∧
     (freeze_end demo_buf = true ∨ INT_MAX < zlen (zrepeat 65 100) ∨
      ∃ size, size <= Z.max 64 (zlen (zrepeat 65 100) + 1) + MAX_TO_COPY_IN_EXPAND ∧ alloc_failure size)).
Proof.
  split; [by vm_compute|].
  apply (evbuffer_add_printf_correct demo_buf (zrepeat 65 100)); [exact demo_wf|by vm_compute].
Defined.
