(* ===== verification/TaggingDefs.v ===== *)
(** Tagged data, [src/event_tagging.c]: encoding and decoding of integers, tags
    and the tag-length-value records built from them.

    The functions work on any byte queue with the operations of
    [EvbufferIface].  Arrays on the stack are lists updated in place ([zset]);
    [None] means that a function touched memory outside an array or outside the
    bytes [evbuffer_pullup] returned, or that the queue got stuck.  A pointer
    parameter that receives a result is an [option], [None] when the function
    returned without writing it. *)
From S2P Require Import Prelude EvbufferIface Timeval.

(** * Integers *)

(** The loop of [ENCODE_INT_INTERNAL]; 64-bit numbers have 16 nibbles. *)
Fixpoint encode_loop (fuel : nat) (data : list Z) (number off : Z) : option (list Z * Z) :=
  match fuel with
  | O => None
  | S fuel =>
      if number =? 0 then Some (data, off)
      else
        b ← zget data (off `div` 2);
        let b := if has off 1 then Z.lor (Z.land b 0xf0) (Z.land number 0x0f)
                 else Z.lor (Z.land b 0x0f) (u8 (Z.shiftl (Z.land number 0x0f) 4)) in
        data ← zset data (off `div` 2) b;
        encode_loop fuel data (Z.shiftr number 4) (off + 1)
  end.

(** [ENCODE_INT_INTERNAL]: the array and the number of bytes used. *)
Definition ENCODE_INT_INTERNAL (size number : Z) : option (list Z * Z) :=
  let data := zrepeat 0 (size + 1) in
  '(data, off) ← encode_loop 17 data number 1;
  let nibbles := if 2 <? off then off - 2 else 0 in
  b ← zget data 0;
  data ← zset data 0 (Z.lor (Z.land b 0x0f) (Z.shiftl (Z.land nibbles 0x0f) 4));
  Some (data, (off + 1) `div` 2).

Definition encode_int_internal (number : Z) : option (list Z * Z) := ENCODE_INT_INTERNAL 4 number.
Definition encode_int64_internal (number : Z) : option (list Z * Z) := ENCODE_INT_INTERNAL 8 number.

(** The loop of [evtag_encode_tag]. *)
Fixpoint encode_tag_loop (fuel : nat) (data : list Z) (tag bytes : Z) : option (list Z * Z) :=
  match fuel with
  | O => None
  | S fuel =>
      let lower := Z.land tag 0x7f in
      let tag := Z.shiftr tag 7 in
      let lower := if negb (tag =? 0) then Z.lor lower 0x80 else lower in
      data ← zset data bytes lower;
      if negb (tag =? 0) then encode_tag_loop fuel data tag (bytes + 1) else Some (data, bytes + 1)
  end.

(** The decoding loop of [decode_tag_internal]: [inl tt] when the tag does not
    fit into 32 bits, otherwise the number, [count] and [done]. *)
Fixpoint decode_tag_loop (fuel : nat) (data : list Z) (len count shift number : Z)
  : option (unit + Z * Z * bool) :=
  match fuel with
  | O => None
  | S fuel =>
      if count <? len then
        lower ← zget data count;
        let count := count + 1 in
        if (28 <=? shift) && ((28 <? shift) || (15 <? Z.land lower 0x7f)) then Some (inl tt)
        else
          let number := Z.lor number (u32 (Z.shiftl (Z.land lower 0x7f) shift)) in
          let shift := shift + 7 in
          if negb (has lower 0x80) then Some (inr (number, count, true))
          else decode_tag_loop fuel data len count shift number
      else Some (inr (number, count + 1, false))
  end.

(** The nibbles of a number, most significant first. *)
Fixpoint decode_nibbles (nibbles : nat) (width : Z) (data : list Z) (number : Z) : option Z :=
  match nibbles with
  | O => Some number
  | S k =>
      let number := Z.shiftl number 4 mod 2 ^ width in
      b ← zget data (Z.of_nat nibbles `div` 2);
      let n := if has (Z.of_nat nibbles) 1 then Z.land b 0x0f
               else Z.shiftr (Z.land b 0xf0) 4 in
      decode_nibbles k width data (Z.lor number n)
  end.

Section tagging.
Context {B : Type} {EO : EvbufferOps B}.

(** [data = evbuffer_pullup(evbuf, offset + n) + offset]: a [NULL] result
    passes the check that follows when [offset] is not zero and the next read
    goes through an invalid pointer. *)
Definition pullup_at (evbuf : B) (offset n : Z) : option (B * option (list Z)) :=
  '(evbuf, d) ← eb_pullup evbuf (offset + n);
  match d with
  | Some d => Some (evbuf, Some (zdrop offset d))
  | None => if offset =? 0 then Some (evbuf, None) else None
  end.

(** [DECODE_INT_INTERNAL]: returned length and decoded number. *)
Definition DECODE_INT_INTERNAL (maxnibbles width : Z) (evbuf : B) (offset : Z)
  : option (B * Z * option Z) :=
  let len := eb_length evbuf - offset in
  if len <=? 0 then Some (evbuf, -1, None)
  else
    '(evbuf, data) ← pullup_at evbuf offset 1;
    match data with
    | None => Some (evbuf, -1, None)
    | Some data =>
        b ← zget data 0;
        let nibbles := Z.shiftr (Z.land b 0xf0) 4 + 1 in
        if (maxnibbles <? nibbles) || (len <? Z.shiftr nibbles 1 + 1) then Some (evbuf, -1, None)
        else
          let len := Z.shiftr nibbles 1 + 1 in
          '(evbuf, data) ← pullup_at evbuf offset len;
          match data with
          | None => Some (evbuf, -1, None)
          | Some data =>
              number ← decode_nibbles (Z.to_nat nibbles) width data 0;
              Some (evbuf, len, Some number)
          end
    end.

Definition decode_int_internal (evbuf : B) (offset : Z) : option (B * Z * option Z) :=
  DECODE_INT_INTERNAL 8 32 evbuf offset.
Definition decode_int64_internal (evbuf : B) (offset : Z) : option (B * Z * option Z) :=
  DECODE_INT_INTERNAL 16 64 evbuf offset.

Definition evtag_encode_int (evbuf : B) (number : Z) : option B :=
  '(data, len) ← encode_int_internal number;
  '(evbuf, _) ← eb_add evbuf (ztake len data);
  Some evbuf.
Definition evtag_encode_int64 (evbuf : B) (number : Z) : option B :=
  '(data, len) ← encode_int64_internal number;
  '(evbuf, _) ← eb_add evbuf (ztake len data);
  Some evbuf.

Definition evtag_encode_tag (evbuf : B) (tag : Z) : option (B * Z) :=
  '(data, bytes) ← encode_tag_loop 5 (zrepeat 0 5) tag 0;
  '(evbuf, _) ← eb_add evbuf (ztake bytes data);
  Some (evbuf, bytes).

Definition decode_tag_internal (evbuf : B) (dodrain : bool) : option (B * Z * option Z) :=
  let len := eb_length evbuf in
  '(evbuf, data) ← eb_pullup evbuf (if len <? 5 then len else 5);
  match data with
  | None => Some (evbuf, -1, None)
  | Some data =>
      r ← decode_tag_loop 7 data len 0 0 0;
      match r with
      | inl _ | inr (_, _, false) => Some (evbuf, -1, None)
      | inr (number, count, true) =>
          evbuf ← (if dodrain then '(evbuf, _) ← eb_drain evbuf count; Some evbuf else Some evbuf);
          Some (evbuf, if INT_MAX <? count then INT_MAX else count, Some number)
      end
  end.

Definition evtag_decode_tag (evbuf : B) : option (B * Z * option Z) := decode_tag_internal evbuf true.

Definition evtag_decode_int (evbuf : B) : option (B * Z * option Z) :=
  '(evbuf, res, n) ← decode_int_internal evbuf 0;
  if negb (res =? -1) then '(evbuf, _) ← eb_drain evbuf (u64 res); Some (evbuf, 0, n)
  else Some (evbuf, -1, n).
Definition evtag_decode_int64 (evbuf : B) : option (B * Z * option Z) :=
  '(evbuf, res, n) ← decode_int64_internal evbuf 0;
  if negb (res =? -1) then '(evbuf, _) ← eb_drain evbuf (u64 res); Some (evbuf, 0, n)
  else Some (evbuf, -1, n).

(** * Records *)

Definition evtag_marshal (evbuf : B) (tag : Z) (data : list Z) : option B :=
  '(evbuf, _) ← evtag_encode_tag evbuf tag;
  evbuf ← evtag_encode_int evbuf (zlen data);
  '(evbuf, _) ← eb_add evbuf data;
  Some evbuf.

Definition evtag_marshal_buffer (evbuf : B) (tag : Z) (data : B) : option (B * B) :=
  '(evbuf, _) ← evtag_encode_tag evbuf tag;
  evbuf ← evtag_encode_int evbuf (u32 (eb_length data));
  '(evbuf, data, _) ← eb_add_buffer evbuf data;
  Some (evbuf, data).

Definition evtag_marshal_int (evbuf : B) (tag integer : Z) : option B :=
  '(data, len) ← encode_int_internal integer;
  '(evbuf, _) ← evtag_encode_tag evbuf tag;
  evbuf ← evtag_encode_int evbuf len;
  '(evbuf, _) ← eb_add evbuf (ztake len data);
  Some evbuf.
Definition evtag_marshal_int64 (evbuf : B) (tag integer : Z) : option B :=
  '(data, len) ← encode_int64_internal integer;
  '(evbuf, _) ← evtag_encode_tag evbuf tag;
  evbuf ← evtag_encode_int evbuf len;
  '(evbuf, _) ← eb_add evbuf (ztake len data);
  Some evbuf.

(** [string] without its terminating zero. *)
Definition evtag_marshal_string (evbuf : B) (tag : Z) (string : list Z) : option B :=
  evtag_marshal evbuf tag string.

(** Both integers are cut to 32 bits by the call. *)
Definition evtag_marshal_timeval (evbuf : B) (tag : Z) (tv : timeval) : option B :=
  '(sec, len) ← encode_int_internal (u32 (tv_sec tv));
  '(usec, len2) ← encode_int_internal (u32 (tv_usec tv));
  (* data[10]: the second call clears its five bytes at data + len *)
  data ← memcpy_at (ztake 5 sec ++ zrepeat 0 5) len usec;
  evtag_marshal evbuf tag (ztake (len + len2) data).

Definition evtag_peek (evbuf : B) : option (B * Z * option Z) := decode_tag_internal evbuf false.

Definition evtag_peek_length (evbuf : B) : option (B * Z * option Z) :=
  '(evbuf, len, _) ← decode_tag_internal evbuf false;
  if len =? -1 then Some (evbuf, -1, None)
  else
    '(evbuf, res, plength) ← decode_int_internal evbuf len;
    if res =? -1 then Some (evbuf, -1, plength)
    else n ← plength; Some (evbuf, 0, Some (u32 (n + (res + len)))).

Definition evtag_payload_length (evbuf : B) : option (B * Z * option Z) :=
  '(evbuf, len, _) ← decode_tag_internal evbuf false;
  if len =? -1 then Some (evbuf, -1, None)
  else
    '(evbuf, res, plength) ← decode_int_internal evbuf len;
    if res =? -1 then Some (evbuf, -1, plength) else Some (evbuf, 0, plength).

(** The length is an unsigned 32-bit number returned as an [int]. *)
Definition evtag_unmarshal_header (evbuf : B) : option (B * Z * option Z) :=
  '(evbuf, r, ptag) ← decode_tag_internal evbuf true;
  if r =? -1 then Some (evbuf, -1, ptag)
  else
    '(evbuf, r, len) ← evtag_decode_int evbuf;
    if r =? -1 then Some (evbuf, -1, ptag)
    else
      len ← len;
      if eb_length evbuf <? len then Some (evbuf, -1, ptag)
      else Some (evbuf, i32 len, ptag).

Definition evtag_consume (evbuf : B) : option (B * Z) :=
  '(evbuf, len, _) ← evtag_unmarshal_header evbuf;
  if len =? -1 then Some (evbuf, -1)
  else '(evbuf, _) ← eb_drain evbuf (u64 len); Some (evbuf, 0).

(** [evbuffer_add(dst, NULL, 0)] is what happens for an empty payload. *)
Definition evtag_unmarshal (src dst : B) : option (B * B * Z * option Z) :=
  '(src, len, ptag) ← evtag_unmarshal_header src;
  if len =? -1 then Some (src, dst, -1, ptag)
  else
    '(src, data) ← eb_pullup src len;
    data ← (match data with
            | Some d => mem_read d 0 len
            | None => if len =? 0 then Some [] else None
            end);
    '(dst, r) ← eb_add dst data;
    if r =? -1 then Some (src, dst, -1, ptag)
    else '(src, _) ← eb_drain src (u64 len); Some (src, dst, len, ptag).

(** [evtag_unmarshal_int] and [evtag_unmarshal_int64] differ in the decoder. *)
Definition unmarshal_int_with (decode : B → Z → option (B * Z * option Z)) (evbuf : B) (need_tag : Z)
  : option (B * Z * option Z) :=
  '(evbuf, r, tag) ← decode_tag_internal evbuf true;
  if r =? -1 then Some (evbuf, -1, None)
  else
    tag ← tag;
    if negb (need_tag =? tag) then Some (evbuf, -1, None)
    else
      '(evbuf, r, len) ← evtag_decode_int evbuf;
      if r =? -1 then Some (evbuf, -1, None)
      else
        len ← len;
        if eb_length evbuf <? len then Some (evbuf, -1, None)
        else
          '(evbuf, result, pinteger) ← decode evbuf 0;
          '(evbuf, _) ← eb_drain evbuf len;
          if (result <? 0) || (len <? result) then Some (evbuf, -1, pinteger)
          else Some (evbuf, result, pinteger).
Definition evtag_unmarshal_int := unmarshal_int_with decode_int_internal.
Definition evtag_unmarshal_int64 := unmarshal_int_with decode_int64_internal.

Definition evtag_unmarshal_fixed (src : B) (need_tag len : Z) : option (B * Z * list Z) :=
  '(src, tag_len, tag) ← evtag_unmarshal_header src;
  if tag_len <? 0 then Some (src, -1, [])
  else
    tag ← tag;
    if negb (tag =? need_tag) then Some (src, -1, [])
    else if negb (tag_len =? len) then Some (src, -1, [])
    else '(src, data, _) ← eb_remove src len; Some (src, 0, data).

(** [malloc_ok] is the outcome of [mm_malloc]; the terminating zero is left
    out. *)
Definition evtag_unmarshal_string (evbuf : B) (need_tag : Z) (malloc_ok : bool)
  : option (B * Z * option (list Z)) :=
  '(evbuf, tag_len, tag) ← evtag_unmarshal_header evbuf;
  if tag_len =? -1 then Some (evbuf, -1, None)
  else
    tag ← tag;
    if negb (tag =? need_tag) then Some (evbuf, -1, None)
    else if negb malloc_ok then Some (evbuf, -1, None)
    else '(evbuf, data, _) ← eb_remove evbuf (u64 tag_len); Some (evbuf, 0, Some data).

(** Result and the two fields of [ptv], as far as they were written. *)
Definition unmarshal_timeval_body (evbuf : B) (len : Z)
  : option (B * Z * option Z * option Z) :=
  '(evbuf, offset, sec) ← decode_int_internal evbuf 0;
  if offset =? -1 then Some (evbuf, -1, None, None)
  else
    '(evbuf, offset2, usec) ← decode_int_internal evbuf offset;
    if offset2 =? -1 then Some (evbuf, -1, sec, None)
    else if len <? offset + offset2 then Some (evbuf, -1, sec, usec)
    else Some (evbuf, 0, sec, usec).
Definition evtag_unmarshal_timeval (evbuf : B) (need_tag : Z)
  : option (B * Z * option Z * option Z) :=
  '(evbuf, len, tag) ← evtag_unmarshal_header evbuf;
  if len =? -1 then Some (evbuf, -1, None, None)
  else
    tag ← tag;
    '(evbuf, result, sec, usec) ←
      (if negb (tag =? need_tag) then Some (evbuf, -1, None, None)
       else unmarshal_timeval_body evbuf len);
    '(evbuf, _) ← eb_drain evbuf (u64 len);
    Some (evbuf, result, sec, usec).
End tagging.
