(* ===== verification/Tagging.v ===== *)
(** Correctness of [TaggingDefs]: round trips, lengths and memory safety, for
    every implementation of the byte-queue interface. *)
From S2P Require Import Prelude EvbufferIface Timeval TaggingDefs.

(** * Nibbles *)

(** Digit [j] of [n] in base 16, and the number of digits. *)
Definition digit (n j : Z) : Z := Z.land (Z.shiftr n (4 * j)) 15.
Definition nibs (n : Z) : Z := if n =? 0 then 0 else Z.log2 n `div` 4 + 1.

Lemma digit_range n j : 0 <= digit n j < 16.
Proof. unfold digit. change 15 with (Z.ones 4). rewrite Z.land_ones by lia. apply Z.mod_pos_bound. lia. Qed.

Lemma nibs_spec n j : 0 <= n → 0 <= j → Z.shiftr n (4 * j) = 0 ↔ nibs n <= j.
Proof.
  intros Hn Hj. unfold nibs. destruct (Z.eqb_spec n 0) as [->|Hz].
  { rewrite Z.shiftr_0_l. lia. }
  pose proof (Z.log2_spec n). split.
  - intros E. rewrite Z.shiftr_div_pow2 in E by lia.
    apply Z.div_small_iff in E; [|lia]. destruct E as [E|E]; [|lia].
    assert (Z.log2 n < 4 * j) by (apply Z.log2_lt_pow2; lia). lia.
  - intros E. apply Z.shiftr_eq_0; lia.
Qed.
Lemma nibs_nonneg n : 0 <= nibs n.
Proof.
  unfold nibs. destruct (Z.eqb_spec n 0); [lia|]. pose proof (Z.log2_nonneg n). lia.
Qed.
Lemma nibs_bound n w : 0 <= n < 2 ^ (4 * w) → 0 <= w → nibs n <= w.
Proof.
  intros Hn Hw. apply nibs_spec; [lia|done|]. rewrite Z.shiftr_div_pow2 by lia. apply Z.div_small. lia.
Qed.
Lemma digit_beyond n j : 0 <= n → nibs n <= j → digit n j = 0.
Proof.
  intros Hn Hj. pose proof (nibs_nonneg n). unfold digit.
  by rewrite (proj2 (nibs_spec n j Hn ltac:(lia))) by lia.
Qed.

(** Putting a nibble into a byte and taking it out again. *)
Lemma byte_nibbles h l :
  0 <= h < 16 → 0 <= l < 16 →
  Z.land (16 * h + l) 15 = l ∧ Z.shiftr (Z.land (16 * h + l) 240) 4 = h ∧
  Z.lor (Z.land (16 * h) 240) l = 16 * h + l ∧
  Z.lor (Z.land l 15) (Z.shiftl (Z.land h 15) 4) = 16 * h + l.
Proof.
  intros Hh Hl.
  assert (Hall : forallb (λ h, forallb (λ l,
      (Z.land (16 * h + l) 15 =? l) && (Z.shiftr (Z.land (16 * h + l) 240) 4 =? h) &&
      (Z.lor (Z.land (16 * h) 240) l =? 16 * h + l) &&
      (Z.lor (Z.land l 15) (Z.shiftl (Z.land h 15) 4) =? 16 * h + l))
    (seqZ 0 16)) (seqZ 0 16) = true) by (by vm_compute).
  rewrite forallb_forall in Hall. specialize (Hall h).
  rewrite forallb_forall in Hall.
  assert (Hin : ∀ x, 0 <= x < 16 → List.In x (seqZ 0 16)).
  { intros x Hx. apply list_elem_of_In, elem_of_seqZ. lia. }
  specialize (Hall (Hin h Hh) l (Hin l Hl)). lia.
Qed.
Lemma shiftl_nibble d : 0 <= d < 16 → u8 (Z.shiftl d 4) = 16 * d.
Proof. intros. rewrite Z.shiftl_mul_pow2 by lia. unfold u8. rewrite Z.mod_small; lia. Qed.

Lemma has_odd k : has k 1 = Z.odd k.
Proof.
  unfold has. change 1 with (Z.ones 1) at 1. rewrite Z.land_ones by lia.
  change (2 ^ 1) with 2. rewrite Zmod_odd. by destruct (Z.odd k).
Qed.

(** * Encoding integers *)

(** Byte [i] of the encoding while digits [0 .. j-1] are written. *)
Definition partial_byte (n j i : Z) : Z :=
  16 * (if (1 <=? i) && (2 * i - 1 <? j) then digit n (2 * i - 1) else 0) +
  (if 2 * i <? j then digit n (2 * i) else 0).
Definition bytes_by (f : Z → Z) (k : Z) : list Z := f <$> seqZ 0 k.

Lemma bytes_by_len f k : 0 <= k → zlen (bytes_by f k) = k.
Proof. intros. unfold bytes_by, zlen. rewrite length_fmap, length_seqZ. lia. Qed.
Lemma bytes_by_lookup f k i : 0 <= i < k → zget (bytes_by f k) i = Some (f i).
Proof.
  intros. rewrite zget_nonneg by lia. unfold bytes_by. rewrite list_lookup_fmap.
  rewrite lookup_seqZ_lt by lia. simpl. do 2 f_equal. lia.
Qed.
Lemma bytes_by_ext f g k : (∀ i, 0 <= i < k → f i = g i) → bytes_by f k = bytes_by g k.
Proof.
  intros E. unfold bytes_by. apply list_fmap_ext. intros i x Hx.
  apply E. apply list_elem_of_lookup_2, elem_of_seqZ in Hx. lia.
Qed.
Lemma zget_ext (l k : list Z) : zlen l = zlen k → (∀ i, 0 <= i < zlen l → zget l i = zget k i) → l = k.
Proof.
  intros El E. apply list_eq. intros i. destruct (decide (i < length l)%nat) as [Hi|Hi].
  - specialize (E (Z.of_nat i)). rewrite !zget_nonneg in E by lia. rewrite Nat2Z.id in E. apply E.
    unfold zlen; lia.
  - unfold zlen in El. rewrite !lookup_ge_None_2 by lia. done.
Qed.
Lemma bytes_by_set f k i x :
  0 <= i < k → zset (bytes_by f k) i x = Some (bytes_by (λ j, if j =? i then x else f j) k).
Proof.
  intros Hi. rewrite zset_in_range by (rewrite bytes_by_len; lia). f_equal.
  apply zget_ext; [by rewrite zlen_insert, !bytes_by_len by lia|].
  intros j Hj. rewrite zlen_insert, bytes_by_len in Hj by lia.
  rewrite zget_insert by (rewrite bytes_by_len; lia). rewrite !bytes_by_lookup by lia.
  destruct (decide (i = j)), (Z.eqb_spec j i); congruence || done.
Qed.

(** The loop stops after [nibs n] rounds with all digits in place. *)
Lemma encode_loop_ok fuel n size : ∀ j,
  0 <= n → 0 <= j <= nibs n → nibs n <= 2 * size - 2 → nibs n - j < Z.of_nat fuel →
  encode_loop fuel (bytes_by (partial_byte n j) size) (Z.shiftr n (4 * j)) (j + 1) =
    Some (bytes_by (partial_byte n (nibs n)) size, nibs n + 1).
Proof.
  induction fuel as [|fuel IH]; intros j Hn Hj Hsz Hf; [lia|]. simpl encode_loop.
  destruct (Z.eqb_spec (Z.shiftr n (4 * j)) 0) as [E|E].
  { apply nibs_spec in E; try lia. by replace j with (nibs n) by lia. }
  assert (j < nibs n) by (destruct (Z.lt_ge_cases j (nibs n)); [done|]; exfalso; apply E, nibs_spec; lia).
  rewrite bytes_by_lookup by lia. cbn [mbind option_bind].
  rewrite bytes_by_set by lia. cbn [mbind option_bind].
  rewrite Z.shiftr_shiftr by lia. replace (4 * j + 4) with (4 * (j + 1)) by lia.
  rewrite <- (IH (j + 1)) by lia. f_equal. apply bytes_by_ext. intros i Hi.
  change (Z.land (Z.shiftr n (4 * j)) 15) with (digit n j).
  pose proof (digit_range n j) as Hd.
  destruct (Z.eqb_spec i ((j + 1) `div` 2)) as [->|Hne].
  - rewrite has_odd.
    destruct (Z.odd (j + 1)) eqn:Ho; unfold partial_byte.
    + apply Z.odd_spec in Ho as [m Hm]. replace ((j + 1) `div` 2) with m by lia.
      assert (2 * m = j) as Hmj by lia.
      replace (2 * m <? j) with false by lia. replace (2 * m <? j + 1) with true by lia.
      replace (2 * m - 1 <? j + 1) with (2 * m - 1 <? j) by lia. rewrite Z.add_0_r, Hmj.
      destruct (byte_nibbles (if (1 <=? m) && (j - 1 <? j) then digit n (j - 1) else 0) (digit n j))
        as (_&_&E3&_); [|done|exact E3].
      pose proof (digit_range n (j - 1)). case_match; lia.
    + assert (Z.even (j + 1) = true) as He by (by rewrite <- Z.negb_odd, Ho).
      apply Z.even_spec in He as [m Hm]. replace ((j + 1) `div` 2) with m by lia.
      assert (2 * m - 1 = j) as Hmj by lia.
      replace (2 * m - 1 <? j) with false by lia. replace (2 * m <? j) with false by lia.
      replace (1 <=? m) with true by lia. replace (2 * m - 1 <? j + 1) with true by lia.
      replace (2 * m <? j + 1) with false by lia. simpl.
      change (Z.land (16 * 0 + 0) 15) with 0. rewrite Z.lor_0_l, shiftl_nibble, Hmj by done. lia.
  - unfold partial_byte.
    destruct (Z.ltb_spec (2 * i - 1) j), (Z.ltb_spec (2 * i - 1) (j + 1)); try lia;
    destruct (Z.ltb_spec (2 * i) j), (Z.ltb_spec (2 * i) (j + 1)); try lia; done.
Qed.

(** The encoding: the digit count, then the digits, least significant first,
    two to a byte. *)
Definition int_byte (n i : Z) : Z :=
  16 * (if i =? 0 then Z.max 1 (nibs n) - 1 else digit n (2 * i - 1)) + digit n (2 * i).
Definition int_len (n : Z) : Z := Z.max 1 (nibs n) `div` 2 + 1.
Definition int_code (n : Z) : list Z := bytes_by (int_byte n) (int_len n).

Lemma int_len_range n : 1 <= int_len n.
Proof. unfold int_len. pose proof (nibs_nonneg n). lia. Qed.
Lemma int_code_len n : zlen (int_code n) = int_len n.
Proof. pose proof (int_len_range n). apply bytes_by_len. lia. Qed.

Lemma encode_internal_ok size n :
  0 <= n < 2 ^ (4 * (2 * size)) → 1 <= size <= 8 →
  ∃ data, ENCODE_INT_INTERNAL size n = Some (data, int_len n) ∧
    ztake (int_len n) data = int_code n ∧ zlen data = size + 1 ∧ int_len n <= size + 1.
Proof.
  intros Hn Hs. pose proof (nibs_bound n (2 * size) Hn ltac:(lia)) as Hk. pose proof (nibs_nonneg n).
  unfold ENCODE_INT_INTERNAL.
  assert (zrepeat 0 (size + 1) = bytes_by (partial_byte n 0) (size + 1)) as ->.
  { apply zget_ext; [rewrite bytes_by_len, zlen_zrepeat; lia|]. intros i Hi. rewrite zlen_zrepeat in Hi by lia.
    rewrite bytes_by_lookup by lia. rewrite zget_nonneg by lia. unfold zrepeat.
    rewrite lookup_replicate_2 by lia. unfold partial_byte.
    replace (2 * i - 1 <? 0) with (i =? 0) by lia. replace (2 * i <? 0) with false by lia.
    destruct (Z.eqb_spec i 0), (Z.leb_spec 1 i); try lia; done. }
  pose proof (encode_loop_ok 17 n (size + 1) 0) as E. rewrite Z.mul_0_r, Z.shiftr_0_r in E.
  change (0 + 1) with 1 in E. rewrite E by lia. clear E. cbn [mbind option_bind].
  rewrite bytes_by_lookup by lia. cbn [mbind option_bind].
  rewrite bytes_by_set by lia. cbn [mbind option_bind].
  replace ((nibs n + 1 + 1) `div` 2) with (int_len n) by (unfold int_len; lia).
  assert (int_len n <= size + 1) as Hle by (unfold int_len; lia).
  eexists. split; [done|]. split; [|split; [apply bytes_by_len; lia|done]].
  pose proof (int_len_range n).
  apply zget_ext; rewrite zlen_ztake by (rewrite bytes_by_len; lia); [by rewrite int_code_len|].
  intros i Hi. rewrite zget_ztake by lia. unfold int_code. rewrite !bytes_by_lookup by lia. f_equal.
  unfold int_byte, partial_byte.
  replace (if 2 <? nibs n + 1 then nibs n + 1 - 2 else 0) with (Z.max 1 (nibs n) - 1)
    by (destruct (Z.ltb_spec 2 (nibs n + 1)); lia).
  assert (Hdig : ∀ j, (if j <? nibs n then digit n j else 0) = digit n j).
  { intros j. destruct (Z.ltb_spec j (nibs n)); [done|]. by rewrite digit_beyond by lia. }
  destruct (Z.eqb_spec i 0) as [->|Hi0].
  - change (2 * 0) with 0. rewrite Hdig. change ((1 <=? 0) && _) with false. cbn iota.
    rewrite Z.mul_0_r, Z.add_0_l.
    destruct (byte_nibbles (Z.max 1 (nibs n) - 1) (digit n 0)) as (_&_&_&E4);
      [lia|apply digit_range|exact E4].
  - replace (1 <=? i) with true by lia. cbn [andb]. by rewrite !Hdig.
Qed.

(** * Decoding integers *)

Lemma lor_shift_land y : Z.lor (Z.shiftl (Z.shiftr y 4) 4) (Z.land y 15) = y.
Proof.
  change 15 with (Z.ones 4). rewrite Z.land_ones by lia.
  rewrite <- Z.ldiff_ones_r by lia. apply Z.bits_inj'. intros n Hn.
  rewrite Z.lor_spec, Z.ldiff_spec. destruct (Z.lt_ge_cases n 4).
  - rewrite Z.ones_spec_low, Z.mod_pow2_bits_low by lia. simpl. by rewrite andb_false_r.
  - rewrite Z.ones_spec_high, Z.mod_pow2_bits_high by lia. simpl. by rewrite andb_true_r, orb_false_r.
Qed.

(** Any run of the nibble loop over existing bytes gives a number. *)
Lemma decode_nibbles_safe m w data : ∀ number,
  Z.of_nat m `div` 2 < zlen data → ∃ n, decode_nibbles m w data number = Some n.
Proof.
  induction m as [|m IH]; intros number Hl; [by eexists|].
  simpl decode_nibbles. destruct (zget_in_range data (Z.of_nat (S m) `div` 2)) as [b ->]; [lia|].
  cbn [mbind option_bind]. apply IH. lia.
Qed.

Lemma decode_nibbles_ok m n w data :
  0 <= n < 2 ^ w → Z.of_nat m <= Z.max 1 (nibs n) → 4 <= w → nibs n <= 16 →
  (∀ i, 0 <= i < int_len n → zget data i = Some (int_byte n i)) →
  decode_nibbles m w data (Z.shiftr n (4 * Z.of_nat m)) = Some n.
Proof.
  intros Hn Hm Hw Hn16 Hdata. induction m as [|m IH].
  { change (4 * Z.of_nat 0) with 0. by rewrite Z.shiftr_0_r. }
  simpl decode_nibbles. rewrite Hdata by (unfold int_len; lia). cbn [mbind option_bind].
  rewrite <- IH by lia. f_equal.
  set (y := Z.shiftr n (4 * Z.of_nat m)).
  assert (Z.shiftr n (4 * Z.of_nat (S m)) = Z.shiftr y 4) as ->.
  { unfold y. rewrite Z.shiftr_shiftr by lia. f_equal. lia. }
  assert (Hy : 0 <= y < 2 ^ w).
  { unfold y. rewrite Z.shiftr_div_pow2 by lia. split; [apply Z.div_pos; lia|].
    apply Z.le_lt_trans with n; [|lia]. apply Z.div_le_upper_bound; [lia|].
    assert (1 <= 2 ^ (4 * Z.of_nat m)) by (apply (Z.pow_le_mono_r 2 0); lia). nia. }
  rewrite Z.mod_small.
  2:{ rewrite Z.shiftl_mul_pow2, Z.shiftr_div_pow2 by lia. change (2 ^ 4) with 16. lia. }
  rewrite <- (lor_shift_land y) at 2. f_equal.
  change (Z.land y 15) with (digit n (Z.of_nat m)).
  unfold int_byte. rewrite has_odd. destruct (Z.odd (Z.of_nat (S m))) eqn:Ho.
  - apply Z.odd_spec in Ho as [q Hq]. replace (Z.of_nat (S m) `div` 2) with q by lia.
    replace (2 * q) with (Z.of_nat m) by lia.
    apply (byte_nibbles _ (digit n (Z.of_nat m))); [|apply digit_range].
    destruct (q =? 0); [lia|apply digit_range].
  - assert (Z.even (Z.of_nat (S m)) = true) as He by (by rewrite <- Z.negb_odd, Ho).
    apply Z.even_spec in He as [q Hq]. replace (Z.of_nat (S m) `div` 2) with q by lia.
    replace (2 * q - 1) with (Z.of_nat m) by lia. destruct (Z.eqb_spec q 0); [lia|].
    apply (byte_nibbles (digit n (Z.of_nat m))); apply digit_range.
Qed.

(** * Tags *)

(** Seven bits to a byte, least significant group first; all bytes but the last
    have the high bit set.  This is the order [evtag_encode_tag] writes and
    [decode_tag_internal] reads: [0x166] is [E6 02].  The comment at the top of
    [event_tagging.c] gives the opposite order, [82 66]. *)
Fixpoint tag_code (fuel : nat) (tag : Z) : list Z :=
  match fuel with
  | O => []
  | S fuel =>
      if Z.shiftr tag 7 =? 0 then [Z.land tag 0x7f]
      else Z.lor (Z.land tag 0x7f) 0x80 :: tag_code fuel (Z.shiftr tag 7)
  end.

Lemma tag_code_len fuel tag : (1 <= fuel)%nat → 1 <= zlen (tag_code fuel tag) <= Z.of_nat fuel.
Proof.
  revert tag; induction fuel as [|fuel IH]; intros tag Hf; [lia|]. simpl.
  destruct (Z.shiftr tag 7 =? 0).
  - unfold zlen; simpl; lia.
  - rewrite zlen_cons. destruct fuel; [unfold zlen; simpl; lia|]. specialize (IH (Z.shiftr tag 7)). lia.
Qed.

Lemma zdrop_cons {A} (x : A) l n : 0 <= n → zdrop (1 + n) (x :: l) = zdrop n l.
Proof. intros. unfold zdrop. by replace (Z.to_nat (1 + n)) with (S (Z.to_nat n)) by lia. Qed.

Lemma encode_tag_loop_ok fuel : ∀ tag pre post,
  0 <= tag < 2 ^ (7 * Z.of_nat fuel) → (1 <= fuel)%nat → zlen post = Z.of_nat fuel →
  encode_tag_loop fuel (pre ++ post) tag (zlen pre) =
    Some (pre ++ tag_code fuel tag ++ zdrop (zlen (tag_code fuel tag)) post,
          zlen pre + zlen (tag_code fuel tag)).
Proof.
  induction fuel as [|fuel IH]; intros tag pre post Ht Hf Hp; [lia|]. simpl.
  destruct post as [|x post]; [unfold zlen in Hp; simpl in Hp; lia|]. rewrite zlen_cons in Hp.
  pose proof (zlen_nonneg pre). pose proof (zlen_nonneg post).
  assert (Hset : ∀ y, zset (pre ++ x :: post) (zlen pre) y = Some ((pre ++ [y]) ++ post)).
  { intros y. rewrite zset_in_range by (rewrite zlen_app, zlen_cons; lia). f_equal.
    unfold zlen. rewrite Nat2Z.id, insert_app_r_alt, Nat.sub_diag by lia. by rewrite <- app_assoc. }
  rewrite Hset. cbn [mbind option_bind].
  destruct (Z.eqb_spec (Z.shiftr tag 7) 0) as [E|E]; simpl negb; cbn iota.
  - change (zlen [Z.land tag 127]) with 1. by rewrite <- app_assoc.
  - assert (0 < Z.shiftr tag 7 < 2 ^ (7 * Z.of_nat fuel)) as Hs.
    { rewrite Z.shiftr_div_pow2 in * by lia.
      replace (7 * Z.of_nat (S fuel)) with (7 + 7 * Z.of_nat fuel) in Ht by lia.
      rewrite Z.pow_add_r in Ht by lia. change (2 ^ 7) with 128 in *.
      assert (0 <= tag `div` 128) by (apply Z.div_pos; lia).
      assert (tag `div` 128 < 2 ^ (7 * Z.of_nat fuel)) by (apply Z.div_lt_upper_bound; lia). lia. }
    destruct fuel as [|fuel]; [simpl in Hs; lia|].
    specialize (IH (Z.shiftr tag 7) (pre ++ [Z.lor (Z.land tag 127) 128]) post).
    rewrite zlen_app in IH. change (zlen [Z.lor (Z.land tag 127) 128]) with 1 in IH.
    rewrite IH by lia. rewrite zlen_cons, <- !app_assoc. simpl app. do 2 f_equal; [|lia].
    rewrite zdrop_cons; [done|apply zlen_nonneg].
Qed.

(** The low bits collected so far, extended by one group. *)
Lemma tag_step T j :
  0 <= j →
  Z.lor (T mod 2 ^ j) (Z.shiftl (Z.land (Z.shiftr T j) 127) j) = T mod 2 ^ (j + 7).
Proof.
  intros Hj. apply Z.bits_inj'. intros n Hn. change 127 with (Z.ones 7).
  rewrite Z.lor_spec. destruct (Z.lt_ge_cases n j) as [Hlt|Hge].
  - rewrite Z.shiftl_spec_low, orb_false_r, !Z.mod_pow2_bits_low by lia. done.
  - rewrite Z.mod_pow2_bits_high, Z.shiftl_spec, Z.land_spec by lia. simpl.
    rewrite Z.shiftr_spec by lia. replace (n - j + j) with n by lia.
    destruct (Z.lt_ge_cases n (j + 7)).
    + rewrite Z.ones_spec_low, Z.mod_pow2_bits_low by lia. apply andb_true_r.
    + rewrite Z.ones_spec_high, Z.mod_pow2_bits_high by lia. apply andb_false_r.
Qed.

Lemma group_land x : Z.land (Z.lor (Z.land x 127) 128) 127 = Z.land x 127 ∧
  Z.land (Z.land x 127) 127 = Z.land x 127 ∧
  has (Z.lor (Z.land x 127) 128) 128 = true ∧ has (Z.land x 127) 128 = false.
Proof.
  assert (Hr : 0 <= Z.land x 127 < 128).
  { change 127 with (Z.ones 7). rewrite Z.land_ones by lia. apply Z.mod_pos_bound. lia. }
  generalize dependent (Z.land x 127). intros y Hy.
  assert (Hall : forallb (λ y, (Z.land (Z.lor y 128) 127 =? y) && (Z.land y 127 =? y) &&
      has (Z.lor y 128) 128 && negb (has y 128)) (seqZ 0 128) = true) by (by vm_compute).
  rewrite forallb_forall in Hall. specialize (Hall y).
  rewrite !andb_true_iff, negb_true_iff, !Z.eqb_eq in Hall.
  destruct Hall as [[[? ?] ?] ?]; [|done].
  apply list_elem_of_In, elem_of_seqZ. lia.
Qed.

(** Decoding an encoded tag, wherever it starts. *)
Lemma decode_tag_loop_ok k : ∀ fuel T pre post len,
  0 <= T < 2 ^ 32 → (k <= 5)%nat → (k <= fuel)%nat →
  let j := 7 * (5 - Z.of_nat k) in
  zlen pre = 5 - Z.of_nat k → 0 <= Z.shiftr T j < 2 ^ (7 * Z.of_nat k) → (1 <= k)%nat →
  zlen pre + zlen (tag_code k (Z.shiftr T j)) <= len →
  decode_tag_loop fuel (pre ++ tag_code k (Z.shiftr T j) ++ post) len (zlen pre) j (T mod 2 ^ j) =
    Some (inr (T, zlen pre + zlen (tag_code k (Z.shiftr T j)), true)).
Proof.
  induction k as [|k IH]; intros fuel T pre post len HT Hk Hfuel j Hpre HS Hk1 Hlen; [lia|].
  destruct fuel as [|fuel]; [lia|]. simpl decode_tag_loop.
  simpl tag_code in Hlen |- *. set (x := Z.shiftr T j) in *.
  destruct (group_land x) as (G1 & G2 & G3 & G4).
  assert (Hsmall : (28 <=? j) = true → Z.land x 127 <= 15 ∧ 28 = j).
  { intros Hj. assert (j = 28) as -> by lia. split; [|done].
    assert (0 <= x < 16).
    { unfold x. rewrite Z.shiftr_div_pow2 by lia. split; [apply Z.div_pos; lia|].
      apply Z.div_lt_upper_bound; lia. }
    change 127 with (Z.ones 7). rewrite Z.land_ones by lia. rewrite Z.mod_small; lia. }
  assert (Hguard : (28 <=? j) && ((28 <? j) || (15 <? Z.land x 127)) = false).
  { destruct (28 <=? j) eqn:E; [|done]. destruct (Hsmall eq_refl). lia. }
  assert (Hland : 0 <= Z.land x 127 < 128).
  { change 127 with (Z.ones 7). rewrite Z.land_ones by lia. apply Z.mod_pos_bound. lia. }
  assert (Hu : u32 (Z.shiftl (Z.land x 127) j) = Z.shiftl (Z.land x 127) j).
  { rewrite Z.shiftl_mul_pow2 by lia. apply u32_small.
    assert (0 < 2 ^ j) by (apply Z.pow_pos_nonneg; lia). split; [nia|].
    destruct (28 <=? j) eqn:Ej.
    - destruct (Hsmall eq_refl) as [? <-]. lia.
    - assert (2 ^ j <= 2 ^ 21) by (apply Z.pow_le_mono_r; lia). nia. }
  destruct (Z.eqb_spec (Z.shiftr x 7) 0) as [E|E].
  - change (zlen [Z.land x 127]) with 1 in *.
    destruct (Z.ltb_spec (zlen pre) len); [|lia].
    rewrite zget_app_r, Z.sub_diag by lia.
    change (zget ([Z.land x 127] ++ post) 0) with (Some (Z.land x 127)). cbn [mbind option_bind].
    rewrite G2, Hguard, Hu, G4. simpl negb. cbn iota.
    rewrite tag_step by lia. do 4 f_equal. apply Z.mod_small. split; [lia|].
    unfold x in E. rewrite Z.shiftr_shiftr in E by lia. rewrite Z.shiftr_div_pow2 in E by lia.
    apply Z.div_small_iff in E; [lia|]. apply Z.pow_nonzero; lia.
  - rewrite zlen_cons in Hlen |- *. set (b := Z.lor (Z.land x 127) 128) in *.
    pose proof (zlen_nonneg (tag_code k (Z.shiftr x 7))).
    destruct (Z.ltb_spec (zlen pre) len); [|lia].
    rewrite zget_app_r, Z.sub_diag by lia.
    change (zget ((b :: tag_code k (Z.shiftr x 7)) ++ post) 0) with (Some b). cbn [mbind option_bind].
    rewrite G1, Hguard, Hu, G3. simpl negb. cbn iota. rewrite tag_step by lia.
    assert (HS' : 0 <= Z.shiftr x 7 < 2 ^ (7 * Z.of_nat k)).
    { rewrite Z.shiftr_div_pow2 by lia. replace (7 * Z.of_nat (S k)) with (7 + 7 * Z.of_nat k) in HS by lia.
      rewrite Z.pow_add_r in HS by lia. change (2 ^ 7) with 128 in *.
      split; [apply Z.div_pos; lia|]. apply Z.div_lt_upper_bound; lia. }
    destruct k as [|k]; [simpl in HS'; lia|].
    assert (Hx7 : Z.shiftr x 7 = Z.shiftr T (7 * (5 - Z.of_nat (S k)))).
    { unfold x. rewrite Z.shiftr_shiftr by lia. f_equal. lia. }
    rewrite Hx7 in *. 
    specialize (IH fuel T (pre ++ [b]) post len HT ltac:(lia) ltac:(lia)). cbn zeta in IH.
    rewrite zlen_app in IH. change (zlen [b]) with 1 in IH.
    replace (j + 7) with (7 * (5 - Z.of_nat (S k))) by lia.
    rewrite <- !app_assoc in IH. simpl app in IH |- *. rewrite IH by lia. do 4 f_equal. lia.
Qed.

(** * The operations on a byte queue *)

(** The bytes of a record. *)
Definition record (tag : Z) (payload : list Z) : list Z :=
  tag_code 5 tag ++ int_code (zlen payload) ++ payload.

Lemma zget_prefix (l d : list Z) i : d = ztake (zlen d) l → 0 <= i < zlen d → zget d i = zget l i.
Proof. intros E Hi. rewrite E at 1. apply zget_ztake. lia. Qed.

Lemma nibble_range b : 0 <= Z.shiftr (Z.land b 0xf0) 4 < 16.
Proof.
  rewrite Z.shiftr_land. change (Z.shiftr 240 4) with (Z.ones 4). rewrite Z.land_ones by lia.
  apply Z.mod_pos_bound. lia.
Qed.

Section ops.
Context {B : Type} {EO : EvbufferOps B} {EL : EvbufferLaws B}.
Implicit Types b : B.

Lemma pullup_at_ok b offset n :
  eb_inv b → 0 <= offset → 0 < n → offset + n <= zlen (eb_bytes b) →
  ∃ b' d, pullup_at b offset n = Some (b', Some d) ∧ eb_inv b' ∧ eb_bytes b' = eb_bytes b ∧
    n <= zlen d ∧ ∀ i, 0 <= i < n → zget d i = zget (eb_bytes b) (offset + i).
Proof.
  intros Hb Ho Hn Hle. unfold pullup_at.
  destruct (eb_pullup_ok b (offset + n) Hb) as (b' & d & -> & Hb' & E & Ed & Hd); [lia|].
  cbn [mbind option_bind]. eexists _, _. split; [done|]. split; [done|]. split; [done|].
  rewrite zlen_zdrop by lia. split; [lia|]. intros i Hi. rewrite zget_zdrop by lia.
  apply zget_prefix; [done|lia].
Qed.

(** Decoding never reads outside the bytes it pulled up, whatever the
    content. *)
Lemma decode_int_safe maxn w b offset :
  eb_inv b → 0 <= offset →
  ∃ b' ret num, DECODE_INT_INTERNAL maxn w b offset = Some (b', ret, num) ∧ eb_inv b' ∧
    eb_bytes b' = eb_bytes b ∧
    (ret = -1 ∧ num = None ∨
     1 <= ret <= maxn `div` 2 + 1 ∧ ret + offset <= zlen (eb_bytes b) ∧ ∃ n, num = Some n).
Proof.
  intros Hb Ho. unfold DECODE_INT_INTERNAL. destruct (eb_length_ok b Hb) as [-> _].
  destruct (Z.leb_spec (zlen (eb_bytes b) - offset) 0).
  { exists b, (-1), None. auto 10. }
  destruct (pullup_at_ok b offset 1) as (b1 & d & -> & Hb1 & E1 & Hd & Hg); try done; try lia.
  cbn [mbind option_bind]. destruct (zget_in_range d 0) as [x ->]; [lia|]. cbn [mbind option_bind].
  pose proof (nibble_range x). set (nb := Z.shiftr (Z.land x 240) 4) in *.
  rewrite Z.shiftr_div_pow2 by lia. change (2 ^ 1) with 2.
  destruct ((maxn <? nb + 1) || (zlen (eb_bytes b) - offset <? (nb + 1) `div` 2 + 1)) eqn:Hbad.
  { exists b1, (-1), None. auto 10. }
  apply orb_false_iff in Hbad as [Hm Hl]. apply Z.ltb_ge in Hm, Hl.
  destruct (pullup_at_ok b1 offset ((nb + 1) `div` 2 + 1)) as (b2 & d2 & -> & Hb2 & E2 & Hd2 & Hg2);
    try done; try lia; [rewrite E1; lia|].
  cbn [mbind option_bind].
  destruct (decode_nibbles_safe (Z.to_nat (nb + 1)) w d2 0) as [n ->]; [lia|].
  cbn [mbind option_bind]. eexists _, _, _. split; [done|]. split; [done|]. split; [congruence|].
  right. split; [lia|]. split; [lia|]. by eexists.
Qed.

Lemma zget_middle (pre mid post : list Z) i :
  0 <= i < zlen mid → zget (pre ++ mid ++ post) (zlen pre + i) = zget mid i.
Proof.
  intros Hi. rewrite zget_app_r by lia. replace (zlen pre + i - zlen pre) with i by lia.
  apply zget_app_l; lia.
Qed.

Lemma decode_int_at maxn w b pre n post :
  eb_inv b → eb_bytes b = pre ++ int_code n ++ post → 0 <= n < 2 ^ w → nibs n <= maxn →
  1 <= maxn <= 16 → 4 <= w →
  ∃ b', DECODE_INT_INTERNAL maxn w b (zlen pre) = Some (b', int_len n, Some n) ∧ eb_inv b' ∧
    eb_bytes b' = eb_bytes b.
Proof.
  intros Hb E Hn Hk Hmax Hw. unfold DECODE_INT_INTERNAL. destruct (eb_length_ok b Hb) as [-> _].
  pose proof (int_len_range n). pose proof (zlen_nonneg post). pose proof (zlen_nonneg pre).
  assert (Hlen : zlen (eb_bytes b) = zlen pre + int_len n + zlen post)
    by (rewrite E, !zlen_app, int_code_len; lia).
  destruct (Z.leb_spec (zlen (eb_bytes b) - zlen pre) 0); [lia|].
  assert (Hget : ∀ i, 0 <= i < int_len n → zget (eb_bytes b) (zlen pre + i) = Some (int_byte n i)).
  { intros i Hi. rewrite E, zget_middle by (rewrite int_code_len; lia). by apply bytes_by_lookup. }
  destruct (pullup_at_ok b (zlen pre) 1) as (b1 & d & -> & Hb1 & E1 & Hd & Hg); try done; try lia.
  cbn [mbind option_bind]. rewrite Hg, Hget by lia. cbn [mbind option_bind].
  unfold int_byte at 1 2 3 4 5. rewrite Z.eqb_refl, Z.mul_0_r.
  pose proof (nibs_nonneg n).
  destruct (byte_nibbles (Z.max 1 (nibs n) - 1) (digit n 0)) as (_&->&_); [lia|apply digit_range|].
  replace (Z.max 1 (nibs n) - 1 + 1) with (Z.max 1 (nibs n)) by lia.
  rewrite Z.shiftr_div_pow2 by lia. change (2 ^ 1) with 2. fold (int_len n).
  destruct (Z.ltb_spec maxn (Z.max 1 (nibs n))); [lia|].
  destruct (Z.ltb_spec (zlen (eb_bytes b) - zlen pre) (int_len n)); [lia|]. cbn [orb].
  destruct (pullup_at_ok b1 (zlen pre) (int_len n)) as (b2 & d2 & -> & Hb2 & E2 & Hd2 & Hg2);
    try done; try lia; [rewrite E1; lia|].
  cbn [mbind option_bind].
  pose proof (decode_nibbles_ok (Z.to_nat (Z.max 1 (nibs n))) n w d2) as D.
  rewrite Z2Nat.id in D by lia.
  rewrite (proj2 (nibs_spec n (Z.max 1 (nibs n)) ltac:(lia) ltac:(lia))) in D by lia.
  rewrite D; try lia; [|intros i Hi; rewrite Hg2, E1 by lia; by apply Hget].
  cbn [mbind option_bind]. eexists. split; [done|]. split; [done|]. congruence.
Qed.

Lemma encode_int_with_ok size n b :
  eb_inv b → 0 <= n < 2 ^ (4 * (2 * size)) → 1 <= size <= 8 →
  zlen (eb_bytes b) + int_len n <= eb_cap →
  ∃ b', ('(data, len) ← ENCODE_INT_INTERNAL size n; '(b, _) ← eb_add b (ztake len data); Some b) = Some b' ∧
    eb_inv b' ∧ eb_bytes b' = eb_bytes b ++ int_code n.
Proof.
  intros Hb Hn Hs Hc. destruct (encode_internal_ok size n Hn Hs) as (data & -> & Hd & _).
  cbn [mbind option_bind]. rewrite Hd.
  destruct (eb_add_ok b (int_code n) Hb) as (b' & -> & Hb' & E); [by rewrite int_code_len|].
  cbn [mbind option_bind]. by exists b'.
Qed.
Lemma encode_int_ok n b :
  eb_inv b → 0 <= n < 2 ^ 32 → zlen (eb_bytes b) + int_len n <= eb_cap →
  ∃ b', evtag_encode_int b n = Some b' ∧ eb_inv b' ∧ eb_bytes b' = eb_bytes b ++ int_code n.
Proof. intros. by apply (encode_int_with_ok 4). Qed.
Lemma encode_int64_ok n b :
  eb_inv b → 0 <= n < 2 ^ 64 → zlen (eb_bytes b) + int_len n <= eb_cap →
  ∃ b', evtag_encode_int64 b n = Some b' ∧ eb_inv b' ∧ eb_bytes b' = eb_bytes b ++ int_code n.
Proof. intros. by apply (encode_int_with_ok 8). Qed.

Lemma encode_tag_ok tag b :
  eb_inv b → 0 <= tag < 2 ^ 32 → zlen (eb_bytes b) + zlen (tag_code 5 tag) <= eb_cap →
  ∃ b', evtag_encode_tag b tag = Some (b', zlen (tag_code 5 tag)) ∧ eb_inv b' ∧
    eb_bytes b' = eb_bytes b ++ tag_code 5 tag.
Proof.
  intros Hb Ht Hc. unfold evtag_encode_tag.
  pose proof (encode_tag_loop_ok 5 tag [] (zrepeat 0 5)) as E. change (zlen []) with 0 in E.
  rewrite !app_nil_l in E. rewrite E by (lia || done). clear E. cbn [mbind option_bind]. rewrite Z.add_0_l.
  pose proof (tag_code_len 5 tag ltac:(lia)).
  rewrite ztake_app_ge, Z.sub_diag, ztake_0, app_nil_r by lia.
  destruct (eb_add_ok b (tag_code 5 tag) Hb Hc) as (b' & -> & Hb' & E).
  cbn [mbind option_bind]. by exists b'.
Qed.

(** Reading a tag at the front of the queue. *)
Lemma decode_tag_ok T post b dodrain :
  eb_inv b → 0 <= T < 2 ^ 32 → eb_bytes b = tag_code 5 T ++ post →
  ∃ b', decode_tag_internal b dodrain = Some (b', zlen (tag_code 5 T), Some T) ∧ eb_inv b' ∧
    eb_bytes b' = if dodrain then post else eb_bytes b.
Proof.
  intros Hb HT E. unfold decode_tag_internal. destruct (eb_length_ok b Hb) as [-> Hcap].
  pose proof (tag_code_len 5 T ltac:(lia)) as Hl. pose proof (zlen_nonneg post).
  assert (Hlen : zlen (eb_bytes b) = zlen (tag_code 5 T) + zlen post) by (by rewrite E, zlen_app).
  set (n := if _ <? 5 then _ else 5). assert (0 < n <= zlen (eb_bytes b) ∧ zlen (tag_code 5 T) <= n)
    by (subst n; zcase; lia).
  destruct (eb_pullup_ok b n Hb) as (b1 & d & -> & Hb1 & E1 & Ed & Hd); [lia|].
  cbn [mbind option_bind].
  rewrite E, ztake_app_ge in Ed by lia.
  pose proof (decode_tag_loop_ok 5 7 T [] (ztake (zlen d - zlen (tag_code 5 T)) post) (zlen (eb_bytes b))
    HT ltac:(lia) ltac:(lia)) as D.
  cbn zeta in D. change (7 * (5 - Z.of_nat 5)) with 0 in D. change (zlen []) with 0 in D.
  rewrite Z.shiftr_0_r in D. rewrite !app_nil_l in D. rewrite <- Ed in D.
  rewrite Z.pow_0_r, Z.mod_1_r in D. rewrite D by (lia || done). clear D. cbn [mbind option_bind].
  rewrite Z.add_0_l. destruct (Z.ltb_spec INT_MAX (zlen (tag_code 5 T))); [unfold INT_MAX in *; lia|].
  destruct dodrain; cbn [mbind option_bind].
  - destruct (eb_drain_ok b1 (zlen (tag_code 5 T)) Hb1) as (b2 & -> & Hb2 & E2); [lia|].
    cbn [mbind option_bind]. exists b2. split; [done|]. split; [done|].
    by rewrite E2, E1, E, zdrop_app_ge, Z.sub_diag by lia.
  - exists b1. by split.
Qed.
End ops.
