(* ===== verification/TaggingThms.v ===== *)
(** Tagged records: what [evtag_marshal*] writes, [evtag_unmarshal*] and the
    peek functions read back, over any byte queue that meets the interface. *)
From S2P Require Import Prelude EvbufferDefs Evbuffer EvbufferIface EvbufferImpl Timeval TaggingDefs Tagging.

Section records.
Context {B : Type} {EO : EvbufferOps B} {EL : EvbufferLaws B}.
Implicit Types b : B.

Lemma decode_int_front maxn w b n post :
  eb_inv b → eb_bytes b = int_code n ++ post → 0 <= n < 2 ^ w → nibs n <= maxn →
  1 <= maxn <= 16 → 4 <= w →
  ∃ b', DECODE_INT_INTERNAL maxn w b 0 = Some (b', int_len n, Some n) ∧ eb_inv b' ∧
    eb_bytes b' = eb_bytes b.
Proof. apply (decode_int_at maxn w b []). Qed.

Definition fits (b : B) (d : list Z) : Prop := zlen (eb_bytes b) + zlen d <= eb_cap.
(** [b'] is [b] with [d] appended. *)
Definition appended (b : B) (d : list Z) (b' : B) : Prop :=
  eb_inv b' ∧ eb_bytes b' = eb_bytes b ++ d.

Lemma record_len tag d : zlen (record tag d) = zlen (tag_code 5 tag) + int_len (zlen d) + zlen d.
Proof. unfold record. rewrite !zlen_app, int_code_len. lia. Qed.

Lemma header_ok_w b tag n d :
  eb_inv b → 0 <= tag < 2 ^ 32 → 0 <= n < 2 ^ 32 →
  zlen (eb_bytes b) + zlen (tag_code 5 tag) + int_len n + zlen d <= eb_cap →
  ∃ b', ('(b, _) ← evtag_encode_tag b tag; b ← evtag_encode_int b n; '(b, _) ← eb_add b d; Some b) = Some b' ∧
    appended b (tag_code 5 tag ++ int_code n ++ d) b'.
Proof.
  intros Hb Ht Hn Hc. pose proof (zlen_nonneg d). pose proof (int_len_range n).
  destruct (encode_tag_ok tag b Hb Ht) as (b1 & -> & Hb1 & E1); [lia|]. cbn [mbind option_bind].
  destruct (encode_int_ok n b1 Hb1 Hn) as (b2 & -> & Hb2 & E2); [rewrite E1, zlen_app; lia|].
  cbn [mbind option_bind].
  destruct (eb_add_ok b2 d Hb2) as (b3 & -> & Hb3 & E3).
  { rewrite E2, E1, !zlen_app, int_code_len. lia. }
  cbn [mbind option_bind]. exists b3. split; [done|]. split; [done|].
  by rewrite E3, E2, E1, <- !app_assoc.
Qed.

Lemma marshal_ok b tag d :
  eb_inv b → 0 <= tag < 2 ^ 32 → zlen d < 2 ^ 32 → fits b (record tag d) →
  ∃ b', evtag_marshal b tag d = Some b' ∧ appended b (record tag d) b'.
Proof.
  intros Hb Ht Hd Hf. unfold fits in Hf. rewrite record_len in Hf. pose proof (zlen_nonneg d).
  apply header_ok_w; try done; lia.
Qed.

Lemma marshal_int_with_ok size b tag n :
  eb_inv b → 0 <= tag < 2 ^ 32 → 0 <= n < 2 ^ (4 * (2 * size)) → 1 <= size <= 8 →
  fits b (record tag (int_code n)) →
  ∃ b', ('(data, len) ← ENCODE_INT_INTERNAL size n; '(b, _) ← evtag_encode_tag b tag;
         b ← evtag_encode_int b len; '(b, _) ← eb_add b (ztake len data); Some b) = Some b' ∧
    appended b (record tag (int_code n)) b'.
Proof.
  intros Hb Ht Hn Hs Hf. unfold fits in Hf. rewrite record_len, int_code_len in Hf.
  destruct (encode_internal_ok size n Hn Hs) as (data & -> & Hdata & _ & Hle). cbn [mbind option_bind].
  rewrite Hdata. pose proof (int_len_range n). unfold record. rewrite int_code_len.
  apply header_ok_w; try done; [lia|]. rewrite int_code_len. lia.
Qed.

Lemma marshal_timeval_ok b tag tv :
  let p := int_code (u32 (tv_sec tv)) ++ int_code (u32 (tv_usec tv)) in
  eb_inv b → 0 <= tag < 2 ^ 32 → fits b (record tag p) →
  ∃ b', evtag_marshal_timeval b tag tv = Some b' ∧ appended b (record tag p) b'.
Proof.
  intros p Hb Ht Hf. unfold evtag_marshal_timeval, encode_int_internal.
  pose proof (u32_range (tv_sec tv)). pose proof (u32_range (tv_usec tv)).
  destruct (encode_internal_ok 4 (u32 (tv_sec tv))) as (d1 & -> & H1 & L1 & B1); [done|lia|].
  cbn [mbind option_bind].
  destruct (encode_internal_ok 4 (u32 (tv_usec tv))) as (d2 & -> & H2 & L2 & B2); [done|lia|].
  cbn [mbind option_bind].
  pose proof (int_len_range (u32 (tv_sec tv))) as R1. pose proof (int_len_range (u32 (tv_usec tv))) as R2.
  rewrite (ztake_all 5 d1) by lia.
  rewrite memcpy_at_ok; [|lia|rewrite zlen_app, zlen_zrepeat; lia]. cbn [mbind option_bind].
  rewrite (ztake_app_le (int_len (u32 (tv_sec tv))) d1), H1 by lia.
  rewrite ztake_app_ge by (rewrite int_code_len; lia). rewrite int_code_len.
  rewrite ztake_app_le by lia.
  replace (int_len (u32 (tv_sec tv)) + int_len (u32 (tv_usec tv)) - int_len (u32 (tv_sec tv)))
    with (int_len (u32 (tv_usec tv))) by lia.
  rewrite H2. apply marshal_ok; try done. unfold p. rewrite zlen_app, !int_code_len. lia.
Qed.

(** * Reading records *)

Lemma header_ok b tag d rest :
  eb_inv b → 0 <= tag < 2 ^ 32 → eb_bytes b = record tag d ++ rest →
  ∃ b', evtag_unmarshal_header b = Some (b', zlen d, Some tag) ∧ eb_inv b' ∧ eb_bytes b' = d ++ rest.
Proof.
  intros Hb Ht E. unfold evtag_unmarshal_header, record in *.
  destruct (eb_length_ok b Hb) as [_ Hcap]. pose proof eb_cap_int. rewrite E, !zlen_app in Hcap.
  pose proof (tag_code_len 5 tag ltac:(lia)). pose proof (zlen_nonneg d). pose proof (zlen_nonneg rest).
  pose proof (zlen_nonneg (int_code (zlen d))). unfold INT_MAX in *.
  rewrite <- app_assoc in E.
  destruct (decode_tag_ok tag _ b true Hb Ht E) as (b1 & -> & Hb1 & E1). cbn [mbind option_bind].
  destruct (Z.eqb_spec (zlen (tag_code 5 tag)) (-1)); [lia|].
  rewrite <- app_assoc in E1. unfold evtag_decode_int, decode_int_internal.
  destruct (decode_int_front 8 32 b1 (zlen d) (d ++ rest)) as (b2 & -> & Hb2 & E2); try done; try lia.
  { apply nibs_bound; lia. }
  cbn [mbind option_bind]. pose proof (int_len_range (zlen d)).
  destruct (Z.eqb_spec (int_len (zlen d)) (-1)); [lia|]. simpl negb. cbn iota.
  rewrite u64_small by (rewrite int_code_len in *; lia).
  destruct (eb_drain_ok b2 (int_len (zlen d)) Hb2) as (b3 & -> & Hb3 & E3); [lia|].
  cbn [mbind option_bind].
  assert (E3' : eb_bytes b3 = d ++ rest).
  { rewrite E3, E2, E1, zdrop_app_ge; rewrite int_code_len; [|lia]. by rewrite Z.sub_diag. }
  destruct (eb_length_ok b3 Hb3) as [-> _]. rewrite E3', zlen_app.
  change (0 =? -1) with false. cbn iota.
  destruct (Z.ltb_spec (zlen d + zlen rest) (zlen d)); [lia|].
  rewrite i32_small by lia. exists b3. by split.
Qed.

Lemma consume_ok b tag d rest :
  eb_inv b → 0 <= tag < 2 ^ 32 → eb_bytes b = record tag d ++ rest →
  ∃ b', evtag_consume b = Some (b', 0) ∧ eb_inv b' ∧ eb_bytes b' = rest.
Proof.
  intros Hb Ht E. unfold evtag_consume.
  destruct (header_ok b tag d rest Hb Ht E) as (b1 & -> & Hb1 & E1). cbn [mbind option_bind].
  pose proof (zlen_nonneg d). destruct (Z.eqb_spec (zlen d) (-1)); [lia|].
  destruct (eb_length_ok b1 Hb1) as [_ Hcap]. rewrite E1, zlen_app in Hcap. pose proof eb_cap_int.
  pose proof (zlen_nonneg rest). rewrite u64_small by (unfold INT_MAX in *; lia).
  destruct (eb_drain_ok b1 (zlen d) Hb1) as (b2 & -> & Hb2 & E2); [lia|]. cbn [mbind option_bind].
  exists b2. split; [done|]. split; [done|].
  by rewrite E2, E1, zdrop_app_ge, Z.sub_diag by lia.
Qed.

Lemma unmarshal_ok src dst tag d rest :
  eb_inv src → eb_inv dst → 0 <= tag < 2 ^ 32 → eb_bytes src = record tag d ++ rest → fits dst d →
  ∃ src' dst', evtag_unmarshal src dst = Some (src', dst', zlen d, Some tag) ∧ eb_inv src' ∧
    eb_bytes src' = rest ∧ appended dst d dst'.
Proof.
  intros Hs Hd Ht E Hf. unfold evtag_unmarshal.
  destruct (header_ok src tag d rest Hs Ht E) as (b1 & -> & Hb1 & E1). cbn [mbind option_bind].
  pose proof (zlen_nonneg d). pose proof (zlen_nonneg rest). destruct (Z.eqb_spec (zlen d) (-1)); [lia|].
  assert (∃ b2, eb_inv b2 ∧ eb_bytes b2 = d ++ rest ∧
    ('(src, data) ← eb_pullup b1 (zlen d);
     data ← (match data with
             | Some d' => mem_read d' 0 (zlen d)
             | None => if zlen d =? 0 then Some [] else None
             end); Some (src, data)) = Some (b2, d)) as (b2 & Hb2 & E2 & Epull).
  { destruct (Z.eqb_spec (zlen d) 0) as [Hz|Hz].
    - rewrite Hz, eb_pullup_zero by done. cbn [mbind option_bind]. exists b1.
      by rewrite (zlen_nil_inv d Hz) in *.
    - destruct (eb_pullup_ok b1 (zlen d) Hb1) as (b2 & d' & -> & Hb2 & E2 & Ed & Hl); [rewrite E1, zlen_app; lia|].
      cbn [mbind option_bind]. rewrite mem_read_ok by lia. cbn [mbind option_bind]. exists b2.
      split; [done|]. split; [congruence|]. do 2 f_equal. rewrite zdrop_0, Ed, E1.
      rewrite ztake_ztake, ztake_app_le, ztake_all by lia. done. }
  destruct (eb_pullup b1 (zlen d)) as [[b2' data]|]; [|done]. cbn [mbind option_bind] in Epull |- *.
  destruct (match data with Some _ => _ | None => _ end) as [x|]; [|done].
  cbn [mbind option_bind] in Epull |- *. injection Epull as -> ->.
  destruct (eb_add_ok dst d Hd Hf) as (dst' & -> & Hd' & Ed'). cbn [mbind option_bind].
  change (0 =? -1) with false. cbn iota.
  destruct (eb_length_ok b2 Hb2) as [_ Hcap]. rewrite E2, zlen_app in Hcap. pose proof eb_cap_int.
  rewrite u64_small by (unfold INT_MAX in *; lia).
  destruct (eb_drain_ok b2 (zlen d) Hb2) as (b3 & -> & Hb3 & E3); [lia|]. cbn [mbind option_bind].
  exists b3, dst'. split; [done|]. split; [done|]. split; [|done].
  by rewrite E3, E2, zdrop_app_ge, Z.sub_diag by lia.
Qed.

(** Both integer widths. *)
Lemma unmarshal_int_with_ok maxn w b tag n rest :
  eb_inv b → 0 <= tag < 2 ^ 32 → 0 <= n < 2 ^ w → nibs n <= maxn → 1 <= maxn <= 16 → 4 <= w →
  eb_bytes b = record tag (int_code n) ++ rest →
  ∃ b', unmarshal_int_with (DECODE_INT_INTERNAL maxn w) b tag = Some (b', int_len n, Some n) ∧
    eb_inv b' ∧ eb_bytes b' = rest.
Proof.
  intros Hb Ht Hn Hk Hm Hw E. unfold unmarshal_int_with, record in *.
  pose proof (int_len_range n) as Hl1. assert (Hl9 : int_len n <= 9) by (unfold int_len; lia).
  pose proof (zlen_nonneg rest). rewrite int_code_len in E.
  rewrite <- app_assoc in E.
  destruct (decode_tag_ok tag _ b true Hb Ht E) as (b1 & -> & Hb1 & E1). cbn [mbind option_bind].
  pose proof (tag_code_len 5 tag ltac:(lia)).
  destruct (Z.eqb_spec (zlen (tag_code 5 tag)) (-1)); [lia|]. rewrite Z.eqb_refl. simpl negb. cbn iota.
  rewrite <- app_assoc in E1. unfold evtag_decode_int, decode_int_internal.
  destruct (decode_int_front 8 32 b1 (int_len n) (int_code n ++ rest)) as (b2 & -> & Hb2 & E2); try done; try lia.
  { apply nibs_bound; lia. }
  cbn [mbind option_bind]. pose proof (int_len_range (int_len n)) as Hll.
  assert (int_len (int_len n) <= 9).
  { pose proof (nibs_bound (int_len n) 8 ltac:(lia) ltac:(lia)). unfold int_len at 1. lia. }
  destruct (Z.eqb_spec (int_len (int_len n)) (-1)); [lia|]. simpl negb. cbn iota.
  rewrite u64_small by lia.
  destruct (eb_drain_ok b2 (int_len (int_len n)) Hb2) as (b3 & -> & Hb3 & E3); [lia|].
  cbn [mbind option_bind]. change (0 =? -1) with false. cbn iota.
  assert (E3' : eb_bytes b3 = int_code n ++ rest).
  { rewrite E3, E2, E1, zdrop_app_ge; rewrite int_code_len; [|lia]. by rewrite Z.sub_diag. }
  destruct (eb_length_ok b3 Hb3) as [-> _]. rewrite E3', zlen_app, int_code_len.
  destruct (Z.ltb_spec (int_len n + zlen rest) (int_len n)); [lia|].
  destruct (decode_int_front maxn w b3 n rest) as (b4 & Ed & Hb4 & E4); try done.
  rewrite Ed. cbn [mbind option_bind].
  destruct (eb_drain_ok b4 (int_len n) Hb4) as (b5 & -> & Hb5 & E5); [lia|]. cbn [mbind option_bind].
  destruct (Z.ltb_spec (int_len n) 0); [lia|]. rewrite Z.ltb_irrefl. cbn [orb].
  exists b5. split; [done|]. split; [done|].
  rewrite E5, E4, E3', zdrop_app_ge; rewrite int_code_len; [|lia]. by rewrite Z.sub_diag.
Qed.

Lemma unmarshal_fixed_ok b tag d rest :
  eb_inv b → 0 <= tag < 2 ^ 32 → eb_bytes b = record tag d ++ rest →
  ∃ b', evtag_unmarshal_fixed b tag (zlen d) = Some (b', 0, d) ∧ eb_inv b' ∧ eb_bytes b' = rest.
Proof.
  intros Hb Ht E. unfold evtag_unmarshal_fixed.
  destruct (header_ok b tag d rest Hb Ht E) as (b1 & -> & Hb1 & E1). cbn [mbind option_bind].
  pose proof (zlen_nonneg d). destruct (Z.ltb_spec (zlen d) 0); [lia|].
  rewrite !Z.eqb_refl. simpl negb. cbn iota.
  destruct (eb_remove_ok b1 (zlen d) Hb1) as (b2 & -> & Hb2 & E2); [lia|]. cbn [mbind option_bind].
  exists b2. rewrite E1, ztake_app_le, ztake_all by lia. split; [done|]. split; [done|].
  by rewrite E2, E1, zdrop_app_ge, Z.sub_diag by lia.
Qed.

Lemma unmarshal_timeval_ok b tag s u rest :
  eb_inv b → 0 <= tag < 2 ^ 32 → 0 <= s < 2 ^ 32 → 0 <= u < 2 ^ 32 →
  eb_bytes b = record tag (int_code s ++ int_code u) ++ rest →
  ∃ b', evtag_unmarshal_timeval b tag = Some (b', 0, Some s, Some u) ∧ eb_inv b' ∧ eb_bytes b' = rest.
Proof.
  intros Hb Ht Hs Hu E. unfold evtag_unmarshal_timeval.
  destruct (header_ok b tag _ rest Hb Ht E) as (b1 & -> & Hb1 & E1). cbn [mbind option_bind].
  rewrite zlen_app, !int_code_len.
  pose proof (int_len_range s). pose proof (int_len_range u).
  destruct (Z.eqb_spec (int_len s + int_len u) (-1)); [lia|]. rewrite Z.eqb_refl. simpl negb. cbn iota.
  unfold unmarshal_timeval_body, decode_int_internal. rewrite <- app_assoc in E1.
  destruct (decode_int_front 8 32 b1 s (int_code u ++ rest)) as (b2 & Ed & Hb2 & E2); try done; try lia.
  { apply nibs_bound; lia. }
  rewrite Ed. cbn [mbind option_bind].
  destruct (Z.eqb_spec (int_len s) (-1)); [lia|].
  destruct (decode_int_at 8 32 b2 (int_code s) u rest) as (b3 & Ed3 & Hb3 & E3); try done; try lia; [congruence| |].
  { apply nibs_bound; lia. }
  rewrite int_code_len in Ed3. rewrite Ed3.
  cbn [mbind option_bind]. destruct (Z.eqb_spec (int_len u) (-1)); [lia|].
  rewrite Z.ltb_irrefl. cbn [mbind option_bind].
  assert (int_len s <= 5 ∧ int_len u <= 5) as [??].
  { pose proof (nibs_bound s 8 ltac:(lia) ltac:(lia)). pose proof (nibs_bound u 8 ltac:(lia) ltac:(lia)).
    unfold int_len. lia. }
  rewrite u64_small by lia.
  destruct (eb_drain_ok b3 (int_len s + int_len u) Hb3) as (b4 & -> & Hb4 & E4); [lia|].
  cbn [mbind option_bind]. exists b4. split; [done|]. split; [done|].
  rewrite E4, E3, E2, E1, app_assoc, zdrop_app_ge; rewrite zlen_app, !int_code_len; [|lia]. by rewrite Z.sub_diag.
Qed.

(** Peeking leaves the queue alone. *)
Lemma peek_lengths_ok b tag d rest :
  eb_inv b → 0 <= tag < 2 ^ 32 → eb_bytes b = record tag d ++ rest →
  (∃ b', evtag_peek b = Some (b', zlen (tag_code 5 tag), Some tag) ∧ eb_inv b' ∧ eb_bytes b' = eb_bytes b) ∧
  (∃ b', evtag_payload_length b = Some (b', 0, Some (zlen d)) ∧ eb_inv b' ∧ eb_bytes b' = eb_bytes b) ∧
  (∃ b', evtag_peek_length b = Some (b', 0, Some (zlen (record tag d))) ∧ eb_inv b' ∧ eb_bytes b' = eb_bytes b).
Proof.
  intros Hb Ht E. pose proof E as E0. unfold record in E. rewrite <- !app_assoc in E.
  destruct (eb_length_ok b Hb) as [_ Hcap]. pose proof eb_cap_int. rewrite E0, zlen_app, record_len in Hcap.
  pose proof (zlen_nonneg d). pose proof (zlen_nonneg rest). pose proof (int_len_range (zlen d)).
  pose proof (tag_code_len 5 tag ltac:(lia)). unfold INT_MAX in *.
  destruct (decode_tag_ok tag _ b false Hb Ht E) as (b1 & Et & Hb1 & E1).
  split; [by exists b1|].
  destruct (decode_int_at 8 32 b1 (tag_code 5 tag) (zlen d) (d ++ rest)) as (b2 & Ed & Hb2 & E2);
    try done; try lia; [by rewrite E1| |].
  { apply nibs_bound; lia. }
  unfold evtag_payload_length, evtag_peek_length, decode_int_internal. rewrite Et. cbn [mbind option_bind].
  destruct (Z.eqb_spec (zlen (tag_code 5 tag)) (-1)); [lia|]. rewrite Ed. cbn [mbind option_bind].
  destruct (Z.eqb_spec (int_len (zlen d)) (-1)); [lia|]. cbn [mbind option_bind].
  split; exists b2; (split; [|split; [done|congruence]]); [done|].
  rewrite u32_small, record_len by lia. do 3 f_equal. lia.
Qed.
End records.

(** * Over [struct evbuffer] *)

(** An allocator that never fails. *)
#[export] Instance zero_malloc : Malloc.
Proof.
  refine {| mm_malloc n := Some (zrepeat 0 n) |}. intros n b Hn [= <-]. by apply zlen_zrepeat.
Defined.
#[export] Instance zero_malloc_total : MallocTotal.
Proof. intros n Hn. done. Qed.

Lemma new_open : open_buf evbuffer_new.
Proof. constructor; try done. constructor; try done. constructor. Qed.

(** A buffer holding given bytes. *)
Definition buf_of (d : list Z) : evbuffer :=
  Evbuffer [Chain d (zlen d) 0 (zlen d) 0 1] 0 (zlen d) 0 0 false false false false 1 [] [].
Lemma buf_of_open d : zlen d <= INT_MAX → open_buf (buf_of d) ∧ bytes (buf_of d) = d.
Proof.
  intros Hd. assert (bytes (buf_of d) = d) as E.
  { unfold bytes, bytes_of; simpl. unfold chain_data; simpl. rewrite app_nil_r. by apply ztake_all. }
  split; [|done]. pose proof (zlen_nonneg d). unfold INT_MAX in *.
  constructor; try done; [|by rewrite E]. constructor; try done.
  - constructor; [|done]. constructor; simpl; try done; try lia.
    unfold EVBUFFER_CHAIN_MAX, EV_SSIZE_MAX, EVBUFFER_CHAIN_SIZE. lia.
  - by apply (lwd_at []).
  - by rewrite E.
  - unfold EV_SIZE_MAX. simpl. lia.
Qed.

(** * Properties *)

(** integers round-trip: what [evtag_encode_int] (32 bits) and
    [evtag_encode_int64] append to a queue is decoded to the same number by
    [evtag_decode_int], [evtag_decode_int64], which consume exactly the encoded
    bytes; an encoding takes one byte for the count and the first digit and one
    for every two further hexadecimal digits. *)
Theorem evtag_int_roundtrip {B} {EO : EvbufferOps B} {EL : EvbufferLaws B} (b : B) n :
  eb_inv b → 0 <= n < 2 ^ 64 → zlen (eb_bytes b) + int_len n <= eb_cap →
  (∃ b', evtag_encode_int64 b n = Some b' ∧ appended b (int_code n) b') ∧
  (n < 2 ^ 32 → ∃ b', evtag_encode_int b n = Some b' ∧ appended b (int_code n) b') ∧
  zlen (int_code n) = Z.max 1 (nibs n) `div` 2 + 1 ∧
  ∀ q rest, eb_inv q → eb_bytes q = int_code n ++ rest →
    (∃ q', evtag_decode_int64 q = Some (q', 0, Some n) ∧ eb_inv q' ∧ eb_bytes q' = rest) ∧
    (n < 2 ^ 32 → ∃ q', evtag_decode_int q = Some (q', 0, Some n) ∧ eb_inv q' ∧ eb_bytes q' = rest).
Proof.
  intros Hb Hn Hc. split; [by apply encode_int64_ok|]. split; [intros; apply encode_int_ok; done || lia|].
  split; [apply int_code_len|]. intros q rest Hq E.
  assert (Hdec : ∀ maxn w, 0 <= n < 2 ^ w → nibs n <= maxn → 1 <= maxn <= 16 → 4 <= w →
    ∃ q', ('(evbuf, res, m) ← DECODE_INT_INTERNAL maxn w q 0;
      if negb (res =? -1) then '(evbuf, _) ← eb_drain evbuf (u64 res); Some (evbuf, 0, m)
      else Some (evbuf, -1, m)) = Some (q', 0, Some n) ∧ eb_inv q' ∧ eb_bytes q' = rest).
  { intros maxn w Hw Hk Hm H4.
    destruct (decode_int_front maxn w q n rest) as (q1 & -> & Hq1 & E1); try done. cbn [mbind option_bind].
    pose proof (int_len_range n). assert (int_len n <= 9) by (unfold int_len; lia).
    destruct (Z.eqb_spec (int_len n) (-1)); [lia|]. simpl negb. cbn iota. rewrite u64_small by lia.
    destruct (eb_drain_ok q1 (int_len n) Hq1) as (q2 & -> & Hq2 & E2); [lia|]. cbn [mbind option_bind].
    exists q2. split; [done|]. split; [done|].
    rewrite E2, E1, E, zdrop_app_ge; rewrite int_code_len; [|lia]. by rewrite Z.sub_diag. }
  split; [|intros Hn32]; apply Hdec; try done; try lia; apply nibs_bound; lia.
Qed.
Lemma evtag_int_roundtrip_witness :
  let b := evbuffer_new in let n := 0x1234567 in
  0 <= n < 2 ^ 64 ∧ zlen (eb_bytes b) + int_len n <= eb_cap ∧
  (∃ b', evtag_encode_int64 b n = Some b' ∧ appended b (int_code n) b') ∧
  (n < 2 ^ 32 → ∃ b', evtag_encode_int b n = Some b' ∧ appended b (int_code n) b') ∧
  zlen (int_code n) = Z.max 1 (nibs n) `div` 2 + 1 ∧
  ∀ q rest, eb_inv q → eb_bytes q = int_code n ++ rest →
    (∃ q', evtag_decode_int64 q = Some (q', 0, Some n) ∧ eb_inv q' ∧ eb_bytes q' = rest) ∧
    (n < 2 ^ 32 → ∃ q', evtag_decode_int q = Some (q', 0, Some n) ∧ eb_inv q' ∧ eb_bytes q' = rest).
Proof.
  split; [lia|]. split; [by vm_compute|].
  apply (evtag_int_roundtrip evbuffer_new 0x1234567); [exact new_open|lia|by vm_compute].
Defined.

(** C30: records round-trip: [evtag_marshal] appends a tag, the payload length
    and the payload; from a queue that starts with such a record
    [evtag_unmarshal] moves exactly the payload to the other queue,
    [evtag_unmarshal_fixed] returns it, [evtag_consume] skips it, and
    [evtag_peek], [evtag_payload_length] and [evtag_peek_length] report tag and
    lengths without consuming anything.  The groups of seven bits of a tag are in
    the order the code has, which is not that of the comment in
    [event_tagging.c]: see [tag_order]. *)
Theorem evtag_marshal_roundtrip {B} {EO : EvbufferOps B} {EL : EvbufferLaws B} (b dst : B) tag d rest :
  eb_inv b → eb_inv dst → 0 <= tag < 2 ^ 32 → zlen d < 2 ^ 32 →
  fits b (record tag d) → fits dst d →
  (∃ b', evtag_marshal b tag d = Some b' ∧ appended b (record tag d) b') ∧
  ∀ q, eb_inv q → eb_bytes q = record tag d ++ rest →
    (∃ q' dst', evtag_unmarshal q dst = Some (q', dst', zlen d, Some tag) ∧ eb_inv q' ∧
       eb_bytes q' = rest ∧ appended dst d dst') ∧
    (∃ q', evtag_unmarshal_fixed q tag (zlen d) = Some (q', 0, d) ∧ eb_inv q' ∧ eb_bytes q' = rest) ∧
    (∃ q', evtag_consume q = Some (q', 0) ∧ eb_inv q' ∧ eb_bytes q' = rest) ∧
    (∃ q', evtag_peek q = Some (q', zlen (tag_code 5 tag), Some tag) ∧ eb_inv q' ∧
       eb_bytes q' = eb_bytes q) ∧
    (∃ q', evtag_payload_length q = Some (q', 0, Some (zlen d)) ∧ eb_inv q' ∧ eb_bytes q' = eb_bytes q) ∧
    (∃ q', evtag_peek_length q = Some (q', 0, Some (zlen (record tag d))) ∧ eb_inv q' ∧
       eb_bytes q' = eb_bytes q).
Proof.
  intros Hb Hdst Ht Hd Hf Hf2. split; [by apply marshal_ok|]. intros q Hq E.
  split; [by eapply unmarshal_ok|]. split; [by eapply unmarshal_fixed_ok|].
  split; [by eapply consume_ok|]. by eapply peek_lengths_ok.
Qed.
Lemma evtag_marshal_roundtrip_witness :
  let b := evbuffer_new in let tag := 0x166 in let d := [1; 2; 3] in let q := buf_of (record tag d ++ [9]) in
  fits b (record tag d) ∧ eb_inv q ∧ eb_bytes q = record tag d ++ [9] ∧
  (∃ b', evtag_marshal b tag d = Some b' ∧ appended b (record tag d) b') ∧
  ∀ q, eb_inv q → eb_bytes q = record tag d ++ [9] →
    (∃ q' dst', evtag_unmarshal q b = Some (q', dst', zlen d, Some tag) ∧ eb_inv q' ∧
       eb_bytes q' = [9] ∧ appended b d dst') ∧
    (∃ q', evtag_unmarshal_fixed q tag (zlen d) = Some (q', 0, d) ∧ eb_inv q' ∧ eb_bytes q' = [9]) ∧
    (∃ q', evtag_consume q = Some (q', 0) ∧ eb_inv q' ∧ eb_bytes q' = [9]) ∧
    (∃ q', evtag_peek q = Some (q', zlen (tag_code 5 tag), Some tag) ∧ eb_inv q' ∧
       eb_bytes q' = eb_bytes q) ∧
    (∃ q', evtag_payload_length q = Some (q', 0, Some (zlen d)) ∧ eb_inv q' ∧ eb_bytes q' = eb_bytes q) ∧
    (∃ q', evtag_peek_length q = Some (q', 0, Some (zlen (record tag d))) ∧ eb_inv q' ∧
       eb_bytes q' = eb_bytes q).
Proof.
  split; [by vm_compute|]. split; [apply buf_of_open; by vm_compute|]. split; [apply buf_of_open; by vm_compute|].
  apply (evtag_marshal_roundtrip evbuffer_new evbuffer_new 0x166 [1; 2; 3] [9]);
    [exact new_open|exact new_open|lia|by vm_compute|by vm_compute|by vm_compute].
Defined.

(** The order of the groups of a tag, on the example of the comment in
    [event_tagging.c]: [0x166] is written as [E6 02], and [82 66] is read as
    [0x3302]. *)
Lemma tag_order :
  (∃ b, evtag_encode_tag evbuffer_new 0x166 = Some (b, 2) ∧ eb_bytes b = [0xe6; 0x02]) ∧
  (∃ b, evtag_decode_tag (buf_of [0x82; 0x66]) = Some (b, 2, Some 0x3302)).
Proof. split; eexists; [split|]; vm_compute; reflexivity. Qed.

(** typed records round-trip: 32- and 64-bit integers and time values
    written by the [evtag_marshal_*] functions are read back unchanged by the
    matching [evtag_unmarshal_*] functions, which consume the whole record. *)
Theorem evtag_typed_roundtrip {B} {EO : EvbufferOps B} {EL : EvbufferLaws B} (b : B) tag n tv rest :
  let s := u32 (tv_sec tv) in let u := u32 (tv_usec tv) in
  eb_inv b → 0 <= tag < 2 ^ 32 → 0 <= n < 2 ^ 64 →
  fits b (record tag (int_code n)) → fits b (record tag (int_code s ++ int_code u)) →
  (∃ b', evtag_marshal_int64 b tag n = Some b' ∧ appended b (record tag (int_code n)) b') ∧
  (n < 2 ^ 32 → ∃ b', evtag_marshal_int b tag n = Some b' ∧ appended b (record tag (int_code n)) b') ∧
  (∃ b', evtag_marshal_timeval b tag tv = Some b' ∧ appended b (record tag (int_code s ++ int_code u)) b') ∧
  ∀ q, eb_inv q →
    (eb_bytes q = record tag (int_code n) ++ rest →
     (∃ q', evtag_unmarshal_int64 q tag = Some (q', int_len n, Some n) ∧ eb_inv q' ∧ eb_bytes q' = rest) ∧
     (n < 2 ^ 32 →
      ∃ q', evtag_unmarshal_int q tag = Some (q', int_len n, Some n) ∧ eb_inv q' ∧ eb_bytes q' = rest)) ∧
    (eb_bytes q = record tag (int_code s ++ int_code u) ++ rest →
     ∃ q', evtag_unmarshal_timeval q tag = Some (q', 0, Some s, Some u) ∧ eb_inv q' ∧ eb_bytes q' = rest).
Proof.
  intros s u Hb Ht Hn Hf Hf2.
  split; [by apply (marshal_int_with_ok 8)|]. split; [intros; apply (marshal_int_with_ok 4); done || lia|].
  split; [by apply marshal_timeval_ok|]. intros q Hq. split.
  - intros E. split; [|intros Hn32]; apply unmarshal_int_with_ok; try done; try lia; apply nibs_bound; lia.
  - intros E. apply unmarshal_timeval_ok; try done; apply u32_range.
Qed.
Lemma evtag_typed_roundtrip_witness :
  let b := evbuffer_new in let tag := 0x66 in let n := 0x123456789 in let tv := TV 3 500000 in
  let s := u32 (tv_sec tv) in let u := u32 (tv_usec tv) in
  fits b (record tag (int_code n)) ∧
  (∃ b', evtag_marshal_int64 b tag n = Some b' ∧ appended b (record tag (int_code n)) b') ∧
  (n < 2 ^ 32 → ∃ b', evtag_marshal_int b tag n = Some b' ∧ appended b (record tag (int_code n)) b') ∧
  (∃ b', evtag_marshal_timeval b tag tv = Some b' ∧ appended b (record tag (int_code s ++ int_code u)) b') ∧
  ∀ q, eb_inv q →
    (eb_bytes q = record tag (int_code n) ++ [9] →
     (∃ q', evtag_unmarshal_int64 q tag = Some (q', int_len n, Some n) ∧ eb_inv q' ∧ eb_bytes q' = [9]) ∧
     (n < 2 ^ 32 →
      ∃ q', evtag_unmarshal_int q tag = Some (q', int_len n, Some n) ∧ eb_inv q' ∧ eb_bytes q' = [9])) ∧
    (eb_bytes q = record tag (int_code s ++ int_code u) ++ [9] →
     ∃ q', evtag_unmarshal_timeval q tag = Some (q', 0, Some s, Some u) ∧ eb_inv q' ∧ eb_bytes q' = [9]).
Proof.
  split; [by vm_compute|].
  apply (evtag_typed_roundtrip evbuffer_new 0x66 0x123456789 (TV 3 500000) [9]);
    [exact new_open|lia|lia|by vm_compute|by vm_compute].
Defined.

(** decoding an integer at any offset of a queue with arbitrary content
    reads only bytes that were pulled up, leaves the content alone, and either
    fails or returns the length of an encoding that lies inside the queue. *)
Theorem evtag_decode_int_safe {B} {EO : EvbufferOps B} {EL : EvbufferLaws B} (b : B) offset :
  eb_inv b → 0 <= offset →
  ∃ b' ret num, decode_int_internal b offset = Some (b', ret, num) ∧ eb_inv b' ∧
    eb_bytes b' = eb_bytes b ∧
    (ret = -1 ∧ num = None ∨
     1 <= ret <= 5 ∧ ret + offset <= zlen (eb_bytes b) ∧ ∃ n, num = Some n).
Proof. apply (decode_int_safe 8 32). Qed.
Lemma evtag_decode_int_safe_witness :
  let b := buf_of [0x72; 0x10] in
  0 <= 0 ∧ ∃ b' ret num, decode_int_internal b 0 = Some (b', ret, num) ∧ eb_inv b' ∧
    eb_bytes b' = eb_bytes b ∧
    (ret = -1 ∧ num = None ∨ 1 <= ret <= 5 ∧ ret + 0 <= zlen (eb_bytes b) ∧ ∃ n, num = Some n).
Proof.
  split; [lia|]. apply (evtag_decode_int_safe (buf_of [0x72; 0x10]) 0); [|lia].
  apply buf_of_open. by vm_compute.
Defined.

(** [decode_tag_internal] reads one byte more than it asked
    [evbuffer_pullup] for: with five bytes in the first chain that look like an
    unfinished tag and one more byte in the next chain, it reads behind the
    pulled-up bytes (the model is stuck). *)
Theorem evtag_decode_tag_overread :
  let b := Evbuffer [Chain [128; 128; 128; 128; 128] 5 0 5 0 1; Chain [1] 1 0 1 0 1] 1 6 0 0
             false false false false 1 [] [] in
  buf_wf b ∧ evbuffer_pullup b 5 = Some (b, Some [128; 128; 128; 128; 128]) ∧
  evtag_decode_tag b = None.
Proof.
  split; [|split; [done|done]]. constructor; try done.
  - by repeat (constructor; [by constructor|]).
  - by apply (lwd_at [_] _ []).
Qed.
