(* ===== verification/Evutil.v ===== *)
(** * Characters, numbers as text, and string helpers

    The part of [evutil.c] that deals with text: the character classes, which the
    code keeps as bit tables, the case tables, comparison without regard to case,
    trimming; and the functions of the C library that turn text into numbers and
    back.  A C string is the list of its bytes without the terminating zero. *)
From S2P Require Import Prelude.

(** * Bytes *)

Definition byte (b : Z) : Prop := 0 <= b < 256.

Lemma byte_cases (P : Z → bool) (b : Z) :
  byte b → forallb (λ n, P (Z.of_nat n)) (seq 0 256) = true → P b = true.
Proof.
  intros Hb H. rewrite forallb_forall in H. rewrite <- (Z2Nat.id b) by (unfold byte in Hb; lia).
  apply H, in_seq. unfold byte in Hb. lia.
Qed.

(** * Network byte order *)

(** [ntohs], [ntohl] of the bytes read, and the bytes of [htons], [htonl]. *)
Definition of_be (l : list Z) : Z := foldl (λ a b, a * 256 + b) 0 l.
Definition htons (x : Z) : list Z := [u16 x / 256; u16 x mod 256].
Definition htonl (x : Z) : list Z :=
  [u32 x / 2 ^ 24; u32 x / 2 ^ 16 mod 256; u32 x / 2 ^ 8 mod 256; u32 x mod 256].

(** * Strings *)

(** The C string at the start of a buffer. *)
Fixpoint cstr (l : list Z) : list Z :=
  match l with
  | [] => []
  | c :: l => if c =? 0 then [] else c :: cstr l
  end.

(** Offset of the first [c] in a string. *)
Fixpoint strchr (s : list Z) (c : Z) : option nat :=
  match s with
  | [] => None
  | x :: s => if x =? c then Some O else S <$> strchr s c
  end.

(** * Character classes *)

Definition EVUTIL_ISALPHA_TABLE : list Z := [0; 0; 0x7fffffe; 0x7fffffe; 0; 0; 0; 0].
Definition EVUTIL_ISALNUM_TABLE : list Z := [0; 0x3ff0000; 0x7fffffe; 0x7fffffe; 0; 0; 0; 0].
Definition EVUTIL_ISSPACE_TABLE : list Z := [0x3e00; 0x1; 0; 0; 0; 0; 0; 0].
Definition EVUTIL_ISXDIGIT_TABLE : list Z := [0; 0x3ff0000; 0x7e; 0x7e; 0; 0; 0; 0].
Definition EVUTIL_ISDIGIT_TABLE : list Z := [0; 0x3ff0000; 0; 0; 0; 0; 0; 0].
Definition EVUTIL_ISPRINT_TABLE : list Z := [0; 0xffffffff; 0xffffffff; 0x7fffffff; 0; 0; 0; 0x0].
Definition EVUTIL_ISUPPER_TABLE : list Z := [0; 0; 0x7fffffe; 0; 0; 0; 0; 0].
Definition EVUTIL_ISLOWER_TABLE : list Z := [0; 0; 0; 0x7fffffe; 0; 0; 0; 0].

(** The body of the functions made by [IMPL_CTYPE_FN]. *)
Definition IMPL_CTYPE_FN (table : list Z) (c : Z) : bool :=
  let u := u8 c in
  has (nth (Z.to_nat (Z.land (Z.shiftr u 5) 7)) table 0) (Z.shiftl 1 (Z.land u 31)).

Definition EVUTIL_ISALPHA_ : Z → bool := IMPL_CTYPE_FN EVUTIL_ISALPHA_TABLE.
Definition EVUTIL_ISALNUM_ : Z → bool := IMPL_CTYPE_FN EVUTIL_ISALNUM_TABLE.
Definition EVUTIL_ISSPACE_ : Z → bool := IMPL_CTYPE_FN EVUTIL_ISSPACE_TABLE.
Definition EVUTIL_ISDIGIT_ : Z → bool := IMPL_CTYPE_FN EVUTIL_ISDIGIT_TABLE.
Definition EVUTIL_ISXDIGIT_ : Z → bool := IMPL_CTYPE_FN EVUTIL_ISXDIGIT_TABLE.
Definition EVUTIL_ISPRINT_ : Z → bool := IMPL_CTYPE_FN EVUTIL_ISPRINT_TABLE.
Definition EVUTIL_ISLOWER_ : Z → bool := IMPL_CTYPE_FN EVUTIL_ISLOWER_TABLE.
Definition EVUTIL_ISUPPER_ : Z → bool := IMPL_CTYPE_FN EVUTIL_ISUPPER_TABLE.

Definition EVUTIL_TOUPPER_TABLE : list Z :=
  [0; 1; 2; 3; 4; 5; 6; 7; 8; 9; 10; 11; 12; 13; 14; 15;
   16; 17; 18; 19; 20; 21; 22; 23; 24; 25; 26; 27; 28; 29; 30; 31;
   32; 33; 34; 35; 36; 37; 38; 39; 40; 41; 42; 43; 44; 45; 46; 47;
   48; 49; 50; 51; 52; 53; 54; 55; 56; 57; 58; 59; 60; 61; 62; 63;
   64; 65; 66; 67; 68; 69; 70; 71; 72; 73; 74; 75; 76; 77; 78; 79;
   80; 81; 82; 83; 84; 85; 86; 87; 88; 89; 90; 91; 92; 93; 94; 95;
   96; 65; 66; 67; 68; 69; 70; 71; 72; 73; 74; 75; 76; 77; 78; 79;
   80; 81; 82; 83; 84; 85; 86; 87; 88; 89; 90; 123; 124; 125; 126; 127;
   128; 129; 130; 131; 132; 133; 134; 135; 136; 137; 138; 139; 140; 141; 142; 143;
   144; 145; 146; 147; 148; 149; 150; 151; 152; 153; 154; 155; 156; 157; 158; 159;
   160; 161; 162; 163; 164; 165; 166; 167; 168; 169; 170; 171; 172; 173; 174; 175;
   176; 177; 178; 179; 180; 181; 182; 183; 184; 185; 186; 187; 188; 189; 190; 191;
   192; 193; 194; 195; 196; 197; 198; 199; 200; 201; 202; 203; 204; 205; 206; 207;
   208; 209; 210; 211; 212; 213; 214; 215; 216; 217; 218; 219; 220; 221; 222; 223;
   224; 225; 226; 227; 228; 229; 230; 231; 232; 233; 234; 235; 236; 237; 238; 239;
   240; 241; 242; 243; 244; 245; 246; 247; 248; 249; 250; 251; 252; 253; 254; 255].
Definition EVUTIL_TOLOWER_TABLE : list Z :=
  [0; 1; 2; 3; 4; 5; 6; 7; 8; 9; 10; 11; 12; 13; 14; 15;
   16; 17; 18; 19; 20; 21; 22; 23; 24; 25; 26; 27; 28; 29; 30; 31;
   32; 33; 34; 35; 36; 37; 38; 39; 40; 41; 42; 43; 44; 45; 46; 47;
   48; 49; 50; 51; 52; 53; 54; 55; 56; 57; 58; 59; 60; 61; 62; 63;
   64; 97; 98; 99; 100; 101; 102; 103; 104; 105; 106; 107; 108; 109; 110; 111;
   112; 113; 114; 115; 116; 117; 118; 119; 120; 121; 122; 91; 92; 93; 94; 95;
   96; 97; 98; 99; 100; 101; 102; 103; 104; 105; 106; 107; 108; 109; 110; 111;
   112; 113; 114; 115; 116; 117; 118; 119; 120; 121; 122; 123; 124; 125; 126; 127;
   128; 129; 130; 131; 132; 133; 134; 135; 136; 137; 138; 139; 140; 141; 142; 143;
   144; 145; 146; 147; 148; 149; 150; 151; 152; 153; 154; 155; 156; 157; 158; 159;
   160; 161; 162; 163; 164; 165; 166; 167; 168; 169; 170; 171; 172; 173; 174; 175;
   176; 177; 178; 179; 180; 181; 182; 183; 184; 185; 186; 187; 188; 189; 190; 191;
   192; 193; 194; 195; 196; 197; 198; 199; 200; 201; 202; 203; 204; 205; 206; 207;
   208; 209; 210; 211; 212; 213; 214; 215; 216; 217; 218; 219; 220; 221; 222; 223;
   224; 225; 226; 227; 228; 229; 230; 231; 232; 233; 234; 235; 236; 237; 238; 239;
   240; 241; 242; 243; 244; 245; 246; 247; 248; 249; 250; 251; 252; 253; 254; 255].
Definition EVUTIL_TOLOWER_ (c : Z) : Z := nth (Z.to_nat (u8 c)) EVUTIL_TOLOWER_TABLE 0.
Definition EVUTIL_TOUPPER_ (c : Z) : Z := nth (Z.to_nat (u8 c)) EVUTIL_TOUPPER_TABLE 0.

(** * Comparison and trimming *)

Fixpoint evutil_ascii_strcasecmp (s1 s2 : list Z) : Z :=
  match s1, s2 with
  | [], [] => 0
  | [], c :: _ => if 0 <? swrap 8 (EVUTIL_TOLOWER_ c) then -1 else 1
  | c :: _, [] => if swrap 8 (EVUTIL_TOLOWER_ c) <? 0 then -1 else 1
  | c1 :: s1, c2 :: s2 =>
      let c1 := swrap 8 (EVUTIL_TOLOWER_ c1) in
      let c2 := swrap 8 (EVUTIL_TOLOWER_ c2) in
      if c1 <? c2 then -1 else if c2 <? c1 then 1 else evutil_ascii_strcasecmp s1 s2
  end.

Fixpoint evutil_ascii_strncasecmp (s1 s2 : list Z) (n : nat) : Z :=
  match n with
  | O => 0
  | S n =>
      match s1, s2 with
      | [], [] => 0
      | [], c :: _ => if 0 <? swrap 8 (EVUTIL_TOLOWER_ c) then -1 else 1
      | c :: _, [] => if swrap 8 (EVUTIL_TOLOWER_ c) <? 0 then -1 else 1
      | c1 :: s1, c2 :: s2 =>
          let c1 := swrap 8 (EVUTIL_TOLOWER_ c1) in
          let c2 := swrap 8 (EVUTIL_TOLOWER_ c2) in
          if c1 <? c2 then -1 else if c2 <? c1 then 1 else evutil_ascii_strncasecmp s1 s2 n
      end
  end.

(** The loop of [evutil_rtrim_lws_], on the string from its end. *)
Fixpoint rtrim_loop (s : list Z) : list Z :=
  match s with
  | c :: s' => if (c =? 32) || (c =? 9) then rtrim_loop s' else s
  | [] => []
  end.
Definition evutil_rtrim_lws_ (str : list Z) : list Z := reverse (rtrim_loop (reverse str)).

Definition evutil_hex_char_to_int_ (c : Z) : Z :=
  if (48 <=? c) && (c <=? 57) then c - 48
  else if (65 <=? c) && (c <=? 70) then c - 55
  else if (97 <=? c) && (c <=? 102) then c - 87
  else -1.

(** * Numbers as text: the functions of the C library *)

Definition isspace (c : Z) : bool := (c =? 32) || ((9 <=? c) && (c <=? 13)).
Fixpoint skip_space (s : list Z) : list Z :=
  match s with
  | c :: s' => if isspace c then skip_space s' else s
  | [] => []
  end.
Definition sign (s : list Z) : bool * list Z :=
  match s with
  | c :: s' => if c =? 45 then (true, s') else if c =? 43 then (false, s') else (false, s)
  | [] => (false, [])
  end.

(** The value of a digit, 99 for other characters. *)
Definition digit_val (c : Z) : Z :=
  if (48 <=? c) && (c <=? 57) then c - 48
  else if (65 <=? c) && (c <=? 90) then c - 55
  else if (97 <=? c) && (c <=? 122) then c - 87
  else 99.
Definition is_digit (base c : Z) : bool := digit_val c <? base.
Fixpoint read_digits (base acc : Z) (s : list Z) : Z * list Z :=
  match s with
  | c :: s' => if is_digit base c then read_digits base (acc * base + digit_val c) s' else (acc, s)
  | [] => (acc, [])
  end.

(** An optional [0x] before hexadecimal digits. *)
Definition skip_prefix (base : Z) (s : list Z) : list Z :=
  match s with
  | z :: x :: h :: _ =>
      if (base =? 16) && (z =? 48) && ((x =? 120) || (x =? 88)) && is_digit 16 h then drop 2 s else s
  | _ => s
  end.

(** [strtol] with 64-bit [long]: the value, and where reading stopped ([s] itself
    when there is no number). *)
Definition strtol (s : list Z) (base : Z) : Z * list Z :=
  let '(neg, t) := sign (skip_space s) in
  let t := skip_prefix base t in
  match t with
  | c :: _ =>
      if is_digit base c then
        let '(v, rest) := read_digits base 0 t in
        (Z.max (- 2 ^ 63) (Z.min (2 ^ 63 - 1) (if neg then - v else v)), rest)
      else (0, s)
  | [] => (0, s)
  end.
(** [strtoul]: a minus sign negates modulo 2^64. *)
Definition strtoul (s : list Z) (base : Z) : Z * list Z :=
  let '(neg, t) := sign (skip_space s) in
  let t := skip_prefix base t in
  match t with
  | c :: _ =>
      if is_digit base c then
        let '(v, rest) := read_digits base 0 t in
        (if 2 ^ 64 - 1 <? v then 2 ^ 64 - 1 else u64 (if neg then - v else v), rest)
      else (0, s)
  | [] => (0, s)
  end.
Definition atoi (s : list Z) : Z := i32 (strtol s 10).1.

Definition evutil_strtoll (s : list Z) (base : Z) : Z * list Z := strtol s base.

(** The conversion [%u] of [sscanf]: the value is read as [strtoul] does and
    stored in 32 bits. *)
Definition scan_u (s : list Z) : option (Z * list Z) :=
  let '(neg, t) := sign (skip_space s) in
  match t with
  | c :: _ =>
      if is_digit 10 c then
        let '(v, rest) := read_digits 10 0 t in
        let v := Z.min v (2 ^ 64 - 1) in
        Some (u32 (if neg then - v else v), rest)
      else None
  | [] => None
  end.
(** The conversion [%d]. *)
Definition scan_d (s : list Z) : option (Z * list Z) :=
  let '(neg, t) := sign (skip_space s) in
  match t with
  | c :: _ =>
      if is_digit 10 c then
        let '(v, rest) := read_digits 10 0 t in
        Some (i32 (Z.max (- 2 ^ 63) (Z.min (2 ^ 63 - 1) (if neg then - v else v))), rest)
      else None
  | [] => None
  end.

(** Digits of a number, most significant first: [%u], [%x]. *)
Definition digit_char (d : Z) : Z := if d <? 10 then 48 + d else 87 + d.
Fixpoint to_base (fuel : nat) (base n : Z) : list Z :=
  match fuel with
  | O => []
  | S fuel =>
      if n <? base then [digit_char n]
      else to_base fuel base (n / base) ++ [digit_char (n mod base)]
  end.
(** Enough for 64 bits. *)
Definition sprint_u (n : Z) : list Z := to_base 64 10 n.
Definition sprint_x (n : Z) : list Z := to_base 64 16 n.
Definition sprint_d (n : Z) : list Z := if n <? 0 then 45 :: sprint_u (- n) else sprint_u n.
(** [%02X] of a byte. *)
Definition upper_digit (d : Z) : Z := if d <? 10 then 48 + d else 55 + d.
Definition sprint_02X (n : Z) : list Z := [upper_digit (n / 16); upper_digit (n mod 16)].

(** * The tables say what their names say *)

(** Two functions agree on bytes when they do on 0 to 255. *)
Lemma byte_fun {A} `{EqDecision A} (f g : Z → A) (c : Z) :
  byte c → forallb (λ n, bool_decide (f (Z.of_nat n) = g (Z.of_nat n))) (seq 0 256) = true → f c = g c.
Proof.
  intros Hc H. pose proof (byte_cases (λ c, bool_decide (f c = g c)) c Hc H) as E.
  by apply bool_decide_eq_true_1 in E.
Qed.
Ltac by_table :=
  lazymatch goal with
  | |- byte ?c → ?a = ?b =>
      let f := eval pattern c in a in
      let g := eval pattern c in b in
      lazymatch f with
      | ?f _ => lazymatch g with ?g _ => intros Hc; apply (byte_fun f g c Hc); by vm_compute end
      end
  end.

Lemma ISDIGIT_ok c : byte c → EVUTIL_ISDIGIT_ c = is_digit 10 c.
Proof. by_table. Qed.
Lemma ISXDIGIT_ok c : byte c → EVUTIL_ISXDIGIT_ c = is_digit 16 c.
Proof. by_table. Qed.
Lemma ISLOWER_ok c : byte c → EVUTIL_ISLOWER_ c = (97 <=? c) && (c <=? 122).
Proof. by_table. Qed.
Lemma ISUPPER_ok c : byte c → EVUTIL_ISUPPER_ c = (65 <=? c) && (c <=? 90).
Proof. by_table. Qed.
Lemma ISALPHA_ok c : byte c → EVUTIL_ISALPHA_ c = EVUTIL_ISLOWER_ c || EVUTIL_ISUPPER_ c.
Proof. by_table. Qed.
Lemma ISALNUM_ok c : byte c → EVUTIL_ISALNUM_ c = EVUTIL_ISALPHA_ c || EVUTIL_ISDIGIT_ c.
Proof. by_table. Qed.
Lemma ISSPACE_ok c : byte c → EVUTIL_ISSPACE_ c = isspace c.
Proof. by_table. Qed.
Lemma ISPRINT_ok c : byte c → EVUTIL_ISPRINT_ c = (32 <=? c) && (c <=? 126).
Proof. by_table. Qed.
Lemma TOLOWER_ok c :
  byte c → EVUTIL_TOLOWER_ c = if (65 <=? c) && (c <=? 90) then c + 32 else c.
Proof. by_table. Qed.
Lemma TOUPPER_ok c :
  byte c → EVUTIL_TOUPPER_ c = if (97 <=? c) && (c <=? 122) then c - 32 else c.
Proof. by_table. Qed.
Lemma hex_char_ok c :
  byte c → evutil_hex_char_to_int_ c = if EVUTIL_ISXDIGIT_ c then digit_val c else -1.
Proof. by_table. Qed.

(** * Comparing and trimming *)

Lemma strchr_None s c : c ∉ s → strchr s c = None.
Proof.
  induction s as [|x s IH]; intros H; [done|]. apply not_elem_of_cons in H as [Hx H]. simpl.
  destruct (Z.eqb_spec x c); [by subst|]. by rewrite IH.
Qed.
Lemma strchr_app s k c : c ∉ s → strchr (s ++ c :: k) c = Some (length s).
Proof.
  induction s as [|x s IH]; intros H; simpl; [by rewrite Z.eqb_refl|].
  apply not_elem_of_cons in H as [Hx H]. destruct (Z.eqb_spec x c); [by subst|].
  by rewrite IH.
Qed.

Lemma swrap8_inj a b : byte a → byte b → swrap 8 a = swrap 8 b → a = b.
Proof. unfold byte, swrap. lia. Qed.

Lemma TOLOWER_byte c : byte c → byte (EVUTIL_TOLOWER_ c).
Proof.
  intros Hc. rewrite TOLOWER_ok by done. unfold byte in *.
  destruct (Z.leb_spec 65 c), (Z.leb_spec c 90); simpl; lia.
Qed.

Lemma strcasecmp_refl s : evutil_ascii_strcasecmp s s = 0.
Proof. induction s as [|c s IH]; simpl; [done|]. by rewrite Z.ltb_irrefl. Qed.

(** Equal without regard to case. *)
Lemma strcasecmp_eq s t :
  Forall byte s → Forall byte t →
  evutil_ascii_strcasecmp s t = 0 ↔ EVUTIL_TOLOWER_ <$> s = EVUTIL_TOLOWER_ <$> t.
Proof.
  intros Hs. revert t. induction Hs as [|c s Hc Hs IH]; intros t Ht.
  - destruct t as [|d t]; simpl; [done|]. case_match; split; by try discriminate.
  - destruct Ht as [|d t Hd Ht]; [simpl; case_match; split; by try discriminate|].
    cbn [evutil_ascii_strcasecmp]. rewrite !fmap_cons.
    pose proof (TOLOWER_byte c Hc) as B1. pose proof (TOLOWER_byte d Hd) as B2.
    destruct (Z.ltb_spec (swrap 8 (EVUTIL_TOLOWER_ c)) (swrap 8 (EVUTIL_TOLOWER_ d))) as [Hlt|].
    { split; [done|]. intros [= E _]. rewrite E in Hlt. lia. }
    destruct (Z.ltb_spec (swrap 8 (EVUTIL_TOLOWER_ d)) (swrap 8 (EVUTIL_TOLOWER_ c))) as [Hlt|].
    { split; [done|]. intros [= E _]. rewrite E in Hlt. lia. }
    assert (EVUTIL_TOLOWER_ c = EVUTIL_TOLOWER_ d) as -> by (apply swrap8_inj; [done|done|lia]).
    rewrite IH by done. split; [by intros ->|by intros [= ->]].
Qed.

Definition is_blank (c : Z) : bool := (c =? 32) || (c =? 9).

(** Only blanks are cut off, and none is left at the end. *)
Lemma rtrim_ok s :
  ∃ tail, s = evutil_rtrim_lws_ s ++ tail ∧ Forall (λ c, is_blank c = true) tail ∧
    (∀ c, last (evutil_rtrim_lws_ s) = Some c → is_blank c = false).
Proof.
  unfold evutil_rtrim_lws_.
  assert (∀ r, ∃ front, r = front ++ rtrim_loop r ∧ Forall (λ c, is_blank c = true) front ∧
    (∀ c, head (rtrim_loop r) = Some c → is_blank c = false)) as H.
  { induction r as [|c r (front & E & Hf & Hh)]; simpl; [by exists []|].
    destruct ((c =? 32) || (c =? 9)) eqn:Hc.
    - exists (c :: front). split; [by rewrite <- app_comm_cons, <- E|]. split; [by constructor|done].
    - exists []. split; [done|]. split; [done|]. by intros ? [= <-]. }
  destruct (H (reverse s)) as (front & E & Hf & Hh). exists (reverse front).
  split; [|split; [by apply Forall_reverse|]].
  - rewrite <- reverse_app, <- E. by rewrite reverse_involutive.
  - intros c. rewrite <- head_reverse, reverse_involutive. apply Hh.
Qed.
Lemma rtrim_id s : (∀ c, last s = Some c → is_blank c = false) → evutil_rtrim_lws_ s = s.
Proof.
  intros H. unfold evutil_rtrim_lws_. destruct (reverse s) as [|c r] eqn:E.
  { apply (f_equal reverse) in E. rewrite reverse_involutive in E. by rewrite E. }
  assert (last s = Some c) as Hl by (by rewrite <- head_reverse, E).
  simpl. specialize (H c Hl). unfold is_blank in H. rewrite H, <- E. apply reverse_involutive.
Qed.

(** * Printing and reading numbers *)

Lemma digit_char_ok base d : 0 <= d < base → base <= 16 → digit_val (digit_char d) = d ∧ byte (digit_char d).
Proof.
  intros Hd Hb. unfold digit_char, digit_val, byte.
  destruct (Z.ltb_spec d 10).
  - destruct (Z.leb_spec 48 (48 + d)), (Z.leb_spec (48 + d) 57); simpl; lia.
  - destruct (Z.leb_spec 48 (87 + d)), (Z.leb_spec (87 + d) 57); simpl; try lia.
    destruct (Z.leb_spec 65 (87 + d)), (Z.leb_spec (87 + d) 90); simpl; try lia.
    destruct (Z.leb_spec 97 (87 + d)), (Z.leb_spec (87 + d) 122); simpl; lia.
Qed.

Lemma is_digit_char base d : 0 <= d < base → base <= 16 → is_digit base (digit_char d) = true.
Proof. intros Hd Hb. unfold is_digit. destruct (digit_char_ok base d Hd Hb) as [-> _]. apply Z.ltb_lt. lia. Qed.

Definition number (base acc : Z) (ds : list Z) : Z := foldl (λ a c, a * base + digit_val c) acc ds.

Lemma number_app base acc ds es : number base acc (ds ++ es) = number base (number base acc ds) es.
Proof. apply foldl_app. Qed.

(** No digit follows. *)
Definition stops (base : Z) (s : list Z) : Prop :=
  match s with [] => True | c :: _ => is_digit base c = false end.

Lemma read_digits_app base acc ds rest :
  Forall (λ c, is_digit base c = true) ds → stops base rest →
  read_digits base acc (ds ++ rest) = (number base acc ds, rest).
Proof.
  intros Hd Hr. revert acc. induction Hd as [|c ds Hc Hd IH]; intros acc; simpl.
  - destruct rest as [|c rest]; [done|]. simpl in *. by rewrite Hr.
  - rewrite Hc. apply IH.
Qed.

Lemma to_base_ok base fuel : 2 <= base <= 16 → ∀ n, 0 <= n < base ^ Z.of_nat fuel →
  Forall (λ c, is_digit base c = true) (to_base fuel base n) ∧
  (∀ acc, ∃ k, 0 <= k ∧ number base acc (to_base fuel base n) = acc * base ^ k + n) ∧
  ((0 < fuel)%nat → to_base fuel base n ≠ []).
Proof.
  intros Hb. induction fuel as [|fuel IH]; intros n Hn.
  - simpl in Hn. assert (n = 0) as -> by lia. simpl. split; [done|]. split; [|lia].
    intros acc. exists 0. change (number base acc []) with acc. lia.
  - simpl to_base. destruct (Z.ltb_spec n base).
    + split; [constructor; [by apply is_digit_char; lia|done]|]. split; [|done].
      intros acc. exists 1. simpl number. destruct (digit_char_ok base n) as [-> _]; lia.
    + rewrite Nat2Z.inj_succ, Z.pow_succ_r in Hn by lia.
      assert (0 <= n / base < base ^ Z.of_nat fuel) as Hq.
      { split; [apply Z.div_pos; lia|]. apply Z.div_lt_upper_bound; lia. }
      destruct (IH _ Hq) as (Hd & Hv & _).
      assert (0 <= n mod base < base) as Hr by (apply Z.mod_pos_bound; lia).
      split; [apply Forall_app; split; [done|]; constructor; [by apply is_digit_char; lia|done]|].
      split; [|intros _ E; by apply app_eq_nil in E as [_ ?]].
      intros acc. destruct (Hv acc) as (k & Hk & E). exists (k + 1). split; [lia|].
      rewrite number_app, E. simpl number. destruct (digit_char_ok base (n mod base)) as [-> _]; [lia|lia|].
      rewrite Z.pow_add_r, Z.pow_1_r by lia.
      pose proof (Z_div_mod_eq_full n base). lia.
Qed.

(** The number of digits. *)
Lemma to_base_len base fuel : 2 <= base <= 16 → ∀ n k, (0 < k)%nat → 0 <= n < base ^ Z.of_nat k →
  zlen (to_base fuel base n) <= Z.of_nat k.
Proof.
  intros Hb. induction fuel as [|fuel IH]; intros n k Hk Hn; [change (zlen (to_base 0 base n)) with 0; lia|].
  simpl to_base. destruct (Z.ltb_spec n base); [change (zlen [digit_char n]) with 1; lia|].
  destruct k as [|[|k]]; [lia|simpl in Hn; lia|].
  rewrite Nat2Z.inj_succ, Z.pow_succ_r in Hn by lia.
  rewrite zlen_app. change (zlen [digit_char (n mod base)]) with 1.
  assert (zlen (to_base fuel base (n / base)) <= Z.of_nat (S k)); [|lia].
  apply IH; [lia|]. split; [apply Z.div_pos; lia|]. apply Z.div_lt_upper_bound; lia.
Qed.

(** What is printed is read back. *)
Lemma read_printed base n rest :
  2 <= base <= 16 → 0 <= n < 2 ^ 64 → stops base rest →
  read_digits base 0 (to_base 64 base n ++ rest) = (n, rest).
Proof.
  intros Hb Hn Hr. assert (0 <= n < base ^ Z.of_nat 64) as Hn'.
  { split; [lia|]. eapply Z.lt_le_trans; [apply Hn|]. apply Z.pow_le_mono_l. lia. }
  destruct (to_base_ok base 64 Hb n Hn') as (Hd & Hv & _).
  rewrite read_digits_app by done. destruct (Hv 0) as (k & _ & ->). f_equal.
Qed.
Lemma printed_digits base n :
  2 <= base <= 16 → 0 <= n < 2 ^ 64 →
  Forall (λ c, is_digit base c = true) (to_base 64 base n) ∧ to_base 64 base n ≠ [].
Proof.
  intros Hb Hn. assert (0 <= n < base ^ Z.of_nat 64) as Hn'.
  { split; [lia|]. eapply Z.lt_le_trans; [apply Hn|]. apply Z.pow_le_mono_l. lia. }
  destruct (to_base_ok base 64 Hb n Hn') as (Hd & _ & Hne). split; [done|]. apply Hne. lia.
Qed.
