(* ===== verification/InetDefs.v ===== *)
(** * Internet addresses and their text form

    The part of [evutil.c] that prints and parses addresses: [evutil_inet_ntop],
    [evutil_inet_pton], addresses with a port, and comparisons.  An address is the
    list of its bytes in network order (4 for [AF_INET], 16 for [AF_INET6]).

    [evutil_inet_pton] fills an array [words] that is not initialised; its
    content on entry is the argument [words0], and the theorems hold for any. *)
From S2P Require Import Prelude Outcome Lines Evutil.

Definition AF_INET : Z := 2.
Definition AF_INET6 : Z := 10.

(** * Printing *)

Definition sprint_quad (a b c d : Z) : list Z :=
  sprint_d a ++ [46] ++ sprint_d b ++ [46] ++ sprint_d c ++ [46] ++ sprint_d d.

(** The eight 16-bit words of an IPv6 address. *)
Fixpoint words_of (bytes : list Z) : list Z :=
  match bytes with
  | hi :: lo :: bytes => u16 (Z.shiftl hi 8 + lo) :: words_of bytes
  | _ => []
  end.

Definition word (words : list Z) (i : Z) : Z := default 0 (zget words i).

(** Zeros at the start of a list: the loop that measures one gap. *)
Fixpoint zeros (words : list Z) : Z :=
  match words with
  | w :: words => if w =? 0 then 1 + zeros words else 0
  | [] => 0
  end.

(** The longest run of zero words: position and length. *)
Fixpoint find_gap (fuel : nat) (words : list Z) (i longestGapPos longestGapLen : Z) : Z * Z :=
  match fuel with
  | O => (longestGapPos, longestGapLen)
  | S fuel =>
      if i <? 8 then
        if word words i =? 0 then
          let curGapLen := zeros (zdrop i words) in
          let '(pos, len) := if longestGapLen <? curGapLen then (i, curGapLen)
                             else (longestGapPos, longestGapLen) in
          find_gap fuel words (i + curGapLen) pos len
        else find_gap fuel words (i + 1) longestGapPos longestGapLen
      else (longestGapPos, longestGapLen)
  end.

(** The text of the words from number [i] on, with the gap as [::]. *)
Fixpoint print_words (fuel : nat) (words : list Z) (gapPos i : Z) : list Z :=
  match fuel with
  | O => []
  | S fuel =>
      if i <? 8 then
        if (word words i =? 0) && (gapPos =? i) then
          (if i =? 0 then [58] else []) ++ [58] ++
          print_words fuel words gapPos (i + zeros (zdrop i words))
        else
          sprint_x (word words i) ++ (if negb (i =? 7) then [58] else []) ++
          print_words fuel words gapPos (i + 1)
      else []
  end.

(** The buffer [buf] before it is copied to the caller; both loops make at most
    eight rounds. *)
Definition ntop6_text (src : list Z) : list Z :=
  let words := words_of src in
  let w := word words in
  let s6 i := default 0 (zget src i) in
  let quad := sprint_quad (s6 12) (s6 13) (s6 14) (s6 15) in
  if (w 0 =? 0) && (w 1 =? 0) && (w 2 =? 0) && (w 3 =? 0) && (w 4 =? 0) &&
     ((w 5 =? 0) && negb (w 6 =? 0) && negb (w 7 =? 0) || (w 5 =? 0xffff)) then
    if w 5 =? 0 then [58; 58] ++ quad
    else [58; 58] ++ sprint_x (w 5) ++ [58] ++ quad
  else
    let '(longestGapPos, longestGapLen) := find_gap 8 words 0 (-1) 0 in
    let longestGapPos := if longestGapLen <=? 1 then -1 else longestGapPos in
    print_words 8 words longestGapPos 0.

(** The string left in [dst], [None] for [NULL]. *)
Definition evutil_inet_ntop (af : Z) (src : list Z) (len : Z) : option (list Z) :=
  if af =? AF_INET then
    let b i := default 0 (zget src i) in
    let text := sprint_quad (b 0) (b 1) (b 2) (b 3) in
    if len <=? zlen text then None else Some text
  else if af =? AF_INET6 then
    let buf := ntop6_text src in
    if len <? zlen buf then None else Some (ztake (len - 1) buf)
  else None.

(** * Parsing *)

(** [sscanf(s, "%u.%u.%u.%u%c", ...) == 4] *)
Definition scan_dot (s : list Z) : option (list Z) :=
  match s with c :: s => if c =? 46 then Some s else None | [] => None end.
Definition sscanf_quad (s : list Z) : option (Z * Z * Z * Z) :=
  '(a, s) ← scan_u s; s ← scan_dot s;
  '(b, s) ← scan_u s; s ← scan_dot s;
  '(c, s) ← scan_u s; s ← scan_dot s;
  '(d, s) ← scan_u s;
  match s with [] => Some (a, b, c, d) | _ :: _ => None end.

(** The parser of IPv6 addresses: what is left of the text, of which [n] bytes
    come before [eow]; the words and how many are set; the place of the gap. *)
Record pton := Pton {
  src : list Z; n_left : Z; words : list Z; word_i : Z; gapPos : Z; setWords : Z
}.

Definition pton_word (s : pton) : parser pton unit :=
  let '(r, next) := strtol (src s) 16 in
  let used := zlen (src s) - zlen next in
  _ ← err_if (4 <? used);
  _ ← err_if (used =? 0);
  _ ← err_if ((r <? 0) || (65536 <? r));
  ws ← access (zset (words s) (word_i s) (u16 r));
  let n := n_left s - used in
  _ ← err_if (negb (hd 0 next =? 58) && negb (n =? 0));
  pset (Pton (tl next) (n - 1) ws (word_i s + 1) (gapPos s) (setWords s + 1)).

Fixpoint pton_loop (fuel : nat) : parser pton unit :=
  match fuel with
  | O => fault
  | S fuel =>
      s ← pget;
      if 0 <? n_left s then
        _ ← err_if (7 <? word_i s);
        c ← access (head (src s));
        _ ← (if EVUTIL_ISXDIGIT_ c then pton_word s
             else if (c =? 58) && (0 <? word_i s) && (gapPos s =? -1) then
               pset (Pton (tl (src s)) (n_left s - 1) (words s) (word_i s) (word_i s) (setWords s))
             else if (c =? 58) && (word_i s =? 0) && (hd 0 (tl (src s)) =? 58) && (gapPos s =? -1) then
               pset (Pton (drop 2 (src s)) (n_left s - 2) (words s) (word_i s) (word_i s) (setWords s))
             else err);
        pton_loop fuel
      else mret tt
  end.

(** How many digits end at the dot. *)
Fixpoint count_digits (rev_s : list Z) : nat :=
  match rev_s with
  | c :: s => if EVUTIL_ISDIGIT_ c then S (count_digits s) else O
  | [] => O
  end.

(** The dotted quad at the end, if there is one: sets words 6 and 7. *)
Definition pton_quad (src : list Z) (words0 : list Z) : parser pton bool :=
  match strchr src 46 with
  | None => _ ← pset (Pton src (zlen src) words0 0 (-1) 0); mret false
  | Some O => err
  | Some dot =>
      let eow := (dot - count_digits (reverse (take dot src)))%nat in
      match sscanf_quad (drop eow src) with
      | None => err
      | Some (byte1, byte2, byte3, byte4) =>
          _ ← err_if ((255 <? byte1) || (255 <? byte2) || (255 <? byte3) || (255 <? byte4));
          ws ← access (zset words0 6 (Z.lor (Z.shiftl byte1 8) byte2));
          ws ← access (zset ws 7 (Z.lor (Z.shiftl byte3 8) byte4));
          _ ← pset (Pton src (Z.of_nat eow) ws 0 (-1) 2);
          mret true
      end
  end.

(** Opening the gap: the words behind it move to the end. *)
Definition pton_gap (dot : bool) : parser pton Z :=
  s ← pget;
  if 0 <=? gapPos s then
    let nToMove := setWords s - (if dot then 2 else 0) - gapPos s in
    let gapLen := 8 - setWords s in
    if nToMove <? 0 then mret (-1)
    else
      moved ← access (mem_read (words s) (gapPos s) nToMove);
      ws ← access (memcpy_at (words s) (gapPos s + gapLen) moved);
      ws ← access (memcpy_at ws (gapPos s) (zrepeat 0 gapLen));
      _ ← pset (Pton (src s) (n_left s) ws (word_i s) (gapPos s) (setWords s));
      mret 1
  else mret 1.

Definition bytes_of_words (words : list Z) : list Z :=
  words ≫= λ w, [Z.shiftr w 8; Z.land w 0xff].

Definition pton6 (text words0 : list Z) : parser pton (Z * list Z) :=
  dot ← pton_quad text words0;
  _ ← pton_loop (S (length text));
  s ← pget;
  _ ← err_if ((8 <? setWords s) || (setWords s =? 8) && negb (gapPos s =? -1) ||
              (setWords s <? 8) && (gapPos s =? -1));
  rc ← pton_gap dot;
  s ← pget;
  mret (rc, if rc =? 1 then bytes_of_words (words s) else []).

(** The result code and, when it is 1, the bytes of the address.  [None]: memory
    outside an object was accessed. *)
Definition evutil_inet_pton (words0 : list Z) (af : Z) (text : list Z) : option (Z * list Z) :=
  if af =? AF_INET then
    match sscanf_quad text with
    | None => Some (0, [])
    | Some (a, b, c, d) =>
        if (255 <? a) || (255 <? b) || (255 <? c) || (255 <? d) then Some (0, [])
        else Some (1, [a; b; c; d])
    end
  else if af =? AF_INET6 then
    match pton6 text words0 (Pton [] 0 [] 0 0 0) with
    | Ret r _ => Some r
    | Error _ => Some (0, [])
    | Fault => None
    end
  else Some (-1, []).

(** * Addresses with a port *)

(** [struct sockaddr_in], [struct sockaddr_in6], another family. *)
Inductive sockaddr :=
| Sin (sin_port : Z) (sin_addr : list Z)
| Sin6 (sin6_port : Z) (sin6_addr : list Z) (sin6_scope_id : Z)
| SaOther (sa_family : Z).

Definition SIZEOF_SIN : Z := 16.
Definition SIZEOF_SIN6 : Z := 28.

(** [if_nametoindex] is the system's: 0 for a name that is no interface. *)
Section sockaddr_text.
Context (if_nametoindex : list Z → Z) (words0 : list Z).

(** Result of [evutil_inet_pton] and the interface index. *)
Definition evutil_inet_pton_scope (af : Z) (text : list Z) : option (Z * list Z * Z) :=
  if negb (af =? AF_INET6) then
    '(r, a) ← evutil_inet_pton words0 af text; Some (r, a, 0)
  else
    match strchr text 37 with
    | None => '(r, a) ← evutil_inet_pton words0 af text; Some (r, a, 0)
    | Some cp =>
        let zone := drop (S cp) text in
        let if_index := if_nametoindex zone in
        let '(num, check) := strtoul zone 10 in
        if (if_index =? 0) && negb (bool_decide (check = [])) then Some (0, [], 0)
        else
          let if_index := if if_index =? 0 then u32 num else if_index in
          '(r, a) ← evutil_inet_pton words0 af (take cp text); Some (r, a, if_index)
    end.

(** How the text is split: address, port text, whether it is IPv6. *)
Definition split_port (s : list Z) : option (list Z * option (list Z) * bool) :=
  let cp := strchr s 58 in
  if hd 0 s =? 91 then
    match strchr s 93 with
    | None => None
    | Some cp =>
        let len := Z.of_nat cp - 1 in
        if 127 <? len then None
        else
          let rest := drop (S cp) s in
          Some (take (cp - 1) (tl s), if hd 0 rest =? 58 then Some (tl rest) else None, true)
    end
  else
    match cp with
    | Some cp =>
        match strchr (drop (S cp) s) 58 with
        | Some _ => Some (s, None, true)
        | None =>
            if 127 <? Z.of_nat cp then None
            else Some (take cp s, Some (drop (S cp) s), false)
        end
    | None => Some (s, None, false)
    end.

(** The result code, and the address written when it is 0. *)
Definition evutil_parse_sockaddr_port (s : list Z) (outlen : Z) : option (Z * option sockaddr) :=
  match split_port s with
  | None => Some (-1, None)
  | Some (addr_part, port_part, is_ipv6) =>
      let port := match port_part with Some p => atoi p | None => 0 end in
      if match port_part with Some _ => (port <=? 0) || (65535 <? port) | None => false end
      then Some (-1, None)
      else if is_ipv6 then
        '(r, a, if_index) ← evutil_inet_pton_scope AF_INET6 addr_part;
        if negb (r =? 1) then Some (-1, None)
        else if outlen <? SIZEOF_SIN6 then Some (-1, None)
        else Some (0, Some (Sin6 port a if_index))
      else
        '(r, a) ← evutil_inet_pton words0 AF_INET addr_part;
        if negb (r =? 1) then Some (-1, None)
        else if outlen <? SIZEOF_SIN then Some (-1, None)
        else Some (0, Some (Sin port a))
  end.
End sockaddr_text.

(** [evutil_snprintf] into [outlen > 0] bytes. *)
Definition evutil_snprintf (outlen : Z) (text : list Z) : list Z := ztake (outlen - 1) text.

Definition text_socktype : list Z :=
  [60; 97; 100; 100; 114; 32; 119; 105; 116; 104; 32; 115; 111; 99; 107; 116; 121; 112; 101; 32].

Definition evutil_format_sockaddr_port_ (sa : sockaddr) (outlen : Z) : list Z :=
  match sa with
  | Sin port addr =>
      match evutil_inet_ntop AF_INET addr 128 with
      | Some b => evutil_snprintf outlen (b ++ [58] ++ sprint_d port)
      | None => evutil_snprintf outlen (text_socktype ++ sprint_d AF_INET ++ [62])
      end
  | Sin6 port addr _ =>
      match evutil_inet_ntop AF_INET6 addr 128 with
      | Some b => evutil_snprintf outlen ([91] ++ b ++ [93; 58] ++ sprint_d port)
      | None => evutil_snprintf outlen (text_socktype ++ sprint_d AF_INET6 ++ [62])
      end
  | SaOther af => evutil_snprintf outlen (text_socktype ++ sprint_d af ++ [62])
  end.

(** * Comparing and classifying addresses *)

(** [s_addr] and [sin_port] as integers of a little-endian machine. *)
Definition of_le (l : list Z) : Z := of_be (reverse l).
Definition raw_port (port : Z) : Z := of_le (htons port).

Definition sa_family (sa : sockaddr) : Z :=
  match sa with Sin _ _ => AF_INET | Sin6 _ _ _ => AF_INET6 | SaOther f => f end.

Definition evutil_sockaddr_cmp (sa1 sa2 : sockaddr) (include_port : bool) : Z :=
  let r := sa_family sa1 - sa_family sa2 in
  if negb (r =? 0) then r
  else
    let ports p1 p2 := if include_port then raw_port p1 - raw_port p2 else 0 in
    match sa1, sa2 with
    | Sin p1 a1, Sin p2 a2 =>
        if of_le a1 <? of_le a2 then -1 else if of_le a2 <? of_le a1 then 1 else ports p1 p2
    | Sin6 p1 a1 _, Sin6 p2 a2 _ =>
        let r := memcmp a1 a2 in if negb (r =? 0) then r else ports p1 p2
    | _, _ => 1
    end.

Definition evutil_v4addr_is_localhost (addr : Z) : bool := Z.shiftr addr 24 =? 127.
Definition evutil_v4addr_is_linklocal (addr : Z) : bool := Z.land addr 0xffff0000 =? 0xa9fe0000.
Definition evutil_v4addr_is_classd (addr : Z) : bool := Z.land (Z.shiftr addr 24) 0xf0 =? 0xe0.
Definition evutil_v4addr_is_local_ (a : list Z) : bool :=
  let addr := of_be a in
  (addr =? 0) || evutil_v4addr_is_localhost addr || evutil_v4addr_is_linklocal addr ||
  evutil_v4addr_is_classd addr.
Definition evutil_v6addr_is_local_ (a : list Z) : bool :=
  let addr i := default 0 (zget a i) in
  (memcmp (ztake 8 a) (zrepeat 0 8) =? 0) ||
  (Z.land (addr 0) 0xfe =? 0xfc) ||
  (addr 0 =? 0xfe) && (Z.land (addr 1) 0xc0 =? 0x80) ||
  (addr 0 =? 0xfe) && (Z.land (addr 1) 0xc0 =? 0xc0) ||
  (addr 0 =? 0xff).
Definition evutil_sockaddr_is_loopback_ (sa : sockaddr) : bool :=
  match sa with
  | Sin _ a => Z.land (of_be a) 0xff000000 =? 0x7f000000
  | Sin6 _ a _ => memcmp a (zrepeat 0 15 ++ [1]) =? 0
  | SaOther _ => false
  end.
