(* ===== verification/Inet.v ===== *)
(** * Internet addresses: printing and parsing agree

    Every address is read back from its text ([quad_roundtrip],
    [pton_text6]); whatever the text, the parser of IPv6 addresses stays inside
    its array of words and its result does not depend on what the array held
    before ([pton6_safe], [pton6_determined]). *)
From S2P Require Import Prelude Outcome Lines Evutil InetDefs.

(** * Numbers inside a text *)

Lemma digit_not_blank base c : base <= 16 → is_digit base c = true → isspace c = false ∧ c <> 45 ∧ c <> 43.
Proof.
  unfold is_digit, digit_val, isspace. intros Hb H%Z.ltb_lt. split.
  - apply orb_false_intro; [apply Z.eqb_neq|apply andb_false_iff; rewrite !Z.leb_gt];
      revert H; repeat case_match; try lia.
  - revert H; repeat case_match; rewrite ?andb_true_iff, ?Z.leb_le in *; lia.
Qed.

Lemma skip_space_digit base c s : base <= 16 → is_digit base c = true → skip_space (c :: s) = c :: s.
Proof. intros Hb H. simpl. by rewrite (proj1 (digit_not_blank base c Hb H)). Qed.
Lemma sign_digit base c s : base <= 16 → is_digit base c = true → sign (c :: s) = (false, c :: s).
Proof.
  intros Hb H. destruct (digit_not_blank base c Hb H) as (_&?&?). simpl.
  destruct (Z.eqb_spec c 45), (Z.eqb_spec c 43); done.
Qed.

Lemma scan_u_printed n rest :
  0 <= n < 2 ^ 32 → stops 10 rest → scan_u (sprint_d n ++ rest) = Some (n, rest).
Proof.
  intros Hn Hr. unfold scan_u, sprint_d, sprint_u.
  destruct (Z.ltb_spec n 0); [lia|].
  destruct (printed_digits 10 n) as [Hd Hne]; [lia|lia|].
  pose proof (read_printed 10 n rest) as HR. destruct (to_base 64 10 n) as [|c ds]; [done|].
  apply Forall_cons in Hd as [Hc _]. rewrite <- app_comm_cons in *.
  rewrite (skip_space_digit 10), (sign_digit 10), Hc by done || lia.
  rewrite HR by done || lia. rewrite Z.min_l, u32_small by lia. done.
Qed.

Lemma sscanf_quad_printed a b c d :
  byte a → byte b → byte c → byte d → sscanf_quad (sprint_quad a b c d) = Some (a, b, c, d).
Proof.
  unfold byte. intros. unfold sscanf_quad, sprint_quad.
  rewrite scan_u_printed by (done || lia). simpl.
  rewrite scan_u_printed by (done || lia). simpl.
  rewrite scan_u_printed by (done || lia). simpl.
  rewrite <- (app_nil_r (sprint_d d)), scan_u_printed by (done || lia). done.
Qed.

Lemma quad_roundtrip w0 a b c d :
  byte a → byte b → byte c → byte d →
  evutil_inet_pton w0 AF_INET (sprint_quad a b c d) = Some (1, [a; b; c; d]).
Proof.
  intros Ha Hb Hc Hd. unfold evutil_inet_pton. simpl. rewrite sscanf_quad_printed by done.
  unfold byte in *. repeat (case_match; rewrite ?orb_true_iff, ?Z.ltb_lt in *; try lia).
  done.
Qed.

(** * Words in a text *)

Lemma hex_digits w :
  0 <= w < 2 ^ 16 →
  Forall (λ c, is_digit 16 c = true) (sprint_x w) ∧ sprint_x w ≠ [] ∧ zlen (sprint_x w) <= 4.
Proof.
  intros Hw. destruct (printed_digits 16 w) as [Hd Hne]; [lia|lia|]. split; [done|]. split; [done|].
  apply (to_base_len 16 64 ltac:(lia) w 4); [lia|]. lia.
Qed.

Lemma skip_prefix_digits ds rest :
  Forall (λ c, is_digit 16 c = true) ds → ds ≠ [] → hd 58 rest = 58 →
  skip_prefix 16 (ds ++ rest) = ds ++ rest.
Proof.
  intros Hd Hne Hr. destruct ds as [|z [|x ds]]; [done| |].
  - destruct rest as [|r [|h rest]]; try done. simpl in Hr. subst r. simpl.
    by rewrite andb_false_r.
  - destruct (ds ++ rest) as [|h t] eqn:E; simpl; rewrite E; [done|].
    apply Forall_cons in Hd as [_ [Hx _]%Forall_cons].
    destruct (Z.eqb_spec x 120) as [->|]; [done|]. destruct (Z.eqb_spec x 88) as [->|]; [done|].
    by rewrite !andb_false_r.
Qed.

Lemma strtol_hex w rest :
  0 <= w < 2 ^ 16 → hd 58 rest = 58 → strtol (sprint_x w ++ rest) 16 = (w, rest).
Proof.
  intros Hw Hr. destruct (hex_digits w Hw) as (Hd & Hne & _).
  assert (stops 16 rest) as Hs by (destruct rest; [done|]; simpl in *; by subst).
  pose proof (read_printed 16 w rest ltac:(lia) ltac:(lia) Hs) as HR. fold (sprint_x w) in HR.
  pose proof (skip_prefix_digits (sprint_x w) rest Hd Hne Hr) as HP.
  unfold strtol. destruct (sprint_x w) as [|c ds]; [done|]. pose proof (Forall_inv Hd) as Hc.
  rewrite <- app_comm_cons in *.
  rewrite (skip_space_digit 16), (sign_digit 16), HP, Hc, HR by done || lia.
  f_equal. lia.
Qed.

(** One word of the text, up to the colon or the end. *)
Lemma pton_word_ok w rest n A x B i gap k s :
  0 <= w < 2 ^ 16 → hd 58 rest = 58 → (rest = [] → n = zlen (sprint_x w)) → zlen A = i →
  pton_word (Pton (sprint_x w ++ rest) n (A ++ x :: B) i gap k) s =
  Ret tt (Pton (tl rest) (n - zlen (sprint_x w) - 1) (A ++ w :: B) (i + 1) gap (k + 1)).
Proof.
  intros Hw Hr Hn Hi. unfold pton_word. cbn [src n_left words word_i gapPos setWords].
  rewrite strtol_hex by done. destruct (hex_digits w Hw) as (_ & Hne & Hl).
  rewrite zlen_app. replace (zlen (sprint_x w) + zlen rest - zlen rest) with (zlen (sprint_x w)) by lia.
  assert (0 < zlen (sprint_x w)) as Hpos.
  { destruct (sprint_x w); [done|]. rewrite zlen_cons. pose proof (zlen_nonneg l). lia. }
  destruct (Z.ltb_spec 4 (zlen (sprint_x w))); [lia|].
  destruct (Z.eqb_spec (zlen (sprint_x w)) 0); [lia|].
  destruct (Z.ltb_spec w 0); [lia|]. destruct (Z.ltb_spec 65536 w); [lia|]. simpl orb.
  rewrite u16_small by lia. pose proof (zlen_nonneg A). pose proof (zlen_nonneg B).
  rewrite zset_in_range by (rewrite zlen_app, zlen_cons; lia).
  replace (Z.to_nat i) with (length A) by (unfold zlen in Hi; lia).
  rewrite insert_app_r_alt, Nat.sub_diag by done.
  assert (negb (hd 0 rest =? 58) && negb (n - zlen (sprint_x w) =? 0) = false) as Hok.
  { destruct rest as [|r rest]; simpl in *; [|by subst]. rewrite Hn by done.
    by rewrite Z.sub_diag. }
  unfold mbind, parser_bind, err_if, access. cbv beta iota zeta. by rewrite Hok.
Qed.

Lemma pton_loop_word fuel w rest n A x B i gap k :
  0 <= w < 2 ^ 16 → hd 58 rest = 58 → (rest = [] → n = zlen (sprint_x w)) → zlen A = i → i <= 7 →
  0 < n →
  pton_loop (S fuel) (Pton (sprint_x w ++ rest) n (A ++ x :: B) i gap k) =
  pton_loop fuel (Pton (tl rest) (n - zlen (sprint_x w) - 1) (A ++ w :: B) (i + 1) gap (k + 1)).
Proof.
  intros Hw Hr Hn Hi Hi7 Hn0.
  pose proof (pton_word_ok w rest n A x B i gap k) as H.
  destruct (hex_digits w Hw) as (Hd & Hne & _).
  set (s := Pton (sprint_x w ++ rest) n (A ++ x :: B) i gap k) in *.
  specialize (H s Hw Hr Hn Hi).
  assert (∃ c, head (src s) = Some c ∧ EVUTIL_ISXDIGIT_ c = true) as (c & Hh & Hc).
  { subst s. simpl. destruct (sprint_x w) as [|c ds]; [done|]. exists c. split; [done|].
    apply Forall_inv in Hd. rewrite ISXDIGIT_ok; [done|].
    revert Hd. unfold is_digit, digit_val, byte. intros Hd%Z.ltb_lt. revert Hd.
    repeat case_match; rewrite ?andb_true_iff, ?Z.leb_le in *; lia. }
  simpl pton_loop. unfold mbind at 1, parser_bind at 1, pget at 1.
  change (n_left s) with n. change (word_i s) with i.
  destruct (Z.ltb_spec 0 n); [|lia]. destruct (Z.ltb_spec 7 i); [lia|].
  unfold mbind, parser_bind, err_if. rewrite Hh. cbn [access]. rewrite Hc, H. done.
Qed.

(** Words with a colon after each, and with colons between them. *)
Definition hexs (ws : list Z) : list Z := ws ≫= λ w, sprint_x w ++ [58].
Fixpoint joined (ws : list Z) : list Z :=
  match ws with
  | [] => []
  | w :: ws => sprint_x w ++ match ws with [] => [] | _ => 58 :: joined ws end
  end.

Definition word16 (w : Z) : Prop := 0 <= w < 2 ^ 16.

Lemma hexs_cons w ws : hexs (w :: ws) = sprint_x w ++ 58 :: hexs ws.
Proof. unfold hexs. rewrite bind_cons, <- app_assoc. done. Qed.

Lemma loop_hexs ws : ∀ fuel rest m A B i gap k,
  Forall word16 ws → zlen A = i → i + zlen ws <= 8 → zlen ws <= zlen B → 0 <= m →
  pton_loop (length ws + fuel) (Pton (hexs ws ++ rest) (zlen (hexs ws) + m) (A ++ B) i gap k) =
  pton_loop fuel
    (Pton rest m ((A ++ ws) ++ drop (length ws) B) (i + zlen ws) gap (k + zlen ws)).
Proof.
  induction ws as [|w ws IH]; intros fuel rest m A B i gap k Hws Hi H8 HB Hm.
  { rewrite app_nil_r. change (zlen (@nil Z)) with 0. change (zlen (hexs [])) with 0.
    rewrite !Z.add_0_r, Z.add_0_l. done. }
  apply Forall_cons in Hws as [Hw Hws]. rewrite zlen_cons in *. pose proof (zlen_nonneg ws).
  destruct B as [|x B]; [change (zlen (@nil Z)) with 0 in HB; lia|]. rewrite zlen_cons in HB.
  rewrite hexs_cons, <- app_assoc, <- app_comm_cons, zlen_app, zlen_cons.
  pose proof (zlen_nonneg (sprint_x w)). pose proof (zlen_nonneg (hexs ws)).
  change (length (w :: ws) + fuel)%nat with (S (length ws + fuel)).
  rewrite pton_loop_word; [|done|done|done|done|lia|lia]. simpl tl.
  change (A ++ w :: B) with (A ++ [w] ++ B). rewrite (app_assoc A [w] B).
  replace (zlen (sprint_x w) + (1 + zlen (hexs ws)) + m - zlen (sprint_x w) - 1)
    with (zlen (hexs ws) + m) by lia.
  rewrite IH; [|done|rewrite zlen_app; change (zlen [w]) with 1; lia|lia|lia|done].
  rewrite <- (app_assoc A [w] ws). simpl app. simpl drop. do 2 f_equal; lia.
Qed.

Lemma joined_hexs ws w : joined (ws ++ [w]) = hexs ws ++ sprint_x w.
Proof.
  induction ws as [|v ws IH]; [by simpl; rewrite app_nil_r|].
  rewrite hexs_cons. simpl. rewrite IH. destruct ws; by rewrite <- app_assoc.
Qed.

Lemma loop_joined ws fuel A B i gap k :
  Forall word16 ws → zlen A = i → i + zlen ws <= 8 → zlen ws <= zlen B →
  ∃ n, pton_loop (length ws + S fuel) (Pton (joined ws) (zlen (joined ws)) (A ++ B) i gap k) =
    Ret tt (Pton [] n ((A ++ ws) ++ drop (length ws) B) (i + zlen ws) gap (k + zlen ws)).
Proof.
  intros Hws Hi H8 HB. destruct ws as [|w ws _] using rev_ind.
  { exists 0. rewrite app_nil_r. change (zlen (@nil Z)) with 0. by rewrite !Z.add_0_r. }
  apply Forall_app in Hws as [Hws Hw]. apply Forall_inv in Hw.
  rewrite zlen_app in *. change (zlen [w]) with 1 in *. pose proof (zlen_nonneg ws).
  rewrite joined_hexs, zlen_app, length_app. simpl length.
  destruct (hex_digits w Hw) as (_ & Hne & _).
  assert (0 < zlen (sprint_x w)) as Hpos.
  { destruct (sprint_x w); [done|]. rewrite zlen_cons. pose proof (zlen_nonneg l). lia. }
  rewrite <- Nat.add_assoc, loop_hexs by (done || lia).
  destruct (drop (length ws) B) as [|x B'] eqn:EB.
  { apply (f_equal length) in EB. rewrite length_drop in EB. unfold zlen in *. simpl in *. lia. }
  replace (Pton (sprint_x w)) with (Pton (sprint_x w ++ [])) by (by rewrite app_nil_r). change (1 + S fuel)%nat with (S (S fuel)).
  rewrite pton_loop_word; [|done|done|done|rewrite zlen_app; lia|lia|lia].
  eexists. simpl tl.
  assert (drop (length ws + 1) B = B') as -> by (rewrite <- drop_drop, EB; done).
  rewrite <- (app_assoc A), <- app_assoc. simpl app.
  replace (zlen (sprint_x w) - zlen (sprint_x w) - 1) with (-1) by lia.
  simpl pton_loop. unfold mbind, parser_bind, pget, mret, parser_ret. simpl.
  rewrite <- app_assoc. f_equal. f_equal; lia.
Qed.

(** * The printed form *)

Section printing.
Context (W : list Z) (HW : zlen W = 8).

Lemma word_drop i : 0 <= i < 8 → zdrop i W = word W i :: zdrop (i + 1) W.
Proof.
  intros Hi. destruct (zget_in_range W i) as [x Hx]; [lia|]. unfold word. rewrite Hx. simpl.
  rewrite zget_nonneg in Hx by lia. unfold zdrop. rewrite (drop_S _ _ _ Hx).
  replace (Z.to_nat (i + 1)) with (S (Z.to_nat i)) by lia. done.
Qed.

Lemma print_tail fuel : ∀ gap i, 0 <= i <= 8 → gap < i → 8 - i <= Z.of_nat fuel →
  print_words fuel W gap i = joined (zdrop i W).
Proof.
  induction fuel as [|fuel IH]; intros gap i Hi Hg Hf.
  { rewrite zdrop_all by lia. done. }
  simpl print_words. destruct (Z.ltb_spec i 8); [|by rewrite zdrop_all by lia].
  destruct (Z.eqb_spec gap i); [lia|]. rewrite andb_false_r, word_drop by lia.
  rewrite IH by lia. simpl joined. destruct (Z.eqb_spec i 7) as [->|].
  - rewrite zdrop_all by lia. done.
  - rewrite (word_drop (i + 1)) by lia. done.
Qed.

Lemma print_head fuel gap i : 0 <= i → i <= gap < 8 → gap - i <= Z.of_nat fuel →
  print_words fuel W gap i =
  hexs (ztake (gap - i) (zdrop i W)) ++ print_words (fuel - Z.to_nat (gap - i)) W gap gap.
Proof.
  revert i. induction fuel as [|fuel IH]; intros i Hi Hg Hf.
  { replace (gap - i) with 0 by lia. rewrite ztake_0. done. }
  destruct (Z.eq_dec i gap) as [->|Hne]; [by rewrite Z.sub_diag, ztake_0|].
  simpl print_words at 1. destruct (Z.ltb_spec i 8); [|lia].
  destruct (Z.eqb_spec gap i); [lia|]. rewrite andb_false_r. destruct (Z.eqb_spec i 7); [lia|].
  rewrite IH, (word_drop i) by lia. simpl negb. cbn iota.
  replace (ztake (gap - i) (word W i :: zdrop (i + 1) W))
    with (word W i :: ztake (gap - (i + 1)) (zdrop (i + 1) W)).
  2:{ unfold ztake. replace (Z.to_nat (gap - i)) with (S (Z.to_nat (gap - (i + 1)))) by lia. done. }
  rewrite hexs_cons, <- app_assoc. simpl app. do 4 f_equal. lia.
Qed.

(** [gap] is the start of a run of [z] zeros, or there is none. *)
Definition gap_ok (gap z : Z) : Prop := z <= 0 ∨ 0 <= gap < 8 ∧ 0 < z ∧ z = zeros (zdrop gap W).

Lemma zeros_range l : 0 <= zeros l <= zlen l.
Proof. induction l as [|w l IH]; simpl; [done|]. rewrite zlen_cons. destruct (w =? 0); lia. Qed.
Lemma zeros_take l : ztake (zeros l) l = zrepeat 0 (zeros l).
Proof.
  induction l as [|w l IH]; simpl; [done|]. destruct (Z.eqb_spec w 0) as [->|]; [|done].
  pose proof (zeros_range l). unfold ztake, zrepeat in *.
  replace (Z.to_nat (1 + zeros l)) with (S (Z.to_nat (zeros l))) by lia. simpl. by rewrite IH.
Qed.
Lemma zeros_pos i : 0 <= i < 8 → word W i = 0 → 0 < zeros (zdrop i W).
Proof.
  intros Hi Hw. rewrite word_drop by done. simpl. rewrite Hw. simpl.
  pose proof (zeros_range (zdrop (i + 1) W)). lia.
Qed.

Lemma find_gap_ok fuel : ∀ i pos len, 0 <= i → gap_ok pos len →
  gap_ok (find_gap fuel W i pos len).1 (find_gap fuel W i pos len).2.
Proof.
  induction fuel as [|fuel IH]; intros i pos len Hi Hg; [done|]. simpl find_gap.
  destruct (Z.ltb_spec i 8); [|done]. destruct (Z.eqb_spec (word W i) 0) as [E|].
  - pose proof (zeros_pos i ltac:(lia) E).
    destruct (len <? zeros (zdrop i W)); (apply IH; [lia|]); [right; lia|done].
  - apply IH; [lia|done].
Qed.

(** The text of the general form: all words, or the words around a gap. *)
Definition general_text : list Z :=
  let '(pos, len) := find_gap 8 W 0 (-1) 0 in
  print_words 8 W (if len <=? 1 then -1 else pos) 0.

Lemma print_cases :
  general_text = joined W ∨
  ∃ g z, 0 <= g ∧ 0 < z ∧ g + z <= 8 ∧ W = ztake g W ++ zrepeat 0 z ++ zdrop (g + z) W ∧
    general_text =
      hexs (ztake g W) ++ (if g =? 0 then [58] else []) ++ 58 :: joined (zdrop (g + z) W).
Proof.
  unfold general_text.
  pose proof (find_gap_ok 8 0 (-1) 0 ltac:(lia)) as Hg.
  destruct (find_gap 8 W 0 (-1) 0) as [g z]. simpl in Hg.
  destruct (Z.leb_spec z 1); [left; rewrite print_tail by lia; by rewrite zdrop_0|].
  right. destruct Hg as [?|(Hg & Hz & Ez)]; [by left|lia|]. exists g, z.
  pose proof (zeros_range (zdrop g W)) as Hr. rewrite zlen_zdrop in Hr by lia.
  split; [lia|]. split; [lia|]. split; [lia|]. split.
  - transitivity (ztake g W ++ ztake z (zdrop g W) ++ zdrop z (zdrop g W)); [by rewrite !ztake_zdrop|].
    rewrite zdrop_zdrop by lia. do 2 f_equal. rewrite Ez. apply zeros_take.
  - rewrite print_head by lia. rewrite Z.sub_0_r, zdrop_0. f_equal.
    assert (word W g = 0) as E.
    { rewrite (word_drop g) in Ez by lia. simpl in Ez. destruct (Z.eqb_spec (word W g) 0); [done|lia]. }
    destruct (8 - Z.to_nat g)%nat as [|f] eqn:Ef; [lia|]. simpl print_words.
    destruct (Z.ltb_spec g 8); [|lia]. rewrite E, !Z.eqb_refl. simpl andb. cbn iota.
    rewrite <- Ez, print_tail by lia. done.
Qed.
End printing.

(** * Reading the printed form *)

(** The state in which a text without a dotted part is read. *)
Lemma no_dot_hexs ws : Forall word16 ws → 46 ∉ hexs ws.
Proof.
  intros Hws. unfold hexs. rewrite list_elem_of_bind. intros (w & H & Hw).
  apply (Forall_forall word16) with (x := w) in Hws; [|done].
  destruct (hex_digits w Hws) as (Hd & _ & _). apply elem_of_app in H as [H|H].
  - apply (proj1 (Forall_forall _ _) Hd) in H. done.
  - by apply list_elem_of_singleton in H.
Qed.
Lemma no_dot_joined ws : Forall word16 ws → 46 ∉ joined ws.
Proof.
  intros Hws. destruct ws as [|w ws _] using rev_ind; [apply not_elem_of_nil|].
  rewrite joined_hexs. apply Forall_app in Hws as [Hws Hw]. apply Forall_inv in Hw.
  apply not_elem_of_app. split; [by apply no_dot_hexs|]. intros H.
  destruct (hex_digits w Hw) as (Hd & _ & _). by apply (proj1 (Forall_forall _ _) Hd) in H.
Qed.

(** The gap itself. *)
Lemma pton_loop_gap fuel rest n A B i k :
  zlen A = i → i <= 7 → 0 <= n →
  pton_loop (S fuel) (Pton ((if i =? 0 then [58] else []) ++ 58 :: rest)
     ((if i =? 0 then 1 else 0) + 1 + n) (A ++ B) i (-1) k) =
  pton_loop fuel (Pton rest n (A ++ B) i i k).
Proof.
  intros Hi Hi7 Hn. pose proof (zlen_nonneg A).
  simpl pton_loop at 1. unfold mbind, parser_bind, pget. cbn [n_left word_i src words gapPos setWords].
  destruct (Z.eqb_spec i 0) as [->|].
  - destruct (Z.ltb_spec 0 (1 + 1 + n)); [|lia]. simpl. unfold pset.
    change (EVUTIL_ISXDIGIT_ 58) with false. cbn iota. do 2 f_equal. lia.
  - destruct (Z.ltb_spec 0 (0 + 1 + n)); [|lia]. unfold err_if. destruct (Z.ltb_spec 7 i); [lia|]. simpl.
    change (EVUTIL_ISXDIGIT_ 58) with false. destruct (Z.ltb_spec 0 i); [|lia]. simpl.
    unfold pset. do 2 f_equal. lia.
Qed.

Lemma memcpy_middle (a b b' c : list Z) :
  zlen b = zlen b' → memcpy_at (a ++ b ++ c) (zlen a) b' = Some (a ++ b' ++ c).
Proof.
  intros H. pose proof (zlen_nonneg a). pose proof (zlen_nonneg c). pose proof (zlen_nonneg b).
  rewrite memcpy_at_ok by (rewrite ?zlen_app; lia).
  rewrite ztake_app_le, (ztake_all (zlen a) a) by lia. do 3 f_equal.
  rewrite zdrop_app_ge by lia. rewrite zdrop_app_ge by lia.
  replace (zlen a + zlen b' - zlen a - zlen b) with 0 by lia. apply zdrop_0.
Qed.

(** Opening the gap: what follows it moves to the end, zeros take its place. *)
Lemma pton_gap_ok (dot : bool) text n (A C D E : list Z) i :
  zlen A + zlen C + zlen D + zlen E = 8 → zlen E = (if dot then 2 else 0) →
  pton_gap dot (Pton text n (A ++ C ++ D ++ E) i (zlen A) (zlen A + zlen C + zlen E)) =
  Ret 1 (Pton text n (A ++ zrepeat 0 (zlen D) ++ C ++ E) i (zlen A) (zlen A + zlen C + zlen E)).
Proof.
  intros H8 HE. pose proof (zlen_nonneg A). pose proof (zlen_nonneg C). pose proof (zlen_nonneg D).
  pose proof (zlen_nonneg E).
  unfold pton_gap. unfold mbind at 1, parser_bind at 1, pget at 1. cbn [gapPos setWords words src n_left word_i].
  destruct (Z.leb_spec 0 (zlen A)); [|lia].
  replace (zlen A + zlen C + zlen E - (if dot then 2 else 0) - zlen A) with (zlen C) by (rewrite HE; lia).
  replace (8 - (zlen A + zlen C + zlen E)) with (zlen D) by lia.
  destruct (Z.ltb_spec (zlen C) 0); [lia|].
  assert (mem_read (A ++ C ++ D ++ E) (zlen A) (zlen C) = Some C) as ->.
  { rewrite mem_read_ok by (rewrite ?zlen_app; lia). f_equal.
    rewrite zdrop_app_ge, Z.sub_diag, zdrop_0 by lia.
    by rewrite ztake_app_le, ztake_all by lia. }
  unfold mbind, parser_bind. cbn [access].
  set (X := ztake (zlen A + zlen D) (A ++ C ++ D)). set (Y := zdrop (zlen A + zlen D) (A ++ C ++ D)).
  assert (HX : zlen X = zlen A + zlen D) by (subst X; rewrite zlen_ztake; rewrite ?zlen_app; lia).
  assert (HY : zlen Y = zlen C) by (subst Y; rewrite zlen_zdrop; rewrite ?zlen_app; lia).
  assert (A ++ C ++ D ++ E = X ++ Y ++ E) as ->.
  { subst X Y. rewrite (app_assoc (ztake _ _)), ztake_zdrop. by rewrite <- !app_assoc. }
  rewrite <- HX, memcpy_middle by done. cbn [access].
  assert (X = A ++ zdrop (zlen A) X) as EX.
  { rewrite <- (ztake_zdrop (zlen A) X) at 1. f_equal. subst X.
    rewrite ztake_ztake, ztake_app_le, ztake_all by lia. done. }
  rewrite EX, <- app_assoc, memcpy_middle.
  - cbn [access]. done.
  - rewrite zlen_zdrop, zlen_zrepeat; lia.
Qed.

Lemma joined_long ws : Forall word16 ws → (length ws <= length (joined ws))%nat.
Proof.
  induction 1 as [|w ws Hw Hws IH]; [done|]. simpl. rewrite length_app.
  destruct (hex_digits w Hw) as (_ & Hne & _).
  assert (0 < length (sprint_x w))%nat by (destruct (sprint_x w); simpl; [done|lia]).
  destruct ws; simpl in *; lia.
Qed.
Lemma hexs_long ws : (length ws <= length (hexs ws))%nat.
Proof.
  induction ws as [|w ws IH]; [done|]. rewrite hexs_cons, length_app. simpl. lia.
Qed.

Section reading_back.
Context (w0 : list Z) (Hw0 : zlen w0 = 8) (s0 : pton).

(** Without a dotted part and a gap. *)
Lemma pton6_joined W :
  zlen W = 8 → Forall word16 W → ∃ s, pton6 (joined W) w0 s0 = Ret (1, bytes_of_words W) s.
Proof.
  intros HW Hw. pose proof (joined_long W Hw) as Hlong.
  unfold pton6, pton_quad. rewrite strchr_None by by apply no_dot_joined.
  unfold mbind at 1 2, parser_bind at 1 2, pset, mret at 1, parser_ret at 1.
  destruct (loop_joined W (length (joined W) - length W) [] w0 0 (-1) 0 Hw) as (n & E);
    [done|lia|lia|]. rewrite !app_nil_l in E.
  replace (length W + S (length (joined W) - length W))%nat with (S (length (joined W))) in E by lia.
  unfold mbind at 1, parser_bind at 1. rewrite E.
  replace (length W) with 8%nat by (unfold zlen in HW; lia).
  rewrite drop_ge, app_nil_r by (unfold zlen in Hw0; lia). rewrite HW. eexists. done.
Qed.

Lemma pton6_gap W g z :
  zlen W = 8 → Forall word16 W → 0 <= g → 0 < z → g + z <= 8 →
  W = ztake g W ++ zrepeat 0 z ++ zdrop (g + z) W →
  ∃ s, pton6 (hexs (ztake g W) ++ (if g =? 0 then [58] else []) ++ 58 :: joined (zdrop (g + z) W)) w0 s0 =
    Ret (1, bytes_of_words W) s.
Proof.
  intros HW Hw Hg Hz Hgz EW. set (A := ztake g W) in *. set (C := zdrop (g + z) W) in *.
  assert (HA : zlen A = g) by (apply zlen_ztake; lia).
  assert (HC : zlen C = 8 - g - z) by (subst C; rewrite zlen_zdrop; lia).
  assert (Forall word16 A) as HwA by by apply Forall_take.
  assert (Forall word16 C) as HwC by by apply Forall_drop.
  set (rest := (if g =? 0 then [58] else []) ++ 58 :: joined C).
  set (text := hexs A ++ rest).
  pose proof (joined_long C HwC) as HlC. pose proof (hexs_long A) as HlA.
  assert (strchr text 46 = None) as Hdot.
  { apply strchr_None. subst text rest. rewrite !not_elem_of_app, not_elem_of_cons.
    split; [by apply no_dot_hexs|]. split; [|split; [done|by apply no_dot_joined]].
    destruct (g =? 0); [by rewrite list_elem_of_singleton|apply not_elem_of_nil]. }
  assert (Hlen : zlen text = zlen (hexs A) + ((if g =? 0 then 1 else 0) + 1 + zlen (joined C))).
  { subst text rest. rewrite !zlen_app, zlen_cons. destruct (g =? 0); [change (zlen [58]) with 1|change (zlen []) with 0]; lia. }
  unfold pton6, pton_quad. rewrite Hdot.
  unfold mbind at 1 2, parser_bind at 1 2, pset, mret at 1, parser_ret at 1.
  set (f := (length text - length A - length C - 1)%nat).
  assert (S (length text) = (length A + S (length C + S f)))%nat as ->.
  { subst f text rest. rewrite !length_app. simpl. destruct (g =? 0); simpl; lia. }
  unfold mbind at 1, parser_bind at 1. rewrite Hlen. unfold text at 1.
  change w0 with ([] ++ w0).
  assert (0 <= zlen (joined C)) by apply zlen_nonneg.
  rewrite loop_hexs by (done || (destruct (g =? 0); lia)).
  rewrite app_nil_l, Z.add_0_l, HA. unfold rest.
  rewrite pton_loop_gap by (done || lia).
  destruct (loop_joined C f A (drop (length A) w0) g g g HwC HA) as (n & ->); [lia| |].
  { unfold zlen in *. rewrite length_drop. lia. }
  rewrite drop_drop. set (D := drop (length A + length C) w0).
  assert (HD : zlen D = z) by (subst D; unfold zlen in *; rewrite length_drop; lia).
  unfold mbind at 1, parser_bind at 1, pget at 1. cbn [setWords gapPos].
  assert ((8 <? g + zlen C) || (g + zlen C =? 8) && negb (g =? -1) ||
    (g + zlen C <? 8) && (g =? -1) = false) as Hok.
  { destruct (Z.ltb_spec 8 (g + zlen C)), (Z.eqb_spec (g + zlen C) 8), (Z.eqb_spec g (-1)); try lia; done. }
  unfold mbind at 1, parser_bind at 1, err_if. rewrite Hok.
  pose proof (pton_gap_ok false [] n A C D [] (g + zlen C)) as HG.
  rewrite app_nil_r in HG. change (zlen []) with 0 in HG. rewrite !Z.add_0_r, HA in HG.
  unfold mbind at 1, parser_bind at 1. rewrite <- app_assoc.
  rewrite HG by lia. eexists. unfold mbind, parser_bind, pget, mret, parser_ret. simpl.
  rewrite app_nil_r, HD, <- EW. done.
Qed.

Lemma byte_pair hi lo : byte hi → byte lo → Z.lor (Z.shiftl hi 8) lo = hi * 256 + lo.
Proof.
  intros Hhi Hlo. apply Z.eqb_eq.
  apply (byte_cases (λ lo, Z.lor (Z.shiftl hi 8) lo =? hi * 256 + lo) lo Hlo).
  apply (byte_cases (λ hi, forallb (λ n, Z.lor (Z.shiftl hi 8) (Z.of_nat n) =? hi * 256 + Z.of_nat n)
    (seq 0 256)) hi Hhi). vm_compute. reflexivity.
Qed.

Lemma count_digits_app ds r :
  Forall (λ c, EVUTIL_ISDIGIT_ c = true) ds → (∀ c, head r = Some c → EVUTIL_ISDIGIT_ c = false) →
  count_digits (ds ++ r) = length ds.
Proof.
  intros Hd Hr. induction Hd as [|c ds Hc Hd IH]; simpl; [|by rewrite Hc, IH].
  destruct r as [|c r]; [done|]. simpl. by rewrite Hr.
Qed.

Lemma dec_digits n :
  byte n → Forall (λ c, EVUTIL_ISDIGIT_ c = true) (sprint_d n) ∧ 46 ∉ sprint_d n.
Proof.
  unfold byte. intros Hn. unfold sprint_d, sprint_u. destruct (Z.ltb_spec n 0); [lia|].
  destruct (printed_digits 10 n) as [Hd _]; [lia|lia|]. split.
  - eapply Forall_impl; [exact Hd|]. intros c Hc. rewrite ISDIGIT_ok; [done|].
    revert Hc. unfold is_digit, digit_val, byte. intros Hc%Z.ltb_lt. revert Hc.
    repeat case_match; rewrite ?andb_true_iff, ?Z.leb_le in *; lia.
  - intros H46. by apply (proj1 (Forall_forall _ _) Hd) in H46.
Qed.

(** The two words of the dotted part. *)
Lemma set_quad (l : list Z) x y :
  zlen l = 8 → <[Z.to_nat 7 := y]> (<[Z.to_nat 6 := x]> l) = ztake 6 l ++ [x; y].
Proof.
  intros Hl. unfold zlen in Hl.
  do 8 (destruct l as [|? l]; [done|]). destruct l; [done|simpl in Hl; lia].
Qed.

(** With a dotted part: [P] is empty or the word before it. *)
Lemma pton_quad_ok P a b c d :
  zlen P <= 1 → Forall word16 P → byte a → byte b → byte c → byte d →
  let text := 58 :: 58 :: hexs P ++ sprint_quad a b c d in
  pton_quad text w0 s0 =
  Ret true (Pton text (2 + zlen (hexs P)) (ztake 6 w0 ++ [a * 256 + b; c * 256 + d]) 0 (-1) 2).
Proof.
  intros HP Hw Ha Hb Hc Hd text. unfold pton_quad.
  set (pre := 58 :: 58 :: hexs P).
  assert (Htext : text = (pre ++ sprint_d a) ++ 46 :: (sprint_d b ++ [46] ++ sprint_d c ++ [46] ++ sprint_d d)).
  { subst text pre. unfold sprint_quad. by rewrite <- !app_assoc. }
  assert (Hpre : ∃ r, pre = r ++ [58]).
  { subst pre. destruct P as [|w P _] using rev_ind; [by exists [58]|].
    exists (58 :: 58 :: hexs P ++ sprint_x w). unfold hexs. rewrite bind_app. simpl.
    by rewrite app_nil_r, <- app_assoc. }
  assert (46 ∉ pre ++ sprint_d a) as Hdot.
  { rewrite not_elem_of_app. split; [|by apply dec_digits]. subst pre.
    rewrite !not_elem_of_cons. split; [done|]. split; [done|]. by apply no_dot_hexs. }
  assert (strchr text 46 = Some (length (pre ++ sprint_d a))) as ->
    by (rewrite Htext; by apply strchr_app).
  destruct (length (pre ++ sprint_d a)) as [|dot] eqn:El; [by subst pre|]. rewrite <- El.
  assert (take (length (pre ++ sprint_d a)) text = pre ++ sprint_d a) as ->
    by (rewrite Htext; apply take_app_length).
  destruct Hpre as [r Hr]. destruct (dec_digits a Ha) as [Hda _].
  rewrite reverse_app, count_digits_app; [|by apply Forall_reverse|].
  2:{ rewrite Hr, reverse_snoc. by intros ? [= <-]. }
  rewrite length_reverse, length_app.
  replace (length pre + length (sprint_d a) - length (sprint_d a))%nat with (length pre) by lia.
  assert (drop (length pre) text = sprint_quad a b c d) as ->.
  { change text with (pre ++ sprint_quad a b c d). apply drop_app_length. }
  rewrite sscanf_quad_printed by done.
  assert ((255 <? a) || (255 <? b) || (255 <? c) || (255 <? d) = false) as Hok.
  { unfold byte in *. repeat (apply orb_false_intro); apply Z.ltb_ge; lia. }
  unfold mbind, parser_bind, err_if. rewrite Hok, !byte_pair by done.
  rewrite zset_in_range by lia. cbn [access].
  rewrite zset_in_range by (rewrite zlen_insert; lia). cbn [access pset mret parser_ret].
  do 2 f_equal.
  - subst pre. simpl length. unfold zlen. lia.
  - by apply set_quad.
Qed.

Lemma pton6_dotted P a b c d :
  zlen P <= 1 → Forall word16 P → byte a → byte b → byte c → byte d →
  ∃ s, pton6 (58 :: 58 :: hexs P ++ sprint_quad a b c d) w0 s0 =
    Ret (1, bytes_of_words (zrepeat 0 (6 - zlen P) ++ P ++ [a * 256 + b; c * 256 + d])) s.
Proof.
  intros HP Hw Ha Hb Hc Hd. unfold pton6. set (E := [a * 256 + b; c * 256 + d]).
  set (q := sprint_quad a b c d). set (text := 58 :: 58 :: hexs P ++ q).
  pose proof (pton_quad_ok P a b c d HP Hw Ha Hb Hc Hd) as HQ. cbv zeta in HQ. fold q in HQ. fold text E in HQ.
  unfold mbind at 1, parser_bind at 1. rewrite HQ.
  pose proof (zlen_nonneg P). pose proof (zlen_nonneg (hexs P)). pose proof (hexs_long P).
  set (f := (length text - 2 - length P)%nat).
  assert (S (length text) = S (length P + (2 + f)))%nat as ->.
  { subst f text. simpl. rewrite length_app. lia. }
  unfold mbind at 1, parser_bind at 1.
  pose proof (pton_loop_gap (length P + (2 + f)) (hexs P ++ q) (zlen (hexs P)) [] (ztake 6 w0 ++ E) 0 2) as HG.
  change ((if 0 =? 0 then [58] else []) ++ 58 :: hexs P ++ q) with text in HG.
  change ((if 0 =? 0 then 1 else 0) + 1 + zlen (hexs P)) with (2 + zlen (hexs P)) in HG.
  rewrite !app_nil_l in HG. rewrite HG by (done || lia).
  assert (HT : zlen (ztake 6 w0) = 6) by (rewrite zlen_ztake; lia).
  pose proof (loop_hexs P (2 + f) q 0 [] (ztake 6 w0 ++ E) 0 0 2 Hw eq_refl) as HL.
  rewrite Z.add_0_r in HL. rewrite !app_nil_l in HL. rewrite HL by (rewrite ?zlen_app; change (zlen E) with 2; lia).
  simpl pton_loop. unfold mbind at 1, parser_bind at 1, pget at 1. cbn [n_left]. change (0 <? 0) with false. cbn iota.
  unfold mret at 1, parser_ret at 1. unfold mbind at 1, parser_bind at 1, pget at 1. cbn [setWords gapPos].
  assert ((8 <? 2 + zlen P) || (2 + zlen P =? 8) && negb (0 =? -1) || (2 + zlen P <? 8) && (0 =? -1) = false) as Hok.
  { destruct (Z.ltb_spec 8 (2 + zlen P)), (Z.eqb_spec (2 + zlen P) 8); try lia; done. }
  unfold mbind at 1, parser_bind at 1, err_if. rewrite Hok.
  assert (drop (length P) (ztake 6 w0 ++ E) = drop (length P) (ztake 6 w0) ++ E) as ->
    by (apply drop_app_le; unfold zlen in HT, HP; lia).
  set (D := drop (length P) (ztake 6 w0)).
  assert (HD : zlen D = 6 - zlen P) by (subst D; unfold zlen in *; rewrite length_drop; lia).
  pose proof (pton_gap_ok true q 0 [] P D E (0 + zlen P)) as HO. change (zlen []) with 0 in HO.
  change (zlen E) with 2 in HO. rewrite !app_nil_l in HO.
  replace (0 + zlen P + 2) with (2 + zlen P) in HO by lia.
  unfold mbind at 1, parser_bind at 1. rewrite HO by lia.
  eexists. unfold mbind, parser_bind, pget, mret, parser_ret. simpl. by rewrite HD.
Qed.
End reading_back.

(** * The round trip *)

Lemma words_of_ok addr : Forall byte addr →
  Forall word16 (words_of addr) ∧ (∀ n, length addr = (2 * n)%nat → length (words_of addr) = n ∧
    bytes_of_words (words_of addr) = addr).
Proof.
  assert (∀ n addr, (length addr < n)%nat → Forall byte addr →
    Forall word16 (words_of addr) ∧ (∀ n, length addr = (2 * n)%nat → length (words_of addr) = n ∧
      bytes_of_words (words_of addr) = addr)) as H; [|intros Ha; apply (H (S (length addr))); [lia|done]].
  clear addr. induction n as [|n IH]; intros addr Hl Ha; [lia|].
  destruct addr as [|hi [|lo addr]].
  - split; [constructor|]. intros [|m]; [done|simpl; lia].
  - split; [constructor|]. intros [|m]; simpl; lia.
  - inversion Ha as [|?? Hhi Ha']; subst. inversion Ha' as [|?? Hlo Ha'']; subst.
    destruct (IH addr) as [Hw Hb]; [simpl in Hl; lia|done|].
    unfold byte in *. simpl words_of.
    assert (u16 (Z.shiftl hi 8 + lo) = hi * 256 + lo) as ->
      by (rewrite Z.shiftl_mul_pow2 by lia; apply u16_small; lia).
    split; [constructor; [unfold word16; lia|done]|].
    intros [|m] E; [done|]. destruct (Hb m) as [E1 E2]; [simpl in E; lia|].
    split; [simpl; by rewrite E1|].
    change (bytes_of_words (hi * 256 + lo :: words_of addr)) with
      (Z.shiftr (hi * 256 + lo) 8 :: Z.land (hi * 256 + lo) 0xff :: bytes_of_words (words_of addr)).
    rewrite E2.
    rewrite Z.shiftr_div_pow2 by lia. change 255 with (Z.ones 8). rewrite Z.land_ones by lia.
    f_equal; [lia|]. f_equal. lia.
Qed.

Lemma word_at W i : 0 <= i < zlen W → zget W i = Some (word W i).
Proof. intros Hi. unfold word. destruct (zget_in_range W i Hi) as [x ->]. done. Qed.

(** Eight elements by number. *)
Lemma eight (W : list Z) : zlen W = 8 →
  W = [word W 0; word W 1; word W 2; word W 3; word W 4; word W 5; word W 6; word W 7].
Proof.
  intros H. unfold zlen in H. do 8 (destruct W as [|? W]; [done|]).
  destruct W; [done|simpl in H; lia].
Qed.

(** Every IPv6 address is read back from its text, whatever was in the array. *)
Lemma pton_text6 w0 addr :
  zlen w0 = 8 → length addr = 16%nat → Forall byte addr →
  evutil_inet_pton w0 AF_INET6 (ntop6_text addr) = Some (1, addr).
Proof.
  intros Hw0 Hl Ha. destruct (words_of_ok addr Ha) as [Hw Hb]. destruct (Hb 8%nat Hl) as [Hl8 Hback].
  assert (HW : zlen (words_of addr) = 8) by (unfold zlen; lia).
  set (s0 := Pton [] 0 [] 0 0 0).
  assert (Hdone : ∀ text, (∃ s, pton6 text w0 s0 = Ret (1, bytes_of_words (words_of addr)) s) →
    evutil_inet_pton w0 AF_INET6 text = Some (1, addr)).
  { intros text [s E]. unfold evutil_inet_pton. simpl. fold s0. by rewrite E, Hback. }
  apply Hdone. unfold ntop6_text.
  set (W := words_of addr) in *.
  assert (Hs : ∀ i, 0 <= i < 16 → zget addr i = Some (default 0 (zget addr i)))
    by (intros i Hi; destruct (zget_in_range addr i) as [x ->]; [unfold zlen; lia|done]).
  match goal with |- context [if ?c then _ else _] => destruct c eqn:Hquad end.
  2:{ (* no dotted part *)
      fold (general_text W). destruct (print_cases W HW) as [->|(g & z & Hg & Hz & Hgz & EW & ->)].
      - by apply pton6_joined.
      - by apply (pton6_gap w0 Hw0 s0 W g z). }
  assert (Hquad6 : word W 6 = default 0 (zget addr 12) * 256 + default 0 (zget addr 13) ∧
                   word W 7 = default 0 (zget addr 14) * 256 + default 0 (zget addr 15)).
  { clear -Hl Ha. subst W. do 16 (destruct addr as [|? addr]; [done|]). destruct addr; [|done].
    do 12 apply Forall_inv_tail in Ha. do 4 apply Forall_cons in Ha as [? Ha]. unfold byte in *.
    change (u16 (Z.shiftl z11 8 + z12) = z11 * 256 + z12 ∧ u16 (Z.shiftl z13 8 + z14) = z13 * 256 + z14).
    rewrite !Z.shiftl_mul_pow2 by lia. unfold u16. rewrite !Z.mod_small by lia. lia. }
  assert (Hbyte : ∀ i, byte (default 0 (zget addr i))).
  { intros i. destruct (zget addr i) as [x|] eqn:E; [|done]. simpl. revert E. unfold zget.
    destruct (i <? 0); [done|]. intros E. by eapply Forall_lookup_1. }
  destruct Hquad6 as [E6 E7]. pose proof (eight W HW) as E8.
  repeat apply andb_prop in Hquad as [Hquad ?]. rewrite !Z.eqb_eq in *.
  set (a := default 0 (zget addr 12)) in *. set (b := default 0 (zget addr 13)) in *.
  set (c := default 0 (zget addr 14)) in *. set (d := default 0 (zget addr 15)) in *.
  rewrite E6, E7 in E8.
  destruct (Z.eqb_spec (word W 5) 0) as [E5|E5].
  - destruct (pton6_dotted w0 Hw0 s0 [] a b c d) as [s Hr]; try done; try apply Hbyte.
    exists s. rewrite E8, E5. repeat match goal with H : word W _ = 0 |- _ => rewrite H end. exact Hr.
  - destruct (Z.eqb_spec (word W 5) 0xffff) as [Ef|]; [|done].
    destruct (pton6_dotted w0 Hw0 s0 [0xffff] a b c d) as [s Hr]; try done; try apply Hbyte.
    { constructor; [unfold word16; lia|constructor]. }
    exists s. rewrite E8, Ef. repeat match goal with H : word W _ = 0 |- _ => rewrite H end. exact Hr.
Qed.

(** * Any text

    The parser run twice on the same text with different contents of the array:
    both runs give the same result and stay inside the array. *)

Lemma strtol_rest s base : (length (strtol s base).2 <= length s)%nat.
Proof.
  assert (∀ acc t, (length (read_digits base acc t).2 <= length t)%nat) as Hr.
  { intros acc t. revert acc. induction t as [|c t IH]; intros acc; simpl; [done|].
    destruct (is_digit base c); [|done]. specialize (IH (acc * base + digit_val c)). lia. }
  assert (∀ t, (length (skip_space t) <= length t)%nat) as Hs.
  { induction t as [|c t IH]; simpl; [done|]. destruct (isspace c); simpl; lia. }
  assert (∀ t, (length (sign t).2 <= length t)%nat) as Hg.
  { intros [|c t]; simpl; [done|]. destruct (c =? 45), (c =? 43); simpl; lia. }
  assert (∀ t, (length (skip_prefix base t) <= length t)%nat) as Hp.
  { intros [|z [|x [|h t]]]; simpl; try done. case_match; simpl; lia. }
  unfold strtol. specialize (Hs s). specialize (Hg (skip_space s)).
  destruct (sign (skip_space s)) as [neg t]. simpl in Hg. specialize (Hp t).
  destruct (skip_prefix base t) as [|c t'] eqn:E; [done|]. destruct (is_digit base c); [|done].
  specialize (Hr 0 (c :: t')). destruct (read_digits base 0 (c :: t')) as [v rest].
  simpl in *. lia.
Qed.

Definition quad_words (dot : bool) : Z := if dot then 2 else 0.

Record same_run (dot : bool) (s s' : pton) : Prop := {
  sr_src : src s' = src s;
  sr_n : n_left s' = n_left s;
  sr_i : word_i s' = word_i s;
  sr_gap : gapPos s' = gapPos s;
  sr_set : setWords s' = setWords s;
  sr_len : zlen (words s) = 8;
  sr_len' : zlen (words s') = 8;
  sr_word : Forall word16 (words s);
  sr_range : 0 <= word_i s <= 8;
  sr_gap_range : -1 <= gapPos s <= word_i s;
  sr_count : setWords s = word_i s + quad_words dot;
  sr_left : n_left s <= zlen (src s);
  sr_head : ztake (word_i s) (words s') = ztake (word_i s) (words s);
  sr_tail : dot = true → zdrop 6 (words s') = zdrop 6 (words s)
}.

(** The outcomes of two runs. *)
Definition same_result {A} (R : pton → pton → Prop) (r r' : outcome pton A) : Prop :=
  match r, r' with
  | Ret a s, Ret a' s' => a = a' ∧ R s s'
  | Error _, Error _ => True
  | _, _ => False
  end.

Lemma same_set i (x : Z) l l' n :
  0 <= i < n → zlen l = n → zlen l' = n → ztake i l' = ztake i l →
  ∃ m m', zset l i x = Some m ∧ zset l' i x = Some m' ∧ zlen m = n ∧ zlen m' = n ∧
    ztake (i + 1) m' = ztake (i + 1) m ∧
    (∀ j, zdrop j l' = zdrop j l → zdrop j m' = zdrop j m).
Proof.
  intros Hi Hl Hl' E. rewrite !zset_in_range by lia. do 2 eexists. split; [done|]. split; [done|].
  rewrite !zlen_insert. split; [done|]. split; [done|].
  assert (Hins : ∀ k : list Z, zlen k = n → <[Z.to_nat i := x]> k = ztake i k ++ x :: zdrop (i + 1) k).
  { intros k Hk. rewrite insert_take_drop by (unfold zlen in Hk; lia). unfold ztake, zdrop.
    do 3 f_equal. lia. }
  split.
  - rewrite !Hins by done. rewrite !ztake_app_ge by (rewrite zlen_ztake by lia; lia).
    rewrite !zlen_ztake, E by lia. f_equal. by replace (i + 1 - i) with 1 by lia.
  - intros j Hj. unfold zdrop in *. destruct (decide (Z.to_nat i < Z.to_nat j)%nat).
    + by rewrite !drop_insert_lt by lia.
    + rewrite !drop_insert_ge by lia. by rewrite Hj.
Qed.

Lemma same_run_word dot s s' :
  same_run dot s s' → word_i s <= 7 → 0 < n_left s →
  same_result (λ t t', same_run dot t t' ∧ (length (src t) < length (src s))%nat)
    (pton_word s s) (pton_word s' s').
Proof.
  intros [] Hi Hn. unfold pton_word. rewrite sr_src0, sr_n0, sr_i0, sr_gap0, sr_set0.
  pose proof (strtol_rest (src s) 16) as Hrest. destruct (strtol (src s) 16) as [r next]. simpl in Hrest.
  unfold mbind, parser_bind, err_if.
  set (used := zlen (src s) - zlen next).
  destruct (4 <? used); [done|]. destruct (Z.eqb_spec used 0) as [|Hu]; [done|].
  destruct (_ || _); [done|].
  destruct (same_set (word_i s) (u16 r) (words s) (words s') 8) as (m & m' & E & E' & Hm & Hm' & Ht & Hd);
    [lia|done..|].
  rewrite E, E'. cbn [access].
  destruct (negb (hd 0 next =? 58) && negb (n_left s - used =? 0)) eqn:Hend; [done|].
  assert (next = [] → n_left s = used) as Hnil.
  { intros ->. simpl in Hend. apply negb_false_iff, Z.eqb_eq in Hend. lia. }
  unfold pset. split; [done|]. assert (length next < length (src s))%nat as Hlt by (unfold used, zlen in Hu; lia).
  split.
  - constructor; simpl; try done; try lia.
    + rewrite zset_in_range in E by lia. injection E as <-. apply Forall_insert; [done|].
      unfold word16. apply Z.mod_pos_bound. lia.
    + unfold used, zlen in *. destruct next as [|c next]; simpl in *; [rewrite Hnil by done; lia|lia].
    + auto.
  - simpl. destruct next; simpl in *; lia.
Qed.

Lemma same_run_loop dot fuel : ∀ s s',
  same_run dot s s' → (length (src s) < fuel)%nat →
  same_result (same_run dot) (pton_loop fuel s) (pton_loop fuel s').
Proof.
  induction fuel as [|fuel IH]; intros s s' H Hf; [lia|].
  simpl pton_loop. unfold mbind at 1 5, parser_bind at 1 5, pget. cbv beta iota.
  pose proof H as []. rewrite sr_n0. destruct (Z.ltb_spec 0 (n_left s)) as [Hn|]; [|done].
  unfold mbind, parser_bind, err_if. rewrite sr_i0.
  destruct (Z.ltb_spec 7 (word_i s)) as [|Hi]; [done|]. rewrite sr_src0.
  assert (∃ c rest, src s = c :: rest) as (c & rest & Es).
  { destruct (src s) as [|c rest]; [change (zlen []) with 0 in sr_left0; lia|eauto]. }
  assert (head (src s) = Some c) as -> by by rewrite Es. cbn [access].
  assert (Hstep : ∀ r r' : outcome pton unit, same_result (λ t t', same_run dot t t' ∧ (length (src t) < length (src s))%nat) r r' →
    same_result (same_run dot)
      (match r with Ret _ s => pton_loop fuel s | Error s => Error s | Fault => Fault end)
      (match r' with Ret _ s => pton_loop fuel s | Error s => Error s | Fault => Fault end)).
  { intros r r' Hr. destruct r as [[] t|t|], r' as [[] t'|t'|]; try done.
    destruct Hr as (_ & Hr & Hl). apply IH; [done|]. lia. }
  apply Hstep. rewrite sr_gap0, sr_set0.
  assert (Hmove : ∀ k, (0 < k)%nat → (k <= length (src s))%nat ∨ n_left s <= Z.of_nat k →
    gapPos s = -1 → same_result (λ t t', same_run dot t t' ∧ (length (src t) < length (src s))%nat)
     (pset (Pton (drop k (src s)) (n_left s - Z.of_nat k) (words s) (word_i s) (word_i s) (setWords s)) s)
     (pset (Pton (drop k (src s)) (n_left s - Z.of_nat k) (words s') (word_i s) (word_i s) (setWords s)) s')).
  { intros k Hk Hk' Hg. split; [done|]. split.
    - constructor; simpl; try done; try lia.
      unfold zlen in *. rewrite length_drop. lia.
    - simpl. rewrite length_drop, Es. simpl. lia. }
  destruct (EVUTIL_ISXDIGIT_ c).
  - pose proof (same_run_word dot s s' H Hi Hn) as Hw. destruct s, s'. simpl in *. subst. apply Hw.
  - destruct ((c =? 58) && (0 <? word_i s) && (gapPos s =? -1)) eqn:E1.
    + apply andb_prop in E1 as [_ E1%Z.eqb_eq].
      apply (Hmove 1%nat); [lia|left; rewrite Es; simpl; lia|done].
    + destruct ((c =? 58) && (word_i s =? 0) && (hd 0 (tl (src s)) =? 58) && (gapPos s =? -1)) eqn:E2; [|done].
      apply andb_prop in E2 as [E2 E3%Z.eqb_eq]. apply andb_prop in E2 as [_ E2].
      apply (Hmove 2%nat); [lia| |done]. left. rewrite Es in *. simpl in *. destruct rest; simpl in *; [done|lia].
Qed.

Lemma scan_u_range s v rest : scan_u s = Some (v, rest) → 0 <= v.
Proof.
  unfold scan_u. destruct (sign _) as [neg [|c t]]; [done|]. destruct (is_digit 10 c); [|done].
  destruct (read_digits 10 0 (c :: t)) as [n r]. intros [= <- _]. apply u32_range.
Qed.
Lemma sscanf_quad_range s a b c d :
  sscanf_quad s = Some (a, b, c, d) → 0 <= a ∧ 0 <= b ∧ 0 <= c ∧ 0 <= d.
Proof.
  unfold sscanf_quad. rewrite bind_Some. intros ([x s1] & H1%scan_u_range & E).
  rewrite bind_Some in E. destruct E as (s2 & _ & E).
  rewrite bind_Some in E. destruct E as ([x2 s3] & H2%scan_u_range & E).
  rewrite bind_Some in E. destruct E as (s4 & _ & E).
  rewrite bind_Some in E. destruct E as ([x3 s5] & H3%scan_u_range & E).
  rewrite bind_Some in E. destruct E as (s6 & _ & E).
  rewrite bind_Some in E. destruct E as ([x4 s7] & H4%scan_u_range & E).
  destruct s7; [|done]. by injection E as <- <- <- <-.
Qed.

Lemma quad_start text w0 w0' s0 :
  zlen w0 = 8 → zlen w0' = 8 → Forall word16 w0 →
  match pton_quad text w0 s0, pton_quad text w0' s0 with
  | Ret dot s, Ret dot' s' => dot = dot' ∧ same_run dot s s' ∧ src s = text
  | Error _, Error _ => True
  | _, _ => False
  end.
Proof.
  intros H H' Hw. unfold pton_quad. destruct (strchr text 46) as [[|dot]|] eqn:Edot; [done| |].
  2:{ simpl. split; [done|]. split; [|done]. constructor; simpl; done || lia. }
  set (eow := (S dot - _)%nat). destruct (sscanf_quad _) as [[[[b1 b2] b3] b4]|] eqn:Es; [|done].
  apply sscanf_quad_range in Es as (?&?&?&?).
  unfold mbind, parser_bind, err_if.
  destruct ((255 <? b1) || (255 <? b2) || (255 <? b3) || (255 <? b4)) eqn:Hb; [done|].
  rewrite !orb_false_iff, !Z.ltb_ge in Hb. destruct Hb as [[[? ?] ?] ?].
  rewrite !byte_pair by (unfold byte; lia).
  rewrite !zset_in_range by (rewrite ?zlen_insert; lia). cbn [access].
  rewrite !zset_in_range by (rewrite ?zlen_insert; lia). cbn [access pset mret parser_ret].
  rewrite !set_quad by done. split; [done|]. split; [|done].
  assert (∀ l : list Z, zlen l = 8 → zlen (ztake 6 l ++ [b1 * 256 + b2; b3 * 256 + b4]) = 8) as Hlen.
  { intros l Hl. rewrite zlen_app, zlen_ztake by lia. done. }
  constructor; simpl; auto; try lia.
  - apply Forall_app. split; [by apply Forall_take|]. repeat constructor; unfold word16; lia.
  - assert (S dot <= length text)%nat.
    { clear -Edot. revert dot Edot. induction text as [|c t IH]; intros dot; simpl; [done|].
      destruct (c =? 46); [done|]. destruct (strchr t 46) as [[|k]|]; simpl; intros [= <-]; [lia|].
      specialize (IH k eq_refl). lia. }
    unfold zlen. subst eow. lia.
  - intros _. by rewrite !zdrop_app_ge by (rewrite zlen_ztake; lia); rewrite !zlen_ztake by lia.
Qed.

(** The array after the loop: the words before the gap, after it, and the dotted
    part, each the same in both runs. *)
Lemma same_run_parts dot s s' :
  same_run dot s s' → 0 <= gapPos s → setWords s < 8 →
  ∃ A C D D' E,
    words s = A ++ C ++ D ++ E ∧ words s' = A ++ C ++ D' ++ E ∧ zlen D = zlen D' ∧
    zlen A = gapPos s ∧ zlen A + zlen C + zlen D + zlen E = 8 ∧
    setWords s = zlen A + zlen C + zlen E ∧ zlen E = quad_words dot.
Proof.
  intros [] Hg Hs. set (i := word_i s) in *. set (k := 8 - quad_words dot).
  assert (0 <= quad_words dot <= 2) as Hq by (destruct dot; simpl; lia).
  assert (Hparts : ∀ l : list Z, zlen l = 8 →
    l = ztake (gapPos s) (ztake i l) ++ zdrop (gapPos s) (ztake i l) ++ ztake (k - i) (zdrop i l) ++ zdrop k l).
  { intros l Hl. rewrite app_assoc, ztake_zdrop. rewrite <- (ztake_zdrop i l) at 1. f_equal.
    rewrite <- (ztake_zdrop (k - i) (zdrop i l)) at 1. f_equal. rewrite zdrop_zdrop by lia. f_equal. lia. }
  exists (ztake (gapPos s) (ztake i (words s))), (zdrop (gapPos s) (ztake i (words s))),
    (ztake (k - i) (zdrop i (words s))), (ztake (k - i) (zdrop i (words s'))), (zdrop k (words s)).
  split; [by apply Hparts|]. split.
  { rewrite (Hparts (words s')) at 1 by done. rewrite sr_head0. do 3 f_equal.
    unfold k. destruct dot; simpl; [by apply sr_tail0|]. by rewrite !zdrop_all by lia. }
  rewrite !zlen_ztake; rewrite ?zlen_zdrop; rewrite ?zlen_ztake; lia.
Qed.

(** The parser of IPv6 addresses on any text: it stays inside its array, the
    result does not depend on what was there, and it is 0 or 1; the line marked
    as impossible is. *)
Lemma pton6_determined text w0 w0' :
  zlen w0 = 8 → zlen w0' = 8 → Forall word16 w0 →
  ∃ rc addr, evutil_inet_pton w0 AF_INET6 text = Some (rc, addr) ∧
    evutil_inet_pton w0' AF_INET6 text = Some (rc, addr) ∧
    (rc = 0 ∧ addr = [] ∨ rc = 1 ∧ length addr = 16%nat ∧ Forall byte addr).
Proof.
  intros H H' Hw. unfold evutil_inet_pton. simpl. unfold pton6.
  set (s0 := Pton [] 0 [] 0 0 0). pose proof (quad_start text w0 w0' s0 H H' Hw) as Hq.
  rewrite (bind_run (pton_quad text w0)), (bind_run (pton_quad text w0')).
  destruct (pton_quad text w0 s0) as [dot s|s|], (pton_quad text w0' s0) as [dot' s'|s'|];
    try done; [|exists 0, []; by auto].
  destruct Hq as (<- & Hr & Hsrc).
  pose proof (same_run_loop dot (S (length text)) s s' Hr) as Hl.
  rewrite Hsrc in Hl. specialize (Hl ltac:(lia)).
  rewrite !(bind_run (pton_loop (S (length text)))).
  destruct (pton_loop (S (length text)) s) as [[] t|t|], (pton_loop (S (length text)) s') as [[] t'|t'|];
    try done; [|exists 0, []; by auto].
  destruct Hl as [_ Hl]. clear Hr Hsrc s s'. pose proof Hl as [].
  rewrite !(bind_run pget). unfold pget at 1 3. rewrite sr_set0, sr_gap0.
  rewrite !(bind_run (err_if _)). unfold err_if.
  destruct ((8 <? setWords t) || (setWords t =? 8) && negb (gapPos t =? -1) ||
    (setWords t <? 8) && (gapPos t =? -1)) eqn:Hok; [exists 0, []; by auto|].
  rewrite !orb_false_iff, !andb_false_iff, Z.ltb_ge, !Z.ltb_ge, negb_false_iff, Z.eqb_eq, Z.eqb_neq in Hok.
  destruct Hok as [[? Hfull] Hgap].
  assert (Hbytes : ∀ W, zlen W = 8 → Forall word16 W →
    length (bytes_of_words W) = 16%nat ∧ Forall byte (bytes_of_words W)).
  { intros W HW HWw. split.
    - rewrite (eight W HW). done.
    - unfold bytes_of_words. apply Forall_bind. eapply Forall_impl; [exact HWw|].
      unfold word16. intros x Hx. change 255 with (Z.ones 8).
      repeat constructor; unfold byte; rewrite ?Z.shiftr_div_pow2, ?Z.land_ones by lia; lia. }
  destruct (Z.leb_spec 0 (gapPos t)) as [Hg|Hg].
  - (* a gap *)
    destruct (same_run_parts dot t t' Hl Hg) as (A & C & D & D' & E & Ew & Ew' & HD & HA & H8 & Hset & HE); [lia|].
    assert (Hrun : ∀ u X, zlen X = zlen D → words u = A ++ C ++ X ++ E → gapPos u = gapPos t →
      setWords u = setWords t →
      ∃ u', pton_gap dot u = Ret 1 u' ∧ words u' = A ++ zrepeat 0 (zlen D) ++ C ++ E).
    { intros u X HX Hwu Hgu Hsu. destruct u as [us un uw ui ug uk]. simpl in *. subst uw ug uk.
      rewrite Hset, <- HA. rewrite pton_gap_ok by (rewrite ?HX; done). rewrite HX. eauto. }
    destruct (Hrun t D eq_refl Ew eq_refl eq_refl) as (u & E1 & W1).
    destruct (Hrun t' D' (eq_sym HD) Ew' sr_gap0 sr_set0) as (u' & E1' & W1').
    rewrite !(bind_run (pton_gap dot)), E1, E1', !(bind_run pget). unfold pget, mret, parser_ret. simpl.
    rewrite W1, W1'. do 2 eexists. split; [done|]. split; [done|]. right. split; [done|]. apply Hbytes.
    + rewrite !zlen_app, zlen_zrepeat by apply zlen_nonneg. lia.
    + rewrite Ew in sr_word0. rewrite !Forall_app in *. destruct sr_word0 as (?&?&?&?).
      split; [done|]. split; [|done]. apply Forall_replicate. unfold word16. lia.
  - (* all words given *)
    assert (gapPos t = -1) as Hg1 by lia. assert (setWords t = 8) as Hs8 by lia.
    assert (words t' = words t) as Ew.
    { rewrite <- (ztake_zdrop (word_i t) (words t)), <- (ztake_zdrop (word_i t) (words t')), sr_head0. f_equal.
      destruct dot; simpl in sr_count0.
      - replace (word_i t) with 6 by lia. by apply sr_tail0.
      - by rewrite !zdrop_all by lia. }
    assert (Hrun : ∀ u, gapPos u = -1 → pton_gap dot u = Ret 1 u).
    { intros u Hu. unfold pton_gap. unfold mbind, parser_bind, pget. by rewrite Hu. }
    rewrite !(bind_run (pton_gap dot)), (Hrun t Hg1), (Hrun t'), !(bind_run pget) by congruence.
    unfold pget, mret, parser_ret. simpl. rewrite Ew.
    do 2 eexists. split; [done|]. split; [done|]. right. split; [done|]. by apply Hbytes.
Qed.

(** * What is accepted

    An accepted text has no other characters than these; blanks and signs are
    there because the conversion [%u] of [sscanf] skips them. *)
Definition pton_char (c : Z) : bool :=
  is_digit 16 c || (c =? 58) || (c =? 46) || (c =? 120) || (c =? 88) ||
  isspace c || (c =? 43) || (c =? 45).
Definition pton_chars (s : list Z) : Prop := Forall (λ c, pton_char c = true) s.
Lemma pton_chars_nil : pton_chars [].
Proof. constructor. Qed.
#[local] Hint Resolve pton_chars_nil : core.

Lemma pton_char_digit base c : base <= 16 → is_digit base c = true → pton_char c = true.
Proof.
  intros Hb H. unfold pton_char. assert (is_digit 16 c = true) as ->; [|done].
  unfold is_digit in *. lia.
Qed.

Lemma read_digits_split base s : base <= 16 → ∀ acc v r,
  read_digits base acc s = (v, r) → ∃ ds, s = ds ++ r ∧ pton_chars ds.
Proof.
  intros Hb. induction s as [|c s IH]; intros acc v r E; simpl in E.
  { injection E as <- <-. by exists []. }
  destruct (is_digit base c) eqn:Hc; [|injection E as <- <-; by exists []].
  apply IH in E as (ds & -> & Hd). exists (c :: ds). split; [done|]. constructor; [by eapply pton_char_digit|done].
Qed.
Lemma skip_space_split s : ∃ ds, s = ds ++ skip_space s ∧ pton_chars ds.
Proof.
  induction s as [|c s (ds & E & Hd)]; [by exists []|]. simpl. destruct (isspace c) eqn:Hc; [|by exists []].
  exists (c :: ds). split; [by rewrite <- app_comm_cons, <- E|]. constructor; [|done].
  unfold pton_char. rewrite Hc. by rewrite orb_true_r.
Qed.
Lemma sign_split s : ∃ ds, s = ds ++ (sign s).2 ∧ pton_chars ds.
Proof.
  destruct s as [|c s]; [by exists []|]. simpl.
  destruct (Z.eqb_spec c 45) as [->|]; [by exists [45]; split; [|repeat constructor]|].
  destruct (Z.eqb_spec c 43) as [->|]; [by exists [43]; split; [|repeat constructor]|]. by exists [].
Qed.
Lemma skip_prefix_split base s : ∃ ds, s = ds ++ skip_prefix base s ∧ pton_chars ds.
Proof.
  unfold skip_prefix. destruct s as [|z [|x [|h s]]]; try by exists [].
  destruct (_ && _ && _ && _) eqn:E; [|by exists []]. exists [z; x]. split; [done|].
  apply andb_true_iff in E as [[[_ Hz%Z.eqb_eq]%andb_true_iff Hx]%andb_true_iff _]. subst z.
  apply orb_true_iff in Hx as [->%Z.eqb_eq| ->%Z.eqb_eq]; by repeat constructor.
Qed.
Lemma strtol_split s base v r : base <= 16 → strtol s base = (v, r) → ∃ ds, s = ds ++ r ∧ pton_chars ds.
Proof.
  intros Hb. unfold strtol. destruct (skip_space_split s) as (d1 & E1 & H1).
  destruct (sign_split (skip_space s)) as (d2 & E2 & H2).
  destruct (sign (skip_space s)) as [neg t]. simpl in E2.
  destruct (skip_prefix_split base t) as (d3 & E3 & H3).
  destruct (skip_prefix base t) as [|c t']; [intros [= <- <-]; by exists []|].
  destruct (is_digit base c); [|intros [= <- <-]; by exists []].
  destruct (read_digits base 0 (c :: t')) as [w r'] eqn:E4. intros [= _ <-].
  apply read_digits_split in E4 as (d4 & E4 & H4); [|done].
  exists (d1 ++ d2 ++ d3 ++ d4). split; [by rewrite <- !app_assoc, <- E4, <- E3, <- E2, <- E1|].
  unfold pton_chars in *. by rewrite !Forall_app.
Qed.
Lemma scan_u_split s v r : scan_u s = Some (v, r) → ∃ ds, s = ds ++ r ∧ pton_chars ds.
Proof.
  unfold scan_u. destruct (skip_space_split s) as (d1 & E1 & H1).
  destruct (sign_split (skip_space s)) as (d2 & E2 & H2).
  destruct (sign (skip_space s)) as [neg t]. simpl in E2.
  destruct t as [|c t']; [done|]. destruct (is_digit 10 c); [|done].
  destruct (read_digits 10 0 (c :: t')) as [w r'] eqn:E4. intros [= _ <-].
  apply read_digits_split in E4 as (d4 & E4 & H4); [|done].
  exists (d1 ++ d2 ++ d4). split; [by rewrite <- !app_assoc, <- E4, <- E2, <- E1|].
  unfold pton_chars in *. by rewrite !Forall_app.
Qed.
Lemma scan_dot_split s r : scan_dot s = Some r → s = 46 :: r.
Proof. destruct s as [|c s]; [done|]. simpl. destruct (Z.eqb_spec c 46); [|done]. by intros [= <-]; subst. Qed.
Lemma sscanf_quad_chars s q : sscanf_quad s = Some q → pton_chars s.
Proof.
  unfold sscanf_quad. intros H.
  destruct (scan_u s) as [[a s1]|] eqn:E1; [|done]. cbn [mbind option_bind] in H.
  destruct (scan_dot s1) as [s2|] eqn:E2; [|done]. cbn [mbind option_bind] in H.
  destruct (scan_u s2) as [[b s3]|] eqn:E3; [|done]. cbn [mbind option_bind] in H.
  destruct (scan_dot s3) as [s4|] eqn:E4; [|done]. cbn [mbind option_bind] in H.
  destruct (scan_u s4) as [[c s5]|] eqn:E5; [|done]. cbn [mbind option_bind] in H.
  destruct (scan_dot s5) as [s6|] eqn:E6; [|done]. cbn [mbind option_bind] in H.
  destruct (scan_u s6) as [[d s7]|] eqn:E7; [|done]. cbn [mbind option_bind] in H.
  destruct s7; [|done].
  apply scan_u_split in E1 as (d1&->&H1), E3 as (d2&->&H2), E5 as (d3&->&H3), E7 as (d4&->&H4).
  apply scan_dot_split in E2 as ->, E4 as ->, E6 as ->.
  unfold pton_chars in *. by repeat first [done | apply Forall_app; split | apply Forall_cons; split].
Qed.

Section accepted.
Context (text : list Z) (E : Z).

(** The part of the text before [eow] that the parser has passed. *)
Definition passed (s : pton) : Prop :=
  ∃ used, text = used ++ src s ∧ pton_chars (ztake E used) ∧ (E - zlen used <= n_left s ∨ src s = []).

Lemma passed_step s t rest ws i g k n :
  passed s → src s = t ++ rest → pton_chars t → n = n_left s - zlen t → passed (Pton rest n ws i g k).
Proof.
  intros (used & Et & Hu & Hn) Es Ht ->. exists (used ++ t). simpl. rewrite Es in *.
  split; [by rewrite <- app_assoc|]. split.
  - destruct (Z.le_gt_cases E (zlen used)).
    + destruct (Z.le_gt_cases 0 E); [by rewrite ztake_app_le by lia|].
      unfold ztake. by replace (Z.to_nat E) with O by lia.
    + rewrite ztake_app_ge by lia. rewrite ztake_all in Hu by lia. apply Forall_app. split; [done|].
      by apply Forall_take.
  - rewrite zlen_app. destruct Hn as [?|Hn]; [left; lia|right]. by apply app_nil in Hn as [_ ->].
Qed.

Lemma pton_word_passed s s' u : passed s → pton_word s s = Ret u s' → passed s'.
Proof.
  intros Hp H. unfold pton_word in H. destruct (strtol (src s) 16) as [r next] eqn:Es.
  apply strtol_split in Es as (t & Es & Ht); [|lia]. ret_inv H.
  assert (zlen (src s) - zlen next = zlen t) as Hl by (rewrite Es, zlen_app; lia). rewrite Hl in *.
  destruct next as [|x next].
  { rewrite app_nil_r in Es. destruct Hp as (used & Et & Hu & Hn). exists (used ++ t). simpl.
    rewrite Es in *. split; [by rewrite app_nil_r|]. split; [|by right].
    destruct (Z.le_gt_cases E (zlen used)).
    - destruct (Z.le_gt_cases 0 E); [by rewrite ztake_app_le by lia|].
      unfold ztake. by replace (Z.to_nat E) with O by lia.
    - rewrite ztake_app_ge by lia. rewrite ztake_all in Hu by lia. apply Forall_app. split; [done|].
      by apply Forall_take. }
  simpl in *. destruct (Z.eqb_spec x 58) as [->|Hx].
  { apply (passed_step s (t ++ [58]) next); [done|by rewrite <- app_assoc| |].
    - apply Forall_app. split; [done|by repeat constructor].
    - rewrite zlen_app. change (zlen [58]) with 1. lia. }
  destruct Hp as (used & Et & Hu & Hn). exists (used ++ t ++ [x]). simpl.
  rewrite Es in *. split; [by rewrite <- !app_assoc|].
  destruct Hn as [Hn|Hn]; [|by apply app_nil in Hn as [_ ?]].
  assert (n_left s = zlen t) as Hnl by (destruct (Z.eqb_spec (n_left s - zlen t) 0); [lia|done]).
  split.
  - rewrite app_assoc. destruct (Z.le_gt_cases 0 E).
    2:{ unfold ztake. by replace (Z.to_nat E) with O by lia. }
    rewrite ztake_app_le by (rewrite zlen_app; lia).
    destruct (Z.le_gt_cases E (zlen used)); [by rewrite ztake_app_le by lia|].
    rewrite ztake_app_ge by lia. rewrite ztake_all in Hu by lia. apply Forall_app. split; [done|].
    by apply Forall_take.
  - left. rewrite !zlen_app. change (zlen [x]) with 1. lia.
Qed.

Lemma pton_loop_passed fuel : ∀ s s' u,
  passed s → pton_loop fuel s = Ret u s' → passed s' ∧ n_left s' <= 0.
Proof.
  induction fuel as [|fuel IH]; intros s s' u Hp H; [done|]. simpl in H.
  apply bind_ret in H as (s0 & s1 & H0 & H). injection H0 as <- <-.
  destruct (Z.ltb_spec 0 (n_left s)); [|injection H as <- <-; split; [done|lia]].
  apply bind_ret in H as (u1 & s1 & H1 & H). apply err_if_ret in H1 as [_ ->].
  apply bind_ret in H as (c & s1 & H1 & H). apply access_ret in H1 as [Hc ->].
  apply bind_ret in H as (u2 & s1 & H1 & H). apply (IH s1 s' u); [|done]. clear IH H.
  destruct (src s) as [|c' rest] eqn:Es; [done|]. injection Hc as ->.
  destruct (EVUTIL_ISXDIGIT_ c); [by eapply pton_word_passed|].
  destruct (_ && _ && _) eqn:H58.
  { injection H1 as <- <-. apply andb_true_iff in H58 as [[->%Z.eqb_eq _]%andb_true_iff _].
    apply (passed_step s [58] rest); [done|done|by repeat constructor|done]. }
  destruct (_ && _ && _ && _) eqn:H5; [|done].
  injection H1 as <- <-. apply andb_true_iff in H5 as [[[->%Z.eqb_eq _]%andb_true_iff H5]%andb_true_iff _].
  simpl in H5. destruct rest as [|d rest]; [done|]. simpl in H5. apply Z.eqb_eq in H5 as ->.
  apply (passed_step s [58; 58] rest); [done|done|by repeat constructor|done].
Qed.
End accepted.

Lemma pton_accepts text w0 a :
  evutil_inet_pton w0 AF_INET6 text = Some (1, a) → pton_chars text.
Proof.
  unfold evutil_inet_pton. simpl. destruct (pton6 text w0 _) as [r s| |] eqn:H; [|done|done].
  intros [= ->]. unfold pton6 in H.
  apply bind_ret in H as (dot & s1 & Hq & H). apply bind_ret in H as (u & s2 & Hl & _).
  assert (∃ E, passed text E s1 ∧ pton_chars (zdrop E text) ∧ 0 <= E) as (E & Hp & Hd & HE).
  { unfold pton_quad in Hq. destruct (strchr text 46) as [[|dp]|] eqn:Es; [done| |].
    - destruct (sscanf_quad _) as [[[[b1 b2] b3] b4]|] eqn:Hs; [|done]. ret_inv Hq.
      eexists. split; [|split; [unfold zdrop; rewrite Nat2Z.id; by eapply sscanf_quad_chars|apply Nat2Z.is_nonneg]].
      exists []. simpl. split; [done|]. split; [|left; rewrite zlen_nil; lia].
      unfold ztake. by rewrite take_nil.
    - ret_inv Hq. exists (zlen text). split; [|split; [by rewrite zdrop_all|apply zlen_nonneg]].
      exists []. simpl. split; [done|]. split; [|left; rewrite zlen_nil; lia].
      unfold ztake. by rewrite take_nil. }
  pose proof (pton_loop_passed text E _ _ _ _ Hp Hl) as [(used & Et & Hu & Hn) Hle].
  rewrite <- (ztake_zdrop E text). apply Forall_app. split; [|done].
  destruct Hn as [Hn|Hn].
  - rewrite Et, ztake_app_le by lia. done.
  - by rewrite Et, Hn, app_nil_r.
Qed.
