(* ===== verification/InetThms.v ===== *)
(** * The contract of the address functions

    Printing and parsing of addresses, with and without ports, are inverse to each
    other; parsing any text is memory safe; two addresses compare equal exactly
    when they are.  The last part shows where the code differs from its purpose. *)
From S2P Require Import Prelude Outcome Lines Evutil InetDefs Inet.

(** * Sizes and alphabet of printed addresses *)

Lemma sprint_d_len n k : (0 < k)%nat → 0 <= n < 10 ^ Z.of_nat k → zlen (sprint_d n) <= Z.of_nat k.
Proof.
  intros Hk Hn. unfold sprint_d, sprint_u. destruct (Z.ltb_spec n 0); [lia|].
  by apply (to_base_len 10 64).
Qed.
Lemma quad_len a b c d : byte a → byte b → byte c → byte d → zlen (sprint_quad a b c d) <= 15.
Proof.
  unfold byte. intros. unfold sprint_quad. rewrite !zlen_app. change (zlen [46]) with 1.
  pose proof (sprint_d_len a 3 ltac:(lia) ltac:(lia)). pose proof (sprint_d_len b 3 ltac:(lia) ltac:(lia)).
  pose proof (sprint_d_len c 3 ltac:(lia) ltac:(lia)). pose proof (sprint_d_len d 3 ltac:(lia) ltac:(lia)). lia.
Qed.
Lemma hexs_len ws : Forall word16 ws → zlen (hexs ws) <= 5 * zlen ws.
Proof.
  induction 1 as [|w ws Hw _ IH]; [done|]. rewrite hexs_cons, zlen_app, !zlen_cons.
  destruct (hex_digits w Hw) as (_ & _ & ?). lia.
Qed.
Lemma joined_len ws : Forall word16 ws → zlen (joined ws) <= 5 * zlen ws.
Proof.
  intros Hws. destruct ws as [|w ws _] using rev_ind; [done|].
  apply Forall_app in Hws as [Hws Hw]. apply Forall_inv in Hw.
  rewrite joined_hexs, !zlen_app. change (zlen [w]) with 1.
  pose proof (hexs_len ws Hws). destruct (hex_digits w Hw) as (_ & _ & ?). lia.
Qed.

(** Characters of an address: hexadecimal digits, colons, dots. *)
Definition addr_char (c : Z) : Prop := is_digit 16 c = true ∨ c = 58 ∨ c = 46.

Lemma dec_chars n : byte n → Forall addr_char (sprint_d n).
Proof.
  intros Hn. unfold byte in Hn. unfold sprint_d, sprint_u. destruct (Z.ltb_spec n 0); [lia|].
  destruct (printed_digits 10 n) as [Hd _]; [lia|lia|]. eapply Forall_impl; [exact Hd|].
  intros c Hc. left. revert Hc. unfold is_digit. rewrite !Z.ltb_lt. lia.
Qed.
Lemma quad_chars a b c d : byte a → byte b → byte c → byte d → Forall addr_char (sprint_quad a b c d).
Proof.
  intros. unfold sprint_quad. assert (addr_char 46) by (unfold addr_char; auto).
  repeat (apply Forall_app; split); auto using dec_chars.
Qed.
Lemma hexs_chars ws : Forall word16 ws → Forall addr_char (hexs ws).
Proof.
  induction 1 as [|w ws Hw _ IH]; [constructor|]. rewrite hexs_cons. apply Forall_app. split.
  - destruct (hex_digits w Hw) as (Hd & _). eapply Forall_impl; [exact Hd|]. intros c Hc. by left.
  - constructor; [by right; left|done].
Qed.
Lemma joined_chars ws : Forall word16 ws → Forall addr_char (joined ws).
Proof.
  intros Hws. destruct ws as [|w ws _] using rev_ind; [constructor|].
  apply Forall_app in Hws as [Hws Hw]. apply Forall_inv in Hw. rewrite joined_hexs. apply Forall_app.
  split; [by apply hexs_chars|]. destruct (hex_digits w Hw) as (Hd & _).
  eapply Forall_impl; [exact Hd|]. intros c Hc. by left.
Qed.

Lemma ntop6_text_ok addr :
  length addr = 16%nat → Forall byte addr →
  zlen (ntop6_text addr) <= 45 ∧ Forall addr_char (ntop6_text addr).
Proof.
  intros Hl Ha. destruct (words_of_ok addr Ha) as [Hw Hb]. destruct (Hb 8%nat Hl) as [Hl8 _].
  assert (HW : zlen (words_of addr) = 8) by (unfold zlen; lia).
  assert (Hbyte : ∀ i, byte (default 0 (zget addr i))).
  { intros i. destruct (zget addr i) as [x|] eqn:E; [|done]. simpl. revert E. unfold zget.
    destruct (i <? 0); [done|]. intros E. by eapply Forall_lookup_1. }
  assert (Hc : addr_char 58) by (by right; left).
  unfold ntop6_text. set (W := words_of addr) in *.
  pose proof (quad_len _ _ _ _ (Hbyte 12) (Hbyte 13) (Hbyte 14) (Hbyte 15)).
  pose proof (quad_chars _ _ _ _ (Hbyte 12) (Hbyte 13) (Hbyte 14) (Hbyte 15)).
  set (quad := sprint_quad _ _ _ _) in *.
  match goal with |- context [if ?c then _ else _] => destruct c eqn:Hq end.
  - destruct (Z.eqb_spec (word W 5) 0) as [E5|E5].
    + rewrite zlen_app. change (zlen [58; 58]) with 2. split; [lia|]. by repeat constructor.
    + assert (word W 5 = 65535) as ->.
      { apply andb_prop in Hq as [_ Hq]. simpl in Hq. by apply Z.eqb_eq in Hq. }
      rewrite !zlen_app. change (zlen [58; 58]) with 2. change (zlen (sprint_x 65535)) with 4.
      change (zlen [58]) with 1. split; [lia|].
      apply Forall_app. split; [by repeat constructor|]. apply Forall_app.
      split; [repeat constructor; by left|]. apply Forall_app. split; [by repeat constructor|done].
  - fold (general_text W). destruct (print_cases W HW) as [->|(g & z & Hg & Hz & Hgz & EW & ->)].
    + pose proof (joined_len W Hw). split; [lia|by apply joined_chars].
    + assert (HwA : Forall word16 (ztake g W)) by by apply Forall_take.
      assert (HwC : Forall word16 (zdrop (g + z) W)) by by apply Forall_drop.
      pose proof (hexs_len _ HwA) as L1. pose proof (joined_len _ HwC) as L2.
      rewrite zlen_ztake in L1 by lia. rewrite zlen_zdrop in L2 by lia. split.
      * rewrite !zlen_app, zlen_cons. destruct (g =? 0); [change (zlen [58]) with 1|change (zlen []) with 0]; lia.
      * repeat (apply Forall_app; split); [by apply hexs_chars|destruct (g =? 0); auto|].
        constructor; [done|by apply joined_chars].
Qed.

(** * Addresses *)

(** C38: [evutil_inet_ntop] into a buffer of at least 46 bytes succeeds for every
    address, and [evutil_inet_pton] reads the same address back from the text. *)
Theorem inet_roundtrip w0 af addr len :
  zlen w0 = 8 → 46 <= len →
  (af = AF_INET ∧ length addr = 4%nat ∨ af = AF_INET6 ∧ length addr = 16%nat) → Forall byte addr →
  ∃ text, evutil_inet_ntop af addr len = Some text ∧ evutil_inet_pton w0 af text = Some (1, addr).
Proof.
  intros Hw0 Hlen [[-> Hl]|[-> Hl]] Ha.
  - do 4 (destruct addr as [|? addr]; [done|]). destruct addr; [|done].
    do 4 apply Forall_cons in Ha as [? Ha]. unfold evutil_inet_ntop. simpl.
    change (default 0 (zget [z; z0; z1; z2] 0)) with z. change (default 0 (zget [z; z0; z1; z2] 1)) with z0.
    change (default 0 (zget [z; z0; z1; z2] 2)) with z1. change (default 0 (zget [z; z0; z1; z2] 3)) with z2.
    pose proof (quad_len z z0 z1 z2) as Hq. destruct (Z.leb_spec len (zlen (sprint_quad z z0 z1 z2))); [lia|].
    eexists. split; [done|]. by apply quad_roundtrip.
  - unfold evutil_inet_ntop. simpl. destruct (ntop6_text_ok addr Hl Ha) as [Hlen' _].
    destruct (Z.ltb_spec len (zlen (ntop6_text addr))); [lia|]. eexists. split; [done|].
    rewrite ztake_all by lia. by apply pton_text6.
Qed.
Lemma inet_roundtrip_witness :
  ∃ text, evutil_inet_ntop AF_INET6 [0x20; 1; 0xd; 0xb8; 0; 0; 0; 0; 0; 0; 0; 0; 0; 0; 0; 1] 46 = Some text ∧
    evutil_inet_pton (zrepeat 0 8) AF_INET6 text =
      Some (1, [0x20; 1; 0xd; 0xb8; 0; 0; 0; 0; 0; 0; 0; 0; 0; 0; 0; 1]).
Proof.
  apply inet_roundtrip; [done|lia|right; by split|]. repeat constructor; unfold byte; lia.
Defined.

(** C39: on any text, [evutil_inet_pton] for IPv6 stays inside its array of eight
    words, gives the same result whatever the array held before (it is not
    initialised), and returns 0, or 1 with sixteen bytes: the line marked as
    impossible is. *)
Theorem inet_pton_safe text w0 w0' :
  zlen w0 = 8 → zlen w0' = 8 → Forall word16 w0 →
  ∃ rc addr, evutil_inet_pton w0 AF_INET6 text = Some (rc, addr) ∧
    evutil_inet_pton w0' AF_INET6 text = Some (rc, addr) ∧
    (rc = 0 ∧ addr = [] ∨ rc = 1 ∧ length addr = 16%nat ∧ Forall byte addr).
Proof. apply pton6_determined. Qed.
Lemma inet_pton_safe_witness :
  ∃ rc addr, evutil_inet_pton (zrepeat 0 8) AF_INET6 [58; 58; 49] = Some (rc, addr) ∧
    evutil_inet_pton (zrepeat 7 8) AF_INET6 [58; 58; 49] = Some (rc, addr) ∧
    (rc = 0 ∧ addr = [] ∨ rc = 1 ∧ length addr = 16%nat ∧ Forall byte addr).
Proof. apply inet_pton_safe; [done|done|]. apply Forall_replicate. unfold word16. lia. Defined.

(** * Addresses with a port *)

Lemma atoi_printed n : 0 <= n < 2 ^ 31 → atoi (sprint_d n) = n.
Proof.
  intros Hn. unfold atoi, strtol, sprint_d, sprint_u. destruct (Z.ltb_spec n 0); [lia|].
  destruct (printed_digits 10 n) as [Hd Hne]; [lia|lia|].
  pose proof (read_printed 10 n []) as HR. rewrite app_nil_r in HR.
  destruct (to_base 64 10 n) as [|c ds]; [done|]. apply Forall_inv in Hd as Hc.
  rewrite (skip_space_digit 10), (sign_digit 10) by done || lia.
  assert (skip_prefix 10 (c :: ds) = c :: ds) as -> by (destruct ds as [|? [|]]; done).
  rewrite Hc, HR by done || lia. simpl. rewrite i32_small; lia.
Qed.

Lemma not_addr_char c l : Forall addr_char l → is_digit 16 c = false → c <> 58 → c <> 46 → c ∉ l.
Proof.
  intros Hl Hc H1 H2 H. apply (proj1 (Forall_forall _ _) Hl) in H as [H|[H|H]]; congruence.
Qed.
Lemma dec_no_colon n : byte n ∨ 0 <= n < 2 ^ 31 → 58 ∉ sprint_d n.
Proof.
  intros Hn. assert (0 <= n < 2 ^ 64) as Hn' by (unfold byte in Hn; lia).
  unfold sprint_d, sprint_u. destruct (Z.ltb_spec n 0); [lia|].
  destruct (printed_digits 10 n) as [Hd _]; [lia|lia|]. intros H58.
  by apply (proj1 (Forall_forall _ _) Hd) in H58.
Qed.
Lemma quad_no_colon a b c d : byte a → byte b → byte c → byte d → 58 ∉ sprint_quad a b c d.
Proof.
  intros. unfold sprint_quad. rewrite !not_elem_of_app, !list_elem_of_singleton.
  split_and!; try done; apply dec_no_colon; by left.
Qed.

(** The text is split where it was put together. *)
Lemma split_quad q port :
  58 ∉ q → 58 ∉ port → hd 0 (q ++ [58]) <> 91 → zlen q <= 127 →
  split_port (q ++ [58] ++ port) = Some (q, Some port, false).
Proof.
  intros Hq Hp Hh Hl. unfold split_port. change (q ++ [58] ++ port) with (q ++ 58 :: port).
  assert ((hd 0 (q ++ 58 :: port) =? 91) = false) as -> by (apply Z.eqb_neq; by destruct q).
  rewrite strchr_app by done.
  assert (drop (S (length q)) (q ++ 58 :: port) = port) as ->
    by (rewrite drop_app_ge by lia; by rewrite Nat.sub_succ_l, Nat.sub_diag by lia).
  rewrite strchr_None by done. destruct (Z.ltb_spec 127 (Z.of_nat (length q))); [unfold zlen in Hl; lia|].
  by rewrite take_app_length.
Qed.
Lemma split_bracket t port :
  93 ∉ t → zlen t <= 127 → split_port ([91] ++ t ++ [93; 58] ++ port) = Some (t, Some port, true).
Proof.
  intros Ht Hl. unfold split_port. simpl hd. change (91 =? 91) with true. cbn iota.
  assert (strchr ([91] ++ t ++ [93; 58] ++ port) 93 = Some (S (length t))) as ->.
  { change (S <$> strchr (t ++ 93 :: 58 :: port) 93 = Some (S (length t))).
    by rewrite strchr_app. }
  destruct (Z.ltb_spec 127 (Z.of_nat (S (length t)) - 1)); [unfold zlen in Hl; lia|].
  assert (drop (S (length t)) (t ++ 93 :: 58 :: port) = 58 :: port) as Hd.
  { rewrite drop_app_ge by lia. by rewrite Nat.sub_succ_l, Nat.sub_diag by lia. }
  change (drop (S (S (length t))) ([91] ++ t ++ [93; 58] ++ port)) with
    (drop (S (length t)) (t ++ 93 :: 58 :: port)).
  rewrite Hd.
  change (tl ([91] ++ t ++ [93; 58] ++ port)) with (t ++ [93; 58] ++ port).
  replace (S (length t) - 1)%nat with (length t) by lia. by rewrite take_app_length.
Qed.

(** An address of a family that is printed, with a port of 16 bits. *)
Definition sa_wf (sa : sockaddr) : Prop :=
  match sa with
  | Sin p a => 0 <= p < 2 ^ 16 ∧ length a = 4%nat ∧ Forall byte a
  | Sin6 p a _ => 0 <= p < 2 ^ 16 ∧ length a = 16%nat ∧ Forall byte a
  | SaOther _ => False
  end.
Definition sa_addr (sa : sockaddr) : list Z :=
  match sa with Sin _ a => a | Sin6 _ a _ => a | SaOther _ => [] end.
Definition sa_port (sa : sockaddr) : Z :=
  match sa with Sin p _ => p | Sin6 p _ _ => p | SaOther _ => 0 end.

Definition sa_size (sa : sockaddr) : Z := match sa with Sin _ _ => SIZEOF_SIN | _ => SIZEOF_SIN6 end.
(** The zone is not printed. *)
Definition unscoped (sa : sockaddr) : sockaddr := match sa with Sin6 p a _ => Sin6 p a 0 | _ => sa end.

(** C40: what [evutil_format_sockaddr_port_] prints into 54 bytes or more for any
    IPv4 or IPv6 address, [evutil_parse_sockaddr_port] reads back as the same family,
    address and port, if the port is not 0 and the caller has room for the result.
    The scope id of an IPv6 address is lost.  A port of 0 is printed, and then
    refused. *)
Theorem sockaddr_roundtrip if_nametoindex w0 sa outlen inlen :
  zlen w0 = 8 → 54 <= outlen → sa_wf sa →
  evutil_parse_sockaddr_port if_nametoindex w0 (evutil_format_sockaddr_port_ sa outlen) inlen =
    if (sa_port sa =? 0) || (inlen <? sa_size sa) then Some (-1, None) else Some (0, Some (unscoped sa)).
Proof.
  intros Hw0 Ho Hsa.
  assert (Hp : 0 <= sa_port sa < 2 ^ 16) by by destruct sa; [apply Hsa|apply Hsa|].
  pose proof (sprint_d_len (sa_port sa) 5 ltac:(lia) ltac:(lia)) as Hpl.
  assert (Hport : 58 ∉ sprint_d (sa_port sa)) by (apply dec_no_colon; lia).
  assert (Hrange : (sa_port sa <=? 0) || (65535 <? sa_port sa) = (sa_port sa =? 0)) by lia.
  unfold evutil_parse_sockaddr_port, evutil_format_sockaddr_port_, evutil_snprintf.
  destruct sa as [port addr|port addr scope|]; [| |done]; cbn [sa_port sa_size unscoped] in *; destruct Hsa as (_ & Hl & Ha).
  - do 4 (destruct addr as [|? addr]; [done|]). destruct addr; [|done].
    do 4 apply Forall_cons in Ha as [? Ha]. unfold evutil_inet_ntop. simpl evutil_inet_ntop.
    change (AF_INET =? AF_INET) with true. cbn iota.
    change (default 0 (zget [z; z0; z1; z2] 0)) with z. change (default 0 (zget [z; z0; z1; z2] 1)) with z0.
    change (default 0 (zget [z; z0; z1; z2] 2)) with z1. change (default 0 (zget [z; z0; z1; z2] 3)) with z2.
    pose proof (quad_len z z0 z1 z2) as Hq. destruct (Z.leb_spec 128 (zlen (sprint_quad z z0 z1 z2))); [lia|].
    rewrite ztake_all by (rewrite !zlen_app; change (zlen [58]) with 1; lia).
    rewrite split_quad; [|by apply quad_no_colon|done| |lia].
    2:{ unfold sprint_quad. destruct (dec_chars z) as [|c ds Hc]; [done|done|].
        rewrite <- app_comm_cons. simpl. intros ->. by destruct Hc as [?|[?|?]]. }
    rewrite atoi_printed, Hrange by lia. destruct (port =? 0); [done|].
    rewrite quad_roundtrip by done. simpl. by destruct (inlen <? SIZEOF_SIN).
  - destruct (ntop6_text_ok addr Hl Ha) as [Hlen Hchars].
    unfold evutil_inet_ntop. change (AF_INET6 =? AF_INET) with false. change (AF_INET6 =? AF_INET6) with true. cbn iota.
    destruct (Z.ltb_spec 128 (zlen (ntop6_text addr))); [lia|].
    rewrite (ztake_all 127) by lia.
    rewrite ztake_all by (rewrite !zlen_app; change (zlen [91]) with 1; change (zlen [93; 58]) with 2; lia).
    rewrite split_bracket; [|by apply (not_addr_char 93)|lia].
    rewrite atoi_printed, Hrange by lia. destruct (port =? 0); [done|].
    unfold evutil_inet_pton_scope. change (negb (AF_INET6 =? AF_INET6)) with false. cbn iota.
    rewrite strchr_None by by apply (not_addr_char 37). rewrite pton_text6 by done. simpl.
    by destruct (inlen <? SIZEOF_SIN6).
Qed.
Lemma sockaddr_roundtrip_witness :
  evutil_parse_sockaddr_port (λ _, 0) (zrepeat 0 8)
    (evutil_format_sockaddr_port_ (Sin6 8080 (zrepeat 0 15 ++ [1]) 3) 128) SIZEOF_SIN6 =
    Some (0, Some (Sin6 8080 (zrepeat 0 15 ++ [1]) 0)).
Proof.
  apply (sockaddr_roundtrip (λ _, 0) (zrepeat 0 8) (Sin6 8080 (zrepeat 0 15 ++ [1]) 3)); [done|lia|].
  split; [lia|]. split; [done|]. repeat constructor; unfold byte; lia.
Defined.

(** * Comparing *)

Lemma of_be_inj l l' : Forall byte l → Forall byte l' → length l = length l' → of_be l = of_be l' → l = l'.
Proof.
  revert l'. induction l as [|b l IH] using rev_ind; intros l' Hl Hl' Hlen E.
  { destruct l'; [done|simpl in Hlen; lia]. }
  destruct l' as [|b' l' _] using rev_ind; [rewrite length_app in Hlen; simpl in Hlen; lia|].
  rewrite !length_app in Hlen. simpl in Hlen.
  apply Forall_app in Hl as [Hl Hb]. apply Forall_inv in Hb.
  apply Forall_app in Hl' as [Hl' Hb']. apply Forall_inv in Hb'.
  unfold of_be in E. rewrite !foldl_app in E. simpl in E. fold (of_be l) (of_be l') in E.
  unfold byte in *. assert (of_be l = of_be l' ∧ b = b') as [E1 ->] by lia.
  f_equal. apply IH; auto. lia.
Qed.

Lemma raw_port_inj p q : 0 <= p < 2 ^ 16 → 0 <= q < 2 ^ 16 → raw_port p = raw_port q → p = q.
Proof.
  intros Hp Hq. unfold raw_port, of_le, htons, of_be. simpl. rewrite !u16_small by lia. lia.
Qed.

(** [evutil_sockaddr_cmp] returns 0 exactly for two addresses of the same
    family with the same bytes and, if ports count, the same port. *)
Theorem sockaddr_cmp_zero sa sb include_port :
  sa_wf sa → sa_wf sb →
  (evutil_sockaddr_cmp sa sb include_port = 0 ↔
   sa_family sa = sa_family sb ∧ sa_addr sa = sa_addr sb ∧
   (include_port = true → sa_port sa = sa_port sb)).
Proof.
  assert (Hports : ∀ p q, 0 <= p < 2 ^ 16 → 0 <= q < 2 ^ 16 →
    (if include_port then raw_port p - raw_port q else 0) = 0 ↔ (include_port = true → p = q)).
  { intros p q Hp Hq. destruct include_port; [|by split]. split.
    - intros E _. apply raw_port_inj; [done|done|lia].
    - intros E. rewrite E by done. lia. }
  intros Ha Hb. unfold evutil_sockaddr_cmp.
  destruct (Z.eqb_spec (sa_family sa - sa_family sb) 0) as [Ef|Ef]; simpl.
  2:{ split; [done|]. intros [? _]. lia. }
  assert (sa_family sa = sa_family sb) as Ef' by lia.
  destruct sa as [p a|p a sc|], sb as [q b|q b sc'|]; try done; destruct Ha as (Hp & Hla & Hba), Hb as (Hq & Hlb & Hbb).
  - simpl sa_addr. simpl sa_port. destruct (Z.ltb_spec (of_le a) (of_le b)).
    { split; [done|]. intros (_ & E & _). simpl in E. subst. lia. }
    destruct (Z.ltb_spec (of_le b) (of_le a)).
    { split; [done|]. intros (_ & E & _). simpl in E. subst. lia. }
    assert (reverse a = reverse b) as E.
    { apply of_be_inj; [by apply Forall_reverse|by apply Forall_reverse|rewrite !length_reverse; lia|].
      unfold of_le in *. lia. }
    apply (f_equal reverse) in E. rewrite !reverse_involutive in E.
    rewrite Hports by done. tauto.
  - simpl sa_addr. simpl sa_port. pose proof (memcmp_eq a b) as Hm.
    assert (zlen a = zlen b) as Hl by (unfold zlen; lia). specialize (Hm Hl).
    destruct (Z.eqb_spec (memcmp a b) 0) as [E|E]; simpl.
    + rewrite Hports by done. tauto.
    + split; [done|]. intros (_ & E' & _). tauto.
Qed.
Lemma sockaddr_cmp_zero_witness :
  evutil_sockaddr_cmp (Sin 80 [127; 0; 0; 1]) (Sin 81 [127; 0; 0; 1]) false = 0 ↔
   AF_INET = AF_INET ∧ [127; 0; 0; 1] = [127; 0; 0; 1] ∧ (false = true → 80 = 81).
Proof.
  apply (sockaddr_cmp_zero (Sin 80 [127; 0; 0; 1]) (Sin 81 [127; 0; 0; 1]) false);
    (split; [lia|]; split; [done|]; repeat constructor; unfold byte; lia).
Defined.

(** * Where the code differs from its purpose *)

(** With a buffer exactly as long as the text, IPv6 loses its last character and
    the call succeeds: [::1] becomes [::]. *)
Lemma inet_ntop_truncates : evutil_inet_ntop AF_INET6 (zrepeat 0 15 ++ [1]) 3 = Some [58; 58].
Proof. done. Qed.

(** A colon behind the last of eight words, and a word written with [0x], are
    accepted. *)
Lemma inet_pton_accepts_junk :
  (evutil_inet_pton (zrepeat 0 8) AF_INET6 [49; 58; 50; 58; 51; 58; 52; 58; 53; 58; 54; 58; 55; 58; 56; 58] =
   Some (1, [0; 1; 0; 2; 0; 3; 0; 4; 0; 5; 0; 6; 0; 7; 0; 8])) ∧
  evutil_inet_pton (zrepeat 0 8) AF_INET6 [48; 120; 49; 58; 58] =
   Some (1, 0 :: 1 :: zrepeat 0 14).
Proof. by vm_compute. Qed.
