(* ===== verification/DnsDefs.v ===== *)
(** * DNS messages: names, queries, replies, responses

    The wire format of [evdns.c].  A packet is a list of bytes; a C string is the
    list of its bytes without the terminating zero, and [cstr] reads one from a
    buffer.  Reading threads a [cursor]: the position in the packet, and the
    object of the caller that receives an alias ([put_cname_in_ptr]), which is
    written before the rest of a reply is known to be well formed.  Building a
    message threads the output buffer with the table of names used for
    compression.  Reads and writes are checked against the size of the buffer that
    is accessed, independently of the length the code compares with. *)
From S2P Require Import Prelude Outcome Evutil.

(** The part of a name before its first dot. *)
Definition first_label (name : list Z) : list Z :=
  match strchr name 46 with Some n => take n name | None => name end.

(** * Constants *)

Definition MAX_V4_ADDRS : Z := 32.
Definition MAX_V6_ADDRS : Z := 32.
Definition EVDNS_TYPE_A : Z := 1.
Definition TYPE_CNAME : Z := 5.
Definition EVDNS_TYPE_SOA : Z := 6.
Definition EVDNS_TYPE_PTR : Z := 12.
Definition EVDNS_TYPE_AAAA : Z := 28.
Definition EVDNS_CLASS_INET : Z := 1.
Definition _QR_MASK : Z := 0x8000.
Definition _OP_MASK : Z := 0x7800.
Definition _TC_MASK : Z := 0x0200.
Definition _RD_MASK : Z := 0x0100.
Definition _CD_MASK : Z := 0x0010.
Definition _RCODE_MASK : Z := 0x000f.
Definition DNS_ERR_NOTEXIST : Z := 3.
Definition DNS_ERR_NOTIMPL : Z := 4.

(** * Reading a packet *)

Record cursor := Cursor { pos : Z; cname : option (list Z) }.

Definition at_pos (j : Z) (c : cursor) : cursor := Cursor j (cname c).
Definition seek (j : Z) : parser cursor unit := c ← pget; pset (at_pos j c).
Definition tell : parser cursor Z := c ← pget; mret (pos c).

(** The next [n] bytes, when they are inside the packet. *)
Definition GETN (packet : list Z) (length n : Z) : parser cursor (list Z) :=
  j ← tell;
  _ ← err_if (length <? j + n);
  l ← access (mem_read packet j n);
  _ ← seek (j + n);
  mret l.
Definition GET8 (packet : list Z) (length : Z) : parser cursor Z :=
  j ← tell;
  _ ← err_if (length <=? j);
  x ← access (zget packet j);
  _ ← seek (j + 1);
  mret x.
Definition GET16 (packet : list Z) (length : Z) : parser cursor Z :=
  l ← GETN packet length 2; mret (of_be l).
Definition GET32 (packet : list Z) (length : Z) : parser cursor Z :=
  l ← GETN packet length 4; mret (of_be l).

(** The loop of [name_parse]: where the name ends in the packet (negative before
    the first pointer), how many pointers were followed, how many bytes were
    written to [name_out]. *)
Fixpoint name_loop (fuel : nat) (packet : list Z) (length name_out_len : Z)
    (name_end ptr_count cp : Z) (name_out : list Z) : parser cursor (Z * Z * list Z) :=
  match fuel with
  | O => fault
  | S fuel =>
      label_len ← GET8 packet length;
      if label_len =? 0 then mret (name_end, cp, name_out)
      else if has label_len 0xc0 then
        ptr_low ← GET8 packet length;
        j ← tell;
        let name_end := if name_end <? 0 then j else name_end in
        let j := Z.shiftl (Z.land label_len 0x3f) 8 + ptr_low in
        _ ← err_if ((j <? 0) || (length <=? j));
        _ ← err_if (length <? ptr_count + 1);
        _ ← seek j;
        name_loop fuel packet length name_out_len name_end (ptr_count + 1) cp name_out
      else
        _ ← err_if (63 <? label_len);
        '(cp, name_out) ←
          (if negb (cp =? 0) then
             _ ← err_if (name_out_len <=? cp + 1);
             name_out ← access (memcpy_at name_out cp [46]);
             mret (cp + 1, name_out)
           else mret (cp, name_out));
        _ ← err_if (name_out_len <=? cp + label_len);
        j ← tell;
        _ ← err_if (length <? j + label_len);
        label ← access (mem_read packet j label_len);
        name_out ← access (memcpy_at name_out cp label);
        _ ← seek (j + label_len);
        name_loop fuel packet length name_out_len name_end ptr_count (cp + label_len) name_out
  end.

(** Every round either follows a pointer, which happens at most [length] times, or
    writes at least one byte. *)
Definition name_fuel (length name_out_len : Z) : nat :=
  S (Z.to_nat length + Z.to_nat name_out_len).

Definition name_parse (packet : list Z) (length : Z) (name_out : list Z) (name_out_len : Z)
    : parser cursor (list Z) :=
  '(name_end, cp, name_out) ←
    name_loop (name_fuel length name_out_len) packet length name_out_len (-1) 0 0 name_out;
  _ ← err_if (name_out_len <=? cp);
  name_out ← access (memcpy_at name_out cp [0]);
  _ ← (if name_end <? 0 then mret tt else seek name_end);
  mret name_out.

(** * Replies from a name server *)

(** The part of [struct request] the parser of replies looks at. *)
Record request := Request {
  req_packet : list Z; (* request *)
  request_type : Z;
  request_len : Z;
  wants_cname : bool (* put_cname_in_ptr is not NULL *)
}.

(** What reading a reply depends on: the size of its buffers for names
    ([HOST_NAME_MAX] of [<limits.h>], 64 with glibc; 255 where that does not define
    it), and whether [mm_strdup] succeeds for an alias. *)
Class ReplyHost := {
  HOST_NAME_MAX : Z;
  host_name_max_nonneg : 0 <= HOST_NAME_MAX;
  dup_cname : list Z → bool
}.

(** [struct reply]; of the union only the member of the request's type is used. *)
Record reply := Reply {
  reply_type : Z;
  have_answer : bool;
  addrcount : Z; (* a.addrcount, aaaa.addrcount *)
  addresses : list Z; (* the bytes of a.addresses, aaaa.addresses *)
  ptr_name : list Z
}.

Definition empty_reply {RH : ReplyHost} (type : Z) : reply :=
  Reply type false 0
    (zrepeat 0 (if type =? EVDNS_TYPE_AAAA then 16 * MAX_V6_ADDRS else 4 * MAX_V4_ADDRS))
    (zrepeat 0 HOST_NAME_MAX).
Definition add_addresses (r : reply) (n : Z) (a : list Z) : reply :=
  Reply (reply_type r) true (addrcount r + n) a (ptr_name r).
Definition with_ptr_name (r : reply) (n : list Z) : reply :=
  Reply (reply_type r) true (addrcount r) (addresses r) n.

Section replies.
Context {RH : ReplyHost} (packet : list Z) (length : Z) (global_randomize_case : bool).

Definition SKIP_NAME : parser cursor (list Z) :=
  name_parse packet length (zrepeat 0 256) 256.
(** [j += n] *)
Definition skip (n : Z) : parser cursor unit := j ← tell; seek (j + n).

(** [name_parse] on the packet of the request, at the same offset [k]. *)
Definition request_name (req : request) (k : Z) : parser cursor (list Z) := λ c,
  match name_parse (req_packet req) (request_len req) (zrepeat 0 256) 256 (Cursor k None) with
  | Ret n _ => Ret n c
  | Error _ => Error c
  | Fault => Fault
  end.

Definition same_name (tmp_name cmp_name : list Z) : bool :=
  if negb global_randomize_case then bool_decide (cstr tmp_name = cstr cmp_name)
  else evutil_ascii_strcasecmp (cstr tmp_name) (cstr cmp_name) =? 0.

Fixpoint question_loop (n : nat) (req : request) (name_matches : bool) : parser cursor bool :=
  match n with
  | O => mret name_matches
  | S n =>
      k ← tell;
      tmp_name ← name_parse packet length (zrepeat 0 256) 256;
      cmp_name ← request_name req k;
      _ ← skip 4;
      j ← tell;
      _ ← err_if (length <? j);
      question_loop n req (name_matches || same_name tmp_name cmp_name)
  end.

(** Copying the addresses of one record of [size]-byte addresses. *)
Definition copy_addresses (size max datalength : Z) (r : reply) : parser cursor reply :=
  let count := datalength / size in
  let addrtocopy := Z.min (u32 (max - addrcount r)) count in
  j ← tell;
  _ ← err_if (length <? j + size * addrtocopy);
  bytes ← access (mem_read packet j (size * addrtocopy));
  a ← access (memcpy_at (addresses r) (size * addrcount r) bytes);
  _ ← seek (j + size * addrtocopy);
  mret (add_addresses r addrtocopy a).

Fixpoint answer_loop (n : nat) (req : request) (ttl_r : Z) (r : reply)
    : parser cursor (Z * reply) :=
  match n with
  | O => mret (ttl_r, r)
  | S n =>
      _ ← SKIP_NAME;
      type ← GET16 packet length;
      class ← GET16 packet length;
      ttl ← GET32 packet length;
      datalength ← GET16 packet length;
      if (type =? EVDNS_TYPE_A) && (class =? EVDNS_CLASS_INET) then
        if negb (request_type req =? EVDNS_TYPE_A) then
          _ ← skip datalength; answer_loop n req ttl_r r
        else
          _ ← err_if (has datalength 3);
          r ← copy_addresses 4 MAX_V4_ADDRS datalength r;
          if addrcount r =? MAX_V4_ADDRS then mret (Z.min ttl_r ttl, r)
          else answer_loop n req (Z.min ttl_r ttl) r
      else if (type =? EVDNS_TYPE_PTR) && (class =? EVDNS_CLASS_INET) then
        if negb (request_type req =? EVDNS_TYPE_PTR) then
          _ ← skip datalength; answer_loop n req ttl_r r
        else
          name ← name_parse packet length (ptr_name r) HOST_NAME_MAX;
          mret (Z.min ttl_r ttl, with_ptr_name r name)
      else if type =? TYPE_CNAME then
        c ← pget;
        if negb (wants_cname req) || bool_decide (is_Some (cname c)) then
          _ ← skip datalength; answer_loop n req ttl_r r
        else
          name ← name_parse packet length (zrepeat 0 HOST_NAME_MAX) HOST_NAME_MAX;
          j ← tell;
          _ ← pset (Cursor j (if dup_cname (cstr name) then Some (cstr name) else None));
          answer_loop n req ttl_r r
      else if (type =? EVDNS_TYPE_AAAA) && (class =? EVDNS_CLASS_INET) then
        if negb (request_type req =? EVDNS_TYPE_AAAA) then
          _ ← skip datalength; answer_loop n req ttl_r r
        else
          _ ← err_if (has datalength 15);
          r ← copy_addresses 16 MAX_V6_ADDRS datalength r;
          if addrcount r =? MAX_V6_ADDRS then mret (Z.min ttl_r ttl, r)
          else answer_loop n req (Z.min ttl_r ttl) r
      else _ ← skip datalength; answer_loop n req ttl_r r
  end.

Fixpoint authority_loop (n : nat) (ttl_r : Z) : parser cursor Z :=
  match n with
  | O => mret ttl_r
  | S n =>
      _ ← SKIP_NAME;
      type ← GET16 packet length;
      class ← GET16 packet length;
      ttl ← GET32 packet length;
      datalength ← GET16 packet length;
      if (type =? EVDNS_TYPE_SOA) && (class =? EVDNS_CLASS_INET) then
        _ ← SKIP_NAME;
        _ ← SKIP_NAME;
        _ ← GET32 packet length; (* serial *)
        _ ← GET32 packet length; (* refresh *)
        _ ← GET32 packet length; (* retry *)
        _ ← GET32 packet length; (* expire *)
        minimum ← GET32 packet length;
        authority_loop n (Z.min (Z.min ttl_r ttl) minimum)
      else _ ← skip datalength; authority_loop n ttl_r
  end.

(** The sections of a reply to [req]. *)
Definition reply_sections (req : request) (questions answers authority : Z)
    : parser cursor (Z * reply) :=
  name_matches ← question_loop (Z.to_nat questions) req false;
  _ ← err_if (negb name_matches);
  '(ttl_r, r) ← answer_loop (Z.to_nat answers) req 0xffffffff (empty_reply (request_type req));
  ttl_r ← (if negb (have_answer r) then authority_loop (Z.to_nat authority) ttl_r
           else mret ttl_r);
  mret (if ttl_r =? 0xffffffff then 0 else ttl_r, r).

Definition message_header : parser cursor (Z * Z * Z * Z * Z * Z) :=
  trans_id ← GET16 packet length;
  flags ← GET16 packet length;
  questions ← GET16 packet length;
  answers ← GET16 packet length;
  authority ← GET16 packet length;
  additional ← GET16 packet length;
  mret (trans_id, flags, questions, answers, authority, additional).
End replies.

(** What [reply_parse] does with a packet: nothing, when it belongs to no request,
    or one call of [reply_handle]; with its return value and the alias stored. *)
Inductive parsed : Type :=
  | Unrelated
  | Handle (ret : Z) (req : request) (flags ttl : Z) (r : option reply) (alias : option (list Z)).

Definition reply_parse {RH : ReplyHost} (find : Z → option request) (global_randomize_case : bool)
    (packet : list Z) (length : Z) : option parsed :=
  match message_header packet length (Cursor 0 None) with
  | Fault => None
  | Error _ => Some Unrelated
  | Ret (trans_id, flags, questions, answers, authority, _) c =>
      match find trans_id with
      | None => Some Unrelated
      | Some req =>
          let bad := Z.land flags (Z.lor _RCODE_MASK _TC_MASK) in
          if negb (has flags _QR_MASK) then Some Unrelated
          else if negb (bad =? 0) && negb (bad =? DNS_ERR_NOTEXIST) then
            Some (Handle (-1) req flags 0 None None)
          else
            match reply_sections packet length global_randomize_case req
                    questions answers authority c with
            | Fault => None
            | Error c => Some (Handle (-1) req flags 0 None (cname c))
            | Ret (ttl_r, r) c => Some (Handle 0 req flags ttl_r (Some r) (cname c))
            end
      end
  end.

(** * Requests to a server port *)

Record question := Question { q_type : Z; dns_question_class : Z; q_name : list Z }.

Record server_reply_item := Item {
  item_name : list Z;
  item_type : Z;
  item_class : Z;
  item_ttl : Z;
  is_name : bool;
  datalen : Z;
  data : option (list Z)
}.

(** [struct server_request] without its links, port and address. *)
Record server_request := ServerRequest {
  trans_id : Z;
  flags : Z;
  questions : list question;
  answer : list server_reply_item;
  authority : list server_reply_item;
  additional : list server_reply_item;
  response : option (list Z)
}.

(** What [request_parse] does: drop the packet, answer it with an error, or pass it
    to the callback of the port. *)
Inductive received : Type :=
  | Dropped
  | Refused (error : Z) (r : server_request)
  | Delivered (r : server_request).

(** [alloc n] tells whether the [n]-th allocation succeeds; the first is that of the
    request, the second that of the array of questions. *)
Fixpoint read_questions (n : nat) (alloc : nat → bool) (i : nat) (packet : list Z) (length : Z)
    : parser cursor (list question) :=
  match n with
  | O => mret []
  | S n =>
      tmp_name ← name_parse packet length (zrepeat 0 256) 256;
      type ← GET16 packet length;
      class ← GET16 packet length;
      _ ← err_if (negb (alloc (2 + i)%nat));
      qs ← read_questions n alloc (S i) packet length;
      mret (Question type class (cstr tmp_name) :: qs)
  end.

Definition request_parse (alloc : nat → bool) (packet : list Z) (length : Z) : option received :=
  match message_header packet length (Cursor 0 None) with
  | Fault => None
  | Error _ => Some Dropped
  | Ret (trans_id, flags, nquestions, _, _, _) c =>
      if has flags _QR_MASK then Some Dropped
      else
        let flags := Z.land flags (Z.lor _RD_MASK _CD_MASK) in
        if negb (alloc 0%nat) then Some Dropped
        else if (nquestions =? 0) || negb (alloc 1%nat) then Some Dropped
        else
          match read_questions (Z.to_nat nquestions) alloc 0 packet length c with
          | Fault => None
          | Error _ => Some Dropped
          | Ret qs _ =>
              let r := ServerRequest trans_id flags qs [] [] [] None in
              if has flags _OP_MASK then Some (Refused DNS_ERR_NOTIMPL r)
              else Some (Delivered r)
          end
  end.

(** * Building messages *)

Definition MAX_LABELS : Z := 128.

(** [struct dnslabel_table]: the names written so far with their positions. *)
Definition dnslabel_table : Type := list (list Z * Z).

Fixpoint dnslabel_table_get_pos (table : dnslabel_table) (label : list Z) : Z :=
  match table with
  | [] => -1
  | (v, pos) :: table =>
      if bool_decide (label = v) then pos else dnslabel_table_get_pos table label
  end.

(** [dup] tells whether [mm_strdup] succeeds for a string kept with a position. *)
Definition dnslabel_table_add (dup : list Z → Z → bool) (table : dnslabel_table)
    (label : list Z) (pos : Z) : Z * dnslabel_table :=
  if zlen table =? MAX_LABELS then (-1, table)
  else if negb (dup label pos) then (-1, table)
  else (0, table ++ [(label, pos)]).

(** The output buffer, the offset of the next byte, and the table. *)
Record message := Message { buf : list Z; off : Z; table : dnslabel_table }.

(** [memcpy(buf + j, bytes, len)] *)
Definition write_at (j : Z) (bytes : list Z) : parser message unit :=
  m ← pget;
  b ← access (memcpy_at (buf m) j bytes);
  pset (Message b (off m) (table m)).
Definition move_to (j : Z) : parser message unit :=
  m ← pget; pset (Message (buf m) j (table m)).
(** Bytes appended when the code has compared their number with the room. *)
Definition append (buf_len : Z) (bytes : list Z) : parser message unit :=
  m ← pget;
  _ ← err_if (buf_len <? off m + zlen bytes);
  _ ← write_at (off m) bytes;
  move_to (off m + zlen bytes).
Definition APPEND16 (buf_len x : Z) : parser message unit := append buf_len (htons x).
Definition APPEND32 (buf_len x : Z) : parser message unit := append buf_len (htonl x).

(** What one round of [dnsname_to_labels] ends with: the value it returns, or the
    offset after the last label. *)
Inductive labels_end : Type := Return (r : Z) | Break (j : Z).

Section builder.
Context (dup : list Z → Z → bool).

Definition add_label (use_table : bool) (start : list Z) (j : Z) : parser message unit :=
  m ← pget;
  if use_table then pset (Message (buf m) (off m) (dnslabel_table_add dup (table m) start j).2)
  else mret tt.

Fixpoint labels_loop (fuel : nat) (buf_len : Z) (use_table : bool) (j : Z) (name : list Z)
    : parser message labels_end :=
  match fuel with
  | O => fault
  | S fuel =>
      m ← pget;
      let ref := dnslabel_table_get_pos (table m) name in
      if use_table && (0 <=? ref) then
        if buf_len <? j + 2 then mret (Return (-2))
        else
          _ ← write_at j (htons (Z.lor ref 0xc000));
          mret (Return (j + 2))
      else
        let label := first_label name in
        if 63 <? zlen label then mret (Return (-1))
        else if buf_len <? j + zlen label + 1 then mret (Return (-2))
        else
          _ ← add_label use_table name j;
          _ ← write_at j [u8 (zlen label)];
          _ ← write_at (j + 1) label;
          let j := j + 1 + zlen label in
          match strchr name 46 with
          | Some n => labels_loop fuel buf_len use_table j (drop (S n) name)
          | None => mret (Break j)
          end
  end.

(** The final zero, unless the last label was empty. *)
Definition finish_labels (e : labels_end) : parser message Z :=
  match e with
  | Return r => mret r
  | Break j =>
      m ← pget;
      last ← (if j =? 0 then mret 1 else access (zget (buf m) (j - 1)));
      if negb (last =? 0) then _ ← write_at j [0]; mret (j + 1)
      else mret j
  end.

Definition dnsname_to_labels (buf_len j : Z) (name : list Z) (use_table : bool)
    : parser message Z :=
  if 255 <? zlen name then mret (-2)
  else
    e ← labels_loop (S (length name)) buf_len use_table j name;
    finish_labels e.

Definition evdns_request_len (name_len : Z) : Z := 96 + name_len + 2 + 4.

(** The name without the table of labels; its negative results are returned. *)
Definition build_query (name : list Z) (trans_id type class buf_len : Z) : parser message Z :=
  _ ← APPEND16 buf_len trans_id;
  _ ← APPEND16 buf_len 0x0100;
  _ ← APPEND16 buf_len 1;
  _ ← APPEND16 buf_len 0;
  _ ← APPEND16 buf_len 0;
  _ ← APPEND16 buf_len 0;
  m ← pget;
  j ← dnsname_to_labels buf_len (off m) name false;
  if j <? 0 then mret j
  else
    _ ← move_to j;
    _ ← APPEND16 buf_len type;
    _ ← APPEND16 buf_len class;
    m ← pget;
    mret (off m).

(** The space used, or a negative number, and the buffer; [None] when a write
    leaves the buffer. *)
Definition evdns_request_data_build (name : list Z) (trans_id type class : Z)
    (b : list Z) (buf_len : Z) : option (Z * list Z) :=
  match build_query name trans_id type class buf_len (Message b 0 []) with
  | Ret r m => Some (r, buf m)
  | Error m => Some (-1, buf m)
  | Fault => None
  end.

(** * Responses of a server port *)

Definition EVDNS_ANSWER_SECTION : Z := 0.
Definition EVDNS_AUTHORITY_SECTION : Z := 1.
Definition EVDNS_ADDITIONAL_SECTION : Z := 2.
Definition EVDNS_FLAGS_AA : Z := 0x400.
Definition EVDNS_FLAGS_RD : Z := 0x080.

Definition set_answer (l : list server_reply_item) (r : server_request) : server_request :=
  ServerRequest (trans_id r) (flags r) (questions r) l (authority r) (additional r) (response r).
Definition set_authority (l : list server_reply_item) (r : server_request) : server_request :=
  ServerRequest (trans_id r) (flags r) (questions r) (answer r) l (additional r) (response r).
Definition set_additional (l : list server_reply_item) (r : server_request) : server_request :=
  ServerRequest (trans_id r) (flags r) (questions r) (answer r) (authority r) l (response r).
Definition set_response (p : option (list Z)) (r : server_request) : server_request :=
  ServerRequest (trans_id r) (flags r) (questions r) (answer r) (authority r) (additional r) p.

(** [alloc]: whether the allocations of the item, its name and its data succeed. *)
Definition evdns_server_request_add_reply (alloc : bool * bool * bool) (req : server_request)
    (section : Z) (name : list Z) (type class ttl datalen : Z) (is_name : bool)
    (data : option (list Z)) : Z * server_request :=
  let '(item_ok, name_ok, data_ok) := alloc in
  if bool_decide (is_Some (response req)) then (-1, req)
  else if negb ((0 <=? section) && (section <=? 2)) then (-1, req)
  else if negb item_ok || negb name_ok then (-1, req)
  else if bool_decide (is_Some data) && (negb data_ok || negb is_name && (datalen =? 0)) then (-1, req)
  else
    let item := Item name (u16 type) (u16 class) (u32 ttl) is_name
      (match data with
       | None => 0
       | Some _ => if is_name then u16 (-1) else u16 datalen
       end)
      (if is_name then data else ztake datalen <$> data) in
    (0, if section =? EVDNS_ANSWER_SECTION then set_answer (answer req ++ [item]) req
        else if section =? EVDNS_AUTHORITY_SECTION then set_authority (authority req ++ [item]) req
        else set_additional (additional req ++ [item]) req).

Definition evdns_server_request_add_a_reply alloc (req : server_request) (name : list Z) (n : Z)
    (addrs : list Z) (ttl : Z) : Z * server_request :=
  evdns_server_request_add_reply alloc req EVDNS_ANSWER_SECTION name EVDNS_TYPE_A
    EVDNS_CLASS_INET ttl (n * 4) false (Some addrs).
Definition evdns_server_request_add_aaaa_reply alloc (req : server_request) (name : list Z) (n : Z)
    (addrs : list Z) (ttl : Z) : Z * server_request :=
  evdns_server_request_add_reply alloc req EVDNS_ANSWER_SECTION name EVDNS_TYPE_AAAA
    EVDNS_CLASS_INET ttl (n * 16) false (Some addrs).
Definition evdns_server_request_add_cname_reply alloc (req : server_request)
    (name cname : list Z) (ttl : Z) : Z * server_request :=
  evdns_server_request_add_reply alloc req EVDNS_ANSWER_SECTION name TYPE_CNAME
    EVDNS_CLASS_INET ttl (-1) true (Some cname).

Definition evdns_server_request_set_flags (req : server_request) (fl : Z) : server_request :=
  ServerRequest (trans_id req)
    (Z.lor (Z.land (flags req) (Z.lnot (Z.lor EVDNS_FLAGS_AA EVDNS_FLAGS_RD))) fl)
    (questions req) (answer req) (authority req) (additional req) (response req).

Section format.
Context (buf_len : Z).

(** A name at the current offset; a negative result is an overflow. *)
Definition add_name (name : list Z) : parser message unit :=
  m ← pget;
  r ← dnsname_to_labels buf_len (off m) name true;
  _ ← err_if (r <? 0);
  move_to r.

(** The questions; a name that cannot be written ends the function with its
    result. *)
Fixpoint format_questions (qs : list question) : parser message (option Z) :=
  match qs with
  | [] => mret None
  | q :: qs =>
      m ← pget;
      j ← dnsname_to_labels buf_len (off m) (q_name q) true;
      if j <? 0 then mret (Some j)
      else
        _ ← move_to j;
        _ ← APPEND16 buf_len (q_type q);
        _ ← APPEND16 buf_len (dns_question_class q);
        format_questions qs
  end.

(** [strlen(NULL)] is an access outside any object. *)
Definition format_data (item : server_reply_item) : parser message unit :=
  if is_name item then
    m ← pget;
    let len_idx := off m in
    _ ← move_to (len_idx + 2);
    name ← access (data item);
    _ ← add_name name;
    m ← pget;
    write_at len_idx (htons (swrap 16 (off m - (len_idx + 2))))
  else
    _ ← APPEND16 buf_len (datalen item);
    m ← pget;
    _ ← err_if (buf_len <? off m + datalen item);
    bytes ← (if datalen item =? 0 then mret []
             else d ← access (data item); access (mem_read d 0 (datalen item)));
    _ ← write_at (off m) bytes;
    move_to (off m + datalen item).

(** One record. *)
Definition format_item (item : server_reply_item) : parser message unit :=
  _ ← add_name (item_name item);
  _ ← APPEND16 buf_len (item_type item);
  _ ← APPEND16 buf_len (item_class item);
  _ ← APPEND32 buf_len (item_ttl item);
  format_data item.

Fixpoint format_items (items : list server_reply_item) : parser message unit :=
  match items with
  | [] => mret tt
  | item :: items => _ ← format_item item; format_items items
  end.

Definition format_message (req : server_request) (fl : Z) : parser message (option Z) :=
  _ ← APPEND16 buf_len (trans_id req);
  _ ← APPEND16 buf_len fl;
  _ ← APPEND16 buf_len (zlen (questions req));
  _ ← APPEND16 buf_len (zlen (answer req));
  _ ← APPEND16 buf_len (zlen (authority req));
  _ ← APPEND16 buf_len (zlen (additional req));
  bad ← format_questions (questions req);
  match bad with
  | Some r => mret (Some r)
  | None =>
      _ ← format_items (answer req);
      _ ← format_items (authority req);
      _ ← format_items (additional req);
      mret None
  end.
End format.

(** [stack] is the content of the local buffer when the function is entered;
    [malloc_ok] tells whether the response can be allocated. *)
Definition server_request_free_answers (req : server_request) : server_request :=
  set_answer [] (set_authority [] (set_additional [] req)).

Definition evdns_server_request_format_response (stack : list Z) (malloc_ok : bool)
    (req : server_request) (error : Z) : option (Z * server_request) :=
  if (error <? 0) || (15 <? error) then Some (-1, req)
  else
    let fl := u16 (Z.lor (u16 (flags req)) (Z.lor _QR_MASK error)) in
    let respond (b : list Z) (j : Z) :=
      let req := server_request_free_answers req in
      if malloc_ok then
        r ← mem_read b 0 j; mret (0, set_response (Some r) req)
      else mret (-1, req) in
    let truncate (b : list Z) :=
      x ← zget b 2; b ← zset b 2 (Z.lor x 0x02); respond b 512 in
    match format_message 1500 req fl (Message stack 0 []) with
    | Fault => None
    | Error m => truncate (buf m)
    | Ret (Some r) _ => Some (r, req)
    | Ret None m => if 512 <? off m then truncate (buf m) else respond (buf m) (off m)
    end.
End builder.
