(* ===== verification/Dns.v ===== *)
(** * DNS messages: the grammar of names and the safety of the parsers

    [name_at] is the compressed form of a name as a grammar: labels, pointers and
    the final zero.  [name_parse] accepts exactly the names of the grammar that
    fit the buffer of the caller ([name_parse_spec]): it follows at most as many
    pointers as the packet has bytes, and a name that needs more does not exist
    ([name_at_pointers]).  The parsers of replies and requests stay inside the
    packet and inside their buffers for any bytes. *)
From S2P Require Import Prelude Outcome Evutil DnsDefs.

(** * Bytes *)

Lemma top_bits (b : Z) : byte b → has b 0xc0 = (64 <=? b).
Proof.
  intros Hb. apply eqb_prop. by apply (byte_cases (λ b, eqb (has b 0xc0) (64 <=? b)) b).
Qed.

Lemma pointer_target hi lo :
  byte hi → byte lo →
  0 <= Z.shiftl (Z.land hi 0x3f) 8 + lo < 2 ^ 14.
Proof.
  intros Hhi Hlo. rewrite Z.shiftl_mul_pow2 by lia.
  assert (Hb : (Z.land hi 63 <? 64) && (0 <=? Z.land hi 63) = true)
    by by apply (byte_cases (λ b, (Z.land b 63 <? 64) && (0 <=? Z.land b 63))).
  apply andb_prop in Hb as [?%Z.ltb_lt ?%Z.leb_le]. unfold byte in Hlo. lia.
Qed.

Lemma zget_byte p i b : Forall byte p → zget p i = Some b → byte b.
Proof.
  intros Hp. unfold zget. destruct (i <? 0); [done|]. intros H.
  by eapply Forall_lookup_1.
Qed.

Lemma mem_read_bytes p i n l : Forall byte p → mem_read p i n = Some l → Forall byte l.
Proof.
  unfold mem_read. intros Hp. destruct (_ && _); intros [= <-].
  by apply Forall_take, Forall_drop.
Qed.

Lemma mem_read_len (p : list Z) i n l : mem_read p i n = Some l → zlen l = n.
Proof.
  unfold mem_read. destruct ((0 <=? i) && (0 <=? n) && (i + n <=? zlen p)) eqn:E; intros [= <-].
  apply andb_prop in E as [E ?%Z.leb_le]. apply andb_prop in E as [?%Z.leb_le ?%Z.leb_le].
  rewrite zlen_ztake; rewrite ?zlen_zdrop; lia.
Qed.

(** * Reading *)

Section reading.
Context (p : list Z) (len : Z) (Hlen : len <= zlen p).
Implicit Types (E : cursor → Prop).

Lemma pwp_tell (Q : Z → cursor → Prop) E c : Q (pos c) c → pwp tell Q E c.
Proof. done. Qed.
Lemma pwp_seek j (Q : unit → cursor → Prop) E c : Q tt (Cursor j (cname c)) → pwp (seek j) Q E c.
Proof. done. Qed.

Lemma pwp_GET8 (Q : Z → cursor → Prop) E c :
  0 <= pos c → (len <= pos c → E c) →
  (∀ x, pos c < len → zget p (pos c) = Some x → Q x (Cursor (pos c + 1) (cname c))) →
  pwp (GET8 p len) Q E c.
Proof.
  intros Hj HE HQ. unfold GET8. pwp_step. apply pwp_tell. do 2 pwp_step.
  - apply HE; lia.
  - destruct (zget_in_range p (pos c)) as [x Hx]; [lia|].
    pwp_step. eapply pwp_access; [done|]. pwp_step. apply pwp_seek. pwp_step. apply HQ; [lia|done].
Qed.

Lemma pwp_GETN n (Q : list Z → cursor → Prop) E c :
  0 <= pos c → 0 <= n → (len < pos c + n → E c) →
  (∀ l, pos c + n <= len → mem_read p (pos c) n = Some l → Q l (Cursor (pos c + n) (cname c))) →
  pwp (GETN p len n) Q E c.
Proof.
  intros Hj Hn HE HQ. unfold GETN. pwp_step. apply pwp_tell. do 2 pwp_step.
  - apply HE; lia.
  - pwp_step. eapply pwp_access; [apply mem_read_ok; lia|].
    pwp_step. apply pwp_seek. pwp_step. apply HQ; [lia|apply mem_read_ok; lia].
Qed.
End reading.

(** * The grammar of names *)

(** Two reads at the same place give the same result. *)
Ltac same_bytes :=
  repeat match goal with
  | H1 : zget ?p ?j = Some ?x, H2 : zget ?p ?j = Some ?y |- _ =>
      assert (x = y) by congruence; clear H2; subst
  | H1 : mem_read ?p ?j ?n = Some ?x, H2 : mem_read ?p ?j ?n = Some ?y |- _ =>
      assert (x = y) by congruence; clear H2; subst
  end.

Section grammar.
Context (p : list Z) (len : Z).

(** At [j] there is a name with these labels, found through [k] pointers; its
    representation at [j] ends before [e]. *)
Inductive name_at : nat → Z → list (list Z) → Z → Prop :=
  | name_end j :
      j < len → zget p j = Some 0 → name_at 0 j [] (j + 1)
  | name_label k j n l ls e :
      j < len → zget p j = Some n → 0 < n < 64 →
      j + 1 + n <= len → mem_read p (j + 1) n = Some l →
      name_at k (j + 1 + n) ls e →
      name_at k j (l :: ls) e
  | name_pointer k j hi lo t ls e :
      j + 1 < len → zget p j = Some hi → 64 <= hi → zget p (j + 1) = Some lo →
      t = Z.shiftl (Z.land hi 0x3f) 8 + lo → 0 <= t < len →
      name_at k t ls e →
      name_at (S k) j ls (j + 2).

Lemma name_at_det k j ls e :
  name_at k j ls e → ∀ k' ls' e', name_at k' j ls' e' → k = k' ∧ ls = ls' ∧ e = e'.
Proof.
  induction 1 as [j Hj H0|k j n l ls e Hj Hn Hr Hf Hl _ IH|k j hi lo t ls e Hj Hhi Hb Hlo Ht Hr _ IH];
    intros k' ls' e' H'; inversion H' as [? ? G0|? ? n' l' ? ? ? G0 ? ? G1 G2
      |? ? hi' lo' t' ? ? ? G0 ? G1 G2 ? G3]; subst;
    same_bytes; try lia; try done.
  - destruct (IH _ _ _ G2) as (->&->&->). done.
  - destruct (IH _ _ _ G3) as (->&->&->). done.
Qed.

Lemma name_at_range k j ls e : name_at k j ls e → 0 <= j < len ∧ j < e.
Proof.
  induction 1 as [j Hj H0|k j n l ls e Hj Hn Hr Hf Hl _ IH|k j hi lo t ls e Hj Hhi Hb Hlo Ht Hr _ IH];
    match goal with H : zget p j = Some _ |- _ => apply zget_Some_range in H end; lia.
Qed.

(** The offsets of the pointers followed are distinct. *)
Lemma name_at_visited k j ls e :
  name_at k j ls e →
  ∃ v : list Z, length v = k ∧ NoDup v ∧
    ∀ x, x ∈ v → 0 <= x < len ∧ ∃ k' ls' e', (k' <= k)%nat ∧ name_at k' x ls' e'.
Proof.
  induction 1 as [j Hj H0|k j n l ls e Hj Hn Hr Hf Hl H IH|k j hi lo t ls e Hj Hhi Hb Hlo Ht Hr H IH].
  - exists []. split; [done|]. split; [constructor|]. intros x Hx. by apply elem_of_nil in Hx.
  - done.
  - destruct IH as (v&Hv&Hnd&Hin).
    assert (Hp : name_at (S k) j ls (j + 2)) by (eapply name_pointer; eauto).
    exists (j :: v). split; [simpl; lia|]. split.
    + constructor; [|done]. intros (_&k'&ls'&e'&Hk&Hx)%Hin.
      destruct (name_at_det _ _ _ _ Hp _ _ _ Hx). lia.
    + intros x [->|Hx]%elem_of_cons.
      * apply name_at_range in Hp as ?. split; [lia|]. by exists (S k), ls, (j + 2).
      * destruct (Hin x Hx) as (?&k'&ls'&e'&?&?). split; [done|].
        exists k', ls', e'. split; [lia|done].
Qed.

Lemma distinct_bounded (v : list Z) (n : Z) :
  NoDup v → (∀ x, x ∈ v → 0 <= x < n) → zlen v <= Z.max 0 n.
Proof.
  intros Hnd Hin. unfold zlen.
  assert (Hs : v ⊆ (Z.of_nat <$> seq 0 (Z.to_nat n))).
  { intros x Hx. apply list_elem_of_fmap. exists (Z.to_nat x).
    specialize (Hin x Hx). split; [lia|]. apply elem_of_seq. lia. }
  apply NoDup_submseteq in Hs; [|done]. apply submseteq_length in Hs.
  rewrite length_fmap, length_seq in Hs. lia.
Qed.

Lemma name_at_pointers k j ls e : name_at k j ls e → Z.of_nat k <= len.
Proof.
  intros H. destruct (name_at_visited _ _ _ _ H) as (v&<-&Hnd&Hin).
  apply name_at_range in H.
  pose proof (distinct_bounded v len Hnd (λ x Hx, proj1 (Hin x Hx))). unfold zlen in *. lia.
Qed.
End grammar.

(** * Names as strings *)

(** A label is put after a dot unless it is the first. *)
Definition dot (acc : list Z) : list Z := match acc with [] => [] | _ => [46] end.
Definition add_dotted (acc l : list Z) : list Z := acc ++ dot acc ++ l.
Definition dotted_from (acc : list Z) (ls : list (list Z)) : list Z := foldl add_dotted acc ls.
Definition dotted (ls : list (list Z)) : list Z := dotted_from [] ls.

Lemma dotted_from_len acc ls : zlen acc <= zlen (dotted_from acc ls).
Proof.
  revert acc. induction ls as [|l ls IH]; intros acc; simpl; [lia|].
  specialize (IH (add_dotted acc l)). unfold add_dotted in *. rewrite !zlen_app in IH.
  pose_len_nonneg. lia.
Qed.

Lemma memcpy_at_end (acc rest src : list Z) :
  zlen src <= zlen rest →
  memcpy_at (acc ++ rest) (zlen acc) src = Some (acc ++ src ++ zdrop (zlen src) rest).
Proof.
  intros. pose_len_nonneg. rewrite memcpy_at_ok by (rewrite ?zlen_app; lia).
  rewrite ztake_app_le by lia. rewrite ztake_all by lia.
  rewrite zdrop_app_ge by lia. do 4 f_equal. lia.
Qed.

(** * The loop of [name_parse] *)

Section name_loop.
Context (p : list Z) (len : Z) (Hlen : len <= zlen p) (Hp : Forall byte p).
Context (nol : Z).

(** Errors leave the caller's object alone and mean that no name fits. *)
Definition no_name (pc j : Z) (acc : list Z) (a : option (list Z)) (c : cursor) : Prop :=
  cname c = a ∧
  ∀ k ls e, name_at p len k j ls e → pc + Z.of_nat k <= len → nol <= zlen (dotted_from acc ls).

Definition parsed_name (pc ne j : Z) (acc rest : list Z) (a : option (list Z))
    (r : Z * Z * list Z) (c : cursor) : Prop :=
  let '(ne', cp', out') := r in
  ∃ k ls e, name_at p len k j ls e ∧
    cp' = zlen (dotted_from acc ls) ∧
    out' = dotted_from acc ls ++ zdrop (zlen (dotted_from acc ls) - zlen acc) rest ∧
    cname c = a ∧
    (k = O ∧ ne' = ne ∧ pos c = e ∨ (0 < k)%nat ∧ ne' = if ne <? 0 then e else ne).

Lemma no_name_pointer pc j hi lo t acc a c :
  j + 1 < len → zget p j = Some hi → 64 <= hi → zget p (j + 1) = Some lo →
  t = Z.shiftl (Z.land hi 0x3f) 8 + lo →
  (∀ k ls e, name_at p len k t ls e → 0 <= t < len → pc + Z.of_nat (S k) <= len →
     nol <= zlen (dotted_from acc ls)) →
  cname c = a → no_name pc j acc a c.
Proof.
  intros Hj Hhi Hb Hlo Ht Hno Ha. split; [done|]. intros k ls e Hk Hpc.
  inversion Hk as [? ? G0|? ? n' l' ? ? ? G0 G G1 G2|k' ? hi' lo' t' ? ? ? G0 ? G1 G2 ? G3]; subst;
    same_bytes; try lia; eauto.
Qed.

Lemma no_name_label pc j n acc a c :
  zget p j = Some n → 0 < n < 64 →
  (∀ k l ls e, j + 1 + n <= len → mem_read p (j + 1) n = Some l →
     name_at p len k (j + 1 + n) ls e → pc + Z.of_nat k <= len →
     nol <= zlen (dotted_from (add_dotted acc l) ls)) →
  cname c = a → no_name pc j acc a c.
Proof.
  intros Hn Hr Hno Ha. split; [done|]. intros k ls e Hk Hpc.
  inversion Hk as [? ? G0|? ? n' l' ? ? ? G0 G G1 G2|k' ? hi' lo' t' ? ? ? G0 ? G1 G2 ? G3]; subst;
    same_bytes; try lia. simpl. eauto.
Qed.
(** The dot before a label. *)
Lemma pwp_dot acc rest (Q : Z * list Z → cursor → Prop) (E : cursor → Prop) c :
  nol <= zlen acc + zlen rest →
  (nol <= zlen (acc ++ dot acc) → acc <> [] → E c) →
  (zlen (dot acc) <= zlen rest ∨ acc = [] →
   Q (zlen (acc ++ dot acc), (acc ++ dot acc) ++ zdrop (zlen (dot acc)) rest) c) →
  pwp (if negb (zlen acc =? 0) then
         _ ← err_if (nol <=? zlen acc + 1);
         name_out ← access (memcpy_at (acc ++ rest) (zlen acc) [46]);
         mret (zlen acc + 1, name_out)
       else mret (zlen acc, acc ++ rest)) Q E c.
Proof.
  intros Hr HE HQ. destruct acc as [|x acc]; [by apply HQ; right|].
  remember (x :: acc) as acc' eqn:Hacc. assert (Hd : dot acc' = [46]) by by subst.
  assert (H1 : zlen [46] = 1) by done. rewrite Hd in *. rewrite zlen_app in *.
  replace (zlen acc' =? 0) with false by (subst; rewrite zlen_cons; pose_len_nonneg; symmetry; lia).
  simpl negb. cbv iota. pwp_step. pwp_step; [apply HE; [lia|by subst]|].
  pwp_step. eapply pwp_access; [apply memcpy_at_end; lia|]. pwp_step.
  rewrite <- H1, app_assoc. apply HQ. lia.
Qed.

(** The bytes of a label. *)
Lemma pwp_label_bytes {A} (K : Z → list Z → parser cursor A) (acc rest : list Z) (n : Z)
    (Q : A → cursor → Prop) (E : cursor → Prop) c :
  0 <= n → 0 <= pos c → nol <= zlen acc + zlen rest →
  (nol <= zlen acc + n → E c) →
  (len < pos c + n → E c) →
  (∀ l, pos c + n <= len → mem_read p (pos c) n = Some l → zlen acc + n < nol →
     pwp (K (zlen (acc ++ l)) ((acc ++ l) ++ zdrop n rest)) Q E
       (Cursor (pos c + n) (cname c))) →
  pwp (_ ← err_if (nol <=? zlen acc + n);
       j ← tell;
       _ ← err_if (len <? j + n);
       label ← access (mem_read p j n);
       name_out ← access (memcpy_at (acc ++ rest) (zlen acc) label);
       _ ← seek (j + n);
       K (zlen acc + n) name_out) Q E c.
Proof.
  intros Hn Hj Hr HE1 HE2 HK. pwp_step. pwp_step; [apply HE1; lia|].
  pwp_step. apply pwp_tell. pwp_step. pwp_step; [apply HE2; lia|].
  destruct (mem_read p (pos c) n) as [l|] eqn:Hl; [|by rewrite mem_read_ok in Hl by lia].
  pose proof (mem_read_len _ _ _ _ Hl) as Hll.
  pwp_step. eapply pwp_access; [done|]. pwp_step.
  eapply pwp_access; [apply memcpy_at_end; lia|]. pwp_step. apply pwp_seek.
  rewrite app_assoc, <- Hll, <- zlen_app. rewrite Hll. apply HK; [lia|done|lia].
Qed.

Lemma name_loop_spec fuel : ∀ ne pc acc rest j a,
  0 <= j → nol <= zlen acc + zlen rest → 0 <= pc →
  Z.max 0 (len - pc) + Z.max 0 (nol - zlen acc) < Z.of_nat fuel →
  pwp (name_loop fuel p len nol ne pc (zlen acc) (acc ++ rest))
    (parsed_name pc ne j acc rest a) (no_name pc j acc a) (Cursor j a).
Proof.
  induction fuel as [|fuel IH]; intros ne pc acc rest j a Hj Hr Hpc Hf; [lia|]. simpl name_loop.
  pwp_step. apply (pwp_GET8 _ _ Hlen); simpl; [done|intros; split; [done|]|].
  { intros k ls e Hk _. apply name_at_range in Hk. lia. }
  intros n Hjl Hn. pose proof (zget_byte _ _ _ Hp Hn) as Hb. rewrite top_bits by done. pwp_step.
  { pwp_step. exists O, [], (j + 1). replace n with 0 in * by lia.
    split; [by constructor|]. unfold dotted_from. simpl. rewrite Z.sub_diag, zdrop_0. auto 10. }
  pwp_step.
  - pwp_step. apply (pwp_GET8 _ _ Hlen); simpl; [lia|intros; split; [done|]|].
    { intros k ls e Hk _. inversion Hk; subst; same_bytes; lia. }
    intros lo Hjl' Hlo. pose proof (zget_byte _ _ _ Hp Hlo) as Hb'.
    pwp_step. apply pwp_tell. simpl.
    pose proof (pointer_target n lo Hb Hb') as Ht.
    set (t := Z.shiftl (Z.land n 63) 8 + lo) in *.
    assert (Hno : ∀ c, cname c = a → (∀ k ls e, name_at p len k t ls e → 0 <= t < len →
      pc + Z.of_nat (S k) <= len → nol <= zlen (dotted_from acc ls)) → no_name pc j acc a c).
    { intros c Hc HH. eapply no_name_pointer; eauto; lia. }
    pwp_step. pwp_step; [apply Hno; [done|lia]|].
    pwp_step. pwp_step; [apply Hno; [done|lia]|].
    pwp_step. apply pwp_seek. simpl.
    eapply pwp_mono; [apply IH; lia|..].
    + intros [[ne' cp'] out'] c' (k&ls&e&Hk&->&->&Hc&Hne).
      exists (S k), ls, (j + 2). split; [eapply name_pointer; eauto; lia|].
      do 3 (split; [done|]). right. split; [lia|].
      replace (j + 1 + 1) with (j + 2) in Hne by lia.
      destruct Hne as [(_&->&_)|(_&->)]; repeat zcase; lia.
    + intros c' [Hc HH]. apply Hno; [done|]. intros k ls e Hk _ ?. apply (HH k ls e); [done|lia].
  - unfold byte in Hb. pwp_step. pwp_step; [lia|]. pwp_step.
    assert (Hno : ∀ c, cname c = a → (∀ k l ls e, j + 1 + n <= len →
      mem_read p (j + 1) n = Some l → name_at p len k (j + 1 + n) ls e → pc + Z.of_nat k <= len →
      nol <= zlen (dotted_from (add_dotted acc l) ls)) → no_name pc j acc a c).
    { intros c Hc HH. eapply no_name_label; eauto; lia. }
    assert (Hlong : ∀ l ls, zlen l = n → nol <= zlen (acc ++ dot acc) + n →
      nol <= zlen (dotted_from (add_dotted acc l) ls)).
    { intros l ls Hl ?. pose proof (dotted_from_len (add_dotted acc l) ls).
      unfold add_dotted in *. rewrite !zlen_app in *. lia. }
    apply pwp_dot; [done|intros; apply Hno; [done|]|].
    { intros k l ls e _ Hl _ _. apply mem_read_len in Hl. apply Hlong; [done|lia]. }
    intros Hd. apply pwp_label_bytes; simpl; [lia..| | | |].
    + destruct Hd as [Hd| ->]; [|simpl; rewrite zdrop_0; done].
      rewrite zlen_app, zlen_zdrop by (pose_len_nonneg; lia). lia.
    + intros; apply Hno; [done|]. intros k l ls e _ Hl _ _. apply mem_read_len in Hl.
      by apply Hlong.
    + intros; apply Hno; [done|]. lia.
    + intros l Hfit Hl Hroom. pose proof (mem_read_len _ _ _ _ Hl) as Hll.
      rewrite <- app_assoc. fold (add_dotted acc l).
      assert (Hal : zlen (add_dotted acc l) = zlen acc + zlen (dot acc) + n).
      { unfold add_dotted. rewrite !zlen_app. lia. }
      rewrite zlen_app in Hroom. pose proof (zlen_nonneg (dot acc)).
      rewrite zdrop_zdrop by lia.
      eapply pwp_mono; [apply IH; [lia| |lia|lia]|..].
      * destruct Hd as [Hd| ->]; [|simpl in *].
        -- destruct (Z.leb_spec (zlen (dot acc) + n) (zlen rest)); [rewrite zlen_zdrop by lia; lia|].
           pose proof (zlen_nonneg (zdrop (zlen (dot acc) + n) rest)). lia.
        -- rewrite zlen_nil in *. destruct (Z.leb_spec n (zlen rest)).
           ++ rewrite zlen_zdrop by lia. lia.
           ++ lia.
      * intros [[ne' cp'] out'] c' (k&ls&e&Hk&->&->&Hc&Hne).
        exists k, (l :: ls), e. split; [eapply name_label; eauto; lia|]. split; [done|].
        split; [|done]. simpl. f_equal.
        pose proof (dotted_from_len (add_dotted acc l) ls).
        rewrite zdrop_zdrop by lia. f_equal. lia.
      * intros c' [Hc HH]. apply Hno; [done|]. intros k l' ls e _ Hl' Hk Hk'.
        same_bytes. by eapply HH.
Qed.
End name_loop.

(** * [name_parse] *)

(** There is a name with labels [ls] at [j], represented before [e]. *)
Definition name_in (p : list Z) (len j : Z) (ls : list (list Z)) (e : Z) : Prop :=
  ∃ k, name_at p len k j ls e.

Lemma name_in_det p len j ls e ls' e' :
  name_in p len j ls e → name_in p len j ls' e' → ls = ls' ∧ e = e'.
Proof. intros [k Hk] [k' Hk']. by destruct (name_at_det _ _ _ _ _ _ Hk _ _ _ Hk') as (_&->&->). Qed.

Lemma name_parse_spec p len out nol j a :
  len <= zlen p → Forall byte p → nol <= zlen out → 0 <= j →
  pwp (name_parse p len out nol)
    (λ out' c, ∃ ls e, name_in p len j ls e ∧ zlen (dotted ls) < nol ∧
       out' = dotted ls ++ 0 :: zdrop (zlen (dotted ls) + 1) out ∧ c = Cursor e a)
    (λ c, cname c = a ∧ ∀ ls e, name_in p len j ls e → nol <= zlen (dotted ls))
    (Cursor j a).
Proof.
  intros Hlen Hp Hout Hj. unfold name_parse. pwp_step.
  pose proof (name_loop_spec p len Hlen Hp nol (name_fuel len nol) (-1) 0 [] out j a) as H.
  change (zlen []) with 0 in H. simpl app in H.
  eapply pwp_mono; [apply H; unfold name_fuel; lia|..].
  - intros [[ne cp] out'] c (k&ls&e&Hk&->&->&Hc&Hne). fold (dotted ls) in *.
    rewrite Z.sub_0_r. pwp_step. pwp_step.
    { split; [done|]. intros ls' e' [k' Hk'].
      destruct (name_at_det _ _ _ _ _ _ Hk _ _ _ Hk') as (_&<-&_). lia. }
    pwp_step. pose proof (zlen_nonneg (dotted ls)).
    eapply pwp_access; [apply memcpy_at_end; rewrite zlen_zdrop by lia; change (zlen [0]) with 1; lia|].
    pwp_step. change (zlen [0]) with 1. rewrite zdrop_zdrop by lia.
    assert (He : 0 <= e) by (apply name_at_range in Hk; lia).
    apply pwp_if; intros Hs; [pwp_step|apply pwp_seek]; pwp_step; exists ls, e;
      (split; [by exists k|]; split; [lia|]; split; [done|]); destruct c as [j' a']; simpl in *;
      destruct Hne as [(->&->&->)|(?&->)]; subst; done || lia.
  - intros c [Hc HH]. split; [done|]. intros ls e [k Hk]. apply (HH k ls e Hk).
    apply name_at_pointers in Hk. lia.
Qed.

(** Enough for safety. *)
Lemma pwp_name_parse p len out nol (Q : list Z → cursor → Prop) (E : cursor → Prop) c :
  len <= zlen p → Forall byte p → nol <= zlen out → 0 <= pos c →
  (∀ c', cname c' = cname c → E c') →
  (∀ out' ls e, name_in p len (pos c) ls e → pos c < e → zlen out' = zlen out →
     Q out' (Cursor e (cname c))) →
  pwp (name_parse p len out nol) Q E c.
Proof.
  intros Hlen Hp Hout Hj HE HQ. destruct c as [j a]; simpl in *.
  eapply pwp_mono; [by apply name_parse_spec|..].
  - intros out' c (ls&e&Hk&Hfit&->&->). apply (HQ _ ls e); [done| |].
    + destruct Hk as [k Hk]. apply name_at_range in Hk. lia.
    + rewrite zlen_app, zlen_cons. pose proof (zlen_nonneg (dotted ls)).
      rewrite zlen_zdrop by lia. lia.
  - intros c [Hc _]. by apply HE.
Qed.

(** * Numbers in a packet *)

Lemma of_be_snoc l b : of_be (l ++ [b]) = of_be l * 256 + b.
Proof. unfold of_be. by rewrite foldl_app. Qed.

Lemma of_be_range l : Forall byte l → 0 <= of_be l < 256 ^ zlen l.
Proof.
  induction l as [|b l IH] using rev_ind; intros H; [done|].
  apply Forall_app in H as [Hl [Hb _]%Forall_cons]. specialize (IH Hl).
  rewrite of_be_snoc, zlen_app. change (zlen [b]) with 1. unfold byte in Hb.
  rewrite Z.pow_add_r by (pose_len_nonneg; lia). lia.
Qed.

Section numbers.
Context (p : list Z) (len : Z) (Hlen : len <= zlen p) (Hp : Forall byte p).

Lemma pwp_GET16 (Q : Z → cursor → Prop) (E : cursor → Prop) c :
  0 <= pos c → (len < pos c + 2 → E c) →
  (∀ x, 0 <= x < 2 ^ 16 → Q x (Cursor (pos c + 2) (cname c))) →
  pwp (GET16 p len) Q E c.
Proof.
  intros Hj HE HQ. unfold GET16. pwp_step. apply pwp_GETN; [done|lia..|done|].
  intros l _ Hl. pwp_step. apply HQ.
  pose proof (of_be_range l (mem_read_bytes _ _ _ _ Hp Hl)) as H.
  rewrite (mem_read_len _ _ _ _ Hl) in H. done.
Qed.

Lemma pwp_GET32 (Q : Z → cursor → Prop) (E : cursor → Prop) c :
  0 <= pos c → (len < pos c + 4 → E c) →
  (∀ x, 0 <= x < 2 ^ 32 → Q x (Cursor (pos c + 4) (cname c))) →
  pwp (GET32 p len) Q E c.
Proof.
  intros Hj HE HQ. unfold GET32. pwp_step. apply pwp_GETN; [done|lia..|done|].
  intros l _ Hl. pwp_step. apply HQ.
  pose proof (of_be_range l (mem_read_bytes _ _ _ _ Hp Hl)) as H.
  rewrite (mem_read_len _ _ _ _ Hl) in H. done.
Qed.

Lemma pwp_skip n (Q : unit → cursor → Prop) (E : cursor → Prop) c :
  Q tt (Cursor (pos c + n) (cname c)) → pwp (skip n) Q E c.
Proof. done. Qed.
End numbers.

(** * Parsing a reply never leaves a buffer *)

(** One step of a parser for which any error exit is acceptable: what remains is
    the effect on the position. *)
Ltac parse_step :=
  first
  [ pwp_step
  | apply pwp_GET16; simpl; [done|done|lia|done|let x := fresh "x" in let Hx := fresh "Hx" in intros x Hx]
  | apply pwp_GET32; simpl; [done|done|lia|done|let x := fresh "x" in let Hx := fresh "Hx" in intros x Hx]
  | apply pwp_skip; simpl
  | apply pwp_tell; simpl
  | apply pwp_seek; simpl ].

Section replies.
Context {RH : ReplyHost} (p : list Z) (len : Z) (Hlen : len <= zlen p) (Hp : Forall byte p).
Context (rand : bool) (req : request).
Context (Hreq : request_len req <= zlen (req_packet req)) (Hreqb : Forall byte (req_packet req)).

Definition address_size (type : Z) : Z := if type =? EVDNS_TYPE_AAAA then 16 else 4.

(** The room of the arrays in [struct reply]. *)
Definition reply_ok (type : Z) (r : reply) : Prop :=
  0 <= addrcount r <= 32 ∧ zlen (addresses r) = address_size type * 32 ∧
  zlen (ptr_name r) = HOST_NAME_MAX.

Lemma empty_reply_ok type : reply_ok type (empty_reply type).
Proof.
  unfold reply_ok, empty_reply, address_size. simpl. rewrite !zlen_zrepeat by (apply host_name_max_nonneg || by try destruct (_ =? _)).
  split; [lia|]. split; [|done]. by destruct (_ =? _).
Qed.

Lemma pwp_copy_addresses type datalength r (Q : reply → cursor → Prop) c :
  0 <= pos c → 0 <= datalength → reply_ok type r →
  (∀ r' j, reply_ok type r' → 0 <= j → have_answer r' = true → Q r' (Cursor j (cname c))) →
  pwp (copy_addresses p len (address_size type) 32 datalength r) Q (λ _, True) c.
Proof.
  intros Hj Hd (Hc&Ha&Hn) HQ. unfold copy_addresses.
  set (s := address_size type) in *.
  assert (Hs : 0 < s) by (unfold s, address_size; destruct (_ =? _); lia).
  rewrite (u32_small (32 - addrcount r)) by lia.
  assert (Hq : 0 <= datalength / s) by (apply Z.div_pos; lia).
  set (n := (32 - addrcount r) `min` (datalength / s)).
  assert (Hn' : 0 <= n <= 32 - addrcount r) by lia.
  do 2 parse_step. pwp_step. pwp_step; [done|]. pwp_step.
  destruct (mem_read p (pos c) (s * n)) as [l|] eqn:Hl.
  2: { rewrite mem_read_ok in Hl by nia. done. }
  pose proof (mem_read_len _ _ _ _ Hl) as Hll.
  eapply pwp_access; [done|]. pwp_step.
  destruct (memcpy_at (addresses r) (s * addrcount r) l) as [a|] eqn:Hcp.
  2: { rewrite memcpy_at_ok in Hcp by nia. done. }
  apply memcpy_at_len in Hcp. eapply pwp_access; [done|].
  do 3 parse_step. apply HQ; [|nia|done]. unfold reply_ok; simpl. split; [lia|]. by rewrite Hcp.
Qed.

Lemma cstr_zero l k : cstr (l ++ 0 :: k) = cstr l.
Proof. induction l as [|x l IH]; [done|]. simpl. by rewrite IH. Qed.

(** The reply repeats the name of the request at [j]. *)
Definition names_match (j : Z) : Prop :=
  ∃ ls e ls' e', name_in p len j ls e ∧
    name_in (req_packet req) (request_len req) j ls' e' ∧
    same_name rand (dotted ls) (dotted ls') = true.

Lemma pwp_question_loop n m c :
  0 <= pos c →
  pwp (question_loop p len rand n req m)
    (λ m' c', 0 <= pos c' ∧ cname c' = cname c ∧ (m' = true → m = true ∨ ∃ j, names_match j))
    (λ _, True) c.
Proof.
  revert m c. induction n as [|n IH]; intros m c Hj; simpl question_loop; [pwp_step; by auto|].
  do 2 parse_step. pwp_step. destruct c as [j a]; simpl in *.
  eapply pwp_mono; [by apply name_parse_spec|simpl|done].
  intros t c (ls&e&Hls&_&->&->). pwp_step.
  assert (He : 0 <= e) by (destruct Hls as [k Hk]; apply name_at_range in Hk; lia).
  unfold request_name, pwp at 1.
  assert (H256 : 256 <= zlen (zrepeat 0 256)) by (by rewrite zlen_zrepeat).
  pose proof (name_parse_spec (req_packet req) (request_len req) (zrepeat 0 256) 256 j None
    Hreq Hreqb H256 Hj) as H. unfold pwp in H.
  destruct (name_parse _ _ _ _ _) as [t' c'|c'|]; [|done|done].
  destruct H as (ls'&e'&Hls'&_&->&->).
  do 4 parse_step. pwp_step. pwp_step; [done|].
  eapply pwp_mono; [apply IH; simpl; lia|simpl|done].
  intros m' c' (Hj'&Ha&Hm). split; [done|]. split; [done|]. intros Hm'.
  destruct (Hm Hm') as [[Hm2|Hs]%orb_true_iff|Hex]; [by left| |by right].
  right. exists j, ls, e, ls', e'. split; [done|]. split; [done|].
  revert Hs. unfold same_name. by rewrite !cstr_zero.
Qed.

Lemma pwp_skip_name (Q : list Z → cursor → Prop) c :
  0 <= pos c → (∀ t e, pos c < e → Q t (Cursor e (cname c))) →
  pwp (SKIP_NAME p len) Q (λ _, True) c.
Proof.
  intros Hj HQ. apply pwp_name_parse; [done|done|by rewrite zlen_zrepeat|done|done|].
  intros t ls e _ He _. by apply HQ.
Qed.

Lemma address_record type size max datalength ttl ttl_r n r (Q : Z * reply → cursor → Prop) c :
  size = address_size type → max = 32 → 0 <= pos c → 0 <= datalength → 0 <= ttl_r <= UINT32_MAX → 0 <= ttl < 2 ^ 32 →
  reply_ok type r →
  (∀ r' j, 0 <= j → reply_ok type r' → Q (Z.min ttl_r ttl, r') (Cursor j (cname c))) →
  (∀ t r' j, 0 <= j → reply_ok type r' → 0 <= t <= UINT32_MAX →
     pwp (answer_loop p len n req t r') Q (λ _, True) (Cursor j (cname c))) →
  pwp (r ← copy_addresses p len size max datalength r;
       if addrcount r =? max then mret (Z.min ttl_r ttl, r)
       else answer_loop p len n req (Z.min ttl_r ttl) r) Q (λ _, True) c.
Proof.
  intros -> -> Hj Hd Ht Httl Hr HQ Hloop. pwp_step. apply pwp_copy_addresses; [done..|].
  intros r' j Hr' Hj' _. unfold UINT32_MAX in *.
  pwp_step; [pwp_step; by apply HQ|apply Hloop; [done|done|lia]].
Qed.

Lemma pwp_answer_loop n : ∀ ttl_r r c,
  0 <= pos c → reply_ok (request_type req) r → 0 <= ttl_r <= UINT32_MAX →
  pwp (answer_loop p len n req ttl_r r)
    (λ '(t, r') c', 0 <= pos c' ∧ reply_ok (request_type req) r' ∧ 0 <= t <= UINT32_MAX)
    (λ _, True) c.
Proof.
  induction n as [|n IH]; intros ttl_r r c Hj Hr Ht; simpl answer_loop; [by pwp_step|].
  assert (Hskip : ∀ d c, 0 <= pos c → 0 <= d →
    pwp (_ ← skip d; answer_loop p len n req ttl_r r)
      (λ '(t, r') c', 0 <= pos c' ∧ reply_ok (request_type req) r' ∧ 0 <= t <= UINT32_MAX)
      (λ _, True) c).
  { intros d c' Hc' Hd. do 2 parse_step. apply IH; [simpl; lia|done|done]. }
  pwp_step. apply pwp_skip_name; [done|]. intros _ e He.
  pwp_step. apply pwp_GET16; simpl; [done|done|lia|done|intros type Htype].
  pwp_step. apply pwp_GET16; simpl; [done|done|lia|done|intros class Hclass].
  pwp_step. apply pwp_GET32; simpl; [done|done|lia|done|intros ttl Httl].
  pwp_step. apply pwp_GET16; simpl; [done|done|lia|done|intros d Hd].
  assert (Haddr : ∀ size max, size = address_size (request_type req) → max = 32 → ∀ j, 0 <= j →
    pwp (r ← copy_addresses p len size max d r;
         if addrcount r =? max then mret (Z.min ttl_r ttl, r)
         else answer_loop p len n req (Z.min ttl_r ttl) r)
      (λ '(t, r') c', 0 <= pos c' ∧ reply_ok (request_type req) r' ∧ 0 <= t <= UINT32_MAX)
      (λ _, True) (Cursor j (cname c))).
  { intros size max Hs Hm j Hj'. apply (address_record (request_type req)); [done..|lia|done|done|done| |].
    - intros r' j' Hj'' Hr'. unfold UINT32_MAX in *. split; [done|]. split; [done|lia].
    - intros t r' j' Hj'' Hr' Ht'. by apply IH. }
  pwp_step; [|pwp_step; [|pwp_step; [|pwp_step]]].
  - pwp_step; [apply Hskip; simpl; lia|]. pwp_step. pwp_step; [done|].
    apply Haddr; [|done|lia]. by replace (request_type req) with EVDNS_TYPE_A by lia.
  - pwp_step; [apply Hskip; simpl; lia|]. pwp_step.
    apply pwp_name_parse; [done|done|by destruct Hr as (_&_&->)|simpl; lia|done|].
    intros t ls e' _ He' Ht'. simpl in *. pwp_step. destruct Hr as (Hc&Ha&Hn). simpl.
    unfold UINT32_MAX in *. split; [lia|]. split; [|lia]. unfold reply_ok. simpl.
    by rewrite Ht'.
  - do 2 pwp_step. pwp_step; [apply Hskip; simpl; lia|]. pwp_step.
    apply pwp_name_parse; [done|done|rewrite zlen_zrepeat by apply host_name_max_nonneg; done|simpl; lia|done|].
    intros t ls e' _ He' _. simpl in *. pwp_step. apply pwp_tell. do 2 pwp_step.
    apply IH; [simpl; lia|done|done].
  - pwp_step; [apply Hskip; simpl; lia|]. pwp_step. pwp_step; [done|].
    apply Haddr; [|done|lia]. by replace (request_type req) with EVDNS_TYPE_AAAA by lia.
  - apply Hskip; simpl; lia.
Qed.

Lemma pwp_authority_loop n : ∀ ttl_r c,
  0 <= pos c → 0 <= ttl_r <= UINT32_MAX →
  pwp (authority_loop p len n ttl_r) (λ t c', 0 <= t <= UINT32_MAX) (λ _, True) c.
Proof.
  induction n as [|n IH]; intros ttl_r c Hj Ht; simpl authority_loop; [by pwp_step|].
  unfold UINT32_MAX in *.
  pwp_step. apply pwp_skip_name; [done|]. intros _ e He.
  do 8 parse_step. pwp_step.
  - pwp_step. apply pwp_skip_name; [simpl; lia|]. intros _ e1 He1. simpl in He1.
    pwp_step. apply pwp_skip_name; [simpl; lia|]. intros _ e2 He2. simpl in He2.
    do 10 parse_step. apply IH; simpl; lia.
  - do 2 parse_step. apply IH; simpl; lia.
Qed.

(** A reply that is accepted repeats the name of the request, fits its arrays, and
    has a time to live of 32 bits. *)
Lemma pwp_reply_sections questions answers authority c :
  0 <= pos c →
  pwp (reply_sections p len rand req questions answers authority)
    (λ '(t, r) _, (∃ j, names_match j) ∧ reply_ok (request_type req) r ∧ 0 <= t <= UINT32_MAX)
    (λ _, True) c.
Proof.
  intros Hj. unfold reply_sections. pwp_step.
  eapply pwp_mono; [by apply pwp_question_loop| |done]. intros m c1 (Hj1&_&Hm).
  pwp_step. pwp_step; [done|]. pwp_step.
  eapply pwp_mono; [apply pwp_answer_loop; [done|apply empty_reply_ok|done]| |done].
  intros [t r] c2 (Hj2&Hr&Ht). pwp_step.
  assert (Hex : ∃ j, names_match j) by (destruct m; [by destruct Hm|done]).
  apply (pwp_mono _ (λ t' _, 0 <= t' <= UINT32_MAX) _ (λ _, True)); [|intros t' c3 Ht'|done].
  - pwp_step; [by apply pwp_authority_loop|by pwp_step].
  - pwp_step. split; [done|]. split; [done|]. by zcase.
Qed.

Lemma pwp_message_header (Q : Z * Z * Z * Z * Z * Z → cursor → Prop) c :
  0 <= pos c →
  (∀ t f q a u d, 0 <= t < 2 ^ 16 → 0 <= f < 2 ^ 16 → 0 <= q < 2 ^ 16 →
     Q (t, f, q, a, u, d) (Cursor (pos c + 12) (cname c))) →
  pwp (message_header p len) Q (λ _, True) c.
Proof.
  intros Hj HQ. unfold message_header. do 13 parse_step.
  replace (pos c + 12) with (pos c + 2 + 2 + 2 + 2 + 2 + 2) in HQ by lia. by apply HQ.
Qed.
End replies.
