(* ===== verification/DnsWrite.v ===== *)
(** * DNS messages: writing names

    [spells name ls]: the text [name] has the labels [ls], with or without a dot at
    the end.  [dnsname_to_labels] writes a representation of exactly these labels,
    whatever part of it is replaced by a pointer to a name written earlier
    ([dnsname_spec]); the table of names stays correct for the packet written so
    far. *)
From S2P Require Import Prelude Outcome Evutil DnsDefs Dns.

(** * Names as text *)

Definition good_label (l : list Z) : Prop :=
  0 < zlen l <= 63 ∧ Forall byte l ∧ (0 ∉ l) ∧ (46 ∉ l).

Inductive spells : list Z → list (list Z) → Prop :=
  | spells_root : spells [] []
  | spells_last l : good_label l → spells l [l]
  | spells_cons l name ls :
      good_label l → spells name ls → spells (l ++ 46 :: name) (l :: ls).

Lemma spells_det name ls ls' : spells name ls → spells name ls' → ls = ls'.
Proof.
  intros H. revert ls'. induction H as [|l Hl|l name ls Hl H IH]; intros ls' H'.
  - inversion H' as [|? Hl|l ? ? ? ? E]; subst; [done|by destruct Hl as [[]]|by destruct l].
  - inversion H' as [|l' Hl'|l' n' ls'' Hl' Hn]; subst; [by destruct Hl as [[]]|done|].
    destruct Hl as (_&_&_&Hl). set_solver.
  - inversion H' as [E|l' Hl' E|l' n' ls'' Hl' Hn E]; subst; [by destruct l| |].
    + destruct Hl' as (_&_&_&Hl'). set_solver.
    + assert (Hs : Some (length l') = Some (length l)).
      { destruct Hl as (_&_&_&?), Hl' as (_&_&_&?).
        rewrite <- (strchr_app l name 46), <- (strchr_app l' n' 46) by done. by rewrite E. }
      injection Hs as Hs. apply app_inj_1 in E as [-> [= ->]]; [|done]. f_equal. by apply IH.
Qed.

Lemma first_label_last l : 46 ∉ l → first_label l = l.
Proof. intros H. unfold first_label. by rewrite strchr_None. Qed.
Lemma first_label_cons l name : 46 ∉ l → first_label (l ++ 46 :: name) = l.
Proof. intros H. unfold first_label. rewrite strchr_app by done. by rewrite take_app_length. Qed.

(** * Packets only grow *)

Lemma zget_grow (p k : list Z) i x : zget p i = Some x → zget (p ++ k) i = Some x.
Proof. intros H. pose proof (zget_Some_range _ _ _ H). by rewrite zget_app_l by lia. Qed.

Lemma mem_read_prefix (p k : list Z) i n l :
  mem_read p i n = Some l → mem_read (p ++ k) i n = Some l.
Proof.
  unfold mem_read. intros H.
  destruct ((0 <=? i) && (0 <=? n) && (i + n <=? zlen p)) eqn:E; [|done].
  apply andb_prop in E as [E ?%Z.leb_le]. apply andb_prop in E as [?%Z.leb_le ?%Z.leb_le].
  rewrite zlen_app. pose_len_nonneg.
  replace ((0 <=? i) && (0 <=? n) && (i + n <=? zlen p + zlen k)) with true
    by (symmetry; rewrite !andb_true_iff, !Z.leb_le; lia).
  rewrite zdrop_app_le by lia. rewrite ztake_app_le by (rewrite zlen_zdrop; lia). done.
Qed.

Lemma name_in_grow p k len len' j ls e :
  len <= len' → name_in p len j ls e → name_in (p ++ k) len' j ls e.
Proof.
  intros Hl [n H]. exists n. induction H.
  - constructor; [lia|by apply zget_grow].
  - eapply name_label; eauto using zget_grow, mem_read_prefix; lia.
  - eapply name_pointer; eauto using zget_grow; lia.
Qed.

(** * The table of names *)

(** The entry stands for a name that is complete in the packet. *)
Definition entry_ok (p : list Z) (v : list Z) (pos : Z) : Prop :=
  0 <= pos < 2 ^ 14 ∧ ∀ ls, spells v ls → ∃ e, name_in p (zlen p) pos ls e.
Definition table_ok (n : Z) (p : list Z) (t : dnslabel_table) : Prop :=
  ∀ v pos, (v, pos) ∈ t → zlen v <= n → entry_ok p v pos.

Lemma entry_ok_grow p k v pos : entry_ok p v pos → entry_ok (p ++ k) v pos.
Proof.
  intros [Hr H]. split; [done|]. intros ls [e He]%H. exists e.
  eapply name_in_grow; [|done]. rewrite zlen_app. pose_len_nonneg. lia.
Qed.

Lemma get_pos_spec t v :
  dnslabel_table_get_pos t v = -1 ∨ (v, dnslabel_table_get_pos t v) ∈ t.
Proof.
  induction t as [|[w pos] t IH]; simpl; [by left|].
  case_bool_decide as H; [subst; right; by left|]. destruct IH; [by left|right; by right].
Qed.

Lemma table_add_spec dup t v pos x :
  x ∈ (dnslabel_table_add dup t v pos).2 → x ∈ t ∨ x = (v, pos).
Proof.
  unfold dnslabel_table_add. destruct (_ =? _); [by left|]. destruct (negb _); [by left|].
  simpl. intros [?|Hx%list_elem_of_singleton]%elem_of_app; auto.
Qed.

(** * Writing a name *)

Lemma write_at_end (pre rest bytes : list Z) o t (Q : unit → message → Prop) (E : message → Prop) :
  zlen bytes <= zlen rest →
  Q tt (Message (pre ++ bytes ++ zdrop (zlen bytes) rest) o t) →
  pwp (write_at (zlen pre) bytes) Q E (Message (pre ++ rest) o t).
Proof.
  intros Hr HQ. unfold write_at. do 2 pwp_step. pwp_step. simpl.
  eapply pwp_access; [by apply memcpy_at_end|]. by pwp_step.
Qed.

(** The bytes [enc] were written after [pre]: a representation of the labels; the
    entries added to the table are complete. *)
Definition named (pre rest : list Z) (o : Z) (t : dnslabel_table) (n : Z) (ls : list (list Z))
    (r : Z) (m : message) : Prop :=
  ∃ enc t', m = Message (pre ++ enc ++ zdrop (zlen enc) rest) o t' ∧
    r = zlen pre + zlen enc ∧ 0 < zlen enc <= n + 2 ∧ Forall byte enc ∧
    name_in (pre ++ enc) (zlen (pre ++ enc)) (zlen pre) ls r ∧
    ∀ v pos, (v, pos) ∈ t' → (v, pos) ∈ t ∨ entry_ok (pre ++ enc) v pos.

Lemma pointer_word pos : 0 <= pos < 2 ^ 14 → Z.lor pos 0xc000 = pos + 0xc000.
Proof.
  intros H. rewrite <- Z.add_lor_land.
  assert (H0 : Z.land pos 0xc000 = 0); [|lia].
  assert (Hp : Z.land pos (Z.ones 14) = pos) by (rewrite Z.land_ones by lia; by apply Z.mod_small).
  rewrite <- Hp, <- Z.land_assoc. change (Z.land (Z.ones 14) 49152) with 0. apply Z.land_0_r.
Qed.

Lemma named_pointer pre rest o t name ls pos :
  2 <= zlen rest → entry_ok pre name pos → spells name ls →
  let enc := htons (Z.lor pos 0xc000) in
  named pre rest o t (zlen name) ls (zlen pre + 2) (Message (pre ++ enc ++ zdrop 2 rest) o t).
Proof.
  intros Hr [Hpos He] Hs enc. exists enc, t. pose proof (zlen_nonneg name).
  assert (Hx : enc = [192 + pos / 256; pos mod 256]).
  { unfold enc, htons. rewrite pointer_word by done. rewrite u16_small by lia.
    f_equal; [lia|]. f_equal. lia. }
  assert (H2 : zlen enc = 2) by by rewrite Hx.
  rewrite H2. split; [done|]. split; [done|]. split; [lia|].
  split; [rewrite Hx; repeat constructor; lia|]. split; [|by auto].
  destruct (He ls Hs) as [e He'].
  destruct (name_in_grow pre enc (zlen pre) (zlen pre + 2) pos ls e) as [k Hk]; [lia|done|].
  pose proof (name_at_range _ _ _ _ _ _ Hk). exists (S k). rewrite zlen_app, H2.
  apply (name_pointer _ _ _ _ (192 + pos / 256) (pos mod 256) pos _ e); try lia.
  - rewrite zget_app_r, Z.sub_diag by lia. by rewrite Hx.
  - rewrite zget_app_r by lia. replace (zlen pre + 1 - zlen pre) with 1 by lia. by rewrite Hx.
  - rewrite Z.shiftl_mul_pow2 by lia.
    replace (Z.land (192 + pos / 256) 63) with (pos / 256); [lia|].
    change 63 with (Z.ones 6). rewrite Z.land_ones by lia. change (2 ^ 6) with 64. lia.
  - done.
Qed.

(** The final zero. *)
Lemma named_zero pre rest o t t1 n :
  1 <= zlen rest → -1 <= n → zlen pre < 2 ^ 14 →
  (∀ x, x ∈ t1 → x ∈ t ∨ x = ([], zlen pre)) →
  named pre rest o t n [] (zlen pre + 1) (Message (pre ++ [0] ++ zdrop 1 rest) o t1).
Proof.
  intros Hr Hn Hpos Ht. exists [0], t1. change (zlen [0]) with 1. split; [done|]. split; [done|].
  split; [lia|]. split; [by repeat constructor|]. pose proof (zlen_nonneg pre).
  assert (Hz : name_in (pre ++ [0]) (zlen (pre ++ [0])) (zlen pre) [] (zlen pre + 1)).
  { exists O. rewrite zlen_app. change (zlen [0]) with 1.
    constructor; [lia|]. rewrite zget_app_r, Z.sub_diag by lia. done. }
  split; [done|]. intros v pos [?|[= -> ->]]%Ht; [by left|right]. split; [lia|].
  intros ls Hs. rewrite <- (spells_det _ _ _ spells_root Hs). by eexists.
Qed.

(** A label in front of a name. *)
Lemma named_label pre rest o t t1 name n l ls r m :
  good_label l → zlen pre < 2 ^ 14 → 1 + zlen l <= zlen rest →
  spells name (l :: ls) → zlen name = zlen l + 1 + n →
  (∀ x, x ∈ t1 → x ∈ t ∨ x = (name, zlen pre)) →
  named (pre ++ zlen l :: l) (zdrop (1 + zlen l) rest) o t1 n ls r m →
  named pre rest o t (zlen name) (l :: ls) r m.
Proof.
  intros ([Hl0 Hl]&Hlb&_&_) Hpre Hr Hs Hn Ht (enc&t'&->&->&He&Hb&Hin&Ht').
  pose proof (zlen_nonneg pre).
  set (P := pre ++ (zlen l :: l) ++ enc).
  rewrite <- app_assoc in Hin, Ht'. change ((zlen l :: l) ++ enc) with (zlen l :: l ++ enc) in *.
  fold P in Hin, Ht'.
  assert (Hst : zlen (pre ++ zlen l :: l) = zlen pre + 1 + zlen l)
    by (rewrite zlen_app, zlen_cons; lia).
  assert (HP : zlen P = zlen pre + 1 + zlen l + zlen enc)
    by (unfold P; rewrite zlen_app, zlen_cons, zlen_app; lia).
  rewrite Hst in *.
  assert (Hnew : name_in P (zlen P) (zlen pre) (l :: ls) (zlen pre + 1 + zlen l + zlen enc)).
  { destruct Hin as [k Hk]. exists k. apply (name_label _ _ _ _ (zlen l)); try lia.
    - unfold P. by rewrite zget_app_r, Z.sub_diag by lia.
    - rewrite mem_read_ok by lia. f_equal. unfold P.
      rewrite zdrop_app_ge by lia. replace (zlen pre + 1 - zlen pre) with 1 by lia.
      change (zdrop 1 (zlen l :: l ++ enc)) with (l ++ enc).
      rewrite ztake_app_le by lia. by apply ztake_all.
    - done. }
  exists (zlen l :: l ++ enc), t'. rewrite zlen_cons, zlen_app.
  split; [|split; [lia|split; [lia|split; [|split]]]].
  - f_equal. rewrite zdrop_zdrop by lia. rewrite <- app_assoc. simpl. rewrite <- app_assoc.
    do 4 f_equal. f_equal. lia.
  - constructor; [unfold byte; lia|]. by apply Forall_app.
  - done.
  - intros v pos [[Hv|[= -> ->]]%Ht|Hv]%Ht'; [by left| |by right].
    right. split; [lia|]. intros ls' Hs'.
    rewrite <- (spells_det _ _ _ Hs Hs'). by eexists.
Qed.

Section writing.
Context (dup : list Z → Z → bool) (buf_len : Z) (use_table : bool).

Lemma pwp_add_label name j b o t (Q : unit → message → Prop) (E : message → Prop) :
  (∀ t1, (∀ x, x ∈ t1 → x ∈ t ∨ x = (name, j)) → Q tt (Message b o t1)) →
  pwp (add_label dup use_table name j) Q E (Message b o t).
Proof.
  intros HQ. unfold add_label. do 2 pwp_step. simpl. destruct use_table; pwp_step; apply HQ; [|by left].
  intros x Hx. by apply table_add_spec in Hx.
Qed.

(** Writing the length and the bytes of a label. *)
Lemma pwp_label {A} pre rest l b o t (Q : A → message → Prop) (E : message → Prop) K :
  zlen l <= 63 → 1 + zlen l <= zlen rest → b = pre ++ rest →
  pwp K Q E (Message ((pre ++ zlen l :: l) ++ zdrop (1 + zlen l) rest) o t) →
  pwp (_ ← write_at (zlen pre) [u8 (zlen l)]; _ ← write_at (zlen pre + 1) l; K) Q E (Message b o t).
Proof.
  intros Hl Hr -> HK. pose_len_nonneg. rewrite u8_small by lia.
  pwp_step. apply write_at_end; [change (zlen [zlen l]) with 1; lia|].
  change (zlen [zlen l]) with 1. pwp_step. rewrite app_assoc.
  replace (zlen pre + 1) with (zlen (pre ++ [zlen l])) by (rewrite zlen_app; done).
  apply write_at_end; [rewrite zlen_zdrop by lia; lia|].
  rewrite zdrop_zdrop by lia. rewrite <- !app_assoc in *. done.
Qed.

Lemma table_ok_step name l n pre t t1 :
  zlen name = zlen l + 1 + n → 
  (∀ x, x ∈ t1 → x ∈ t ∨ x = (name, zlen pre)) →
  table_ok (zlen name) pre t → table_ok n (pre ++ zlen l :: l) t1.
Proof.
  intros Hn Ht Hok v pos [Hv|[= -> ->]]%Ht Hle.
  - apply entry_ok_grow, Hok; [done|]. pose_len_nonneg. lia.
  - pose_len_nonneg. lia.
Qed.

(** One round: a pointer to a complete name, or a label. *)
Lemma pwp_round fuel name ls pre rest o t (Q : labels_end → message → Prop) (E : message → Prop) :
  let l := first_label name in
  spells name ls → zlen l <= 63 → zlen l <= zlen name → buf_len <= zlen pre + zlen rest →
  zlen pre + zlen name + 2 <= buf_len → table_ok (zlen name) pre t →
  (∀ pos, 2 <= zlen rest → entry_ok pre name pos →
     Q (Return (zlen pre + 2)) (Message (pre ++ htons (Z.lor pos 0xc000) ++ zdrop 2 rest) o t)) →
  (∀ t1, (∀ x, x ∈ t1 → x ∈ t ∨ x = (name, zlen pre)) →
     pwp (match strchr name 46 with
          | Some n => labels_loop dup fuel buf_len use_table (zlen pre + 1 + zlen l) (drop (S n) name)
          | None => mret (Break (zlen pre + 1 + zlen l))
          end) Q E (Message ((pre ++ zlen l :: l) ++ zdrop (1 + zlen l) rest) o t1)) →
  pwp (labels_loop dup (S fuel) buf_len use_table (zlen pre) name) Q E (Message (pre ++ rest) o t).
Proof.
  intros l Hs Hl Hln Hbuf Hroom Ht HQ HK. pose_len_nonneg. simpl labels_loop.
  do 2 pwp_step. simpl table. fold l. pwp_step.
  - destruct (get_pos_spec t name) as [Href|Href].
    { rewrite Href in H3. by rewrite andb_false_r in H3. }
    pwp_step; [lia|]. pwp_step. apply write_at_end; [change (zlen (htons _)) with 2; lia|].
    pwp_step. apply HQ; [lia|]. apply Ht; [done|lia].
  - pwp_step; [lia|]. pwp_step; [lia|]. pwp_step. apply pwp_add_label. intros t1 Ht1.
    apply (pwp_label pre rest); [done|lia|done|]. by apply HK.
Qed.

(** After a last label the zero is still missing, after the dot at the end it is
    there. *)
Lemma pwp_finish_label pre rest l o t (Q : Z → message → Prop) (E : message → Prop) j :
  good_label l → 1 <= zlen rest → j = zlen pre + 1 + zlen l →
  Q (j + 1) (Message ((pre ++ zlen l :: l) ++ [0] ++ zdrop 1 rest) o t) →
  pwp (finish_labels (Break j)) Q E (Message ((pre ++ zlen l :: l) ++ rest) o t).
Proof.
  intros ([Hl0 Hl]&_&H0&_) Hr -> HQ. pose_len_nonneg. unfold finish_labels. do 2 pwp_step. pwp_step.
  destruct (exists_last (l:=l)) as (l'&x&E'); [by intros ->|].
  assert (Hx : x <> 0) by (intros ->; set_solver).
  assert (Hj : zlen pre + 1 + zlen l = zlen (pre ++ zlen l :: l)) by (rewrite zlen_app, zlen_cons; lia).
  replace (zlen pre + 1 + zlen l =? 0) with false by (symmetry; lia).
  apply (pwp_access _ x).
  { simpl buf. rewrite zget_app_l by lia. rewrite E' at 2.
    rewrite app_comm_cons, app_assoc, zget_app_r by (rewrite !zlen_app, !zlen_cons, E', zlen_app; change (zlen [x]) with 1; lia).
    replace (_ - _) with 0; [done|].
    rewrite E', !zlen_app. change (zlen [x]) with 1. rewrite zlen_cons. lia. }
  replace (x =? 0) with false by (symmetry; lia). cbn [negb]. pwp_step. rewrite Hj.
  apply write_at_end; [change (zlen [0]) with 1; lia|]. pwp_step. rewrite Hj in HQ. done.
Qed.

Lemma pwp_finish_root pre rest o t (Q : Z → message → Prop) (E : message → Prop) j :
  j = zlen pre + 1 → Q j (Message ((pre ++ [0]) ++ rest) o t) →
  pwp (finish_labels (Break j)) Q E (Message ((pre ++ [0]) ++ rest) o t).
Proof.
  intros -> HQ. pose_len_nonneg. unfold finish_labels. do 2 pwp_step. pwp_step.
  replace (zlen pre + 1 =? 0) with false by (symmetry; lia).
  apply (pwp_access _ 0).
  { simpl buf. rewrite zget_app_l by (rewrite zlen_app; change (zlen [0]) with 1; lia).
    rewrite zget_app_r by lia. by replace (zlen pre + 1 - 1 - zlen pre) with 0 by lia. }
  cbn [negb Z.eqb]. by pwp_step.
Qed.

Lemma labels_spec name ls : spells name ls → ∀ fuel pre rest o t,
  (length name < fuel)%nat → buf_len <= zlen pre + zlen rest →
  zlen pre + zlen name + 2 <= buf_len → zlen pre + zlen name + 2 <= 2 ^ 14 →
  table_ok (zlen name) pre t →
  pwp (labels_loop dup fuel buf_len use_table (zlen pre) name)
    (λ e, pwp (finish_labels e) (named pre rest o t (zlen name) ls) (λ _, False))
    (λ _, False) (Message (pre ++ rest) o t).
Proof.
  intros Hs. pose proof Hs as Hsp. induction Hs as [|l Hl|l name ls Hl Hs IH];
    intros fuel pre rest o t Hf Hbuf Hroom Hpos Ht; (destruct fuel as [|fuel]; [lia|]);
    pose_len_nonneg.
  - apply (pwp_round _ _ []); [done|change (zlen (first_label [])) with 0; lia..|done| |].
    + intros pos Hr He. by apply named_pointer.
    + intros t1 Ht1. simpl. pwp_step. apply pwp_finish_root; [unfold zlen; simpl; lia|].
      change (zlen (first_label [])) with 0. rewrite Z.add_0_r, <- app_assoc.
      apply named_zero; [lia..|done].
  - pose proof Hl as ([Hl0 Hl63]&_&_&Hdot).
    apply (pwp_round _ _ [l]); rewrite ?first_label_last by done; [done|lia..|done| |].
    + intros pos Hr He. by apply named_pointer.
    + intros t1 Ht1. rewrite strchr_None by done. pwp_step.
      apply pwp_finish_label; [done|rewrite zlen_zdrop by lia; lia|done|].
      apply (named_label _ _ _ _ t1 _ (-1)); [done|lia|lia|done|lia|done|].
      replace (zlen pre + 1 + zlen l) with (zlen (pre ++ zlen l :: l))
        by (rewrite zlen_app, zlen_cons; lia).
      apply named_zero; [rewrite zlen_zdrop by lia; lia|lia| |by left].
      rewrite zlen_app, zlen_cons. lia.
  - pose proof Hl as ([Hl0 Hl63]&_&_&Hdot).
    assert (Hn : zlen (l ++ 46 :: name) = zlen l + 1 + zlen name) by (rewrite zlen_app, zlen_cons; lia).
    pose proof (zlen_nonneg name). set (nm := l ++ 46 :: name) in *.
    assert (Hpre : zlen pre + 1 + zlen l = zlen (pre ++ zlen l :: l))
      by (rewrite zlen_app, zlen_cons; lia).
    apply (pwp_round _ _ (l :: ls)); unfold nm; rewrite ?first_label_cons by done; fold nm;
      [done|lia..|done| |].
    + intros pos Hr He. by apply named_pointer.
    + intros t1 Ht1. unfold nm at 1 2. rewrite strchr_app by done.
      replace (drop (S (length l)) (l ++ 46 :: name)) with name
        by (symmetry; rewrite cons_middle, app_assoc; apply drop_app_length'; rewrite length_app; simpl; lia).
      rewrite Hpre. eapply pwp_mono; [apply IH; [done| | | | |]| |done].
      * unfold nm in Hf. rewrite length_app in Hf. simpl in Hf. lia.
      * rewrite zlen_zdrop by lia. lia.
      * lia.
      * lia.
      * by apply (table_ok_step nm l _ _ t).
      * intros e m He. eapply pwp_mono; [exact He| |done].
        intros r m' Hm. apply (named_label _ _ _ _ t1 _ (zlen name)); first [done|lia].
Qed.

(** The contract of [dnsname_to_labels] for a name with room for it. *)
Lemma dnsname_spec name ls pre rest o t :
  spells name ls → zlen name <= 255 → buf_len <= zlen pre + zlen rest →
  zlen pre + zlen name + 2 <= buf_len → zlen pre + zlen name + 2 <= 2 ^ 14 →
  (∀ v pos, (v, pos) ∈ t → entry_ok pre v pos) →
  pwp (dnsname_to_labels dup buf_len (zlen pre) name use_table)
    (named pre rest o t (zlen name) ls) (λ _, False) (Message (pre ++ rest) o t).
Proof.
  intros Hs Hn Hbuf Hroom Hpos Ht. unfold dnsname_to_labels. pwp_step; [lia|]. pwp_step.
  apply labels_spec; [done|lia|done..|]. intros v pos Hv _. by apply Ht.
Qed.
End writing.

(** * Bytes at an offset of a packet *)

Definition holds (p : list Z) (j : Z) (l : list Z) : Prop := mem_read p j (zlen l) = Some l.

Lemma holds_range p j l : holds p j l → 0 <= j ∧ j + zlen l <= zlen p.
Proof.
  unfold holds, mem_read. destruct (_ && _) eqn:E; [|done]. intros _.
  apply andb_prop in E as [E ?%Z.leb_le]. apply andb_prop in E as [?%Z.leb_le _]. lia.
Qed.

Lemma holds_grow p k j l : holds p j l → holds (p ++ k) j l.
Proof. apply mem_read_prefix. Qed.

Lemma holds_mid (pre l post : list Z) : holds (pre ++ l ++ post) (zlen pre) l.
Proof.
  pose proof (zlen_nonneg pre). pose proof (zlen_nonneg l). pose proof (zlen_nonneg post).
  unfold holds. rewrite mem_read_ok by (rewrite ?zlen_app; lia).
  rewrite zdrop_app_ge, Z.sub_diag, zdrop_0 by lia. rewrite ztake_app_le by lia.
  by rewrite ztake_all by lia.
Qed.
Lemma holds_end (pre l : list Z) : holds (pre ++ l) (zlen pre) l.
Proof. rewrite <- (app_nil_r l) at 1. apply holds_mid. Qed.

Lemma holds_app p j l k : holds p j (l ++ k) ↔ holds p j l ∧ holds p (j + zlen l) k.
Proof.
  split.
  - intros H. pose proof (holds_range _ _ _ H) as [Hj Hr]. rewrite zlen_app in Hr.
    revert H. unfold holds. pose_len_nonneg. rewrite !mem_read_ok by (rewrite ?zlen_app; lia).
    intros [= Heq]. rewrite zlen_app, ztake_add in Heq by lia.
    rewrite zdrop_zdrop in Heq by lia.
    apply app_inj_1 in Heq as [-> ->]; [done|]. apply Nat2Z.inj. fold (zlen (ztake (zlen l) (zdrop j p))).
    rewrite zlen_ztake; [done|rewrite zlen_zdrop by lia; lia].
  - intros [Hl Hk]. pose proof (holds_range _ _ _ Hl) as [Hj Hr].
    pose proof (holds_range _ _ _ Hk) as [Hj' Hr'].
    revert Hl Hk. unfold holds. pose_len_nonneg. rewrite !mem_read_ok by (rewrite ?zlen_app; lia).
    rewrite zlen_app, ztake_add, zdrop_zdrop by lia. intros [= ->] [= ->]. done.
Qed.

Lemma of_be_htons x : of_be (htons x) = u16 x.
Proof. unfold of_be, htons. simpl. unfold u16. lia. Qed.
Lemma of_be_htonl x : of_be (htonl x) = u32 x.
Proof. unfold of_be, htonl. simpl. unfold u32. lia. Qed.
Lemma htons_bytes x : Forall byte (htons x).
Proof. repeat constructor; unfold u16; lia. Qed.
Lemma htonl_bytes x : Forall byte (htonl x).
Proof. repeat constructor; unfold u32; lia. Qed.
Lemma zlen_htons x : zlen (htons x) = 2.
Proof. done. Qed.
Lemma zlen_htonl x : zlen (htonl x) = 4.
Proof. done. Qed.
#[export] Hint Rewrite zlen_htons zlen_htonl : evlen.

Lemma holds_GET16 p x j (Q : Z → cursor → Prop) (E : cursor → Prop) a :
  holds p j (htons x) → Q (u16 x) (Cursor (j + 2) a) → pwp (GET16 p (zlen p)) Q E (Cursor j a).
Proof.
  intros H HQ. pose proof (holds_range _ _ _ H) as Hr. rewrite zlen_htons in Hr.
  unfold GET16. pwp_step. apply pwp_GETN; simpl; [lia..|].
  intros l _ Hl. pwp_step. unfold holds in H. rewrite zlen_htons, Hl in H. injection H as ->.
  by rewrite of_be_htons.
Qed.
Lemma holds_GET32 p x j (Q : Z → cursor → Prop) (E : cursor → Prop) a :
  holds p j (htonl x) → Q (u32 x) (Cursor (j + 4) a) → pwp (GET32 p (zlen p)) Q E (Cursor j a).
Proof.
  intros H HQ. pose proof (holds_range _ _ _ H) as Hr. rewrite zlen_htonl in Hr.
  unfold GET32. pwp_step. apply pwp_GETN; simpl; [lia..|].
  intros l _ Hl. pwp_step. unfold holds in H. rewrite zlen_htonl, Hl in H. injection H as ->.
  by rewrite of_be_htonl.
Qed.

(** A name that fits is read back. *)
Lemma reads_name p ls j e out nol (Q : list Z → cursor → Prop) (E : cursor → Prop) a :
  Forall byte p → nol <= zlen out → name_in p (zlen p) j ls e → zlen (dotted ls) < nol →
  (∀ out', cstr out' = cstr (dotted ls) → Q out' (Cursor e a)) →
  pwp (name_parse p (zlen p) out nol) Q E (Cursor j a).
Proof.
  intros Hp Hout Hn Hfit HQ.
  assert (Hj : 0 <= j) by (destruct Hn as [k Hk]; apply name_at_range in Hk; lia).
  eapply pwp_mono; [by apply name_parse_spec|..].
  - intros out' c (ls'&e'&Hn'&_&->&->). destruct (name_in_det _ _ _ _ _ _ _ Hn Hn') as [<- <-].
    apply HQ, cstr_zero.
  - intros c [_ H]. specialize (H _ _ Hn). lia.
Qed.

(** * Appending *)

(** The packet written so far. *)
Definition written (pre rest : list Z) (t : dnslabel_table) : message :=
  Message (pre ++ rest) (zlen pre) t.

Lemma pwp_append buf_len pre rest t l (Q : unit → message → Prop) (E : message → Prop) :
  zlen pre + zlen l <= buf_len → buf_len <= zlen pre + zlen rest →
  Q tt (written (pre ++ l) (zdrop (zlen l) rest) t) →
  pwp (append buf_len l) Q E (written pre rest t).
Proof.
  intros Hfit Hbuf HQ. unfold append, written. do 2 pwp_step. pwp_step. simpl.
  pwp_step; [lia|]. pwp_step. apply write_at_end; [lia|]. unfold move_to. do 3 pwp_step. simpl.
  unfold written in HQ. by rewrite <- app_assoc, zlen_app in HQ.
Qed.
