(* ===== verification/HttpUriDefs.v ===== *)
(** * URIs and text encodings: data and operations

    The part of [http.c] that works on text: escaping for HTML, percent-encoding,
    and URIs, which are parsed into [struct evhttp_uri], changed by setters and
    joined again.

    A C string is the list of its bytes; a pointer into it is the rest of the
    string from there, and a range that ends at [eos] is a rest and the number of
    bytes before [eos].  Allocation is [Malloc]; the text being built is in an
    evbuffer behind [EvbufferOps].  In the functions that may return [NULL] or an
    error, [Error] is that exit and [Fault] memory used outside an object. *)
From S2P Require Import Prelude Outcome Lines Evutil InetDefs EvbufferDefs EvbufferIface.

(** [event_mm_strdup_]: the copy has the same bytes. *)
Definition mm_strdup {MM : Malloc} (str : list Z) : option (list Z) :=
  let ln := zlen str in
  if ln =? EV_SIZE_MAX then None
  else match mm_malloc (ln + 1) with Some _ => Some str | None => None end.

(** * Escaping for HTML *)

(** The text that replaces a byte. *)
Definition html_replace (ch : Z) : list Z :=
  if ch =? 60 then [38; 108; 116; 59]                        (* &lt; *)
  else if ch =? 62 then [38; 103; 116; 59]                   (* &gt; *)
  else if ch =? 34 then [38; 113; 117; 111; 116; 59]         (* &quot; *)
  else if ch =? 39 then [38; 35; 48; 51; 57; 59]             (* &#039; *)
  else if ch =? 38 then [38; 97; 109; 112; 59]               (* &amp; *)
  else [ch].

(** The first loop: [None] when the size would overflow. *)
Fixpoint html_size (html : list Z) (new_size : Z) : option Z :=
  match html with
  | [] => Some new_size
  | c :: html =>
      let replace_size := zlen (html_replace c) in
      if EV_SIZE_MAX - new_size <? replace_size then None
      else html_size html (u64 (new_size + replace_size))
  end.
(** The second loop: memory and the place after the last byte written. *)
Fixpoint html_copy (html : list Z) (mem : list Z) (p : Z) : option (list Z * Z) :=
  match html with
  | [] => Some (mem, p)
  | c :: html =>
      let replaced := html_replace c in
      mem ← memcpy_at mem p replaced;
      html_copy html mem (p + zlen replaced)
  end.

Definition evhttp_htmlescape {MM : Malloc} (html : list Z) : option (option (list Z)) :=
  match html_size html 0 with
  | None => Some None
  | Some new_size =>
      if new_size =? EV_SIZE_MAX then Some None
      else
        match mm_malloc (new_size + 1) with
        | None => Some None
        | Some escaped_html =>
            '(escaped_html, p) ← html_copy html escaped_html 0;
            escaped_html ← memcpy_at escaped_html p [0];
            Some (Some escaped_html)
        end
  end.

(** * Percent-encoding *)

Definition uri_chars : list Z :=
  [0; 0; 0; 0; 0; 0; 0; 0; 0; 0; 0; 0; 0; 0; 0; 0; 0; 0; 0; 0; 0; 0; 0; 0; 0; 0; 0; 0; 0; 0; 0; 0;
   0; 0; 0; 0; 0; 0; 0; 0; 0; 0; 0; 0; 0; 1; 1; 0; 1; 1; 1; 1; 1; 1; 1; 1; 1; 1; 0; 0; 0; 0; 0; 0;
   0; 1; 1; 1; 1; 1; 1; 1; 1; 1; 1; 1; 1; 1; 1; 1; 1; 1; 1; 1; 1; 1; 1; 1; 1; 1; 1; 0; 0; 0; 0; 1;
   0; 1; 1; 1; 1; 1; 1; 1; 1; 1; 1; 1; 1; 1; 1; 1; 1; 1; 1; 1; 1; 1; 1; 1; 1; 1; 1; 0; 0; 0; 1; 0;
   0; 0; 0; 0; 0; 0; 0; 0; 0; 0; 0; 0; 0; 0; 0; 0; 0; 0; 0; 0; 0; 0; 0; 0; 0; 0; 0; 0; 0; 0; 0; 0;
   0; 0; 0; 0; 0; 0; 0; 0; 0; 0; 0; 0; 0; 0; 0; 0; 0; 0; 0; 0; 0; 0; 0; 0; 0; 0; 0; 0; 0; 0; 0; 0;
   0; 0; 0; 0; 0; 0; 0; 0; 0; 0; 0; 0; 0; 0; 0; 0; 0; 0; 0; 0; 0; 0; 0; 0; 0; 0; 0; 0; 0; 0; 0; 0;
   0; 0; 0; 0; 0; 0; 0; 0; 0; 0; 0; 0; 0; 0; 0; 0; 0; 0; 0; 0; 0; 0; 0; 0; 0; 0; 0; 0; 0; 0; 0; 0].
Definition CHAR_IS_UNRESERVED (c : Z) : bool := negb (nth (Z.to_nat (u8 c)) uri_chars 0 =? 0).

Section encode.
Context {MM : Malloc} {B : Type} {EB : EvbufferOps B}.

Fixpoint uriencode_loop (buf : B) (p : list Z) (space_as_plus : bool) : option B :=
  match p with
  | [] => Some buf
  | c :: p =>
      '(buf, _) ← (if CHAR_IS_UNRESERVED c then eb_add buf [c]
                   else if (c =? 32) && space_as_plus then eb_add buf [43]
                   else eb_add_printf buf (37 :: sprint_02X (u8 c)));
      uriencode_loop buf p space_as_plus
  end.

(** [uri] is the memory at the argument; [len < 0] asks for its length as a
    string. *)
Definition evhttp_uriencode (uri : list Z) (len : Z) (space_as_plus : bool)
  : option (option (list Z)) :=
  match eb_new with
  | None => Some None
  | Some buf =>
      let slen := zlen (cstr uri) in
      if (len <? 0) && (EV_SSIZE_MAX <=? slen) then Some None
      else
        p ← (if 0 <=? len then mem_read uri 0 len else Some (cstr uri));
        buf ← uriencode_loop buf p space_as_plus;
        '(buf, _) ← eb_add buf [0];
        match mm_malloc (eb_length buf) with
        | None => Some None
        | Some result =>
            '(_, data, _) ← eb_remove buf (eb_length buf);
            result ← memcpy_at result 0 data;
            Some (Some result)
        end
  end.
Definition evhttp_encode_uri (str : list Z) : option (option (list Z)) :=
  evhttp_uriencode str (-1) false.
End encode.

(** The loop of [evhttp_decode_uri_internal]: [i] is an [unsigned], [length] a
    [size_t], and [j] an [int]. *)
Fixpoint decode_loop (fuel : nat) (uri : list Z) (i j : Z) (ret : list Z)
    (decode_plus_ctl : Z) (decode_plus : bool) : option (list Z * Z) :=
  match fuel with
  | O => None
  | S fuel =>
      let length := zlen uri in
      if i <? length then
        c ← zget uri i;
        let hex k := match zget uri k with Some d => EVUTIL_ISXDIGIT_ d | None => false end in
        let '(c, i, decode_plus) :=
          if c =? 63 then (c, i, decode_plus || (decode_plus_ctl <? 0))
          else if (c =? 43) && decode_plus then (32, i, decode_plus)
          else if (u32 (i + 2) <? length) && (c =? 37) && hex (u32 (i + 1)) && hex (u32 (i + 2)) then
            let tmp := [default 0 (zget uri (u32 (i + 1))); default 0 (zget uri (u32 (i + 2)))] in
            (u8 (strtol tmp 16).1, u32 (i + 2), decode_plus)
          else (c, i, decode_plus) in
        ret ← zset ret j c;
        _ ← assert_ (j <? INT_MAX);
        decode_loop fuel uri (u32 (i + 1)) (j + 1) ret decode_plus_ctl decode_plus
      else Some (ret, j)
  end.
(** Every round passes at least one byte. *)
Definition evhttp_decode_uri_internal (uri : list Z) (ret : list Z) (decode_plus_ctl : Z)
  : option (list Z * Z) :=
  '(ret, j) ← decode_loop (S (length uri)) uri 0 0 ret decode_plus_ctl (decode_plus_ctl =? 1);
  ret ← zset ret j 0;
  Some (ret, j).

Section decode.
Context {MM : Malloc}.

Definition evhttp_decode_uri (uri : list Z) : option (option (list Z)) :=
  match mm_malloc (zlen uri + 1) with
  | None => Some None
  | Some ret => '(ret, _) ← evhttp_decode_uri_internal uri ret (-1); Some (Some ret)
  end.
(** The block returned and [*size_out]. *)
Definition evhttp_uridecode (uri : list Z) (decode_plus : bool) : option (option (list Z * Z)) :=
  match mm_malloc (zlen uri + 1) with
  | None => Some None
  | Some ret =>
      '(ret, n) ← evhttp_decode_uri_internal uri ret (if decode_plus then 1 else 0);
      _ ← assert_ (0 <=? n);
      Some (Some (ret, n))
  end.
End decode.

(** * URIs *)

Definition EVHTTP_URI_NONCONFORMANT : Z := 1.

(** [None]: a pointer that is [NULL]. *)
Record evhttp_uri := Uri {
  uri_flags : Z;
  scheme : option (list Z);
  userinfo : option (list Z);
  host : option (list Z);
  port : Z;
  path : option (list Z);
  query : option (list Z);
  fragment : option (list Z)
}.

(** [sizeof(struct evhttp_uri)] where pointers have eight bytes. *)
Definition SIZEOF_EVHTTP_URI : Z := 64.

Definition set_scheme (s : option (list Z)) (u : evhttp_uri) : evhttp_uri :=
  Uri (uri_flags u) s (userinfo u) (host u) (port u) (path u) (query u) (fragment u).
Definition set_userinfo (s : option (list Z)) (u : evhttp_uri) : evhttp_uri :=
  Uri (uri_flags u) (scheme u) s (host u) (port u) (path u) (query u) (fragment u).
Definition set_host (s : option (list Z)) (u : evhttp_uri) : evhttp_uri :=
  Uri (uri_flags u) (scheme u) (userinfo u) s (port u) (path u) (query u) (fragment u).
Definition set_port (p : Z) (u : evhttp_uri) : evhttp_uri :=
  Uri (uri_flags u) (scheme u) (userinfo u) (host u) p (path u) (query u) (fragment u).
Definition set_path (s : option (list Z)) (u : evhttp_uri) : evhttp_uri :=
  Uri (uri_flags u) (scheme u) (userinfo u) (host u) (port u) s (query u) (fragment u).
Definition set_query (s : option (list Z)) (u : evhttp_uri) : evhttp_uri :=
  Uri (uri_flags u) (scheme u) (userinfo u) (host u) (port u) (path u) s (fragment u).
Definition set_fragment (s : option (list Z)) (u : evhttp_uri) : evhttp_uri :=
  Uri (uri_flags u) (scheme u) (userinfo u) (host u) (port u) (path u) (query u) s.

(** What [mm_calloc] leaves, with the port set. *)
Definition empty_uri (flags : Z) : evhttp_uri := Uri flags None None None (-1) None None None.
Definition evhttp_uri_new {MM : Malloc} : option evhttp_uri :=
  match mm_malloc SIZEOF_EVHTTP_URI with Some _ => Some (empty_uri 0) | None => None end.
Definition evhttp_uri_set_flags (u : evhttp_uri) (flags : Z) : evhttp_uri :=
  Uri flags (scheme u) (userinfo u) (host u) (port u) (path u) (query u) (fragment u).

(** ** The parts *)

(** The bytes of a scheme after the first. *)
Definition scheme_char (c : Z) : bool :=
  EVUTIL_ISALNUM_ c || (c =? 43) || (c =? 45) || (c =? 46).
Definition scheme_ok (s : list Z) : bool :=
  match s with
  | [] => false
  | c :: s => EVUTIL_ISALPHA_ c && forallb scheme_char s
  end.

Definition SUBDELIMS : list Z := [33; 36; 38; 39; 40; 41; 42; 43; 44; 59; 61].
(** [strchr(SUBDELIMS, c)], which also finds the terminating zero. *)
Definition in_subdelims (c : Z) : bool := (c =? 0) || in_set SUBDELIMS c.

(** [s] up to [n] bytes on.  The zero that ends a string is never before [eos]. *)
Fixpoint userinfo_ok (s : list Z) (n : Z) {struct s} : bool :=
  if 0 <? n then
    match s with
    | [] => true
    | c :: s1 =>
        if CHAR_IS_UNRESERVED c || in_subdelims c || (c =? 58) then userinfo_ok s1 (n - 1)
        else
          match s1 with
          | a :: b :: s3 =>
              if (c =? 37) && (2 <? n) && EVUTIL_ISXDIGIT_ a && EVUTIL_ISXDIGIT_ b
              then userinfo_ok s3 (n - 3) else false
          | _ => false
          end
    end
  else true.

Fixpoint regname_ok (s : list Z) (n : Z) {struct s} : bool :=
  if 0 <? n then
    match s with
    | [] => true
    | c :: s1 =>
        if CHAR_IS_UNRESERVED c || in_subdelims c then regname_ok s1 (n - 1)
        else
          match s1 with
          | a :: b :: s3 =>
              if (c =? 37) && EVUTIL_ISXDIGIT_ a && EVUTIL_ISXDIGIT_ b
              then regname_ok s3 (n - 3) else false
          | _ => false
          end
    end
  else true.

Fixpoint parse_port_loop (s : list Z) (portnum : Z) : Z :=
  match s with
  | [] => portnum
  | c :: s =>
      if negb (EVUTIL_ISDIGIT_ c) then -1
      else
        let portnum := portnum * 10 + (c - 48) in
        if portnum <? 0 then -1
        else if 65535 <? portnum then -1
        else parse_port_loop s portnum
  end.
Definition parse_port (s : list Z) : Z := parse_port_loop s 0.

(** The two loops over an [IPvFuture]: up to the dot, and behind it. *)
Fixpoint future_version (s : list Z) (n : Z) : option (list Z * Z) :=
  match s with
  | [] => Some (s, n)
  | c :: s' =>
      if (0 <? n) && negb (c =? 46) then
        if EVUTIL_ISXDIGIT_ c then future_version s' (n - 1) else None
      else Some (s, n)
  end.
Definition future_char (c : Z) : bool := CHAR_IS_UNRESERVED c || in_subdelims c || (c =? 58).

Section uri.
Context {MM : Malloc} (words0 : list Z).

(** [words0] is the uninitialised array of [evutil_inet_pton]. *)
Definition bracket_addr_ok (s : list Z) (n : Z) : option Z :=
  if (n <? 3) || negb (hd 0 s =? 91) || negb (bool_decide (zget s (n - 1) = Some 93)) then Some 0
  else if hd 0 (tl s) =? 118 then
    let s := drop 2 s in
    let n := n - 3 in
    if negb (EVUTIL_ISXDIGIT_ (hd 0 s)) then Some 0
    else
      match future_version s n with
      | None => Some 0
      | Some (s, n) =>
          if negb (hd 0 s =? 46) then Some 0
          else if forallb future_char (ztake (n - 1) (tl s)) then Some 2 else Some 0
      end
  else
    let n_chars := n - 2 in
    if 64 <=? n_chars then Some 0
    else
      '(r, _) ← evutil_inet_pton words0 AF_INET6 (ztake n_chars (tl s));
      Some (if r =? 1 then 1 else 0).

(** A part of the URI in memory of its own. *)
Definition strdup_or_err (s : list Z) (set : option (list Z) → evhttp_uri → evhttp_uri)
  : parser evhttp_uri unit :=
  u ← pget;
  match mm_strdup s with
  | None => err
  | Some s => pset (set (Some s) u)
  end.

(** The optional user information: where the rest of the authority begins. *)
Definition authority_userinfo (s : list Z) (n : Z) : parser evhttp_uri Z :=
  match strchr s 64 with
  | Some cp =>
      if Z.of_nat cp <? n then
        _ ← err_if (negb (userinfo_ok s (Z.of_nat cp)));
        _ ← strdup_or_err (ztake (Z.of_nat cp) s) set_userinfo;
        mret (Z.of_nat cp + 1)
      else mret 0
  | None => mret 0
  end.

(** The port at the end of [t], of which [e] bytes are in the authority: where
    the host ends. *)
Definition authority_port (t : list Z) (e : Z) : parser evhttp_uri Z :=
  let at_port := e - 1 - Z.of_nat (count_digits (reverse (ztake e t))) in
  if (0 <=? at_port) && bool_decide (zget t at_port = Some 58) then
    u ← pget;
    _ ← (if at_port + 1 =? e then pset (set_port (-1) u)
         else
           let p := parse_port (ztake (e - (at_port + 1)) (zdrop (at_port + 1) t)) in
           _ ← err_if (p <? 0);
           pset (set_port p u));
    mret at_port
  else mret e.

(** The host: the first [e] bytes of [t]. *)
Definition authority_host (t : list Z) (e : Z) : parser evhttp_uri unit :=
  _ ← (if (hd 0 t =? 91) && (2 <=? e) && bool_decide (zget t (e - 1) = Some 93) then
         r ← access (bracket_addr_ok t e);
         err_if (r =? 0)
       else err_if (negb (regname_ok t e)));
  u ← pget;
  match mm_malloc (e + 1) with
  | None => err
  | Some mem =>
      mem ← access (memcpy_at mem 0 (ztake e t));
      mem ← access (zset mem e 0);
      pset (set_host (Some (ztake e mem)) u)
  end.

Definition parse_authority (s : list Z) (n : Z) : parser evhttp_uri unit :=
  if n =? 0 then strdup_or_err [] set_host
  else
    cp ← authority_userinfo s n;
    e ← authority_port (zdrop cp s) (n - cp);
    _ ← access (assert_ (0 <=? e));
    authority_host (zdrop cp s) e.

(** The number of bytes before the end of the authority. *)
Definition is_authority_end (c : Z) : bool := (c =? 63) || (c =? 35) || (c =? 47).
Definition end_of_authority (cp : list Z) : Z := default (zlen cp) (find_first is_authority_end cp).

Inductive uri_part := PART_PATH | PART_QUERY | PART_FRAGMENT.
Definition is_path (part : uri_part) : bool := match part with PART_PATH => true | _ => false end.

(** The rest of the string at the first byte that is not of the part. *)
Fixpoint skip_until (stop : Z → bool) (cp : list Z) : list Z :=
  match cp with
  | [] => []
  | c :: cp' => if stop c then cp else skip_until stop cp'
  end.
Fixpoint conformant_end (cp : list Z) (part : uri_part) {struct cp} : list Z :=
  match cp with
  | [] => []
  | c :: cp1 =>
      if CHAR_IS_UNRESERVED c || in_subdelims c || (c =? 58) || (c =? 64) || (c =? 47)
      then conformant_end cp1 part
      else
        let otherwise := if (c =? 63) && negb (is_path part) then conformant_end cp1 part else cp in
        match cp1 with
        | a :: b :: cp3 =>
            if (c =? 37) && EVUTIL_ISXDIGIT_ a && EVUTIL_ISXDIGIT_ b then conformant_end cp3 part
            else otherwise
        | _ => otherwise
        end
  end.
Definition end_of_path (cp : list Z) (part : uri_part) (flags : Z) : list Z :=
  if has flags EVHTTP_URI_NONCONFORMANT then
    match part with
    | PART_PATH => skip_until (λ c, (c =? 35) || (c =? 63)) cp
    | PART_QUERY => skip_until (λ c, c =? 35) cp
    | PART_FRAGMENT => []
    end
  else conformant_end cp part.

Fixpoint path_matches_noscheme (cp : list Z) : bool :=
  match cp with
  | [] => true
  | c :: cp => if c =? 58 then false else if c =? 47 then true else path_matches_noscheme cp
  end.

(** ** Parsing *)

(** The string that ends where [rest] begins. *)
Definition upto (s rest : list Z) : list Z := ztake (zlen s - zlen rest) s.
(** A part behind the byte [mark], if that byte is there: the part, and the rest
    behind it. *)
Definition optional_part (mark : Z) (part : uri_part) (flags : Z) (readp : list Z)
  : option (list Z) * list Z :=
  match readp with
  | c :: readp' =>
      if c =? mark then
        let rest := end_of_path readp' part flags in (Some (upto readp' rest), rest)
      else (None, readp)
  | [] => (None, readp)
  end.

(** The body of [evhttp_uri_parse_with_flags] on the copy of the text. *)
Definition uri_scheme (readp : list Z) : parser evhttp_uri (list Z) :=
  match strchr readp 58 with
  | Some token =>
      if scheme_ok (take token readp) then
        _ ← strdup_or_err (take token readp) set_scheme;
        mret (drop (S token) readp)
      else mret readp
  | None => mret readp
  end.
Definition begins_with_slashes (s : list Z) : bool := (hd 0 s =? 47) && (hd 0 (tl s) =? 47).
(** Whether there was an authority, and the rest. *)
Definition uri_authority (readp : list Z) : parser evhttp_uri (bool * list Z) :=
  if begins_with_slashes readp then
    let authority := drop 2 readp in
    let n := end_of_authority authority in
    _ ← parse_authority authority n;
    mret (true, zdrop n authority)
  else mret (false, readp).
Definition uri_rest (got_authority : bool) (flags : Z) (readp : list Z) : parser evhttp_uri unit :=
  let rest := end_of_path readp PART_PATH flags in
  let path := upto readp rest in
  let '(query, rest) := optional_part 63 PART_QUERY flags rest in
  let '(fragment, rest) := optional_part 35 PART_FRAGMENT flags rest in
  _ ← err_if (negb (bool_decide (rest = [])));
  _ ← err_if (negb got_authority && begins_with_slashes path);
  _ ← err_if (got_authority && negb (hd 0 path =? 47) && negb (hd 0 path =? 0));
  u ← pget;
  _ ← err_if (negb (bool_decide (is_Some (scheme u))) && negb (path_matches_noscheme path));
  _ ← strdup_or_err path set_path;
  _ ← (match query with Some q => strdup_or_err q set_query | None => mret tt end);
  match fragment with Some f => strdup_or_err f set_fragment | None => mret tt end.
Definition uri_body (flags : Z) (readbuf : list Z) : parser evhttp_uri unit :=
  readp ← uri_scheme readbuf;
  '(got_authority, readp) ← uri_authority readp;
  uri_rest got_authority flags readp.

(** The object built, [NULL], or stuck. *)
Definition uri_result (r : outcome evhttp_uri unit) : option (option evhttp_uri) :=
  match r with Ret _ u => Some (Some u) | Error _ => Some None | Fault => None end.

Definition evhttp_uri_parse_with_flags (source_uri : list Z) (flags : Z) : option (option evhttp_uri) :=
  match mm_malloc SIZEOF_EVHTTP_URI with
  | None => Some None
  | Some _ =>
      match mm_strdup source_uri with
      | None => Some None
      | Some readbuf => uri_result (uri_body flags readbuf (empty_uri flags))
      end
  end.
Definition evhttp_uri_parse (source_uri : list Z) : option (option evhttp_uri) :=
  evhttp_uri_parse_with_flags source_uri 0.

Definition evhttp_uri_parse_authority (source_uri : list Z) : option (option evhttp_uri) :=
  match mm_malloc SIZEOF_EVHTTP_URI with
  | None => Some None
  | Some _ =>
      uri_result
        ((_ ← parse_authority source_uri (end_of_authority source_uri);
          strdup_or_err [] set_path) (empty_uri 0))
  end.

(** ** Joining *)

Section join.
Context {B : Type} {EB : EvbufferOps B}.

(** [evbuffer_add], whose result is ignored. *)
Definition add_text (tmp : B) (text : list Z) : option B := '(tmp, _) ← eb_add tmp text; Some tmp.
Definition add_printf (tmp : B) (text : list Z) : option B := '(tmp, _) ← eb_add_printf tmp text; Some tmp.
Definition add_part (tmp : B) (mark : list Z) (part : option (list Z)) : option B :=
  match part with
  | Some s => tmp ← add_text tmp mark; add_text tmp s
  | None => Some tmp
  end.

(** The bytes written to [buf], or [NULL]; [buf] itself is not [NULL]. *)
Definition evhttp_uri_join (uri : evhttp_uri) (limit : Z) : option (option (list Z)) :=
  if limit =? 0 then Some None
  else
    match eb_new with
    | None => Some None
    | Some tmp =>
        tmp ← (match scheme uri with
               | Some s => tmp ← add_text tmp s; add_text tmp [58]
               | None => Some tmp
               end);
        tmp ← (match host uri with
               | Some h =>
                   tmp ← add_text tmp [47; 47];
                   tmp ← (match userinfo uri with Some i => add_printf tmp (i ++ [64]) | None => Some tmp end);
                   tmp ← add_text tmp h;
                   if 0 <=? port uri then add_printf tmp (58 :: sprint_d (port uri)) else Some tmp
               | None => Some tmp
               end);
        let bad_path :=
          match host uri, path uri with
          | Some _, Some p => negb (hd 0 p =? 47) && negb (hd 0 p =? 0)
          | _, _ => false
          end in
        if bad_path then Some None
        else
          tmp ← (match path uri with Some p => add_text tmp p | None => Some tmp end);
          tmp ← add_part tmp [63] (query uri);
          tmp ← add_part tmp [35] (fragment uri);
          tmp ← add_text tmp [0];
          let joined_size := eb_length tmp in
          if limit <? joined_size then Some None
          else '(_, data, _) ← eb_remove tmp joined_size; Some (Some data)
    end.
End join.

(** ** Setters: the URI and the result *)

(** [URI_SET_STR_] *)
Definition URI_SET_STR_ (set : option (list Z) → evhttp_uri → evhttp_uri)
    (u : evhttp_uri) (s : option (list Z)) : evhttp_uri * Z :=
  match s with
  | Some s =>
      match mm_strdup s with
      | Some s => (set (Some s) u, 0)
      | None => (set None u, -1)
      end
  | None => (set None u, 0)
  end.

Definition evhttp_uri_set_scheme (u : evhttp_uri) (s : option (list Z)) : evhttp_uri * Z :=
  if match s with Some s => negb (scheme_ok s) | None => false end then (u, -1)
  else URI_SET_STR_ set_scheme u s.
Definition evhttp_uri_set_userinfo (u : evhttp_uri) (s : option (list Z)) : evhttp_uri * Z :=
  if match s with Some s => negb (userinfo_ok s (zlen s)) | None => false end then (u, -1)
  else URI_SET_STR_ set_userinfo u s.
Definition evhttp_uri_set_host (u : evhttp_uri) (h : option (list Z)) : option (evhttp_uri * Z) :=
  bad ← (match h with
         | Some h =>
             if hd 0 h =? 91 then r ← bracket_addr_ok h (zlen h); Some (r =? 0)
             else Some (negb (regname_ok h (zlen h)))
         | None => Some false
         end);
  if bad : bool then Some (u, -1) else Some (URI_SET_STR_ set_host u h).
Definition evhttp_uri_set_port (u : evhttp_uri) (p : Z) : evhttp_uri * Z :=
  if p <? -1 then (u, -1) else (set_port p u, 0).
Definition set_part (part : uri_part) (set : option (list Z) → evhttp_uri → evhttp_uri)
    (u : evhttp_uri) (s : option (list Z)) : evhttp_uri * Z :=
  if match s with
     | Some s => negb (bool_decide (end_of_path s part (uri_flags u) = []))
     | None => false
     end then (u, -1)
  else URI_SET_STR_ set u s.
Definition evhttp_uri_set_path : evhttp_uri → option (list Z) → evhttp_uri * Z :=
  set_part PART_PATH set_path.
Definition evhttp_uri_set_query : evhttp_uri → option (list Z) → evhttp_uri * Z :=
  set_part PART_QUERY set_query.
Definition evhttp_uri_set_fragment : evhttp_uri → option (list Z) → evhttp_uri * Z :=
  set_part PART_FRAGMENT set_fragment.
End uri.
