(* ===== verification/HttpText.v ===== *)
(** * What the text encodings of [http.c] compute

    Escaping for HTML, percent-encoding and its inverse, as functions on
    sequences: [html_copy_ok], [uriencode_ok], [decode_ok]. *)
From S2P Require Import Prelude Outcome Lines Evutil InetDefs EvbufferDefs EvbufferIface HttpUriDefs.

(** * Escaping for HTML *)

Definition html_text (html : list Z) : list Z := html ≫= html_replace.

(** The character an entity stands for, and how many bytes follow the ampersand. *)
Definition entity (s : list Z) : option (Z * nat) :=
  if bool_decide (take 3 s = [108; 116; 59]) then Some (60, 3%nat)
  else if bool_decide (take 3 s = [103; 116; 59]) then Some (62, 3%nat)
  else if bool_decide (take 5 s = [113; 117; 111; 116; 59]) then Some (34, 5%nat)
  else if bool_decide (take 5 s = [35; 48; 51; 57; 59]) then Some (39, 5%nat)
  else if bool_decide (take 4 s = [97; 109; 112; 59]) then Some (38, 4%nat)
  else None.
(** What a browser shows: entities stand for characters. *)
Fixpoint html_unescape (skip : nat) (s : list Z) : list Z :=
  match s with
  | [] => []
  | c :: s =>
      match skip with
      | S skip => html_unescape skip s
      | O =>
          match (if c =? 38 then entity s else None) with
          | Some (ch, n) => ch :: html_unescape n s
          | None => c :: html_unescape O s
          end
      end
  end.

Lemma html_replace_len c : 1 <= zlen (html_replace c) <= 6.
Proof. unfold html_replace. repeat case_match; by vm_compute. Qed.

Lemma html_text_len html : zlen html <= zlen (html_text html) <= 6 * zlen html.
Proof.
  induction html as [|c html IH]; [done|]. unfold html_text in *. simpl mbind.
  change (list_bind _ _ html_replace html) with (html ≫= html_replace).
  rewrite zlen_cons, zlen_app. pose proof (html_replace_len c). lia.
Qed.
Lemma html_text_cons c html : html_text (c :: html) = html_replace c ++ html_text html.
Proof. done. Qed.

Lemma html_size_ok html n :
  0 <= n → n + zlen (html_text html) <= EV_SIZE_MAX →
  html_size html n = Some (n + zlen (html_text html)).
Proof.
  revert n. induction html as [|c html IH]; intros n Hn H; simpl html_size.
  { f_equal. change (zlen (html_text [])) with 0. lia. }
  rewrite html_text_cons, zlen_app in *. pose proof (html_replace_len c).
  pose proof (html_text_len html). pose proof (zlen_nonneg html).
  destruct (Z.ltb_spec (EV_SIZE_MAX - n) (zlen (html_replace c))); [lia|].
  unfold EV_SIZE_MAX in *. rewrite u64_small by lia. rewrite IH by lia. f_equal. lia.
Qed.

Lemma html_copy_ok html : ∀ pre rest,
  zlen (html_text html) <= zlen rest →
  html_copy html (pre ++ rest) (zlen pre) =
    Some (pre ++ html_text html ++ zdrop (zlen (html_text html)) rest,
          zlen pre + zlen (html_text html)).
Proof.
  induction html as [|c html IH]; intros pre rest H; simpl html_copy.
  { change (html_text []) with (@nil Z). change (zlen (@nil Z)) with 0. by rewrite Z.add_0_r. }
  rewrite html_text_cons, zlen_app in *. pose proof (html_replace_len c).
  pose proof (html_text_len html). pose proof (zlen_nonneg html). pose proof (zlen_nonneg pre).
  rewrite memcpy_at_ok by (rewrite ?zlen_app; lia). cbn [mbind option_bind].
  rewrite ztake_app_le, ztake_all, zdrop_app_ge by lia.
  replace (zlen pre + zlen (html_replace c) - zlen pre) with (zlen (html_replace c)) by lia.
  rewrite app_assoc. replace (zlen pre + zlen (html_replace c)) with (zlen (pre ++ html_replace c)) by apply zlen_app.
  rewrite IH by (rewrite zlen_zdrop; lia). rewrite zdrop_zdrop by lia.
  rewrite zlen_app. by rewrite <- !app_assoc, Z.add_assoc.
Qed.

Lemma html_unescape_replace c s : html_unescape 0 (html_replace c ++ s) = c :: html_unescape 0 s.
Proof.
  unfold html_replace.
  repeat match goal with |- context [if c =? ?n then _ else _] => destruct (Z.eqb_spec c n); [subst; done|] end.
  simpl. by destruct (Z.eqb_spec c 38).
Qed.
Lemma html_unescape_text html : html_unescape 0 (html_text html) = html.
Proof.
  induction html as [|c html IH]; [done|]. by rewrite html_text_cons, html_unescape_replace, IH.
Qed.
Lemma html_text_safe html :
  Forall (λ c, c ≠ 60 ∧ c ≠ 62 ∧ c ≠ 34 ∧ c ≠ 39) (html_text html).
Proof.
  induction html as [|c html IH]; [constructor|]. rewrite html_text_cons. apply Forall_app. split; [|done].
  unfold html_replace.
  repeat match goal with |- context [if c =? ?n then _ else _] => destruct (Z.eqb_spec c n); [by repeat constructor|] end.
  by repeat constructor.
Qed.

(** * Percent-encoding *)

Lemma unreserved_zero : CHAR_IS_UNRESERVED 0 = false.
Proof. done. Qed.

(** What one byte becomes. *)
Definition enc_char (space_as_plus : bool) (c : Z) : list Z :=
  if CHAR_IS_UNRESERVED c then [c]
  else if (c =? 32) && space_as_plus then [43]
  else 37 :: sprint_02X (u8 c).
Definition enc_text (space_as_plus : bool) (s : list Z) : list Z := s ≫= enc_char space_as_plus.

Lemma enc_char_len plus c : 1 <= zlen (enc_char plus c) <= 3.
Proof. unfold enc_char. repeat case_match; vm_compute; split; discriminate. Qed.
Lemma enc_text_cons plus c s : enc_text plus (c :: s) = enc_char plus c ++ enc_text plus s.
Proof. done. Qed.
Lemma enc_text_len plus s : zlen (enc_text plus s) <= 3 * zlen s.
Proof.
  induction s as [|c s IH]; [done|]. rewrite enc_text_cons, zlen_app, zlen_cons.
  pose proof (enc_char_len plus c). lia.
Qed.

(** The decoder on sequences. *)
Fixpoint dec_text (query_ctl plus : bool) (s : list Z) {struct s} : list Z :=
  match s with
  | [] => []
  | c :: s1 =>
      if c =? 63 then c :: dec_text query_ctl (plus || query_ctl) s1
      else if (c =? 43) && plus then 32 :: dec_text query_ctl plus s1
      else
        match s1 with
        | a :: b :: s3 =>
            if (c =? 37) && EVUTIL_ISXDIGIT_ a && EVUTIL_ISXDIGIT_ b
            then u8 (strtol [a; b] 16).1 :: dec_text query_ctl plus s3
            else c :: dec_text query_ctl plus s1
        | _ => c :: dec_text query_ctl plus s1
        end
  end.

(** One character of the encoding is decoded to the byte it stands for. *)
Lemma dec_enc_char plus c s :
  byte c → dec_text false plus (enc_char plus c ++ s) = c :: dec_text false plus s.
Proof.
  intros Hc. unfold enc_char. destruct (CHAR_IS_UNRESERVED c) eqn:Hu.
  - assert (CHAR_IS_UNRESERVED 63 = false ∧ CHAR_IS_UNRESERVED 43 = false ∧ CHAR_IS_UNRESERVED 37 = false)
      as (H63 & H43 & H37) by done.
    simpl. destruct (Z.eqb_spec c 63); [by subst|]. destruct (Z.eqb_spec c 43); [by subst|].
    destruct (Z.eqb_spec c 37); [by subst|]. cbn [andb]. destruct s as [|a [|b s]]; done.
  - destruct ((c =? 32) && plus) eqn:Hs.
    { apply andb_true_iff in Hs as [E ->]. apply Z.eqb_eq in E as ->. done. }
    rewrite u8_small by (unfold byte in Hc; lia). cbn [app sprint_02X].
    assert (EVUTIL_ISXDIGIT_ (upper_digit (c / 16)) && EVUTIL_ISXDIGIT_ (upper_digit (c mod 16)) = true) as Hx.
    { revert Hc. by_table. }
    assert (u8 (strtol [upper_digit (c / 16); upper_digit (c mod 16)] 16).1 = c) as Hv.
    { revert Hc. by_table. }
    simpl dec_text. apply andb_true_iff in Hx as [-> ->]. rewrite Hv. done.
Qed.
Lemma dec_enc_text plus s : Forall byte s → dec_text false plus (enc_text plus s) = s.
Proof.
  induction 1 as [|c s Hc Hs IH]; [done|]. by rewrite enc_text_cons, dec_enc_char, IH.
Qed.

(** The output is made of unreserved characters, percent signs and plus signs. *)
Definition encoded_char (c : Z) : bool := CHAR_IS_UNRESERVED c || (c =? 37) || (c =? 43).
Lemma enc_text_chars plus s : Forall byte s → Forall (λ c, encoded_char c = true ∧ byte c) (enc_text plus s).
Proof.
  induction 1 as [|c s Hc Hs IH]; [constructor|]. rewrite enc_text_cons. apply Forall_app. split; [|done].
  assert (forallb encoded_char (enc_char plus c) &&
          forallb (λ b, (0 <=? b) && (b <? 256)) (enc_char plus c) = true) as H.
  { destruct plus; revert Hc; by_table. }
  apply andb_true_iff in H as [H1 H2].
  rewrite forallb_forall in H1, H2. apply Forall_forall. intros x Hx.
  apply list_elem_of_In in Hx. specialize (H1 x Hx). specialize (H2 x Hx).
  split; [done|]. unfold byte. lia.
Qed.

Lemma cstr_nonzero s rest : Forall (λ c, c ≠ 0) s → cstr (s ++ 0 :: rest) = s.
Proof. induction 1 as [|c s Hc Hs IH]; [done|]. simpl. destruct (Z.eqb_spec c 0); [done|]. by rewrite IH. Qed.

(** ** The decoder *)

(** One byte written at the end of what is written. *)
Lemma zset_end (out rest : list Z) r x : zset (out ++ r :: rest) (zlen out) x = Some ((out ++ [x]) ++ rest).
Proof.
  rewrite zset_in_range by (rewrite zlen_app, zlen_cons; pose proof (zlen_nonneg out); pose proof (zlen_nonneg rest); lia).
  unfold zlen. rewrite Nat2Z.id, insert_app_r_alt, Nat.sub_diag by lia. by rewrite <- app_assoc.
Qed.

Lemma decode_loop_ok (ctl : Z) fuel : ∀ pre s out rest plus,
  (length s < fuel)%nat → zlen (pre ++ s) <= INT_MAX → zlen out <= zlen pre → zlen s <= zlen rest →
  let d := dec_text (ctl <? 0) plus s in
  ∃ rest', decode_loop fuel (pre ++ s) (zlen pre) (zlen out) (out ++ rest) ctl plus =
    Some (out ++ d ++ rest', zlen out + zlen d) ∧ zlen rest' + zlen d = zlen rest.
Proof.
  induction fuel as [|fuel IH]; intros pre s out rest plus Hf Hmax Hout Hrest d; [lia|].
  simpl decode_loop. pose proof (zlen_nonneg pre). pose proof (zlen_nonneg out).
  destruct s as [|c s].
  { rewrite app_nil_r, Z.ltb_irrefl. exists rest. subst d. simpl. rewrite zlen_nil. split; [|lia].
    f_equal. f_equal. lia. }
  rewrite zlen_app, zlen_cons in *. pose proof (zlen_nonneg s).
  destruct (Z.ltb_spec (zlen pre) (zlen pre + (1 + zlen s))); [|lia].
  rewrite (zget_app_r pre (c :: s) (zlen pre)), Z.sub_diag by lia. change (zget (c :: s) 0) with (Some c). cbn [mbind option_bind].
  unfold INT_MAX in *.
  rewrite !u32_small by lia.
  destruct rest as [|r rest]; [rewrite zlen_nil in *; lia|]. rewrite zlen_cons in *.
  (* the next round, after [n] bytes [t] of the input gave the byte [x] *)
  assert (∀ x t s' plus', c :: s = t ++ s' → 0 < zlen t → d = x :: dec_text (ctl <? 0) plus' s' →
    ∃ rest', (_ ← assert_ (zlen out <? 2 ^ 31 - 1);
      decode_loop fuel (pre ++ c :: s) (u32 (zlen pre + zlen t - 1 + 1)) (zlen out + 1) ((out ++ [x]) ++ rest) ctl plus') =
      Some (out ++ d ++ rest', zlen out + zlen d) ∧ zlen rest' + zlen d = 1 + zlen rest) as Hnext.
  { intros x t s' plus' Et Ht Ed. assert (zlen t + zlen s' = 1 + zlen s) as Hl by (rewrite <- zlen_app, <- Et; apply zlen_cons).
    pose proof (zlen_nonneg s'). destruct (Z.ltb_spec (zlen out) (2 ^ 31 - 1)); [|lia]. cbn [assert_ mbind option_bind].
    rewrite Et, app_assoc, u32_small by lia.
    replace (zlen pre + zlen t - 1 + 1) with (zlen (pre ++ t)) by (rewrite zlen_app; lia).
    replace (zlen out + 1) with (zlen (out ++ [x])) by (rewrite zlen_app; done).
    destruct (IH (pre ++ t) s' (out ++ [x]) rest plus') as (rest' & -> & Hr).
    - apply (f_equal length) in Et. rewrite length_app in Et. simpl in Et, Hf. unfold zlen in Ht. lia.
    - rewrite !zlen_app. lia.
    - rewrite !zlen_app. change (zlen [x]) with 1. lia.
    - lia.
    - exists rest'. rewrite Ed, (zlen_app out), !(zlen_cons x). change (zlen [x]) with 1. rewrite <- app_assoc.
      split; [|lia]. f_equal. apply f_equal2; [done|rewrite zlen_nil; lia]. }
  destruct (Z.eqb_spec c 63) as [->|H63].
  { rewrite zset_end. cbn [mbind option_bind].
    destruct (Hnext 63 [63] s (plus || (ctl <? 0)) eq_refl) as (rest' & E & ?); [done|done|].
    change (zlen [63]) with 1 in E. rewrite Z.add_simpl_r in E. eauto. }
  destruct ((c =? 43) && plus) eqn:H43.
  { rewrite zset_end. cbn [mbind option_bind].
    destruct (Hnext 32 [c] s plus eq_refl) as (rest' & E & ?); [done| |].
    { subst d. simpl. rewrite H43. by destruct (Z.eqb_spec c 63). }
    change (zlen [c]) with 1 in E. rewrite Z.add_simpl_r in E. eauto. }
  assert (zget (pre ++ c :: s) (zlen pre + 1) = zget s 0) as ->.
  { rewrite zget_app_r by lia. by replace (zlen pre + 1 - zlen pre) with 1 by lia. }
  assert (zget (pre ++ c :: s) (zlen pre + 2) = zget s 1) as ->.
  { rewrite zget_app_r by lia. by replace (zlen pre + 2 - zlen pre) with 2 by lia. }
  destruct (_ && _ && _ && _) eqn:Hpct.
  - apply andb_true_iff in Hpct as [[[_ Hc]%andb_true_iff Ha]%andb_true_iff Hb].
    destruct s as [|a [|b s]]; [done|done|].     rewrite zset_end. cbn [mbind option_bind].
    destruct (Hnext (u8 (strtol [a; b] 16).1) [c; a; b] s plus eq_refl) as (rest' & E & ?); [done| |].
    { subst d. simpl in Ha, Hb |- *. rewrite H43, Hc, Ha, Hb. by destruct (Z.eqb_spec c 63). }
    change (zlen [c; a; b]) with 3 in E. replace (zlen pre + 3 - 1) with (zlen pre + 2) in E by lia. eauto.
  - rewrite zset_end. cbn [mbind option_bind].
    destruct (Hnext c [c] s plus eq_refl) as (rest' & E & ?); [done| |].
    { subst d. simpl. rewrite H43. destruct (Z.eqb_spec c 63); [done|].
      destruct s as [|a [|b s]]; [done|done|]. rewrite !zlen_cons in Hpct. simpl in Hpct.
      destruct (Z.ltb_spec (zlen pre + 2) (zlen pre + (1 + (1 + (1 + zlen s))))); [|pose proof (zlen_nonneg s); lia].
      cbn [andb] in Hpct. by rewrite Hpct. }
    change (zlen [c]) with 1 in E. rewrite Z.add_simpl_r in E. eauto.
Qed.

Lemma decode_ok uri ret ctl :
  zlen uri <= INT_MAX → zlen uri < zlen ret →
  let d := dec_text (ctl <? 0) (ctl =? 1) uri in
  ∃ rest, evhttp_decode_uri_internal uri ret ctl = Some (d ++ 0 :: rest, zlen d) ∧
    zlen (d ++ 0 :: rest) = zlen ret.
Proof.
  intros Hmax Hret d. unfold evhttp_decode_uri_internal.
  destruct (decode_loop_ok ctl (S (length uri)) [] uri [] ret (ctl =? 1)) as (rest & E & Hr);
    [lia|done|done|lia|].
  simpl app in E. change (zlen (@nil Z)) with 0 in E. fold d in E, Hr. rewrite E. cbn [mbind option_bind].
  assert (zlen d <= zlen uri) as Hd.
  { clear. subst d. revert ctl. intros ctl. generalize (ctl =? 1). generalize (ctl <? 0). intros q.
    induction uri as [uri IH] using (induction_ltof1 _ (@length Z)). unfold ltof in IH. intros plus.
    destruct uri as [|c s]; [done|]. simpl dec_text.
    assert (∀ p, zlen (dec_text q p s) <= zlen s) as H1 by (intros; apply IH; simpl; lia).
    repeat case_match; subst; rewrite !zlen_cons in *; try (pose proof (H1 plus); rewrite ?zlen_cons in *; lia);
      try (pose proof (H1 (plus || q)); rewrite ?zlen_cons in *; lia).
    assert (zlen (dec_text q plus l0) <= zlen l0) by (apply IH; simpl; lia). lia. }
  destruct rest as [|r rest]; [rewrite zlen_nil in Hr; lia|].
  rewrite Z.add_0_l, zset_end. cbn [mbind option_bind]. exists rest. rewrite <- app_assoc. split; [done|].
  rewrite zlen_app, !zlen_cons in *. lia.
Qed.

(** ** The encoder *)

Lemma memcpy_whole dst src : zlen dst = zlen src → memcpy_at dst 0 src = Some src.
Proof.
  intros E. rewrite memcpy_at_ok by lia. rewrite ztake_0, Z.add_0_l, zdrop_all by lia. by rewrite app_nil_r.
Qed.

Section encoder.
Context {MM : Malloc} {B : Type} `{EL : EvbufferLaws B}.

Lemma uriencode_loop_ok plus p : ∀ buf,
  eb_inv buf → zlen (eb_bytes buf) + zlen (enc_text plus p) <= eb_cap →
  ∃ buf', uriencode_loop buf p plus = Some buf' ∧ eb_inv buf' ∧
    eb_bytes buf' = eb_bytes buf ++ enc_text plus p.
Proof.
  induction p as [|c p IH]; intros buf Hi Hc.
  { exists buf. split; [done|]. split; [done|]. by rewrite app_nil_r. }
  rewrite enc_text_cons, zlen_app in *. pose proof (zlen_nonneg (enc_text plus p)).
  assert (∃ buf1 n, (if CHAR_IS_UNRESERVED c then eb_add buf [c]
                     else if (c =? 32) && plus then eb_add buf [43]
                     else eb_add_printf buf (37 :: sprint_02X (u8 c))) = Some (buf1, n) ∧
    eb_inv buf1 ∧ eb_bytes buf1 = eb_bytes buf ++ enc_char plus c) as (buf1 & n & E & Hi1 & E1).
  { unfold enc_char in *. destruct (CHAR_IS_UNRESERVED c); [|destruct ((c =? 32) && plus)].
    - destruct (eb_add_ok buf [c] Hi) as (?&?&?&?); [lia|eauto].
    - destruct (eb_add_ok buf [43] Hi) as (?&?&?&?); [lia|eauto].
    - destruct (eb_add_printf_ok buf (37 :: sprint_02X (u8 c)) Hi) as (?&?&?&?); [lia|eauto]. }
  simpl uriencode_loop. rewrite E. cbn [mbind option_bind].
  destruct (IH buf1 Hi1) as (buf' & -> & Hi' & E'); [rewrite E1, zlen_app; lia|].
  exists buf'. split; [done|]. split; [done|]. by rewrite E', E1, <- app_assoc.
Qed.

(** The bytes the encoder works on. *)
Definition encode_input (uri : list Z) (len : Z) : list Z :=
  if 0 <=? len then ztake len uri else cstr uri.

Lemma uriencode_ok uri len plus :
  len <= zlen uri → zlen (enc_text plus (encode_input uri len)) < eb_cap →
  zlen (cstr uri) < EV_SSIZE_MAX →
  let text := enc_text plus (encode_input uri len) in
  evhttp_uriencode uri len plus =
    Some (match mm_malloc (zlen text + 1) with Some _ => Some (text ++ [0]) | None => None end).
Proof.
  intros Hlen Hcap Hs text. unfold evhttp_uriencode. destruct eb_new_ok as (buf & -> & Hi & E0).
  assert ((len <? 0) && (EV_SSIZE_MAX <=? zlen (cstr uri)) = false) as -> by lia.
  assert ((if 0 <=? len then mem_read uri 0 len else Some (cstr uri)) = Some (encode_input uri len)) as ->.
  { unfold encode_input. destruct (Z.leb_spec 0 len); [|done]. by rewrite mem_read_ok, zdrop_0 by lia. }
  cbn [mbind option_bind]. fold text in Hcap.
  destruct (uriencode_loop_ok plus (encode_input uri len) buf Hi) as (buf1 & -> & Hi1 & E1).
  { rewrite E0, zlen_nil. fold text. lia. }
  rewrite E0, app_nil_l in E1. fold text in E1. cbn [mbind option_bind].
  destruct (eb_add_ok buf1 [0] Hi1) as (buf2 & -> & Hi2 & E2); [rewrite E1; change (zlen [0]) with 1; lia|].
  cbn [mbind option_bind]. destruct (eb_length_ok buf2 Hi2) as [-> _]. rewrite E1 in E2.
  assert (zlen (eb_bytes buf2) = zlen text + 1) as El by (rewrite E2, zlen_app; done). rewrite El.
  pose proof (zlen_nonneg text).
  destruct (mm_malloc (zlen text + 1)) as [result|] eqn:Em; [|done]. apply mm_malloc_len in Em; [|lia].
  destruct (eb_remove_ok buf2 (zlen text + 1) Hi2) as (buf3 & -> & _ & _); [lia|]. cbn [mbind option_bind].
  rewrite ztake_all by lia. rewrite memcpy_whole by lia. by rewrite E2.
Qed.
End encoder.
