(* ===== verification/HttpUri.v ===== *)
(** * The grammar of URIs, and the parser against it

    [uri_valid] says what the parts of a URI are made of, [uri_text] how they are
    put together; the scanners of [http.c] accept exactly the parts
    ([userinfo_ok_spec], [regname_ok_spec], [end_of_path_app],
    [end_of_path_split]). *)
From S2P Require Import Prelude Outcome Lines Evutil InetDefs Inet EvbufferDefs EvbufferIface EvbufferImpl HttpUriDefs.

(** * Strings *)

Definition char (c : Z) : Prop := byte c ∧ c ≠ 0.
Definition string (s : list Z) : Prop := Forall char s.

Lemma string_app s t : string (s ++ t) ↔ string s ∧ string t.
Proof. apply Forall_app. Qed.

(** A property of bytes, checked on all of them. *)
Lemma char_fact (P : Z → bool) c :
  char c → forallb (λ n, Nat.eqb n 0 || P (Z.of_nat n)) (seq 0 256) = true → P c = true.
Proof.
  intros [Hb Hc] H. pose proof (byte_cases (λ c, (c =? 0) || P c) c Hb) as E.
  assert ((c =? 0) || P c = true) as E'.
  { apply E. rewrite forallb_forall in H |- *. intros n Hn. specialize (H n Hn). simpl in H |- *.
    destruct n as [|n]; [done|]. cbn [Nat.eqb orb] in H. rewrite H. apply orb_true_r. }
  destruct (Z.eqb_spec c 0); done.
Qed.

(** * Percent-encoded text *)

(** Bytes of the class [P] and encoded bytes. *)
Fixpoint pct_ok (P : Z → bool) (s : list Z) {struct s} : bool :=
  match s with
  | [] => true
  | c :: s1 =>
      if P c then pct_ok P s1
      else
        match s1 with
        | a :: b :: s3 => (c =? 37) && EVUTIL_ISXDIGIT_ a && EVUTIL_ISXDIGIT_ b && pct_ok P s3
        | _ => false
        end
  end.

Definition base_char (c : Z) : bool := CHAR_IS_UNRESERVED c || in_subdelims c.
Definition userinfo_char (c : Z) : bool := base_char c || (c =? 58).
Definition pchar (c : Z) : bool := base_char c || (c =? 58) || (c =? 64) || (c =? 47).
Definition part_char (part : uri_part) (c : Z) : bool := pchar c || (c =? 63) && negb (is_path part).

(** Induction on the length of a text. *)
Lemma text_ind (P : list Z → Prop) :
  (∀ s, (∀ t, (length t < length s)%nat → P t) → P s) → ∀ s, P s.
Proof. intros H s. induction s as [s IH] using (induction_ltof1 _ (@length Z)). by apply H. Qed.

Lemma pct_ok_app P s t : pct_ok P s = true → pct_ok P t = true → pct_ok P (s ++ t) = true.
Proof.
  intros Hs Ht. induction s as [s IH] using text_ind. destruct s as [|c s1]; [done|]. simpl in *.
  destruct (P c); [apply IH; [lia|done]|]. destruct s1 as [|a [|b s3]]; [done|done|]. simpl in *.
  rewrite !andb_true_iff in Hs |- *. destruct Hs as (?&?). split; [done|]. apply IH; [lia|done].
Qed.

(** What holds of the class, of the percent sign and of hexadecimal digits holds
    throughout. *)
Lemma pct_ok_chars (P Q : Z → bool) s :
  pct_ok P s = true → (∀ c, c ∈ s → P c || (c =? 37) || EVUTIL_ISXDIGIT_ c = true → Q c = true) →
  Forall (λ c, Q c = true) s.
Proof.
  intros H HQ. induction s as [s IH] using text_ind. destruct s as [|c s1]; [done|]. simpl in H.
  destruct (P c) eqn:HP.
  - constructor; [apply HQ; [by left|by rewrite HP]|]. apply IH; [simpl; lia|done|]. intros d Hd. apply HQ. by right.
  - destruct s1 as [|a [|b s3]]; [done|done|]. rewrite !andb_true_iff in H. destruct H as [[[Hc Ha] Hb] H].
    constructor; [apply HQ; [set_solver|by rewrite Hc, orb_true_r]|].
    constructor; [apply HQ; [set_solver|by rewrite Ha, orb_true_r]|].
    constructor; [apply HQ; [set_solver|by rewrite Hb, orb_true_r]|].
    apply IH; [simpl; lia|done|]. intros d Hd. apply HQ. set_solver.
Qed.
(** In particular a byte outside these does not occur. *)
Lemma pct_ok_not P x s :
  pct_ok P s = true → P x || (x =? 37) || EVUTIL_ISXDIGIT_ x = false → x ∉ s.
Proof.
  intros H Hx Hin. pose proof (pct_ok_chars P (λ c, P c || (c =? 37) || EVUTIL_ISXDIGIT_ c) s H) as F.
  rewrite Forall_forall in F. specialize (F ltac:(done) x Hin). simpl in F. congruence.
Qed.

(** ** The scanners *)

Lemma ztake_pos (n : Z) (c : Z) s : 0 < n → ztake n (c :: s) = c :: ztake (n - 1) s.
Proof. intros. unfold ztake. by replace (Z.to_nat n) with (S (Z.to_nat (n - 1))) by lia. Qed.
Lemma zdrop_pos (n : Z) (c : Z) s : 0 < n → zdrop n (c :: s) = zdrop (n - 1) s.
Proof. intros. unfold zdrop. by replace (Z.to_nat n) with (S (Z.to_nat (n - 1))) by lia. Qed.

Lemma userinfo_ok_spec s : ∀ n, 0 <= n <= zlen s → userinfo_ok s n = pct_ok userinfo_char (ztake n s).
Proof.
  induction s as [s IH] using text_ind. intros n Hn.
  destruct (Z.ltb_spec 0 n) as [Hpos|]; [|assert (n = 0) as -> by lia; by destruct s].
  destruct s as [|c s1]; [change (zlen (@nil Z)) with 0 in Hn; lia|]. rewrite zlen_cons in Hn.
  rewrite ztake_pos by done. simpl. destruct (Z.ltb_spec 0 n); [|lia].
  change (CHAR_IS_UNRESERVED c || in_subdelims c || (c =? 58)) with (userinfo_char c).
  destruct (userinfo_char c); [apply IH; simpl; lia|].
  destruct s1 as [|a s1]; [unfold ztake; by rewrite take_nil|]. rewrite zlen_cons in Hn.
  destruct (Z.ltb_spec 2 n).
  - rewrite ztake_pos by lia. destruct s1 as [|b s3]; [change (zlen (@nil Z)) with 0 in Hn; lia|]. rewrite zlen_cons in Hn.
    rewrite ztake_pos by lia. rewrite IH by (simpl; lia). replace (n - 1 - 1 - 1) with (n - 3) by lia.
    rewrite andb_true_r. by destruct (c =? 37), (EVUTIL_ISXDIGIT_ a), (EVUTIL_ISXDIGIT_ b).
  - assert (n = 1 ∨ n = 2) as [-> | ->] by lia; simpl; destruct s1; by rewrite ?andb_false_r.
Qed.

(** Nothing behind the range continues an encoded byte. *)
Definition not_hex_next (s : list Z) : Prop :=
  match s with [] => True | x :: _ => EVUTIL_ISXDIGIT_ x = false end.

Lemma regname_ok_spec s : ∀ n, 0 <= n <= zlen s → not_hex_next (zdrop n s) →
  regname_ok s n = pct_ok base_char (ztake n s).
Proof.
  induction s as [s IH] using text_ind. intros n Hn Hx.
  destruct (Z.ltb_spec 0 n) as [Hpos|]; [|assert (n = 0) as -> by lia; by destruct s].
  destruct s as [|c s1]; [change (zlen (@nil Z)) with 0 in Hn; lia|]. rewrite zlen_cons in Hn.
  rewrite ztake_pos by done. rewrite zdrop_pos in Hx by done. simpl. destruct (Z.ltb_spec 0 n); [|lia].
  change (CHAR_IS_UNRESERVED c || in_subdelims c) with (base_char c).
  destruct (base_char c); [apply IH; simpl; done || lia|].
  destruct s1 as [|a s1]; [unfold ztake; by rewrite take_nil|]. rewrite zlen_cons in Hn.
  destruct (Z.ltb_spec 2 n).
  - rewrite ztake_pos by lia. destruct s1 as [|b s3]; [change (zlen (@nil Z)) with 0 in Hn; lia|]. rewrite zlen_cons in Hn.
    rewrite !zdrop_pos in Hx by lia.
    rewrite ztake_pos by lia. rewrite IH; [|simpl; lia|lia|].
    + replace (n - 1 - 1 - 1) with (n - 3) by lia.
      by destruct (c =? 37), (EVUTIL_ISXDIGIT_ a), (EVUTIL_ISXDIGIT_ b).
    + by replace (n - 3) with (n - 1 - 1 - 1) by lia.
  - assert (n = 1 ∨ n = 2) as [-> | ->] by lia.
    + simpl in Hx. destruct s1; [done|]. simpl. by rewrite Hx, andb_false_r.
    + simpl in Hx. destruct s1 as [|b s3]; [done|]. simpl in Hx |- *. by rewrite Hx, !andb_false_r.
Qed.

(** ** Ends of parts *)

Lemma conformant_end_app part s rest :
  pct_ok (part_char part) s = true →
  match rest with [] => True | c :: _ => part_char part c = false ∧ c ≠ 37 end →
  conformant_end (s ++ rest) part = rest.
Proof.
  intros Hs Hr. induction s as [s IH] using text_ind. destruct s as [|c s1].
  - destruct rest as [|c r]; [done|]. destruct Hr as [Hc H37]. unfold part_char in Hc.
    apply orb_false_iff in Hc as [Hp Hq]. simpl.
    change (CHAR_IS_UNRESERVED c || in_subdelims c || (c =? 58) || (c =? 64) || (c =? 47)) with (pchar c).
    rewrite Hp, Hq. destruct (Z.eqb_spec c 37); [done|]. by destruct r as [|? [|]].
  - simpl in Hs |- *.
    change (CHAR_IS_UNRESERVED c || in_subdelims c || (c =? 58) || (c =? 64) || (c =? 47)) with (pchar c).
    unfold part_char in Hs. destruct (pchar c) eqn:Hp; [apply IH; simpl in *; done || lia|].
    rewrite orb_false_l in Hs. destruct ((c =? 63) && negb (is_path part)) eqn:Hq.
    + assert (conformant_end (s1 ++ rest) part = rest) as -> by (apply IH; [simpl; lia|done]).
      apply andb_true_iff in Hq as [->%Z.eqb_eq _]. by destruct (s1 ++ rest) as [|? [|]].
    + destruct s1 as [|a [|b s3]]; [done|done|]. rewrite !andb_true_iff in Hs.
      destruct Hs as [[[Hc Ha] Hb] Hs]. simpl. rewrite Hc, Ha, Hb. apply IH; [simpl; lia|done].
Qed.

(** A part of a URI under the flags of the parser. *)
Definition stops_part (part : uri_part) (c : Z) : bool :=
  match part with
  | PART_PATH => (c =? 35) || (c =? 63)
  | PART_QUERY => c =? 35
  | PART_FRAGMENT => false
  end.
Definition part_ok (flags : Z) (part : uri_part) (s : list Z) : bool :=
  if has flags EVHTTP_URI_NONCONFORMANT then forallb (λ c, negb (stops_part part c)) s
  else pct_ok (part_char part) s.

Lemma skip_until_app stop s rest :
  forallb (λ c, negb (stop c)) s = true → match rest with [] => True | c :: _ => stop c = true end →
  skip_until stop (s ++ rest) = rest.
Proof.
  intros Hs Hr. induction s as [|c s IH]; simpl in *.
  - destruct rest as [|c r]; [done|]. simpl. by rewrite Hr.
  - apply andb_true_iff in Hs as [Hc Hs]. destruct (stop c); [done|]. by apply IH.
Qed.
Lemma skip_until_split stop s :
  ∃ p, s = p ++ skip_until stop s ∧ forallb (λ c, negb (stop c)) p = true.
Proof.
  induction s as [|c s (p & E & Hp)]; [by exists []|]. simpl. destruct (stop c) eqn:Hc; [by exists []|].
  exists (c :: p). split; [by rewrite <- app_comm_cons, <- E|]. simpl. by rewrite Hc, Hp.
Qed.

Lemma end_of_path_app flags part s rest :
  part_ok flags part s = true →
  match rest with [] => True | c :: _ => stops_part part c = true end →
  end_of_path (s ++ rest) part flags = rest.
Proof.
  unfold part_ok, end_of_path. destruct (has flags EVHTTP_URI_NONCONFORMANT).
  - intros Hs Hr. destruct part.
    + by apply skip_until_app.
    + by apply skip_until_app.
    + by destruct rest.
  - intros Hs Hr. apply conformant_end_app; [done|]. destruct rest as [|c r]; [done|].
    destruct part; simpl in Hr; [apply orb_true_iff in Hr as [->%Z.eqb_eq| ->%Z.eqb_eq]|apply Z.eqb_eq in Hr as ->|];
      done.
Qed.

Lemma conformant_end_split part s :
  ∃ p, s = p ++ conformant_end s part ∧ pct_ok (part_char part) p = true.
Proof.
  induction s as [s IH] using text_ind. destruct s as [|c s1]; [by exists []|]. simpl.
  change (CHAR_IS_UNRESERVED c || in_subdelims c || (c =? 58) || (c =? 64) || (c =? 47)) with (pchar c).
  assert (part_char part c = true → ∃ p, c :: s1 = p ++ conformant_end s1 part ∧ pct_ok (part_char part) p = true) as H1.
  { intros Hc. destruct (IH s1) as (p & E & Hp); [simpl; lia|]. exists (c :: p).
    split; [by rewrite <- app_comm_cons, <- E|]. simpl. by rewrite Hc. }
  unfold part_char at 1 in H1. destruct (pchar c) eqn:Hc; [by apply H1|].
  assert (∃ p, c :: s1 = p ++ (if (c =? 63) && negb (is_path part) then conformant_end s1 part else c :: s1) ∧
    pct_ok (part_char part) p = true) as H2.
  { destruct ((c =? 63) && negb (is_path part)); [by apply H1|by exists []]. }
  destruct s1 as [|a [|b s3]]; [done|done|].
  destruct ((c =? 37) && _ && _) eqn:Hx; [|done].
  destruct (IH s3) as (p & E & Hp); [simpl; lia|]. exists (c :: a :: b :: p).
  split; [by rewrite <- !app_comm_cons, <- E|]. apply andb_true_iff in Hx as [[Hx1 Hx2]%andb_true_iff Hx3].
  apply Z.eqb_eq in Hx1 as ->. change (part_char part 37) with (part_char part 37).
  simpl. destruct (part_char part 37) eqn:H37; [by destruct part|]. by rewrite Hx2, Hx3.
Qed.

Lemma end_of_path_split flags part s :
  ∃ p, s = p ++ end_of_path s part flags ∧ part_ok flags part p = true.
Proof.
  unfold part_ok, end_of_path. destruct (has flags EVHTTP_URI_NONCONFORMANT); [|apply conformant_end_split].
  destruct part; [apply skip_until_split|apply skip_until_split|].
  exists s. split; [by rewrite app_nil_r|]. by apply forallb_forall.
Qed.

Lemma upto_app s rest : upto (s ++ rest) rest = s.
Proof. unfold upto. rewrite zlen_app, Z.add_simpl_r, ztake_app_le, ztake_all; auto with evlib; pose proof (zlen_nonneg s); lia. Qed.

(** ** Schemes *)

Lemma scheme_ok_chars s :
  string s → scheme_ok s = true →
  Forall (λ c, scheme_char c = true) s ∧ s ≠ [] ∧ ∀ x, x ∈ [58; 47; 63; 35] → x ∉ s.
Proof.
  destruct s as [|c s]; [done|]. simpl. intros Hs [Ha Hf]%andb_true_iff. apply Forall_cons in Hs as [Hc Hs].
  assert (Forall (λ c, scheme_char c = true) (c :: s)) as F.
  { constructor; [|by apply Forall_forall; intros x Hx; rewrite forallb_forall in Hf; apply Hf, list_elem_of_In].
    unfold scheme_char. rewrite ISALNUM_ok by apply Hc. by rewrite Ha. }
  split; [done|]. split; [done|]. intros x Hx Hin. rewrite Forall_forall in F. specialize (F x Hin).
  simpl in F. repeat (apply elem_of_cons in Hx as [->|Hx]; [by vm_compute in F|]). by apply elem_of_nil in Hx.
Qed.

(** ** Hosts *)

Lemma future_version_split s : ∀ n s' n', 0 <= n →
  future_version s n = Some (s', n') →
  ∃ p, s = p ++ s' ∧ Forall (λ c, EVUTIL_ISXDIGIT_ c = true) p ∧ n = zlen p + n' ∧ 0 <= n'.
Proof.
  induction s as [|c s IH]; intros n s' n' Hn H; simpl in H.
  { injection H as <- <-. by exists []. }
  destruct (Z.ltb_spec 0 n); simpl in H; [|injection H as <- <-; by exists []].
  destruct (Z.eqb_spec c 46); simpl in H; [injection H as <- <-; by exists []|].
  destruct (EVUTIL_ISXDIGIT_ c) eqn:Hc; [|done].
  apply IH in H as (p & -> & Hp & E & ?); [|lia]. exists (c :: p). split; [done|]. split; [by constructor|].
  rewrite zlen_cons. lia.
Qed.
Lemma future_version_app s rest : ∀ n, 0 <= n < zlen s →
  future_version (s ++ rest) n =
  match future_version s n with Some (s', n') => Some (s' ++ rest, n') | None => None end.
Proof.
  induction s as [|c s IH]; intros n Hn; [change (zlen (@nil Z)) with 0 in Hn; lia|]. rewrite zlen_cons in Hn. simpl.
  destruct (Z.ltb_spec 0 n); simpl; [|done]. destruct (c =? 46); [done|]. simpl.
  destruct (EVUTIL_ISXDIGIT_ c); [apply IH; lia|done].
Qed.

Section host.
Context (words0 : list Z).
#[local] Abbreviation bracket_addr_ok := (bracket_addr_ok words0).

(** Only the bytes before [eos] matter. *)
Lemma bracket_app h rest : bracket_addr_ok (h ++ rest) (zlen h) = bracket_addr_ok h (zlen h).
Proof.
  unfold bracket_addr_ok. destruct (Z.ltb_spec (zlen h) 3); [done|].
  destruct h as [|c0 [|c1 [|c2 h]]]; try done. rewrite zget_app_l by lia. simpl hd. simpl tl.
  destruct (_ || _); [done|]. destruct (Z.eqb_spec c1 118).
  - simpl drop. rewrite !zlen_cons. replace (1 + (1 + (1 + zlen h)) - 3) with (zlen h) by lia.
    destruct (negb (EVUTIL_ISXDIGIT_ c2)); [done|]. change (c2 :: h ++ rest) with ((c2 :: h) ++ rest).
    pose proof (zlen_nonneg h). rewrite future_version_app by (rewrite zlen_cons; lia).
    destruct (future_version (c2 :: h) (zlen h)) as [[s n]|] eqn:E; [|done].
    apply future_version_split in E as (p & E & _ & En & Hn); [|lia].
    apply (f_equal zlen) in E. rewrite zlen_cons, zlen_app in E.
    destruct s as [|d s]; [change (zlen (@nil Z)) with 0 in E; lia|]. rewrite zlen_cons in E. simpl.
    destruct (d =? 46); [|done]. simpl. destruct (Z.eq_dec n 0) as [->|]; [done|]. by rewrite ztake_app_le by lia.
  - rewrite !zlen_cons. destruct (64 <=? _); [done|].
    change (c1 :: c2 :: h ++ rest) with ((c1 :: c2 :: h) ++ rest).
    by rewrite ztake_app_le by (rewrite !zlen_cons; pose proof (zlen_nonneg h); lia).
Qed.

Lemma bracket_total (Hw0 : zlen words0 = 8) (Hw : Forall word16 words0) s n : ∃ r, bracket_addr_ok s n = Some r.
Proof.
  unfold bracket_addr_ok. repeat case_match; eauto. cbn [mbind option_bind].
  destruct (pton6_determined (ztake (n - 2) (tl s)) words0 words0) as (rc & a & -> & _); try done.
  cbn [mbind option_bind]. eauto.
Qed.

(** What is accepted begins and ends with its brackets and has none of the bytes
    that end an authority or its parts. *)
Lemma bracket_accepts h r :
  string h → bracket_addr_ok h (zlen h) = Some r → r ≠ 0 →
  hd 0 h = 91 ∧ 3 <= zlen h ∧ zget h (zlen h - 1) = Some 93 ∧ (∀ x, x ∈ [47; 63; 35; 64] → x ∉ h).
Proof.
  intros Hs H Hr. unfold bracket_addr_ok in H. destruct (Z.ltb_spec (zlen h) 3); [injection H as <-; done|].
  simpl in H. destruct (Z.eqb_spec (hd 0 h) 91) as [H91|]; [|injection H as <-; done].
  destruct (bool_decide_reflect (zget h (zlen h - 1) = Some 93)) as [H93|]; [|injection H as <-; done].
  split; [done|]. split; [done|]. split; [done|]. simpl in H.
  destruct h as [|c0 h]; [done|]. simpl in H91. subst c0.
  assert (∃ m, h = m ++ [93]) as [m ->].
  { destruct (exists_last (l := h)) as (m & z & ->); [by intros ->; rewrite zlen_cons in *; change (zlen (@nil Z)) with 0 in *; lia|].
    exists m. rewrite zlen_cons, zlen_app in H93. change (zlen [z]) with 1 in H93.
    change (91 :: m ++ [z]) with ((91 :: m) ++ [z]) in H93.
    rewrite zget_app_r in H93 by (rewrite zlen_cons; lia). rewrite zlen_cons in H93.
    replace (1 + (zlen m + 1) - 1 - (1 + zlen m)) with 0 in H93 by lia. by injection H93 as ->. }
  assert (Forall (λ c, (c =? 118) || future_char c || EVUTIL_ISXDIGIT_ c || pton_char c = true) m) as Hm.
  { rewrite !zlen_cons, zlen_app in H. change (zlen [93]) with 1 in H. simpl tl in H.
    destruct m as [|c1 m]; [by rewrite zlen_cons, zlen_app in *; change (zlen [93]) with 1 in *; change (zlen (@nil Z)) with 0 in *; lia|].
    rewrite !zlen_cons in H. simpl in H. destruct (Z.eqb_spec c1 118) as [->|].
    - replace (1 + (1 + zlen m + 1) - 3) with (zlen m) in H by lia. rewrite drop_0 in H.
      destruct (negb (EVUTIL_ISXDIGIT_ (hd 0 (m ++ [93])))); [injection H as <-; done|].
      destruct (future_version (m ++ [93]) (zlen m)) as [[s n]|] eqn:E; [|injection H as <-; done].
      apply future_version_split in E as (p & E & Hp & En & Hn); [|auto with evlib].
      destruct s as [|d s]; [injection H as <-; done|]. simpl in H.
      destruct (Z.eqb_spec d 46) as [->|]; [|injection H as <-; done]. simpl in H.
      destruct (forallb future_char (ztake (n - 1) s)) eqn:Hf; [|injection H as <-; done].
      assert (m = p ++ 46 :: ztake (n - 1) s ∨ m = p) as Hm.
      { destruct (Z.le_gt_cases n 0); [right|left].
        - assert (n = 0) as -> by lia. apply (f_equal (ztake (zlen m))) in E.
          rewrite ztake_app_le, ztake_all in E by (pose proof (zlen_nonneg m); lia). rewrite E, En, Z.add_0_r.
          rewrite ztake_app_le, ztake_all; [done|lia|pose proof (zlen_nonneg p); lia].
        - apply (f_equal (ztake (zlen m))) in E.
          rewrite ztake_app_le, ztake_all in E by (pose proof (zlen_nonneg m); lia). rewrite E, En.
          rewrite ztake_app_ge by (pose proof (zlen_nonneg p); lia). f_equal.
          replace (zlen p + n - zlen p) with n by lia. by rewrite ztake_pos by lia. }
      constructor; [done|].
      assert (Forall (λ c, (c =? 118) || future_char c || EVUTIL_ISXDIGIT_ c || pton_char c = true) p) as Hp'.
      { eapply Forall_impl; [exact Hp|]. intros c ->. by rewrite orb_true_r. }
      destruct Hm as [-> | ->]; [|done]. apply Forall_app. split; [done|]. constructor; [done|].
      apply Forall_forall. intros c Hc. rewrite forallb_forall in Hf. rewrite (Hf c) by by apply list_elem_of_In.
      by rewrite orb_true_r.
    - destruct (64 <=? _); [injection H as <-; done|].
      replace (1 + (1 + zlen m + 1) - 2) with (zlen (c1 :: m)) in H by (rewrite zlen_cons; lia).
      change (c1 :: m ++ [93]) with ((c1 :: m) ++ [93]) in H.
      rewrite ztake_app_le, ztake_all in H by (pose proof (zlen_nonneg (c1 :: m)); lia).
      destruct (evutil_inet_pton words0 AF_INET6 (c1 :: m)) as [[rc a]|] eqn:Ep; [|done]. cbn [mbind option_bind] in H.
      destruct (Z.eqb_spec rc 1) as [->|]; [|injection H as <-; done]. apply pton_accepts in Ep.
      eapply Forall_impl; [exact Ep|]. intros c ->. by rewrite orb_true_r. }
  intros x Hx Hin. apply elem_of_cons in Hin as [->|Hin]; [set_solver|].
  apply elem_of_app in Hin as [Hin|Hin]; [|set_solver].
  rewrite Forall_forall in Hm. specialize (Hm x Hin). simpl in Hm.
  repeat (apply elem_of_cons in Hx as [->|Hx]; [by vm_compute in Hm|]). by apply elem_of_nil in Hx.
Qed.

Definition host_valid (h : list Z) : Prop :=
  if hd 0 h =? 91 then ∃ r, bracket_addr_ok h (zlen h) = Some r ∧ r ≠ 0 else pct_ok base_char h = true.

Lemma host_valid_chars h : string h → host_valid h → ∀ x, x ∈ [47; 63; 35; 64] → x ∉ h.
Proof.
  intros Hs Hv x Hx. unfold host_valid in Hv. destruct (hd 0 h =? 91).
  - destruct Hv as (r & Hr & Hne). by apply (bracket_accepts h r).
  - apply (pct_ok_not base_char); [done|].
    repeat (apply elem_of_cons in Hx as [->|Hx]; [done|]). by apply elem_of_nil in Hx.
Qed.
End host.

(** ** Ports *)

(** The text behind the host for a port; [-1] for none. *)
Definition port_text (p : Z) (pd : list Z) : Prop :=
  p = -1 ∧ (pd = [] ∨ pd = [58]) ∨
  ∃ ds, pd = 58 :: ds ∧ ds ≠ [] ∧ Forall (λ c, is_digit 10 c = true) ds ∧ number 10 0 ds = p ∧ p <= 65535.

Lemma is_digit10 c : is_digit 10 c = true ↔ 48 <= c <= 57.
Proof. unfold is_digit, digit_val. repeat case_match; lia. Qed.
Lemma digit_byte c : is_digit 10 c = true → byte c.
Proof. rewrite is_digit10. unfold byte. lia. Qed.

Lemma number_mono acc ds : 0 <= acc → Forall (λ c, is_digit 10 c = true) ds → acc <= number 10 acc ds.
Proof.
  intros Ha Hd. revert acc Ha. induction Hd as [|c ds Hc Hd IH]; intros acc Ha; simpl; [lia|].
  apply is_digit10 in Hc. assert (digit_val c = c - 48) as ->.
  { unfold digit_val. destruct (Z.leb_spec 48 c), (Z.leb_spec c 57); simpl; lia. }
  etransitivity; [|apply IH]; lia.
Qed.

Lemma parse_port_loop_ok s : Forall byte s → ∀ acc, 0 <= acc <= 65535 →
  parse_port_loop s acc =
  if forallb (is_digit 10) s && (number 10 acc s <=? 65535) then number 10 acc s else -1.
Proof.
  induction 1 as [|c s Hc Hs IH]; intros acc Ha; simpl.
  { by destruct (Z.leb_spec acc 65535); [|lia]. }
  rewrite ISDIGIT_ok by done. destruct (is_digit 10 c) eqn:Hd; [|done]. simpl.
  apply is_digit10 in Hd. assert (digit_val c = c - 48) as ->.
  { unfold digit_val. destruct (Z.leb_spec 48 c), (Z.leb_spec c 57); simpl; lia. }
  destruct (Z.ltb_spec (acc * 10 + (c - 48)) 0); [lia|].
  destruct (Z.ltb_spec 65535 (acc * 10 + (c - 48))); [|apply IH; lia].
  destruct (forallb (is_digit 10) s) eqn:Hf; [|done]. simpl.
  assert (Forall (λ c, is_digit 10 c = true) s) as F
    by (apply Forall_forall; intros x Hx; rewrite forallb_forall in Hf; apply Hf, list_elem_of_In, Hx).
  pose proof (number_mono (acc * 10 + (c - 48)) s ltac:(lia) F).
  destruct (Z.leb_spec (number 10 (acc * 10 + (c - 48)) s) 65535); [lia|done].
Qed.

(** The digits at the end of a text. *)
Lemma count_digits_split hp : Forall byte hp →
  ∃ pre ds, hp = pre ++ ds ∧ length ds = count_digits (reverse hp) ∧
    Forall (λ c, is_digit 10 c = true) ds ∧ ∀ z, last pre = Some z → is_digit 10 z = false.
Proof.
  intros Hb. induction hp as [|c hp IH] using rev_ind; [by exists [], []|].
  apply Forall_app in Hb as [Hb Hc]. apply Forall_inv in Hc. rewrite reverse_app. simpl.
  rewrite ISDIGIT_ok by done. destruct (is_digit 10 c) eqn:Hd.
  - destruct (IH Hb) as (pre & ds & -> & El & Hds & Hl). exists pre, (ds ++ [c]).
    split; [by rewrite app_assoc|]. split; [rewrite length_app; simpl; lia|].
    split; [apply Forall_app; split; [done|by constructor]|done].
  - exists (hp ++ [c]), []. split; [by rewrite app_nil_r|]. split; [done|]. split; [constructor|].
    intros z. rewrite last_snoc. by intros [= ->].
Qed.

Lemma zget_last {A} (l : list A) x : zget (l ++ [x]) (zlen l) = Some x.
Proof. by rewrite zget_app_r, Z.sub_diag by lia. Qed.

Lemma authority_port_ok t e st :
  Forall byte t → 0 <= e <= zlen t → port st = -1 →
  pwp (authority_port t e)
    (λ e' st', ∃ pd, ztake e t = ztake e' t ++ pd ∧ 0 <= e' <= e ∧ port_text (port st') pd ∧
       st' = set_port (port st') st ∧ (e' = e ∨ zget t e' = Some 58)) (λ _, True) st.
Proof.
  intros Hb He Hport. unfold authority_port.
  destruct (count_digits_split (ztake e t)) as (pre & ds & E & El & Hds & Hl); [by apply Forall_take|].
  rewrite <- El. set (hp := ztake e t) in *.
  assert (zlen hp = e) as Ehp by (apply zlen_ztake; lia).
  assert (zlen pre + zlen ds = e) as Elen by (rewrite <- Ehp, E, zlen_app; done).
  change (Z.of_nat (length ds)) with (zlen ds). replace (e - 1 - zlen ds) with (zlen pre - 1) by lia.
  apply pwp_if; intros Hc.
  2:{ apply pwp_ret. exists []. rewrite app_nil_r. split; [done|]. split; [lia|]. split; [left; auto|].
      split; [by destruct st|by left]. }
  apply andb_true_iff in Hc as [Hp Hc]. apply bool_decide_eq_true in Hc.
  destruct (exists_last (l := pre)) as (pre' & z & ->); [intros ->; change (zlen (@nil Z)) with 0 in Hp; lia|].
  rewrite zlen_app in *. change (zlen [z]) with 1 in *. rewrite Z.add_simpl_r in *.
  pose proof (zlen_nonneg pre'). pose proof (zlen_nonneg ds).
  assert (t = pre' ++ [z] ++ ds ++ zdrop e t) as Et.
  { rewrite <- (ztake_zdrop e t) at 1. fold hp. by rewrite E, <- !app_assoc. }
  assert (z = 58) as ->.
  { rewrite Et, app_assoc, zget_app_l in Hc by (rewrite zlen_app; change (zlen [z]) with 1; lia).
    rewrite zget_last in Hc. congruence. }
  assert (ztake (zlen pre') t = pre') as Epre by (rewrite Et, ztake_app_le, ztake_all; lia || done).
  assert (ztake (e - (zlen pre' + 1)) (zdrop (zlen pre' + 1) t) = ds) as Eds.
  { rewrite Et at 1. rewrite app_assoc, zdrop_app_ge by (rewrite zlen_app; change (zlen [58]) with 1; lia).
    rewrite zlen_app. change (zlen [58]) with 1. rewrite Z.sub_diag, zdrop_0.
    rewrite ztake_app_le, ztake_all; lia || done. }
  pwp_step. pwp_step. pwp_step. pwp_step.
  - pwp_step. pwp_step. exists [58]. rewrite Epre. assert (ds = []) as -> by (apply zlen_nil_inv; lia).
    split; [by rewrite E, app_nil_r|]. split; [lia|]. split; [left; auto|]. split; [done|by right].
  - pwp_step. pwp_step; [done|]. pwp_step. pwp_step. rewrite Eds in *. unfold parse_port in *.
    assert (Forall byte ds) as Hbd by (eapply Forall_impl; [exact Hds|apply digit_byte]).
    rewrite parse_port_loop_ok in * by done || lia.
    destruct (forallb _ ds && _) eqn:Hok; [|lia]. apply andb_true_iff in Hok as [_ Hok].
    exists (58 :: ds). rewrite Epre. split; [by rewrite E, <- app_assoc|]. split; [lia|].
    split; [|split; [done|by right]]. right. exists ds. split; [done|].
    split; [intros ->; change (zlen (@nil Z)) with 0 in *; lia|]. simpl. split_and!; auto; lia.
Qed.

(** A host that would not be cut at a colon. *)
Definition no_port (h : list Z) : Prop :=
  ∀ pre ds, h = pre ++ 58 :: ds → ¬ Forall (λ c, is_digit 10 c = true) ds.

Lemma host_no_port words0 h : string h → host_valid words0 h → no_port h.
Proof.
  intros Hs Hv pre ds E Hd. unfold host_valid in Hv. destruct (hd 0 h =? 91) eqn:H91.
  - destruct Hv as (r & Hr & Hne). destruct (bracket_accepts words0 h r) as (_ & H3 & H93 & _); [done|done|done|].
    destruct ds as [|d ds _] using rev_ind.
    + rewrite E, zlen_app in H93. change (zlen [58]) with 1 in H93. rewrite Z.add_simpl_r, zget_last in H93. done.
    + apply Forall_app in Hd as [_ Hd]. apply Forall_inv in Hd.
      rewrite E, app_comm_cons, app_assoc, zlen_app in H93. change (zlen [d]) with 1 in H93.
      rewrite Z.add_simpl_r, zget_last in H93. injection H93 as ->. done.
  - assert (58 ∉ h) as Hn by by apply (pct_ok_not base_char).
    apply Hn. rewrite E. set_solver.
Qed.

Lemma authority_port_run h pd p rest st :
  Forall byte h → port_text p pd → (pd = [] → no_port h) → port st = -1 →
  authority_port (h ++ pd ++ rest) (zlen (h ++ pd)) st = Ret (zlen h) (set_port p st).
Proof.
  intros Hb Hp Hn Hst. unfold authority_port. rewrite app_assoc, ztake_app_le, ztake_all by (pose proof (zlen_nonneg (h ++ pd)); lia).
  pose proof (zlen_nonneg h). rewrite zlen_app.
  assert (∀ ds, Forall (λ c, is_digit 10 c = true) ds →
    Z.of_nat (count_digits (reverse (h ++ 58 :: ds))) = zlen ds) as Hcount.
  { intros ds Hd. rewrite reverse_app, reverse_cons, <- app_assoc.
    rewrite count_digits_app; [by unfold zlen; rewrite length_reverse| |].
    - apply Forall_reverse. eapply Forall_impl; [exact Hd|]. intros c Hc. by rewrite ISDIGIT_ok by by apply digit_byte.
    - simpl. by intros ? [= <-]. }
  assert (∀ ds, zget ((h ++ 58 :: ds) ++ rest) (zlen h) = Some 58) as Hg.
  { intros ds. rewrite <- app_assoc, zget_app_r, Z.sub_diag by lia. done. }
  destruct Hp as [[-> [-> | ->]]|(ds & -> & Hne & Hd & Hv & Hmax)].
  - change (zlen (@nil Z)) with 0. rewrite !app_nil_r, Z.add_0_r in *.
    destruct (count_digits_split h Hb) as (pre & ds & E & El & Hds & Hl). rewrite <- El.
    change (Z.of_nat (length ds)) with (zlen ds).
    assert (((0 <=? zlen h - 1 - zlen ds) && bool_decide (zget (h ++ rest) (zlen h - 1 - zlen ds) = Some 58)) = false) as ->.
    { destruct (Z.leb_spec 0 (zlen h - 1 - zlen ds)) as [Hle|]; [|done]. simpl. apply bool_decide_eq_false. intros Hc.
      assert (zlen h = zlen pre + zlen ds) as El' by (rewrite E at 1; apply zlen_app).
      destruct (exists_last (l := pre)) as (pre' & z & ->); [intros ->; change (zlen (@nil Z)) with 0 in *; lia|].
      rewrite zlen_app in El'. change (zlen [z]) with 1 in El'.
      replace (zlen h - 1 - zlen ds) with (zlen pre') in Hc by lia.
      rewrite E, <- !app_assoc, zget_app_r, Z.sub_diag in Hc by lia. simpl in Hc. injection Hc as ->.
      apply (Hn eq_refl pre' ds); [by rewrite E, <- app_assoc|done]. }
    by destruct st; simpl in Hst; subst.
  - change (zlen [58]) with 1. rewrite (Hcount []) by constructor. change (zlen (@nil Z)) with 0.
    replace (zlen h + 1 - 1 - 0) with (zlen h) by lia. rewrite (Hg []). rewrite bool_decide_eq_true_2 by done.
    destruct (Z.leb_spec 0 (zlen h)); [|lia]. simpl. unfold mbind, parser_bind, pget. cbv beta iota.
    by destruct (Z.eqb_spec (zlen h + 1) (zlen h + 1)).
  - rewrite zlen_cons, Hcount by done. replace (zlen h + (1 + zlen ds) - 1 - zlen ds) with (zlen h) by lia.
    rewrite Hg, bool_decide_eq_true_2 by done.
    destruct (Z.leb_spec 0 (zlen h)); [|lia]. simpl. rewrite bind_run. unfold pget at 1.
    assert (zlen ds ≠ 0) by by intros ?%zlen_nil_inv.
    destruct (Z.eqb_spec (zlen h + 1) (zlen h + (1 + zlen ds))); [lia|].
    assert (ztake (zlen h + (1 + zlen ds) - (zlen h + 1)) (zdrop (zlen h + 1) ((h ++ 58 :: ds) ++ rest)) = ds) as ->.
    { assert (h ++ 58 :: ds = (h ++ [58]) ++ ds) as -> by by rewrite <- app_assoc.
      rewrite <- app_assoc, zdrop_app_ge by (rewrite zlen_app; change (zlen [58]) with 1; lia).
      rewrite zlen_app. change (zlen [58]) with 1. rewrite Z.sub_diag, zdrop_0.
      replace (zlen h + (1 + zlen ds) - (zlen h + 1)) with (zlen ds) by lia.
      rewrite ztake_app_le, ztake_all; [done|lia|pose proof (zlen_nonneg ds); lia]. }
    unfold parse_port. rewrite parse_port_loop_ok by (lia || (eapply Forall_impl; [exact Hd|apply digit_byte])).
    assert (forallb (is_digit 10) ds = true) as ->.
    { apply forallb_forall. intros x Hx. rewrite Forall_forall in Hd. by apply Hd, list_elem_of_In. }
    pose proof (number_mono 0 ds ltac:(lia) Hd). rewrite Hv in *.
    destruct (Z.leb_spec p 65535); [|lia]. simpl. unfold mbind, parser_bind, err_if, pset, mret, parser_ret.
    by destruct (Z.ltb_spec p 0); [lia|].
Qed.
