(* ===== verification/HttpUriParse.v ===== *)
(** * Parsing URIs: exactly the grammar

    Whatever [evhttp_uri_parse_with_flags] accepts is a URI of the grammar
    ([uri_body_sound]), and every URI of the grammar is parsed into its parts
    ([uri_body_complete]). *)
From S2P Require Import Prelude Outcome Lines Evutil InetDefs Inet EvbufferDefs EvbufferIface EvbufferImpl HttpUriDefs HttpUri.

(** * Authorities *)

Definition ui_text (ui : option (list Z)) : list Z := match ui with Some i => i ++ [64] | None => [] end.
Definition auth_text (ui : option (list Z)) (h pd : list Z) : list Z := ui_text ui ++ h ++ pd.

Lemma strchr_split s c k : strchr s c = Some k → s = take k s ++ c :: drop (S k) s ∧ (c ∉ take k s) ∧ (k < length s)%nat.
Proof.
  revert k. induction s as [|x s IH]; intros k H; [done|]. simpl in H.
  destruct (Z.eqb_spec x c) as [->|Hx].
  { injection H as <-. simpl. split; [done|]. split; [set_solver|lia]. }
  destruct (strchr s c) as [k'|] eqn:E; [|done]. injection H as <-. destruct (IH k' eq_refl) as (Es & Hn & Hl).
  simpl. split; [by rewrite <- Es|]. split; [set_solver|lia].
Qed.

Section authority.
Context {MM : Malloc} (words0 : list Z) (Hw0 : zlen words0 = 8) (Hw : Forall word16 words0).

Lemma strdup_or_err_ok s set st : pwp (strdup_or_err s set) (λ _ st', st' = set (Some s) st) (λ _, True) st.
Proof.
  unfold strdup_or_err. pwp_step. pwp_step. unfold mm_strdup.
  destruct (zlen s =? EV_SIZE_MAX); [by pwp_step|]. destruct (mm_malloc _); [by pwp_step|by pwp_step].
Qed.

Definition with_authority (ui : option (list Z)) (h : list Z) (p : Z) (st : evhttp_uri) : evhttp_uri :=
  Uri (uri_flags st) (scheme st) ui (Some h) p (path st) (query st) (fragment st).

Definition userinfo_valid (ui : option (list Z)) : Prop := ∀ i, ui = Some i → pct_ok userinfo_char i = true.

Lemma userinfo_none st : userinfo st = None → set_userinfo None st = st.
Proof. destruct st; simpl. by intros ->. Qed.

Lemma authority_userinfo_sound s n st :
  0 <= n <= zlen s → userinfo st = None →
  pwp (authority_userinfo s n)
    (λ cp st', ∃ ui, 0 <= cp <= n ∧ ztake cp s = ui_text ui ∧ userinfo_valid ui ∧ st' = set_userinfo ui st)
    (λ _, True) st.
Proof.
  intros Hn Hui. unfold authority_userinfo.
  assert (∃ ui, 0 <= 0 <= n ∧ ztake 0 s = ui_text ui ∧ userinfo_valid ui ∧ st = set_userinfo ui st) as Hnone.
  { exists None. split; [lia|]. split; [done|]. split; [done|]. by rewrite userinfo_none. }
  destruct (strchr s 64) as [k|] eqn:E; [|by apply pwp_ret]. apply strchr_split in E as (E & _ & Hk).
  apply pwp_if; intros Hlt; [|by apply pwp_ret]. apply Z.ltb_lt in Hlt.
  assert (0 <= Z.of_nat k <= zlen s) as Hk' by (unfold zlen; lia).
  pwp_step. pwp_step; [done|]. pwp_step. eapply pwp_mono; [apply strdup_or_err_ok| |done]. intros _ st' ->.
  pwp_step. exists (Some (ztake (Z.of_nat k) s)). split; [lia|]. split; [|split; [|done]].
  - unfold ui_text, ztake. replace (Z.to_nat (Z.of_nat k + 1)) with (S k) by lia. rewrite Nat2Z.id. rewrite E at 1.
    rewrite take_app_ge by (rewrite length_take; lia). rewrite length_take.
    by replace (S k - k `min` length s)%nat with 1%nat by lia.
  - intros i [= <-]. rewrite <- userinfo_ok_spec by lia. by destruct (userinfo_ok s (Z.of_nat k)).
Qed.

(** The bytes copied into the block of the host. *)
Lemma host_block mem text :
  zlen mem = zlen text + 1 →
  ∃ mem1 mem2, memcpy_at mem 0 text = Some mem1 ∧ zset mem1 (zlen text) 0 = Some mem2 ∧
    ztake (zlen text) mem2 = text.
Proof.
  intros Hm. pose proof (zlen_nonneg text). eexists _, _.
  split; [apply memcpy_at_ok; lia|]. rewrite ztake_0, app_nil_l.
  split; [apply zset_in_range; rewrite zlen_app, zlen_zdrop by lia; lia|].
  rewrite insert_app_r_alt by (unfold zlen; lia). by rewrite ztake_app_le, ztake_all by lia.
Qed.

(** Whether the host is in brackets is decided by what it is made of. *)
Lemma authority_host_sound t e st :
  string t → 0 <= e <= zlen t → not_hex_next (zdrop e t) →
  pwp (authority_host words0 t e)
    (λ _ st', host_valid words0 (ztake e t) ∧ st' = set_host (Some (ztake e t)) st) (λ _, True) st.
Proof.
  intros Hst He Hx. unfold authority_host. assert (zlen (ztake e t) = e) as Ele by (apply zlen_ztake; lia).
  pwp_step. apply (pwp_mono _ (λ _ st', host_valid words0 (ztake e t) ∧ st' = st) _ (λ _, True)); [| |done].
  { apply pwp_if; intros Hb91.
    - apply andb_true_iff in Hb91 as [[H91 H2]%andb_true_iff H93]. apply Z.leb_le in H2.
      destruct (bracket_total words0 Hw0 Hw t e) as [r Hr]. pwp_step. eapply pwp_access; [exact Hr|].
      pwp_step; [done|]. split; [|done]. unfold host_valid.
      assert (hd 0 (ztake e t) = hd 0 t) as ->.
      { destruct t as [|c t]; [by unfold ztake; rewrite take_nil|]. by rewrite ztake_pos by lia. }
      rewrite H91. exists r. rewrite <- (bracket_app words0 _ (zdrop e t)), ztake_zdrop, Ele. split; [done|lia].
    - pwp_step; [done|]. split; [|done].
      assert (regname_ok t e = true) as Hreg by by destruct (regname_ok t e).
      rewrite regname_ok_spec in Hreg by done. unfold host_valid.
      destruct (Z.eqb_spec (hd 0 (ztake e t)) 91) as [E91|]; [|done].
      destruct (ztake e t) as [|c r] eqn:Et; [done|]. simpl in E91. subst c.
      apply (pct_ok_not base_char 91) in Hreg; [|done]. set_solver. }
  intros _ st3 [Hv ->]. pwp_step. pwp_step. destruct (mm_malloc (e + 1)) as [mem|] eqn:Em; [|by pwp_step].
  apply mm_malloc_len in Em; [|lia].
  destruct (host_block mem (ztake e t)) as (mem1 & mem2 & E1 & E2 & E3); [lia|]. rewrite Ele in E2, E3.
  pwp_step. eapply pwp_access; [exact E1|]. pwp_step. eapply pwp_access; [exact E2|].
  pwp_step. by rewrite E3.
Qed.

Lemma parse_authority_sound s n st :
  string s → 0 <= n <= zlen s → not_hex_next (zdrop n s) → port st = -1 → userinfo st = None →
  pwp (parse_authority words0 s n)
    (λ _ st', ∃ ui h pd, ztake n s = auth_text ui h pd ∧ userinfo_valid ui ∧ host_valid words0 h ∧
       port_text (port st') pd ∧ st' = with_authority ui h (port st') st) (λ _, True) st.
Proof.
  intros Hs Hn Hx Hp Hui. unfold parse_authority.
  assert (Forall byte s) as Hb by (eapply Forall_impl; [exact Hs|by intros ? []]).
  apply pwp_if; intros Hn0.
  { apply Z.eqb_eq in Hn0 as ->. eapply pwp_mono; [apply strdup_or_err_ok| |done]. intros _ st' ->.
    exists None, [], []. split; [done|]. split; [done|]. split; [done|]. split; [left; simpl; auto|].
    destruct st; simpl in *; by subst. }
  pwp_step. eapply pwp_mono; [by apply authority_userinfo_sound| |done].
  intros cp st1 (ui & Hcp & Eui & Hui' & ->).
  assert (zlen (zdrop cp s) = zlen s - cp) as El by (apply zlen_zdrop; lia).
  pwp_step. eapply pwp_mono; [apply authority_port_ok; [by apply Forall_drop|lia|done]| |done].
  intros e st2 (pd & Epd & He & Hpd & E2 & Hend). simpl in E2. set (t := zdrop cp s) in *.
  pwp_step. eapply pwp_access; [by destruct (Z.leb_spec 0 e); [|lia]|].
  assert (ztake n s = (ui_text ui ++ ztake e t ++ pd)) as En.
  { rewrite <- Eui, <- Epd. subst t. rewrite <- ztake_add by lia. f_equal. lia. }
  eapply pwp_mono; [apply authority_host_sound; [by apply Forall_drop|lia|]| |done].
  - destruct Hend as [->|H58].
    + subst t. rewrite zdrop_zdrop by lia. by replace (cp + (n - cp)) with n by lia.
    + rewrite zget_nonneg in H58 by lia. unfold not_hex_next, zdrop. by rewrite (drop_S _ _ _ H58).
  - intros _ st3 [Hv ->]. exists ui, (ztake e t), pd. rewrite E2 in Hpd |- *. simpl in Hpd |- *. done.
Qed.

(** ** Without allocation failures every authority of the grammar is parsed *)

Section complete.
Context {MT : MallocTotal}.

Lemma strdup_or_err_run s set st :
  zlen s < EV_SIZE_MAX → strdup_or_err s set st = Ret tt (set (Some s) st).
Proof.
  intros Hs. unfold strdup_or_err, mm_strdup. rewrite bind_run. unfold pget at 1.
  destruct (Z.eqb_spec (zlen s) EV_SIZE_MAX); [lia|]. pose proof (zlen_nonneg s).
  destruct (mm_malloc (zlen s + 1)) eqn:E; [done|]. apply malloc_never_fails in E; [done|lia].
Qed.

Lemma authority_userinfo_run ui hp rest st :
  zlen (ui_text ui ++ hp) < EV_SIZE_MAX → 64 ∉ hp → userinfo_valid ui → userinfo st = None →
  authority_userinfo (ui_text ui ++ hp ++ rest) (zlen (ui_text ui ++ hp)) st =
    Ret (zlen (ui_text ui)) (set_userinfo ui st).
Proof.
  intros Hlen H64 Hok Hui. unfold authority_userinfo. pose proof (zlen_nonneg hp). pose proof (zlen_nonneg rest).
  unfold ui_text in *. destruct ui as [i|]; cbn iota in *.
  - assert (64 ∉ i) as Hi by (apply (pct_ok_not userinfo_char); [by apply Hok|done]).
    rewrite <- app_assoc. change ([64] ++ hp ++ rest) with (64 :: hp ++ rest). rewrite strchr_app by done. change (Z.of_nat (length i)) with (zlen i).
    pose proof (zlen_nonneg i). rewrite !zlen_app in *. change (zlen [64]) with 1 in *.
    destruct (Z.ltb_spec (zlen i) (zlen i + 1 + zlen hp)); [|lia].
    rewrite userinfo_ok_spec by (rewrite zlen_app, zlen_cons, zlen_app; lia).
    rewrite ztake_app_le, ztake_all by lia. rewrite (Hok i eq_refl). simpl negb.
    rewrite bind_run. unfold err_if. cbv beta iota. rewrite bind_run, strdup_or_err_run by lia. done.
  - rewrite (userinfo_none st Hui). rewrite !app_nil_l in *. destruct (strchr (hp ++ rest) 64) as [k|] eqn:Ek; [|done].
    apply strchr_split in Ek as (Ek & _ & Hk).
    destruct (Z.ltb_spec (Z.of_nat k) (zlen hp)) as [Hlt|]; [|done]. exfalso. apply H64.
    assert (hp !! k = Some 64) as Hin; [|by eapply list_elem_of_lookup_2].
    rewrite <- (lookup_app_l hp rest) by (unfold zlen in Hlt; lia). rewrite Ek.
    rewrite lookup_app_r, length_take by (rewrite length_take; lia).
    by replace (k - k `min` length (hp ++ rest))%nat with O by lia.
Qed.

Lemma authority_host_run h rest st :
  string h → host_valid words0 h → not_hex_next rest →
  authority_host words0 (h ++ rest) (zlen h) st = Ret tt (set_host (Some h) st).
Proof.
  intros Hsh Hv Hx. unfold authority_host. pose proof (zlen_nonneg h). rewrite bind_run.
  assert ((if (hd 0 (h ++ rest) =? 91) && (2 <=? zlen h) && bool_decide (zget (h ++ rest) (zlen h - 1) = Some 93)
           then r ← access (bracket_addr_ok words0 (h ++ rest) (zlen h)); err_if (r =? 0)
           else err_if (negb (regname_ok (h ++ rest) (zlen h)))) st = Ret tt st) as ->.
  { unfold host_valid in Hv. destruct (Z.eqb_spec (hd 0 h) 91) as [H91|H91].
    - destruct Hv as (r & Hr & Hne). destruct (bracket_accepts words0 h r) as (_ & H3 & H93 & _); [done|done|done|].
      rewrite bracket_app, Hr, zget_app_l, H93 by lia. rewrite bool_decide_eq_true_2 by done.
      destruct h as [|c h]; [done|]. simpl in H91. subst c.
      change (hd 0 ((91 :: h) ++ rest) =? 91) with true.
      destruct (Z.leb_spec 2 (zlen (91 :: h))); [|lia]. cbv beta iota delta [andb].
      rewrite bind_run. unfold access, err_if. by destruct (Z.eqb_spec r 0).
    - assert ((hd 0 (h ++ rest) =? 91) && (2 <=? zlen h) = false) as ->.
      { destruct h as [|c h]; [by rewrite andb_false_r|]. simpl in H91 |- *. by destruct (Z.eqb_spec c 91). }
      cbv beta iota delta [andb]. rewrite regname_ok_spec.
      + rewrite ztake_app_le, ztake_all by lia. by rewrite Hv.
      + rewrite zlen_app. pose proof (zlen_nonneg rest). lia.
      + by rewrite zdrop_app_ge, Z.sub_diag, zdrop_0 by lia. }
  rewrite bind_run. unfold pget at 1. destruct (mm_malloc (zlen h + 1)) as [mem|] eqn:Em.
  2:{ apply malloc_never_fails in Em; [done|lia]. }
  apply mm_malloc_len in Em; [|lia]. rewrite ztake_app_le, ztake_all by lia.
  destruct (host_block mem h Em) as (mem1 & mem2 & E1 & E2 & E3).
  rewrite bind_run, E1. unfold access at 1. cbv beta iota. rewrite bind_run, E2. unfold access, pset. by rewrite E3.
Qed.

Lemma parse_authority_complete ui h pd p rest st :
  string h → zlen (auth_text ui h pd) < EV_SIZE_MAX → not_hex_next rest → port st = -1 → userinfo st = None →
  userinfo_valid ui → host_valid words0 h → port_text p pd →
  parse_authority words0 (auth_text ui h pd ++ rest) (zlen (auth_text ui h pd)) st =
    Ret tt (with_authority ui h p st).
Proof.
  intros Hsh Hlen Hx Hp Hui Hiok Hv Hpd. unfold parse_authority.
  assert (Forall byte h) as Hbh by (eapply Forall_impl; [exact Hsh|by intros ? []]).
  assert (64 ∉ h ++ pd) as H64.
  { rewrite not_elem_of_app. split; [apply (host_valid_chars words0 h); [done|done|set_solver]|].
    destruct Hpd as [[_ [-> | ->]]|(ds & -> & _ & Hd & _)]; [set_solver|set_solver|].
    rewrite not_elem_of_cons. split; [done|]. intros Hin. rewrite Forall_forall in Hd. by apply Hd in Hin. }
  change (auth_text ui h pd) with (ui_text ui ++ h ++ pd) in *.
  destruct (Z.eqb_spec (zlen (ui_text ui ++ h ++ pd)) 0) as [H0|H0].
  { apply zlen_nil_inv in H0. apply app_eq_nil in H0 as [E1 [-> ->]%app_eq_nil].
    destruct ui as [i|]; [by apply app_eq_nil in E1 as [_ ?]|].
    rewrite strdup_or_err_run by done. f_equal. destruct Hpd as [[-> _]|(ds & ? & _)]; [|done].
    destruct st; simpl in *; by subst. }
  pose proof (zlen_nonneg h). pose proof (zlen_nonneg pd). pose proof (zlen_nonneg (ui_text ui)).
  rewrite <- app_assoc, bind_run, authority_userinfo_run by done.
  rewrite zdrop_app_ge, Z.sub_diag, zdrop_0, <- app_assoc, zlen_app by lia.
  replace (zlen (ui_text ui) + zlen (h ++ pd) - zlen (ui_text ui)) with (zlen (h ++ pd)) by lia.
  rewrite bind_run, (authority_port_run h pd p rest) by (done || by intros _; eapply host_no_port).
  rewrite bind_run. destruct (Z.leb_spec 0 (zlen h)); [|lia]. unfold access at 1. cbv beta iota delta [assert_].
  rewrite authority_host_run; [done|done|done|].
  destruct Hpd as [[_ [-> | ->]]|(ds & -> & _)]; done.
Qed.
End complete.

(** * Whole URIs *)

Definition scheme_text (s : option (list Z)) : list Z := match s with Some s => s ++ [58] | None => [] end.
Definition opt_text (mark : Z) (o : option (list Z)) : list Z := match o with Some s => mark :: s | None => [] end.
(** The text of a URI, with [pd] for its port. *)
Definition uri_text (u : evhttp_uri) (pd : list Z) : list Z :=
  scheme_text (scheme u) ++
  (match host u with Some h => [47; 47] ++ auth_text (userinfo u) h pd | None => [] end) ++
  default [] (path u) ++ opt_text 63 (query u) ++ opt_text 35 (fragment u).

Definition part_valid (flags : Z) (part : uri_part) (o : option (list Z)) : Prop :=
  ∀ s, o = Some s → part_ok flags part s = true.
(** Paths that can follow: an authority, or none; a scheme, or none. *)
Definition path_fits (has_scheme has_host : bool) (p : list Z) : Prop :=
  (if has_host then hd 0 p = 47 ∨ p = [] else begins_with_slashes p = false) ∧
  (has_scheme = false → path_matches_noscheme p = true).

Definition is_some {A} (o : option A) : bool := match o with Some _ => true | None => false end.

Record uri_valid (flags : Z) (u : evhttp_uri) : Prop := {
  uv_flags : uri_flags u = flags;
  uv_scheme : ∀ s, scheme u = Some s → scheme_ok s = true;
  uv_userinfo : userinfo_valid (userinfo u);
  uv_host : match host u with
            | Some h => host_valid words0 h
            | None => userinfo u = None ∧ port u = -1
            end;
  uv_path : ∃ p, path u = Some p ∧ part_ok flags PART_PATH p = true ∧
              path_fits (is_some (scheme u)) (is_some (host u)) p;
  uv_query : part_valid flags PART_QUERY (query u);
  uv_fragment : part_valid flags PART_FRAGMENT (fragment u)
}.
(** [text] is the URI [u]. *)
Definition uri_spells (flags : Z) (u : evhttp_uri) (text : list Z) : Prop :=
  uri_valid flags u ∧ ∃ pd, port_text (port u) pd ∧ text = uri_text u pd.

(** ** What is accepted *)

Lemma uri_scheme_sound readp st :
  scheme st = None →
  pwp (uri_scheme readp) (λ r st', ∃ s, (∀ x, s = Some x → scheme_ok x = true) ∧
    readp = scheme_text s ++ r ∧ st' = set_scheme s st) (λ _, True) st.
Proof.
  intros Hst. unfold uri_scheme.
  assert (∃ s, (∀ x, s = Some x → scheme_ok x = true) ∧ readp = scheme_text s ++ readp ∧ st = set_scheme s st) as Hnone.
  { exists None. split; [done|]. split; [done|]. destruct st; simpl in *; by subst. }
  destruct (strchr readp 58) as [k|] eqn:E; [|by apply pwp_ret]. apply strchr_split in E as (E & _ & _).
  apply pwp_if; intros Hok; [|by apply pwp_ret].
  pwp_step. eapply pwp_mono; [apply strdup_or_err_ok| |done]. intros _ st' ->. pwp_step.
  exists (Some (take k readp)). split; [by intros x [= <-]|]. split; [|done].
  simpl. rewrite <- app_assoc. exact E.
Qed.

Lemma end_of_authority_split s :
  ∃ a r, s = a ++ r ∧ end_of_authority s = zlen a ∧ match r with [] => True | c :: _ => is_authority_end c = true end.
Proof.
  unfold end_of_authority. destruct (find_first is_authority_end s) as [d|] eqn:E.
  - apply find_first_Some in E as (pre & x & post & -> & <- & Hx & _). by exists pre, (x :: post).
  - exists s, []. by rewrite app_nil_r.
Qed.
Lemma authority_end_not_hex r :
  match r with [] => True | c :: _ => is_authority_end c = true end → not_hex_next r.
Proof.
  destruct r as [|c r]; [done|]. unfold is_authority_end, not_hex_next.
  intros [[->%Z.eqb_eq| ->%Z.eqb_eq]%orb_true_iff| ->%Z.eqb_eq]%orb_true_iff; done.
Qed.

Lemma uri_authority_sound readp st :
  string readp → port st = -1 → userinfo st = None → host st = None →
  pwp (uri_authority words0 readp) (λ '(got, r) st',
    (got = false ∧ r = readp ∧ st' = st ∧ begins_with_slashes r = false) ∨
    (got = true ∧ ∃ ui h pd, readp = [47; 47] ++ auth_text ui h pd ++ r ∧ userinfo_valid ui ∧
       host_valid words0 h ∧ port_text (port st') pd ∧ st' = with_authority ui h (port st') st))
    (λ _, True) st.
Proof.
  intros Hs Hp Hui Hh. unfold uri_authority. apply pwp_if; intros Hb; [|apply pwp_ret; by left].
  destruct (end_of_authority_split (drop 2 readp)) as (a & r & E & -> & Hr). rewrite E.
  assert (readp = [47; 47] ++ drop 2 readp) as Er.
  { unfold begins_with_slashes in Hb. apply andb_true_iff in Hb as [H1%Z.eqb_eq H2%Z.eqb_eq].
    destruct readp as [|c [|d s]]; simpl in *; [done|done|]. by subst. }
  assert (string (a ++ r)) as Hsa by (rewrite <- E; by apply Forall_drop).
  pose proof (zlen_nonneg a). pose proof (zlen_nonneg r).
  pwp_step. eapply pwp_mono; [apply parse_authority_sound| |done]; try done.
  - rewrite zlen_app. lia.
  - rewrite zdrop_app_ge, Z.sub_diag, zdrop_0 by lia. by apply authority_end_not_hex.
  - intros _ st' (ui & h & pd & Ea & Hv & Hh' & Hpd & Est). pwp_step. right. split; [done|].
    rewrite ztake_app_le, ztake_all in Ea by lia. rewrite zdrop_app_ge, Z.sub_diag, zdrop_0 by lia.
    exists ui, h, pd. rewrite Er at 1. rewrite E, Ea. done.
Qed.

Lemma optional_part_sound mark part flags readp o rest :
  optional_part mark part flags readp = (o, rest) →
  readp = opt_text mark o ++ rest ∧ part_valid flags part o.
Proof.
  unfold optional_part. destruct readp as [|c s]; [by intros [= <- <-]|].
  destruct (Z.eqb_spec c mark) as [->|]; [|by intros [= <- <-]]. intros [= <- <-].
  destruct (end_of_path_split flags part s) as (p & E & Hp).
  assert (upto s (end_of_path s part flags) = p) as -> by (rewrite E at 1; apply upto_app).
  split; [simpl; by rewrite <- E|]. by intros ? [= <-].
Qed.

Lemma strdup_opt_ok (o : option (list Z)) set st st1 :
  (st1 = match o with Some s => set (Some s) st | None => st end) →
  pwp (match o with Some s => strdup_or_err s set | None => mret tt end) (λ _ st', st' = st1) (λ _, True) st.
Proof.
  intros ->. destruct o; [|by apply pwp_ret]. eapply pwp_mono; [apply strdup_or_err_ok|done|done].
Qed.

Definition with_rest (p : list Z) (q f : option (list Z)) (st : evhttp_uri) : evhttp_uri :=
  Uri (uri_flags st) (scheme st) (userinfo st) (host st) (port st) (Some p) q f.

Lemma uri_rest_sound got flags readp st :
  string readp → query st = None → fragment st = None →
  pwp (uri_rest got flags readp) (λ _ st', ∃ p q f, readp = p ++ opt_text 63 q ++ opt_text 35 f ∧
    part_ok flags PART_PATH p = true ∧ part_valid flags PART_QUERY q ∧ part_valid flags PART_FRAGMENT f ∧
    path_fits (is_some (scheme st)) got p ∧ st' = with_rest p q f st) (λ _, True) st.
Proof.
  intros Hs Hq Hf. unfold uri_rest. destruct (end_of_path_split flags PART_PATH readp) as (p & E & Hp).
  set (rest := end_of_path readp PART_PATH flags) in *.
  assert (upto readp rest = p) as -> by (rewrite E at 1; apply upto_app).
  destruct (optional_part 63 PART_QUERY flags rest) as [q r1] eqn:Eq. apply optional_part_sound in Eq as [Eq Hvq].
  destruct (optional_part 35 PART_FRAGMENT flags r1) as [f r2] eqn:Ef. apply optional_part_sound in Ef as [Ef Hvf].
  pwp_step. pwp_step; [done|]. pwp_step. pwp_step; [done|]. pwp_step. pwp_step; [done|].
  pwp_step. pwp_step. pwp_step. pwp_step; [done|]. pwp_step.
  eapply pwp_mono; [apply strdup_or_err_ok| |done]. intros _ st1 ->.
  pwp_step. eapply pwp_mono; [by apply strdup_opt_ok| |done]. intros _ st2 ->.
  eapply pwp_mono; [by apply strdup_opt_ok| |done]. intros _ st3 ->.
  assert (r2 = []) as -> by by apply negb_false_iff, bool_decide_eq_true in H.
  exists p, q, f. rewrite app_nil_r in Ef. rewrite <- Ef, <- Eq. split; [done|]. split; [done|]. split; [done|].
  split; [done|]. split.
  - assert (string p) as Hsp by (rewrite E in Hs; by apply string_app in Hs as [? _]).
    split.
    + destruct got; simpl in *; [|done]. destruct p as [|c p]; [by right|]. simpl in *.
      apply Forall_inv in Hsp as [_ Hc]. destruct (Z.eqb_spec c 47); [by left|]. by destruct (Z.eqb_spec c 0).
    + intros Hsch. destruct (scheme st); [done|]. rewrite bool_decide_eq_false_2 in H2 by by intros [??].
      by destruct (path_matches_noscheme p).
  - clear -Hq Hf. unfold with_rest. destruct st; simpl in *. subst. by destruct q, f.
Qed.

Lemma uri_body_sound flags text :
  string text →
  pwp (uri_body words0 flags text) (λ _ u, uri_spells flags u text) (λ _, True) (empty_uri flags).
Proof.
  intros Hs. unfold uri_body. pwp_step. eapply pwp_mono; [by apply uri_scheme_sound| |done].
  intros r st1 (sc & Hsc & E1 & ->). assert (string r) as Hr by (rewrite E1 in Hs; by apply string_app in Hs as [_ ?]).
  pwp_step. eapply pwp_mono; [by apply uri_authority_sound| |done]. intros [got r2] st2 Hau.
  assert (string r2 ∧ query st2 = None ∧ fragment st2 = None ∧ scheme st2 = sc) as (Hr2 & Hq & Hf & Es).
  { destruct Hau as [(_ & -> & -> & _)|(_ & ui & h & pd & E2 & _ & _ & _ & ->)]; [done|]. split; [|done].
    rewrite E2 in Hr. apply string_app in Hr as [_ Hr]. by apply string_app in Hr as [_ ?]. }
  eapply pwp_mono; [by apply uri_rest_sound| |done].
  intros _ u (p & q & f & E3 & Hp & Hvq & Hvf & Hfit & ->). rewrite Es in Hfit.
  destruct Hau as [(-> & -> & -> & Hb)|(-> & ui & h & pd & E2 & Hui & Hh & Hpd & ->)].
  - split; [|exists []; split; [left; auto|]].
    + constructor; simpl; try done. exists p. done.
    + unfold uri_text. simpl. by rewrite E1, E3.
  - split.
    + constructor; simpl; try done. exists p. done.
    + exists pd. split; [done|]. unfold uri_text. cbn [scheme host userinfo path query fragment with_authority with_rest set_scheme empty_uri default]. rewrite E1, E2, E3. by rewrite <- ?app_assoc.
Qed.

(** ** Every URI of the grammar is accepted *)

Lemma begins_with_slashes_app p tail :
  begins_with_slashes p = false → match tail with [] => True | c :: _ => c ≠ 47 end →
  begins_with_slashes (p ++ tail) = false.
Proof.
  unfold begins_with_slashes. intros Hp Ht. destruct p as [|a [|b p]]; simpl in *; [|destruct tail; simpl in *|done].
  - destruct tail as [|c t]; [done|]. simpl. by destruct (Z.eqb_spec c 47).
  - done.
  - destruct (Z.eqb_spec z 47); [done|]. by rewrite andb_false_r.
Qed.

(** Behind the path. *)
Lemma tail_head q f :
  match opt_text 63 q ++ opt_text 35 f with [] => True | c :: _ => c = 63 ∨ c = 35 end.
Proof. destruct q, f; simpl; auto. Qed.

Lemma optional_part_run mark part flags o rest :
  part_valid flags part o →
  match rest with [] => True | c :: _ => c ≠ mark ∧ stops_part part c = true end →
  optional_part mark part flags (opt_text mark o ++ rest) = (o, rest).
Proof.
  intros Hv Hr. unfold optional_part. destruct o as [s|]; simpl.
  - rewrite Z.eqb_refl, end_of_path_app by (by apply Hv || by destruct rest as [|? ?]; [|apply Hr]).
    by rewrite upto_app.
  - destruct rest as [|c r]; [done|]. destruct Hr as [Hne _]. by destruct (Z.eqb_spec c mark).
Qed.

(** A path without a scheme is not taken for one. *)
Lemma no_scheme_in p tail k :
  string (p ++ tail) → path_matches_noscheme p = true →
  match tail with [] => True | c :: _ => c = 63 ∨ c = 35 end →
  strchr (p ++ tail) 58 = Some k → scheme_ok (take k (p ++ tail)) = false.
Proof.
  intros Hs Hp Ht Hk. destruct (scheme_ok (take k (p ++ tail))) eqn:Hok; [|done]. exfalso.
  apply strchr_split in Hk as (E & Hn & Hl).
  apply scheme_ok_chars in Hok as (_ & _ & Hc); [|by apply Forall_take].
  set (t := take k (p ++ tail)) in *. clearbody t. clear Hl. set (r := drop (S k) (p ++ tail)) in E. clearbody r.
  revert t E Hn Hc Hp. clear Hs. induction p as [|c p IH]; intros t E Hn Hc Hp.
  - simpl in E. destruct tail as [|c tail]; [by destruct t|]. destruct t as [|d t].
    + injection E as -> _. destruct Ht; done.
    + injection E as -> _. destruct Ht as [-> | ->]; [apply (Hc 63)|apply (Hc 35)]; set_solver.
  - simpl in Hp. destruct t as [|d t]; simpl in E.
    + injection E as -> _. done.
    + injection E as -> E. destruct (Z.eqb_spec d 58); [done|].
      destruct (Z.eqb_spec d 47) as [->|]; [apply (Hc 47); set_solver|].
      apply (IH t); [done| | |done].
      * intros Hin. apply Hn. by right.
      * intros x Hx Hin. apply (Hc x Hx). by right.
Qed.

Section complete_uri.
Context {MT : MallocTotal}.

Lemma uri_scheme_run sc r st :
  zlen (scheme_text sc ++ r) < EV_SIZE_MAX → scheme st = None → string (scheme_text sc) →
  (∀ s, sc = Some s → scheme_ok s = true) →
  (sc = None → ∀ k, strchr r 58 = Some k → scheme_ok (take k r) = false) →
  uri_scheme (scheme_text sc ++ r) st = Ret r (set_scheme sc st).
Proof.
  intros Hlen Hst Hs Hok Hno. unfold uri_scheme, scheme_text in *. destruct sc as [s|].
  - apply string_app in Hs as [Hs _]. specialize (Hok s eq_refl).
    destruct (scheme_ok_chars s Hs Hok) as (_ & _ & Hc). rewrite <- app_assoc.
    change ([58] ++ r) with (58 :: r). rewrite strchr_app by (apply Hc; set_solver).
    rewrite take_app_length, Hok. rewrite !zlen_app in Hlen. pose proof (zlen_nonneg r). change (zlen [58]) with 1 in Hlen.
    rewrite bind_run, strdup_or_err_run by lia. cbv beta iota. unfold mret, parser_ret. f_equal.
    rewrite drop_app_ge by lia. by replace (S (length s) - length s)%nat with 1%nat by lia.
  - rewrite app_nil_l in *. replace (set_scheme None st) with st by (destruct st; simpl in *; by subst).
    destruct (strchr r 58) as [k|] eqn:E; [|done]. by rewrite (Hno eq_refl k).
Qed.

Lemma end_of_authority_app a r :
  Forall (λ c, is_authority_end c = false) a →
  match r with [] => True | c :: _ => is_authority_end c = true end →
  end_of_authority (a ++ r) = zlen a.
Proof.
  intros Ha Hr. unfold end_of_authority. rewrite find_first_app.
  assert (find_first is_authority_end a = None) as -> by by apply find_first_None.
  destruct r as [|c r]; simpl; [by rewrite app_nil_r|]. rewrite Hr. simpl. lia.
Qed.

(** No byte of an authority ends it. *)
Lemma auth_text_chars ui h p pd :
  string h → userinfo_valid ui → host_valid words0 h → port_text p pd →
  Forall (λ c, is_authority_end c = false) (auth_text ui h pd).
Proof.
  intros Hs Hui Hh Hpd.
  assert (∀ l, 63 ∉ l → 35 ∉ l → 47 ∉ l → Forall (λ c, is_authority_end c = false) l) as Hl.
  { intros l H1 H2 H3. apply Forall_forall. intros c Hc. unfold is_authority_end.
    destruct (Z.eqb_spec c 63); [by subst|]. destruct (Z.eqb_spec c 35); [by subst|].
    by destruct (Z.eqb_spec c 47); [by subst|]. }
  unfold auth_text. apply Forall_app. split; [|apply Forall_app; split].
  - destruct ui as [i|]; [|constructor]. simpl. specialize (Hui i eq_refl). apply Forall_app. split; [|by repeat constructor].
    apply Hl; by apply (pct_ok_not userinfo_char).
  - apply Hl; apply (host_valid_chars words0 h); try done; set_solver.
  - destruct Hpd as [[_ [-> | ->]]|(ds & -> & _ & Hd & _)]; [constructor|by repeat constructor|].
    constructor; [done|]. eapply Forall_impl; [exact Hd|]. intros c Hc%is_digit10. unfold is_authority_end. lia.
Qed.

Lemma uri_rest_run got flags p q f st :
  zlen (p ++ opt_text 63 q ++ opt_text 35 f) < EV_SIZE_MAX → string p →
  part_ok flags PART_PATH p = true → part_valid flags PART_QUERY q → part_valid flags PART_FRAGMENT f →
  path_fits (is_some (scheme st)) got p → query st = None → fragment st = None →
  uri_rest got flags (p ++ opt_text 63 q ++ opt_text 35 f) st = Ret tt (with_rest p q f st).
Proof.
  intros Hlen Hsp Hp Hq Hf [Hfit Hsch] Eq Ef. unfold uri_rest.
  rewrite end_of_path_app; [|done|pose proof (tail_head q f) as Ht; destruct (opt_text 63 q ++ opt_text 35 f);
    [done|by destruct Ht as [-> | ->]]].
  rewrite upto_app, optional_part_run by (done || by destruct f).
  pose proof (optional_part_run 35 PART_FRAGMENT flags f [] Hf I) as Hrun. rewrite app_nil_r in Hrun. rewrite Hrun.
  rewrite bool_decide_eq_true_2 by done.
  assert (negb got && begins_with_slashes p = false) as Hb by by destruct got; simpl in *.
  assert (got && negb (hd 0 p =? 47) && negb (hd 0 p =? 0) = false) as Hh.
  { destruct got; [|done]. by destruct Hfit as [-> | ->]. }
  assert (negb (bool_decide (is_Some (scheme st))) && negb (path_matches_noscheme p) = false) as Hm.
  { destruct (scheme st); [done|]. by rewrite (Hsch eq_refl), andb_false_r. }
  rewrite !zlen_app in Hlen. pose proof (zlen_nonneg p). pose proof (zlen_nonneg (opt_text 63 q)).
  pose proof (zlen_nonneg (opt_text 35 f)).
  assert (∀ mark o set st', zlen (opt_text mark o) < EV_SIZE_MAX →
    (match o with Some s => strdup_or_err s set | None => mret tt end : parser evhttp_uri unit) st' =
      Ret tt (match o with Some s => set (Some s) st' | None => st' end)) as Hopt.
  { intros mark o set st' Hl. destruct o as [s|]; [|done]. simpl in Hl. rewrite zlen_cons in Hl.
    apply strdup_or_err_run. lia. }
  rewrite Hb, Hh. simpl negb. rewrite !bind_run. unfold err_if at 1. cbv beta iota.
  rewrite bind_run. unfold err_if at 1. cbv beta iota. rewrite bind_run. unfold err_if at 1. cbv beta iota.
  rewrite bind_run. unfold pget at 1. cbv beta iota. rewrite Hm. rewrite bind_run. unfold err_if at 1. cbv beta iota.
  rewrite bind_run, strdup_or_err_run by lia. cbv beta iota.
  rewrite bind_run, (Hopt 63 q) by lia. cbv beta iota. rewrite (Hopt 35 f) by lia.
  unfold with_rest. destruct st; simpl in *. subst. by destruct q, f.
Qed.

Lemma uri_body_complete flags u text :
  string text → zlen text < EV_SIZE_MAX → uri_spells flags u text →
  uri_body words0 flags text (empty_uri flags) = Ret tt u.
Proof.
  intros Hs Hlen [[Efl Hsc Hui Hh (p & Ep & Hp & Hfit) Hq Hf] (pd & Hpd & E)]. unfold uri_body.
  unfold uri_text in E. rewrite Ep in E. simpl default in E.
  set (tail := opt_text 63 (query u) ++ opt_text 35 (fragment u)) in *.
  set (au := match host u with Some h => [47; 47] ++ auth_text (userinfo u) h pd | None => [] end) in *.
  assert (string (scheme_text (scheme u)) ∧ string au ∧ string (p ++ tail)) as (Hs1 & Hs2 & Hs3).
  { rewrite E in Hs. apply string_app in Hs as [? Hs]. by apply string_app in Hs as [? ?]. }
  pose proof (tail_head (query u) (fragment u)) as Ht. fold tail in Ht.
  rewrite E, !zlen_app in Hlen. pose proof (zlen_nonneg (scheme_text (scheme u))). pose proof (zlen_nonneg au).
  pose proof (zlen_nonneg p). pose proof (zlen_nonneg tail).
  rewrite E, bind_run, uri_scheme_run; [|rewrite !zlen_app; lia|done|done|done|].
  2:{ intros En k Hk. subst au. destruct (host u) as [h|].
      - destruct k as [|k]; [done|]. done.
      - destruct Hfit as [_ Hfit]. rewrite En in Hfit. rewrite app_nil_l in *.
        apply no_scheme_in; [done|by apply Hfit|done|done]. }
  rewrite bind_run. set (st := set_scheme (scheme u) (empty_uri flags)).
  assert (uri_authority words0 (au ++ p ++ tail) st =
    Ret (is_some (host u), p ++ tail)
      (match host u with Some h => with_authority (userinfo u) h (port u) st | None => st end)) as ->.
  { subst au. unfold uri_authority. destruct (host u) as [h|] eqn:Eh; simpl is_some in *.
    - destruct Hfit as [Hfit _].
      assert (match p ++ tail with [] => True | c :: _ => is_authority_end c = true end) as Hend.
      { destruct Hfit as [Hfit | ->].
        - destruct p as [|c p]; [done|]. simpl in *. by subst.
        - simpl. destruct tail as [|c t]; [done|]. by destruct Ht as [-> | ->]. }
      assert (string h) as Hsh.
      { apply string_app in Hs2 as [_ Hs2]. apply string_app in Hs2 as [_ Hs2]. by apply string_app in Hs2 as [? _]. }
      change (begins_with_slashes (([47; 47] ++ auth_text (userinfo u) h pd) ++ p ++ tail)) with true. cbv beta iota.
      change (drop 2 (([47; 47] ++ auth_text (userinfo u) h pd) ++ p ++ tail)) with (auth_text (userinfo u) h pd ++ p ++ tail).
      rewrite end_of_authority_app by (done || by eapply auth_text_chars).
      rewrite zlen_app in *. change (zlen [47; 47]) with 2 in *.
      rewrite bind_run, (parse_authority_complete _ _ _ (port u)); try done; [|lia|by apply authority_end_not_hex].
      cbv beta iota. by rewrite zdrop_app_ge, Z.sub_diag, zdrop_0 by lia.
    - rewrite app_nil_l. destruct Hfit as [Hfit _]. rewrite begins_with_slashes_app; [done|done|].
      destruct tail as [|c t]; [done|]. by destruct Ht as [-> | ->]. }
  cbv beta iota. unfold tail. rewrite uri_rest_run; try done.
  - unfold with_rest, with_authority. destruct u as [fl sc ui h po pa qu fr]; simpl in *. subst.
    destruct h as [h|]; simpl; [done|]. by destruct Hh as [-> ->].
  - fold tail. rewrite zlen_app. lia.
  - by apply string_app in Hs3 as [? _].
  - by destruct (host u).
  - by destruct (host u).
  - by destruct (host u).
Qed.
End complete_uri.
End authority.
