(* ===== verification/HttpGrammar.v ===== *)
(** * The grammar of URIs, on its own terms

    The rules of RFC 3986 as inductive and explicit definitions over bytes, without
    the tables and scanners of [http.c], and that the parts [uri_valid] accepts with
    the library's own predicates are exactly the parts of this grammar.  Only the
    text of an IPv6 address is what [evutil_inet_pton] reads. *)
From S2P Require Import Prelude Outcome Lines Evutil InetDefs Inet EvbufferDefs EvbufferIface EvbufferImpl HttpUriDefs HttpUri HttpUriParse.

(** ** Classes of bytes *)

Definition ALPHA (c : Z) : Prop := 65 <= c <= 90 ∨ 97 <= c <= 122.
Definition DIGIT (c : Z) : Prop := 48 <= c <= 57.
Definition HEXDIG (c : Z) : Prop := DIGIT c ∨ 65 <= c <= 70 ∨ 97 <= c <= 102.
(** Letters, digits and [-._~]. *)
Definition unreserved (c : Z) : Prop := ALPHA c ∨ DIGIT c ∨ c ∈ [45; 46; 95; 126].
(** [!$&'()*+,;=] *)
Definition sub_delim (c : Z) : Prop := c ∈ [33; 36; 38; 39; 40; 41; 42; 43; 44; 59; 61].
(** The bytes of a scheme after its first letter. *)
Definition scheme_rest (c : Z) : Prop := ALPHA c ∨ DIGIT c ∨ c ∈ [43; 45; 46].
Definition reg_name_char (c : Z) : Prop := unreserved c ∨ sub_delim c.
Definition userinfo_rule_char (c : Z) : Prop := reg_name_char c ∨ c = 58.
(** A path with its slashes; queries and fragments have question marks too. *)
Definition path_char (c : Z) : Prop := reg_name_char c ∨ c ∈ [58; 64; 47].
Definition part_rule_char (part : uri_part) (c : Z) : Prop :=
  match part with PART_PATH => path_char c | PART_QUERY | PART_FRAGMENT => path_char c ∨ c = 63 end.

#[export] Instance ALPHA_dec c : Decision (ALPHA c). Proof. unfold ALPHA. apply _. Defined.
#[export] Instance DIGIT_dec c : Decision (DIGIT c). Proof. unfold DIGIT. apply _. Defined.
#[export] Instance HEXDIG_dec c : Decision (HEXDIG c). Proof. unfold HEXDIG. apply _. Defined.
#[export] Instance unreserved_dec c : Decision (unreserved c). Proof. unfold unreserved. apply _. Defined.
#[export] Instance sub_delim_dec c : Decision (sub_delim c). Proof. unfold sub_delim. apply _. Defined.
#[export] Instance scheme_rest_dec c : Decision (scheme_rest c). Proof. unfold scheme_rest. apply _. Defined.
#[export] Instance reg_name_char_dec c : Decision (reg_name_char c). Proof. unfold reg_name_char. apply _. Defined.
#[export] Instance userinfo_rule_char_dec c : Decision (userinfo_rule_char c). Proof. unfold userinfo_rule_char. apply _. Defined.
#[export] Instance path_char_dec c : Decision (path_char c). Proof. unfold path_char. apply _. Defined.
#[export] Instance part_rule_char_dec part c : Decision (part_rule_char part c). Proof. destruct part; cbn; apply _. Defined.

(** ** Rules *)

(** Bytes of a class, and percent-encoded bytes. *)
Inductive encoded (P : Z → Prop) : list Z → Prop :=
| encoded_nil : encoded P []
| encoded_byte c s : P c → encoded P s → encoded P (c :: s)
| encoded_pct a b s : HEXDIG a → HEXDIG b → encoded P s → encoded P (37 :: a :: b :: s).

Definition scheme_rule (s : list Z) : Prop := ∃ c r, s = c :: r ∧ ALPHA c ∧ Forall scheme_rest r.

(** [v], hexadecimal digits, a dot, and any number of bytes; or an IPv6 address. *)
Definition ip_literal (words0 : list Z) (h : list Z) : Prop :=
  (∃ v t, h = [91; 118] ++ v ++ [46] ++ t ++ [93] ∧ v ≠ [] ∧ Forall HEXDIG v ∧ Forall userinfo_rule_char t) ∨
  (∃ a words, h = [91] ++ a ++ [93] ∧ a ≠ [] ∧ zlen a < 64 ∧ evutil_inet_pton words0 AF_INET6 a = Some (1, words)).
Definition host_rule (words0 : list Z) (h : list Z) : Prop := ip_literal words0 h ∨ encoded reg_name_char h.

Definition decimal (ds : list Z) : Z := foldl (λ n c, 10 * n + (c - 48)) 0 ds.
(** [-1]: none, which may be written as a colon without digits. *)
Definition port_rule (p : Z) (pd : list Z) : Prop :=
  p = -1 ∧ (pd = [] ∨ pd = [58]) ∨
  ∃ ds, pd = 58 :: ds ∧ ds ≠ [] ∧ Forall DIGIT ds ∧ p = decimal ds ∧ p <= 65535.

(** With the flag for nonconformant URIs, anything up to the next part. *)
Definition part_rule (flags : Z) (part : uri_part) (s : list Z) : Prop :=
  if has flags EVHTTP_URI_NONCONFORMANT then
    match part with PART_PATH => (63 ∉ s) ∧ (35 ∉ s) | PART_QUERY => (35 ∉ s) | PART_FRAGMENT => True end
  else encoded (part_rule_char part) s.

(** Behind an authority a path begins with a slash or is empty, otherwise not with
    two slashes; without a scheme its first segment has no colon. *)
Definition path_rule (has_scheme has_host : bool) (p : list Z) : Prop :=
  (if has_host then (p = [] ∨ (∃ q, p = 47 :: q)) else ∀ q, p ≠ 47 :: 47 :: q) ∧
  (has_scheme = false → ∀ a b, p = a ++ 58 :: b → 47 ∈ a).

(** [u] is a URI with the text [text]. *)
Record uri_grammar (words0 : list Z) (flags : Z) (u : evhttp_uri) (text : list Z) : Prop := {
  ug_flags : uri_flags u = flags;
  ug_scheme : ∀ s, scheme u = Some s → scheme_rule s;
  ug_userinfo : ∀ s, userinfo u = Some s → encoded userinfo_rule_char s;
  ug_host : match host u with Some h => host_rule words0 h | None => userinfo u = None ∧ port u = -1 end;
  ug_path : ∃ p, path u = Some p ∧ part_rule flags PART_PATH p ∧ path_rule (is_some (scheme u)) (is_some (host u)) p;
  ug_query : ∀ s, query u = Some s → part_rule flags PART_QUERY s;
  ug_fragment : ∀ s, fragment u = Some s → part_rule flags PART_FRAGMENT s;
  ug_text : ∃ pd, port_rule (port u) pd ∧
    text = (match scheme u with Some s => s ++ [58] | None => [] end) ++
           (match host u with
            | Some h => [47; 47] ++ (match userinfo u with Some i => i ++ [64] | None => [] end) ++ h ++ pd
            | None => []
            end) ++
           (match path u with Some p => p | None => [] end) ++
           (match query u with Some q => 63 :: q | None => [] end) ++
           (match fragment u with Some f => 35 :: f | None => [] end)
}.

(** ** The library's predicates accept these rules *)

(** A boolean test that agrees with a decidable class on every byte but zero. *)
Lemma class_fact (f : Z → bool) (P : Z → Prop) `{!∀ c, Decision (P c)} :
  forallb (λ n, Nat.eqb n 0 || Bool.eqb (f (Z.of_nat n)) (bool_decide (P (Z.of_nat n)))) (seq 0 256) = true →
  ∀ c, char c → f c = true ↔ P c.
Proof.
  intros Hall c Hc. pose proof (char_fact (λ c, Bool.eqb (f c) (bool_decide (P c))) c Hc Hall) as E.
  apply Bool.eqb_prop in E. rewrite E. by rewrite bool_decide_eq_true.
Qed.

Lemma xdigit_class c : char c → EVUTIL_ISXDIGIT_ c = true ↔ HEXDIG c.
Proof. revert c. apply (class_fact _ HEXDIG). vm_compute. reflexivity. Qed.
Lemma alpha_class c : char c → EVUTIL_ISALPHA_ c = true ↔ ALPHA c.
Proof. revert c. apply (class_fact _ ALPHA). vm_compute. reflexivity. Qed.
Lemma scheme_class c : char c → scheme_char c = true ↔ scheme_rest c.
Proof. revert c. apply (class_fact _ scheme_rest). vm_compute. reflexivity. Qed.
Lemma base_class c : char c → base_char c = true ↔ reg_name_char c.
Proof. revert c. apply (class_fact _ reg_name_char). vm_compute. reflexivity. Qed.
Lemma userinfo_class c : char c → userinfo_char c = true ↔ userinfo_rule_char c.
Proof. revert c. apply (class_fact _ userinfo_rule_char). vm_compute. reflexivity. Qed.
Lemma part_class part c : char c → part_char part c = true ↔ part_rule_char part c.
Proof. revert c. apply (class_fact _ (part_rule_char part)). destruct part; vm_compute; reflexivity. Qed.
Lemma digit_class c : char c → is_digit 10 c = true ↔ DIGIT c.
Proof. intros _. apply is_digit10. Qed.

Lemma string_cons c s : string (c :: s) ↔ char c ∧ string s.
Proof. apply Forall_cons. Qed.
Lemma class_forall (f : Z → bool) (P : Z → Prop) s :
  (∀ c, char c → f c = true ↔ P c) → string s → Forall (λ c, f c = true) s ↔ Forall P s.
Proof.
  intros Hf Hs. induction Hs as [|c s Hc Hs IH]; [split; constructor|]. rewrite !Forall_cons, IH. by rewrite Hf.
Qed.
Lemma class_forallb (f : Z → bool) (P : Z → Prop) s :
  (∀ c, char c → f c = true ↔ P c) → string s → forallb f s = true ↔ Forall P s.
Proof.
  intros Hf Hs. rewrite <- (class_forall f P s Hf Hs). rewrite forallb_forall, Forall_forall.
  by setoid_rewrite list_elem_of_In.
Qed.

Lemma encoded_equiv (f : Z → bool) (P : Z → Prop) s :
  (∀ c, char c → f c = true ↔ P c) → f 37 = false → string s → pct_ok f s = true ↔ encoded P s.
Proof.
  intros Hf H37 Hs. split.
  - induction s as [s IH] using text_ind. destruct s as [|c s1]; [constructor|].
    apply string_cons in Hs as [Hc Hs]. cbn [pct_ok]. destruct (f c) eqn:Hfc.
    + intros Hp. apply encoded_byte; [by apply Hf|]. apply IH; [simpl; lia|done|done].
    + destruct s1 as [|a [|b s3]]; [done|done|]. apply string_cons in Hs as [Ha Hs]. apply string_cons in Hs as [Hb Hs].
      rewrite !andb_true_iff. intros [[[->%Z.eqb_eq Hxa] Hxb] Hp].
      apply encoded_pct; [by apply xdigit_class|by apply xdigit_class|]. apply IH; [simpl; lia|done|done].
  - induction 1 as [|c s HP _ IH|a b s Ha Hb _ IH]; [done| |].
    + apply string_cons in Hs as [Hc Hs]. cbn [pct_ok]. rewrite (proj2 (Hf c Hc) HP). by apply IH.
    + apply string_cons in Hs as [Hc Hs]. apply string_cons in Hs as [Hca Hs]. apply string_cons in Hs as [Hcb Hs].
      cbn [pct_ok]. rewrite H37. rewrite (proj2 (xdigit_class a Hca) Ha), (proj2 (xdigit_class b Hcb) Hb). by apply IH.
Qed.

Lemma scheme_equiv s : string s → scheme_ok s = true ↔ scheme_rule s.
Proof.
  intros Hs. unfold scheme_rule. destruct s as [|c r]; [split; [done|by intros (?&?&?&_)]|].
  apply string_cons in Hs as [Hc Hs]. cbn [scheme_ok].
  rewrite andb_true_iff, (alpha_class c Hc), (class_forallb _ _ r scheme_class Hs). split.
  - intros []. by exists c, r.
  - by intros (c' & r' & [= <- <-] & ?).
Qed.

Lemma userinfo_equiv ui : (∀ i, ui = Some i → string i) →
  userinfo_valid ui ↔ (∀ i, ui = Some i → encoded userinfo_rule_char i).
Proof.
  intros Hs. unfold userinfo_valid.
  split; intros H1 i Hi; apply (encoded_equiv userinfo_char userinfo_rule_char i userinfo_class eq_refl (Hs i Hi)), H1, Hi.
Qed.

Lemma part_equiv flags part s : string s → part_ok flags part s = true ↔ part_rule flags part s.
Proof.
  intros Hs. unfold part_ok, part_rule. destruct (has flags _).
  - rewrite forallb_forall. destruct part; cbn [stops_part]; split.
    + intros H1. split; intros Hin; apply list_elem_of_In in Hin; by apply H1 in Hin.
    + intros [H1 H2] c Hin%list_elem_of_In. destruct (Z.eqb_spec c 35), (Z.eqb_spec c 63); subst; done.
    + intros H1 Hin. apply list_elem_of_In in Hin. by apply H1 in Hin.
    + intros H1 c Hin%list_elem_of_In. destruct (Z.eqb_spec c 35); subst; done.
    + done.
    + done.
  - apply encoded_equiv; [apply part_class|by destruct part|done].
Qed.

Lemma noscheme_equiv p : path_matches_noscheme p = true ↔ ∀ a b, p = a ++ 58 :: b → 47 ∈ a.
Proof.
  induction p as [|c p IH]; cbn [path_matches_noscheme].
  { split; [|done]. intros _ a b E. by destruct a. }
  destruct (Z.eqb_spec c 58) as [->|H58]; [split; [done|]; intros H1; by destruct (not_elem_of_nil 47 (H1 [] p eq_refl))|].
  destruct (Z.eqb_spec c 47) as [->|H47].
  - split; [|done]. intros _ a b E. destruct a as [|x a]; [done|]. injection E as -> _. by left.
  - rewrite IH. split; intros H1 a b E.
    + destruct a as [|x a]; [by injection E|]. injection E as -> E. right. by apply (H1 a b).
    + specialize (H1 (c :: a) b). rewrite E in H1. specialize (H1 eq_refl). apply elem_of_cons in H1 as [|]; [congruence|done].
Qed.
Lemma path_equiv sc ho p : path_fits sc ho p ↔ path_rule sc ho p.
Proof.
  unfold path_fits, path_rule. rewrite noscheme_equiv. apply and_iff_compat_r. destruct ho.
  - destruct p as [|c p]; [split; intros _; [by left|by right]|]. cbn [hd]. split; [intros [->|?]; [right; by exists p|done]|].
    intros [?|[q [= -> _]]]; [done|by left].
  - unfold begins_with_slashes. destruct p as [|c [|d p]]; cbn [hd tl]; [done|..].
    + rewrite andb_false_r. by split.
    + destruct (Z.eqb_spec c 47) as [->|]; [|split; [intros _ q [= ]; congruence|done]].
      destruct (Z.eqb_spec d 47) as [->|]; [|split; [intros _ q [= ]; congruence|done]].
      split; [done|]. intros H1. by destruct (H1 p).
Qed.

Lemma decimal_number ds acc : Forall DIGIT ds → foldl (λ n c, 10 * n + (c - 48)) acc ds = number 10 acc ds.
Proof.
  intros Hd. revert acc. induction Hd as [|c ds Hc _ IH]; intros acc; cbn; [done|]. rewrite IH. unfold number. f_equal.
  unfold DIGIT in Hc. unfold digit_val. destruct (Z.leb_spec 48 c), (Z.leb_spec c 57); cbn [andb]; lia.
Qed.
Lemma port_equiv p pd : port_text p pd ↔ port_rule p pd.
Proof.
  unfold port_text, port_rule. apply or_iff_compat_l.
  assert (HF : ∀ ds, Forall (λ c, is_digit 10 c = true) ds ↔ Forall DIGIT ds).
  { intros ds. split; intros H1; (eapply Forall_impl; [exact H1|]); intros c; apply is_digit10. }
  split; intros (ds & -> & Hne & Hd & Hn & Hp); exists ds; split_and!; try done; try (by apply HF).
  - unfold decimal. rewrite decimal_number by by apply HF. done.
  - rewrite Hn. unfold decimal. by rewrite decimal_number.
Qed.

(** ** Hosts *)

Section host.
Context (words0 : list Z).

Lemma future_version_run v rest n :
  Forall HEXDIG v → string v → zlen v < n →
  future_version (v ++ 46 :: rest) n = Some (46 :: rest, n - zlen v).
Proof.
  intros Hv Hs. revert n. induction Hv as [|c v Hc _ IH]; intros n Hn.
  - cbn [app future_version]. change (46 =? 46) with true. replace (n - zlen []) with n by (rewrite zlen_nil; lia). by destruct (0 <? n).
  - apply string_cons in Hs as [Hcc Hs]. rewrite zlen_cons in *. cbn [app future_version]. pose proof (zlen_nonneg v).
    destruct (Z.ltb_spec 0 n); [|lia]. destruct (Z.eqb_spec c 46) as [->|]; [unfold HEXDIG, DIGIT in Hc; lia|].
    cbn [andb negb]. rewrite (proj2 (xdigit_class c Hcc) Hc), IH by (done || lia). do 2 f_equal. lia.
Qed.

Lemma literal_accepted h : string h → ip_literal words0 h → ∃ r, bracket_addr_ok words0 h (zlen h) = Some r ∧ r ≠ 0.
Proof.
  intros Hs [(v & t & -> & Hne & Hv & Ht)|(a & words & -> & Hne & Hlt & Hp)]; unfold bracket_addr_ok.
  - apply string_cons in Hs as [_ Hs]. apply string_cons in Hs as [_ Hs]. apply string_app in Hs as [Hsv Hs].
    apply string_cons in Hs as [_ Hs]. apply string_app in Hs as [Hst _].
    pose proof (zlen_nonneg v) as Hlv. pose proof (zlen_nonneg t) as Hlt.
    assert (Hlen : zlen ([91; 118] ++ v ++ [46] ++ t ++ [93]) = zlen v + zlen t + 4).
    { rewrite !zlen_app. change (zlen [91; 118]) with 2. change (zlen [46]) with 1. change (zlen [93]) with 1. lia. }
    rewrite Hlen. destruct (Z.ltb_spec (zlen v + zlen t + 4) 3); [lia|].
    assert (Hlast : zget ([91; 118] ++ v ++ [46] ++ t ++ [93]) (zlen v + zlen t + 4 - 1) = Some 93).
    { rewrite !app_assoc. rewrite zget_app_r; rewrite !zlen_app; change (zlen [91; 118]) with 2; change (zlen [46]) with 1; [|lia].
      by replace (zlen v + zlen t + 4 - 1 - (2 + zlen v + 1 + zlen t)) with 0 by lia. }
    rewrite Hlast, bool_decide_eq_true_2 by done. cbn [app hd tl drop orb negb].
    change (91 =? 91) with true. change (118 =? 118) with true. cbn [negb].
    destruct v as [|c v]; [done|]. cbn [app hd]. apply Forall_cons in Hv as [Hc Hv]. apply string_cons in Hsv as [Hcc Hsv].
    cbn [orb]. rewrite ?drop_0. cbn [hd]. rewrite (proj2 (xdigit_class c Hcc) Hc). cbn [negb].
    change (c :: v ++ 46 :: t ++ [93]) with ((c :: v) ++ 46 :: (t ++ [93])). rewrite zlen_cons in *.
    rewrite future_version_run; [|by constructor|by apply string_cons|rewrite zlen_cons; lia].
    cbn [hd tl]. change (46 =? 46) with true. cbn [negb]. rewrite zlen_cons.
    replace (1 + zlen v + zlen t + 4 - 3 - (1 + zlen v) - 1) with (zlen t) by lia.
    rewrite ztake_app_le, ztake_all by lia. change future_char with userinfo_char.
    rewrite (proj2 (class_forallb _ _ t userinfo_class Hst) Ht). by exists 2.
  - apply string_cons in Hs as [_ Hs]. apply string_app in Hs as [Hsa _].
    pose proof (zlen_nonneg a) as Hla.
    assert (Hla1 : 1 <= zlen a) by (destruct a; [done|]; rewrite zlen_cons; pose proof (zlen_nonneg a); lia).
    assert (Hlen : zlen ([91] ++ a ++ [93]) = zlen a + 2).
    { rewrite !zlen_app. change (zlen [91]) with 1. change (zlen [93]) with 1. lia. }
    rewrite Hlen. destruct (Z.ltb_spec (zlen a + 2) 3); [lia|].
    assert (Hlast : zget ([91] ++ a ++ [93]) (zlen a + 2 - 1) = Some 93).
    { rewrite app_assoc, zget_app_r; rewrite zlen_app; change (zlen [91]) with 1; [|lia].
      by replace (zlen a + 2 - 1 - (1 + zlen a)) with 0 by lia. }
    rewrite Hlast, bool_decide_eq_true_2 by done. cbn [app hd tl orb negb]. change (91 =? 91) with true. cbn [negb].
    assert (Hhd : hd 0 (a ++ [93]) ≠ 118).
    { destruct a as [|c a]; [done|]. cbn. intros ->. apply pton_accepts in Hp. apply Forall_cons in Hp as [Hp _]. by vm_compute in Hp. }
    destruct (Z.eqb_spec (hd 0 (a ++ [93])) 118); [done|].
    destruct (Z.leb_spec 64 (zlen a + 2 - 2)); [lia|].
    replace (zlen a + 2 - 2) with (zlen a) by lia. rewrite ztake_app_le, ztake_all by lia. rewrite Hp. by exists 1.
Qed.

Lemma literal_complete h r : string h → bracket_addr_ok words0 h (zlen h) = Some r → r ≠ 0 → ip_literal words0 h.
Proof.
  intros Hs H1 Hr. destruct (bracket_accepts words0 h r Hs H1 Hr) as (H91 & H3 & H93 & _).
  destruct h as [|c0 h]; [done|]. cbn in H91. subst c0.
  assert (∃ m, h = m ++ [93]) as [m ->].
  { destruct (exists_last (l := h)) as (m & z & ->); [by intros ->|]. exists m. f_equal. f_equal.
    rewrite zlen_cons, zlen_app in H93. change (zlen [z]) with 1 in H93. change (91 :: m ++ [z]) with ((91 :: m) ++ [z]) in H93.
    rewrite zget_app_r in H93 by (rewrite zlen_cons; lia). rewrite zlen_cons in H93.
    replace (1 + (zlen m + 1) - 1 - (1 + zlen m)) with 0 in H93 by lia. by injection H93 as ->. }
  apply string_cons in Hs as [_ Hs]. apply string_app in Hs as [Hs _].
  unfold bracket_addr_ok in H1. rewrite H93, bool_decide_eq_true_2 in H1 by done.
  destruct (Z.ltb_spec (zlen (91 :: m ++ [93])) 3); [lia|].
  cbn [hd tl orb negb] in H1. change (91 =? 91) with true in H1. cbn [negb] in H1.
  rewrite zlen_cons, zlen_app in *. change (zlen [93]) with 1 in *. pose proof (zlen_nonneg m) as Hm.
  destruct m as [|c1 m]; [rewrite zlen_nil in *; lia|]. cbn [app hd] in H1. rewrite zlen_cons in *.
  destruct (Z.eqb_spec c1 118) as [->|Hc1].
  - left. cbn [drop] in H1. rewrite ?drop_0 in H1. apply string_cons in Hs as [_ Hs].
    replace (1 + (1 + zlen m + 1) - 3) with (zlen m) in H1 by lia.
    destruct (EVUTIL_ISXDIGIT_ (hd 0 (m ++ [93]))) eqn:Hx; cbn [negb] in H1; [|by injection H1 as <-].
    destruct (future_version (m ++ [93]) (zlen m)) as [[s n]|] eqn:E; [|by injection H1 as <-].
    apply future_version_split in E as (p & E & Hp & En & Hn); [|apply zlen_nonneg].
    destruct (Z.eqb_spec (hd 0 s) 46) as [Hd|]; cbn [negb] in H1; [|by injection H1 as <-].
    destruct s as [|d s]; [done|]. cbn in Hd. subst d. cbn [tl] in H1.
    destruct (forallb future_char (ztake (n - 1) s)) eqn:Hf; [|by injection H1 as <-].
    assert (Hs93 : ∃ t, s = t ++ [93] ∧ m = p ++ 46 :: t).
    { destruct (exists_last (l := 46 :: s)) as (t & z & Et); [done|]. rewrite Et, app_assoc in E.
      apply app_inj_tail in E as [-> <-]. destruct t as [|x t]; [by injection Et|]. injection Et as <- ->. by exists t. }
    destruct Hs93 as (t & -> & ->). exists p, t.
    rewrite zlen_app, zlen_cons in En. assert (Hnt : n - 1 = zlen t) by lia. rewrite Hnt in Hf.
    rewrite ztake_app_le, ztake_all in Hf by (pose proof (zlen_nonneg t); lia).
    apply string_app in Hs as [Hsp Hst]. apply string_cons in Hst as [_ Hst]. split; [cbn [app]; by rewrite <- !app_assoc|].
    split; [|split].
    + intros ->. by vm_compute in Hx.
    + by apply (class_forall _ _ p xdigit_class Hsp).
    + by apply (class_forallb _ _ t userinfo_class Hst).
  - right. destruct (Z.leb_spec 64 (1 + (1 + zlen m + 1) - 2)); [by injection H1 as <-|].
    replace (1 + (1 + zlen m + 1) - 2) with (zlen (c1 :: m)) in H1 by (rewrite zlen_cons; lia).
    change (c1 :: m ++ [93]) with ((c1 :: m) ++ [93]) in H1.
    rewrite ztake_app_le, ztake_all in H1 by (pose proof (zlen_nonneg (c1 :: m)); lia).
    destruct (evutil_inet_pton words0 AF_INET6 (c1 :: m)) as [[rc a]|] eqn:Ep; [|done]. cbn [mbind option_bind] in H1.
    destruct (Z.eqb_spec rc 1) as [->|]; [|by injection H1 as <-].
    exists (c1 :: m), a. rewrite zlen_cons. split_and!; [done|done|lia|done].
Qed.

Lemma host_equiv h : string h → host_valid words0 h ↔ host_rule words0 h.
Proof.
  intros Hs. unfold host_valid, host_rule. destruct (Z.eqb_spec (hd 0 h) 91) as [E|E].
  - split; [intros (r & H1 & Hr); left; by eapply literal_complete|].
    intros [H1|H1]; [by apply literal_accepted|]. exfalso. inversion H1 as [|c s HP _ Eh|a b s _ _ _ Eh]; subst h; [done| |done].
    cbn in E. subst c. by apply (bool_decide_unpack _) in HP || (apply base_class in HP; [by vm_compute in HP|by apply string_cons in Hs as []]).
  - rewrite (encoded_equiv base_char reg_name_char h base_class eq_refl Hs). split; [by right|].
    intros [[(v & t & -> & _)|(a & w & -> & _)]|H1]; [done|done|done].
Qed.
End host.

(** * Whole URIs *)

(** Every part of a string is a string. *)
Lemma uri_text_strings u pd : string (uri_text u pd) →
  (∀ s, scheme u = Some s → string s) ∧
  (∀ h, host u = Some h → string h ∧ ∀ i, userinfo u = Some i → string i) ∧
  (∀ p, path u = Some p → string p) ∧
  (∀ q, query u = Some q → string q) ∧ (∀ f, fragment u = Some f → string f).
Proof.
  unfold uri_text, auth_text, ui_text. intros [H1 [H2 [H3 [H4 H5]%string_app]%string_app]%string_app]%string_app.
  split_and!.
  - intros s E. rewrite E in H1. by apply string_app in H1 as [].
  - intros h E. rewrite E in H2. apply string_app in H2 as [_ [Hi [Hh _]%string_app]%string_app].
    split; [done|]. intros i Ei. rewrite Ei in Hi. by apply string_app in Hi as [].
  - intros p E. by rewrite E in H3.
  - intros q E. rewrite E in H4. by apply string_cons in H4 as [].
  - intros f E. rewrite E in H5. by apply string_cons in H5 as [].
Qed.

(** The URIs that spell a string, by the library's predicates and by the grammar. *)
Lemma uri_grammar_equiv words0 flags u text :
  string text → uri_spells words0 flags u text ↔ uri_grammar words0 flags u text.
Proof.
  intros Hs. split.
  - intros [[Hfl Hsc Hui Hh (p & Ep & Hp & Hfit) Hq Hf] (pd & Hpd & ->)].
    destruct (uri_text_strings u pd Hs) as (S1 & S2 & S3 & S4 & S5). constructor.
    + done.
    + intros s E. apply scheme_equiv; eauto.
    + intros i E. apply (userinfo_equiv (userinfo u)); [|done|done]. intros j Ej. destruct (host u) as [h|].
      * by apply (S2 h eq_refl).
      * destruct Hh as [Hn _]. congruence.
    + destruct (host u) as [h|]; [|done]. apply host_equiv; [exact (proj1 (S2 h eq_refl))|done].
    + exists p. split; [done|]. split; [apply part_equiv; eauto|by apply path_equiv].
    + intros s E. apply part_equiv; eauto.
    + intros s E. apply part_equiv; eauto.
    + exists pd. split; [by apply port_equiv|done].
  - intros [Hfl Hsc Hui Hh (p & Ep & Hp & Hfit) Hq Hf (pd & Hpd & E)].
    change (text = uri_text u pd) in E. subst text.
    destruct (uri_text_strings u pd Hs) as (S1 & S2 & S3 & S4 & S5).
    split; [|exists pd; split; [by apply port_equiv|done]]. constructor.
    + done.
    + intros s E. apply scheme_equiv; eauto.
    + apply userinfo_equiv; [|done]. intros j Ej. destruct (host u) as [h|].
      * by apply (S2 h eq_refl).
      * destruct Hh as [Hn _]. congruence.
    + destruct (host u) as [h|]; [|done]. apply host_equiv; [exact (proj1 (S2 h eq_refl))|done].
    + exists p. split; [done|]. split; [apply part_equiv; eauto|by apply path_equiv].
    + intros s E. apply part_equiv; eauto.
    + intros s E. apply part_equiv; eauto.
Qed.
