(* ===== verification/HttpUriThms.v ===== *)
(** * The contract of the text part of [http.c]

    Theorems about escaping, percent-encoding and URIs, with concrete instances;
    the setters of URIs, and what joining does not check. *)
From S2P Require Import Prelude Outcome Lines Evutil InetDefs Inet EvbufferDefs Evbuffer EvbufferOps EvbufferIface EvbufferImpl EvbufferThms HttpUriDefs HttpText HttpUri HttpUriParse HttpGrammar.

(** An allocator that never fails, and words left on the stack. *)
#[local] Instance text_malloc : Malloc.
Proof. refine {| mm_malloc n := Some (zrepeat 0 n) |}. intros n b Hn [= <-]. by apply zlen_zrepeat. Defined.
#[local] Instance text_malloc_total : MallocTotal.
Proof. by intros n Hn. Defined.
Definition stack_words : list Z := zrepeat 7 8.
Lemma stack_words_ok : zlen stack_words = 8 ∧ Forall word16 stack_words.
Proof. split; [done|]. apply Forall_replicate. unfold word16. lia. Qed.

(** * Escaping *)

(** A write that fills the block. *)
Lemma memcpy_end (a r x : list Z) : zlen r = zlen x → memcpy_at (a ++ r) (zlen a) x = Some (a ++ x).
Proof.
  intros E. pose proof (zlen_nonneg a). rewrite memcpy_at_ok by (rewrite ?zlen_app; lia).
  rewrite ztake_app_le, (ztake_all (zlen a) a), (zdrop_all (zlen a + zlen x)) by (rewrite ?zlen_app; lia).
  by rewrite app_nil_r.
Qed.

(** [evhttp_htmlescape] allocates exactly what it writes; its result has no
    character that HTML treats specially except ampersands that begin an entity,
    and reading the entities back gives the text. *)
Theorem htmlescape_correct {MM : Malloc} html :
  6 * zlen html < EV_SIZE_MAX →
  ∃ text, html_unescape 0 text = html ∧ Forall (λ c, c ≠ 60 ∧ c ≠ 62 ∧ c ≠ 34 ∧ c ≠ 39) text ∧
    evhttp_htmlescape html =
      Some (match mm_malloc (zlen text + 1) with Some _ => Some (text ++ [0]) | None => None end).
Proof.
  intros Hlen. exists (html_text html). split; [apply html_unescape_text|]. split; [apply html_text_safe|].
  pose proof (html_text_len html). pose proof (zlen_nonneg html). unfold evhttp_htmlescape.
  rewrite html_size_ok, Z.add_0_l by lia. destruct (Z.eqb_spec (zlen (html_text html)) EV_SIZE_MAX); [lia|].
  destruct (mm_malloc (zlen (html_text html) + 1)) as [mem|] eqn:Em; [|done]. apply mm_malloc_len in Em; [|lia].
  pose proof (html_copy_ok html [] mem) as Hc. simpl app in Hc. change (zlen (@nil Z)) with 0 in Hc.
  rewrite Hc by lia. cbn [mbind option_bind]. rewrite Z.add_0_l.
  rewrite memcpy_end; [done|]. rewrite zlen_zdrop by lia. change (zlen [0]) with 1. lia.
Qed.
Lemma htmlescape_correct_witness :
  6 * zlen [60; 97; 38] < EV_SIZE_MAX ∧
  ∃ text, html_unescape 0 text = [60; 97; 38] ∧ Forall (λ c, c ≠ 60 ∧ c ≠ 62 ∧ c ≠ 34 ∧ c ≠ 39) text ∧
    evhttp_htmlescape [60; 97; 38] =
      Some (match mm_malloc (zlen text + 1) with Some _ => Some (text ++ [0]) | None => None end).
Proof. split; [by vm_compute|]. apply (htmlescape_correct [60; 97; 38]). by vm_compute. Defined.

(** * Percent-encoding *)

(** C25: what [evhttp_uriencode] makes of any bytes, [evhttp_uridecode] with the same
    treatment of blanks turns back into them, with their number; the encoded text
    has only unreserved characters, percent signs and plus signs, and neither
    function leaves its memory. *)
Theorem uri_codec_roundtrip {MM : Malloc} {MT : MallocTotal} {B : Type} `{EL : EvbufferLaws B} data plus :
  Forall byte data → 3 * zlen data < eb_cap (B := B) →
  ∃ text block rest,
    evhttp_uriencode (B := B) data (zlen data) plus = Some (Some (text ++ [0])) ∧
    Forall (λ c, encoded_char c = true) text ∧
    evhttp_uridecode text plus = Some (Some (block, zlen data)) ∧ block = data ++ 0 :: rest ∧
    zlen block = zlen text + 1.
Proof.
  intros Hb Hcap. pose proof (enc_text_len plus data) as Hl. pose proof (eb_cap_int (B := B)) as Hint.
  pose proof (zlen_nonneg data). unfold INT_MAX in Hint.
  assert (encode_input data (zlen data) = data) as Ein.
  { unfold encode_input. destruct (Z.leb_spec 0 (zlen data)); [|lia]. by apply ztake_all. }
  exists (enc_text plus data).
  assert (zlen (cstr data) <= zlen data) as Hc.
  { clear. induction data as [|c s IH]; [done|]. simpl. case_match; rewrite ?zlen_cons; [pose proof (zlen_nonneg s)|]; simpl; unfold zlen in *; simpl; lia. }
  pose proof (uriencode_ok (B := B) data (zlen data) plus) as He. rewrite Ein in He. cbv zeta in He.
  rewrite He by (unfold EV_SSIZE_MAX; lia). clear He.
  pose proof (zlen_nonneg (enc_text plus data)).
  destruct (mm_malloc (zlen (enc_text plus data) + 1)) as [ret|] eqn:Em.
  2:{ apply malloc_never_fails in Em; [done|lia]. }
  assert (zlen ret = zlen (enc_text plus data) + 1) as Hret by (eapply mm_malloc_len; [|exact Em]; lia).
  destruct (decode_ok (enc_text plus data) ret (if plus then 1 else 0)) as (rest & Ed & Hlen); [unfold INT_MAX; lia|lia|].
  assert (dec_text ((if plus then 1 else 0) <? 0) ((if plus then 1 else 0) =? 1) (enc_text plus data) = data) as Edata.
  { destruct plus; by apply dec_enc_text. }
  rewrite Edata in *. exists (data ++ 0 :: rest), rest. split; [done|]. split.
  { eapply Forall_impl; [by apply enc_text_chars|]. by intros c []. }
  split; [|split; [done|lia]]. unfold evhttp_uridecode. rewrite Em, Ed. cbn [mbind option_bind].
  destruct (Z.leb_spec 0 (zlen data)); [done|lia].
Qed.
Lemma uri_codec_roundtrip_witness :
  Forall byte [97; 32; 0; 255; 63; 43] ∧ 3 * zlen [97; 32; 0; 255; 63; 43] < INT_MAX ∧
  ∃ text block rest,
    evhttp_uriencode (B := evbuffer) [97; 32; 0; 255; 63; 43] (zlen [97; 32; 0; 255; 63; 43]) true =
      Some (Some (text ++ [0])) ∧
    Forall (λ c, encoded_char c = true) text ∧
    evhttp_uridecode text true = Some (Some (block, zlen [97; 32; 0; 255; 63; 43])) ∧
    block = [97; 32; 0; 255; 63; 43] ++ 0 :: rest ∧ zlen block = zlen text + 1.
Proof.
  assert (Forall byte [97; 32; 0; 255; 63; 43]) as Hb by (repeat constructor; unfold byte; lia).
  split; [exact Hb|]. split; [by vm_compute|].
  apply (uri_codec_roundtrip (B := evbuffer) [97; 32; 0; 255; 63; 43] true); [exact Hb|by vm_compute].
Defined.

(** * URIs *)

(** "http://u@[::1]:80/p?q#f" *)
Definition demo_uri_text : list Z :=
  [104; 116; 116; 112; 58; 47; 47; 117; 64; 91; 58; 58; 49; 93; 58; 56; 48; 47; 112; 63; 113; 35; 102].
Definition demo_uri : evhttp_uri :=
  Uri 0 (Some [104; 116; 116; 112]) (Some [117]) (Some [91; 58; 58; 49; 93]) 80 (Some [47; 112])
    (Some [113]) (Some [102]).

Lemma demo_uri_string : string demo_uri_text.
Proof. unfold string, demo_uri_text. repeat constructor; unfold byte; lia. Qed.
Lemma demo_uri_valid : uri_valid stack_words 0 demo_uri.
Proof.
  constructor; simpl; try done.
  - by intros s [= <-].
  - by intros s [= <-].
  - unfold host_valid. simpl. exists 1. split; [by vm_compute|lia].
  - exists [47; 112]. split; [done|]. split; [done|]. split; [by left|done].
  - by intros s [= <-].
  - by intros s [= <-].
Qed.
Lemma demo_uri_grammar : uri_grammar stack_words 0 demo_uri demo_uri_text.
Proof.
  apply uri_grammar_equiv; [exact demo_uri_string|]. split; [apply demo_uri_valid|].
  exists [58; 56; 48]. split; [|done]. right. exists [56; 48]. split_and!; try done; by repeat constructor.
Qed.

(** C23: [evhttp_uri_parse_with_flags] accepts exactly the grammar of URIs of
    [HttpGrammar], which is stated over bytes without the tables and scanners of
    [http.c] (only the text of an IPv6 address is what [evutil_inet_pton] reads): on
    any string it stays inside its memory; a URI it returns consists of parts of the
    grammar and the string is its text; and every string that the grammar reads as a
    URI is parsed into exactly that URI, unless memory runs out.  Ports over 65535 are
    no part of the grammar, so the text [http://www.example.com:99999/] is refused,
    which the header's documentation says is accepted. *)
Theorem uri_parse_exact {MM : Malloc} words0 text flags :
  zlen words0 = 8 → Forall word16 words0 → string text → zlen text < EV_SIZE_MAX →
  ∃ r, evhttp_uri_parse_with_flags words0 text flags = Some r ∧
    (∀ u, r = Some u → uri_grammar words0 flags u text) ∧
    (MallocTotal → ∀ u, uri_grammar words0 flags u text → r = Some u).
Proof.
  intros Hw0 Hw Hs Hlen. setoid_rewrite <- (uri_grammar_equiv words0 flags _ text Hs).
  unfold evhttp_uri_parse_with_flags. destruct (mm_malloc SIZEOF_EVHTTP_URI) eqn:Em.
  2:{ eexists. split; [done|]. split; [done|]. intros MT. by apply malloc_never_fails in Em. }
  unfold mm_strdup. destruct (Z.eqb_spec (zlen text) EV_SIZE_MAX); [lia|].
  destruct (mm_malloc (zlen text + 1)) eqn:Em'.
  2:{ eexists. split; [done|]. split; [done|]. intros MT. apply malloc_never_fails in Em'; [done|].
      pose proof (zlen_nonneg text). lia. }
  pose proof (uri_body_sound words0 Hw0 Hw flags text Hs) as H. unfold pwp in H.
  destruct (uri_body words0 flags text (empty_uri flags)) as [[] u|u|] eqn:E; [| |done]; simpl.
  - exists (Some u). split; [done|]. split; [by intros ? [= <-]|]. intros MT v Hv.
    by rewrite (uri_body_complete words0 Hw0 Hw flags v text Hs Hlen Hv) in E; injection E as ->.
  - exists None. split; [done|]. split; [done|]. intros MT v Hv.
    by rewrite (uri_body_complete words0 Hw0 Hw flags v text Hs Hlen Hv) in E.
Qed.
Lemma uri_parse_exact_witness :
  uri_grammar stack_words 0 demo_uri demo_uri_text ∧
  evhttp_uri_parse_with_flags stack_words demo_uri_text 0 = Some (Some demo_uri).
Proof.
  split; [exact demo_uri_grammar|].
  destruct (uri_parse_exact stack_words demo_uri_text 0) as (r & -> & _ & Hr);
    [apply stack_words_ok|apply stack_words_ok|exact demo_uri_string|by vm_compute|].
  by rewrite (Hr text_malloc_total demo_uri demo_uri_grammar).
Defined.

(** The example of a port over 65535 in the documentation, "http://www.example.com:99999/". *)
Lemma uri_documented_port_refused :
  evhttp_uri_parse_with_flags stack_words
    [104; 116; 116; 112; 58; 47; 47; 119; 119; 119; 46; 101; 120; 97; 109; 112; 108; 101; 46; 99; 111; 109;
     58; 57; 57; 57; 57; 57; 47] 0 = Some None.
Proof. vm_compute. reflexivity. Qed.
(** An IP literal of a future version whose text is empty, "//[v1.]". *)
Lemma uri_empty_future_host :
  evhttp_uri_parse_with_flags stack_words [47; 47; 91; 118; 49; 46; 93] 0 =
    Some (Some (Uri 0 None None (Some [91; 118; 49; 46; 93]) (-1) (Some []) None None)).
Proof. vm_compute. reflexivity. Qed.

(** ** Joining *)

Section join.
Context {B : Type} `{EL : EvbufferLaws B}.

Definition holds (tmp : B) (text : list Z) : Prop := eb_inv tmp ∧ eb_bytes tmp = text.

Lemma add_text_ok tmp t x :
  holds tmp t → zlen (t ++ x) <= eb_cap → ∃ tmp', add_text tmp x = Some tmp' ∧ holds tmp' (t ++ x).
Proof.
  intros [Hi <-] Hl. rewrite zlen_app in Hl. unfold add_text.
  destruct (eb_add_ok tmp x Hi Hl) as (tmp' & -> & ? & ?). by exists tmp'.
Qed.
Lemma add_printf_ok tmp t x :
  holds tmp t → zlen (t ++ x) <= eb_cap → ∃ tmp', add_printf tmp x = Some tmp' ∧ holds tmp' (t ++ x).
Proof.
  intros [Hi <-] Hl. rewrite zlen_app in Hl. unfold add_printf.
  destruct (eb_add_printf_ok tmp x Hi Hl) as (tmp' & -> & ? & ?). by exists tmp'.
Qed.
Lemma add_part_ok tmp t mark o :
  holds tmp t → zlen (t ++ opt_text mark o) <= eb_cap →
  ∃ tmp', add_part tmp [mark] o = Some tmp' ∧ holds tmp' (t ++ opt_text mark o).
Proof.
  intros Ht Hl. destruct o as [s|]; simpl; [|exists tmp; by rewrite app_nil_r].
  simpl in Hl. rewrite zlen_app, zlen_cons in Hl. pose proof (zlen_nonneg s).
  destruct (add_text_ok tmp t [mark] Ht) as (tmp1 & -> & H1); [rewrite zlen_app; change (zlen [mark]) with 1; lia|].
  cbn [mbind option_bind].
  destruct (add_text_ok tmp1 _ s H1) as (tmp2 & -> & H2); [rewrite !zlen_app; change (zlen [mark]) with 1; lia|].
  exists tmp2. split; [done|]. by rewrite <- app_assoc in H2.
Qed.

(** The text of the port that joining writes. *)
Definition joined_port (u : evhttp_uri) : list Z := if 0 <=? port u then 58 :: sprint_d (port u) else [].

Lemma uri_join_ok u p limit :
  path u = Some p → (∀ h, host u = Some h → hd 0 p = 47 ∨ p = []) →
  let text := uri_text u (joined_port u) in
  zlen text < eb_cap (B := B) → zlen text < limit →
  evhttp_uri_join (B := B) u limit = Some (Some (text ++ [0])).
Proof.
  intros Hp Hhost text Hcap Hlimit. unfold evhttp_uri_join. pose proof (zlen_nonneg text).
  destruct (Z.eqb_spec limit 0); [lia|]. destruct eb_new_ok as (tmp & -> & Hi & E0).
  assert (holds tmp []) as Hnew by done. clear Hi E0.
  subst text. unfold uri_text in *. rewrite Hp in *. simpl default in *.
  set (q := opt_text 63 (query u)) in *. set (f := opt_text 35 (fragment u)) in *.
  set (au := match host u with Some h => [47; 47] ++ auth_text (userinfo u) h (joined_port u) | None => [] end) in *.
  set (sc := scheme_text (scheme u)) in *.
  rewrite !zlen_app in *. pose proof (zlen_nonneg sc). pose proof (zlen_nonneg au). pose proof (zlen_nonneg p).
  pose proof (zlen_nonneg q). pose proof (zlen_nonneg f).
  (* the scheme *)
  assert (∃ tmp1, (match scheme u with Some s => tmp ← add_text tmp s; add_text tmp [58] | None => Some tmp end) = Some tmp1 ∧
    holds tmp1 sc) as (tmp1 & -> & Hh1).
  { subst sc. unfold scheme_text in *. destruct (scheme u) as [s|]; [|by exists tmp].
    rewrite zlen_app in *. change (zlen [58]) with 1 in *.
    destruct (add_text_ok tmp [] s Hnew) as (t1 & -> & Ht1); [simpl; lia|]. cbn [mbind option_bind].
    destruct (add_text_ok t1 _ [58] Ht1) as (t2 & -> & Ht2); [rewrite zlen_app; change (zlen [58]) with 1; simpl; lia|].
    by exists t2. }
  cbn [mbind option_bind].
  (* the authority *)
  match goal with |- context [match host u with Some h => @?m h | None => Some tmp1 end] =>
    assert (∃ tmp2, match host u with Some h => m h | None => Some tmp1 end = Some tmp2 ∧ holds tmp2 (sc ++ au))
      as (tmp2 & -> & Hh2) end.
  { subst au. destruct (host u) as [h|]; [|exists tmp1; by rewrite app_nil_r]. unfold auth_text, joined_port in *.
    change (zlen ([47; 47] ++ ui_text (userinfo u) ++ h ++ (if 0 <=? port u then 58 :: sprint_d (port u) else [])))
      with (2 + zlen (ui_text (userinfo u) ++ h ++ (if 0 <=? port u then 58 :: sprint_d (port u) else []))) in * || idtac.
    rewrite !zlen_app in *. change (zlen [47; 47]) with 2 in *.
    pose proof (zlen_nonneg (ui_text (userinfo u))). pose proof (zlen_nonneg h).
    pose proof (zlen_nonneg (if 0 <=? port u then 58 :: sprint_d (port u) else [])).
    destruct (add_text_ok tmp1 sc [47; 47] Hh1) as (t1 & -> & Ht1); [rewrite zlen_app; change (zlen [47; 47]) with 2; lia|].
    cbn [mbind option_bind].
    assert (∃ t2, match userinfo u with Some i => add_printf t1 (i ++ [64]) | None => Some t1 end = Some t2 ∧
      holds t2 ((sc ++ [47; 47]) ++ ui_text (userinfo u))) as (t2 & -> & Ht2).
    { unfold ui_text in *. destruct (userinfo u) as [i|]; [|exists t1; by rewrite app_nil_r].
      apply add_printf_ok; [done|]. rewrite !zlen_app in *. change (zlen [47; 47]) with 2. lia. }
    cbn [mbind option_bind].
    destruct (add_text_ok t2 _ h Ht2) as (t3 & -> & Ht3); [rewrite !zlen_app; change (zlen [47; 47]) with 2; lia|].
    cbn [mbind option_bind]. destruct (0 <=? port u).
    - destruct (add_printf_ok t3 _ (58 :: sprint_d (port u)) Ht3) as (t4 & -> & Ht4);
        [rewrite !zlen_app; change (zlen [47; 47]) with 2; lia|].
      exists t4. split; [done|]. by rewrite <- !app_assoc in *.
    - exists t3. split; [done|]. rewrite app_nil_r. by rewrite <- !app_assoc in *. }
  cbn [mbind option_bind].
  assert (match host u, Some p with
          | Some _, Some p => negb (hd 0 p =? 47) && negb (hd 0 p =? 0)
          | _, _ => false end = false) as ->.
  { destruct (host u) as [h|]; [|done]. by destruct (Hhost h eq_refl) as [-> | ->]. }
  destruct (add_text_ok tmp2 _ p Hh2) as (tmp3 & -> & Hh3); [rewrite !zlen_app; lia|]. cbn [mbind option_bind].
  destruct (add_part_ok tmp3 _ 63 (query u) Hh3) as (tmp4 & -> & Hh4); [fold q; rewrite !zlen_app; lia|]. cbn [mbind option_bind].
  destruct (add_part_ok tmp4 _ 35 (fragment u) Hh4) as (tmp5 & -> & Hh5); [fold q f; rewrite !zlen_app; lia|]. cbn [mbind option_bind].
  fold q f in Hh5.
  destruct (add_text_ok tmp5 _ [0] Hh5) as (tmp6 & -> & [Hi6 E6]); [rewrite !zlen_app; change (zlen [0]) with 1; lia|].
  cbn [mbind option_bind]. destruct (eb_length_ok tmp6 Hi6) as [-> _].
  assert (zlen (eb_bytes tmp6) = zlen sc + (zlen au + (zlen p + (zlen q + zlen f))) + 1) as El.
  { rewrite E6, !zlen_app. change (zlen [0]) with 1. lia. }
  destruct (Z.ltb_spec limit (zlen (eb_bytes tmp6))); [lia|].
  destruct (eb_remove_ok tmp6 (zlen (eb_bytes tmp6)) Hi6) as (tmp7 & -> & _); [auto with evlib|].
  cbn [mbind option_bind]. rewrite ztake_all, E6 by lia. by rewrite <- !app_assoc.
Qed.
End join.

Lemma joined_port_ok u : -1 <= port u <= 65535 → port_text (port u) (joined_port u).
Proof.
  intros Hp. unfold joined_port. destruct (Z.leb_spec 0 (port u)); [right|left; split; [lia|by left]].
  exists (sprint_d (port u)). split; [done|]. unfold sprint_d, sprint_u. destruct (Z.ltb_spec (port u) 0); [lia|].
  destruct (printed_digits 10 (port u)) as [Hd Hne]; [lia|lia|]. split; [done|]. split; [done|]. split; [|lia].
  pose proof (read_printed 10 (port u) []) as HR. rewrite app_nil_r in HR.
  pose proof (read_digits_app 10 0 (to_base 64 10 (port u)) [] Hd I) as HN. rewrite app_nil_r in HN.
  rewrite (HR ltac:(lia) ltac:(lia) I) in HN. exact (eq_sym (f_equal fst HN)).
Qed.

(** C24: a well-formed URI joined to text is parsed back into the same URI. *)
Theorem uri_join_roundtrip {MM : Malloc} {MT : MallocTotal} {B : Type} `{EL : EvbufferLaws B} words0 flags u limit :
  zlen words0 = 8 → Forall word16 words0 → uri_valid words0 flags u → -1 <= port u <= 65535 →
  let text := uri_text u (joined_port u) in
  string text → zlen text < eb_cap (B := B) → zlen text < limit →
  evhttp_uri_join (B := B) u limit = Some (Some (text ++ [0])) ∧
  evhttp_uri_parse_with_flags words0 text flags = Some (Some u).
Proof.
  intros Hw0 Hw Hv Hp text Hs Hcap Hlim. destruct (uv_path _ _ _ Hv) as (p & Ep & _ & Hfit & _).
  split.
  - apply (uri_join_ok u p); [done| |done|done]. intros h Eh. by rewrite Eh in Hfit.
  - assert (zlen text < EV_SIZE_MAX) as Hlen by (pose proof (eb_cap_int (B := B)); unfold INT_MAX, EV_SIZE_MAX in *; lia).
    pose proof (uri_body_complete words0 Hw0 Hw flags u text Hs Hlen) as Hrun.
    unfold evhttp_uri_parse_with_flags, mm_strdup. pose proof (zlen_nonneg text).
    destruct (mm_malloc SIZEOF_EVHTTP_URI) eqn:Em; [|by apply malloc_never_fails in Em].
    destruct (Z.eqb_spec (zlen text) EV_SIZE_MAX); [lia|].
    destruct (mm_malloc (zlen text + 1)) eqn:Em'; [|apply malloc_never_fails in Em'; [done|lia]].
    rewrite Hrun; [done|]. split; [done|]. exists (joined_port u). split; [by apply joined_port_ok|done].
Qed.
Lemma uri_join_roundtrip_witness :
  let text := uri_text demo_uri (joined_port demo_uri) in
  zlen text < INT_MAX ∧
  evhttp_uri_join (B := evbuffer) demo_uri 100 = Some (Some (text ++ [0])) ∧
  evhttp_uri_parse_with_flags stack_words text 0 = Some (Some demo_uri).
Proof.
  split; [by vm_compute|].
  apply (uri_join_roundtrip (B := evbuffer) stack_words 0 demo_uri 100);
    [apply stack_words_ok|apply stack_words_ok|exact demo_uri_valid|simpl; lia|exact demo_uri_string|by vm_compute|by vm_compute].
Defined.

(** ** Setters *)

Section setters.
Context {MM : Malloc} (words0 : list Z) (Hw0 : zlen words0 = 8) (Hw : Forall word16 words0).

(** A call of one of the setters. *)
Inductive uri_call :=
| SetScheme (s : option (list Z)) | SetUserinfo (s : option (list Z)) | SetHost (s : option (list Z))
| SetPort (p : Z) | SetPath (s : option (list Z)) | SetQuery (s : option (list Z))
| SetFragment (s : option (list Z)).
Definition call (c : uri_call) (u : evhttp_uri) : option (evhttp_uri * Z) :=
  match c with
  | SetScheme s => Some (evhttp_uri_set_scheme u s)
  | SetUserinfo s => Some (evhttp_uri_set_userinfo u s)
  | SetHost s => evhttp_uri_set_host words0 u s
  | SetPort p => Some (evhttp_uri_set_port u p)
  | SetPath s => Some (evhttp_uri_set_path u s)
  | SetQuery s => Some (evhttp_uri_set_query u s)
  | SetFragment s => Some (evhttp_uri_set_fragment u s)
  end.
Fixpoint calls (cs : list uri_call) (u : evhttp_uri) : option evhttp_uri :=
  match cs with
  | [] => Some u
  | c :: cs => '(u, _) ← call c u; calls cs u
  end.
(** What a successful call makes of the URI. *)
Definition requested (c : uri_call) (u : evhttp_uri) : evhttp_uri :=
  match c with
  | SetScheme s => set_scheme s u | SetUserinfo s => set_userinfo s u | SetHost s => set_host s u
  | SetPort p => set_port p u | SetPath s => set_path s u | SetQuery s => set_query s u
  | SetFragment s => set_fragment s u
  end.

(** Every part on its own is well formed. *)
Record parts_valid (flags : Z) (u : evhttp_uri) : Prop := {
  pv_flags : uri_flags u = flags;
  pv_scheme : ∀ s, scheme u = Some s → scheme_ok s = true;
  pv_userinfo : userinfo_valid (userinfo u);
  pv_host : ∀ h, host u = Some h → host_valid words0 h;
  pv_port : -1 <= port u;
  pv_path : part_valid flags PART_PATH (path u);
  pv_query : part_valid flags PART_QUERY (query u);
  pv_fragment : part_valid flags PART_FRAGMENT (fragment u)
}.

Lemma URI_SET_STR_ok (Q : evhttp_uri → Prop) set u s :
  Q (set s u) → Q (set None u) → let '(u', rc) := URI_SET_STR_ set u s in
  Q u' ∧ (rc = 0 ∧ u' = set s u ∨ rc = -1 ∧ u' = set None u).
Proof.
  intros H1 H2. unfold URI_SET_STR_. destruct s as [s|]; [|auto]. unfold mm_strdup.
  destruct (_ =? _); [auto|]. destruct (mm_malloc _); auto.
Qed.

Lemma part_end_iff flags part s : end_of_path s part flags = [] → part_ok flags part s = true.
Proof. intros E. destruct (end_of_path_split flags part s) as (p & Es & Hp). rewrite E, app_nil_r in Es. by subst. Qed.

Lemma set_part_ok part set u s flags :
  uri_flags u = flags → (∀ o, part_valid flags part o → parts_valid flags (set o u)) → parts_valid flags u →
  let '(u', rc) := set_part part set u s in
  parts_valid flags u' ∧ (rc = 0 ∧ u' = set s u ∨ rc = -1 ∧ (u' = u ∨ u' = set None u)).
Proof.
  intros Ef Hset Hu. unfold set_part. rewrite Ef.
  destruct (match s with Some _ => _ | None => _ end) eqn:Hbad; [auto|].
  pose proof (URI_SET_STR_ok (parts_valid flags) set u s) as H.
  destruct (URI_SET_STR_ set u s) as [u' rc]. destruct H as [H1 H2]; [| |split; [done|naive_solver]].
  - apply Hset. intros x ->. apply part_end_iff. apply negb_false_iff in Hbad.
    by apply bool_decide_eq_true in Hbad.
  - apply Hset. done.
Qed.

Lemma call_ok flags c u :
  parts_valid flags u →
  ∃ u' rc, call c u = Some (u', rc) ∧ parts_valid flags u' ∧
    (rc = 0 ∧ u' = requested c u ∨
     rc = -1 ∧ (u' = u ∨ u' = requested (match c with
       | SetScheme _ => SetScheme None | SetUserinfo _ => SetUserinfo None | SetHost _ => SetHost None
       | SetPort p => SetPort p | SetPath _ => SetPath None | SetQuery _ => SetQuery None
       | SetFragment _ => SetFragment None end) u)).
Proof.
  intros Hu. destruct (Hu) as [Hfl H1 H2 H3 H4 H5 H6 H7].
  assert (∀ (r : evhttp_uri * Z) none, (let '(u', rc) := r in parts_valid flags u' ∧
    (rc = 0 ∧ u' = requested c u ∨ rc = -1 ∧ (u' = u ∨ u' = none))) →
    ∃ u' rc, Some r = Some (u', rc) ∧ parts_valid flags u' ∧
    (rc = 0 ∧ u' = requested c u ∨ rc = -1 ∧ (u' = u ∨ u' = none))) as Hwrap by (intros [u' rc] none ?; eauto).
  assert (∀ set s, requested c u = set s u → parts_valid flags (set s u) → parts_valid flags (set None u) →
    let '(u', rc) := URI_SET_STR_ set u s in parts_valid flags u' ∧
    (rc = 0 ∧ u' = requested c u ∨ rc = -1 ∧ (u' = u ∨ u' = set None u))) as Hset.
  { intros set s Er Hs Hn. pose proof (URI_SET_STR_ok (parts_valid flags) set u s Hs Hn) as H.
    destruct (URI_SET_STR_ set u s). rewrite Er. naive_solver. }
  destruct c as [s|s|s|p|s|s|s]; simpl call.
  - apply Hwrap. unfold evhttp_uri_set_scheme. destruct (match s with Some _ => _ | None => _ end) eqn:Hb; [auto|].
    apply Hset; [done| |by constructor]. constructor; try done. simpl. intros x ->. by apply negb_false_iff in Hb.
  - apply Hwrap. unfold evhttp_uri_set_userinfo. destruct (match s with Some _ => _ | None => _ end) eqn:Hb; [auto|].
    apply Hset; [done| |by constructor]. constructor; try done. simpl. intros x ->. apply negb_false_iff in Hb.
    rewrite userinfo_ok_spec in Hb by (split; auto with evlib; lia). by rewrite ztake_all in Hb by lia.
  - unfold evhttp_uri_set_host. destruct s as [h|].
    2:{ cbn [mbind option_bind]. apply Hwrap, Hset; [done| |]; by constructor. }
    assert (∃ bad, (if hd 0 h =? 91 then r ← bracket_addr_ok words0 h (zlen h); Some (r =? 0)
                    else Some (negb (regname_ok h (zlen h)))) = Some bad ∧ (bad = false → host_valid words0 h))
      as (bad & -> & Hv).
    { unfold host_valid. destruct (hd 0 h =? 91).
      - destruct (bracket_total words0 Hw0 Hw h (zlen h)) as [r Hr]. rewrite Hr. cbn [mbind option_bind].
        exists (r =? 0). split; [done|]. intros Hz%Z.eqb_neq. by exists r.
      - eexists. split; [done|]. intros Hb%negb_false_iff. pose proof (zlen_nonneg h).
        rewrite regname_ok_spec in Hb; [by rewrite ztake_all in Hb by lia|lia|by rewrite zdrop_all by lia]. }
    cbn [mbind option_bind]. destruct bad; apply Hwrap; [auto|]. apply Hset; [done| |by constructor].
    constructor; try done. simpl. intros x [= <-]. by apply Hv.
  - apply Hwrap. unfold evhttp_uri_set_port. destruct (Z.ltb_spec p (-1)); [auto|]. split; [by constructor|]. by left.
  - apply Hwrap. apply set_part_ok; [done| |done]. intros o Ho. by constructor.
  - apply Hwrap. apply set_part_ok; [done| |done]. intros o Ho. by constructor.
  - apply Hwrap. apply set_part_ok; [done| |done]. intros o Ho. by constructor.
Qed.
End setters.

(** C35: whatever sequence of setters is called on a new URI, with any strings, no
    memory outside the strings is used and each part of the URI stays well formed:
    a bad argument is refused. *)
Theorem uri_setters_invariant {MM : Malloc} words0 cs :
  zlen words0 = 8 → Forall word16 words0 →
  ∃ u, calls words0 cs (empty_uri 0) = Some u ∧ parts_valid words0 0 u.
Proof.
  intros Hw0 Hw. assert (parts_valid words0 0 (empty_uri 0)) as Hu by (constructor; done).
  revert Hu. generalize (empty_uri 0) as u. induction cs as [|c cs IH]; intros u Hu; simpl; [eauto|].
  destruct (call_ok words0 Hw0 Hw 0 c u Hu) as (u' & rc & -> & Hu' & _).
  cbn [mbind option_bind]. by apply IH.
Qed.
Lemma uri_setters_invariant_witness :
  ∃ u, calls stack_words [SetScheme (Some [104]); SetHost (Some [97]); SetPath (Some [47; 47; 98]); SetPort (-5)]
         (empty_uri 0) = Some u ∧ parts_valid stack_words 0 u.
Proof. apply uri_setters_invariant; apply stack_words_ok. Defined.

(** The parts need not fit together: a path that begins with two slashes is
    accepted without a host, and joining writes it so that its beginning is read
    back as a host; so is a port that does not fit 16 bits, which is then refused. *)
Lemma uri_join_ambiguous :
  ∃ u v, calls stack_words [SetPath (Some [47; 47; 98; 47; 99])] (empty_uri 0) = Some u ∧ host u = None ∧
    evhttp_uri_join (B := evbuffer) u 100 = Some (Some [47; 47; 98; 47; 99; 0]) ∧
    evhttp_uri_parse stack_words [47; 47; 98; 47; 99] = Some (Some v) ∧ host v = Some [98] ∧ path v = Some [47; 99].
Proof. eexists _, _. split; [by vm_compute|]. split; [done|]. split; [by vm_compute|]. split; [by vm_compute|]. done. Qed.
Lemma uri_port_unchecked :
  ∃ u, calls stack_words [SetHost (Some [98]); SetPort 70000; SetPath (Some [])] (empty_uri 0) = Some u ∧
    evhttp_uri_join (B := evbuffer) u 100 = Some (Some [47; 47; 98; 58; 55; 48; 48; 48; 48; 0]) ∧
    evhttp_uri_parse stack_words [47; 47; 98; 58; 55; 48; 48; 48; 48] = Some None.
Proof. eexists. split; [by vm_compute|]. split; by vm_compute. Qed.
(** A host in brackets may contain line breaks: "//[::1.\r\n2.3.4]" is accepted. *)
Lemma uri_host_line_break :
  ∃ u, evhttp_uri_parse stack_words [47; 47; 91; 58; 58; 49; 46; 13; 10; 50; 46; 51; 46; 52; 93] = Some (Some u) ∧
    host u = Some [91; 58; 58; 49; 46; 13; 10; 50; 46; 51; 46; 52; 93].
Proof. eexists. split; by vm_compute. Qed.
