(* ===== verification/HttpMsgDefs.v ===== *)
(** * HTTP messages: data and operations

    The part of [http.c] that reads the first line and the headers of a message,
    the lists of headers, the form of queries, and the choice of a virtual host.

    Strings are lists of bytes without the terminating zero, and [NULL] is [None].
    A list of headers is the list of its keys and values in order.  Functions that
    may return an error after they have changed the request are parsers whose
    state is the request; those that report a [message_read_status] return it
    together with the request and the buffer. *)
From S2P Require Import Prelude Outcome Lines Evutil InetDefs EvbufferDefs EvbufferIface HttpUriDefs.
From Stdlib Require Import Ascii.

(** The bytes of a text, and of a character. *)
Definition chr (a : ascii) : Z := Z.of_N (N_of_ascii a).
Definition str (s : String.string) : list Z := chr <$> String.list_ascii_of_string s.
#[global] Arguments chr a%_char.
#[global] Arguments str s%_string.

(** * String functions of the C library *)

(** [strsep] with one separator: the token, and the rest behind the separator. *)
Definition strsep (s : list Z) (c : Z) : list Z * option (list Z) :=
  match strchr s c with
  | Some k => (take k s, Some (drop (S k) s))
  | None => (s, None)
  end.
Definition strrchr (s : list Z) (c : Z) : option nat :=
  (λ k, (length s - 1 - k)%nat) <$> strchr (reverse s) c.
Definition strspn (s : list Z) (accept : list Z) : list Z := zdrop (span accept s) s.
Fixpoint strip_prefix (p s : list Z) : option (list Z) :=
  match p, s with
  | [], _ => Some s
  | c :: p, d :: s => if c =? d then strip_prefix p s else None
  | _ :: _, [] => None
  end.

(** * Headers *)

Definition evkeyvalq : Type := list (list Z * list Z).
(** [sizeof(struct evkeyval)]: four pointers. *)
Definition SIZEOF_EVKEYVAL : Z := 32.

Fixpoint evhttp_find_header (headers : evkeyvalq) (key : list Z) : option (list Z) :=
  match headers with
  | [] => None
  | (k, v) :: headers =>
      if evutil_ascii_strcasecmp k key =? 0 then Some v else evhttp_find_header headers key
  end.

Fixpoint evhttp_clear_headers (headers : evkeyvalq) : evkeyvalq :=
  match headers with
  | [] => []
  | _ :: headers => evhttp_clear_headers headers
  end.

(** The list after the call, and the result. *)
Fixpoint evhttp_remove_header (headers : evkeyvalq) (key : list Z) : evkeyvalq * Z :=
  match headers with
  | [] => ([], -1)
  | (k, v) :: headers =>
      if evutil_ascii_strcasecmp k key =? 0 then (headers, 0)
      else let '(headers, rc) := evhttp_remove_header headers key in ((k, v) :: headers, rc)
  end.

Definition line_break (c : Z) : bool := in_set [13; 10] c.
Definition blank (c : Z) : bool := (c =? 32) || (c =? 9).
(** [in_break]: [p] is behind line breaks passed by [strspn]. *)
Fixpoint value_scan (in_break : bool) (p : list Z) : bool :=
  match p with
  | [] => negb in_break
  | c :: p =>
      if line_break c then value_scan true p
      else if in_break && negb (blank c) then false
      else value_scan false p
  end.
Definition evhttp_header_is_valid_value (value : list Z) : bool := value_scan false value.

Section headers.
Context {MM : Malloc}.

Definition evhttp_add_header_internal (headers : evkeyvalq) (key value : list Z) : evkeyvalq * Z :=
  match mm_malloc SIZEOF_EVKEYVAL with
  | None => (headers, -1)
  | Some _ =>
      match mm_strdup key with
      | None => (headers, -1)
      | Some key =>
          match mm_strdup value with
          | None => (headers, -1)
          | Some value => (headers ++ [(key, value)], 0)
          end
      end
  end.

Definition evhttp_add_header (headers : evkeyvalq) (key value : list Z) : evkeyvalq * Z :=
  if bool_decide (is_Some (strchr key 13)) || bool_decide (is_Some (strchr key 10)) then (headers, -1)
  else if negb (evhttp_header_is_valid_value value) then (headers, -1)
  else evhttp_add_header_internal headers key value.

(** [mm_realloc] to [size] bytes of a block that begins with [old]. *)
Definition mm_realloc (old : list Z) (size : Z) : option (option (list Z)) :=
  match mm_malloc size with
  | None => Some None
  | Some mem => mem ← memcpy_at mem 0 old; Some (Some mem)
  end.

(** [None]: outside the memory of the new value. *)
Definition evhttp_append_to_last_header (headers : evkeyvalq) (line : list Z) : option (evkeyvalq * Z) :=
  match last headers with
  | None => Some (headers, -1)
  | Some (key, value) =>
      let old_len := zlen value in
      let line := evutil_rtrim_lws_ (strspn line [32; 9]) in
      let line_len := zlen line in
      newval ← mm_realloc value (old_len + line_len + 2);
      match newval with
      | None => Some (headers, -1)
      | Some newval =>
          newval ← zset newval old_len 32;
          newval ← memcpy_at newval (old_len + 1) (line ++ [0]);
          Some (removelast headers ++ [(key, cstr newval)], 0)
      end
  end.
End headers.

(** * Virtual hosts *)

Fixpoint prefix_suffix_match (pattern name : list Z) (ignorecase : bool) {struct pattern} : bool :=
  match pattern with
  | [] => bool_decide (name = [])
  | c :: pattern =>
      if c =? 42 then
        (fix star (name : list Z) : bool :=
           match name with
           | [] => false
           | _ :: name' => if prefix_suffix_match pattern name ignorecase then true else star name'
           end) name
      else
        let d := hd 0 name in
        if negb (c =? d) && (negb ignorecase || negb (EVUTIL_TOLOWER_ c =? EVUTIL_TOLOWER_ d)) then false
        else prefix_suffix_match pattern (tl name) ignorecase
  end.

(** What a server is asked about: its pattern as a virtual host, its aliases, its
    virtual hosts, the paths with callbacks, and its settings. *)
Inductive evhttp := Http {
  vhost_pattern : list Z;
  aliases : list (list Z);
  virtualhosts : list evhttp;
  callbacks : list (list Z);
  allowed_methods : Z;
  gencb : bool;
  default_content_type : option (list Z)
}.

(** [Some]: found, and the server in [*outhttp]. *)
Fixpoint evhttp_find_alias (http : evhttp) (hostname : list Z) : option evhttp :=
  if existsb (λ alias, evutil_ascii_strcasecmp alias hostname =? 0) (aliases http) then Some http
  else
    (fix search (vhosts : list evhttp) : option evhttp :=
       match vhosts with
       | [] => None
       | vhost :: vhosts =>
           match evhttp_find_alias vhost hostname with
           | Some found => Some found
           | None => search vhosts
           end
       end) (virtualhosts http).

(** The loop that goes down while a pattern matches: where it ends, and whether
    any pattern matched. *)
Fixpoint descend (http : evhttp) (hostname : list Z) : evhttp * bool :=
  (fix search (vhosts : list evhttp) : evhttp * bool :=
     match vhosts with
     | [] => (http, false)
     | vhost :: vhosts =>
         if prefix_suffix_match (vhost_pattern vhost) hostname true
         then ((descend vhost hostname).1, true)
         else search vhosts
     end) (virtualhosts http).
Definition evhttp_find_vhost (http : evhttp) (hostname : list Z) : evhttp * bool :=
  match evhttp_find_alias http hostname with
  | Some found => (found, true)
  | None => descend http hostname
  end.

(** * Requests *)

Definition EVHTTP_REQ_GET : Z := 1.
Definition EVHTTP_REQ_POST : Z := 2.
Definition EVHTTP_REQ_HEAD : Z := 4.
Definition EVHTTP_REQ_PUT : Z := 8.
Definition EVHTTP_REQ_DELETE : Z := 16.
Definition EVHTTP_REQ_OPTIONS : Z := 32.
Definition EVHTTP_REQ_TRACE : Z := 64.
Definition EVHTTP_REQ_CONNECT : Z := 128.
Definition EVHTTP_REQ_PATCH : Z := 256.
Definition EVHTTP_REQ_UNKNOWN_ : Z := 32768.

Definition EVHTTP_PROXY_REQUEST : Z := 2.
Definition EVHTTP_USER_OWNED : Z := 4.
Definition EVHTTP_REQ_DEFER_FREE : Z := 8.
Definition EVHTTP_REQ_NEEDS_FREE : Z := 16.

Definition HTTP_NOCONTENT : Z := 204.
Definition HTTP_NOTMODIFIED : Z := 304.
Definition HTTP_EXPECTATIONFAILED : Z := 417.
Definition HTTP_NOTIMPLEMENTED : Z := 501.

Inductive evhttp_request_kind := EVHTTP_REQUEST | EVHTTP_RESPONSE.
Inductive message_read_status :=
| ALL_DATA_READ | MORE_DATA_EXPECTED | DATA_CORRUPTED | REQUEST_CANCELED | DATA_TOO_LONG.

(** What the first line says, with the flags of the request. *)
Record first_line := Line {
  req_flags : Z;
  type : Z;
  req_uri : option (list Z);
  uri_elems : option evhttp_uri;
  major : Z;
  minor : Z;
  response_code : Z;
  response_code_line : option (list Z)
}.
(** What has been read of the body. *)
Record message_body (B : Type) := Body {
  body_size : Z;
  ntoread : Z;
  chunked : bool;
  input_buffer : B
}.
(** [struct evhttp_request] *)
Record evhttp_request (B : Type) := Request {
  kind : evhttp_request_kind;
  first : first_line;
  input_headers : evkeyvalq;
  output_headers : evkeyvalq;
  headers_size : Z;
  body : message_body B;
  output_buffer : B
}.
#[global] Arguments Body {B}.
#[global] Arguments body_size {B}.
#[global] Arguments ntoread {B}.
#[global] Arguments chunked {B}.
#[global] Arguments input_buffer {B}.
#[global] Arguments Request {B}.
#[global] Arguments kind {B}.
#[global] Arguments first {B}.
#[global] Arguments input_headers {B}.
#[global] Arguments output_headers {B}.
#[global] Arguments headers_size {B}.
#[global] Arguments body {B}.
#[global] Arguments output_buffer {B}.

(** The settings of a connection; reading does not change them. *)
Record con_settings := Settings {
  max_headers_size : Z;
  max_body_size : Z;
  con_flags : Z;
  http_server : option evhttp
}.

Definition set_flags (v : Z) (l : first_line) : first_line :=
  Line v (type l) (req_uri l) (uri_elems l) (major l) (minor l) (response_code l) (response_code_line l).
Definition set_type (v : Z) (l : first_line) : first_line :=
  Line (req_flags l) v (req_uri l) (uri_elems l) (major l) (minor l) (response_code l) (response_code_line l).
Definition set_uri (v : option (list Z)) (l : first_line) : first_line :=
  Line (req_flags l) (type l) v (uri_elems l) (major l) (minor l) (response_code l) (response_code_line l).
Definition set_uri_elems (v : option evhttp_uri) (l : first_line) : first_line :=
  Line (req_flags l) (type l) (req_uri l) v (major l) (minor l) (response_code l) (response_code_line l).
Definition set_version (v w : Z) (l : first_line) : first_line :=
  Line (req_flags l) (type l) (req_uri l) (uri_elems l) v w (response_code l) (response_code_line l).
Definition set_response (v : Z) (l : first_line) : first_line :=
  Line (req_flags l) (type l) (req_uri l) (uri_elems l) (major l) (minor l) v (response_code_line l).
Definition set_response_line (v : option (list Z)) (l : first_line) : first_line :=
  Line (req_flags l) (type l) (req_uri l) (uri_elems l) (major l) (minor l) (response_code l) v.

(** * The first line *)

Definition evhttp_valid_response_code (code : Z) : bool := negb (code =? 0).

(** [sscanf(version, "HTTP/%d.%d%c")] where it fills exactly two arguments. *)
Definition sscanf_version (version : list Z) : option (Z * Z) :=
  s ← strip_prefix (str "HTTP/") version;
  '(major, s) ← scan_d s;
  s ← strip_prefix (str ".") s;
  '(minor, s) ← scan_d s;
  if bool_decide (s = []) then Some (major, minor) else None.
(** The numbers are stored in a [char] each. *)
Definition evhttp_parse_http_version (version : list Z) : parser first_line unit :=
  match sscanf_version version with
  | None => err
  | Some (major, minor) =>
      _ ← err_if (1 <? major);
      l ← pget;
      pset (set_version (swrap 8 major) (swrap 8 minor) l)
  end.

(** The switch over the length of the method and its letters. *)
Definition is_char (method : list Z) (k : Z) (a : ascii) : bool := bool_decide (zget method k = Some (chr a)).
#[global] Arguments is_char method k a%_char.
Definition request_method (method : list Z) : Z :=
  let len := zlen method in
  let letter := is_char method in
  if len =? 3 then
    if negb (letter 2 "T"%char) then EVHTTP_REQ_UNKNOWN_
    else if letter 0 "G"%char then if letter 1 "E"%char then EVHTTP_REQ_GET else EVHTTP_REQ_UNKNOWN_
    else if letter 0 "P"%char then if letter 1 "U"%char then EVHTTP_REQ_PUT else EVHTTP_REQ_UNKNOWN_
    else EVHTTP_REQ_UNKNOWN_
  else if len =? 4 then
    if letter 0 "P"%char then
      if letter 3 "T"%char && letter 2 "S"%char && letter 1 "O"%char then EVHTTP_REQ_POST else EVHTTP_REQ_UNKNOWN_
    else if letter 0 "H"%char then
      if letter 3 "D"%char && letter 2 "A"%char && letter 1 "E"%char then EVHTTP_REQ_HEAD else EVHTTP_REQ_UNKNOWN_
    else EVHTTP_REQ_UNKNOWN_
  else if len =? 5 then
    if letter 0 "P"%char then
      if letter 4 "H"%char && letter 3 "C"%char && letter 2 "T"%char && letter 1 "A"%char then EVHTTP_REQ_PATCH
      else EVHTTP_REQ_UNKNOWN_
    else if letter 0 "T"%char then
      if letter 4 "E"%char && letter 3 "C"%char && letter 2 "A"%char && letter 1 "R"%char then EVHTTP_REQ_TRACE
      else EVHTTP_REQ_UNKNOWN_
    else EVHTTP_REQ_UNKNOWN_
  else if len =? 6 then
    if negb (letter 0 "D"%char) then EVHTTP_REQ_UNKNOWN_
    else if letter 5 "E"%char && letter 4 "T"%char && letter 3 "E"%char && letter 2 "L"%char && letter 1 "E"%char then EVHTTP_REQ_DELETE
    else EVHTTP_REQ_UNKNOWN_
  else if len =? 7 then
    if letter 0 "O"%char then
      if letter 6 "S"%char && letter 5 "N"%char && letter 4 "O"%char && letter 3 "I"%char && letter 2 "T"%char && letter 1 "P"%char
      then EVHTTP_REQ_OPTIONS else EVHTTP_REQ_UNKNOWN_
    else if letter 0 "C"%char then
      if letter 6 "T"%char && letter 5 "C"%char && letter 4 "E"%char && letter 3 "N"%char && letter 2 "N"%char && letter 1 "O"%char
      then EVHTTP_REQ_CONNECT else EVHTTP_REQ_UNKNOWN_
    else EVHTTP_REQ_UNKNOWN_
  else EVHTTP_REQ_UNKNOWN_.

Definition evhttp_method (type : Z) : option (list Z) :=
  if type =? EVHTTP_REQ_GET then Some (str "GET")
  else if type =? EVHTTP_REQ_POST then Some (str "POST")
  else if type =? EVHTTP_REQ_HEAD then Some (str "HEAD")
  else if type =? EVHTTP_REQ_PUT then Some (str "PUT")
  else if type =? EVHTTP_REQ_DELETE then Some (str "DELETE")
  else if type =? EVHTTP_REQ_OPTIONS then Some (str "OPTIONS")
  else if type =? EVHTTP_REQ_TRACE then Some (str "TRACE")
  else if type =? EVHTTP_REQ_CONNECT then Some (str "CONNECT")
  else if type =? EVHTTP_REQ_PATCH then Some (str "PATCH")
  else None.

(** [mm_strdup] into a field, or the error exit. *)
Definition store_dup {MM : Malloc} (s : list Z) (set : option (list Z) → first_line → first_line) : parser first_line unit :=
  l ← pget;
  match mm_strdup s with
  | None => _ ← pset (set None l); err
  | Some s => pset (set (Some s) l)
  end.

Section lines.
Context {MM : Malloc} (words0 : list Z).

Definition evhttp_parse_response_line (line : list Z) : parser first_line unit :=
  match strsep line 32 with
  | (_, None) => err
  | (protocol, Some line) =>
      let '(number, rest) := strsep line 32 in
      let readable := default [] rest in
      _ ← evhttp_parse_http_version protocol;
      l ← pget;
      _ ← pset (set_response (atoi number) l);
      _ ← err_if (negb (evhttp_valid_response_code (atoi number)));
      store_dup readable set_response_line
  end.

(** The loop that overwrites blanks at the end. *)
Fixpoint strip_blanks (rev_line : list Z) : list Z :=
  match rev_line with
  | c :: rev_line' => if c =? 32 then strip_blanks rev_line' else rev_line
  | [] => []
  end.
(** The URI of a request as its elements, or the error exit. *)
Definition parse_uri_elems (uri : list Z) : parser first_line unit :=
  l ← pget;
  r ← access (if type l =? EVHTTP_REQ_CONNECT then evhttp_uri_parse_authority words0 uri
              else evhttp_uri_parse_with_flags words0 uri EVHTTP_URI_NONCONFORMANT);
  _ ← pset (set_uri_elems r l);
  err_if (negb (bool_decide (is_Some r))).
Definition is_http_scheme (scheme : list Z) : bool :=
  (evutil_ascii_strcasecmp scheme (str "http") =? 0) || (evutil_ascii_strcasecmp scheme (str "https") =? 0).
(** An absolute URI of a host that the server does not know makes the request a
    request to a proxy.  Without a server the code would use a null pointer. *)
Definition mark_proxy (evcon : option con_settings) : parser first_line unit :=
  l ← pget;
  match u ← uri_elems l; s ← scheme u; h ← host u; Some (s, h) with
  | Some (scheme, hostname) =>
      if is_http_scheme scheme then
        http ← access (c ← evcon; http_server c);
        if (evhttp_find_vhost http hostname).2 then mret tt
        else pset (set_flags (Z.lor (req_flags l) EVHTTP_PROXY_REQUEST) l)
      else mret tt
  | None => mret tt
  end.

(** [len] bytes of [line], which may contain zeros. *)
Definition evhttp_parse_request_line (evcon : option con_settings) (line : list Z) (len : Z)
  : parser first_line unit :=
  let line := reverse (strip_blanks (reverse (ztake len line))) in
  _ ← err_if (zlen line <? zlen (str "GET / HTTP/1.0"));
  match strsep (cstr line) 32 with
  | (_, None) => err
  | (method, Some uri) =>
      match strrchr uri 32 with
      | None => err
      | Some k =>
          _ ← err_if (Nat.eqb k 0);
          let version := drop (S k) uri in
          let uri := take k uri in
          l ← pget;
          _ ← pset (set_type (request_method method) l);
          _ ← evhttp_parse_http_version version;
          _ ← store_dup uri set_uri;
          _ ← parse_uri_elems uri;
          mark_proxy evcon
      end
  end.
End lines.

(** * Reading the first line and the headers *)

Section reading.
Context {MM : Malloc} {B : Type} {EB : EvbufferOps B} (words0 : list Z).
Implicit Types (req : evhttp_request B) (buffer : B) (evcon : option con_settings).

Definition set_first (v : first_line) req : evhttp_request B :=
  Request (kind req) v (input_headers req) (output_headers req) (headers_size req) (body req) (output_buffer req).
Definition set_input_headers (v : evkeyvalq) req : evhttp_request B :=
  Request (kind req) (first req) v (output_headers req) (headers_size req) (body req) (output_buffer req).
Definition set_headers_size (v : Z) req : evhttp_request B :=
  Request (kind req) (first req) (input_headers req) (output_headers req) v (body req) (output_buffer req).
Definition set_body (v : message_body B) req : evhttp_request B :=
  Request (kind req) (first req) (input_headers req) (output_headers req) (headers_size req) v (output_buffer req).

(** [req->evcon != NULL && size > req->evcon->max_headers_size] *)
Definition too_long evcon (size : Z) : bool :=
  match evcon with Some c => max_headers_size c <? size | None => false end.

Definition evhttp_parse_firstline_ evcon req buffer : option (evhttp_request B * B * message_read_status) :=
  '(buffer, line, len) ← eb_readln buffer EVBUFFER_EOL_CRLF;
  match line with
  | None =>
      if too_long evcon (eb_length buffer) then Some (req, buffer, DATA_TOO_LONG)
      else Some (req, buffer, MORE_DATA_EXPECTED)
  | Some line =>
      if too_long evcon len then Some (req, buffer, DATA_TOO_LONG)
      else
        let req := set_headers_size len req in
        let parse :=
          match kind req with
          | EVHTTP_REQUEST => evhttp_parse_request_line words0 evcon line len
          | EVHTTP_RESPONSE => evhttp_parse_response_line (cstr line)
          end in
        match parse (first req) with
        | Ret _ l => Some (set_first l req, buffer, ALL_DATA_READ)
        | Error l => Some (set_first l req, buffer, DATA_CORRUPTED)
        | Fault => None
        end
  end.

(** One line of the headers, not empty: the headers after it, [-1] on error. *)
Definition header_line (headers : evkeyvalq) (line : list Z) : option (evkeyvalq * Z) :=
  if blank (hd 0 line) then evhttp_append_to_last_header headers line
  else
    match strsep line 58 with
    | (_, None) => Some (headers, -1)
    | (skey, Some svalue) =>
        let svalue := evutil_rtrim_lws_ (strspn svalue [32]) in
        Some (evhttp_add_header headers skey svalue)
    end.

Fixpoint headers_loop (fuel : nat) evcon req buffer : option (evhttp_request B * B * message_read_status) :=
  match fuel with
  | O => None
  | S fuel =>
      '(buffer, line, len) ← eb_readln buffer EVBUFFER_EOL_CRLF;
      match line with
      | None =>
          if too_long evcon (u64 (headers_size req + eb_length buffer)) then Some (req, buffer, DATA_TOO_LONG)
          else Some (req, buffer, MORE_DATA_EXPECTED)
      | Some line =>
          let line := cstr line in
          let req := set_headers_size (u64 (headers_size req + len)) req in
          if too_long evcon (headers_size req) then Some (req, buffer, DATA_TOO_LONG)
          else if bool_decide (line = []) then Some (req, buffer, ALL_DATA_READ)
          else
            '(headers, rc) ← header_line (input_headers req) line;
            let req := set_input_headers headers req in
            if rc =? -1 then Some (req, buffer, DATA_CORRUPTED)
            else headers_loop fuel evcon req buffer
      end
  end.
(** Every round takes a line, and so at least one byte, from the buffer. *)
Definition evhttp_parse_headers_ evcon req buffer : option (evhttp_request B * B * message_read_status) :=
  headers_loop (S (Z.to_nat (eb_length buffer))) evcon req buffer.

(** * What follows the headers *)

(** The length of the body according to the headers; [-1] when it is not a number. *)
Definition evhttp_get_body_length req : evhttp_request B * Z :=
  let headers := input_headers req in
  let content_length := evhttp_find_header headers (str "Content-Length") in
  let connection := evhttp_find_header headers (str "Connection") in
  let with_ntoread n := set_body (Body (body_size (body req)) n (chunked (body req)) (input_buffer (body req))) req in
  match content_length, connection with
  | None, None => (with_ntoread (-1), 0)
  | None, Some connection =>
      if negb (evutil_ascii_strcasecmp connection (str "Close") =? 0) then (with_ntoread 0, 0)
      else (with_ntoread (-1), 0)
  | Some content_length, _ =>
      let '(ntoread, endp) := evutil_strtoll content_length 10 in
      if bool_decide (content_length = []) || negb (bool_decide (endp = [])) || (ntoread <? 0) then (req, -1)
      else (with_ntoread ntoread, 0)
  end.

Definition evhttp_method_may_have_body (type : Z) : bool :=
  (type =? EVHTTP_REQ_POST) || (type =? EVHTTP_REQ_PUT) || (type =? EVHTTP_REQ_PATCH) ||
  (type =? EVHTTP_REQ_GET) || (type =? EVHTTP_REQ_DELETE) || (type =? EVHTTP_REQ_OPTIONS) ||
  (type =? EVHTTP_REQ_CONNECT).

Definition evhttp_response_needs_body req : bool :=
  let l := first req in
  negb (response_code l =? HTTP_NOCONTENT) && negb (response_code l =? HTTP_NOTMODIFIED) &&
  ((response_code l <? 100) || (200 <=? response_code l)) &&
  negb (type l =? EVHTTP_REQ_CONNECT) && negb (type l =? EVHTTP_REQ_HEAD).

(** [REQ_VERSION_ATLEAST] *)
Definition REQ_VERSION_ATLEAST req (major_v minor_v : Z) : bool :=
  let l := first req in
  (major_v <? major l) || (major l =? major_v) && (minor_v <=? minor l).

Inductive expect := NO | CONTINUE | OTHER.
Definition evhttp_have_expect req (input : bool) : expect :=
  let h := if input then input_headers req else output_headers req in
  match kind req with
  | EVHTTP_RESPONSE => NO
  | EVHTTP_REQUEST =>
      if negb (REQ_VERSION_ATLEAST req 1 1) then NO
      else
        match evhttp_find_header h (str "Expect") with
        | None => NO
        | Some expect => if evutil_ascii_strcasecmp expect (str "100-continue") =? 0 then CONTINUE else OTHER
        end
  end.
End reading.

(** * Queries *)

Section query.
Context {MM : Malloc}.

(** The loop over the arguments: the headers, and whether all were good. *)
Fixpoint query_loop (fuel : nat) (p : option (list Z)) (headers : evkeyvalq) : option (evkeyvalq * bool) :=
  match fuel with
  | O => None
  | S fuel =>
      match p with
      | None | Some [] => Some (headers, true)
      | Some p =>
          let '(argument, p) := strsep p 38 in
          match strsep argument 61 with
          | (_, None) | ([], _) => Some (headers, false)
          | (key, Some value) =>
              match mm_malloc (zlen value + 1) with
              | None => Some (headers, false)
              | Some decoded_value =>
                  '(decoded_value, _) ← evhttp_decode_uri_internal value decoded_value 1;
                  let '(headers, rc) := evhttp_add_header_internal headers key (cstr decoded_value) in
                  if negb (rc =? 0) then Some (headers, false) else query_loop fuel p headers
              end
          end
      end
  end.
(** The headers and the result. *)
Definition evhttp_parse_query_impl (words0 : list Z) (s : list Z) (is_whole_uri : bool) : option (evkeyvalq * Z) :=
  query ← (if is_whole_uri then
             u ← evhttp_uri_parse words0 s;
             Some (match u with None => None | Some u => Some (query u) end)
           else Some (Some (Some s)));
  match query with
  | None => Some ([], -1)
  | Some None | Some (Some []) => Some ([], 0)
  | Some (Some query_part) =>
      match mm_strdup query_part with
      | None => Some ([], -1)
      | Some line =>
          '(headers, ok) ← query_loop (S (length line)) (Some line) [];
          if ok : bool then Some (headers, 0) else Some (evhttp_clear_headers headers, -1)
      end
  end.
Definition evhttp_parse_query (words0 s : list Z) : option (evkeyvalq * Z) :=
  evhttp_parse_query_impl words0 s true.
Definition evhttp_parse_query_str (words0 s : list Z) : option (evkeyvalq * Z) :=
  evhttp_parse_query_impl words0 s false.
End query.
