(* ===== verification/HttpConnDefs.v ===== *)
(** * HTTP connections: reading a message, writing one, choosing a callback

    The part of [http.c] that runs when bytes arrive on a connection
    ([evhttp_read_cb] and what it calls), the text of messages that are sent, and
    what a server does with a complete request.

    Functions that end by handing the connection to another part of the library
    (the end of a request, its failure, an error reply, writing) return which one
    they call: [next].  Callbacks of the program are parameters. *)
From S2P Require Import Prelude Outcome Lines Evutil InetDefs EvbufferDefs EvbufferIface HttpUriDefs HttpMsgDefs.

Inductive evhttp_connection_state :=
| EVCON_DISCONNECTED | EVCON_CONNECTING | EVCON_IDLE | EVCON_READING_FIRSTLINE
| EVCON_READING_HEADERS | EVCON_READING_BODY | EVCON_READING_TRAILER | EVCON_WRITING.
Inductive evhttp_request_error :=
| EVREQ_HTTP_TIMEOUT | EVREQ_HTTP_EOF | EVREQ_HTTP_INVALID_HEADER | EVREQ_HTTP_BUFFER_ERROR
| EVREQ_HTTP_REQUEST_CANCEL | EVREQ_HTTP_DATA_TOO_LONG.

Definition EVHTTP_CON_LINGERING_CLOSE : Z := 32.

(** What a function of this file does last. *)
Inductive next :=
| Waiting                                  (* returns; more data may arrive *)
| Done                                     (* evhttp_connection_done *)
| Failed (error : evhttp_request_error)    (* evhttp_connection_fail_ *)
| Freed                                    (* evhttp_request_free_auto *)
| StartWrite                               (* evhttp_start_write_ *)
| SendError (code : Z)                     (* evhttp_send_error *)
| Reset.                                   (* evhttp_connection_reset_ *)

(** [struct evhttp_connection]: settings, state, and the buffers of the
    bufferevent. *)
Record evhttp_connection (B : Type) := Connection {
  settings : con_settings;
  state : evhttp_connection_state;
  con_input : B;
  con_output : B
}.
#[global] Arguments Connection {B}.
#[global] Arguments settings {B}.
#[global] Arguments state {B}.
#[global] Arguments con_input {B}.
#[global] Arguments con_output {B}.

Section connection.
Context {MM : Malloc} {B : Type} {EB : EvbufferOps B} (words0 : list Z).
(** [req->chunk_cb] and [req->header_cb]. *)
Context (chunk_cb : option (evhttp_request B → evhttp_request B)).
Context (header_cb : option (evhttp_request B → evhttp_request B * Z)).
Implicit Types (req : evhttp_request B) (buf : B) (evcon : evhttp_connection B).

Definition set_ntoread (v : Z) (b : message_body B) : message_body B :=
  Body (body_size b) v (chunked b) (input_buffer b).
Definition set_body_size (v : Z) (b : message_body B) : message_body B :=
  Body v (ntoread b) (chunked b) (input_buffer b).
Definition set_chunked (v : bool) (b : message_body B) : message_body B :=
  Body (body_size b) (ntoread b) v (input_buffer b).
Definition set_input_buffer (v : B) (b : message_body B) : message_body B :=
  Body (body_size b) (ntoread b) (chunked b) v.
Definition upd_body (f : message_body B → message_body B) req : evhttp_request B := set_body (f (body req)) req.
Definition upd_flags (f : Z → Z) req : evhttp_request B :=
  set_first (set_flags (f (req_flags (first req))) (first req)) req.

Definition set_state (v : evhttp_connection_state) evcon : evhttp_connection B :=
  Connection (settings evcon) v (con_input evcon) (con_output evcon).
Definition set_con_input (v : B) evcon : evhttp_connection B :=
  Connection (settings evcon) (state evcon) v (con_output evcon).
Definition set_con_output (v : B) evcon : evhttp_connection B :=
  Connection (settings evcon) (state evcon) (con_input evcon) v.

(** * Reading a body in chunks *)

(** A chunk is complete: the callback, if there is one, and [input_buffer] is
    emptied behind it.  [false]: the callback has freed the request. *)
Definition chunk_complete req : option (evhttp_request B * bool) :=
  match chunk_cb with
  | None => Some (req, true)
  | Some cb =>
      let req := cb (upd_flags (λ f, Z.lor f EVHTTP_REQ_DEFER_FREE) req) in
      let inb := input_buffer (body req) in
      '(inb, _) ← eb_drain inb (eb_length inb);
      let req := upd_flags (λ f, Z.land f (Z.lnot EVHTTP_REQ_DEFER_FREE)) (upd_body (set_input_buffer inb) req) in
      Some (req, negb (has (req_flags (first req)) EVHTTP_REQ_NEEDS_FREE))
  end.

Fixpoint chunked_loop (fuel : nat) (max_body_size : Z) req buf
  : option (evhttp_request B * B * message_read_status) :=
  match fuel with
  | O => None
  | S fuel =>
      let buflen := eb_length buf in
      let b := body req in
      if buflen =? 0 then Some (req, buf, MORE_DATA_EXPECTED)
      else if EV_SSIZE_MAX <? buflen then Some (req, buf, DATA_CORRUPTED)
      else if ntoread b <? 0 then
        '(buf, p, _) ← eb_readln buf EVBUFFER_EOL_CRLF;
        match p with
        | None => Some (req, buf, MORE_DATA_EXPECTED)
        | Some p =>
            let p := cstr p in
            if bool_decide (p = []) then chunked_loop fuel max_body_size req buf
            else
              let '(n, endp) := evutil_strtoll p 16 in
              if negb (bool_decide (endp = [])) && negb (hd 0 endp =? 32) || (n <? 0) then
                Some (req, buf, DATA_CORRUPTED)
              else if EV_SIZE_MAX - body_size b <? n then Some (req, buf, DATA_CORRUPTED)
              else if max_body_size <? u64 (body_size b + n) then Some (req, buf, DATA_TOO_LONG)
              else
                let req := upd_body (λ b, set_ntoread n (set_body_size (u64 (body_size b + n)) b)) req in
                if n =? 0 then Some (req, buf, ALL_DATA_READ) else chunked_loop fuel max_body_size req buf
        end
      else if EV_SSIZE_MAX <? ntoread b then Some (req, buf, DATA_CORRUPTED)
      else if (0 <? ntoread b) && (buflen <? ntoread b) then Some (req, buf, MORE_DATA_EXPECTED)
      else
        '(buf, inb, _) ← eb_remove_buffer buf (input_buffer b) (ntoread b);
        '(req, keep) ← chunk_complete (upd_body (λ b, set_ntoread (-1) (set_input_buffer inb b)) req);
        if keep : bool then chunked_loop fuel max_body_size req buf
        else Some (req, buf, REQUEST_CANCELED)
  end.
(** Every round but the first takes bytes from the buffer. *)
Definition evhttp_handle_chunked_read (max_body_size : Z) req buf
  : option (evhttp_request B * B * message_read_status) :=
  chunked_loop (S (S (Z.to_nat (eb_length buf)))) max_body_size req buf.

(** * Reading *)

Definition evhttp_read_trailer evcon req : option (evhttp_connection B * evhttp_request B * next) :=
  '(req, buf, status) ← evhttp_parse_headers_ (Some (settings evcon)) req (con_input evcon);
  let evcon := set_con_input buf evcon in
  match status with
  | DATA_CORRUPTED | DATA_TOO_LONG => Some (evcon, req, Failed EVREQ_HTTP_DATA_TOO_LONG)
  | ALL_DATA_READ => Some (evcon, req, Done)
  | MORE_DATA_EXPECTED | REQUEST_CANCELED => Some (evcon, req, Waiting)
  end.

Definition evhttp_lingering_close evcon req : option (evhttp_connection B * evhttp_request B * next) :=
  let b := body req in
  let len := eb_length (con_input evcon) in
  let n := if u64 (ntoread b) <? len then u64 (ntoread b) else len in
  let req := upd_body (λ b, set_ntoread (i64 (ntoread b - n)) (set_body_size (u64 (body_size b + n)) b)) req in
  '(buf, _) ← eb_drain (con_input evcon) n;
  let evcon := set_con_input buf evcon in
  if ntoread (body req) =? 0 then Some (evcon, req, Failed EVREQ_HTTP_DATA_TOO_LONG)
  else Some (evcon, req, Waiting).
Definition evhttp_lingering_fail evcon req : option (evhttp_connection B * evhttp_request B * next) :=
  if has (con_flags (settings evcon)) EVHTTP_CON_LINGERING_CLOSE then evhttp_lingering_close evcon req
  else Some (evcon, req, Failed EVREQ_HTTP_DATA_TOO_LONG).

(** The end of [evhttp_read_body], after data was moved to [input_buffer]. *)
Definition body_moved evcon req : option (evhttp_connection B * evhttp_request B * next) :=
  let b := body req in
  let limit := max_body_size (settings evcon) in
  if (limit <? body_size b) || negb (chunked b) && (0 <=? ntoread b) && (limit <? u64 (ntoread b)) then
    evhttp_lingering_fail evcon req
  else
    '(req, keep) ← (match chunk_cb with
                    | Some _ => if 0 <? eb_length (input_buffer b) then chunk_complete req else Some (req, true)
                    | None => Some (req, true)
                    end);
    if negb keep then Some (evcon, req, Freed)
    else if ntoread (body req) =? 0 then Some (evcon, req, Done)
    else Some (evcon, req, Waiting).

Definition evhttp_read_body evcon req : option (evhttp_connection B * evhttp_request B * next) :=
  let buf := con_input evcon in
  let b := body req in
  if chunked b then
    '(req, buf, status) ← evhttp_handle_chunked_read (max_body_size (settings evcon)) req buf;
    let evcon := set_con_input buf evcon in
    match status with
    | ALL_DATA_READ => evhttp_read_trailer (set_state EVCON_READING_TRAILER evcon) req
    | DATA_CORRUPTED | DATA_TOO_LONG => Some (evcon, req, Failed EVREQ_HTTP_DATA_TOO_LONG)
    | REQUEST_CANCELED => Some (evcon, req, Freed)
    | MORE_DATA_EXPECTED => body_moved evcon req
    end
  else if ntoread b <? 0 then
    let len := eb_length buf in
    if u64 (body_size b + len) <? body_size b then Some (evcon, req, Failed EVREQ_HTTP_INVALID_HEADER)
    else
      '(inb, buf, _) ← eb_add_buffer (input_buffer b) buf;
      body_moved (set_con_input buf evcon)
        (upd_body (λ b, set_body_size (u64 (body_size b + len)) (set_input_buffer inb b)) req)
  else if bool_decide (is_Some chunk_cb) || (u64 (ntoread b) <=? eb_length buf) then
    let n := eb_length buf in
    let n := if u64 (ntoread b) <? n then u64 (ntoread b) else n in
    '(buf, inb, _) ← eb_remove_buffer buf (input_buffer b) n;
    body_moved (set_con_input buf evcon)
      (upd_body (λ b, set_ntoread (i64 (ntoread b - n)) (set_body_size (u64 (body_size b + n)) (set_input_buffer inb b))) req)
  else body_moved evcon req.

(** Two numbers as [%d.%d]. *)
Definition sprint_version req : list Z := sprint_d (major (first req)) ++ str "." ++ sprint_d (minor (first req)).
Definition crlf : list Z := [13; 10].
Definition evhttp_send_continue evcon req : option (evhttp_connection B) :=
  '(out, _) ← eb_add_printf (con_output evcon)
                (str "HTTP/" ++ sprint_version req ++ str " 100 Continue" ++ crlf ++ crlf);
  Some (set_con_output out evcon).

(** [evhttp_get_body] from the header [Expect] on. *)
Definition expect_and_read evcon req : option (evhttp_connection B * evhttp_request B * next) :=
  let limit := max_body_size (settings evcon) in
  match evhttp_have_expect req true with
  | CONTINUE =>
      if (0 <? ntoread (body req)) && (limit <=? 2 ^ 63 - 1) && (limit <? ntoread (body req)) then
        evhttp_lingering_fail evcon req
      else
        evcon ← (if eb_length (con_input evcon) =? 0 then evhttp_send_continue evcon req else Some evcon);
        evhttp_read_body evcon req
  | OTHER => Some (evcon, req, SendError HTTP_EXPECTATIONFAILED)
  | NO => evhttp_read_body evcon req
  end.
Definition evhttp_get_body evcon req : option (evhttp_connection B * evhttp_request B * next) :=
  let is_request := match kind req with EVHTTP_REQUEST => true | EVHTTP_RESPONSE => false end in
  if is_request && negb (evhttp_method_may_have_body (type (first req))) then Some (evcon, req, Done)
  else
    let evcon := set_state EVCON_READING_BODY evcon in
    let is_chunked :=
      match evhttp_find_header (input_headers req) (str "Transfer-Encoding") with
      | Some xfer_enc => evutil_ascii_strcasecmp xfer_enc (str "chunked") =? 0
      | None => false
      end in
    if is_chunked then expect_and_read evcon (upd_body (λ b, set_ntoread (-1) (set_chunked true b)) req)
    else
      let '(req, rc) := evhttp_get_body_length req in
      if rc =? -1 then Some (evcon, req, Failed EVREQ_HTTP_INVALID_HEADER)
      else if is_request && (ntoread (body req) <? 1) then Some (evcon, req, Done)
      else expect_and_read evcon req.

(** [evhttp_read_header] when all headers have been read. *)
Definition headers_done evcon req : option (evhttp_connection B * evhttp_request B * next) :=
  let '(req, rc) := match header_cb with Some cb => cb req | None => (req, 0) end in
  if rc <? 0 then Some (evcon, req, Failed EVREQ_HTTP_EOF)
  else
    match kind req with
    | EVHTTP_REQUEST => evhttp_get_body evcon req
    | EVHTTP_RESPONSE =>
        if response_code (first req) =? 100 then
          '(out, reqout, _) ← eb_add_buffer (con_output evcon) (output_buffer req);
          Some (set_con_output out evcon,
                Request (kind req) (first req) (input_headers req) (output_headers req) (headers_size req)
                  (body req) reqout,
                StartWrite)
        else if negb (evhttp_response_needs_body req) then Some (evcon, req, Done)
        else evhttp_get_body evcon req
    end.
Definition evhttp_read_header evcon req : option (evhttp_connection B * evhttp_request B * next) :=
  '(req, buf, res) ← evhttp_parse_headers_ (Some (settings evcon)) req (con_input evcon);
  let evcon := set_con_input buf evcon in
  match res with
  | DATA_CORRUPTED | DATA_TOO_LONG => Some (evcon, req, Failed EVREQ_HTTP_INVALID_HEADER)
  | MORE_DATA_EXPECTED => Some (evcon, req, Waiting)
  | ALL_DATA_READ | REQUEST_CANCELED => headers_done evcon req
  end.

Definition evhttp_read_firstline evcon req : option (evhttp_connection B * evhttp_request B * next) :=
  '(req, buf, res) ← evhttp_parse_firstline_ words0 (Some (settings evcon)) req (con_input evcon);
  let evcon := set_con_input buf evcon in
  match res with
  | DATA_CORRUPTED | DATA_TOO_LONG => Some (evcon, req, Failed EVREQ_HTTP_INVALID_HEADER)
  | MORE_DATA_EXPECTED => Some (evcon, req, Waiting)
  | ALL_DATA_READ | REQUEST_CANCELED => evhttp_read_header (set_state EVCON_READING_HEADERS evcon) req
  end.

(** [None] in the states where the code ends the program. *)
Definition evhttp_read_cb evcon req : option (evhttp_connection B * evhttp_request B * next) :=
  match state evcon with
  | EVCON_READING_FIRSTLINE => evhttp_read_firstline evcon req
  | EVCON_READING_HEADERS => evhttp_read_header evcon req
  | EVCON_READING_BODY => evhttp_read_body evcon req
  | EVCON_READING_TRAILER => evhttp_read_trailer evcon req
  | EVCON_IDLE => Some (evcon, req, Reset)
  | EVCON_DISCONNECTED | EVCON_CONNECTING | EVCON_WRITING => None
  end.
End connection.

(** * Phrases and dates *)

Definition informational_phrases : list (list Z) := [str "Continue"; str "Switching Protocols"].
Definition success_phrases : list (list Z) :=
  [str "OK"; str "Created"; str "Accepted"; str "Non-Authoritative Information"; str "No Content";
   str "Reset Content"; str "Partial Content"].
Definition redirection_phrases : list (list Z) :=
  [str "Multiple Choices"; str "Moved Permanently"; str "Found"; str "See Other"; str "Not Modified";
   str "Use Proxy"; str "Temporary Redirect"].
Definition client_error_phrases : list (list Z) :=
  [str "Bad Request"; str "Unauthorized"; str "Payment Required"; str "Forbidden"; str "Not Found";
   str "Method Not Allowed"; str "Not Acceptable"; str "Proxy Authentication Required";
   str "Request Time-out"; str "Conflict"; str "Gone"; str "Length Required"; str "Precondition Failed";
   str "Request Entity Too Large"; str "Request-URI Too Large"; str "Unsupported Media Type";
   str "Requested range not satisfiable"; str "Expectation Failed"].
Definition server_error_phrases : list (list Z) :=
  [str "Internal Server Error"; str "Not Implemented"; str "Bad Gateway"; str "Service Unavailable";
   str "Gateway Time-out"; str "HTTP Version not supported"].
Definition response_classes : list (list Z * list (list Z)) :=
  [(str "Informational", informational_phrases); (str "Success", success_phrases);
   (str "Redirection", redirection_phrases); (str "Client Error", client_error_phrases);
   (str "Server Error", server_error_phrases)].

(** Division and remainder round towards zero. *)
Definition evhttp_response_phrase_internal (code : Z) : option (list Z) :=
  let klass := Z.quot code 100 - 1 in
  let subcode := Z.rem code 100 in
  if (klass <? 0) || (zlen response_classes <=? klass) then Some (str "Unknown Status Class")
  else
    '(name, responses) ← zget response_classes klass;
    if zlen responses <=? subcode then Some name else zget responses subcode.

Record tm := Tm { tm_sec : Z; tm_min : Z; tm_hour : Z; tm_mday : Z; tm_mon : Z; tm_year : Z; tm_wday : Z }.
Definition DAYS : list (list Z) :=
  [str "Sun"; str "Mon"; str "Tue"; str "Wed"; str "Thu"; str "Fri"; str "Sat"].
Definition MONTHS : list (list Z) :=
  [str "Jan"; str "Feb"; str "Mar"; str "Apr"; str "May"; str "Jun"; str "Jul"; str "Aug"; str "Sep"; str "Oct";
   str "Nov"; str "Dec"].
(** [%02d] of a number that is not negative, and [%4d]. *)
Definition sprint_02d (n : Z) : list Z := if n <? 10 then 48 :: sprint_d n else sprint_d n.
Definition sprint_4d (n : Z) : list Z := let s := sprint_d n in zrepeat 32 (4 - zlen s) ++ s.
(** The text, of which [datelen - 1] bytes are written, for the time [tm]. *)
Definition evutil_date_rfc1123 (tm : tm) : option (list Z) :=
  day ← zget DAYS (tm_wday tm);
  month ← zget MONTHS (tm_mon tm);
  Some (day ++ str ", " ++ sprint_02d (tm_mday tm) ++ str " " ++ month ++ str " " ++
        sprint_4d (1900 + tm_year tm) ++ str " " ++ sprint_02d (tm_hour tm) ++ str ":" ++
        sprint_02d (tm_min tm) ++ str ":" ++ sprint_02d (tm_sec tm) ++ str " GMT").

(** * Writing *)

Section writing.
Context {MM : Malloc} {B : Type} {EB : EvbufferOps B}.
(** The current time in Greenwich. *)
Context (now : tm).
Implicit Types (req : evhttp_request B) (evcon : evhttp_connection B) (headers : evkeyvalq).

Definition set_output_headers (v : evkeyvalq) req : evhttp_request B :=
  Request (kind req) (first req) (input_headers req) v (headers_size req) (body req) (output_buffer req).
Definition set_output_buffer (v : B) req : evhttp_request B :=
  Request (kind req) (first req) (input_headers req) (output_headers req) (headers_size req) (body req) v.
Definition add_output (text : list Z) evcon : option (evhttp_connection B) :=
  '(out, _) ← eb_add_printf (con_output evcon) text; Some (set_con_output out evcon).

(** Headers that the library adds; failures are ignored. *)
Definition add_own headers (key value : list Z) : evkeyvalq := (evhttp_add_header headers key value).1.

Definition evhttp_is_connection_close (flags : Z) headers : bool :=
  if has flags EVHTTP_PROXY_REQUEST then
    match evhttp_find_header headers (str "Proxy-Connection") with
    | None => true
    | Some connection => negb (evutil_ascii_strcasecmp connection (str "keep-alive") =? 0)
    end
  else
    match evhttp_find_header headers (str "Connection") with
    | None => false
    | Some connection => evutil_ascii_strcasecmp connection (str "close") =? 0
    end.
Definition evhttp_is_request_connection_close req : bool :=
  let l := first req in
  if type l =? EVHTTP_REQ_CONNECT then false
  else
    evhttp_is_connection_close (req_flags l) (input_headers req) ||
    evhttp_is_connection_close (req_flags l) (output_headers req).
Definition evhttp_is_connection_keepalive headers : bool :=
  match evhttp_find_header headers (str "Connection") with
  | None => false
  | Some connection => evutil_ascii_strncasecmp connection (str "keep-alive") 10 =? 0
  end.

Definition evhttp_maybe_add_date_header headers : option evkeyvalq :=
  match evhttp_find_header headers (str "Date") with
  | Some _ => Some headers
  | None =>
      date ← evutil_date_rfc1123 now;
      if 0 <? u64 (50 - zlen date) then Some (add_own headers (str "Date") (evutil_snprintf 50 date))
      else Some headers
  end.
Definition evhttp_maybe_add_content_length_header headers (content_length : Z) : evkeyvalq :=
  match evhttp_find_header headers (str "Transfer-Encoding"), evhttp_find_header headers (str "Content-Length") with
  | None, None => add_own headers (str "Content-Length") (evutil_snprintf 22 (sprint_u content_length))
  | _, _ => headers
  end.

(** [None] where a null pointer would be printed. *)
Definition evhttp_make_header_request evcon req : option (evhttp_connection B * evhttp_request B) :=
  let headers := (evhttp_remove_header (output_headers req) (str "Proxy-Connection")).1 in
  let method := default (str "NULL") (evhttp_method (type (first req))) in
  uri ← req_uri (first req);
  evcon ← add_output (method ++ str " " ++ uri ++ str " HTTP/" ++ sprint_version req ++ crlf) evcon;
  let wants_length := (type (first req) =? EVHTTP_REQ_POST) || (type (first req) =? EVHTTP_REQ_PUT) in
  let headers :=
    if wants_length && negb (bool_decide (is_Some (evhttp_find_header headers (str "Content-Length"))))
    then add_own headers (str "Content-Length") (evutil_snprintf 22 (sprint_u (eb_length (output_buffer req))))
    else headers in
  Some (evcon, set_output_headers headers req).

(** [None] where the server would be a null pointer. *)
Definition default_type evcon req headers : option evkeyvalq :=
  if evhttp_response_needs_body req then
    match evhttp_find_header headers (str "Content-Type") with
    | Some _ => Some headers
    | None =>
        http ← http_server (settings evcon);
        Some (match default_content_type http with Some t => add_own headers (str "Content-Type") t | None => headers end)
    end
  else Some headers.
Definition close_headers req headers : evkeyvalq :=
  if evhttp_is_connection_close (req_flags (first req)) (input_headers req) then
    let headers := (evhttp_remove_header headers (str "Connection")).1 in
    let headers := if has (req_flags (first req)) EVHTTP_PROXY_REQUEST then headers
                   else add_own headers (str "Connection") (str "close") in
    (evhttp_remove_header headers (str "Proxy-Connection")).1
  else headers.
Definition evhttp_make_header_response evcon req : option (evhttp_connection B * evhttp_request B) :=
  let l := first req in
  let is_keepalive := evhttp_is_connection_keepalive (input_headers req) in
  reason ← response_code_line l;
  evcon ← add_output (str "HTTP/" ++ sprint_version req ++ str " " ++ sprint_d (response_code l) ++ str " " ++
                      reason ++ crlf) evcon;
  headers ← (if major l =? 1 then
               headers ← (if 1 <=? minor l then evhttp_maybe_add_date_header (output_headers req)
                          else Some (output_headers req));
               let headers := if (minor l =? 0) && is_keepalive then add_own headers (str "Connection") (str "keep-alive")
                              else headers in
               Some (if ((1 <=? minor l) || is_keepalive) && evhttp_response_needs_body req
                     then evhttp_maybe_add_content_length_header headers (eb_length (output_buffer req))
                     else headers)
             else Some (output_headers req));
  headers ← default_type evcon req headers;
  Some (evcon, set_output_headers (close_headers req headers) req).

Fixpoint add_headers headers evcon : option (evhttp_connection B) :=
  match headers with
  | [] => Some evcon
  | (key, value) :: headers =>
      evcon ← add_output (key ++ str ": " ++ value ++ crlf) evcon;
      add_headers headers evcon
  end.
Definition evhttp_make_header evcon req : option (evhttp_connection B * evhttp_request B) :=
  '(evcon, req) ← (match kind req with
                   | EVHTTP_REQUEST => evhttp_make_header_request evcon req
                   | EVHTTP_RESPONSE => evhttp_make_header_response evcon req
                   end);
  evcon ← add_headers (output_headers req) evcon;
  '(out, _) ← eb_add (con_output evcon) crlf;
  let evcon := set_con_output out evcon in
  let continues := match evhttp_have_expect req false with CONTINUE => true | _ => false end in
  if negb continues && negb (eb_length (output_buffer req) =? 0) then
    '(out, rest, _) ← eb_add_buffer (con_output evcon) (output_buffer req);
    Some (set_con_output out evcon, set_output_buffer rest req)
  else Some (evcon, req).

Definition evhttp_response_code_ req (code : Z) (reason : option (list Z)) : option (evhttp_request B) :=
  reason ← (match reason with Some r => Some r | None => evhttp_response_phrase_internal code end);
  let l := set_response_line (mm_strdup reason) (set_response code (first req)) in
  Some (Request EVHTTP_RESPONSE l (input_headers req) (output_headers req) (headers_size req) (body req) (output_buffer req)).

(** ** Replies in chunks; the connection is still there *)

Definition evhttp_send_reply_start evcon req (code : Z) (reason : option (list Z))
  : option (evhttp_connection B * evhttp_request B) :=
  req ← evhttp_response_code_ req code reason;
  let in_chunks :=
    negb (bool_decide (is_Some (evhttp_find_header (output_headers req) (str "Content-Length")))) &&
    REQ_VERSION_ATLEAST req 1 1 && evhttp_response_needs_body req in
  let req := if in_chunks then set_output_headers (add_own (output_headers req) (str "Transfer-Encoding") (str "chunked")) req
             else req in
  evhttp_make_header evcon (upd_body (set_chunked in_chunks) req).

Definition evhttp_send_reply_chunk evcon req (databuf : B) : option (evhttp_connection B * B) :=
  if eb_length databuf =? 0 then Some (evcon, databuf)
  else if negb (evhttp_response_needs_body req) then Some (evcon, databuf)
  else
    evcon ← (if chunked (body req) then add_output (sprint_x (u32 (eb_length databuf)) ++ crlf) evcon else Some evcon);
    '(out, databuf, _) ← eb_add_buffer (con_output evcon) databuf;
    let evcon := set_con_output out evcon in
    evcon ← (if chunked (body req) then '(out, _) ← eb_add (con_output evcon) crlf; Some (set_con_output out evcon)
             else Some evcon);
    Some (evcon, databuf).

Definition evhttp_send_reply_end evcon req : option (evhttp_connection B * evhttp_request B) :=
  if chunked (body req) then
    '(out, _) ← eb_add (con_output evcon) (str "0" ++ crlf ++ crlf);
    Some (set_con_output out evcon, upd_body (set_chunked false) req)
  else Some (evcon, req).
End writing.

(** * What a server does with a request *)

Section server.
Context {MM : Malloc} {B : Type} {EB : EvbufferOps B}.
Implicit Types (req : evhttp_request B).

(** What [evhttp_handle_request] calls. *)
Inductive handled :=
| ErrorReply (code : Z)         (* evhttp_send_error *)
| Callback (path : list Z)      (* the callback registered for the path *)
| Generic                       (* the generic callback *)
| NotFoundPage (text : list Z)  (* evhttp_send_page_ with status 404 *)
| Closed.                       (* evhttp_connection_free *)

(** Without the copy that later calls find in [host_cache]. *)
Definition evhttp_request_get_host req : option (option (list Z)) :=
  match u ← uri_elems (first req); host u with
  | Some h => Some (Some h)
  | None =>
      match evhttp_find_header (input_headers req) (str "Host") with
      | None => Some None
      | Some h =>
          let p := zlen h - 1 - Z.of_nat (count_digits (reverse (tl h))) in
          if (0 <? p) && bool_decide (zget h p = Some 58) then
            match mm_malloc (p + 1) with
            | None => Some None
            | Some mem =>
                mem ← memcpy_at mem 0 (ztake p h);
                mem ← zset mem p 0;
                Some (Some (cstr mem))
            end
          else Some (Some h)
      end
  end.

(** [None]: outside memory, or a null pointer; [Some None]: no callback. *)
Definition evhttp_dispatch_callback (callbacks : list (list Z)) req : option (option (list Z)) :=
  path ← (u ← uri_elems (first req); path u);
  match mm_malloc (zlen path + 1) with
  | None => Some None
  | Some translated =>
      '(translated, _) ← evhttp_decode_uri_internal path translated 0;
      Some (List.find (λ what, bool_decide (what = cstr translated)) callbacks)
  end.

Definition not_found_text (escaped_html : list Z) : list Z :=
  str "<html><head><title>404 Not Found</title></head><body><h1>Not Found</h1><p>The requested URL " ++
  escaped_html ++ str " was not found on this server.</p></body></html>" ++ [10].

Definition evhttp_handle_request (http : evhttp) req : option handled :=
  match req_uri (first req) with
  | Some uri =>
      if type (first req) =? 0 then Some (ErrorReply (response_code (first req)))
      else if negb (has (allowed_methods http) (type (first req))) then Some (ErrorReply HTTP_NOTIMPLEMENTED)
      else
        hostname ← evhttp_request_get_host req;
        let http := match hostname with Some h => (evhttp_find_vhost http h).1 | None => http end in
        cb ← evhttp_dispatch_callback (callbacks http) req;
        match cb with
        | Some what => Some (Callback what)
        | None =>
            if gencb http then Some Generic
            else
              escaped ← evhttp_htmlescape uri;
              match escaped with
              | None => Some Closed
              | Some escaped_html =>
                  match (eb_new : option B) with
                  | None => Some Closed
                  | Some buf =>
                      '(buf, _) ← eb_add_printf buf (not_found_text (cstr escaped_html));
                      '(_, text, _) ← eb_remove buf (eb_length buf);
                      Some (NotFoundPage text)
                  end
              end
        end
  | None => Some (ErrorReply (response_code (first req)))
  end.
End server.
