(* ===== verification/HttpFlat.v ===== *)
(** * HTTP over flat queues

    [flat_queue]: buffers that are lists of bytes.  On real buffers the code that
    reads and writes messages does what it does on flat ones ([sim] lemmas), so
    that the theorems about messages are proved on lists of bytes. *)
From S2P Require Import Prelude Outcome Lines Evutil InetDefs EvbufferDefs EvbufferIface HttpUriDefs HttpMsgDefs HttpConnDefs.

#[export] Instance flat_queue : EvbufferOps (list Z) := {
  eb_new := Some [];
  eb_length b := zlen b;
  eb_add b data := Some (b ++ data, 0);
  eb_add_printf b text := Some (b ++ text, zlen text);
  eb_drain b n := Some (zdrop n b, 0);
  eb_pullup b n := Some (b, if n =? 0 then None else Some (ztake n b));
  eb_remove b n := Some (zdrop n b, ztake n b, Z.min n (zlen b));
  eb_add_buffer b1 b2 := Some (b1 ++ b2, [], 0);
  eb_remove_buffer src dst n := Some (zdrop n src, dst ++ ztake n src, Z.min n (zlen src));
  eb_readln b style :=
    match eol_at style b with
    | None => Some (b, None, 0)
    | Some (d, n) => Some (zdrop (d + n) b, Some (ztake d b ++ [0]), d)
    end
}.

(** Results of the two runs: what the flat one returns, the other returns too. *)
Definition refines {A A'} (R : A → A' → Prop) (o : option A) (o' : option A') : Prop :=
  ∀ x', o' = Some x' → ∃ x, o = Some x ∧ R x x'.

Lemma refines_some {A A'} (R : A → A' → Prop) x x' : R x x' → refines R (Some x) (Some x').
Proof. intros H y [= <-]. eauto. Qed.
Lemma refines_bind {A A' C C'} (R : A → A' → Prop) (Q : C → C' → Prop) o o' f f' :
  refines R o o' → (∀ x x', R x x' → refines Q (f x) (f' x')) → refines Q (o ≫= f) (o' ≫= f').
Proof.
  intros Ho Hf y. rewrite bind_Some. intros (x' & E & Ey). destruct (Ho x' E) as (x & -> & HR).
  by apply (Hf x x' HR).
Qed.
Lemma refines_none {A A'} (R : A → A' → Prop) o : refines R o None.
Proof. by intros x. Qed.

Create HintDb evsim.

(** ** What reading lines leaves alone *)

Section frame.
Context {MM : Malloc} {B : Type} {EB : EvbufferOps B} (words0 : list Z).
Implicit Types (r : evhttp_request B) (b : B).

(** The requests agree but for the headers read. *)
Definition same_but_headers (r r1 : evhttp_request B) : Prop :=
  kind r1 = kind r ∧ first r1 = first r ∧ output_headers r1 = output_headers r ∧ body r1 = body r ∧
  output_buffer r1 = output_buffer r.
Lemma headers_loop_frame fuel evcon r b r1 b1 st :
  headers_loop fuel evcon r b = Some (r1, b1, st) → same_but_headers r r1.
Proof.
  revert r b. induction fuel as [|fuel IH]; intros r b; [done|]. cbn [headers_loop].
  rewrite bind_Some. intros ([[b2 line] len] & _ & E). destruct line as [line|].
  - repeat case_match; try (by injection E as <- <- <-); try done.
    rewrite bind_Some in E. destruct E as ([hs rc] & _ & E). case_match; [by injection E as <- <- <-|].
    by apply IH in E.
  - case_match; by injection E as <- <- <-.
Qed.
Lemma parse_headers_frame evcon r b r1 b1 st :
  evhttp_parse_headers_ evcon r b = Some (r1, b1, st) → same_but_headers r r1.
Proof. apply headers_loop_frame. Qed.

Lemma parse_firstline_frame evcon r b r1 b1 st :
  evhttp_parse_firstline_ words0 evcon r b = Some (r1, b1, st) →
  kind r1 = kind r ∧ input_headers r1 = input_headers r ∧ output_headers r1 = output_headers r ∧
  body r1 = body r ∧ output_buffer r1 = output_buffer r.
Proof.
  unfold evhttp_parse_firstline_. rewrite bind_Some. intros ([[b2 line] len] & _ & E).
  repeat case_match; try done; by injection E as <- <- <-.
Qed.
End frame.

Section sim.
Context {MM : Malloc} {B : Type} {EB : EvbufferOps B} {EL : EvbufferLaws B} (words0 : list Z).
Implicit Types (b : B) (l : list Z) (r : evhttp_request B) (q : evhttp_request (list Z)).

(** A number of bytes that fits. *)
Context (cap : Z) (Hcap : cap <= eb_cap (B := B)).

Definition buf_rel b l : Prop := eb_inv b ∧ eb_bytes b = l.
Record body_rel (m : message_body B) (n : message_body (list Z)) : Prop := {
  br_size : body_size m = body_size n;
  br_ntoread : ntoread m = ntoread n;
  br_chunked : chunked m = chunked n;
  br_input : buf_rel (input_buffer m) (input_buffer n)
}.
Record req_rel r q : Prop := {
  rr_kind : kind r = kind q;
  rr_first : first r = first q;
  rr_input_headers : input_headers r = input_headers q;
  rr_output_headers : output_headers r = output_headers q;
  rr_headers_size : headers_size r = headers_size q;
  rr_body : body_rel (body r) (body q);
  rr_output : buf_rel (output_buffer r) (output_buffer q)
}.

(** The bytes of the input and of the body read fit a buffer. *)
Definition fits q l : Prop := zlen (input_buffer (body q)) + zlen l <= cap.

Definition read_rel (x : evhttp_request B * B * message_read_status)
    (y : evhttp_request (list Z) * list Z * message_read_status) : Prop :=
  let '(r, b, st) := x in let '(q, l, st') := y in
  req_rel r q ∧ buf_rel b l ∧ st = st' ∧ fits q l.

Lemma buf_length b l : buf_rel b l → eb_length b = zlen l.
Proof. intros [Hi <-]. by destruct (eb_length_ok b Hi). Qed.

Definition line_rel (k : list Z) (x : B * option (list Z) * Z) (y : list Z * option (list Z) * Z) : Prop :=
  buf_rel x.1.1 y.1.1 ∧ x.1.2 = y.1.2 ∧ x.2 = y.2 ∧ zlen y.1.1 <= zlen k.
Lemma readln_sim b l style : buf_rel b l → refines (line_rel l) (eb_readln b style) (eb_readln l style).
Proof.
  intros [Hi <-]. pose proof (eb_readln_ok b style Hi) as H. cbn [eb_readln flat_queue].
  destruct (eol_at style (eb_bytes b)) as [[d n]|] eqn:E.
  - apply eol_at_range in E. destruct H as (b' & -> & Hi' & E'). apply refines_some.
    split_and!; [split| | |]; try done. simpl. rewrite zlen_zdrop by lia. lia.
  - rewrite H. apply refines_some. split_and!; [split| | |]; done.
Qed.

Lemma set_first_rel r q v : req_rel r q → req_rel (set_first v r) (set_first v q).
Proof. intros []. by constructor. Qed.
Lemma set_input_headers_rel r q v : req_rel r q → req_rel (set_input_headers v r) (set_input_headers v q).
Proof. intros []. by constructor. Qed.
Lemma set_output_headers_rel r q v : req_rel r q → req_rel (set_output_headers v r) (set_output_headers v q).
Proof. intros []. by constructor. Qed.
Lemma set_headers_size_rel r q v : req_rel r q → req_rel (set_headers_size v r) (set_headers_size v q).
Proof. intros []. by constructor. Qed.
Lemma upd_body_rel r q f g :
  req_rel r q → (body_rel (body r) (body q) → body_rel (f (body r)) (g (body q))) →
  req_rel (upd_body f r) (upd_body g q).
Proof. intros [] H. constructor; simpl; auto. Qed.
Lemma upd_flags_rel r q f : req_rel r q → req_rel (upd_flags f r) (upd_flags f q).
Proof. intros Hr. unfold upd_flags. rewrite (rr_first _ _ Hr). by apply set_first_rel. Qed.
Hint Resolve set_first_rel set_input_headers_rel set_output_headers_rel set_headers_size_rel upd_flags_rel : evsim.

Lemma refines_if {A C} (R : A → C → Prop) (t : bool) o1 o2 p1 p2 :
  (t = true → refines R o1 p1) → (t = false → refines R o2 p2) →
  refines R (if t then o1 else o2) (if t then p1 else p2).
Proof. destruct t; auto. Qed.
Ltac rif := apply refines_if; intros ?Hif.

(** ** The first line and the headers *)

Lemma parse_firstline_sim evcon r q b l :
  req_rel r q → buf_rel b l → fits q l →
  refines read_rel (evhttp_parse_firstline_ words0 evcon r b) (evhttp_parse_firstline_ words0 evcon q l).
Proof.
  intros Hr Hb Hf. unfold evhttp_parse_firstline_. eapply refines_bind; [by apply readln_sim|].
  intros [[b1 line0] len0] [[l1 line] len] (Hb1 & Hl & Hn & Hlen). simpl in Hb1, Hl, Hn, Hlen. subst.
  assert (fits q l1) as Hf1 by (unfold fits in *; lia). destruct line as [line|].
  - rif; [by apply refines_some|]. cbv zeta.
    rewrite (rr_kind _ _ (set_headers_size_rel _ _ len Hr)), (rr_first _ _ (set_headers_size_rel _ _ len Hr)).
    match goal with |- refines _ (match ?p with _ => _ end) _ => destruct p as [u v|v|] end;
      [| |apply refines_none]; apply refines_some; (split; [auto with evsim|by split_and!]).
  - rewrite (buf_length b1 l1 Hb1). rif; by apply refines_some.
Qed.

Lemma headers_loop_sim fuel evcon r q b l :
  req_rel r q → buf_rel b l → fits q l →
  refines read_rel (headers_loop fuel evcon r b) (headers_loop fuel evcon q l).
Proof.
  revert r q b l. induction fuel as [|fuel IH]; intros r q b l Hr Hb Hf; [apply refines_none|].
  cbn [headers_loop]. eapply refines_bind; [by apply readln_sim|].
  intros [[b1 line0] len0] [[l1 line] len] (Hb1 & Hl & Hn & Hlen). simpl in Hb1, Hl, Hn, Hlen. subst.
  assert (fits q l1) as Hf1 by (unfold fits in *; lia). rewrite (rr_headers_size _ _ Hr).
  destruct line as [line|].
  - cbn [headers_size set_headers_size]. rif; [apply refines_some; split; [auto with evsim|by split_and!]|].
    rif; [apply refines_some; split; [auto with evsim|by split_and!]|].
    cbn [input_headers set_headers_size]. rewrite (rr_input_headers _ _ Hr).
    destruct (header_line (input_headers q) (cstr line)) as [[hs rc]|]; [|apply refines_none]. cbn [mbind option_bind].
    rif; [apply refines_some; split; [auto with evsim|by split_and!]|].
    apply IH; [auto with evsim|done|done].
  - rewrite (buf_length b1 l1 Hb1). rif; by apply refines_some.
Qed.
Lemma parse_headers_sim evcon r q b l :
  req_rel r q → buf_rel b l → fits q l →
  refines read_rel (evhttp_parse_headers_ evcon r b) (evhttp_parse_headers_ evcon q l).
Proof.
  intros Hr Hb Hf. unfold evhttp_parse_headers_. rewrite (buf_length b l Hb). by apply headers_loop_sim.
Qed.

(** ** Bodies *)

(** Callbacks that do the same to a real and a flat request. *)
Definition chunk_cb_rel (cb : option (evhttp_request B → evhttp_request B))
    (cb' : option (evhttp_request (list Z) → evhttp_request (list Z))) : Prop :=
  match cb, cb' with
  | None, None => True
  | Some f, Some g => ∀ r q, req_rel r q → req_rel (f r) (g q)
  | _, _ => False
  end.
Definition header_cb_rel (cb : option (evhttp_request B → evhttp_request B * Z))
    (cb' : option (evhttp_request (list Z) → evhttp_request (list Z) * Z)) : Prop :=
  match cb, cb' with
  | None, None => True
  | Some f, Some g => ∀ r q, req_rel r q →
      req_rel (f r).1 (g q).1 ∧ (f r).2 = (g q).2 ∧ input_buffer (body (g q).1) = input_buffer (body q) ∧
      output_buffer (g q).1 = output_buffer q
  | _, _ => False
  end.

Context (chunk_cb : option (evhttp_request B → evhttp_request B)).
Context (chunk_cb' : option (evhttp_request (list Z) → evhttp_request (list Z))).
Context (Hcb : chunk_cb_rel chunk_cb chunk_cb').

Lemma chunk_complete_sim r q l :
  req_rel r q → fits q l →
  refines (λ x y, req_rel x.1 y.1 ∧ x.2 = y.2 ∧ fits y.1 l)
    (chunk_complete chunk_cb r) (chunk_complete chunk_cb' q).
Proof.
  intros Hr Hf. unfold chunk_complete. destruct chunk_cb as [f|], chunk_cb' as [g|]; try done.
  2:{ by apply refines_some. }
  set (r1 := upd_flags _ r). set (q1 := upd_flags _ q).
  assert (req_rel (f r1) (g q1)) as H1 by (apply Hcb; subst r1 q1; auto with evsim).
  destruct (br_input _ _ (rr_body _ _ H1)) as [Hi Eb].
  destruct (eb_length_ok _ Hi) as [El _]. rewrite Eb in El.
  destruct (eb_drain_ok (input_buffer (body (f r1))) (eb_length (input_buffer (body (f r1)))) Hi) as (b' & Ed & Hi' & Eb').
  { rewrite El. auto with evlib. }
  cbv zeta. rewrite Ed. cbn [mbind option_bind eb_drain eb_length flat_queue]. apply refines_some.
  rewrite Eb, El in Eb'.
  set (r2 := upd_body _ (f r1)). set (q2 := upd_body _ (g q1)).
  assert (req_rel r2 q2) as H2.
  { apply upd_body_rel; [done|]. intros []. by constructor. }
  assert (zdrop (zlen (input_buffer (body (g q1)))) (input_buffer (body (g q1))) = []) as E0 by (apply zdrop_all; lia).
  assert (fits q2 l) as Hf2.
  { unfold fits in *. subst q2. simpl. rewrite E0. change (zlen (@nil Z)) with 0.
    pose proof (zlen_nonneg (input_buffer (body q))). lia. }
  split; [by apply upd_flags_rel|]. split; [|done]. by rewrite (rr_first _ _ (upd_flags_rel _ _ _ H2)).
Qed.

Lemma chunked_loop_sim fuel limit r q b l :
  req_rel r q → buf_rel b l → fits q l →
  refines read_rel (chunked_loop chunk_cb fuel limit r b) (chunked_loop chunk_cb' fuel limit q l).
Proof.
  revert r q b l. induction fuel as [|fuel IH]; intros r q b l Hr Hb Hf; [apply refines_none|].
  cbn [chunked_loop]. rewrite (buf_length b l Hb). change (eb_length l) with (zlen l).
  pose proof (rr_body _ _ Hr) as Hm. rewrite (br_ntoread _ _ Hm), (br_size _ _ Hm).
  rif; [by apply refines_some|]. rif; [by apply refines_some|]. rif.
  { eapply refines_bind; [by apply readln_sim|].
    intros [[b1 line0] len0] [[l1 line] len] (Hb1 & Hl & Hn & Hlen). simpl in Hb1, Hl, Hn, Hlen. subst.
    assert (fits q l1) as Hf1 by (unfold fits in *; lia).
    destruct line as [line|]; [|by apply refines_some]. rif; [by apply IH|].
    destruct (evutil_strtoll (cstr line) 16) as [n endp].
    rif; [by apply refines_some|]. rif; [by apply refines_some|].
    rif; [by apply refines_some|]. cbv zeta.
    match goal with |- context [upd_body ?f q] => set (F := f) end.
    assert (req_rel (upd_body (λ m, set_ntoread n (set_body_size (u64 (body_size m + n)) m)) r)
              (upd_body F q)) as Hr1.
    { apply upd_body_rel; [done|]. intros [Es _ Ec Ei]. by constructor; simpl; rewrite ?Es. }
    assert (fits (upd_body F q) l1) as Hf2 by exact Hf1.
    rif; [by apply refines_some|by apply IH]. }
  rif; [by apply refines_some|]. rif; [by apply refines_some|].
  pose proof (br_input _ _ Hm) as [Hi Ei]. destruct Hb as [Hib Eb].
  assert (0 <= ntoread (body q)) by lia. unfold fits in Hf.
  destruct (eb_remove_buffer_ok b (input_buffer (body r)) (ntoread (body q)) Hib Hi)
    as (b1 & i1 & rc & -> & Hb1 & Hi1 & E1 & E2); [done|rewrite Eb, Ei; lia|].
  cbn [mbind option_bind eb_remove_buffer flat_queue].
  eapply refines_bind; [apply chunk_complete_sim with (l := zdrop (ntoread (body q)) l)|].
  - apply upd_body_rel; [done|]. intros _. constructor; simpl; try done.
    + apply Hm.
    + apply Hm.
    + split; [done|]. by rewrite E2, Eb, Ei.
  - unfold fits. simpl. rewrite zlen_app.
    pose proof (ztake_zdrop (ntoread (body q)) l) as Es. apply (f_equal zlen) in Es. rewrite zlen_app in Es. lia.
  - intros [r2 k] [q2 k2] (Hr2 & Hk & Hf2). simpl in Hr2, Hk, Hf2. subst k2.
    assert (buf_rel b1 (zdrop (ntoread (body q)) l)) as Hb2 by (split; [done|by rewrite E1, Eb]).
    destruct k; [by apply IH|by apply refines_some].
Qed.
Lemma chunked_read_sim limit r q b l :
  req_rel r q → buf_rel b l → fits q l →
  refines read_rel (evhttp_handle_chunked_read chunk_cb limit r b) (evhttp_handle_chunked_read chunk_cb' limit q l).
Proof.
  intros Hr Hb Hf. unfold evhttp_handle_chunked_read. rewrite (buf_length b l Hb). by apply chunked_loop_sim.
Qed.

(** ** Connections *)

Implicit Types (c : evhttp_connection B) (k : evhttp_connection (list Z)).

Record con_rel c k : Prop := {
  cr_settings : settings c = settings k;
  cr_state : state c = state k;
  cr_input : buf_rel (con_input c) (con_input k);
  cr_output : buf_rel (con_output c) (con_output k)
}.
(** Bytes that reading may add to the output: an interim reply, or what the
    request holds for the output. *)
Definition room q k : Prop := zlen (con_output k) + zlen (output_buffer q) + 200 <= eb_cap (B := B).

Definition next_rel (x : evhttp_connection B * evhttp_request B * next)
    (y : evhttp_connection (list Z) * evhttp_request (list Z) * next) : Prop :=
  let '(c, r, nx) := x in let '(k, q, nx') := y in
  con_rel c k ∧ req_rel r q ∧ nx = nx' ∧ fits q (con_input k).

Lemma set_state_rel c k v : con_rel c k → con_rel (set_state v c) (set_state v k).
Proof. intros []. by constructor. Qed.
Lemma set_con_input_rel c k b l : con_rel c k → buf_rel b l → con_rel (set_con_input b c) (set_con_input l k).
Proof. intros [] ?. by constructor. Qed.
Lemma set_con_output_rel c k b l : con_rel c k → buf_rel b l → con_rel (set_con_output b c) (set_con_output l k).
Proof. intros [] ?. by constructor. Qed.
Hint Resolve set_state_rel set_con_input_rel set_con_output_rel : evsim.

Lemma parse_headers_con c k r q :
  con_rel c k → req_rel r q → fits q (con_input k) →
  refines (λ x y, read_rel x y ∧ con_rel (set_con_input x.1.2 c) (set_con_input y.1.2 k))
    (evhttp_parse_headers_ (Some (settings c)) r (con_input c))
    (evhttp_parse_headers_ (Some (settings k)) q (con_input k)).
Proof.
  intros Hc Hr Hf y Hy. rewrite (cr_settings _ _ Hc).
  destruct (parse_headers_sim (Some (settings k)) r q _ _ Hr (cr_input _ _ Hc) Hf y Hy) as (x & -> & Hx).
  exists x. split; [done|]. split; [done|]. destruct x as [[r1 b1] s1], y as [[q1 l1] s2].
  destruct Hx as (_ & ? & _). simpl. auto with evsim.
Qed.

Lemma read_trailer_sim c k r q :
  con_rel c k → req_rel r q → fits q (con_input k) →
  refines next_rel (evhttp_read_trailer c r) (evhttp_read_trailer k q).
Proof.
  intros Hc Hr Hf. unfold evhttp_read_trailer. eapply refines_bind; [by apply parse_headers_con|].
  intros [[r1 b1] s1] [[q1 l1] s2] [(Hr1 & Hb1 & <- & Hf1) Hc1]. destruct s1; by apply refines_some.
Qed.

Lemma drain_sim b l n : buf_rel b l → 0 <= n →
  refines (λ x y, buf_rel x.1 y.1 ∧ y.1 = zdrop n l) (eb_drain b n) (eb_drain l n).
Proof.
  intros [Hi <-] Hn. destruct (eb_drain_ok b n Hi Hn) as (b' & -> & Hi' & E). by apply refines_some.
Qed.

Lemma zlen_zdrop_le {A} n (l : list A) : zlen (zdrop n l) <= zlen l.
Proof. unfold zlen, zdrop. rewrite length_drop. lia. Qed.

Lemma lingering_fail_sim c k r q :
  con_rel c k → req_rel r q → fits q (con_input k) →
  refines next_rel (evhttp_lingering_fail c r) (evhttp_lingering_fail k q).
Proof.
  intros Hc Hr Hf. unfold evhttp_lingering_fail. rewrite (cr_settings _ _ Hc). rif; [|by apply refines_some].
  unfold evhttp_lingering_close. rewrite (buf_length _ _ (cr_input _ _ Hc)).
  change (eb_length (con_input k)) with (zlen (con_input k)).
  rewrite (br_ntoread _ _ (rr_body _ _ Hr)).
  set (n := if u64 (ntoread (body q)) <? zlen (con_input k) then _ else _).
  assert (0 <= n) as Hn.
  { subst n. pose proof (u64_range (ntoread (body q))). pose proof (zlen_nonneg (con_input k)). case_match; lia. }
  cbv zeta. eapply refines_bind; [apply drain_sim; [apply Hc|done]|].
  intros [b1 x1] [l1 y1] [Hb1 E1]. simpl in Hb1, E1.
  match goal with |- context [upd_body ?f q] => set (q1 := upd_body f q) end.
  match goal with |- context [upd_body ?f r] => set (r1 := upd_body f r) end.
  assert (req_rel r1 q1) as Hr1.
  { apply upd_body_rel; [done|]. intros [Es En Ec Ei]. by constructor; simpl; rewrite ?Es, ?En. }
  assert (fits q1 l1) as Hf1.
  { unfold fits in *. subst l1. change (input_buffer (body q1)) with (input_buffer (body q)).
    pose proof (zlen_zdrop_le n (con_input k)). lia. }
  rewrite (br_ntoread _ _ (rr_body _ _ Hr1)). rif; apply refines_some; (split; [auto with evsim|by split_and!]).
Qed.

Lemma body_moved_sim c k r q :
  con_rel c k → req_rel r q → fits q (con_input k) →
  refines next_rel (body_moved chunk_cb c r) (body_moved chunk_cb' k q).
Proof.
  intros Hc Hr Hf. unfold body_moved. pose proof (rr_body _ _ Hr) as Hm.
  rewrite (cr_settings _ _ Hc), (br_size _ _ Hm), (br_chunked _ _ Hm), (br_ntoread _ _ Hm).
  rif; [by apply lingering_fail_sim|].
  eapply (refines_bind (λ x y, req_rel x.1 y.1 ∧ x.2 = y.2 ∧ fits y.1 (con_input k))).
  - pose proof (chunk_complete_sim r q (con_input k) Hr Hf) as Hs.
    destruct chunk_cb as [f|], chunk_cb' as [g|]; try done.
    rewrite (buf_length _ _ (br_input _ _ Hm)). change (eb_length (input_buffer (body q))) with (zlen (input_buffer (body q))).
    rif; [exact Hs|by apply refines_some].
  - intros [r1 k1] [q1 k2] (Hr1 & Hk & Hf1). simpl in Hr1, Hk, Hf1. subst k2.
    rif; [by apply refines_some|]. rewrite (br_ntoread _ _ (rr_body _ _ Hr1)). rif; by apply refines_some.
Qed.

Lemma read_body_sim c k r q :
  con_rel c k → req_rel r q → fits q (con_input k) →
  refines next_rel (evhttp_read_body chunk_cb c r) (evhttp_read_body chunk_cb' k q).
Proof.
  intros Hc Hr Hf. unfold evhttp_read_body. pose proof (rr_body _ _ Hr) as Hm.
  pose proof (cr_input _ _ Hc) as Hin. pose proof (br_input _ _ Hm) as Hinb. unfold fits in Hf.
  rewrite (buf_length _ _ Hin). change (eb_length (con_input k)) with (zlen (con_input k)).
  rewrite (br_chunked _ _ Hm), (br_ntoread _ _ Hm), (br_size _ _ Hm). rif.
  { rewrite (cr_settings _ _ Hc). eapply refines_bind; [by apply chunked_read_sim|].
    intros [[r1 b1] s1] [[q1 l1] s2] (Hr1 & Hb1 & <- & Hf1). cbv zeta.
    assert (con_rel (set_con_input b1 c) (set_con_input l1 k)) as Hc1 by auto with evsim.
    destruct s1; try (by apply refines_some).
    - apply read_trailer_sim; [auto with evsim|done|done].
    - by apply body_moved_sim. }
  rif.
  { rif; [by apply refines_some|]. destruct Hin as [Hi Ei], Hinb as [Hi2 Ei2].
    destruct (eb_add_buffer_ok (input_buffer (body r)) (con_input c) Hi2 Hi) as (b1 & b2 & -> & H1 & H2 & E1 & E2).
    { rewrite Ei, Ei2. lia. }
    cbn [mbind option_bind eb_add_buffer flat_queue]. apply body_moved_sim.
    - apply set_con_input_rel; [done|]. by split.
    - apply upd_body_rel; [done|]. intros [Es En Ec _]. constructor; simpl; rewrite ?Es, ?En; try done.
      split; [done|]. by rewrite E1, Ei, Ei2.
    - unfold fits. simpl. rewrite zlen_app. change (zlen (@nil Z)) with 0. lia. }
  assert (bool_decide (is_Some chunk_cb) = bool_decide (is_Some chunk_cb')) as ->.
  { unfold chunk_cb_rel in Hcb. by destruct chunk_cb, chunk_cb'. }
  rif; [|by apply body_moved_sim].
  set (n := if u64 (ntoread (body q)) <? zlen (con_input k) then _ else _).
  assert (0 <= n) as Hn.
  { subst n. pose proof (u64_range (ntoread (body q))). pose proof (zlen_nonneg (con_input k)). case_match; lia. }
  destruct Hin as [Hi Ei], Hinb as [Hi2 Ei2].
  destruct (eb_remove_buffer_ok (con_input c) (input_buffer (body r)) n Hi Hi2 Hn) as (b1 & b2 & rc & -> & H1 & H2 & E1 & E2).
  { rewrite Ei, Ei2. lia. }
  cbn [mbind option_bind eb_remove_buffer flat_queue]. apply body_moved_sim.
  - apply set_con_input_rel; [done|]. split; [done|]. by rewrite E1, Ei.
  - apply upd_body_rel; [done|]. intros [Es En Ec _]. constructor; simpl; rewrite ?Es, ?En; try done.
    split; [done|]. by rewrite E2, Ei, Ei2.
  - unfold fits. simpl. rewrite zlen_app.
    pose proof (ztake_zdrop n (con_input k)) as Et. apply (f_equal zlen) in Et. rewrite zlen_app in Et. lia.
Qed.

Lemma to_base_zlen fuel base n : zlen (to_base fuel base n) <= Z.of_nat fuel.
Proof.
  revert n. induction fuel as [|fuel IH]; intros n; [done|]. cbn [to_base]. destruct (n <? base).
  - change (zlen [digit_char n]) with 1. lia.
  - rewrite zlen_app. change (zlen [digit_char (n mod base)]) with 1. pose proof (IH (n / base)). lia.
Qed.
Lemma sprint_d_zlen n : zlen (sprint_d n) <= 65.
Proof.
  unfold sprint_d, sprint_u. pose proof (to_base_zlen 64 10 n). pose proof (to_base_zlen 64 10 (- n)).
  destruct (n <? 0); rewrite ?zlen_cons; lia.
Qed.

Lemma send_continue_sim c k r q :
  con_rel c k → req_rel r q → room q k →
  refines con_rel (evhttp_send_continue c r) (evhttp_send_continue k q).
Proof.
  intros Hc Hr Hroom. unfold evhttp_send_continue, sprint_version. rewrite (rr_first _ _ Hr).
  set (text := str "HTTP/" ++ _). destruct (cr_output _ _ Hc) as [Hi Ei].
  assert (zlen text <= 200) as Ht.
  { subst text. rewrite !zlen_app. pose proof (sprint_d_zlen (major (first q))).
    pose proof (sprint_d_zlen (minor (first q))).
    change (zlen (str "HTTP/")) with 5. change (zlen (str ".")) with 1. change (zlen (str " 100 Continue")) with 13.
    change (zlen crlf) with 2. lia. }
  unfold room in Hroom. pose proof (zlen_nonneg (output_buffer q)).
  destruct (eb_add_printf_ok (con_output c) text Hi) as (b1 & -> & Hi1 & E1); [rewrite Ei; lia|].
  cbn [mbind option_bind eb_add_printf flat_queue]. apply refines_some. apply set_con_output_rel; [done|].
  split; [done|]. by rewrite E1, Ei.
Qed.

Context (header_cb : option (evhttp_request B → evhttp_request B * Z)).
Context (header_cb' : option (evhttp_request (list Z) → evhttp_request (list Z) * Z)).
Context (Hhcb : header_cb_rel header_cb header_cb').

Lemma have_expect_rel r q input : req_rel r q → evhttp_have_expect r input = evhttp_have_expect q input.
Proof.
  intros Hr. unfold evhttp_have_expect, REQ_VERSION_ATLEAST.
  by rewrite (rr_kind _ _ Hr), (rr_first _ _ Hr), (rr_input_headers _ _ Hr), (rr_output_headers _ _ Hr).
Qed.

Lemma expect_and_read_sim c k r q :
  con_rel c k → req_rel r q → fits q (con_input k) → room q k →
  refines next_rel (expect_and_read chunk_cb c r) (expect_and_read chunk_cb' k q).
Proof.
  intros Hc Hr Hf Hroom. unfold expect_and_read. rewrite (have_expect_rel _ _ true Hr).
  destruct (evhttp_have_expect q true); [by apply read_body_sim| |by apply refines_some].
  rewrite (cr_settings _ _ Hc), (br_ntoread _ _ (rr_body _ _ Hr)). rif; [by apply lingering_fail_sim|].
  rewrite (buf_length _ _ (cr_input _ _ Hc)). change (eb_length (con_input k)) with (zlen (con_input k)).
  eapply (refines_bind (λ c1 k1, con_rel c1 k1 ∧ con_input k1 = con_input k)).
  - rif; [|by apply refines_some]. intros k1 Hk. destruct (send_continue_sim c k r q Hc Hr Hroom k1 Hk) as (c1 & -> & Hc1).
    exists c1. split; [done|]. split; [done|]. unfold evhttp_send_continue in Hk.
    cbn [eb_add_printf flat_queue mbind option_bind] in Hk. by injection Hk as <-.
  - intros c1 k1 [Hc1 E]. apply read_body_sim; [done|done|by rewrite E].
Qed.

Lemma body_length_sim r q :
  req_rel r q →
  req_rel (evhttp_get_body_length r).1 (evhttp_get_body_length q).1 ∧
  (evhttp_get_body_length r).2 = (evhttp_get_body_length q).2 ∧
  input_buffer (body (evhttp_get_body_length q).1) = input_buffer (body q) ∧
  output_buffer (evhttp_get_body_length q).1 = output_buffer q.
Proof.
  intros Hr. unfold evhttp_get_body_length. rewrite (rr_input_headers _ _ Hr).
  assert (∀ n, req_rel (set_body (Body (body_size (body r)) n (chunked (body r)) (input_buffer (body r))) r)
                 (set_body (Body (body_size (body q)) n (chunked (body q)) (input_buffer (body q))) q)) as Hn.
  { intros n. destruct Hr as [? ? ? ? ? [] ?]. by constructor. }
  destruct (evhttp_find_header (input_headers q) (str "Content-Length")) as [cl|].
  - destruct (evutil_strtoll cl 10) as [n e]. destruct (_ || _ || _); [by split_and!|]. simpl. split_and!; [|done..]. apply Hn.
  - destruct (evhttp_find_header (input_headers q) (str "Connection")) as [cn|]; [case_match|];
      simpl; split_and!; try done; apply Hn.
Qed.

Lemma get_body_sim c k r q :
  con_rel c k → req_rel r q → fits q (con_input k) → room q k →
  refines next_rel (evhttp_get_body chunk_cb c r) (evhttp_get_body chunk_cb' k q).
Proof.
  intros Hc Hr Hf Hroom. unfold evhttp_get_body. rewrite (rr_kind _ _ Hr), (rr_first _ _ Hr), (rr_input_headers _ _ Hr).
  rif; [by apply refines_some|]. rif.
  - apply expect_and_read_sim; [auto with evsim| |done|done].
    apply upd_body_rel; [done|]. intros []. by constructor.
  - destruct (body_length_sim r q Hr) as (Hr1 & Erc & Ei & Eo).
    destruct (evhttp_get_body_length r) as [r1 rc1], (evhttp_get_body_length q) as [q1 rc]. simpl in Hr1, Erc, Ei, Eo. subst rc1.
    assert (fits q1 (con_input k)) as Hf1 by (unfold fits in *; rewrite Ei; done).
    rif; [apply refines_some; split; [auto with evsim|by split_and!]|].
    rewrite (br_ntoread _ _ (rr_body _ _ Hr1)). rif; [apply refines_some; split; [auto with evsim|by split_and!]|].
    apply expect_and_read_sim; [auto with evsim|done|done|]. unfold room in *. simpl. rewrite Eo. done.
Qed.

Lemma headers_done_sim c k r q :
  con_rel c k → req_rel r q → fits q (con_input k) → room q k →
  refines next_rel (headers_done chunk_cb header_cb c r) (headers_done chunk_cb' header_cb' k q).
Proof.
  intros Hc Hr Hf Hroom. unfold headers_done.
  assert (∃ r1 q1 rc, match header_cb with Some cb => cb r | None => (r, 0) end = (r1, rc) ∧
    match header_cb' with Some cb => cb q | None => (q, 0) end = (q1, rc) ∧ req_rel r1 q1 ∧
    input_buffer (body q1) = input_buffer (body q) ∧ output_buffer q1 = output_buffer q)
    as (r1 & q1 & rc & -> & -> & Hr1 & Ei & Eo).
  { pose proof Hhcb as Hh. unfold header_cb_rel in Hh. destruct header_cb as [f|], header_cb' as [g|]; try done.
    - destruct (Hh r q Hr) as (H1 & H2 & H3 & H4). destruct (f r) as [r1 rc], (g q) as [q1 rc1]. simpl in *. subst.
      by exists r1, q1, rc1.
    - by exists r, q, 0. }
  assert (fits q1 (con_input k)) as Hf1 by (unfold fits in *; by rewrite Ei).
  assert (room q1 k) as Hroom1 by (unfold room in *; by rewrite Eo).
  rif; [by apply refines_some|]. rewrite (rr_kind _ _ Hr1). destruct (kind q1) eqn:Ek; [by apply get_body_sim|].
  unfold evhttp_response_needs_body. rewrite (rr_first _ _ Hr1). rif.
  - destruct (cr_output _ _ Hc) as [Hi E1], (rr_output _ _ Hr1) as [Hi2 E2].
    destruct (eb_add_buffer_ok (con_output c) (output_buffer r1) Hi Hi2) as (b1 & b2 & -> & H1 & H2 & E3 & E4).
    { rewrite E1, E2. unfold room in Hroom1. lia. }
    cbn [mbind option_bind eb_add_buffer flat_queue]. apply refines_some. split_and!; [|by destruct Hr1|done|done].
    apply set_con_output_rel; [done|]. split; [done|]. by rewrite E3, E1, E2.
  - rif; [by apply refines_some|by apply get_body_sim].
Qed.

Lemma read_header_sim c k r q :
  con_rel c k → req_rel r q → fits q (con_input k) → room q k →
  refines next_rel (evhttp_read_header chunk_cb header_cb c r) (evhttp_read_header chunk_cb' header_cb' k q).
Proof.
  intros Hc Hr Hf Hroom. unfold evhttp_read_header.
  apply (refines_bind (λ x y, (read_rel x y ∧ con_rel (set_con_input x.1.2 c) (set_con_input y.1.2 k)) ∧
    output_buffer y.1.1 = output_buffer q)).
  - intros [[q1 l1] s1] E. destruct (parse_headers_con c k r q Hc Hr Hf _ E) as (x & -> & Hx).
    apply parse_headers_frame in E as (_ & _ & _ & _ & Eo). eauto.
  - intros [[r1 b1] s1] [[q1 l1] s2] [[(Hr1 & Hb1 & <- & Hf1) Hc1] Eo]. simpl in Hc1, Eo.
    assert (room q1 (set_con_input l1 k)) as Hroom1 by (unfold room in *; simpl; by rewrite Eo).
    destruct s1; first [by apply refines_some|by apply headers_done_sim].
Qed.

Lemma read_firstline_sim c k r q :
  con_rel c k → req_rel r q → fits q (con_input k) → room q k →
  refines next_rel (evhttp_read_firstline words0 chunk_cb header_cb c r)
    (evhttp_read_firstline words0 chunk_cb' header_cb' k q).
Proof.
  intros Hc Hr Hf Hroom. unfold evhttp_read_firstline. rewrite (cr_settings _ _ Hc).
  apply (refines_bind (λ x y, read_rel x y ∧ output_buffer y.1.1 = output_buffer q)).
  - intros [[q1 l1] s1] E.
    destruct (parse_firstline_sim (Some (settings k)) r q _ _ Hr (cr_input _ _ Hc) Hf _ E) as (x & -> & Hx).
    apply parse_firstline_frame in E as (_ & _ & _ & _ & Eo). eauto.
  - intros [[r1 b1] s1] [[q1 l1] s2] [(Hr1 & Hb1 & <- & Hf1) Eo]. simpl in Eo. cbv zeta.
    assert (room q1 (set_con_input l1 k)) as Hroom1 by (unfold room in *; simpl; by rewrite Eo).
    assert (con_rel (set_con_input b1 c) (set_con_input l1 k)) as Hc1 by auto with evsim.
    destruct s1; first [by apply refines_some|apply read_header_sim; auto with evsim].
Qed.

Lemma read_cb_sim c k r q :
  con_rel c k → req_rel r q → fits q (con_input k) →
  (state k = EVCON_READING_FIRSTLINE ∨ state k = EVCON_READING_HEADERS → room q k) →
  refines next_rel (evhttp_read_cb words0 chunk_cb header_cb c r) (evhttp_read_cb words0 chunk_cb' header_cb' k q).
Proof.
  intros Hc Hr Hf Hroom. unfold evhttp_read_cb. rewrite (cr_state _ _ Hc).
  destruct (state k); try (by apply refines_none).
  - by apply refines_some.
  - apply read_firstline_sim; auto.
  - apply read_header_sim; auto.
  - by apply read_body_sim.
  - by apply read_trailer_sim.
Qed.
End sim.
