(* ===== verification/HttpCut.v ===== *)
(** * Messages that arrive in pieces

    On flat queues, with the limits that a new connection has: what reading makes
    of some bytes and then of more is what it makes of all of them at once. *)
From S2P Require Import Prelude Outcome Lines Evutil InetDefs EvbufferDefs EvbufferIface HttpUriDefs HttpMsgDefs HttpConnDefs HttpFlat.

(** ** Lines *)

Lemma memchr_app_Some x y c d : memchr x c = Some d → memchr (x ++ y) c = Some d.
Proof. intros H. unfold memchr in *. by rewrite find_first_app, H. Qed.

Lemma eol_crlf_app x y d n :
  eol_at EVBUFFER_EOL_CRLF x = Some (d, n) → eol_at EVBUFFER_EOL_CRLF (x ++ y) = Some (d, n).
Proof.
  simpl. rewrite bind_Some. intros (e & He & E). rewrite (memchr_app_Some _ _ _ _ He). cbn [mbind option_bind].
  apply find_first_range in He. by rewrite zget_app_l by lia.
Qed.
Lemma eol_crlf_pos x d n : eol_at EVBUFFER_EOL_CRLF x = Some (d, n) → 0 <= d ∧ 0 < n ∧ d + n <= zlen x.
Proof.
  intros E. pose proof (eol_at_range _ _ _ _ E). simpl in E. rewrite bind_Some in E.
  destruct E as (e & _ & E). case_match; injection E as <- <-; lia.
Qed.
Lemma zdrop_shorter {A} n (l : list A) : 0 < n <= zlen l → (length (zdrop n l) < length l)%nat.
Proof. intros H. unfold zdrop. rewrite length_drop. unfold zlen in H. lia. Qed.

Lemma list_len_ind (P : list Z → Prop) : (∀ l, (∀ k, (length k < length l)%nat → P k) → P l) → ∀ l, P l.
Proof.
  intros H l. assert (∀ n k, (length k < n)%nat → P k) as Hn; [|by apply (Hn (S (length l))); lia].
  induction n as [|n IH]; intros k Hk; [lia|]. apply H. intros k' Hk'. apply IH. lia.
Qed.

Section cut.
Context {MM : Malloc} (words0 : list Z).
Implicit Types (q : evhttp_request (list Z)) (l x y : list Z) (k : evhttp_connection (list Z)).

Definition unlimited (s : con_settings) : Prop :=
  max_headers_size s = EV_SIZE_MAX ∧ max_body_size s = EV_SIZE_MAX.
Lemma not_too_long s n : unlimited s → n <= EV_SIZE_MAX → too_long (Some s) n = false.
Proof. intros [E _] Hn. unfold too_long. rewrite E. by apply Z.ltb_ge. Qed.
Lemma u64_max n : u64 n <= EV_SIZE_MAX.
Proof. pose proof (u64_range n). unfold EV_SIZE_MAX. lia. Qed.

(** One line of the headers, when there are no limits. *)
Definition headers_step (rec : evhttp_request (list Z) → list Z → option (evhttp_request (list Z) * list Z * message_read_status)) q l :=
  match eol_at EVBUFFER_EOL_CRLF l with
  | None => Some (q, l, MORE_DATA_EXPECTED)
  | Some (d, n) =>
      let line := cstr (ztake d l ++ [0]) in
      let q := set_headers_size (u64 (headers_size q + d)) q in
      if bool_decide (line = []) then Some (q, zdrop (d + n) l, ALL_DATA_READ)
      else
        '(headers, rc) ← header_line (input_headers q) line;
        let q := set_input_headers headers q in
        if rc =? -1 then Some (q, zdrop (d + n) l, DATA_CORRUPTED) else rec q (zdrop (d + n) l)
  end.
Lemma headers_loop_step s fuel q l :
  unlimited s → headers_loop (S fuel) (Some s) q l = headers_step (headers_loop fuel (Some s)) q l.
Proof.
  intros Hs. unfold headers_step. cbn [headers_loop eb_readln eb_length flat_queue].
  destruct (eol_at EVBUFFER_EOL_CRLF l) as [[d n]|]; cbn [mbind option_bind].
  - by rewrite not_too_long by (done || apply u64_max).
  - by rewrite not_too_long by (done || apply u64_max).
Qed.
Lemma headers_fuel s : unlimited s → ∀ f1 f2 q l,
  (length l < f1)%nat → (length l < f2)%nat → headers_loop f1 (Some s) q l = headers_loop f2 (Some s) q l.
Proof.
  intros Hs. induction f1 as [|f1 IH]; intros [|f2] q l H1 H2; try lia. rewrite !headers_loop_step by done.
  unfold headers_step. destruct (eol_at EVBUFFER_EOL_CRLF l) as [[d n]|] eqn:E; [|done].
  apply eol_crlf_pos in E. pose proof (zdrop_shorter (d + n) l ltac:(lia)).
  case_match; [done|]. destruct (header_line _ _) as [[hs rc]|]; [|done]. cbn [mbind option_bind].
  case_match; [done|]. apply IH; lia.
Qed.
Lemma parse_headers_step s q l : unlimited s →
  evhttp_parse_headers_ (Some s) q l = headers_step (evhttp_parse_headers_ (Some s)) q l.
Proof.
  intros Hs. unfold evhttp_parse_headers_. cbn [eb_length flat_queue]. rewrite headers_loop_step by done.
  unfold headers_step. destruct (eol_at EVBUFFER_EOL_CRLF l) as [[d n]|] eqn:E; [|done].
  apply eol_crlf_pos in E. pose proof (zdrop_shorter (d + n) l ltac:(lia)).
  case_match; [done|]. destruct (header_line _ _) as [[hs rc]|]; [|done]. cbn [mbind option_bind].
  case_match; [done|]. unfold zlen. apply headers_fuel; [done|lia|lia].
Qed.

(** What follows when more bytes arrive behind those that are left. *)
Definition continue (F : evhttp_request (list Z) → list Z → option (evhttp_request (list Z) * list Z * message_read_status))
    (r : evhttp_request (list Z) * list Z * message_read_status) y :=
  let '(q, l, st) := r in
  match st with MORE_DATA_EXPECTED => F q (l ++ y) | _ => Some (q, l ++ y, st) end.

Lemma headers_cut s x : unlimited s → ∀ q y r,
  evhttp_parse_headers_ (Some s) q x = Some r →
  evhttp_parse_headers_ (Some s) q (x ++ y) = continue (evhttp_parse_headers_ (Some s)) r y.
Proof.
  intros Hs. induction x as [x IH] using list_len_ind. intros q y r.
  rewrite (parse_headers_step s q x) by done. unfold headers_step.
  destruct (eol_at EVBUFFER_EOL_CRLF x) as [[d n]|] eqn:E; [|by intros [= <-]].
  rewrite (parse_headers_step s q (x ++ y)) by done. unfold headers_step.
  rewrite (eol_crlf_app x y _ _ E). apply eol_crlf_pos in E.
  rewrite ztake_app_le, zdrop_app_le by lia. case_match; [by intros [= <-]|].
  destruct (header_line _ _) as [[hs rc]|]; [|done]. cbn [mbind option_bind].
  case_match; [by intros [= <-]|]. intros Hr. apply IH; [|done]. apply zdrop_shorter. lia.
Qed.

Lemma headers_status s x : unlimited s → ∀ q q1 l1,
  evhttp_parse_headers_ (Some s) q x ≠ Some (q1, l1, REQUEST_CANCELED).
Proof.
  intros Hs. induction x as [x IH] using list_len_ind. intros q q1 l1.
  rewrite (parse_headers_step s q x) by done. unfold headers_step.
  destruct (eol_at EVBUFFER_EOL_CRLF x) as [[d n]|] eqn:E; [|done]. apply eol_crlf_pos in E.
  case_match; [done|]. destruct (header_line _ _) as [[hs rc]|]; [|done]. cbn [mbind option_bind].
  case_match; [done|]. apply IH, zdrop_shorter. lia.
Qed.

Lemma headers_shrink s x : unlimited s → ∀ q q1 l1 st,
  evhttp_parse_headers_ (Some s) q x = Some (q1, l1, st) → zlen l1 <= zlen x.
Proof.
  intros Hs. induction x as [x IH] using list_len_ind. intros q q1 l1 st.
  rewrite (parse_headers_step s q x) by done. unfold headers_step.
  destruct (eol_at EVBUFFER_EOL_CRLF x) as [[d n]|] eqn:E; [|by intros [= <- <- <-]]. apply eol_crlf_pos in E.
  pose proof (zlen_zdrop_le (d + n) x).
  case_match; [by intros [= <- <- <-]|]. destruct (header_line _ _) as [[hs rc]|]; [|done]. cbn [mbind option_bind].
  case_match; [by intros [= <- <- <-]|]. intros E1. apply IH in E1; [lia|]. apply zdrop_shorter. lia.
Qed.

(** ** Chunks *)

(** One round of [chunked_loop] without a callback or a limit. *)
Definition chunked_step (rec : evhttp_request (list Z) → list Z → option (evhttp_request (list Z) * list Z * message_read_status)) q l :=
  let b := body q in
  if bool_decide (l = []) then Some (q, l, MORE_DATA_EXPECTED)
  else if ntoread b <? 0 then
    match eol_at EVBUFFER_EOL_CRLF l with
    | None => Some (q, l, MORE_DATA_EXPECTED)
    | Some (d, n) =>
        let p := cstr (ztake d l ++ [0]) in
        if bool_decide (p = []) then rec q (zdrop (d + n) l)
        else
          let '(n', endp) := evutil_strtoll p 16 in
          if negb (bool_decide (endp = [])) && negb (hd 0 endp =? 32) || (n' <? 0) then
            Some (q, zdrop (d + n) l, DATA_CORRUPTED)
          else if EV_SIZE_MAX - body_size b <? n' then Some (q, zdrop (d + n) l, DATA_CORRUPTED)
          else
            let q := upd_body (λ b, set_ntoread n' (set_body_size (u64 (body_size b + n')) b)) q in
            if n' =? 0 then Some (q, zdrop (d + n) l, ALL_DATA_READ) else rec q (zdrop (d + n) l)
    end
  else if EV_SSIZE_MAX <? ntoread b then Some (q, l, DATA_CORRUPTED)
  else if (0 <? ntoread b) && (zlen l <? ntoread b) then Some (q, l, MORE_DATA_EXPECTED)
  else rec (set_body (Body (body_size b) (-1) (chunked b) (input_buffer b ++ ztake (ntoread b) l)) q)
         (zdrop (ntoread b) l).
Lemma chunked_loop_step fuel q l : zlen l <= EV_SSIZE_MAX →
  chunked_loop None (S fuel) EV_SIZE_MAX q l = chunked_step (chunked_loop None fuel EV_SIZE_MAX) q l.
Proof.
  intros Hl. unfold chunked_step. cbn [chunked_loop eb_readln eb_length eb_remove_buffer chunk_complete flat_queue].
  cbv zeta.
  assert ((zlen l =? 0) = bool_decide (l = [])) as ->.
  { case_bool_decide as E; [by subst|]. apply Z.eqb_neq. intros H0. by apply E, zlen_nil_inv. }
  case_bool_decide; [done|]. destruct (Z.ltb_spec EV_SSIZE_MAX (zlen l)); [lia|].
  destruct (Z.ltb_spec (ntoread (body q)) 0).
  - destruct (eol_at EVBUFFER_EOL_CRLF l) as [[d n]|]; cbn [mbind option_bind]; [|done].
    case_bool_decide; [done|]. destruct (evutil_strtoll _ 16) as [n' endp]. case_match; [done|]. case_match; [done|].
    destruct (Z.ltb_spec EV_SIZE_MAX (u64 (body_size (body q) + n'))) as [H'|]; [|done].
    pose proof (u64_max (body_size (body q) + n')). lia.
  - done.
Qed.

(** Rounds needed for [l]. *)
Definition rounds q l : nat := length l + (if (ntoread (body q) =? 0)%Z then 1 else 0).
Lemma chunked_step_ext f g q l :
  (∀ q' l', zlen l' <= zlen l → (rounds q' l' < rounds q l)%nat → f q' l' = g q' l') →
  chunked_step f q l = chunked_step g q l.
Proof.
  intros H. unfold chunked_step. case_bool_decide; [done|]. unfold rounds in H.
  destruct (Z.ltb_spec (ntoread (body q)) 0) as [Hn|Hn].
  - destruct (Z.eqb_spec (ntoread (body q)) 0); [lia|].
    destruct (eol_at EVBUFFER_EOL_CRLF l) as [[d n']|] eqn:E; [|done].
    apply eol_crlf_pos in E. pose proof (zdrop_shorter (d + n') l ltac:(lia)).
    pose proof (zlen_zdrop_le (d + n') l).
    case_bool_decide.
    + apply H; [lia|]. destruct (Z.eqb_spec (ntoread (body q)) 0); lia.
    + destruct (evutil_strtoll _ 16) as [m endp]. case_match; [done|]. case_match; [done|].
      destruct (Z.eqb_spec m 0); [done|].
      apply H; [lia|]. cbn [body upd_body set_body ntoread set_ntoread]. destruct (Z.eqb_spec m 0); lia.
  - destruct (EV_SSIZE_MAX <? ntoread (body q)); [done|].
    destruct ((0 <? ntoread (body q)) && (zlen l <? ntoread (body q))) eqn:Hm; [done|].
    pose proof (zlen_zdrop_le (ntoread (body q)) l). apply H; [lia|]. cbn [body upd_body set_body ntoread set_ntoread set_input_buffer]. simpl Z.eqb.
    destruct (Z.eqb_spec (ntoread (body q)) 0) as [->|]; [rewrite zdrop_0; lia|].
    pose proof (zdrop_shorter (ntoread (body q)) l) as Hz.
    destruct (Z.ltb_spec 0 (ntoread (body q))); [|lia]. destruct (Z.ltb_spec (zlen l) (ntoread (body q))); [done|].
    specialize (Hz ltac:(lia)). lia.
Qed.
Lemma chunked_fuel : ∀ f1 f2 q l, zlen l <= EV_SSIZE_MAX →
  (rounds q l < f1)%nat → (rounds q l < f2)%nat →
  chunked_loop None f1 EV_SIZE_MAX q l = chunked_loop None f2 EV_SIZE_MAX q l.
Proof.
  induction f1 as [|f1 IH]; intros [|f2] q l Hl H1 H2; try lia. rewrite !chunked_loop_step by done.
  apply chunked_step_ext. intros q' l' Hl' Hr. apply IH; lia.
Qed.
Lemma chunked_read_step q l : zlen l <= EV_SSIZE_MAX →
  evhttp_handle_chunked_read None EV_SIZE_MAX q l =
  chunked_step (evhttp_handle_chunked_read None EV_SIZE_MAX) q l.
Proof.
  intros Hl. unfold evhttp_handle_chunked_read at 1. rewrite chunked_loop_step by done.
  apply chunked_step_ext. intros q' l' Hl' Hr. unfold evhttp_handle_chunked_read. cbn [eb_length flat_queue].
  unfold zlen. rewrite !Nat2Z.id. assert (rounds q l <= S (length l))%nat by (unfold rounds; case_match; lia).
  apply chunked_fuel; [lia|lia|]. unfold rounds. case_match; lia.
Qed.

Lemma chunked_cut : ∀ n x q y r, (rounds q x < n)%nat → zlen (x ++ y) <= EV_SSIZE_MAX →
  evhttp_handle_chunked_read None EV_SIZE_MAX q x = Some r →
  evhttp_handle_chunked_read None EV_SIZE_MAX q (x ++ y) =
  continue (evhttp_handle_chunked_read None EV_SIZE_MAX) r y.
Proof.
  induction n as [|n IH]; intros x q y r Hn Hl; [lia|]. rewrite zlen_app in Hl. pose proof (zlen_nonneg y).
  rewrite (chunked_read_step q x) by lia. unfold chunked_step.
  destruct (decide (x = [])) as [->|Hx]; [by intros [= <-]|]. rewrite (bool_decide_eq_false_2 (x = [])) by done.
  assert (x ++ y ≠ []) as Hxy by (by destruct x). unfold rounds in Hn.
  destruct (Z.ltb_spec (ntoread (body q)) 0) as [Hneg|Hneg].
  - destruct (eol_at EVBUFFER_EOL_CRLF x) as [[d m]|] eqn:E; [|by intros [= <-]].
    rewrite (chunked_read_step q (x ++ y)) by (rewrite zlen_app; lia). unfold chunked_step.
    rewrite (bool_decide_eq_false_2 (x ++ y = [])) by done. destruct (Z.ltb_spec (ntoread (body q)) 0); [|lia].
    rewrite (eol_crlf_app x y _ _ E). apply eol_crlf_pos in E. pose proof (zdrop_shorter (d + m) x ltac:(lia)).
    pose proof (zlen_zdrop_le (d + m) x). rewrite ztake_app_le, zdrop_app_le by lia.
    destruct (Z.eqb_spec (ntoread (body q)) 0); [lia|]. case_bool_decide.
    + intros Hr. apply IH; [|rewrite zlen_app; lia|done]. unfold rounds. destruct (Z.eqb_spec (ntoread (body q)) 0); lia.
    + destruct (evutil_strtoll _ 16) as [v endp].
      destruct (_ || (v <? 0)); [by intros [= <-]|]. destruct (_ <? v); [by intros [= <-]|].
      destruct (Z.eqb_spec v 0); [by intros [= <-]|]. intros Hr. apply IH; [|rewrite zlen_app; lia|done].
      unfold rounds. cbn [body upd_body set_body ntoread set_ntoread]. destruct (Z.eqb_spec v 0); lia.
  - destruct (EV_SSIZE_MAX <? ntoread (body q)) eqn:Hbig.
    { rewrite (chunked_read_step q (x ++ y)) by (rewrite zlen_app; lia). unfold chunked_step.
      rewrite (bool_decide_eq_false_2 (x ++ y = [])), Hbig by done. destruct (Z.ltb_spec (ntoread (body q)) 0); [lia|]. by intros [= <-]. }
    destruct ((0 <? ntoread (body q)) && (zlen x <? ntoread (body q))) eqn:Hm; [by intros [= <-]|].
    assert (ntoread (body q) <= zlen x) as Hle.
    { pose proof (zlen_nonneg x). destruct (Z.ltb_spec 0 (ntoread (body q))), (Z.ltb_spec (zlen x) (ntoread (body q)));
        first [done|lia]. }
    rewrite (chunked_read_step q (x ++ y)) by (rewrite zlen_app; lia). unfold chunked_step.
    rewrite (bool_decide_eq_false_2 (x ++ y = [])), Hbig by done. destruct (Z.ltb_spec (ntoread (body q)) 0); [lia|].
    destruct (Z.ltb_spec (zlen (x ++ y)) (ntoread (body q))) as [Hlt|_]; [rewrite zlen_app in Hlt; lia|].
    rewrite andb_false_r. rewrite ztake_app_le, zdrop_app_le by lia.
    pose proof (zlen_zdrop_le (ntoread (body q)) x).
    intros Hr. apply IH; [|rewrite zlen_app; lia|done].
    unfold rounds. cbn [body upd_body set_body ntoread set_ntoread set_input_buffer]. simpl Z.eqb.
    destruct (Z.eqb_spec (ntoread (body q)) 0) as [->|]; [rewrite zdrop_0; lia|].
    pose proof (zdrop_shorter (ntoread (body q)) x ltac:(lia)). lia.
Qed.

(** While a body is read in chunks, [ntoread] is not zero. *)
Definition in_chunks (b : message_body (list Z)) : Prop :=
  chunked b = true ∧ ntoread b ≠ 0 ∧ 0 <= body_size b < 2 ^ 64.
Lemma chunked_waiting : ∀ n q x q1 l1, (rounds q x < n)%nat → zlen x <= EV_SSIZE_MAX → in_chunks (body q) →
  evhttp_handle_chunked_read None EV_SIZE_MAX q x = Some (q1, l1, MORE_DATA_EXPECTED) → in_chunks (body q1).
Proof.
  induction n as [|n IH]; intros q x q1 l1 Hn Hl Hq; [lia|]. rewrite (chunked_read_step q x) by lia.
  destruct (Hq) as (Hc & H0 & Hs). unfold chunked_step. case_bool_decide; [by intros [= <- <-]|].
  unfold rounds in Hn. destruct (Z.eqb_spec (ntoread (body q)) 0); [done|].
  destruct (Z.ltb_spec (ntoread (body q)) 0) as [Hneg|Hneg].
  - destruct (eol_at EVBUFFER_EOL_CRLF x) as [[d m]|] eqn:E; [|by intros [= <- <-]].
    apply eol_crlf_pos in E. pose proof (zdrop_shorter (d + m) x ltac:(lia)). pose proof (zlen_zdrop_le (d + m) x).
    case_bool_decide.
    + apply IH; [|lia|done]. unfold rounds. destruct (Z.eqb_spec (ntoread (body q)) 0); lia.
    + destruct (evutil_strtoll _ 16) as [v endp]. destruct (_ || (v <? 0)); [done|]. destruct (_ <? v); [done|].
      destruct (Z.eqb_spec v 0); [done|]. apply IH; [|lia|].
      * unfold rounds. cbn [body upd_body set_body ntoread set_ntoread]. destruct (Z.eqb_spec v 0); lia.
      * split; [done|]. split; [done|]. cbn. pose proof (u64_range (body_size (body q) + v)). unfold u64 in *. lia.
  - destruct (_ <? ntoread (body q)); [done|].
    destruct ((0 <? ntoread (body q)) && (zlen x <? ntoread (body q))) eqn:Hm; [by intros [= <- <-]|].
    assert (ntoread (body q) <= zlen x) as Hle.
    { destruct (Z.ltb_spec 0 (ntoread (body q))), (Z.ltb_spec (zlen x) (ntoread (body q))); first [done|lia]. }
    pose proof (zdrop_shorter (ntoread (body q)) x ltac:(lia)). pose proof (zlen_zdrop_le (ntoread (body q)) x).
    apply IH; [|lia|done]. unfold rounds. cbn. lia.
Qed.

(** ** Connections *)

Definition result : Type := evhttp_connection (list Z) * evhttp_request (list Z) * next.
Abbreviation read_cb := (evhttp_read_cb words0 None None).

(** The same but for what was put in the output. *)
Definition erase (r : result) : result := let '(k, q, nx) := r in (set_con_output [] k, q, nx).
Definition agree (o o' : option result) : Prop := erase <$> o = erase <$> o'.
Lemma agree_trans o1 o2 o3 : agree o1 o2 → agree o2 o3 → agree o1 o3.
Proof. apply eq_trans. Qed.

(** What follows when [y] arrives. *)
Definition resume (r : result) y : option result :=
  let '(k, q, nx) := r in
  let k := set_con_input (con_input k ++ y) k in
  match nx with Waiting => read_cb k q | _ => Some (k, q, nx) end.

(** With [n] more bytes to come, the number of bytes read does not overflow. *)
Definition body_wf (b : message_body (list Z)) (n : Z) : Prop :=
  0 <= body_size b ∧ body_size b + (if chunked b then 0 else n) < 2 ^ 64 ∧ ntoread b < 2 ^ 63 ∧
  (chunked b = true → ntoread b ≠ 0).

Lemma body_moved_flat k q :
  unlimited (settings k) → 0 <= body_size (body q) < 2 ^ 64 →
  body_moved None k q = Some (k, q, if ntoread (body q) =? 0 then Done else Waiting).
Proof.
  intros [_ Hm] Hs. unfold body_moved. rewrite Hm.
  destruct (Z.ltb_spec EV_SIZE_MAX (body_size (body q))) as [Hlt|]; [unfold EV_SIZE_MAX in Hlt; lia|].
  destruct (Z.ltb_spec EV_SIZE_MAX (u64 (ntoread (body q)))) as [Hlt|]; [pose proof (u64_max (ntoread (body q))); lia|].
  rewrite andb_false_r. cbn [orb mbind option_bind negb]. by destruct (ntoread (body q) =? 0).
Qed.

Lemma set_input_twice l l' k : set_con_input l (set_con_input l' k) = set_con_input l k.
Proof. done. Qed.
Lemma set_input_same k : set_con_input (con_input k) k = k.
Proof. by destruct k. Qed.

Lemma read_trailer_cut k q x y r :
  unlimited (settings k) → state k = EVCON_READING_TRAILER →
  evhttp_read_trailer (set_con_input x k) q = Some r →
  evhttp_read_trailer (set_con_input (x ++ y) k) q = resume r y.
Proof.
  intros Hu Hst. unfold evhttp_read_trailer. cbn [settings con_input set_con_input].
  destruct (evhttp_parse_headers_ (Some (settings k)) q x) as [[[q1 l1] st]|] eqn:E; [|done].
  rewrite (headers_cut _ _ Hu _ y _ E). cbn [mbind option_bind continue].
  destruct st; intros [= <-]; cbn [resume con_input set_con_input]; rewrite ?set_input_twice; try done.
  - unfold evhttp_read_cb. cbn [state set_con_input]. by rewrite Hst.
  - by apply headers_status in E.
Qed.

Lemma u64_id n : 0 <= n < 2 ^ 63 → u64 n = n.
Proof. intros. apply u64_small. lia. Qed.

Lemma read_body_cut k q x y r :
  unlimited (settings k) → state k = EVCON_READING_BODY → zlen (x ++ y) <= EV_SSIZE_MAX →
  body_wf (body q) (zlen (x ++ y)) →
  evhttp_read_body None (set_con_input x k) q = Some r →
  evhttp_read_body None (set_con_input (x ++ y) k) q = resume r y.
Proof.
  intros Hu Hst Hl (H0 & Hs & Hnt & Hc). pose proof (zlen_nonneg x). pose proof (zlen_nonneg y).
  pose proof (zlen_app x y) as Happ. unfold evhttp_read_body. destruct Hu as [Hu1 Hu2].
  cbn [settings con_input set_con_input]. rewrite Hu2. destruct (chunked (body q)) eqn:Ec.
  { destruct (evhttp_handle_chunked_read None EV_SIZE_MAX q x) as [[[q1 l1] st]|] eqn:E; [|done].
    rewrite (chunked_cut (S (rounds q x)) x q y _ ltac:(lia) Hl E). cbn [mbind option_bind continue].
    destruct st; cbn [mbind option_bind]; rewrite ?set_input_twice.
    - intros Hr. apply (read_trailer_cut (set_state EVCON_READING_TRAILER k) _ l1 y); [done|done|exact Hr].
    - pose proof (chunked_waiting (S (rounds q x)) q x q1 l1 ltac:(lia) ltac:(lia)) as Hw.
      destruct Hw as (Hc1 & Hn1 & Hs1); [by split_and!; [|auto|lia|lia]|done|].
      rewrite body_moved_flat by done. destruct (Z.eqb_spec (ntoread (body q1)) 0); [done|].
      intros [= <-]. cbn [resume con_input set_con_input]. rewrite set_input_twice.
      unfold evhttp_read_cb. cbn [state set_con_input]. rewrite Hst. unfold evhttp_read_body.
      cbn [settings con_input set_con_input]. rewrite Hc1, Hu2.
      destruct (evhttp_handle_chunked_read None EV_SIZE_MAX q1 (l1 ++ y)) as [[[q2 l2] st2]|]; [|done].
      cbn [mbind option_bind]. by destruct st2.
    - intros [= <-]. cbn [resume con_input set_con_input]. by rewrite set_input_twice.
    - intros [= <-]. cbn [resume con_input set_con_input]. by rewrite set_input_twice.
    - intros [= <-]. cbn [resume con_input set_con_input]. by rewrite set_input_twice. }
  rewrite (bool_decide_eq_false_2 (is_Some None)) by (by intros []). cbn [orb]. cbv zeta.
  cbn [eb_length eb_add_buffer eb_remove_buffer flat_queue mbind option_bind].
  destruct (Z.ltb_spec (ntoread (body q)) 0) as [Hneg|Hneg].
  - assert (∀ z, 0 <= z <= zlen (x ++ y) → u64 (body_size (body q) + z) = body_size (body q) + z) as Hu.
    { intros z Hz. apply u64_small. lia. }
    rewrite !Hu by lia.
    destruct (Z.ltb_spec (body_size (body q) + zlen x) (body_size (body q))); [lia|].
    destruct (Z.ltb_spec (body_size (body q) + zlen (x ++ y)) (body_size (body q))); [lia|].
    rewrite !set_input_twice. rewrite !body_moved_flat by (split; done || (cbn; rewrite ?Hu by lia; lia)).
    cbn [body upd_body set_body ntoread set_input_buffer set_body_size].
    destruct (Z.eqb_spec (ntoread (body q)) 0); [lia|]. intros [= <-].
    cbn [resume con_input set_con_input app]. rewrite set_input_twice.
    unfold evhttp_read_cb. cbn [state set_con_input]. rewrite Hst. unfold evhttp_read_body.
    cbn [settings con_input set_con_input body upd_body set_body ntoread chunked set_input_buffer set_body_size body_size input_buffer].
    rewrite Ec. destruct (Z.ltb_spec (ntoread (body q)) 0); [|lia].
    cbn [eb_length eb_add_buffer flat_queue mbind option_bind].
    rewrite (Hu (zlen x)), <- Z.add_assoc, <- Happ, Hu by lia.
    destruct (Z.ltb_spec (body_size (body q) + zlen (x ++ y)) (body_size (body q) + zlen x)); [lia|].
    rewrite set_input_twice. unfold upd_body.
    cbn [body set_body body_size set_body_size set_input_buffer]. rewrite !(Hu (zlen x)), <- Z.add_assoc, <- Happ, Hu by lia.
    rewrite body_moved_flat by (done || (cbn; lia)). cbn [body set_body ntoread set_input_buffer set_body_size].
    destruct (Z.eqb_spec (ntoread (body q)) 0); [lia|]. unfold set_body, set_body_size, set_input_buffer. cbn.
    by rewrite app_assoc.
  - rewrite (u64_id (ntoread (body q))) by lia.
    destruct (Z.leb_spec (ntoread (body q)) (zlen x)) as [Hle|Hlt].
    + destruct (Z.leb_spec (ntoread (body q)) (zlen (x ++ y))); [|lia].
      assert ((if ntoread (body q) <? zlen x then ntoread (body q) else zlen x) = ntoread (body q)) as -> by (case_match; lia).
      assert ((if ntoread (body q) <? zlen (x ++ y) then ntoread (body q) else zlen (x ++ y)) = ntoread (body q)) as ->
        by (case_match; lia).
      rewrite ztake_app_le, zdrop_app_le by lia. rewrite !set_input_twice.
      rewrite !body_moved_flat by (split; done || (cbn; apply u64_range || idtac)).
      cbn [body upd_body set_body ntoread set_input_buffer set_body_size set_ntoread]. rewrite Z.sub_diag.
      change (i64 0 =? 0) with true. cbn [resume]. intros [= <-]. cbn [resume con_input set_con_input]. by rewrite set_input_twice.
    + rewrite body_moved_flat by (split; done || (cbn; lia)).
      destruct (Z.eqb_spec (ntoread (body q)) 0); [lia|]. intros [= <-].
      cbn [resume con_input set_con_input]. rewrite set_input_twice. unfold evhttp_read_cb. cbn [state set_con_input].
      rewrite Hst. unfold evhttp_read_body. cbn [settings con_input set_con_input]. rewrite Ec.
      destruct (Z.ltb_spec (ntoread (body q)) 0); [lia|].
      rewrite (bool_decide_eq_false_2 (is_Some None)) by (by intros []). cbn [orb]. cbv zeta.
      cbn [eb_length flat_queue]. by rewrite (u64_id (ntoread (body q))) by lia.
Qed.

(** What is in the output does not matter. *)
Lemma agree_refl o : agree o o.
Proof. done. Qed.
Lemma agree_sym o o' : agree o o' → agree o' o.
Proof. by symmetry. Qed.

Lemma read_trailer_out k q out : agree (evhttp_read_trailer (set_con_output out k) q) (evhttp_read_trailer k q).
Proof.
  unfold evhttp_read_trailer. cbn [settings con_input set_con_output].
  destruct (evhttp_parse_headers_ _ q (con_input k)) as [[[q1 l1] st]|]; [|done]. by destruct st.
Qed.
Lemma body_moved_out k q out : agree (body_moved None (set_con_output out k) q) (body_moved None k q).
Proof.
  unfold body_moved. cbn [settings set_con_output]. destruct (_ || _).
  - unfold evhttp_lingering_fail, evhttp_lingering_close. cbn [settings con_input set_con_output].
    destruct (has _ _); [|done]. cbn [eb_drain flat_queue mbind option_bind]. by destruct (_ =? 0).
  - cbn [mbind option_bind negb]. by destruct (_ =? 0).
Qed.
Lemma read_body_out k q out : agree (evhttp_read_body None (set_con_output out k) q) (evhttp_read_body None k q).
Proof.
  unfold evhttp_read_body. cbn [settings con_input set_con_output]. destruct (chunked (body q)).
  - destruct (evhttp_handle_chunked_read None _ q (con_input k)) as [[[q1 l1] st]|]; [|done].
    cbn [mbind option_bind]. destruct st; try done.
    + apply (read_trailer_out (set_state EVCON_READING_TRAILER (set_con_input l1 k))).
    + apply (body_moved_out (set_con_input l1 k)).
  - destruct (ntoread (body q) <? 0).
    + cbv zeta. destruct (_ <? body_size (body q)); [done|]. apply (body_moved_out (set_con_input [] k)).
    + destruct (_ || _); [|apply body_moved_out]. cbn [eb_remove_buffer flat_queue mbind option_bind].
      apply (body_moved_out (set_con_input _ k)).
Qed.
(** The connection on which the body is read: an interim reply may have been sent. *)
Lemma expect_and_read_out k q :
  evhttp_have_expect q true ≠ OTHER → unlimited (settings k) →
  agree (expect_and_read None k q) (evhttp_read_body None k q).
Proof.
  intros Hne [_ Hu]. unfold expect_and_read. destruct (evhttp_have_expect q true); [done| |done].
  rewrite Hu. change (EV_SIZE_MAX <=? 2 ^ 63 - 1) with false. rewrite andb_false_r. cbn [andb].
  destruct (eb_length (con_input k) =? 0); [|done]. unfold evhttp_send_continue.
  cbn [eb_add_printf flat_queue mbind option_bind]. apply read_body_out.
Qed.

Lemma agree_some o o' r : agree o o' → o = Some r → ∃ r', o' = Some r' ∧ erase r = erase r'.
Proof.
  intros Ha ->. unfold agree in Ha. destruct o' as [r'|]; [|done]. exists r'. split; [done|]. by injection Ha.
Qed.

(** ** The whole of a message *)

Definition cut_at (F : evhttp_connection (list Z) → evhttp_request (list Z) → option result) k q x y : Prop :=
  ∀ r, F (set_con_input x k) q = Some r → agree (F (set_con_input (x ++ y) k) q) (resume r y).

Lemma lingering_fail_out k q out :
  agree (evhttp_lingering_fail (set_con_output out k) q) (evhttp_lingering_fail k q).
Proof.
  unfold evhttp_lingering_fail, evhttp_lingering_close. cbn [settings con_input set_con_output].
  destruct (has _ _); [|done]. cbn [eb_drain flat_queue mbind option_bind]. by destruct (_ =? 0).
Qed.
Lemma expect_out k q out : agree (expect_and_read None (set_con_output out k) q) (expect_and_read None k q).
Proof.
  unfold expect_and_read. cbn [settings con_input set_con_output].
  destruct (evhttp_have_expect q true); [apply read_body_out| |done].
  destruct (_ && _ && _); [apply lingering_fail_out|].
  destruct (eb_length (con_input k) =? 0); [|apply read_body_out]. unfold evhttp_send_continue.
  cbn [eb_add_printf flat_queue mbind option_bind con_output set_con_output].
  eapply agree_trans; [apply (read_body_out k)|]. apply agree_sym, (read_body_out k).
Qed.
Lemma get_body_out k q out : agree (evhttp_get_body None (set_con_output out k) q) (evhttp_get_body None k q).
Proof.
  unfold evhttp_get_body. destruct (_ && _); [done|].
  destruct (match evhttp_find_header _ _ with Some _ => _ | None => _ end);
    [apply (expect_out (set_state EVCON_READING_BODY k))|].
  destruct (evhttp_get_body_length q) as [q1 rc]. destruct (rc =? -1); [done|]. destruct (_ && _); [done|].
  apply (expect_out (set_state EVCON_READING_BODY k)).
Qed.
Lemma headers_done_out k q out : agree (headers_done None None (set_con_output out k) q) (headers_done None None k q).
Proof.
  unfold headers_done. change (0 <? 0) with false. cbv iota. destruct (kind q); [apply get_body_out|].
  destruct (_ =? 100); [done|]. destruct (negb _); [done|]. apply get_body_out.
Qed.
Lemma read_header_out k q out :
  agree (evhttp_read_header None None (set_con_output out k) q) (evhttp_read_header None None k q).
Proof.
  unfold evhttp_read_header. cbn [settings con_input set_con_output].
  destruct (evhttp_parse_headers_ _ q (con_input k)) as [[[q1 l1] st]|]; [|done].
  destruct st; try done; apply (headers_done_out (set_con_input l1 k)).
Qed.
Lemma read_cb_out k q out : agree (read_cb (set_con_output out k) q) (read_cb k q).
Proof.
  unfold evhttp_read_cb. cbn [state set_con_output]. destruct (state k); try done.
  - unfold evhttp_read_firstline. cbn [settings con_input set_con_output].
    destruct (evhttp_parse_firstline_ _ _ q (con_input k)) as [[[q1 l1] st]|]; [|done].
    destruct st; try done; apply (read_header_out (set_state EVCON_READING_HEADERS (set_con_input l1 k))).
  - apply read_header_out.
  - apply read_body_out.
  - apply read_trailer_out.
Qed.

Lemma resume_erase r r' y : erase r = erase r' → agree (resume r y) (resume r' y).
Proof.
  destruct r as [[k q] nx], r' as [[k' q'] nx']. cbn [erase]. intros E. injection E as Es Et Ei -> ->.
  assert (set_con_input (con_input k ++ y) k = set_con_output (con_output k) (set_con_input (con_input k' ++ y) k')) as Ek.
  { destruct k, k'. simpl in *. by subst. }
  cbn [resume]. rewrite Ek. destruct nx'; try done. apply read_cb_out.
Qed.

Lemma expect_cut k q x y :
  unlimited (settings k) → state k = EVCON_READING_BODY → zlen (x ++ y) <= EV_SSIZE_MAX →
  body_wf (body q) (zlen (x ++ y)) → cut_at (expect_and_read None) k q x y.
Proof.
  intros Hu Hst Hl Hwf r Hr. destruct (evhttp_have_expect q true) eqn:Ee.
  3:{ unfold expect_and_read in *. rewrite Ee in *. by injection Hr as <-. }
  all: assert (evhttp_have_expect q true ≠ OTHER) as Hne by (by rewrite Ee).
  all: destruct (agree_some _ _ _ (expect_and_read_out (set_con_input x k) q Hne Hu) Hr) as (r' & Hr' & He).
  all: eapply agree_trans; [by apply expect_and_read_out|].
  all: rewrite (read_body_cut k q x y r' Hu Hst Hl Hwf Hr'); by apply resume_erase.
Qed.

(** Before the body, nothing of it has been read. *)
Definition no_body (b : message_body (list Z)) : Prop := body_size b = 0 ∧ chunked b = false.

Lemma body_length_wf q n : no_body (body q) → 0 <= n < 2 ^ 63 →
  no_body (body (evhttp_get_body_length q).1) ∧
  ((evhttp_get_body_length q).2 = -1 ∨ body_wf (body (evhttp_get_body_length q).1) n).
Proof.
  intros [Hs Hc] Hn. unfold evhttp_get_body_length, no_body, body_wf.
  assert (∀ m, m < 2 ^ 63 → 0 <= body_size (body q) ∧ body_size (body q) + (if chunked (body q) then 0 else n) < 2 ^ 64 ∧
    m < 2 ^ 63 ∧ (chunked (body q) = true → m ≠ 0)) as Hm.
  { intros m Hm. rewrite Hs, Hc. split_and!; [lia|lia|done|done]. }
  destruct (evhttp_find_header (input_headers q) (str "Content-Length")) as [cl|].
  - assert ((evutil_strtoll cl 10).1 < 2 ^ 63) as Hb.
    { unfold evutil_strtoll, strtol. destruct (sign (skip_space cl)) as [neg t]. repeat case_match; simpl; lia. }
    destruct (evutil_strtoll cl 10) as [v e]. simpl in Hb. destruct (_ || _ || _); simpl; [auto|]. split; [done|]. right. by apply Hm.
  - destruct (evhttp_find_header (input_headers q) (str "Connection")) as [cn|];
      [destruct (negb (evutil_ascii_strcasecmp cn (str "Close") =? 0))|]; simpl; (split; [done|]); right; apply Hm; lia.
Qed.

Lemma get_body_cut k q x y :
  unlimited (settings k) → zlen (x ++ y) <= EV_SSIZE_MAX → no_body (body q) → cut_at (evhttp_get_body None) k q x y.
Proof.
  intros Hu Hl Hnb r. pose proof (zlen_nonneg (x ++ y)). unfold evhttp_get_body.
  destruct (_ && negb _) eqn:E1; [by intros [= <-]|].
  destruct (match evhttp_find_header _ _ with Some _ => _ | None => _ end) eqn:E2.
  - intros Hr. apply (expect_cut (set_state EVCON_READING_BODY k)); [done|done|done| |exact Hr].
    destruct Hnb as [Hs _]. unfold body_wf. cbn. rewrite Hs. split_and!; [lia|lia|lia|done].
  - pose proof (body_length_wf q (zlen (x ++ y)) Hnb) as Hw. unfold EV_SSIZE_MAX in Hl. specialize (Hw ltac:(lia)).
    destruct (evhttp_get_body_length q) as [q1 rc]. destruct Hw as [Hnb1 Hw]. simpl in Hnb1, Hw.
    destruct (Z.eqb_spec rc (-1)); [by intros [= <-]|].
    destruct Hw as [Hw|Hw]; [done|].
    destruct (match kind q with EVHTTP_REQUEST => true | EVHTTP_RESPONSE => false end && (ntoread (body q1) <? 1)).
    { by intros [= <-]. }
    intros Hr. by apply (expect_cut (set_state EVCON_READING_BODY k)).
Qed.
Lemma headers_done_cut k q x y :
  unlimited (settings k) → zlen (x ++ y) <= EV_SSIZE_MAX → no_body (body q) → cut_at (headers_done None None) k q x y.
Proof.
  intros Hu Hl Hnb r. unfold headers_done. change (0 <? 0) with false. cbv iota.
  destruct (kind q); [by apply get_body_cut|].
  destruct (response_code (first q) =? 100); [by intros [= <-]|].
  destruct (negb (evhttp_response_needs_body q)); [by intros [= <-]|]. by apply get_body_cut.
Qed.
Lemma read_header_cut k q x y :
  unlimited (settings k) → state k = EVCON_READING_HEADERS → zlen (x ++ y) <= EV_SSIZE_MAX → no_body (body q) →
  cut_at (evhttp_read_header None None) k q x y.
Proof.
  intros Hu Hst Hl Hnb r. unfold evhttp_read_header. cbn [settings con_input set_con_input].
  destruct (evhttp_parse_headers_ (Some (settings k)) q x) as [[[q1 l1] st]|] eqn:E; [|done].
  rewrite (headers_cut _ _ Hu _ y _ E). cbn [mbind option_bind continue].
  pose proof (headers_shrink _ _ Hu _ _ _ _ E) as Hl1.
  pose proof (parse_headers_frame _ _ _ _ _ _ E) as (_ & _ & _ & Eb & _).
  rewrite zlen_app in Hl.
  destruct st; cbn [mbind option_bind].
  - intros Hr. rewrite set_input_twice in *. apply headers_done_cut; [done|rewrite zlen_app; lia|by rewrite Eb|exact Hr].
  - intros [= <-]. cbn [resume con_input set_con_input]. rewrite set_input_twice. unfold evhttp_read_cb.
    cbn [state set_con_input]. by rewrite Hst.
  - by intros [= <-].
  - by apply headers_status in E.
  - by intros [= <-].
Qed.

Lemma read_firstline_cut k q x y :
  unlimited (settings k) → state k = EVCON_READING_FIRSTLINE → zlen (x ++ y) <= EV_SSIZE_MAX → no_body (body q) →
  cut_at (evhttp_read_firstline words0 None None) k q x y.
Proof.
  intros Hu Hst Hl Hnb r. unfold evhttp_read_firstline. cbn [settings con_input set_con_input].
  unfold evhttp_parse_firstline_. cbn [eb_readln eb_length flat_queue].
  destruct (eol_at EVBUFFER_EOL_CRLF x) as [[d n]|] eqn:E.
  - rewrite (eol_crlf_app x y _ _ E). pose proof (eol_crlf_pos _ _ _ E) as Hp. cbn [mbind option_bind].
    rewrite zlen_app in Hl. pose proof (zlen_nonneg y). pose proof (zlen_zdrop_le (d + n) x).
    rewrite ztake_app_le, zdrop_app_le by lia. cbv zeta.
    destruct (too_long _ d); [by intros [= <-]|].
    match goal with |- context [match ?p with Ret _ _ => _ | Error _ => _ | Fault => _ end] => destruct p as [u v|v|] end;
      cbn [mbind option_bind]; [|by intros [= <-]|done].
    intros Hr. rewrite set_input_twice in *.
    apply (read_header_cut (set_state EVCON_READING_HEADERS k)); [done|done|rewrite zlen_app; lia|done|exact Hr].
  - cbn [mbind option_bind].
    rewrite (not_too_long (settings k) (zlen x)) by (done || (pose proof (zlen_app x y); pose proof (zlen_nonneg y); unfold EV_SSIZE_MAX, EV_SIZE_MAX in *; lia)).
    cbn [mbind option_bind]. intros [= <-]. cbn [resume con_input set_con_input]. rewrite set_input_twice.
    unfold evhttp_read_cb. cbn [state set_con_input]. rewrite Hst. unfold evhttp_read_firstline, evhttp_parse_firstline_.
    cbn [settings con_input set_con_input eb_readln eb_length flat_queue]. done.
Qed.

(** A connection that waits for a message, or is in the middle of one. *)
Definition reading k q (n : Z) : Prop :=
  unlimited (settings k) ∧ n <= EV_SSIZE_MAX ∧
  match state k with
  | EVCON_READING_FIRSTLINE | EVCON_READING_HEADERS => no_body (body q)
  | EVCON_READING_BODY => body_wf (body q) n
  | EVCON_READING_TRAILER => True
  | _ => False
  end.
Lemma read_cb_cut k q x y : reading k q (zlen (x ++ y)) → cut_at read_cb k q x y.
Proof.
  intros (Hu & Hl & Hst) r Hr. unfold evhttp_read_cb in Hr |- *. cbn [state set_con_input] in *.
  destruct (state k) eqn:Es; try done.
  - by apply read_firstline_cut.
  - by apply read_header_cut.
  - rewrite (read_body_cut k q x y r Hu Es Hl Hst Hr). done.
  - rewrite (read_trailer_cut k q x y r Hu Es Hr). done.
Qed.

(** ** Feeding pieces *)

Lemma reading_mono k q n m : reading k q n → 0 <= m <= n → reading k q m.
Proof.
  intros (Hu & Hl & Hst) Hm. split; [done|]. split; [lia|]. destruct (state k); try done.
  destruct Hst as (H1 & H2 & H3). split; [done|]. split; [|done]. destruct (chunked (body q)); lia.
Qed.
End cut.

(** The reads that happen while more is wanted: the result, and the pieces left. *)
Section feed.
Context {MM : Malloc} {B : Type} {EB : EvbufferOps B} (words0 : list Z).
Fixpoint feed (c : evhttp_connection B) (r : evhttp_request B) (pieces : list (list Z))
  : option (evhttp_connection B * evhttp_request B * next * list (list Z)) :=
  match pieces with
  | [] => Some (c, r, Waiting, [])
  | p :: pieces =>
      '(b, _) ← eb_add (con_input c) p;
      '(c, r, nx) ← evhttp_read_cb words0 None None (set_con_input b c) r;
      match nx with
      | Waiting => feed c r pieces
      | _ => Some (c, r, nx, pieces)
      end
  end.
End feed.

Section pieces.
Context {MM : Malloc} (words0 : list Z).
Implicit Types (q : evhttp_request (list Z)) (x y : list Z) (k : evhttp_connection (list Z)).

(** The result with the pieces that were left behind the input. *)
Definition with_rest (r : result) (rest : list (list Z)) : result :=
  let '(k, q, nx) := r in (set_con_input (con_input k ++ concat rest) k, q, nx).

Lemma feed_snoc k q ps p :
  feed words0 k q (ps ++ [p]) =
  '(r, rest) ← feed words0 k q ps;
  match r.2 with
  | Waiting => r' ← resume words0 r p; Some (r', [])
  | _ => Some (r, rest ++ [p])
  end.
Proof.
  revert k q. induction ps as [|p1 ps IH]; intros k q; cbn [feed app mbind option_bind eb_add flat_queue].
  - cbn [snd resume]. destruct (evhttp_read_cb words0 None None _ q) as [[[k1 q1] nx]|]; [|done].
    cbn [mbind option_bind]. by destruct nx.
  - destruct (evhttp_read_cb words0 None None _ q) as [[[k1 q1] nx]|]; [|done]. cbn [mbind option_bind].
    destruct nx; [apply IH|done..].
Qed.

Lemma feed_waiting_rest k q ps k1 q1 rest : feed words0 k q ps = Some (k1, q1, Waiting, rest) → rest = [].
Proof.
  revert k q. induction ps as [|p ps IH]; intros k q; cbn [feed]; [by intros [= _ _ <-]|].
  cbn [eb_add flat_queue mbind option_bind].
  destruct (evhttp_read_cb words0 None None _ q) as [[[k2 q2] nx]|]; [|done]. cbn [mbind option_bind].
  destruct nx; [apply IH|done..].
Qed.
Lemma with_rest_nil r : with_rest r [] = r.
Proof. destruct r as [[k q] nx]. cbn [with_rest concat]. rewrite app_nil_r. by destruct k. Qed.

Lemma feed_whole k q p ps r rest :
  reading k q (zlen (con_input k ++ concat (p :: ps))) → feed words0 k q (p :: ps) = Some (r, rest) →
  agree (evhttp_read_cb words0 None None (set_con_input (con_input k ++ concat (p :: ps)) k) q) (Some (with_rest r rest)).
Proof.
  revert r rest. induction ps as [|p2 ps IH] using rev_ind; intros r rest Hk.
  - cbn [feed eb_add flat_queue mbind option_bind concat]. rewrite app_nil_r.
    destruct (evhttp_read_cb words0 None None _ q) as [[[k1 q1] nx]|]; [|done]. cbn [mbind option_bind].
    assert (with_rest (k1, q1, nx) [] = (k1, q1, nx)) as Er.
    { cbn [with_rest concat]. rewrite app_nil_r. by destruct k1. }
    intros E. destruct nx; injection E as <- <-; by rewrite Er.
  - change (p :: ps ++ [p2]) with ((p :: ps) ++ [p2]) in *. rewrite feed_snoc.
    set (x := con_input k ++ concat (p :: ps)) in *.
    assert (con_input k ++ concat ((p :: ps) ++ [p2]) = x ++ p2) as Ex.
    { subst x. rewrite concat_app. cbn [concat]. by rewrite app_nil_r, app_assoc. }
    rewrite Ex in *. pose proof (zlen_app x p2). pose proof (zlen_nonneg x). pose proof (zlen_nonneg p2).
    destruct (feed words0 k q (p :: ps)) as [[r1 rest1]|] eqn:Ef; [|done]. cbn [mbind option_bind].
    specialize (IH r1 rest1 (reading_mono k q _ (zlen x) Hk ltac:(lia)) eq_refl).
    apply agree_sym in IH. destruct (agree_some _ _ _ IH eq_refl) as (rw & Hw & He).
    pose proof (read_cb_cut words0 k q x p2 Hk rw Hw) as Hcut. intros E. eapply agree_trans; [exact Hcut|].
    destruct r1 as [[k1 q1] nx1]. cbn [snd] in E.
    assert (nx1 = Waiting ∧ (∃ r', resume words0 (k1, q1, nx1) p2 = Some r' ∧ r = r' ∧ rest = []) ∨
      nx1 ≠ Waiting ∧ r = (k1, q1, nx1) ∧ rest = rest1 ++ [p2]) as [(-> & r' & Hr' & -> & ->)|(Hnx & -> & ->)].
    { destruct nx1; try (right; injection E as <- <-; by split_and!).
      left. split; [done|]. destruct (resume words0 (k1, q1, Waiting) p2) as [r'|]; [|done]. injection E as <- <-. eauto. }
    + assert (rest1 = []) as -> by (by apply feed_waiting_rest in Ef).
      rewrite with_rest_nil in *. eapply agree_trans; [apply resume_erase; symmetry; exact He|]. by rewrite Hr'.
    + destruct rw as [[kw qw] nxw]. cbn [with_rest erase] in He. injection He as Es Et Ei -> ->.
      assert (∀ r, match nxw with Waiting => r | _ => Some (set_con_input (con_input kw ++ p2) kw, qw, nxw) end =
        Some (set_con_input (con_input kw ++ p2) kw, qw, nxw)) as Em by (by destruct nxw).
      cbn [resume]. rewrite Em. unfold agree. simpl. do 3 f_equal. destruct k1, kw. simpl in *. subst.
      rewrite concat_app. simpl. by rewrite app_nil_r, app_assoc.
Qed.
End pieces.
