(* ===== verification/HttpRead.v ===== *)
(** * Reading never fails, and pieces on real buffers

    On any bytes, reading a message ends in one of its outcomes and stays inside
    the memory it has; a message that arrives in pieces in a real buffer is read
    as its pieces are on flat queues. *)
From S2P Require Import Prelude Outcome Lines Evutil InetDefs Inet EvbufferDefs EvbufferIface EvbufferImpl HttpUriDefs HttpText HttpUri HttpUriParse HttpMsgDefs HttpConnDefs HttpFlat HttpCut.

Lemma cstr_string l : Forall byte l → string (cstr l).
Proof.
  induction 1 as [|c l Hc _ IH]; simpl; [by constructor|]. destruct (Z.eqb_spec c 0); [by constructor|]. by constructor.
Qed.
Lemma string_sub s t : string s → (∀ c, c ∈ t → c ∈ s) → string t.
Proof. unfold string. rewrite !Forall_forall. auto. Qed.
Lemma string_take n s : string s → string (take n s).
Proof. intros Hs. by apply Forall_take. Qed.
Lemma string_drop n s : string s → string (drop n s).
Proof. intros Hs. by apply Forall_drop. Qed.

Lemma strsep_string s c t o : string s → strsep s c = (t, o) → string t ∧ (∀ r, o = Some r → string r).
Proof.
  intros Hs. unfold strsep. destruct (strchr s c) as [n|]; intros [= <- <-].
  - split; [by apply string_take|]. intros r [= <-]. by apply string_drop.
  - by split.
Qed.

(** ** Headers *)

Section total.
Context {MM : Malloc} (words0 : list Z) (Hw0 : zlen words0 = 8) (Hw : Forall word16 words0).
Implicit Types (q : evhttp_request (list Z)) (l : list Z) (k : evhttp_connection (list Z)).

(** The value of the last header with a line put behind it. *)
Lemma append_last headers key value line :
  last headers = Some (key, value) →
  evhttp_append_to_last_header headers line =
  let line := evutil_rtrim_lws_ (strspn line [32; 9]) in
  match mm_malloc (zlen value + zlen line + 2) with
  | None => Some (headers, -1)
  | Some _ => Some (removelast headers ++ [(key, cstr (value ++ [32] ++ line ++ [0]))], 0)
  end.
Proof.
  intros E. unfold evhttp_append_to_last_header, mm_realloc. rewrite E. cbv zeta.
  set (t := evutil_rtrim_lws_ _). pose proof (zlen_nonneg value). pose proof (zlen_nonneg t).
  destruct (mm_malloc (zlen value + zlen t + 2)) as [mem|] eqn:Em; [|done].
  apply mm_malloc_len in Em; [|lia]. rewrite memcpy_at_ok by lia. cbn [mbind option_bind].
  rewrite ztake_0, app_nil_l, Z.add_0_l.
  set (m1 := value ++ zdrop (zlen value) mem).
  assert (zlen m1 = zlen mem) as Hm1 by (subst m1; rewrite zlen_app, zlen_zdrop by lia; lia).
  assert (zset m1 (zlen value) 32 = Some (value ++ [32] ++ zdrop (zlen value + 1) mem)) as ->.
  { rewrite zset_in_range by lia. f_equal. subst m1.
    assert (zdrop (zlen value) mem ≠ []) as Hne.
    { intros E0. apply (f_equal zlen) in E0. rewrite zlen_zdrop in E0 by lia. change (zlen (@nil Z)) with 0 in E0. lia. }
    rewrite <- (zdrop_zdrop 1 (zlen value) mem) by lia.
    destruct (zdrop (zlen value) mem) as [|c r]; [done|]. change (zdrop 1 (c :: r)) with r.
    unfold zlen. rewrite Nat2Z.id, insert_app_r_alt by lia. by rewrite Nat.sub_diag. }
  cbn [mbind option_bind].
  assert (zlen (value ++ [32]) = zlen value + 1) as Hv by (rewrite zlen_app; done).
  assert (zlen [32] = 1) as E32 by done. assert (zlen [0] = 1) as E0 by done.
  rewrite app_assoc, <- Hv.
  rewrite memcpy_at_ok by (rewrite ?zlen_app, ?zlen_zdrop by (rewrite ?zlen_app; lia); rewrite ?zlen_app; lia).
  cbn [mbind option_bind]. rewrite ztake_app_le, ztake_all by lia.
  rewrite zdrop_app_ge, zdrop_zdrop by (rewrite ?zlen_app; lia).
  rewrite zdrop_all by (rewrite ?zlen_app; lia).
  by rewrite app_nil_r, <- !app_assoc.
Qed.
Lemma append_total headers line : ∃ r, evhttp_append_to_last_header headers line = Some r.
Proof.
  destruct (last headers) as [[key value]|] eqn:E.
  - rewrite (append_last _ _ _ _ E). cbv zeta. destruct (mm_malloc _); eauto.
  - unfold evhttp_append_to_last_header. rewrite E. eauto.
Qed.
Lemma header_line_total headers line : ∃ r, header_line headers line = Some r.
Proof.
  unfold header_line. destruct (blank (hd 0 line)); [apply append_total|].
  destruct (strsep line 58) as [key [value|]]; eauto.
Qed.

Lemma headers_loop_total fuel evcon q l : (length l < fuel)%nat → ∃ r, headers_loop fuel evcon q l = Some r.
Proof.
  revert q l. induction fuel as [|fuel IH]; intros q l Hf; [lia|]. cbn [headers_loop eb_readln eb_length flat_queue].
  destruct (eol_at EVBUFFER_EOL_CRLF l) as [[d n]|] eqn:E; cbn [mbind option_bind].
  - apply eol_crlf_pos in E. pose proof (zdrop_shorter (d + n) l ltac:(lia)).
    destruct (too_long _ _); [eauto|]. case_bool_decide; [eauto|].
    destruct (header_line_total (input_headers (set_headers_size (u64 (headers_size q + d)) q)) (cstr (ztake d l ++ [0])))
      as [[hs rc] ->].
    cbn [mbind option_bind]. destruct (rc =? -1); [eauto|]. apply IH. lia.
  - destruct (too_long _ _); eauto.
Qed.
Lemma parse_headers_total evcon q l : ∃ r, evhttp_parse_headers_ evcon q l = Some r.
Proof. apply headers_loop_total. cbn [eb_length flat_queue]. unfold zlen. rewrite Nat2Z.id. lia. Qed.

(** ** The first line *)

Lemma uri_flags_total text flags : string text → ∃ r, evhttp_uri_parse_with_flags words0 text flags = Some r.
Proof.
  intros Hs. unfold evhttp_uri_parse_with_flags. destruct (mm_malloc _); [|eauto].
  unfold mm_strdup. destruct (_ =? _); [eauto|]. destruct (mm_malloc _); [|eauto].
  pose proof (uri_body_sound words0 Hw0 Hw flags text Hs) as H. unfold pwp in H.
  destruct (uri_body words0 flags text (empty_uri flags)); simpl; eauto. done.
Qed.
Lemma uri_authority_total text : string text → ∃ r, evhttp_uri_parse_authority words0 text = Some r.
Proof.
  intros Hs. unfold evhttp_uri_parse_authority. destruct (mm_malloc _); [|eauto].
  destruct (end_of_authority_split text) as (a & r & E & Ea & Hr). rewrite Ea.
  assert (0 <= zlen a <= zlen text) as Hrange by (rewrite E, zlen_app; pose proof (zlen_nonneg a); pose proof (zlen_nonneg r); lia).
  assert (not_hex_next (zdrop (zlen a) text)) as Hx.
  { rewrite E, zdrop_app_ge, Z.sub_diag, zdrop_0 by lia. by apply authority_end_not_hex. }
  assert (pwp (_ ← parse_authority words0 text (zlen a); strdup_or_err [] set_path) (λ _ _, True) (λ _, True) (empty_uri 0)) as H.
  { pwp_step. eapply pwp_mono; [by apply parse_authority_sound| |done]. intros _ st _.
    eapply pwp_mono; [apply strdup_or_err_ok|done|done]. }
  unfold pwp in H. destruct ((_ ← parse_authority words0 text (zlen a); strdup_or_err [] set_path) (empty_uri 0));
    simpl; eauto. done.
Qed.

Definition has_server (evcon : option con_settings) : Prop := ∃ s http, evcon = Some s ∧ http_server s = Some http.
Abbreviation safe m l := (pwp m (λ _ _, True) (λ _, True) l).
Lemma version_safe version (l : first_line) : safe (evhttp_parse_http_version version) l.
Proof.
  unfold evhttp_parse_http_version. destruct (sscanf_version version) as [[ma mi]|]; [|done].
  repeat pwp_step; done.
Qed.
Lemma store_safe s set (l : first_line) : safe (store_dup s set) l.
Proof. unfold store_dup. pwp_step. pwp_step. by destruct (mm_strdup s). Qed.
Lemma request_line_safe evcon line len (l : first_line) :
  has_server evcon → Forall byte line → safe (evhttp_parse_request_line words0 evcon line len) l.
Proof.
  intros (s & http & -> & Hserver) Hb. unfold evhttp_parse_request_line. pwp_step. pwp_step; [done|]. clear H.
  set (t := reverse _).
  assert (Forall byte t) as Ht.
  { subst t. apply Forall_forall. intros c Hc. rewrite elem_of_reverse in Hc. rewrite Forall_forall in Hb. apply Hb.
    assert (∀ m, strip_blanks m ⊆ m) as Hsub.
    { induction m as [|d m IH]; simpl; [done|]. destruct (d =? 32); set_solver. }
    apply Hsub in Hc. rewrite elem_of_reverse in Hc. 
    unfold ztake in Hc. apply elem_of_take in Hc as (i & Hi & _). by eapply list_elem_of_lookup_2. }
  assert (string (cstr t)) as Hs by by apply cstr_string.
  destruct (strsep (cstr t) 32) as [method [uri|]] eqn:Esep; [|done].
  apply strsep_string in Esep as [_ Huri]; [|done]. specialize (Huri uri eq_refl).
  destruct (strrchr uri 32) as [n|]; [|done]. pwp_step. pwp_step; [done|].
  pwp_step. pwp_step. pwp_step. pwp_step. pwp_step. eapply pwp_mono; [apply version_safe| |done]. intros _ l1 _.
  pwp_step. eapply pwp_mono; [apply store_safe| |done]. intros _ l2 _. pwp_step.
  assert (safe (parse_uri_elems words0 (take n uri)) l2) as Helems.
  { unfold parse_uri_elems. pwp_step. pwp_step. pwp_step.
    assert (∃ r, (if type l2 =? EVHTTP_REQ_CONNECT then evhttp_uri_parse_authority words0 (take n uri)
      else evhttp_uri_parse_with_flags words0 (take n uri) EVHTTP_URI_NONCONFORMANT) = Some r) as [r Er].
    { destruct (_ =? _); [apply uri_authority_total|apply uri_flags_total]; by apply string_take. }
    eapply pwp_access; [exact Er|]. pwp_step. pwp_step. by pwp_step. }
  eapply pwp_mono; [exact Helems| |done]. intros _ l3 _. unfold mark_proxy. pwp_step. pwp_step.
  match goal with |- context [match ?o with Some _ => _ | None => _ end] => destruct o as [[sch hn]|] end; [|done].
  pwp_step; [|done]. pwp_step. eapply pwp_access; [cbn [mbind option_bind]; exact Hserver|]. by pwp_step.
Qed.
Lemma response_line_safe line (l : first_line) : safe (evhttp_parse_response_line line) l.
Proof.
  unfold evhttp_parse_response_line. destruct (strsep line 32) as [protocol [line1|]]; [|done].
  destruct (strsep line1 32) as [number rest]. pwp_step. eapply pwp_mono; [apply version_safe| |done]. intros _ l1 _.
  pwp_step. pwp_step. pwp_step. pwp_step. pwp_step. pwp_step; [done|]. apply store_safe.
Qed.

Lemma parse_firstline_total evcon q l :
  (kind q = EVHTTP_REQUEST → has_server evcon) → Forall byte l → ∃ r, evhttp_parse_firstline_ words0 evcon q l = Some r.
Proof.
  intros Hsv Hb. unfold evhttp_parse_firstline_. cbn [eb_readln eb_length flat_queue].
  destruct (eol_at EVBUFFER_EOL_CRLF l) as [[d n]|] eqn:E; cbn [mbind option_bind].
  - destruct (too_long evcon d); [eauto|]. cbv zeta. cbn [kind set_headers_size]. destruct (kind q).
    + pose proof (request_line_safe evcon (ztake d l ++ [0]) d (first (set_headers_size d q)) (Hsv eq_refl)) as Hs.
      assert (Forall byte (ztake d l ++ [0])) as Hb1.
      { apply Forall_app. split; [by apply Forall_take|]. by repeat constructor. }
      specialize (Hs Hb1). unfold pwp in Hs. destruct (evhttp_parse_request_line _ _ _ _ _); [eauto|eauto|done].
    + pose proof (response_line_safe (cstr (ztake d l ++ [0])) (first (set_headers_size d q))) as Hs.
      unfold pwp in Hs. destruct (evhttp_parse_response_line _ _); [eauto|eauto|done].
  - destruct (too_long _ _); eauto.
Qed.

(** ** Bodies *)

(** Callbacks that leave the number of bytes to read alone. *)
Definition polite (cb : option (evhttp_request (list Z) → evhttp_request (list Z))) : Prop :=
  ∀ f q, cb = Some f → ntoread (body (f q)) = ntoread (body q).
Context (cb : option (evhttp_request (list Z) → evhttp_request (list Z))) (Hcb : polite cb).
Context (hcb : option (evhttp_request (list Z) → evhttp_request (list Z) * Z)).

Lemma chunk_complete_total q : ∃ q1 keep, chunk_complete cb q = Some (q1, keep) ∧ ntoread (body q1) = ntoread (body q).
Proof.
  unfold chunk_complete. destruct cb as [f|]; [|eauto]. cbn [eb_drain flat_queue mbind option_bind]. eexists _, _.
  split; [done|]. cbn. rewrite (Hcb f _ eq_refl). done.
Qed.

Lemma chunked_loop_total fuel limit : ∀ q l, (rounds q l < fuel)%nat → ∃ r, chunked_loop cb fuel limit q l = Some r.
Proof.
  induction fuel as [|fuel IH]; intros q l Hf; [lia|].
  cbn [chunked_loop eb_readln eb_length eb_remove_buffer flat_queue]. cbv zeta.
  destruct (Z.eqb_spec (zlen l) 0); [eauto|]. destruct (EV_SSIZE_MAX <? zlen l); [eauto|].
  unfold rounds in Hf. destruct (Z.ltb_spec (ntoread (body q)) 0) as [Hn|Hn].
  - destruct (eol_at EVBUFFER_EOL_CRLF l) as [[d m]|] eqn:E; cbn [mbind option_bind]; [|eauto].
    apply eol_crlf_pos in E. pose proof (zdrop_shorter (d + m) l ltac:(lia)).
    destruct (Z.eqb_spec (ntoread (body q)) 0); [lia|]. case_bool_decide.
    + apply IH. unfold rounds. destruct (Z.eqb_spec (ntoread (body q)) 0); lia.
    + destruct (evutil_strtoll _ 16) as [v endp]. destruct (_ || (v <? 0)); [eauto|]. destruct (_ <? v); [eauto|].
      destruct (limit <? _); [eauto|]. destruct (Z.eqb_spec v 0); [eauto|]. apply IH. unfold rounds.
      cbn [body upd_body set_body ntoread set_ntoread]. destruct (Z.eqb_spec v 0); lia.
  - destruct (EV_SSIZE_MAX <? ntoread (body q)); [eauto|].
    destruct ((0 <? ntoread (body q)) && (zlen l <? ntoread (body q))) eqn:Hm; [eauto|]. cbn [mbind option_bind].
    match goal with |- context [chunk_complete cb ?q'] => destruct (chunk_complete_total q') as (q1 & keep & -> & E1) end.
    cbn [mbind option_bind]. destruct keep; [|eauto]. apply IH. unfold rounds. rewrite E1.
    cbn [body upd_body set_body ntoread set_ntoread set_input_buffer]. simpl Z.eqb.
    destruct (Z.eqb_spec (ntoread (body q)) 0) as [->|]; [rewrite zdrop_0; lia|].
    pose proof (zdrop_shorter (ntoread (body q)) l) as Hz. pose proof (zlen_nonneg l).
    destruct (Z.ltb_spec 0 (ntoread (body q))), (Z.ltb_spec (zlen l) (ntoread (body q))); try done; try lia.
Qed.
Lemma chunked_read_total limit q l : ∃ r, evhttp_handle_chunked_read cb limit q l = Some r.
Proof.
  apply chunked_loop_total. unfold rounds. cbn [eb_length flat_queue]. unfold zlen. rewrite Nat2Z.id. case_match; lia.
Qed.

(** ** Connections *)

Lemma read_trailer_total k q : ∃ r, evhttp_read_trailer k q = Some r.
Proof.
  unfold evhttp_read_trailer. destruct (parse_headers_total (Some (settings k)) q (con_input k)) as [[[q1 l1] st] ->].
  cbn [mbind option_bind]. destruct st; eauto.
Qed.
Lemma lingering_total k q : ∃ r, evhttp_lingering_fail k q = Some r.
Proof.
  unfold evhttp_lingering_fail, evhttp_lingering_close. destruct (has _ _); [|eauto].
  cbn [eb_drain flat_queue mbind option_bind]. destruct (_ =? 0); eauto.
Qed.
Lemma body_moved_total k q : ∃ r, body_moved cb k q = Some r.
Proof.
  unfold body_moved. destruct (_ || _); [apply lingering_total|].
  assert (∃ q1 keep, match cb with
    | Some _ => if 0 <? eb_length (input_buffer (body q)) then chunk_complete cb q else Some (q, true)
    | None => Some (q, true) end = Some (q1, keep)) as (q1 & keep & ->).
  { destruct (chunk_complete_total q) as (q1 & keep & E & _). destruct cb; [|eauto]. case_match; eauto. }
  cbn [mbind option_bind]. destruct keep; cbn [negb]; [|eauto]. destruct (_ =? 0); eauto.
Qed.
Lemma read_body_total k q : ∃ r, evhttp_read_body cb k q = Some r.
Proof.
  unfold evhttp_read_body. destruct (chunked (body q)).
  - destruct (chunked_read_total (max_body_size (settings k)) q (con_input k)) as [[[q1 l1] st] ->].
    cbn [mbind option_bind]. destruct st; eauto using read_trailer_total, body_moved_total.
  - destruct (_ <? 0); [destruct (_ <? body_size (body q)); [eauto|apply body_moved_total]|].
    destruct (_ || _); apply body_moved_total.
Qed.
Lemma expect_total k q : ∃ r, expect_and_read cb k q = Some r.
Proof.
  unfold expect_and_read. destruct (evhttp_have_expect q true); [apply read_body_total| |eauto].
  destruct (_ && _ && _); [apply lingering_total|]. destruct (_ =? 0); apply read_body_total.
Qed.
Lemma get_body_total k q : ∃ r, evhttp_get_body cb k q = Some r.
Proof.
  unfold evhttp_get_body. destruct (_ && negb _); [eauto|].
  destruct (match evhttp_find_header _ _ with Some _ => _ | None => _ end); [apply expect_total|].
  destruct (evhttp_get_body_length q) as [q1 rc]. destruct (rc =? -1); [eauto|].
  destruct (match kind q with EVHTTP_REQUEST => true | EVHTTP_RESPONSE => false end && _); [eauto|apply expect_total].
Qed.
Lemma headers_done_total k q : ∃ r, headers_done cb hcb k q = Some r.
Proof.
  unfold headers_done. destruct (match hcb with Some cb => cb q | None => (q, 0) end) as [q1 rc].
  destruct (rc <? 0); [eauto|]. destruct (kind q1); [apply get_body_total|].
  destruct (_ =? 100); [cbn [eb_add_buffer flat_queue mbind option_bind]; eauto|]. destruct (negb _); [eauto|apply get_body_total].
Qed.
Lemma read_header_total k q : ∃ r, evhttp_read_header cb hcb k q = Some r.
Proof.
  unfold evhttp_read_header. destruct (parse_headers_total (Some (settings k)) q (con_input k)) as [[[q1 l1] st] ->].
  cbn [mbind option_bind]. destruct st; eauto using headers_done_total.
Qed.
(** A request is read by a server. *)
Definition knows_server {B} (k : evhttp_connection B) (q : evhttp_request B) : Prop :=
  state k = EVCON_READING_FIRSTLINE → kind q = EVHTTP_REQUEST → has_server (Some (settings k)).
(** The states in which [evhttp_read_cb] may be called. *)
Definition may_read (s : evhttp_connection_state) : Prop :=
  match s with EVCON_DISCONNECTED | EVCON_CONNECTING | EVCON_WRITING => False | _ => True end.
Lemma read_cb_total k q :
  may_read (state k) → knows_server k q →
  (state k = EVCON_READING_FIRSTLINE → Forall byte (con_input k)) →
  ∃ r, evhttp_read_cb words0 cb hcb k q = Some r.
Proof.
  intros Hst Hsv Hb. unfold evhttp_read_cb, knows_server in *. destruct (state k); try done.
  - eauto.
  - unfold evhttp_read_firstline.
    destruct (parse_firstline_total (Some (settings k)) q (con_input k) (Hsv eq_refl) (Hb eq_refl)) as [[[q1 l1] st] ->].
    cbn [mbind option_bind]. destruct st; eauto using read_header_total.
  - apply read_header_total.
  - apply read_body_total.
  - apply read_trailer_total.
Qed.
End total.

(** ** What waiting leaves alone *)

Definition before_body (s : evhttp_connection_state) : Prop :=
  s = EVCON_READING_FIRSTLINE ∨ s = EVCON_READING_HEADERS.
Definition in_message (s : evhttp_connection_state) : Prop :=
  before_body s ∨ s = EVCON_READING_BODY ∨ s = EVCON_READING_TRAILER.

Section waiting.
Context {MM : Malloc} (words0 : list Z).
Implicit Types (q : evhttp_request (list Z)) (l : list Z) (k : evhttp_connection (list Z)).

(** The connection agrees but for its buffers, and reads the same part or a later one. *)
Definition further (s : evhttp_connection_state) k k1 : Prop :=
  settings k1 = settings k ∧ (state k1 = s ∨ state k1 = EVCON_READING_TRAILER).
Lemma read_trailer_further k q k1 q1 nx :
  evhttp_read_trailer k q = Some (k1, q1, nx) → settings k1 = settings k ∧ state k1 = state k.
Proof.
  unfold evhttp_read_trailer. rewrite bind_Some. intros ([[q2 l2] st] & _ & E). destruct st; by injection E as <- <- <-.
Qed.
Lemma lingering_further k q k1 q1 nx :
  evhttp_lingering_fail k q = Some (k1, q1, nx) → settings k1 = settings k ∧ state k1 = state k.
Proof.
  unfold evhttp_lingering_fail, evhttp_lingering_close. destruct (has _ _); [|by intros [= <- <- <-]].
  cbn [eb_drain flat_queue mbind option_bind]. destruct (_ =? 0); by intros [= <- <- <-].
Qed.
Lemma body_moved_further k q k1 q1 nx :
  body_moved None k q = Some (k1, q1, nx) → settings k1 = settings k ∧ state k1 = state k.
Proof.
  unfold body_moved. destruct (_ || _); [apply lingering_further|]. cbn [mbind option_bind negb].
  destruct (_ =? 0); by intros [= <- <- <-].
Qed.
Lemma read_body_further k q k1 q1 nx :
  evhttp_read_body None k q = Some (k1, q1, nx) → further (state k) k k1.
Proof.
  unfold evhttp_read_body, further. destruct (chunked (body q)).
  - rewrite bind_Some. intros ([[q2 l2] st] & _ & E). destruct st; try (injection E as <- <- <-; by auto).
    + apply read_trailer_further in E as [-> ->]. auto.
    + apply body_moved_further in E as [-> ->]. auto.
  - destruct (_ <? 0).
    + cbn [eb_add_buffer flat_queue mbind option_bind]. cbv zeta. destruct (_ <? body_size (body q)); [intros [= <- <- <-]; auto|].
      intros E. apply body_moved_further in E as [-> ->]. auto.
    + cbn [eb_remove_buffer flat_queue mbind option_bind]. destruct (_ || _); intros E;
        apply body_moved_further in E as [-> ->]; auto.
Qed.
Lemma expect_further k q k1 q1 nx :
  expect_and_read None k q = Some (k1, q1, nx) → further (state k) k k1.
Proof.
  unfold expect_and_read. destruct (evhttp_have_expect q true).
  - apply read_body_further.
  - destruct (_ && _ && _). { intros E. apply lingering_further in E as [? ?]. split; auto. }
    rewrite bind_Some. intros (k2 & E2 & E). apply read_body_further in E as [E3 E4].
    assert (settings k2 = settings k ∧ state k2 = state k) as [Es Et].
    { destruct (_ =? 0); [|by injection E2 as <-]. unfold evhttp_send_continue in E2.
      cbn [eb_add_printf flat_queue mbind option_bind] in E2. by injection E2 as <-. }
    unfold further. rewrite E3, Es, <- Et. auto.
  - intros [= <- <- <-]. split; auto.
Qed.
Lemma headers_done_waiting k q k1 q1 :
  headers_done None None k q = Some (k1, q1, Waiting) → further EVCON_READING_BODY k k1.
Proof.
  assert (∀ k q, evhttp_get_body None k q = Some (k1, q1, Waiting) → further EVCON_READING_BODY k k1) as Hget.
  { clear. intros k q. unfold evhttp_get_body. destruct (_ && negb _); [done|].
    destruct (match evhttp_find_header _ _ with Some _ => _ | None => _ end); [intros E; by apply expect_further in E|].
    destruct (evhttp_get_body_length q) as [q2 rc]. destruct (rc =? -1); [done|].
    destruct (match kind q with EVHTTP_REQUEST => true | EVHTTP_RESPONSE => false end && _); [done|].
    intros E. by apply expect_further in E. }
  unfold headers_done. change (0 <? 0) with false. cbv iota. destruct (kind q); [apply Hget|].
  destruct (_ =? 100); [done|]. destruct (negb _); [done|]. apply Hget.
Qed.

Definition kept k q k1 q1 : Prop :=
  settings k1 = settings k ∧ in_message (state k1) ∧
  (before_body (state k1) → before_body (state k) ∧ con_output k1 = con_output k ∧ output_buffer q1 = output_buffer q) ∧
  (state k1 = EVCON_READING_FIRSTLINE → state k = EVCON_READING_FIRSTLINE ∧ con_input k1 = con_input k ∧ kind q1 = kind q).
Lemma kept_body k q k1 q1 : further EVCON_READING_BODY k k1 → kept k q k1 q1.
Proof.
  intros [Es Et]. unfold kept, in_message, before_body. split; [done|]. split; [tauto|].
  split; [|by destruct Et as [-> | ->]]. destruct Et as [-> | ->]; by intros [?|?].
Qed.
Lemma read_header_waiting k q k1 q1 :
  state k = EVCON_READING_HEADERS → evhttp_read_header None None k q = Some (k1, q1, Waiting) →
  kept k q k1 q1 ∧ state k1 ≠ EVCON_READING_FIRSTLINE.
Proof.
  intros Hst. unfold evhttp_read_header. rewrite bind_Some. intros ([[q2 l2] st] & E1 & E).
  apply parse_headers_frame in E1 as (_ & _ & _ & _ & Eo).
  assert (headers_done None None (set_con_input l2 k) q2 = Some (k1, q1, Waiting) →
    kept k q k1 q1 ∧ state k1 ≠ EVCON_READING_FIRSTLINE) as Hd.
  { intros E2. apply headers_done_waiting in E2. split; [by apply kept_body|]. by destruct E2 as [_ [-> | ->]]. }
  destruct st; auto; try done. injection E as <- <-. unfold kept, in_message, before_body.
  cbn [settings state con_input con_output set_con_input]. rewrite Hst. split; [|done].
  split; [done|]. split; [auto|]. by split; [auto|].
Qed.
Lemma firstline_more evcon q l q1 l1 :
  evhttp_parse_firstline_ words0 evcon q l = Some (q1, l1, MORE_DATA_EXPECTED) → l1 = l ∧ q1 = q.
Proof.
  unfold evhttp_parse_firstline_. cbn [eb_readln eb_length flat_queue].
  destruct (eol_at EVBUFFER_EOL_CRLF l) as [[d n]|]; cbn [mbind option_bind].
  - destruct (too_long evcon d); [done|]. cbv zeta.
    match goal with |- context [match ?p with Ret _ _ => _ | Error _ => _ | Fault => _ end] => by destruct p end.
  - destruct (too_long _ _); [done|]. by intros [= <- <-].
Qed.
Lemma read_cb_waiting k q k1 q1 :
  evhttp_read_cb words0 None None k q = Some (k1, q1, Waiting) → kept k q k1 q1.
Proof.
  unfold evhttp_read_cb. destruct (state k) eqn:Hst; try done.
  - unfold evhttp_read_firstline. rewrite bind_Some. intros ([[q2 l2] st] & E1 & E).
    pose proof (parse_firstline_frame _ _ _ _ _ _ _ E1) as (_ & _ & _ & _ & Eo).
    set (k' := set_state EVCON_READING_HEADERS (set_con_input l2 k)) in *.
    assert (evhttp_read_header None None k' q2 = Some (k1, q1, Waiting) → kept k q k1 q1) as Hh.
    { intros E'. apply read_header_waiting in E' as [(H1 & H2 & H3 & _) Hne]; [|done].
      split; [done|]. split; [done|]. split; [|done]. intros Hb. destruct (H3 Hb) as (_ & -> & ->).
      rewrite Hst. unfold before_body. rewrite Eo. auto. }
    destruct st; auto; try done. apply firstline_more in E1 as [-> ->]. injection E as <- <-.
    unfold kept, in_message, before_body. cbn [settings state con_input con_output set_con_input]. rewrite Hst. auto 8.
  - intros E. by apply read_header_waiting in E as [? _].
  - intros E. apply read_body_further in E. rewrite Hst in E. by apply kept_body.
  - intros E. apply read_trailer_further in E as [Es Et]. apply kept_body. split; [done|]. rewrite Et. auto.
Qed.
End waiting.

(** ** Pieces *)

Lemma feed_total {MM : Malloc} words0 (Hw0 : zlen words0 = 8) (Hw : Forall word16 words0) pieces :
  Forall (Forall byte) pieces → ∀ (k : evhttp_connection (list Z)) q,
  in_message (state k) → knows_server k q → (state k = EVCON_READING_FIRSTLINE → Forall byte (con_input k)) →
  ∃ r, feed words0 k q pieces = Some r.
Proof.
  induction 1 as [|p ps Hp _ IH]; intros k q Hst Hsv Hb; cbn [feed]; [eauto|].
  cbn [eb_add flat_queue mbind option_bind].
  destruct (read_cb_total words0 Hw0 Hw None ltac:(done) None (set_con_input (con_input k ++ p) k) q) as [[[k1 q1] nx] E].
  - unfold in_message, before_body in Hst. cbn. by destruct Hst as [[-> | ->]|[-> | ->]].
  - done.
  - intros Hf. apply Forall_app. auto.
  - rewrite E. cbn [mbind option_bind]. destruct nx; eauto. apply read_cb_waiting in E as (Es & Hm & _ & Hi).
    apply IH; [done| |].
    { intros Hf. destruct (Hi Hf) as (Hf0 & _ & ->). rewrite Es. by apply Hsv. }
    intros Hf. destruct (Hi Hf) as (Hf0 & -> & _). apply Forall_app. split; [|done].
    by apply Hb.
Qed.

Section real.
Context {MM : Malloc} {B : Type} {EB : EvbufferOps B} {EL : EvbufferLaws B} (words0 : list Z).
Implicit Types (c : evhttp_connection B) (r : evhttp_request B) (q : evhttp_request (list Z)) (k : evhttp_connection (list Z)).

Lemma feed_sim pieces : ∀ c r k q k1 q1 nx rest,
  con_rel c k → req_rel r q →
  zlen (input_buffer (body q)) + zlen (con_input k) + zlen (concat pieces) <= eb_cap (B := B) →
  (before_body (state k) → room (B := B) q k) →
  feed words0 k q pieces = Some (k1, q1, nx, rest) →
  ∃ c1 r1, feed words0 c r pieces = Some (c1, r1, nx, rest) ∧ con_rel c1 k1 ∧ req_rel r1 q1.
Proof.
  induction pieces as [|p ps IH]; intros c r k q k1 q1 nx rest Hc Hr Hcap Hroom; cbn [feed].
  { intros [= <- <- <- <-]. eauto. }
  cbn [concat] in Hcap. rewrite zlen_app in Hcap. pose proof (zlen_nonneg (concat ps)).
  pose proof (zlen_nonneg (input_buffer (body q))).
  cbn [eb_add flat_queue mbind option_bind]. destruct (cr_input _ _ Hc) as [Hi Ei].
  destruct (eb_add_ok (con_input c) p Hi) as (b & Eb & Hib & Eb'); [rewrite Ei; lia|]. rewrite Eb. cbn [mbind option_bind].
  set (k2 := set_con_input (con_input k ++ p) k). set (c2 := set_con_input b c).
  assert (con_rel c2 k2) as Hc2 by (apply set_con_input_rel; [done|]; split; [done|by rewrite Eb', Ei]).
  destruct (evhttp_read_cb words0 None None k2 q) as [[[k3 q3] nx3]|] eqn:E; [|done].
  set (n := zlen (input_buffer (body q)) + zlen (con_input k ++ p)).
  assert (n <= eb_cap (B := B)) as Hn by (subst n; rewrite zlen_app; lia).
  assert (fits n q (con_input k2)) as Hf by (unfold fits; subst n k2; cbn; lia).
  destruct (read_cb_sim words0 n Hn None None I None None I c2 k2 r q Hc2 Hr Hf Hroom _ E)
    as ([[c3 r3] nx4] & -> & (Hc3 & Hr3 & -> & Hf3)).
  cbn [mbind option_bind].
  destruct nx3; try (intros [= <- <- <- <-]; by eauto). apply IH; [done|done| |].
  - unfold fits in Hf3. subst n. rewrite zlen_app in Hf3. lia.
  - apply read_cb_waiting in E as (_ & _ & Hkept & _). intros Hb. destruct (Hkept Hb) as (Hb2 & Ho & Hq).
    specialize (Hroom Hb2). unfold room in *. rewrite Ho, Hq. done.
Qed.
End real.

(** * Views *)

Section views.
Context {MM : Malloc} {B : Type} {EB : EvbufferOps B} {EL : EvbufferLaws B}.
Implicit Types (c : evhttp_connection B) (r : evhttp_request B).

(** A request and a connection with the bytes that are in their buffers. *)
Definition view_req r : evhttp_request (list Z) :=
  Request (kind r) (first r) (input_headers r) (output_headers r) (headers_size r)
    (Body (body_size (body r)) (ntoread (body r)) (chunked (body r)) (eb_bytes (input_buffer (body r))))
    (eb_bytes (output_buffer r)).
Definition view_con c : evhttp_connection (list Z) :=
  Connection (settings c) (state c) (eb_bytes (con_input c)) (eb_bytes (con_output c)).
Definition valid_req r : Prop := eb_inv (input_buffer (body r)) ∧ eb_inv (output_buffer r).
Definition valid_con c : Prop := eb_inv (con_input c) ∧ eb_inv (con_output c).

Lemma req_rel_view r q : req_rel r q ↔ valid_req r ∧ view_req r = q.
Proof.
  split.
  - intros [E1 E2 E3 E4 E5 [E6 E7 E8 [H1 E9]] [H2 E10]]. split; [done|].
    destruct q as [? ? ? ? ? [] ?]. unfold view_req. simpl in *. by subst.
  - intros [[H1 H2] <-]. by constructor.
Qed.
Lemma con_rel_view c k : con_rel c k ↔ valid_con c ∧ view_con c = k.
Proof.
  split.
  - intros [E1 E2 [H1 E3] [H2 E4]]. split; [done|]. destruct k. unfold view_con. simpl in *. by subst.
  - intros [[H1 H2] <-]. by constructor.
Qed.

(** The bytes read and those still to come fit a buffer, and so does an interim reply. *)
Definition enough_room c r (n : Z) : Prop :=
  zlen (eb_bytes (input_buffer (body r))) + zlen (eb_bytes (con_input c)) + n <= eb_cap (B := B) ∧
  zlen (eb_bytes (con_output c)) + zlen (eb_bytes (output_buffer r)) + 200 <= eb_cap (B := B).
End views.
