(* ===== verification/HttpWire.v ===== *)
(** * What is written on the wire is read back

    On flat queues: the lines that [evhttp_make_header] and the chunked replies
    write, read by the state machine of a connection. *)
From S2P Require Import Prelude Outcome Lines Evutil InetDefs Inet InetThms EvbufferDefs EvbufferIface EvbufferImpl HttpUriDefs HttpText HttpUri HttpUriParse HttpMsgDefs HttpConnDefs HttpFlat HttpCut HttpRead.

(** ** Lines *)

(** Bytes that may stand in a line: no line end and no zero. *)
Definition plain_char (c : Z) : Prop := byte c ∧ c ≠ 0 ∧ c ≠ 10 ∧ c ≠ 13.
Definition plain (s : list Z) : Prop := Forall plain_char s.
#[global] Instance plain_char_dec c : Decision (plain_char c).
Proof. unfold plain_char, byte. apply _. Defined.
#[global] Instance plain_dec s : Decision (plain s).
Proof. unfold plain. apply _. Defined.

Lemma plain_app s t : plain (s ++ t) ↔ plain s ∧ plain t.
Proof. apply Forall_app. Qed.
Lemma plain_not_in s c : plain s → ¬ plain_char c → c ∉ s.
Proof. intros Hs Hc H. apply Hc. by apply (proj1 (Forall_forall _ _) Hs). Qed.
Lemma plain_cstr s : plain s → cstr (s ++ [0]) = s.
Proof. intros Hs. apply cstr_nonzero. eapply Forall_impl; [exact Hs|]. by intros c (_ & H & _). Qed.
Lemma plain_cstr_id s : plain s → cstr s = s.
Proof. induction 1 as [|c s (_ & H & _) _ IH]; [done|]. simpl. destruct (Z.eqb_spec c 0); [done|]. by rewrite IH. Qed.
Lemma plain_bytes s : plain s → Forall byte s.
Proof. intros Hs. eapply Forall_impl; [exact Hs|]. by intros c []. Qed.

Lemma digits_plain base n : 2 <= base <= 16 → 0 <= n < 2 ^ 64 → plain (to_base 64 base n).
Proof.
  intros Hb Hn. destruct (printed_digits base n Hb Hn) as [Hd _]. eapply Forall_impl; [exact Hd|].
  intros c. unfold is_digit, digit_val, plain_char, byte. intros H%Z.ltb_lt. revert H.
  repeat case_match; rewrite ?andb_true_iff, ?Z.leb_le in *; intros; lia.
Qed.
Lemma sprint_u_plain n : 0 <= n < 2 ^ 64 → plain (sprint_u n).
Proof. apply digits_plain. lia. Qed.
Lemma sprint_d_plain n : 0 <= n < 2 ^ 64 → plain (sprint_d n).
Proof. intros H. unfold sprint_d. destruct (Z.ltb_spec n 0); [lia|]. by apply sprint_u_plain. Qed.

Lemma eol_line s rest : plain s → eol_at EVBUFFER_EOL_CRLF (s ++ crlf ++ rest) = Some (zlen s, 2).
Proof.
  intros Hs. pose proof (zlen_nonneg s). simpl eol_at. unfold memchr. rewrite find_first_app.
  replace (find_first (λ x, x =? 10) s) with (@None Z).
  2:{ symmetry. apply find_first_None. eapply Forall_impl; [exact Hs|]. intros c (_ & _ & Hc & _). by apply Z.eqb_neq. }
  cbn [find_first app crlf]. change (13 =? 10) with false. change (10 =? 10) with true. cbv iota.
  assert (∀ A (f : Z → option A), (Z.add (zlen s) <$> (Z.succ <$> Some 0)) ≫= f = f (zlen s + 1)) as -> by done.
  change (s ++ 13 :: 10 :: rest) with (s ++ [13; 10] ++ rest).
  replace (zlen s + 1 - 1) with (zlen s) by lia. destruct (Z.ltb_spec 0 (zlen s + 1)); [|lia].
  by rewrite bool_decide_eq_true_2 by (rewrite zget_app_r, Z.sub_diag by lia; done).
Qed.
Lemma drop_line {A} (s t rest : list A) n : n = zlen t → zdrop (zlen s + n) (s ++ t ++ rest) = rest.
Proof. intros ->. rewrite app_assoc, <- zlen_app, zdrop_app_ge, Z.sub_diag, zdrop_0 by lia. done. Qed.
Lemma take_line {A} (s rest : list A) : ztake (zlen s) (s ++ rest) = s.
Proof. pose proof (zlen_nonneg s). by rewrite ztake_app_le, ztake_all by lia. Qed.

Lemma strsep_app s t c : c ∉ s → strsep (s ++ c :: t) c = (s, Some t).
Proof.
  intros H. unfold strsep. rewrite strchr_app by done. rewrite take_app_length.
  f_equal. f_equal. change (c :: t) with ([c] ++ t). rewrite app_assoc.
  replace (S (length s)) with (length (s ++ [c])) by (rewrite length_app; simpl; lia). by rewrite drop_app_length.
Qed.
Lemma strsep_None s c : c ∉ s → strsep s c = (s, None).
Proof. intros H. unfold strsep. by rewrite strchr_None. Qed.
Lemma strrchr_app s t c : c ∉ t → strrchr (s ++ c :: t) c = Some (length s).
Proof.
  intros H. unfold strrchr. rewrite reverse_app, reverse_cons, <- app_assoc. simpl app.
  rewrite strchr_app by (by rewrite elem_of_reverse). cbn [fmap option_fmap option_map]. f_equal.
  rewrite length_app, length_reverse. simpl. lia.
Qed.

(** ** Headers *)

Section headers.
Context {MM : Malloc} {MT : MallocTotal}.
Implicit Types (q : evhttp_request (list Z)) (headers : evkeyvalq).

Lemma strdup_ok s : zlen s < EV_SIZE_MAX → mm_strdup s = Some s.
Proof.
  intros Hs. unfold mm_strdup. destruct (Z.eqb_spec (zlen s) EV_SIZE_MAX); [lia|].
  pose proof (zlen_nonneg s). pose proof (malloc_never_fails (zlen s + 1) ltac:(lia)) as Hm. by destruct (mm_malloc _).
Qed.

(** A header that is sent and read as it is: keys without a colon that do not begin
    with a blank, values without blanks around them. *)
Definition wire_header (h : list Z * list Z) : Prop :=
  plain h.1 ∧ (58 ∉ h.1) ∧ blank (hd 58 h.1) = false ∧
  plain h.2 ∧ hd 0 h.2 ≠ 32 ∧ (∀ c, last h.2 = Some c → is_blank c = false) ∧
  zlen h.1 < EV_SIZE_MAX ∧ zlen h.2 < EV_SIZE_MAX.
Definition header_text (h : list Z * list Z) : list Z := h.1 ++ str ": " ++ h.2 ++ crlf.

Lemma valid_value_plain s : plain s → evhttp_header_is_valid_value s = true.
Proof.
  unfold evhttp_header_is_valid_value. induction 1 as [|c s (_ & _ & H1 & H2) _ IH]; [done|]. simpl.
  unfold line_break, in_set. cbn [existsb]. destruct (Z.eqb_spec c 13); [done|]. by destruct (Z.eqb_spec c 10).
Qed.
Lemma add_header_ok headers k v :
  plain k → plain v → zlen k < EV_SIZE_MAX → zlen v < EV_SIZE_MAX →
  evhttp_add_header headers k v = (headers ++ [(k, v)], 0).
Proof.
  intros Hk Hv Hk1 Hv1. unfold evhttp_add_header.
  rewrite !strchr_None by (eapply plain_not_in; [done|]; intros (?&?&?&?); done).
  rewrite !bool_decide_eq_false_2 by (by intros []). rewrite valid_value_plain by done.
  unfold evhttp_add_header_internal.
  pose proof (malloc_never_fails SIZEOF_EVKEYVAL ltac:(done)) as Hm. destruct (mm_malloc _); [|done].
  by rewrite !strdup_ok.
Qed.

Lemma header_line_sent headers k v :
  wire_header (k, v) → header_line headers (k ++ str ": " ++ v) = Some (headers ++ [(k, v)], 0).
Proof.
  intros (Hk & Hc & Hb & Hv & H32 & Hl & Hk1 & Hv1). cbn [fst snd] in *. unfold header_line.
  assert (hd 0 (k ++ str ": " ++ v) = hd 58 k) as -> by (by destruct k). rewrite Hb.
  change (str ": " ++ v) with (58 :: 32 :: v). rewrite strsep_app by done. cbn [strspn span in_set existsb].
  assert (strspn (32 :: v) [32] = v) as ->.
  { unfold strspn. simpl span. unfold in_set. cbn [existsb]. change (32 =? 32) with true. cbn [orb].
    assert (span [32] v = 0) as ->.
    { destruct v as [|c v]; [done|]. simpl in *. unfold in_set. cbn [existsb]. by destruct (Z.eqb_spec c 32). }
    done. }
  rewrite rtrim_id by done. by rewrite add_header_ok.
Qed.

Lemma headers_read s q hs rest : unlimited s → Forall wire_header hs →
  ∃ n, evhttp_parse_headers_ (Some s) q (concat (header_text <$> hs) ++ crlf ++ rest) =
    Some (set_input_headers (input_headers q ++ hs) (set_headers_size n q), rest, ALL_DATA_READ).
Proof.
  intros Hu Hhs. revert q. induction Hhs as [|[k v] hs Hh _ IH]; intros q; rewrite parse_headers_step by done;
    unfold headers_step.
  - cbn [fmap list_fmap concat app]. change (crlf ++ rest) with ([] ++ crlf ++ rest).
    rewrite eol_line, take_line, drop_line by (done || by apply Forall_nil).
    exists (u64 (headers_size q + 0)). rewrite app_nil_r. by destruct q.
  - rewrite fmap_cons. cbn [concat]. rewrite <- app_assoc. set (r := concat (header_text <$> hs) ++ crlf ++ rest).
    assert (plain (k ++ str ": " ++ v)) as Hp.
    { destruct Hh as (Hk & _ & _ & Hv & _). rewrite !plain_app. split; [done|]. split; [|done]. by repeat constructor. }
    assert (header_text (k, v) ++ r = (k ++ str ": " ++ v) ++ crlf ++ r) as ->.
    { unfold header_text. cbn [fst snd]. by rewrite <- !app_assoc. }
    rewrite eol_line, take_line, drop_line, plain_cstr by done.
    rewrite bool_decide_eq_false_2 by (by destruct k).
    rewrite header_line_sent by done. cbn [mbind option_bind]. change (0 =? -1) with false. cbv iota.
    destruct (IH (set_input_headers (input_headers q ++ [(k, v)]) (set_headers_size (u64 (headers_size q + zlen (k ++ str ": " ++ v))) q))) as [n IHn].
    exists n. subst r. cbn [input_headers set_headers_size set_input_headers] in *. rewrite IHn. by rewrite <- app_assoc.
Qed.
End headers.

(** ** First lines *)

(** The switch over letters inverts the table of names. *)
Lemma method_inverse t m :
  evhttp_method t = Some m → request_method m = t ∧ plain m ∧ (32 ∉ m) ∧ 3 <= zlen m.
Proof.
  unfold evhttp_method.
  repeat (match goal with |- context [if ?a =? ?b then _ else _] => destruct (Z.eqb_spec a b) as [->|_] end;
    [intros [= <-]; split; [by vm_compute|]; split; [by apply (bool_decide_unpack _); vm_compute|];
     split; [by apply (bool_decide_unpack _); vm_compute|by vm_compute]|]).
  done.
Qed.

Lemma scan_d_printed n rest :
  0 <= n < 2 ^ 31 → stops 10 rest → scan_d (sprint_d n ++ rest) = Some (n, rest).
Proof.
  intros Hn Hr. unfold scan_d, sprint_d, sprint_u. destruct (Z.ltb_spec n 0); [lia|].
  destruct (printed_digits 10 n) as [Hd Hne]; [lia|lia|].
  pose proof (read_printed 10 n rest) as HR. destruct (to_base 64 10 n) as [|c ds]; [done|].
  apply Forall_cons in Hd as [Hc _]. rewrite <- app_comm_cons in *.
  rewrite (skip_space_digit 10), (sign_digit 10), Hc by done || lia.
  rewrite HR by done || lia. rewrite i32_small by lia. do 2 f_equal. lia.
Qed.

Definition version_text (minor : Z) : list Z := str "HTTP/1." ++ sprint_d minor.
Lemma version_read minor l : 0 <= minor < 128 →
  evhttp_parse_http_version (version_text minor) l = Ret tt (set_version 1 minor l).
Proof.
  intros Hm. unfold evhttp_parse_http_version, sscanf_version, version_text.
  change (strip_prefix (str "HTTP/") (str "HTTP/1." ++ sprint_d minor)) with (Some (sprint_d 1 ++ str "." ++ sprint_d minor)).
  cbn [mbind option_bind]. rewrite scan_d_printed by done. cbn [mbind option_bind].
  change (strip_prefix (str ".") (str "." ++ sprint_d minor)) with (Some (sprint_d minor)). cbn [mbind option_bind].
  rewrite <- (app_nil_r (sprint_d minor)), scan_d_printed by (done || lia). cbn.
  unfold pset. by assert (swrap 8 minor = minor) as -> by (unfold swrap; lia).
Qed.
Lemma version_plain minor : 0 <= minor < 128 → plain (version_text minor) ∧ (32 ∉ version_text minor) ∧ 8 <= zlen (version_text minor).
Proof.
  intros Hm. assert (∀ n, 0 <= n < 128 → bool_decide (plain (version_text n)) && bool_decide (32 ∉ version_text n) && (8 <=? zlen (version_text n)) = true) as H.
  { intros n Hn. assert (n = Z.of_nat (Z.to_nat n)) as E by lia. rewrite E. assert (Z.to_nat n < 128)%nat as Hn' by lia.
    revert Hn'. generalize (Z.to_nat n). clear. intros n Hn.
    assert (forallb (λ n, bool_decide (plain (version_text (Z.of_nat n))) && bool_decide (32 ∉ version_text (Z.of_nat n)) && (8 <=? zlen (version_text (Z.of_nat n)))) (seq 0 128) = true) as HF by by vm_compute.
    rewrite forallb_forall in HF. apply HF, in_seq. lia. }
  specialize (H minor Hm). rewrite !andb_true_iff, !bool_decide_eq_true, Z.leb_le in H. tauto.
Qed.

Lemma strip_nonblank (s v : list Z) : (32 ∉ v) → v ≠ [] → reverse (strip_blanks (reverse (s ++ v))) = s ++ v.
Proof.
  intros H Hne. rewrite reverse_app. destruct (reverse v) as [|c r] eqn:E.
  - apply (f_equal reverse) in E. rewrite reverse_involutive in E. by subst.
  - simpl. destruct (Z.eqb_spec c 32) as [->|].
    + exfalso. apply H. rewrite <- elem_of_reverse, E. by left.
    + change (c :: r ++ reverse s) with ((c :: r) ++ reverse s). by rewrite <- E, <- reverse_app, reverse_involutive.
Qed.

(** Runs the first step of a parser. *)
Ltac prun := try (unfold store_dup, parse_uri_elems); cbn [pget pset access]; repeat (rewrite bind_run; cbn [pget pset access]).

Section first_lines.
Context {MM : Malloc} {MT : MallocTotal} (words0 : list Z).
Implicit Types (q : evhttp_request (list Z)) (l : first_line).

(** A target that the server can parse. *)
Definition wire_target (t : Z) (uri : list Z) (u : evhttp_uri) : Prop :=
  plain uri ∧ uri ≠ [] ∧ zlen uri < EV_SIZE_MAX ∧
  (if t =? EVHTTP_REQ_CONNECT then evhttp_uri_parse_authority words0 uri
   else evhttp_uri_parse_with_flags words0 uri EVHTTP_URI_NONCONFORMANT) = Some (Some u).
Definition request_text (m uri : list Z) (minor : Z) : list Z := m ++ str " " ++ uri ++ str " " ++ version_text minor.

Lemma mark_proxy_ok s l : has_server (Some s) →
  ∃ flags, mark_proxy (Some s) l = Ret tt (set_flags flags l).
Proof.
  intros (s' & h & [= <-] & Eh). unfold mark_proxy. rewrite bind_run. unfold pget at 1.
  assert (∃ flags, Ret tt l = Ret tt (set_flags flags l)) as Hl by (exists (req_flags l); by destruct l).
  match goal with |- context [match ?o with Some _ => _ | None => _ end] => destruct o as [[sch hn]|] end; [|exact Hl].
  destruct (is_http_scheme sch); [|exact Hl]. rewrite bind_run. cbn [mbind option_bind]. rewrite Eh. cbn [access]. destruct (evhttp_find_vhost h hn).2; [exact Hl|]. by eexists.
Qed.

Lemma request_line_read s t m uri u minor l line :
  evhttp_method t = Some m → wire_target t uri u → 0 <= minor < 128 → has_server (Some s) →
  line = request_text m uri minor →
  ∃ flags, evhttp_parse_request_line words0 (Some s) (line ++ [0]) (zlen line) l =
    Ret tt (Line flags t (Some uri) (Some u) 1 minor (response_code l) (response_code_line l)).
Proof.
  intros Hm (Hu & Hne & Hlen & Hp) Hv Hsv Hline. destruct (method_inverse t m Hm) as (Em & Hmp & Hm32 & Hm3).
  destruct (version_plain minor Hv) as (Hvp & Hv32 & Hv8). set (v := version_text minor) in *.
  pose proof (zlen_nonneg uri).
  assert (plain line) as Hpl.
  { subst line. unfold request_text. fold v. rewrite !plain_app. split_and!; try done; by repeat constructor. }
  assert (zlen line = zlen m + zlen uri + zlen v + 2) as Hll.
  { subst line. unfold request_text. fold v. rewrite !zlen_app. change (zlen (str " ")) with 1. lia. }
  assert (0 < zlen uri) by (destruct uri; [done|]; rewrite zlen_cons; pose proof (zlen_nonneg uri); lia).
  unfold evhttp_parse_request_line. rewrite take_line.
  assert (reverse (strip_blanks (reverse line)) = line) as ->.
  { subst line. unfold request_text. fold v. rewrite !app_assoc. apply strip_nonblank; [done|].
    intros Ev. by rewrite Ev in Hv8. }
  change (zlen (str "GET / HTTP/1.0")) with 14. rewrite bind_run. unfold err_if at 1.
  destruct (Z.ltb_spec (zlen line) 14); [lia|].
  rewrite (plain_cstr_id line Hpl). subst line. unfold request_text. fold v.
  change (str " " ++ uri ++ str " " ++ v) with (32 :: uri ++ 32 :: v). rewrite strsep_app, strrchr_app by done.
  rewrite bind_run. unfold err_if at 1. destruct (Nat.eqb_spec (length uri) 0) as [E0|_]; [by destruct uri|].
  rewrite take_app_length.
  assert (drop (S (length uri)) (uri ++ 32 :: v) = v) as ->.
  { change (32 :: v) with ([32] ++ v). rewrite app_assoc.
    replace (S (length uri)) with (length (uri ++ [32])) by (rewrite length_app; simpl; lia). by rewrite drop_app_length. }
  rewrite Em. prun. unfold v. rewrite version_read by done. prun. rewrite strdup_ok by done. prun.
  cbn [type set_version set_type set_uri]. rewrite Hp. prun.
  unfold err_if. rewrite bool_decide_eq_true_2 by done. cbn [negb].
  match goal with |- context [mark_proxy (Some s) ?l1] => destruct (mark_proxy_ok s l1 Hsv) as [flags ->] end.
  exists flags. done.
Qed.

Lemma firstline_read s q line rest l :
  unlimited s → plain line → zlen line <= EV_SIZE_MAX →
  (match kind q with
   | EVHTTP_REQUEST => evhttp_parse_request_line words0 (Some s) (line ++ [0]) (zlen line)
   | EVHTTP_RESPONSE => evhttp_parse_response_line line
   end) (first q) = Ret tt l →
  evhttp_parse_firstline_ words0 (Some s) q (line ++ crlf ++ rest) =
  Some (set_first l (set_headers_size (zlen line) q), rest, ALL_DATA_READ).
Proof.
  intros Hu Hpl Hlen Hp. unfold evhttp_parse_firstline_. cbn [eb_readln flat_queue].
  rewrite eol_line, take_line, drop_line by done. cbn [mbind option_bind]. rewrite not_too_long by done.
  cbn [kind first set_headers_size]. rewrite plain_cstr by done. by rewrite Hp.
Qed.
End first_lines.

Definition response_text (minor code : Z) (reason : list Z) : list Z :=
  version_text minor ++ str " " ++ sprint_d code ++ str " " ++ reason.
Lemma response_line_read {MM : Malloc} {MT : MallocTotal} minor code reason l :
  0 <= minor < 128 → 0 < code < 2 ^ 31 → zlen reason < EV_SIZE_MAX →
  evhttp_parse_response_line (response_text minor code reason) l =
  Ret tt (set_response_line (Some reason) (set_response code (set_version 1 minor l))).
Proof.
  intros Hm Hc Hr. destruct (version_plain minor Hm) as (_ & Hv32 & _). unfold evhttp_parse_response_line, response_text.
  change (version_text minor ++ str " " ++ sprint_d code ++ str " " ++ reason)
    with (version_text minor ++ 32 :: sprint_d code ++ 32 :: reason).
  assert (32 ∉ sprint_d code) as Hc32.
  { unfold sprint_d, sprint_u. destruct (Z.ltb_spec code 0); [lia|]. destruct (printed_digits 10 code) as [Hd _]; [lia|lia|].
    intros H32. by apply (proj1 (Forall_forall _ _) Hd) in H32. }
  rewrite !strsep_app by done. cbn [default from_option id]. prun. rewrite version_read by done. prun.
  rewrite atoi_printed by lia. unfold err_if, evhttp_valid_response_code. destruct (Z.eqb_spec code 0); [lia|]. cbn [negb].
  prun. by rewrite strdup_ok.
Qed.

(** ** Bodies *)

Lemma strtol_printed base n rest : 2 <= base <= 16 → 0 <= n < 2 ^ 63 → stops base rest →
  (∀ c, c ∈ [120; 88] → c ∉ to_base 64 base n ++ take 1 rest) →
  strtol (to_base 64 base n ++ rest) base = (n, rest).
Proof.
  intros Hb Hn Hr Hx. unfold strtol. destruct (printed_digits base n) as [Hd Hne]; [lia|lia|].
  pose proof (read_printed base n rest ltac:(lia) ltac:(lia) Hr) as HR.
  destruct (to_base 64 base n) as [|c ds]; [done|]. apply Forall_inv in Hd as Hc. rewrite <- app_comm_cons in *.
  rewrite (skip_space_digit base), (sign_digit base) by done || lia.
  assert (skip_prefix base (c :: ds ++ rest) = c :: ds ++ rest) as ->.
  { unfold skip_prefix. destruct (ds ++ rest) as [|x [|h t]] eqn:E; try done.
    assert ((x =? 120) || (x =? 88) = false) as ->; [|by rewrite andb_false_r].
    assert (x ∈ ds ++ take 1 rest) as Hin.
    { destruct ds as [|d ds]; simpl in E; [subst rest; by left|]. injection E as -> _. by left. }
    apply orb_false_iff. split; apply Z.eqb_neq; intros ->; eapply Hx; try (right; exact Hin); set_solver. }
  rewrite Hc, HR. f_equal. lia.
Qed.
Lemma strtol_length n : 0 <= n < 2 ^ 63 → evutil_strtoll (sprint_u n) 10 = (n, []).
Proof.
  intros Hn. unfold evutil_strtoll, sprint_u. rewrite <- (app_nil_r (to_base 64 10 n)). apply strtol_printed; [lia|done|done|].
  intros c Hc. simpl take. rewrite app_nil_r. destruct (printed_digits 10 n) as [Hd _]; [lia|lia|].
  intros H. apply (proj1 (Forall_forall _ _) Hd) in H. set_unfold in Hc. by destruct Hc as [->|[->|[]]].
Qed.
Lemma strtol_size n : 0 <= n < 2 ^ 63 → evutil_strtoll (sprint_x n) 16 = (n, []).
Proof.
  intros Hn. unfold evutil_strtoll, sprint_x. rewrite <- (app_nil_r (to_base 64 16 n)). apply strtol_printed; [lia|done|done|].
  intros c Hc. simpl take. rewrite app_nil_r. destruct (printed_digits 16 n) as [Hd _]; [lia|lia|].
  intros H. apply (proj1 (Forall_forall _ _) Hd) in H. set_unfold in Hc. by destruct Hc as [->|[->|[]]].
Qed.

Section bodies.
Context {MM : Malloc} {MT : MallocTotal}.
Implicit Types (q : evhttp_request (list Z)) (k : evhttp_connection (list Z)).

Lemma body_moved_done k q :
  unlimited (settings k) → 0 <= body_size (body q) < 2 ^ 64 → ntoread (body q) = 0 → body_moved None k q = Some (k, q, Done).
Proof.
  intros [_ Hu] Hs Hn. unfold body_moved. rewrite Hu, Hn. destruct (Z.ltb_spec EV_SIZE_MAX (body_size (body q))).
  { unfold EV_SIZE_MAX in *. lia. }
  change (EV_SIZE_MAX <? u64 0) with false. rewrite andb_false_r. cbn [orb mbind option_bind]. by rewrite Hn.
Qed.

(** A body with a length. *)
Lemma read_body_sized k q bytes rest :
  unlimited (settings k) → chunked (body q) = false → body_size (body q) = 0 → ntoread (body q) = zlen bytes →
  zlen (bytes ++ rest) <= EV_SSIZE_MAX →
  evhttp_read_body None (set_con_input (bytes ++ rest) k) q =
  Some (set_con_input rest k, upd_body (λ b, Body (zlen bytes) 0 false (input_buffer b ++ bytes)) q, Done).
Proof.
  intros Hu Hc Hs Hn Hl. unfold evhttp_read_body. cbn [con_input set_con_input eb_length eb_remove_buffer flat_queue].
  rewrite Hc, Hn, Hs. pose proof (zlen_nonneg bytes). pose proof (zlen_nonneg rest). rewrite zlen_app in *.
  unfold EV_SSIZE_MAX in Hl. destruct (Z.ltb_spec (zlen bytes) 0); [lia|]. rewrite u64_small by lia.
  destruct (Z.leb_spec (zlen bytes) (zlen bytes + zlen rest)); [|lia]. rewrite orb_true_r.
  assert ((if zlen bytes <? zlen bytes + zlen rest then zlen bytes else zlen bytes + zlen rest) = zlen bytes) as ->.
  { destruct (Z.ltb_spec (zlen bytes) (zlen bytes + zlen rest)); lia. }
  cbn [mbind option_bind]. rewrite take_line, zdrop_app_ge, Z.sub_diag, zdrop_0 by lia.
  match goal with |- body_moved None _ ?q1 = Some (_, ?q2, _) => assert (q1 = q2) as -> end.
  { unfold upd_body, set_ntoread, set_body_size, set_input_buffer. cbn. rewrite Hn, Hs, Hc, Z.sub_diag, Z.add_0_l, u64_small by lia. done. }
  apply (body_moved_done (set_con_input rest k)); [done|cbn; lia|done].
Qed.

(** Chunks. *)
Definition chunk_text (data : list Z) : list Z := sprint_x (zlen data) ++ crlf ++ data ++ crlf.
Lemma chunked_size_line q n rest :
  ntoread (body q) < 0 → 0 <= n → 0 <= body_size (body q) → body_size (body q) + n < 2 ^ 63 →
  zlen (sprint_x n ++ crlf ++ rest) <= EV_SSIZE_MAX →
  let q' := upd_body (λ b, set_ntoread n (set_body_size (body_size b + n) b)) q in
  evhttp_handle_chunked_read None EV_SIZE_MAX q (sprint_x n ++ crlf ++ rest) =
  if n =? 0 then Some (q', rest, ALL_DATA_READ) else evhttp_handle_chunked_read None EV_SIZE_MAX q' rest.
Proof.
  intros Hneg Hn Hs Hsum Hl q'. destruct (printed_digits 16 n) as [Hd Hne]; [lia|lia|].
  assert (plain (sprint_x n)) as Hp by (apply digits_plain; lia).
  rewrite chunked_read_step by done. unfold chunked_step.
  rewrite bool_decide_eq_false_2 by (intros E; apply app_eq_nil in E as [E _]; done).
  destruct (Z.ltb_spec (ntoread (body q)) 0); [|lia].
  rewrite eol_line, take_line, drop_line, plain_cstr by done. cbv zeta.
  rewrite bool_decide_eq_false_2, strtol_size by (done || lia). rewrite bool_decide_eq_true_2 by done. cbn [negb andb orb].
  destruct (Z.ltb_spec n 0); [lia|]. destruct (Z.ltb_spec (EV_SIZE_MAX - body_size (body q)) n); [unfold EV_SIZE_MAX in *; lia|].
  assert (upd_body (λ b, set_ntoread n (set_body_size (u64 (body_size b + n)) b)) q = q') as ->; [|done].
  subst q'. unfold upd_body. by rewrite u64_small by lia.
Qed.
Lemma chunked_data q data rest :
  ntoread (body q) = zlen data → 0 < zlen data → zlen (data ++ crlf ++ rest) <= EV_SSIZE_MAX →
  evhttp_handle_chunked_read None EV_SIZE_MAX q (data ++ crlf ++ rest) =
  evhttp_handle_chunked_read None EV_SIZE_MAX (upd_body (λ b, set_ntoread (-1) (set_input_buffer (input_buffer b ++ data) b)) q) rest.
Proof.
  intros Hn Hpos Hl. pose proof (zlen_nonneg (crlf ++ rest)). rewrite zlen_app in Hl.
  rewrite chunked_read_step by (rewrite zlen_app; lia). unfold chunked_step. rewrite Hn.
  rewrite bool_decide_eq_false_2 by (intros E; apply app_eq_nil in E as [-> _]; done).
  destruct (Z.ltb_spec (zlen data) 0); [lia|]. destruct (Z.ltb_spec EV_SSIZE_MAX (zlen data)); [lia|].
  destruct (Z.ltb_spec (zlen (data ++ crlf ++ rest)) (zlen data)) as [Hlt|_]; [rewrite zlen_app in Hlt; lia|].
  rewrite andb_false_r, take_line, zdrop_app_ge, Z.sub_diag, zdrop_0 by lia.
  rewrite chunked_read_step by lia. unfold chunked_step. cbn [body set_body ntoread].
  rewrite bool_decide_eq_false_2 by done. change (-1 <? 0) with true. cbv iota.
  change (crlf ++ rest) with ([] ++ crlf ++ rest). rewrite eol_line, take_line, drop_line by (done || by apply Forall_nil).
  by rewrite bool_decide_eq_true_2.
Qed.

(** The body of a request after chunks were read. *)
Definition chunks_read (chunks : list (list Z)) (n : Z) q : evhttp_request (list Z) :=
  upd_body (λ b, Body (body_size b + zlen (concat chunks)) n (chunked b) (input_buffer b ++ concat chunks)) q.
Lemma chunks_sent chunks q rest :
  Forall (λ c, c ≠ []) chunks → ntoread (body q) < 0 → 0 <= body_size (body q) →
  body_size (body q) + zlen (concat chunks) < 2 ^ 63 →
  zlen (concat (chunk_text <$> chunks) ++ str "0" ++ crlf ++ rest) <= EV_SSIZE_MAX →
  evhttp_handle_chunked_read None EV_SIZE_MAX q (concat (chunk_text <$> chunks) ++ str "0" ++ crlf ++ rest) =
  Some (chunks_read chunks 0 q, rest, ALL_DATA_READ).
Proof.
  intros Hc. revert q. induction Hc as [|c chunks Hne _ IH]; intros q Hn Hs Hsum Hl.
  - cbn [fmap list_fmap concat app] in *. change (str "0" ++ crlf ++ rest) with (sprint_x 0 ++ crlf ++ rest).
    rewrite chunked_size_line by (done || lia). cbn [Z.eqb]. unfold chunks_read, upd_body. do 4 f_equal. cbn. by rewrite app_nil_r.
  - rewrite fmap_cons in *. cbn [concat] in *. rewrite <- app_assoc in *. set (t := concat (chunk_text <$> chunks) ++ str "0" ++ crlf ++ rest) in *.
    unfold chunk_text in *. rewrite <- !app_assoc in *.
    assert (0 < zlen c) by (destruct c; [done|]; rewrite zlen_cons; pose proof (zlen_nonneg c); lia).
    pose proof (zlen_nonneg (concat chunks)). pose proof (zlen_nonneg (sprint_x (zlen c))). rewrite zlen_app in Hsum.
    assert (zlen (sprint_x (zlen c) ++ crlf ++ c ++ crlf ++ t) = zlen (sprint_x (zlen c)) + 2 + zlen (c ++ crlf ++ t)) as El.
    { rewrite !zlen_app. change (zlen crlf) with 2. lia. }
    rewrite chunked_size_line by (done || lia). destruct (Z.eqb_spec (zlen c) 0); [lia|].
    rewrite chunked_data by (done || lia).
    assert (zlen (c ++ crlf ++ t) = zlen c + 2 + zlen t) as El2 by (rewrite !zlen_app; change (zlen crlf) with 2; lia).
    rewrite IH; [|cbn; lia|cbn; lia|cbn; lia|lia]. f_equal. f_equal. f_equal.
    unfold chunks_read, upd_body. destruct q as [? ? ? ? ? [] ?]. cbn. by rewrite zlen_app, app_assoc, Z.add_assoc.
Qed.

(** ** What follows the headers *)

(** What a message with these headers is followed by on the wire, and the content. *)
Inductive framed (hs : evkeyvalq) : list Z → list Z → Prop :=
| framed_none :
    evhttp_find_header hs (str "Transfer-Encoding") = None →
    evhttp_find_header hs (str "Content-Length") = None → framed hs [] []
| framed_sized bytes :
    evhttp_find_header hs (str "Transfer-Encoding") = None →
    evhttp_find_header hs (str "Content-Length") = Some (sprint_u (zlen bytes)) → framed hs bytes bytes
| framed_chunked chunks te :
    evhttp_find_header hs (str "Transfer-Encoding") = Some te → evutil_ascii_strcasecmp te (str "chunked") = 0 →
    Forall (λ c, c ≠ []) chunks →
    framed hs (concat (chunk_text <$> chunks) ++ str "0" ++ crlf ++ crlf) (concat chunks).

(** A message of the given kind and type that has been read, but for what its body
    says about itself. *)
Definition received q (r : option (evhttp_connection (list Z) * evhttp_request (list Z) * next)) (bytes rest : list Z) : Prop :=
  ∃ k1 q1, r = Some (k1, q1, Done) ∧ con_input k1 = rest ∧ first q1 = first q ∧ input_headers q1 = input_headers q ∧
    input_buffer (body q1) = input_buffer (body q) ++ bytes.

Lemma body_length_sized q n :
  0 <= n < 2 ^ 63 → evhttp_find_header (input_headers q) (str "Content-Length") = Some (sprint_u n) →
  evhttp_get_body_length q = (upd_body (set_ntoread n) q, 0).
Proof.
  intros Hn E. unfold evhttp_get_body_length. rewrite E, strtol_length by done.
  destruct (printed_digits 10 n) as [_ Hne]; [lia|lia|].
  rewrite bool_decide_eq_false_2, bool_decide_eq_true_2 by done. destruct (Z.ltb_spec n 0); [lia|].
  by destruct (evhttp_find_header _ _).
Qed.

Lemma get_body_sized k q bytes rest :
  unlimited (settings k) → no_body (body q) →
  evhttp_find_header (input_headers q) (str "Transfer-Encoding") = None →
  evhttp_find_header (input_headers q) (str "Content-Length") = Some (sprint_u (zlen bytes)) →
  (kind q = EVHTTP_REQUEST → bytes ≠ [] → evhttp_method_may_have_body (type (first q)) = true) →
  evhttp_have_expect q true = NO → zlen (bytes ++ rest) <= EV_SSIZE_MAX →
  received q (evhttp_get_body None (set_con_input (bytes ++ rest) k) q) bytes rest.
Proof.
  intros Hu [Hs Hc] Ht Hl Hm He Hlen. unfold evhttp_get_body. rewrite Ht.
  pose proof (zlen_nonneg bytes). pose proof (zlen_nonneg rest). rewrite zlen_app in Hlen. unfold EV_SSIZE_MAX in Hlen.
  set (req := match kind q with EVHTTP_REQUEST => true | EVHTTP_RESPONSE => false end).
  assert (∀ k, con_input k = rest → bytes = [] → received q (Some (k, q, Done)) bytes rest) as Hnil.
  { intros k' Ek ->. exists k', q. split_and!; try done. by rewrite app_nil_r. }
  destruct (req && negb (evhttp_method_may_have_body (type (first q)))) eqn:Em.
  { apply Hnil; [destruct bytes as [|c b]; [done|]|destruct bytes as [|c b]; [done|]];
      subst req; destruct (kind q); (done || by rewrite Hm in Em). }
  rewrite (body_length_sized q (zlen bytes)) by (done || lia). change (0 =? -1) with false. cbv iota.
  cbn [body upd_body set_body ntoread set_ntoread].
  destruct (req && (zlen bytes <? 1)) eqn:Er.
  { apply andb_true_iff in Er as [_ Er%Z.ltb_lt]. assert (bytes = []) as -> by (apply zlen_nil_inv; lia).
    eexists _, _. split_and!; [done|done|done|done|]. by rewrite app_nil_r. }
  unfold expect_and_read. change (evhttp_have_expect (upd_body _ q) true) with (evhttp_have_expect q true). rewrite He.
  change (set_state EVCON_READING_BODY (set_con_input (bytes ++ rest) k)) with (set_con_input (bytes ++ rest) (set_state EVCON_READING_BODY k)).
  rewrite read_body_sized; [|done|done|done|done|rewrite zlen_app; unfold EV_SSIZE_MAX; lia].
  eexists _, _. split_and!; done.
Qed.

Lemma get_body_chunked k q chunks te rest :
  unlimited (settings k) → no_body (body q) →
  evhttp_find_header (input_headers q) (str "Transfer-Encoding") = Some te → evutil_ascii_strcasecmp te (str "chunked") = 0 →
  (kind q = EVHTTP_REQUEST → evhttp_method_may_have_body (type (first q)) = true) →
  evhttp_have_expect q true = NO → Forall (λ c, c ≠ []) chunks →
  let w := concat (chunk_text <$> chunks) ++ str "0" ++ crlf ++ crlf in
  zlen (w ++ rest) <= EV_SSIZE_MAX → zlen (concat chunks) < 2 ^ 63 →
  received q (evhttp_get_body None (set_con_input (w ++ rest) k) q) (concat chunks) rest.
Proof.
  intros Hu [Hs Hc] Ht Hte Hm He Hch w Hlen Hsum. unfold evhttp_get_body. rewrite Ht, Hte. cbn [Z.eqb].
  assert ((match kind q with EVHTTP_REQUEST => true | EVHTTP_RESPONSE => false end) && negb (evhttp_method_may_have_body (type (first q))) = false) as ->.
  { destruct (kind q); [by rewrite Hm|done]. }
  unfold expect_and_read. change (evhttp_have_expect (upd_body _ q) true) with (evhttp_have_expect q true). rewrite He.
  unfold evhttp_read_body. cbn [body upd_body set_body chunked set_ntoread set_chunked settings set_state set_con_input con_input].
  destruct Hu as [Hu1 Hu2]. rewrite Hu2. subst w. rewrite <- !app_assoc in *.
  rewrite chunks_sent; [|done|done|cbn; lia|cbn; lia|done]. cbn [mbind option_bind].
  unfold evhttp_read_trailer. cbn [settings set_state set_con_input con_input].
  change (crlf ++ rest) with (concat (header_text <$> []) ++ crlf ++ rest).
  destruct (headers_read (settings k) (chunks_read chunks 0 (upd_body (λ b, set_ntoread (-1) (set_chunked true b)) q)) [] rest)
    as [n ->]; [by split|done|]. cbn [mbind option_bind].
  eexists _, _. split_and!; [done|done|done|cbn; by rewrite app_nil_r|done].
Qed.
End bodies.

(** ** Messages *)

Lemma chunks_len chunks : zlen (concat chunks) <= zlen (concat (chunk_text <$> chunks)).
Proof.
  induction chunks as [|c chunks IH]; [done|]. rewrite fmap_cons. cbn [concat]. unfold chunk_text at 1. rewrite !zlen_app.
  pose proof (zlen_nonneg (sprint_x (zlen c))). change (zlen crlf) with 2. lia.
Qed.

Section messages.
Context {MM : Malloc} {MT : MallocTotal} (words0 : list Z).
Implicit Types (q : evhttp_request (list Z)) (k : evhttp_connection (list Z)).

Lemma framed_read k q w content rest :
  unlimited (settings k) → no_body (body q) → framed (input_headers q) w content →
  (kind q = EVHTTP_REQUEST ∨ evhttp_find_header (input_headers q) (str "Transfer-Encoding") ≠ None ∨
   evhttp_find_header (input_headers q) (str "Content-Length") ≠ None) →
  (kind q = EVHTTP_REQUEST → w ≠ [] → evhttp_method_may_have_body (type (first q)) = true) →
  evhttp_have_expect q true = NO → zlen (w ++ rest) <= EV_SSIZE_MAX →
  received q (evhttp_get_body None (set_con_input (w ++ rest) k) q) content rest.
Proof.
  intros Hu Hnb Hf Hk Hm He Hl. destruct Hf as [Ht Hcl|bytes Ht Hcl|chunks te Ht Hte Hch].
  - destruct Hk as [Hk|[?|?]]; [|done|done]. unfold evhttp_get_body. rewrite Ht, Hk. unfold evhttp_get_body_length. rewrite Hcl.
    assert (∀ k', con_input k' = rest → ∀ n, received q (Some (k', upd_body (set_ntoread n) q, Done)) [] rest) as HD.
    { intros k' Ek n. eexists _, _. split_and!; [done|done|done|done|cbn; by rewrite app_nil_r]. }
    destruct (evhttp_method_may_have_body _); cbn [negb andb].
    + destruct (evhttp_find_header _ (str "Connection")) as [cn|]; [destruct (negb _)|]; by apply HD.
    + exists (set_con_input ([] ++ rest) k), q. split_and!; [done|done|done|done|by rewrite app_nil_r].
  - by apply get_body_sized; auto.
  - eapply get_body_chunked; try done.
    + intros Hkq. apply Hm; [done|]. intros E. apply app_eq_nil in E as [_ E]. done.
    + unfold EV_SSIZE_MAX in Hl. rewrite !zlen_app in Hl. pose proof (chunks_len chunks).
      pose proof (zlen_nonneg (str "0")). pose proof (zlen_nonneg crlf). pose proof (zlen_nonneg rest). lia.
Qed.

Definition head_text (line : list Z) (hs : evkeyvalq) : list Z := line ++ crlf ++ concat (header_text <$> hs) ++ crlf.

(** Reading the first line and the headers. *)
Lemma head_read k q line hs l rest :
  unlimited (settings k) → state k = EVCON_READING_FIRSTLINE → plain line → zlen line <= EV_SIZE_MAX →
  input_headers q = [] → Forall wire_header hs →
  (match kind q with
   | EVHTTP_REQUEST => evhttp_parse_request_line words0 (Some (settings k)) (line ++ [0]) (zlen line)
   | EVHTTP_RESPONSE => evhttp_parse_response_line line
   end) (first q) = Ret tt l →
  ∃ n, evhttp_read_cb words0 None None (set_con_input (head_text line hs ++ rest) k) q =
    headers_done None None (set_con_input rest (set_state EVCON_READING_HEADERS k))
      (set_input_headers hs (set_headers_size n (set_first l q))).
Proof.
  intros Hu Hst Hp Hlen Hq Hhs Hl. unfold evhttp_read_cb. cbn [state set_con_input]. rewrite Hst.
  unfold evhttp_read_firstline. cbn [settings con_input set_con_input]. unfold head_text. rewrite <- !app_assoc.
  rewrite (firstline_read words0 (settings k) q line _ l) by done. cbn [mbind option_bind].
  unfold evhttp_read_header. cbn [settings con_input set_con_input set_state].
  destruct (headers_read (settings k) (set_first l (set_headers_size (zlen line) q)) hs rest Hu Hhs) as [n ->].
  cbn [mbind option_bind]. exists n. cbn [input_headers set_first set_headers_size]. by rewrite Hq.
Qed.

Lemma request_received k q t m uri u minor hs w content rest :
  unlimited (settings k) → state k = EVCON_READING_FIRSTLINE → has_server (Some (settings k)) →
  kind q = EVHTTP_REQUEST → input_headers q = [] → no_body (body q) →
  evhttp_method t = Some m → wire_target words0 t uri u → 0 <= minor < 128 →
  Forall wire_header hs → framed hs w content → (w ≠ [] → evhttp_method_may_have_body t = true) →
  evhttp_find_header hs (str "Expect") = None →
  zlen (head_text (request_text m uri minor) hs ++ w ++ rest) <= EV_SSIZE_MAX →
  ∃ k1 q1 flags,
    evhttp_read_cb words0 None None (set_con_input (head_text (request_text m uri minor) hs ++ w ++ rest) k) q =
      Some (k1, q1, Done) ∧
    con_input k1 = rest ∧ input_headers q1 = hs ∧ input_buffer (body q1) = input_buffer (body q) ++ content ∧
    first q1 = Line flags t (Some uri) (Some u) 1 minor (response_code (first q)) (response_code_line (first q)).
Proof.
  intros Hu Hst Hsv Hk Hq Hnb Hm Hw Hv Hhs Hf Hmb He Hl.
  destruct (request_line_read words0 (settings k) t m uri u minor (first q) _ Hm Hw Hv Hsv eq_refl) as [flags Hline].
  set (line := request_text m uri minor) in *.
  assert (plain line) as Hpl.
  { destruct (method_inverse t m Hm) as (_ & ? & _). destruct (version_plain minor Hv) as (? & _). destruct Hw as (? & _).
    subst line. unfold request_text. rewrite !plain_app. split_and!; try done; by repeat constructor. }
  rewrite zlen_app in Hl. unfold head_text in Hl. rewrite zlen_app in Hl.
  pose proof (zlen_nonneg (w ++ rest)). pose proof (zlen_nonneg (crlf ++ concat (header_text <$> hs) ++ crlf)). pose proof (zlen_nonneg line).
  destruct (head_read k q line hs (Line flags t (Some uri) (Some u) 1 minor (response_code (first q)) (response_code_line (first q))) (w ++ rest))
    as [n E]; [done|done|done|unfold EV_SSIZE_MAX, EV_SIZE_MAX in *; lia|done|done|by rewrite Hk|].
  rewrite E. unfold headers_done. change (0 <? 0) with false. cbv iota.
  cbn [kind set_input_headers set_headers_size set_first]. rewrite Hk.
  match goal with |- context [evhttp_get_body None _ ?q2] => set (q1 := q2) end.
  destruct (framed_read (set_state EVCON_READING_HEADERS k) q1 w content rest) as (k2 & q2 & E2 & R1 & R2 & R3 & R4); try done.
  - by left.
  - unfold evhttp_have_expect. subst q1. cbn [kind set_input_headers set_headers_size set_first input_headers]. rewrite Hk, He. by destruct (negb _).
  - lia.
  - exists k2, q2, flags. by split_and!.
Qed.

(** The reply must be one that has a body. *)
Lemma response_received k q minor code reason hs w content rest :
  unlimited (settings k) → state k = EVCON_READING_FIRSTLINE →
  kind q = EVHTTP_RESPONSE → input_headers q = [] → no_body (body q) →
  0 <= minor < 128 → 200 <= code < 2 ^ 31 → code ≠ HTTP_NOCONTENT → code ≠ HTTP_NOTMODIFIED →
  type (first q) ≠ EVHTTP_REQ_CONNECT → type (first q) ≠ EVHTTP_REQ_HEAD →
  plain reason → Forall wire_header hs → framed hs w content →
  (evhttp_find_header hs (str "Transfer-Encoding") ≠ None ∨ evhttp_find_header hs (str "Content-Length") ≠ None) →
  zlen (head_text (response_text minor code reason) hs ++ w ++ rest) <= EV_SSIZE_MAX →
  ∃ k1 q1,
    evhttp_read_cb words0 None None (set_con_input (head_text (response_text minor code reason) hs ++ w ++ rest) k) q =
      Some (k1, q1, Done) ∧
    con_input k1 = rest ∧ input_headers q1 = hs ∧ input_buffer (body q1) = input_buffer (body q) ++ content ∧
    first q1 = set_response_line (Some reason) (set_response code (set_version 1 minor (first q))).
Proof.
  intros Hu Hst Hk Hq Hnb Hv Hc H204 H304 Hco Hhe Hr Hhs Hf Hfr Hl.
  set (line := response_text minor code reason) in *.
  assert (plain line ∧ zlen reason <= zlen line) as [Hpl Hrl].
  { destruct (version_plain minor Hv) as (? & _). subst line. unfold response_text. rewrite !plain_app, !zlen_app.
    pose proof (zlen_nonneg (version_text minor)). pose proof (zlen_nonneg (sprint_d code)). pose proof (zlen_nonneg (str " ")).
    split; [|lia]. split_and!; try done; try (by repeat constructor). apply sprint_d_plain. lia. }
  rewrite zlen_app in Hl. unfold head_text in Hl. rewrite zlen_app in Hl.
  pose proof (zlen_nonneg (w ++ rest)). pose proof (zlen_nonneg (crlf ++ concat (header_text <$> hs) ++ crlf)). pose proof (zlen_nonneg line).
  set (l := set_response_line (Some reason) (set_response code (set_version 1 minor (first q)))).
  destruct (head_read k q line hs l (w ++ rest)) as [n E];
    [done|done|done|unfold EV_SSIZE_MAX, EV_SIZE_MAX in *; lia|done|done| |].
  { rewrite Hk. apply response_line_read; [done|lia|]. unfold EV_SSIZE_MAX, EV_SIZE_MAX in *; lia. }
  rewrite E. unfold headers_done. change (0 <? 0) with false. cbv iota.
  cbn [kind set_input_headers set_headers_size set_first]. rewrite Hk.
  match goal with |- context [evhttp_get_body None _ ?q2] => set (q1 := q2) end.
  assert (response_code (first q1) = code) as Ec by done. rewrite Ec. destruct (Z.eqb_spec code 100); [lia|].
  assert (evhttp_response_needs_body q1 = true) as ->.
  { unfold evhttp_response_needs_body. rewrite Ec. change (type (first q1)) with (type (first q)).
    destruct (Z.eqb_spec code HTTP_NOCONTENT), (Z.eqb_spec code HTTP_NOTMODIFIED), (Z.ltb_spec code 100), (Z.leb_spec 200 code),
      (Z.eqb_spec (type (first q)) EVHTTP_REQ_CONNECT), (Z.eqb_spec (type (first q)) EVHTTP_REQ_HEAD); done || lia. }
  cbn [negb].
  destruct (framed_read (set_state EVCON_READING_HEADERS k) q1 w content rest) as (k2 & q2 & E2 & R1 & R2 & R3 & R4); try done.
  - by right.
  - change (kind q1) with (kind q). by rewrite Hk.
  - unfold evhttp_have_expect. change (kind q1) with (kind q). by rewrite Hk.
  - lia.
  - exists k2, q2. by split_and!.
Qed.
End messages.
