(* ===== verification/HttpSend.v ===== *)
(** * Writing messages to real buffers

    What [evhttp_make_header] and the chunked replies append to the output of a
    connection, for any buffer that keeps the promises of [EvbufferIface]. *)
From S2P Require Import Prelude Outcome Lines Evutil InetDefs Inet InetThms EvbufferDefs EvbufferIface EvbufferImpl HttpUriDefs HttpText HttpUri HttpUriParse HttpMsgDefs HttpConnDefs HttpFlat HttpCut HttpRead HttpWire.

(** ** Lists of headers *)

Section lists.
Implicit Types (hs : evkeyvalq).

Lemma find_header_app hs1 hs2 key :
  evhttp_find_header (hs1 ++ hs2) key =
  match evhttp_find_header hs1 key with Some v => Some v | None => evhttp_find_header hs2 key end.
Proof. induction hs1 as [|[k v] hs IH]; [done|]. simpl. by destruct (_ =? 0). Qed.
Lemma find_removed hs k key : evhttp_find_header hs key = None → evhttp_find_header (evhttp_remove_header hs k).1 key = None.
Proof.
  induction hs as [|[k' v] hs IH]; [done|]. simpl. destruct (evutil_ascii_strcasecmp k' key =? 0) eqn:E; [done|].
  intros H. destruct (evutil_ascii_strcasecmp k' k =? 0); [done|].
  destruct (evhttp_remove_header hs k) as [hs' rc]. simpl in *. rewrite E. auto.
Qed.
Lemma removed_Forall (P : list Z * list Z → Prop) hs k : Forall P hs → Forall P (evhttp_remove_header hs k).1.
Proof.
  induction 1 as [|[k' v] hs H Hs IH]; [done|]. simpl. destruct (_ =? 0); [done|].
  destruct (evhttp_remove_header hs k) as [hs' rc]. simpl in *. by constructor.
Qed.

(** Keys that differ otherwise than in case. *)
Definition other_key (k key : list Z) : Prop := EVUTIL_TOLOWER_ <$> k ≠ EVUTIL_TOLOWER_ <$> key.
Lemma find_removed_other hs k key :
  Forall (λ h, Forall byte h.1) hs → Forall byte k → Forall byte key → other_key k key →
  evhttp_find_header (evhttp_remove_header hs k).1 key = evhttp_find_header hs key.
Proof.
  intros Hb Hk Hkey Ho. induction Hb as [|[k' v] hs H Hs IH]; [done|]. simpl in H |- *.
  destruct (Z.eqb_spec (evutil_ascii_strcasecmp k' k) 0) as [E|E].
  - destruct (Z.eqb_spec (evutil_ascii_strcasecmp k' key) 0) as [E'|]; [|done]. exfalso. apply Ho.
    apply strcasecmp_eq in E, E'; [|done..]. congruence.
  - destruct (evhttp_remove_header hs k) as [hs' rc]. simpl in *. by rewrite IH.
Qed.
Lemma find_other k v key : Forall byte k → Forall byte key → other_key k key → evhttp_find_header [(k, v)] key = None.
Proof.
  intros Hk Hkey Ho. simpl. destruct (Z.eqb_spec (evutil_ascii_strcasecmp k key) 0) as [E|]; [|done].
  apply strcasecmp_eq in E; [|done..]. done.
Qed.
End lists.

Lemma own_header k n : 0 <= n < 2 ^ 64 → plain k → (58 ∉ k) → blank (hd 58 k) = false → zlen k < EV_SIZE_MAX → wire_header (k, sprint_u n).
Proof.
  intros Hn Hk Hc Hb Hl. destruct (printed_digits 10 n) as [Hd Hne]; [lia|lia|].
  pose proof (to_base_zlen 64 10 n). unfold wire_header. cbn [fst snd]. split_and!; try done.
  - by apply sprint_u_plain.
  - intros E. unfold sprint_u in E. destruct (to_base 64 10 n) as [|c ds]; [done|]. simpl in E. subst c.
    apply Forall_inv in Hd. done.
  - intros c E. unfold sprint_u in E. apply last_Some_elem_of in E. apply (proj1 (Forall_forall _ _) Hd) in E.
    unfold is_blank. destruct (Z.eqb_spec c 32) as [->|]; [done|]. by destruct (Z.eqb_spec c 9) as [->|].
  - unfold sprint_u, EV_SIZE_MAX. lia.
Qed.
Lemma printed_length n : 0 <= n < 2 ^ 64 → evutil_snprintf 22 (sprint_u n) = sprint_u n.
Proof.
  intros Hn. unfold evutil_snprintf, sprint_u. apply ztake_all.
  pose proof (to_base_len 10 64 ltac:(lia) n 20 ltac:(lia)). lia.
Qed.

Section send.
Context {MM : Malloc} {MT : MallocTotal} {B : Type} {EB : EvbufferOps B} {EL : EvbufferLaws B}.
Implicit Types (c : evhttp_connection B) (r : evhttp_request B).

(** [c'] is [c] with [text] appended to its output. *)
Record wrote c (text : list Z) c' : Prop := {
  wr_settings : settings c' = settings c;
  wr_state : state c' = state c;
  wr_input : con_input c' = con_input c;
  wr_inv : eb_inv (con_output c');
  wr_bytes : eb_bytes (con_output c') = eb_bytes (con_output c) ++ text
}.
Lemma wrote_nil c : eb_inv (con_output c) → wrote c [] c.
Proof. intros H. split; try done. by rewrite app_nil_r. Qed.
Lemma wrote_trans c1 c2 c3 t1 t2 : wrote c1 t1 c2 → wrote c2 t2 c3 → wrote c1 (t1 ++ t2) c3.
Proof. intros [] []. split; try congruence. rewrite app_assoc. congruence. Qed.
Definition fits_output c (n : Z) : Prop := zlen (eb_bytes (con_output c)) + n <= eb_cap (B := B).
Lemma wrote_fits c t c' n : wrote c t c' → fits_output c (zlen t + n) → fits_output c' n.
Proof. intros []. unfold fits_output. rewrite wr_bytes0, zlen_app. lia. Qed.

Lemma add_output_ok c text :
  eb_inv (con_output c) → fits_output c (zlen text) → ∃ c', add_output text c = Some c' ∧ wrote c text c'.
Proof.
  intros Hi Hf. unfold add_output. destruct (eb_add_printf_ok (con_output c) text Hi Hf) as (b & -> & Hi' & E).
  eexists. split; [done|]. by split.
Qed.
Lemma eb_add_wrote c text :
  eb_inv (con_output c) → fits_output c (zlen text) →
  ∃ b, eb_add (con_output c) text = Some (b, 0) ∧ wrote c text (set_con_output b c).
Proof.
  intros Hi Hf. destruct (eb_add_ok (con_output c) text Hi Hf) as (b & -> & Hi' & E). exists b. by split.
Qed.

Lemma add_headers_ok hs c :
  eb_inv (con_output c) → fits_output c (zlen (concat (header_text <$> hs))) →
  ∃ c', add_headers hs c = Some c' ∧ wrote c (concat (header_text <$> hs)) c'.
Proof.
  revert c. induction hs as [|[k v] hs IH]; intros c Hi Hf.
  - exists c. split; [done|]. by apply wrote_nil.
  - rewrite fmap_cons in *. cbn [concat add_headers] in *. rewrite zlen_app in Hf. pose proof (zlen_nonneg (concat (header_text <$> hs))).
    change (k ++ str ": " ++ v ++ crlf) with (header_text (k, v)).
    destruct (add_output_ok c (header_text (k, v)) Hi) as (c1 & -> & H1); [unfold fits_output in *; lia|]. cbn [mbind option_bind].
    destruct (IH c1 (wr_inv _ _ _ H1) (wrote_fits _ _ _ _ H1 Hf)) as (c2 & -> & H2). exists c2. split; [done|].
    by eapply wrote_trans.
Qed.

(** The headers of a request as sent. *)
Definition sent_headers r : evkeyvalq :=
  (evhttp_remove_header (output_headers r) (str "Proxy-Connection")).1 ++
  (if (type (first r) =? EVHTTP_REQ_POST) || (type (first r) =? EVHTTP_REQ_PUT)
   then [(str "Content-Length", sprint_u (zlen (eb_bytes (output_buffer r))))] else []).

Lemma make_header_request_ok c r m uri minor' :
  eb_inv (con_output c) → eb_inv (output_buffer r) →
  evhttp_method (type (first r)) = Some m → req_uri (first r) = Some uri → major (first r) = 1 → minor (first r) = minor' →
  evhttp_find_header (output_headers r) (str "Content-Length") = None →
  fits_output c (zlen (request_text m uri minor' ++ crlf)) →
  ∃ c', evhttp_make_header_request c r = Some (c', set_output_headers (sent_headers r) r) ∧ wrote c (request_text m uri minor' ++ crlf) c'.
Proof.
  intros Hi Ho Hm Hu Hma Hmi Hcl Hf. unfold evhttp_make_header_request, sprint_version. rewrite Hm, Hu, Hma, Hmi. cbn [default from_option id mbind option_bind].
  change (m ++ str " " ++ uri ++ str " HTTP/" ++ (sprint_d 1 ++ str "." ++ sprint_d minor') ++ crlf)
    with (m ++ str " " ++ uri ++ str " " ++ version_text minor' ++ crlf).
  assert (m ++ str " " ++ uri ++ str " " ++ version_text minor' ++ crlf = request_text m uri minor' ++ crlf) as ->.
  { unfold request_text. by rewrite <- !app_assoc. }
  destruct (add_output_ok c _ Hi Hf) as (c' & -> & Hw). exists c'. split; [|done]. cbn [mbind option_bind]. do 3 f_equal.
  unfold sent_headers. rewrite find_removed by done. rewrite bool_decide_eq_false_2 by (by intros []). cbn [negb].
  destruct (_ || _); cbn [andb]; [|by rewrite app_nil_r].
  destruct (eb_length_ok (output_buffer r) Ho) as [-> Hc]. pose proof eb_cap_int. pose proof (zlen_nonneg (eb_bytes (output_buffer r))).
  unfold INT_MAX in *. rewrite printed_length by lia. unfold add_own. rewrite add_header_ok; [done|by apply (bool_decide_unpack _); vm_compute| |done|].
  - apply sprint_u_plain. lia.
  - unfold sprint_u. pose proof (to_base_zlen 64 10 (zlen (eb_bytes (output_buffer r)))). unfold EV_SIZE_MAX. lia.
Qed.

(** [evhttp_make_header] behind the first line. *)
Definition finish_header c r : option (evhttp_connection B * evhttp_request B) :=
  evcon ← add_headers (output_headers r) c;
  '(out, _) ← eb_add (con_output evcon) crlf;
  let evcon := set_con_output out evcon in
  let continues := match evhttp_have_expect r false with CONTINUE => true | _ => false end in
  if negb continues && negb (eb_length (output_buffer r) =? 0) then
    '(out, rest, _) ← eb_add_buffer (con_output evcon) (output_buffer r);
    Some (set_con_output out evcon, set_output_buffer rest r)
  else Some (evcon, r).
Lemma make_header_finish now c r :
  evhttp_make_header now c r =
  '(c, r) ← (match kind r with
             | EVHTTP_REQUEST => evhttp_make_header_request c r
             | EVHTTP_RESPONSE => evhttp_make_header_response now c r
             end);
  finish_header c r.
Proof. done. Qed.

Lemma finish_header_ok c r :
  eb_inv (con_output c) → eb_inv (output_buffer r) → evhttp_have_expect r false ≠ CONTINUE →
  let text := concat (header_text <$> output_headers r) ++ crlf ++ eb_bytes (output_buffer r) in
  fits_output c (zlen text) →
  ∃ c' b, finish_header c r = Some (c', set_output_buffer b r) ∧ wrote c text c' ∧ eb_inv b ∧ eb_bytes b = [].
Proof.
  intros Hi Ho He text Hf. subst text. unfold finish_header.
  set (t := concat (header_text <$> output_headers r)) in *. rewrite !zlen_app in Hf.
  pose proof (zlen_nonneg t). pose proof (zlen_nonneg (eb_bytes (output_buffer r))).
  destruct (add_headers_ok (output_headers r) c Hi) as (c1 & -> & H1); [fold t; change (zlen crlf) with 2 in Hf; unfold fits_output in *; lia|].
  fold t in H1. cbn [mbind option_bind].
  destruct (eb_add_wrote c1 crlf (wr_inv _ _ _ H1)) as (b1 & -> & H2).
  { eapply wrote_fits; [exact H1|]. unfold fits_output in *. lia. }
  cbn [mbind option_bind]. pose proof (wrote_trans _ _ _ _ _ H1 H2) as H12.
  assert (negb match evhttp_have_expect r false with CONTINUE => true | _ => false end = true) as -> by (by destruct (evhttp_have_expect r false)).
  destruct (eb_length_ok (output_buffer r) Ho) as [-> _]. cbn [andb].
  destruct (Z.eqb_spec (zlen (eb_bytes (output_buffer r))) 0) as [E|E]; cbn [negb].
  - exists (set_con_output b1 c1), (output_buffer r). apply zlen_nil_inv in E.
    split; [by destruct r|]. split; [|done]. by rewrite E, app_nil_r.
  - destruct (eb_add_buffer_ok (con_output (set_con_output b1 c1)) (output_buffer r) (wr_inv _ _ _ H2) Ho) as (b2 & b3 & -> & H3 & H4 & E3 & E4).
    { pose proof (wrote_fits _ _ _ (zlen (eb_bytes (output_buffer r))) H12) as Hf2. unfold fits_output in *. rewrite !zlen_app in Hf2. lia. }
    cbn [mbind option_bind]. exists (set_con_output b2 (set_con_output b1 c1)), b3. split; [done|]. split; [|done].
    rewrite app_assoc. eapply wrote_trans; [exact H12|]. by split.
Qed.

(** A request on the wire. *)
Lemma make_header_request_sent now c r m uri minor' :
  eb_inv (con_output c) → eb_inv (output_buffer r) → kind r = EVHTTP_REQUEST →
  evhttp_method (type (first r)) = Some m → req_uri (first r) = Some uri → major (first r) = 1 → minor (first r) = minor' →
  evhttp_find_header (output_headers r) (str "Content-Length") = None →
  evhttp_find_header (sent_headers r) (str "Expect") = None →
  let text := head_text (request_text m uri minor') (sent_headers r) ++ eb_bytes (output_buffer r) in
  fits_output c (zlen text) →
  ∃ c' r', evhttp_make_header now c r = Some (c', r') ∧ wrote c text c' ∧ output_headers r' = sent_headers r ∧
    eb_inv (output_buffer r') ∧ eb_bytes (output_buffer r') = [].
Proof.
  intros Hi Ho Hk Hm Hu Hma Hmi Hcl He text Hf. subst text. rewrite make_header_finish, Hk.
  unfold head_text in *. set (line := request_text m uri minor') in *.
  assert ((line ++ crlf ++ concat (header_text <$> sent_headers r) ++ crlf) ++ eb_bytes (output_buffer r) =
    (line ++ crlf) ++ concat (header_text <$> sent_headers r) ++ crlf ++ eb_bytes (output_buffer r)) as Et by (by rewrite <- !app_assoc).
  rewrite Et in *. set (t := concat (header_text <$> sent_headers r) ++ crlf ++ eb_bytes (output_buffer r)) in *.
  rewrite zlen_app in Hf. pose proof (zlen_nonneg t).
  destruct (make_header_request_ok c r m uri minor' Hi Ho Hm Hu Hma Hmi Hcl) as (c1 & -> & H1); [unfold fits_output in *; fold line; lia|].
  cbn [mbind option_bind]. fold line in H1.
  destruct (finish_header_ok c1 (set_output_headers (sent_headers r) r)) as (c2 & b & -> & H2 & Hb & Eb).
  - apply H1.
  - done.
  - unfold evhttp_have_expect. cbn [kind output_headers set_output_headers]. rewrite Hk, He. by destruct (negb _).
  - eapply wrote_fits; [exact H1|]. done.
  - exists c2. eexists. split; [done|]. split; [|done]. by eapply wrote_trans.
Qed.

(** *** Replies *)

(** Headers that can be sent as they are, with what they say of the encoding. *)
Definition headers_len (hs : evkeyvalq) : Z := zlen (concat (header_text <$> hs)).
Definition kept (te : option (list Z)) (n : Z) (hs : evkeyvalq) : Prop :=
  Forall wire_header hs ∧ evhttp_find_header hs (str "Transfer-Encoding") = te ∧ headers_len hs <= n.
Definition own (k v : list Z) : Prop := wire_header (k, v) ∧ other_key k (str "Transfer-Encoding").
Lemma text_bytes t : bool_decide (plain t) = true → Forall byte t.
Proof. intros H%bool_decide_eq_true. by apply plain_bytes. Qed.
Lemma te_bytes : Forall byte (str "Transfer-Encoding").
Proof. by apply text_bytes; vm_compute. Qed.

Lemma headers_len_app hs1 hs2 : headers_len (hs1 ++ hs2) = headers_len hs1 + headers_len hs2.
Proof. unfold headers_len. by rewrite fmap_app, concat_app, zlen_app. Qed.
Lemma headers_len_cons k v hs : headers_len ((k, v) :: hs) = zlen k + zlen v + 4 + headers_len hs.
Proof.
  unfold headers_len. rewrite fmap_cons. cbn [concat]. unfold header_text at 1. cbn [fst snd]. rewrite !zlen_app.
  change (zlen crlf) with 2. change (zlen (str ": ")) with 2. lia.
Qed.
Lemma kept_le te n m hs : kept te n hs → n <= m → kept te m hs.
Proof. intros (? & ? & ?) ?. split_and!; [done|done|lia]. Qed.
Lemma kept_add te n hs k v : own k v → kept te n hs → kept te (n + zlen k + zlen v + 4) (add_own hs k v).
Proof.
  intros [Hw Ho] (Hhs & E & Hn). unfold add_own. destruct Hw as (Hk & Hc & Hb & Hv & H32 & Hl & Hk1 & Hv1). cbn [fst snd] in *.
  rewrite add_header_ok by done. cbn [fst]. split_and!.
  - apply Forall_app. split; [done|]. by repeat constructor.
  - rewrite find_header_app, E. destruct te; [done|]. apply find_other; [by apply plain_bytes|apply te_bytes|done].
  - rewrite headers_len_app, headers_len_cons. change (headers_len []) with 0. lia.
Qed.
Lemma removed_len hs k : headers_len (evhttp_remove_header hs k).1 <= headers_len hs.
Proof.
  induction hs as [|[k' v] hs IH]; [done|]. simpl. destruct (_ =? 0).
  - simpl. rewrite headers_len_cons. pose proof (zlen_nonneg k'). pose proof (zlen_nonneg v). lia.
  - destruct (evhttp_remove_header hs k) as [hs' rc]. simpl in *. rewrite !headers_len_cons. lia.
Qed.
Lemma kept_remove te n hs k :
  bool_decide (plain k) = true → other_key k (str "Transfer-Encoding") → kept te n hs → kept te n (evhttp_remove_header hs k).1.
Proof.
  intros Hk Ho (Hhs & E & Hn). pose proof (removed_len hs k). split_and!; [by apply removed_Forall| |lia]. rewrite find_removed_other; [done| |by apply text_bytes|apply te_bytes|done].
  eapply Forall_impl; [exact Hhs|]. intros h (Hp & _). by apply plain_bytes.
Qed.

Definition valid_tm (t : tm) : Prop :=
  0 <= tm_wday t < 7 ∧ 0 <= tm_mon t < 12 ∧ 0 <= tm_mday t < 100 ∧ 0 <= tm_hour t < 100 ∧ 0 <= tm_min t < 100 ∧
  0 <= tm_sec t < 100 ∧ 0 <= 1900 + tm_year t < 10000.
(** What a server adds on its own can be sent. *)
Definition plain_server c : Prop :=
  ∃ http, http_server (settings c) = Some http ∧ ∀ t, default_content_type http = Some t → wire_header (str "Content-Type", t).

Lemma small_02d n : 0 <= n < 100 → plain (sprint_02d n) ∧ zlen (sprint_02d n) = 2.
Proof.
  intros Hn. assert (forallb (λ n, bool_decide (plain (sprint_02d (Z.of_nat n))) && (zlen (sprint_02d (Z.of_nat n)) =? 2)) (seq 0 100) = true) as H by by vm_compute.
  rewrite forallb_forall in H. specialize (H (Z.to_nat n)). rewrite in_seq, Z2Nat.id, andb_true_iff, bool_decide_eq_true, Z.eqb_eq in H by lia.
  apply H. lia.
Qed.
Lemma year_4d n : 0 <= n < 10000 → plain (sprint_4d n) ∧ zlen (sprint_4d n) = 4.
Proof.
  intros Hn. unfold sprint_4d, sprint_d. destruct (Z.ltb_spec n 0); [lia|]. pose proof (sprint_u_plain n ltac:(lia)).
  pose proof (to_base_len 10 64 ltac:(lia) n 4 ltac:(lia) ltac:(lia)). fold (sprint_u n) in *. pose proof (zlen_nonneg (sprint_u n)).
  rewrite plain_app, zlen_app, zlen_zrepeat by lia. split; [split; [|done]|lia].
  unfold zrepeat. apply Forall_replicate. by vm_compute.
Qed.

Lemma date_ok t : valid_tm t → ∃ d, evutil_date_rfc1123 t = Some d ∧ zlen d = 29 ∧ wire_header (str "Date", d).
Proof.
  intros (H1 & H2 & H3 & H4 & H5 & H6 & H7). unfold evutil_date_rfc1123.
  assert (∃ day, zget DAYS (tm_wday t) = Some day ∧ plain day ∧ zlen day = 3 ∧ hd 0 day ≠ 32) as (day & -> & Hd1 & Hd2 & Hd3).
  { assert (forallb (λ n, match zget DAYS (Z.of_nat n) with Some d => bool_decide (plain d) && (zlen d =? 3) && negb (hd 0 d =? 32) | None => false end) (seq 0 7) = true) as H by by vm_compute.
    rewrite forallb_forall in H. specialize (H (Z.to_nat (tm_wday t))). rewrite in_seq, Z2Nat.id in H by lia. specialize (H ltac:(lia)).
    destruct (zget DAYS (tm_wday t)) as [d|]; [|done]. rewrite !andb_true_iff, bool_decide_eq_true, Z.eqb_eq, negb_true_iff, Z.eqb_neq in H. exists d. tauto. }
  assert (∃ mon, zget MONTHS (tm_mon t) = Some mon ∧ plain mon ∧ zlen mon = 3) as (mon & -> & Hm1 & Hm2).
  { assert (forallb (λ n, match zget MONTHS (Z.of_nat n) with Some d => bool_decide (plain d) && (zlen d =? 3) | None => false end) (seq 0 12) = true) as H by by vm_compute.
    rewrite forallb_forall in H. specialize (H (Z.to_nat (tm_mon t))). rewrite in_seq, Z2Nat.id in H by lia. specialize (H ltac:(lia)).
    destruct (zget MONTHS (tm_mon t)) as [d|]; [|done]. rewrite !andb_true_iff, bool_decide_eq_true, Z.eqb_eq in H. exists d. tauto. }
  cbn [mbind option_bind]. destruct (small_02d _ H3), (small_02d _ H4), (small_02d _ H5), (small_02d _ H6), (year_4d _ H7).
  eexists. split; [done|]. match goal with |- zlen ?d = _ ∧ _ => set (x := d) end.
  assert (zlen x = 29) as Hx.
  { subst x. rewrite !zlen_app. change (zlen (str ", ")) with 2. change (zlen (str " ")) with 1. change (zlen (str ":")) with 1. change (zlen (str " GMT")) with 4. lia. }
  split; [done|]. unfold wire_header. cbn [fst snd]. split_and!.
  - by apply (bool_decide_unpack _); vm_compute.
  - by apply (bool_decide_unpack _); vm_compute.
  - done.
  - subst x. rewrite !plain_app. split_and!; try done; by apply (bool_decide_unpack _); vm_compute.
  - subst x. destruct day; [done|]. done.
  - intros ch. subst x. rewrite !app_assoc. change (str " GMT") with (str " GM" ++ [84]). rewrite app_assoc, last_snoc. by intros [= <-].
  - done.
  - rewrite Hx. done.
Qed.

Lemma date_kept now te n hs hs' :
  valid_tm now → evhttp_maybe_add_date_header now hs = Some hs' → kept te n hs → kept te (n + 40) hs'.
Proof.
  intros Hn. unfold evhttp_maybe_add_date_header.
  destruct (evhttp_find_header hs (str "Date")); [intros [= <-] Hk; eapply kept_le; [exact Hk|lia]|].
  destruct (date_ok now Hn) as (d & -> & Hl & Hw). cbn [mbind option_bind].
  destruct (0 <? u64 (50 - zlen d)); [|intros [= <-] Hk; eapply kept_le; [exact Hk|lia]].
  intros [= <-] Hk. unfold evutil_snprintf. rewrite ztake_all by lia.
  eapply kept_le; [apply kept_add; [|exact Hk]|rewrite Hl; change (zlen (str "Date")) with 4; lia].
  split; [done|by vm_compute].
Qed.
Lemma date_total now hs : valid_tm now → ∃ hs', evhttp_maybe_add_date_header now hs = Some hs'.
Proof.
  intros Hn. unfold evhttp_maybe_add_date_header. destruct (date_ok now Hn) as (d & -> & _). cbn [mbind option_bind]. repeat case_match; eauto.
Qed.
Lemma length_kept te m hs n : 0 <= n < 2 ^ 64 → kept te m hs → kept te (m + 40) (evhttp_maybe_add_content_length_header hs n).
Proof.
  intros Hn Hk. unfold evhttp_maybe_add_content_length_header.
  assert (kept te (m + 40) hs) as Hk' by (eapply kept_le; [exact Hk|lia]). repeat case_match; try done.
  rewrite printed_length by done. pose proof (to_base_len 10 64 ltac:(lia) n 20 ltac:(lia)).
  eapply kept_le; [apply kept_add; [|exact Hk]|change (zlen (str "Content-Length")) with 14; unfold sprint_u; lia].
  split; [|by vm_compute]. apply own_header; [done| | |done|done]; by apply (bool_decide_unpack _); vm_compute.
Qed.
(** How long the default type is. *)
Definition type_len c : Z :=
  match s ← http_server (settings c); default_content_type s with Some t => zlen t | None => 0 end.
Lemma default_type_kept c r te n hs :
  plain_server c → kept te n hs → ∃ hs', default_type c r hs = Some hs' ∧ kept te (n + type_len c + 16) hs'.
Proof.
  intros (http & Eh & Ht) Hk. unfold default_type, type_len. rewrite Eh. cbn [mbind option_bind].
  assert (kept te (n + match default_content_type http with Some t => zlen t | None => 0 end + 16) hs) as Hk'.
  { eapply kept_le; [exact Hk|]. destruct (default_content_type http) as [t|]; [pose proof (zlen_nonneg t)|]; lia. }
  destruct (evhttp_response_needs_body r); [|eauto]. destruct (evhttp_find_header hs (str "Content-Type")); [eauto|].
  eexists. split; [done|]. destruct (default_content_type http) as [t|]; [|done].
  eapply kept_le; [apply kept_add; [|exact Hk]|change (zlen (str "Content-Type")) with 12; lia].
  split; [by apply Ht|by vm_compute].
Qed.
Lemma connection_own v : v ∈ [str "close"; str "keep-alive"] → own (str "Connection") v.
Proof.
  intros Hv. split; [|by vm_compute]. unfold wire_header. cbn [fst snd].
  set_unfold in Hv. destruct Hv as [->|[->|[]]]; (split_and!; try done; try (by apply (bool_decide_unpack _); vm_compute); by intros ? [= <-]).
Qed.
Lemma close_kept r te n hs : kept te n hs → kept te (n + 19) (close_headers r hs).
Proof.
  intros Hk. unfold close_headers. destruct (evhttp_is_connection_close _ _); [|eapply kept_le; [exact Hk|lia]].
  apply kept_remove; [by vm_compute|by vm_compute|]. destruct (has _ _).
  - apply kept_remove; [by vm_compute|by vm_compute|]. eapply kept_le; [exact Hk|lia].
  - eapply kept_le; [apply kept_add; [|apply kept_remove; [by vm_compute|by vm_compute|exact Hk]]|].
    + apply connection_own. set_solver.
    + change (zlen (str "Connection")) with 10. change (zlen (str "close")) with 5. lia.
Qed.

Lemma make_header_response_ok now c r minor' code reason te n :
  eb_inv (con_output c) → eb_inv (output_buffer r) → valid_tm now → plain_server c →
  major (first r) = 1 → minor (first r) = minor' → response_code (first r) = code → response_code_line (first r) = Some reason →
  kept te n (output_headers r) →
  fits_output c (zlen (response_text minor' code reason ++ crlf)) →
  ∃ c' hs, evhttp_make_header_response now c r = Some (c', set_output_headers hs r) ∧
    wrote c (response_text minor' code reason ++ crlf) c' ∧ kept te (n + type_len c + 139) hs.
Proof.
  intros Hi Ho Hn Hps Hma Hmi Hco Hre Hk Hf. unfold evhttp_make_header_response, sprint_version. cbv zeta. rewrite Hma, Hmi, Hco, Hre.
  cbn [mbind option_bind]. change (1 =? 1) with true. cbv iota.
  assert (str "HTTP/" ++ (sprint_d 1 ++ str "." ++ sprint_d minor') ++ str " " ++ sprint_d code ++ str " " ++ reason ++ crlf =
    response_text minor' code reason ++ crlf) as ->.
  { unfold response_text, version_text. by rewrite <- !app_assoc. }
  destruct (add_output_ok c _ Hi Hf) as (c1 & -> & H1). cbn [mbind option_bind].
  set (ka := evhttp_is_connection_keepalive (input_headers r)).
  destruct (date_total now (output_headers r) Hn) as [hd Ed].
  assert (∃ h1, (if 1 <=? minor' then evhttp_maybe_add_date_header now (output_headers r) else Some (output_headers r)) = Some h1 ∧ kept te (n + 40) h1)
    as (h1 & -> & Hk1).
  { destruct (1 <=? minor'); [exists hd|exists (output_headers r)]; (split; [done|]); [by eapply date_kept|eapply kept_le; [exact Hk|lia]]. }
  cbn [mbind option_bind].
  set (h2 := if (minor' =? 0) && ka then _ else h1).
  assert (kept te (n + 64) h2) as Hk2.
  { subst h2. destruct (_ && ka); [|eapply kept_le; [exact Hk1|lia]]. eapply kept_le; [apply kept_add; [|exact Hk1]|].
    - apply connection_own. set_solver.
    - change (zlen (str "Connection")) with 10. change (zlen (str "keep-alive")) with 10. lia. }
  set (h3 := if (_ || ka) && _ then _ else h2).
  assert (kept te (n + 104) h3) as Hk3.
  { subst h3. destruct ((_ || ka) && _); [|eapply kept_le; [exact Hk2|lia]].
    replace (n + 104) with (n + 64 + 40) by lia. apply length_kept; [|done].
    destruct (eb_length_ok (output_buffer r) Ho) as [-> Hc]. pose proof eb_cap_int. pose proof (zlen_nonneg (eb_bytes (output_buffer r))).
    unfold INT_MAX in *. lia. }
  assert (type_len c1 = type_len c) as Etl by (unfold type_len; by rewrite (wr_settings _ _ _ H1)).
  destruct (default_type_kept c1 r te (n + 104) h3) as (h4 & -> & Hk4); [|exact Hk3|].
  { destruct Hps as (http & Eh & Ht). exists http. by rewrite (wr_settings _ _ _ H1). }
  cbn [mbind option_bind]. eexists c1, _. split; [done|]. split; [done|]. eapply kept_le; [apply close_kept; exact Hk4|lia].
Qed.

(** *** Replies in chunks *)

Definition reason_of (code : Z) (reason : option (list Z)) : option (list Z) :=
  match reason with Some r => Some r | None => evhttp_response_phrase_internal code end.
(** Codes and types of replies with a body. *)
Definition has_body (type code : Z) : Prop :=
  200 <= code < 2 ^ 31 ∧ code ≠ HTTP_NOCONTENT ∧ code ≠ HTTP_NOTMODIFIED ∧ type ≠ EVHTTP_REQ_CONNECT ∧ type ≠ EVHTTP_REQ_HEAD.
Lemma needs_body_ok {B'} (r : evhttp_request B') : has_body (type (first r)) (response_code (first r)) → evhttp_response_needs_body r = true.
Proof.
  intros (H1 & H2 & H3 & H4 & H5). unfold evhttp_response_needs_body.
  destruct (Z.eqb_spec (response_code (first r)) HTTP_NOCONTENT), (Z.eqb_spec (response_code (first r)) HTTP_NOTMODIFIED),
    (Z.ltb_spec (response_code (first r)) 100), (Z.leb_spec 200 (response_code (first r))),
    (Z.eqb_spec (type (first r)) EVHTTP_REQ_CONNECT), (Z.eqb_spec (type (first r)) EVHTTP_REQ_HEAD); done || lia.
Qed.

(** What a server needs to start a reply in chunks. *)
Record can_reply c r (minor' code : Z) : Prop := {
  cn_output : eb_inv (con_output c);
  cn_buffer : eb_inv (output_buffer r);
  cn_empty : eb_bytes (output_buffer r) = [];
  cn_server : plain_server c;
  cn_major : major (first r) = 1;
  cn_minor : minor (first r) = minor';
  cn_version : 1 <= minor' < 128;
  cn_body : has_body (type (first r)) code;
  cn_headers : kept None (headers_len (output_headers r)) (output_headers r);
  cn_length : evhttp_find_header (output_headers r) (str "Content-Length") = None
}.
Definition head_room c r (text : list Z) : Z := headers_len (output_headers r) + type_len c + zlen text + 400.

Lemma version_len n : zlen (version_text n) <= 72.
Proof. unfold version_text. rewrite zlen_app. change (zlen (str "HTTP/1.")) with 7. pose proof (sprint_d_zlen n). lia. Qed.

Lemma reply_start_ok now c r minor' code reason text :
  can_reply c r minor' code → valid_tm now → reason_of code reason = Some text → zlen text < EV_SIZE_MAX →
  fits_output c (head_room c r text) →
  ∃ c' r', evhttp_send_reply_start now c r code reason = Some (c', r') ∧
    kept (Some (str "chunked")) (headers_len (output_headers r) + type_len c + 170) (output_headers r') ∧
    evhttp_response_needs_body r' = true ∧ chunked (body r') = true ∧
    wrote c (head_text (response_text minor' code text) (output_headers r')) c'.
Proof.
  intros [] Hn Hr Ht Hf. unfold evhttp_send_reply_start, evhttp_response_code_. fold (reason_of code reason). rewrite Hr.
  cbn [mbind option_bind]. rewrite strdup_ok by done.
  set (l := set_response_line (Some text) (set_response code (first r))).
  set (r1 := Request EVHTTP_RESPONSE l (input_headers r) (output_headers r) (headers_size r) (body r) (output_buffer r)).
  assert (evhttp_response_needs_body r1 = true) as Hnb by (by apply needs_body_ok).
  assert (REQ_VERSION_ATLEAST r1 1 1 = true) as Hv.
  { unfold REQ_VERSION_ATLEAST. subst r1 l. cbn. rewrite cn_major0, cn_minor0. destruct (Z.leb_spec 1 minor'); [done|lia]. }
  change (output_headers r1) with (output_headers r). rewrite cn_length0, Hv, Hnb. rewrite bool_decide_eq_false_2 by (by intros []). cbn [negb andb].
  assert (kept (Some (str "chunked")) (headers_len (output_headers r) + 28) (add_own (output_headers r) (str "Transfer-Encoding") (str "chunked"))) as Hk.
  { destruct cn_headers0 as (Hhs & E & _). unfold add_own. rewrite add_header_ok; [|by apply (bool_decide_unpack _); vm_compute..|done|done].
    cbn [fst]. split_and!.
    - apply Forall_app. split; [done|]. repeat constructor; cbn [fst snd]; try done; try (by apply (bool_decide_unpack _); vm_compute). by intros ? [= <-].
    - rewrite find_header_app, E. done.
    - rewrite headers_len_app, headers_len_cons. change (zlen (str "Transfer-Encoding")) with 17. change (zlen (str "chunked")) with 7.
      change (headers_len []) with 0. lia. }
  set (hs1 := add_own (output_headers r) _ _) in *.
  match goal with |- context [evhttp_make_header now c ?r0] => set (r2 := r0) end.
  rewrite make_header_finish. change (kind r2) with EVHTTP_RESPONSE. cbv iota.
  unfold head_room in Hf. pose proof (version_len minor'). pose proof (sprint_d_zlen code). pose proof (zlen_nonneg text).
  assert (zlen (response_text minor' code text ++ crlf) <= zlen text + 141) as Hll.
  { unfold response_text. rewrite !zlen_app. change (zlen (str " ")) with 1. change (zlen crlf) with 2. lia. }
  assert (0 <= headers_len (output_headers r)) by apply zlen_nonneg.
  assert (0 <= type_len c) by (unfold type_len; case_match; [apply zlen_nonneg|done]).
  destruct (make_header_response_ok now c r2 minor' code text _ _ cn_output0 cn_buffer0 Hn cn_server0 cn_major0 cn_minor0 eq_refl eq_refl Hk)
    as (c1 & hs & -> & W1 & Hk1); [unfold fits_output in *; lia|]. cbn [mbind option_bind].
  destruct (finish_header_ok c1 (set_output_headers hs r2)) as (c2 & b & -> & W2 & Hb & Eb).
  - apply W1.
  - done.
  - unfold evhttp_have_expect. cbn. done.
  - change (output_buffer (set_output_headers hs r2)) with (output_buffer r). rewrite cn_empty0. cbn [output_headers set_output_headers].
    eapply wrote_fits; [exact W1|]. destruct Hk1 as (_ & _ & Hl). unfold headers_len in Hl.
    rewrite (zlen_app (concat (header_text <$> hs))). change (zlen (crlf ++ [])) with 2. unfold fits_output, headers_len in *. lia.
  - exists c2. eexists. split; [done|]. cbn [output_headers set_output_headers set_output_buffer body]. split_and!.
    + eapply kept_le; [exact Hk1|lia].
    + exact Hnb.
    + done.
    + change (output_buffer (set_output_headers hs r2)) with (output_buffer r) in W2. rewrite cn_empty0 in W2.
      cbn [output_headers set_output_headers] in W2. rewrite app_nil_r in W2.
      pose proof (wrote_trans _ _ _ _ _ W1 W2) as W3. unfold head_text. by rewrite <- app_assoc in W3.
Qed.

(** The bytes in buffers, without the empty ones, of which nothing is sent. *)
Definition pieces_of (bufs : list B) : list (list Z) := base.filter (λ d, d ≠ []) (eb_bytes <$> bufs).
Lemma pieces_nonempty bufs : Forall (λ d, d ≠ []) (pieces_of bufs).
Proof. apply Forall_forall. intros d Hd%list_elem_of_filter. by destruct Hd. Qed.
Lemma pieces_concat bufs : concat (pieces_of bufs) = concat (eb_bytes <$> bufs).
Proof.
  unfold pieces_of. induction bufs as [|b bufs IH]; [done|]. rewrite fmap_cons, filter_cons. destruct (decide (eb_bytes b ≠ [])) as [H|H].
  - cbn [concat]. by rewrite IH.
  - cbn [concat]. destruct (eb_bytes b); [done|]. exfalso. by apply H.
Qed.

Fixpoint send_chunks c r (bufs : list B) : option (evhttp_connection B) :=
  match bufs with
  | [] => Some c
  | b :: bufs => '(c, _) ← evhttp_send_reply_chunk c r b; send_chunks c r bufs
  end.
Lemma send_chunk_ok c r b :
  eb_inv (con_output c) → eb_inv b → evhttp_response_needs_body r = true → chunked (body r) = true → eb_bytes b ≠ [] →
  fits_output c (zlen (chunk_text (eb_bytes b))) →
  ∃ c' b', evhttp_send_reply_chunk c r b = Some (c', b') ∧ wrote c (chunk_text (eb_bytes b)) c'.
Proof.
  intros Hi Hb Hn Hc Hne Hf. unfold evhttp_send_reply_chunk. destruct (eb_length_ok b Hb) as [-> Hcap]. rewrite Hn, Hc.
  pose proof eb_cap_int. pose proof (zlen_nonneg (eb_bytes b)). unfold INT_MAX in *.
  destruct (Z.eqb_spec (zlen (eb_bytes b)) 0) as [E|_]; [by apply zlen_nil_inv in E|]. cbn [negb]. rewrite u32_small by lia.
  unfold chunk_text in *. set (d := eb_bytes b) in *.
  assert (sprint_x (zlen d) ++ crlf ++ d ++ crlf = (sprint_x (zlen d) ++ crlf) ++ d ++ crlf) as Et by (by rewrite <- app_assoc).
  rewrite Et in *. rewrite !zlen_app in Hf. change (zlen crlf) with 2 in Hf. pose proof (zlen_nonneg (sprint_x (zlen d))).
  destruct (add_output_ok c (sprint_x (zlen d) ++ crlf) Hi) as (c1 & -> & W1).
  { rewrite zlen_app. change (zlen crlf) with 2. unfold fits_output in *. lia. }
  cbn [mbind option_bind].
  assert (fits_output c1 (zlen d + 2)) as Hf1.
  { eapply wrote_fits; [exact W1|]. rewrite zlen_app. change (zlen crlf) with 2. unfold fits_output in *. lia. }
  destruct (eb_add_buffer_ok (con_output c1) b (wr_inv _ _ _ W1) Hb) as (b1 & b2 & -> & I1 & I2 & E1 & E2).
  { unfold fits_output in Hf1. fold d. lia. }
  cbn [mbind option_bind].
  assert (wrote c1 d (set_con_output b1 c1)) as W2 by by split.
  destruct (eb_add_wrote (set_con_output b1 c1) crlf I1) as (b3 & -> & W3).
  { eapply wrote_fits; [exact W2|]. done. }
  cbn [mbind option_bind]. eexists _, b2. split; [done|]. eapply wrote_trans; [exact W1|]. by eapply wrote_trans.
Qed.
Lemma send_chunks_ok bufs r : ∀ c,
  eb_inv (con_output c) → Forall eb_inv bufs → evhttp_response_needs_body r = true → chunked (body r) = true →
  fits_output c (zlen (concat (chunk_text <$> pieces_of bufs))) →
  ∃ c', send_chunks c r bufs = Some c' ∧ wrote c (concat (chunk_text <$> pieces_of bufs)) c'.
Proof.
  induction bufs as [|b bufs IH]; intros c Hi Hbs Hn Hc Hf.
  - exists c. split; [done|]. by apply wrote_nil.
  - apply Forall_cons in Hbs as [Hb Hbs]. cbn [send_chunks]. unfold pieces_of in *. rewrite fmap_cons, filter_cons in *.
    destruct (decide (eb_bytes b ≠ [])) as [He|He].
    + rewrite fmap_cons in *. cbn [concat] in *. rewrite zlen_app in Hf.
      pose proof (zlen_nonneg (concat (chunk_text <$> base.filter (λ d, d ≠ []) (eb_bytes <$> bufs)))).
      destruct (send_chunk_ok c r b Hi Hb Hn Hc He) as (c1 & b1 & -> & W1); [unfold fits_output in *; lia|]. cbn [mbind option_bind].
      destruct (IH c1 (wr_inv _ _ _ W1) Hbs Hn Hc (wrote_fits _ _ _ _ W1 Hf)) as (c2 & -> & W2).
      exists c2. split; [done|]. by eapply wrote_trans.
    + assert (eb_bytes b = []) as E by (destruct (eb_bytes b); [done|]; exfalso; by apply He).
      unfold evhttp_send_reply_chunk. destruct (eb_length_ok b Hb) as [-> _]. rewrite E. cbn [mbind option_bind]. apply IH; done.
Qed.
Lemma reply_end_ok c r :
  eb_inv (con_output c) → chunked (body r) = true → fits_output c 5 →
  ∃ c' r', evhttp_send_reply_end c r = Some (c', r') ∧ wrote c (str "0" ++ crlf ++ crlf) c'.
Proof.
  intros Hi Hc Hf. unfold evhttp_send_reply_end. rewrite Hc. destruct (eb_add_wrote c (str "0" ++ crlf ++ crlf) Hi Hf) as (b & -> & W).
  eexists _, _. by split.
Qed.
End send.
