(* ===== verification/HttpDeliver.v ===== *)
(** * From one connection to another

    What has been written on one connection and arrives in pieces on another:
    the conditions under which a request or a reply can be sent and received, and
    the step from flat queues to real buffers. *)
From S2P Require Import Prelude Outcome Lines Evutil InetDefs Inet InetThms EvbufferDefs EvbufferIface EvbufferImpl HttpUriDefs HttpText HttpUri HttpUriParse HttpMsgDefs HttpConnDefs HttpFlat HttpCut HttpRead HttpWire HttpSend.

(** A message that the flat reader takes whole arrives in any pieces. *)
Lemma feed_delivers {MM : Malloc} {B : Type} {EB : EvbufferOps B} {EL : EvbufferLaws B} words0 c r p pieces k1 q1 :
  zlen words0 = 8 → Forall word16 words0 → valid_con c → valid_req r → knows_server c r →
  Forall byte (concat (p :: pieces)) → eb_bytes (con_input c) = [] →
  reading (view_con c) (view_req r) (zlen (concat (p :: pieces))) → enough_room c r (zlen (concat (p :: pieces))) →
  evhttp_read_cb words0 None None (set_con_input (concat (p :: pieces)) (view_con c)) (view_req r) = Some (k1, q1, Done) →
  con_input k1 = [] →
  ∃ c1 r1 rest, feed words0 c r (p :: pieces) = Some (c1, r1, Done, rest) ∧ view_req r1 = q1 ∧
    eb_bytes (con_input c1) = [] ∧ concat rest = [].
Proof.
  intros Hw0 Hw Hc Hr Hsv Hb Hin Hk [Hroom1 Hroom2] Ew Ek1.
  set (k := view_con c) in *. set (q := view_req r) in *. set (x := concat (p :: pieces)) in *.
  assert (con_input k = []) as Ekin by done.
  assert (Forall (Forall byte) (p :: pieces)) as Hbs.
  { clear -Hb. subst x. induction (p :: pieces) as [|y l IH]; [done|]. cbn [concat] in Hb. apply Forall_app in Hb as [? ?]. constructor; auto. }
  assert (in_message (state k)) as Hst.
  { destruct Hk as (_ & _ & Hk). unfold in_message, before_body. destruct (state k); try done; auto. }
  destruct (feed_total words0 Hw0 Hw (p :: pieces) Hbs k q Hst Hsv) as [[[[k2 q2] nx] rest] Ef]; [by rewrite Ekin|].
  assert (reading k q (zlen (con_input k ++ concat (p :: pieces)))) as Hk' by (by rewrite Ekin).
  pose proof (feed_whole words0 k q p pieces _ _ Hk' Ef) as Ha. rewrite Ekin in Ha. cbn [app] in Ha. fold x in Ha.
  rewrite Ew in Ha. unfold agree in Ha. cbn [fmap option_fmap option_map with_rest erase] in Ha. injection Ha as Es Et Ei Eq Enx. subst nx q2.
  destruct (feed_sim words0 (p :: pieces) c r k q k2 q1 Done rest) as (c1 & r1 & E1 & Hc1 & Hr1); [by apply con_rel_view|by apply req_rel_view|..|done|].
  { fold x. simpl. rewrite Hin. rewrite Hin in Hroom1. change (zlen (@nil Z)) with 0 in *. lia. }
  { done. }
  apply con_rel_view in Hc1 as [_ Hv1]. apply req_rel_view in Hr1 as [_ Hq1].
  exists c1, r1, rest. split; [done|]. split; [done|].
  rewrite Ek1 in Ei. cbn [con_input set_con_input] in Ei. symmetry in Ei. apply app_eq_nil in Ei as [Ei ->].
  split; [|done]. by rewrite <- Hv1 in Ei.
Qed.

(** A connection that waits for a message of a kind, and the request it will fill. *)
Record awaits {B : Type} {EB : EvbufferOps B} {EL : EvbufferLaws B} (c : evhttp_connection B) (r : evhttp_request B)
    (kd : evhttp_request_kind) : Prop := {
  aw_con : valid_con c;
  aw_req : valid_req r;
  aw_state : state c = EVCON_READING_FIRSTLINE;
  aw_limits : unlimited (settings c);
  aw_server : kd = EVHTTP_REQUEST → has_server (Some (settings c));
  aw_kind : kind r = kd;
  aw_headers : input_headers r = [];
  aw_body : body_size (body r) = 0 ∧ chunked (body r) = false;
  aw_buffer : eb_bytes (input_buffer (body r)) = [];
  aw_input : eb_bytes (con_input c) = []
}.
Lemma awaits_reading {B : Type} {EB : EvbufferOps B} {EL : EvbufferLaws B} (c : evhttp_connection B) r kd n :
  awaits c r kd → 0 <= n <= EV_SSIZE_MAX → reading (view_con c) (view_req r) n.
Proof.
  intros [] Hn. split; [done|]. split; [lia|]. cbn [state view_con]. rewrite aw_state0. exact aw_body0.
Qed.

(** A request that a client can send. *)
Record can_request {MM : Malloc} {B : Type} {EB : EvbufferOps B} {EL : EvbufferLaws B} words0 (r : evhttp_request B)
    (m uri : list Z) (u : evhttp_uri) (minor' : Z) : Prop := {
  rq_kind : kind r = EVHTTP_REQUEST;
  rq_buffer : eb_inv (output_buffer r);
  rq_bytes : Forall byte (eb_bytes (output_buffer r));
  rq_method : evhttp_method (type (first r)) = Some m;
  rq_uri : req_uri (first r) = Some uri;
  rq_target : wire_target words0 (type (first r)) uri u;
  rq_version : major (first r) = 1 ∧ minor (first r) = minor' ∧ 0 <= minor' < 128;
  rq_headers : Forall wire_header (output_headers r);
  rq_framing : ∀ key, key ∈ [str "Transfer-Encoding"; str "Content-Length"; str "Expect"] →
    evhttp_find_header (output_headers r) key = None;
  rq_body : eb_bytes (output_buffer r) = [] ∨ type (first r) = EVHTTP_REQ_POST ∨ type (first r) = EVHTTP_REQ_PUT
}.
Definition wire_request {B : Type} {EB : EvbufferOps B} {EL : EvbufferLaws B} (r : evhttp_request B) (m uri : list Z) : list Z :=
  head_text (request_text m uri (minor (first r))) (sent_headers r) ++ eb_bytes (output_buffer r).

Lemma crlf_bytes : Forall byte crlf.
Proof. repeat constructor; unfold byte; lia. Qed.
Lemma head_bytes line hs : plain line → Forall wire_header hs → Forall byte (head_text line hs).
Proof.
  intros Hl Hhs. pose proof crlf_bytes. unfold head_text. rewrite !Forall_app. split_and!; [by apply plain_bytes|done| |done].
  induction Hhs as [|[k v] hs Hh _ IH]; [done|]. rewrite fmap_cons. cbn [concat]. rewrite Forall_app. split; [|done].
  destruct Hh as (Hk & _ & _ & Hv & _). unfold header_text. rewrite !Forall_app. split_and!; try (by apply plain_bytes); [|done].
  by apply text_bytes; vm_compute.
Qed.

Section request_facts.
Context {MM : Malloc} {MT : MallocTotal} {B : Type} {EB : EvbufferOps B} {EL : EvbufferLaws B} (words0 : list Z) (r : evhttp_request B).
Context (m uri : list Z) (u : evhttp_uri) (minor' : Z) (Hr : can_request words0 r m uri u minor').

Lemma sent_wire : Forall wire_header (sent_headers r).
Proof using All.
  destruct Hr. unfold sent_headers. apply Forall_app. split; [by apply removed_Forall|]. case_match; [|done].
  constructor; [|done]. destruct (eb_length_ok _ rq_buffer0) as [_ Hc]. pose proof (eb_cap_int (B := B)).
  pose proof (zlen_nonneg (eb_bytes (output_buffer r))). unfold INT_MAX in *.
  apply own_header; [lia| | |done|done]; by apply (bool_decide_unpack _); vm_compute.
Qed.
Lemma sent_no key : key ∈ [str "Transfer-Encoding"; str "Expect"] → evhttp_find_header (sent_headers r) key = None.
Proof using All.
  intros Hkey. destruct Hr. unfold sent_headers. rewrite find_header_app, find_removed by (apply rq_framing0; set_solver).
  case_match; [|done]. set_unfold in Hkey. by destruct Hkey as [->|[->|[]]].
Qed.
Lemma sent_framed : framed (sent_headers r) (eb_bytes (output_buffer r)) (eb_bytes (output_buffer r)).
Proof using All.
  pose proof (sent_no (str "Transfer-Encoding") ltac:(set_solver)) as Ht. destruct Hr. unfold sent_headers in *.
  assert (evhttp_find_header (evhttp_remove_header (output_headers r) (str "Proxy-Connection")).1 (str "Content-Length") = None) as Hn.
  { apply find_removed, rq_framing0. set_solver. }
  destruct ((type (first r) =? EVHTTP_REQ_POST) || (type (first r) =? EVHTTP_REQ_PUT)) eqn:E.
  - apply framed_sized; [done|]. by rewrite find_header_app, Hn.
  - apply orb_false_iff in E as [E1%Z.eqb_neq E2%Z.eqb_neq].
    destruct rq_body0 as [->|[?|?]]; [|done|done]. rewrite app_nil_r in *. by apply framed_none.
Qed.
Lemma wire_request_bytes : Forall byte (wire_request r m uri).
Proof using All.
  pose proof sent_wire. destruct Hr. destruct rq_version0 as (_ & Em & Hv). unfold wire_request. rewrite Em. apply Forall_app. split; [|done].
  apply head_bytes; [|done]. unfold request_text. destruct (method_inverse _ _ rq_method0) as (_ & ? & _). destruct rq_target0 as (? & _).
  destruct (version_plain minor' Hv) as (? & _). rewrite !plain_app. split_and!; try done; by apply (bool_decide_unpack _); vm_compute.
Qed.
End request_facts.

(** The bytes of a reply in chunks. *)
Section reply_facts.
Context {MM : Malloc} {MT : MallocTotal} {B : Type} {EB : EvbufferOps B} {EL : EvbufferLaws B}.
Implicit Types (c : evhttp_connection B) (r : evhttp_request B) (bufs : list B).

Definition reply_tail bufs : list Z := concat (chunk_text <$> pieces_of bufs) ++ str "0" ++ crlf ++ crlf.
Lemma reply_sent now c r minor' code reason text bufs :
  can_reply c r minor' code → valid_tm now → reason_of code reason = Some text → plain text →
  Forall (λ b, eb_inv b ∧ Forall byte (eb_bytes b)) bufs →
  let n := head_room c r text + zlen (concat (chunk_text <$> pieces_of bufs)) + 5 in
  fits_output c n →
  ∃ c1 r1 c2 c3 r3,
    evhttp_send_reply_start now c r code reason = Some (c1, r1) ∧
    send_chunks c1 r1 bufs = Some c2 ∧ evhttp_send_reply_end c2 r1 = Some (c3, r3) ∧
    wrote c (head_text (response_text minor' code text) (output_headers r1) ++ reply_tail bufs) c3 ∧
    kept (Some (str "chunked")) (headers_len (output_headers r) + type_len c + 170) (output_headers r1) ∧
    zlen (head_text (response_text minor' code text) (output_headers r1) ++ reply_tail bufs) <= n.
Proof.
  intros Hcan Hnow Hrs Hpt Hbufs n Hf. subst n. set (body := concat (chunk_text <$> pieces_of bufs)) in *.
  pose proof (zlen_nonneg body) as Hb0.
  assert (Forall eb_inv bufs) as Hinv by (eapply Forall_impl; [exact Hbufs|]; by intros b []).
  assert (zlen text < EV_SIZE_MAX) as Htl.
  { pose proof (eb_cap_int (B := B)). pose proof (zlen_nonneg (eb_bytes (con_output c))). pose proof (zlen_nonneg (concat (header_text <$> output_headers r))).
    unfold fits_output, head_room, headers_len in Hf. unfold INT_MAX, EV_SIZE_MAX in *.
    assert (0 <= type_len c) by (unfold type_len; case_match; [apply zlen_nonneg|done]). lia. }
  destruct (reply_start_ok now c r minor' code reason text Hcan Hnow Hrs Htl) as (c1 & r1 & E1 & Hk & Hn & Hc & W1).
  { unfold fits_output in *. lia. }
  set (head := head_text (response_text minor' code text) (output_headers r1)) in *.
  assert (zlen head <= head_room c r text) as Hhead.
  { subst head. unfold head_text, response_text, head_room. rewrite !zlen_app. destruct Hk as (_ & _ & Hl). unfold headers_len in *.
    pose proof (version_len minor'). pose proof (sprint_d_zlen code). change (zlen (str " ")) with 1. change (zlen crlf) with 2. lia. }
  destruct (send_chunks_ok bufs r1 c1) as (c2 & E2 & W2); [apply W1|done|done|done| |].
  { eapply wrote_fits; [exact W1|]. fold body. unfold fits_output in *. lia. }
  pose proof (wrote_trans _ _ _ _ _ W1 W2) as W12. fold body in W12.
  destruct (reply_end_ok c2 r1) as (c3 & r3 & E3 & W3); [apply W2|done| |].
  { eapply wrote_fits; [exact W12|]. rewrite zlen_app. unfold fits_output in *. lia. }
  exists c1, r1, c2, c3, r3. split_and!; try done.
  - unfold reply_tail. rewrite app_assoc. by eapply wrote_trans.
  - unfold reply_tail. fold head body. rewrite !zlen_app. change (zlen (str "0")) with 1. change (zlen crlf) with 2. lia.
Qed.
Lemma reply_bytes minor' code text hs bufs :
  0 <= minor' < 128 → 200 <= code < 2 ^ 31 → plain text → Forall wire_header hs → Forall (λ b, eb_inv b ∧ Forall byte (eb_bytes b)) bufs →
  Forall byte (head_text (response_text minor' code text) hs ++ reply_tail bufs).
Proof.
  intros Hv Hc Ht Hhs Hbufs. pose proof crlf_bytes. apply Forall_app. split.
  - apply head_bytes; [|done]. unfold response_text. destruct (version_plain minor' Hv) as (? & _). rewrite !plain_app.
    assert (plain (str " ")) by (by apply (bool_decide_unpack _); vm_compute). split_and!; try done. apply sprint_d_plain. lia.
  - unfold reply_tail. rewrite !Forall_app. split_and!; [|by apply text_bytes; vm_compute|done|done].
    unfold pieces_of. induction Hbufs as [|b bufs [Hi Hb] _ IH]; [done|]. rewrite fmap_cons, filter_cons. case_decide; [|done].
    rewrite fmap_cons. cbn [concat]. apply Forall_app. split; [|done]. unfold chunk_text. rewrite !Forall_app.
    split_and!; [|done|done|done]. apply plain_bytes, digits_plain; [lia|]. destruct (eb_length_ok b Hi) as [_ Hcap].
    pose proof (eb_cap_int (B := B)). pose proof (zlen_nonneg (eb_bytes b)). unfold INT_MAX in *. lia.
Qed.
End reply_facts.
