(* ===== verification/HttpMsgThms.v ===== *)
(** * The contract of the message part of [http.c]

    Theorems about reading and writing messages on buffers that keep the promises
    of [EvbufferIface], with concrete instances on the buffers of [buffer.c]. *)
From S2P Require Import Prelude Outcome Lines Evutil InetDefs Inet EvbufferDefs Evbuffer EvbufferOps EvbufferIface EvbufferImpl HttpUriDefs HttpText HttpUri HttpUriParse HttpUriThms HttpMsgDefs HttpConnDefs HttpFlat HttpCut HttpRead HttpWire HttpSend HttpDeliver.

(** ** Concrete connections *)

#[local] Existing Instances HttpUriThms.text_malloc HttpUriThms.text_malloc_total.
Definition demo_empty : evbuffer :=
  match (eb_new : option evbuffer) with
  | Some b => b
  | None => Evbuffer [] 0 0 0 0 false false false false 0 [] []
  end.
Lemma demo_empty_ok : eb_inv demo_empty ∧ eb_bytes demo_empty = [].
Proof. destruct (eb_new_ok (B := evbuffer)) as (b & E & H). unfold demo_empty. by rewrite E. Qed.

Definition demo_server : evhttp := Http [] [] [] [str "/"] 65535 false None.
Definition demo_settings : con_settings := Settings EV_SIZE_MAX EV_SIZE_MAX 0 (Some demo_server).
Definition demo_con (s : evhttp_connection_state) : evhttp_connection evbuffer :=
  Connection demo_settings s demo_empty demo_empty.
Definition demo_line : first_line := Line 0 0 None None 0 0 0 None.
Definition demo_req (kd : evhttp_request_kind) : evhttp_request evbuffer :=
  Request kd demo_line [] [] 0 (Body 0 0 false demo_empty) demo_empty.
Lemma demo_valid s kd : valid_con (demo_con s) ∧ valid_req (demo_req kd).
Proof. split; split; apply demo_empty_ok. Qed.
Lemma demo_room s kd n : n <= INT_MAX - 200 → enough_room (demo_con s) (demo_req kd) n.
Proof.
  intros Hn. unfold enough_room. cbn [demo_con demo_req con_input con_output body input_buffer output_buffer].
  rewrite (proj2 demo_empty_ok). change (zlen (@nil Z)) with 0. change (eb_cap (B := evbuffer)) with INT_MAX.
  unfold INT_MAX in *. lia.
Qed.

(** A request with a header and a body. *)
Definition demo_body : evbuffer :=
  match eb_add demo_empty (str "n=1") with Some (b, _) => b | None => demo_empty end.
Lemma demo_body_ok : eb_inv demo_body ∧ eb_bytes demo_body = str "n=1".
Proof.
  destruct (eb_add_ok demo_empty (str "n=1") (proj1 demo_empty_ok)) as (b & E & Hi & Eb).
  { rewrite (proj2 demo_empty_ok). done. }
  unfold demo_body. rewrite E. by rewrite (proj2 demo_empty_ok) in Eb.
Qed.

(** A request that a server answers. *)
Definition demo_asked : evhttp_request evbuffer :=
  Request EVHTTP_REQUEST (Line 0 EVHTTP_REQ_GET (Some (str "/")) None 1 1 0 None)
    [] [(str "Server", str "s")] 0 (Body 0 0 false demo_empty) demo_empty.
Definition demo_now : tm := Tm 37 49 8 6 10 94 0.

(** * Reading *)

(** C33: whatever bytes have arrived on a connection, whatever limits it has and
    whatever callbacks the program has set, [evhttp_read_cb] returns in every state
    in which it may be called, stays inside its memory, and leaves buffers intact. *)
Theorem http_read_safe {MM : Malloc} {B : Type} {EB : EvbufferOps B} {EL : EvbufferLaws B} words0 cb cb' hcb hcb' c r :
  zlen words0 = 8 → Forall word16 words0 →
  chunk_cb_rel (B := B) cb cb' → polite cb' → header_cb_rel (B := B) hcb hcb' →
  valid_con c → valid_req r → enough_room c r 0 → may_read (state c) → knows_server c r →
  Forall byte (eb_bytes (con_input c)) →
  ∃ c' r' nx, evhttp_read_cb words0 cb hcb c r = Some (c', r', nx) ∧ valid_con c' ∧ valid_req r' ∧
    zlen (eb_bytes (input_buffer (body r'))) + zlen (eb_bytes (con_input c')) <=
      zlen (eb_bytes (input_buffer (body r))) + zlen (eb_bytes (con_input c)).
Proof.
  intros Hw0 Hw Hcb Hpol Hhcb Hc Hr [Hroom1 Hroom2] Hst Hsv Hb.
  set (n := zlen (eb_bytes (input_buffer (body r))) + zlen (eb_bytes (con_input c))) in *.
  destruct (read_cb_total words0 Hw0 Hw cb' Hpol hcb' (view_con c) (view_req r) Hst Hsv (λ _, Hb)) as [[[k1 q1] nx] E].
  assert (con_rel c (view_con c)) as Hcr by by apply con_rel_view.
  assert (req_rel r (view_req r)) as Hrr by by apply req_rel_view.
  assert (n <= eb_cap (B := B)) as Hn by (rewrite Z.add_0_r in Hroom1; exact Hroom1).
  destruct (read_cb_sim words0 n Hn cb cb' Hcb hcb hcb' Hhcb c (view_con c) r (view_req r) Hcr Hrr)
    with (x' := (k1, q1, nx)) as ([[c1 r1] nx1] & E1 & (Hc1 & Hr1 & <- & Hf)).
  - unfold fits. subst n. apply Z.le_refl.
  - intros _. exact Hroom2.
  - done.
  - apply con_rel_view in Hc1 as [Hc1 <-]. apply req_rel_view in Hr1 as [Hr1 <-].
    exists c1, r1, nx1. by split_and!.
Qed.
Lemma http_read_safe_witness :
  ∃ c' r' nx, evhttp_read_cb stack_words None None (demo_con EVCON_READING_BODY) (demo_req EVHTTP_REQUEST) = Some (c', r', nx) ∧
    valid_con c' ∧ valid_req r' ∧
    zlen (eb_bytes (input_buffer (body r'))) + zlen (eb_bytes (con_input c')) <=
      zlen (eb_bytes (input_buffer (body (demo_req EVHTTP_REQUEST)))) + zlen (eb_bytes (con_input (demo_con EVCON_READING_BODY))).
Proof.
  apply (http_read_safe (B := evbuffer) stack_words None None None None).
  - apply stack_words_ok.
  - apply stack_words_ok.
  - exact I.
  - by intros f q.
  - exact I.
  - apply (demo_valid EVCON_READING_BODY EVHTTP_REQUEST).
  - apply (demo_valid EVCON_READING_BODY EVHTTP_REQUEST).
  - apply demo_room. unfold INT_MAX. lia.
  - exact I.
  - intros _ _. by exists demo_settings, demo_server.
  - cbn [demo_con con_input]. rewrite (proj2 demo_empty_ok). constructor.
Defined.

(** C34: a message may arrive in any pieces: for any bytes, valid or not, reading
    them piece by piece until the message ends gives the same end, the same request
    and the same bytes behind it as reading them all at once.  Limits are those of
    a new connection. *)
Theorem message_cut_anyhow {MM : Malloc} {B : Type} {EB : EvbufferOps B} {EL : EvbufferLaws B} words0 c r p pieces :
  zlen words0 = 8 → Forall word16 words0 → valid_con c → valid_req r →
  knows_server c r → Forall (Forall byte) (eb_bytes (con_input c) :: p :: pieces) →
  reading (view_con c) (view_req r) (zlen (eb_bytes (con_input c) ++ concat (p :: pieces))) →
  enough_room c r (zlen (concat (p :: pieces))) →
  ∃ c1 r1 nx rest c2 r2,
    feed words0 c r (p :: pieces) = Some (c1, r1, nx, rest) ∧
    feed words0 c r [concat (p :: pieces)] = Some (c2, r2, nx, []) ∧
    view_req r2 = view_req r1 ∧ state c2 = state c1 ∧
    eb_bytes (con_input c2) = eb_bytes (con_input c1) ++ concat rest.
Proof.
  intros Hw0 Hw Hc Hr Hsv [Hb Hbs]%Forall_cons Hk [Hroom1 Hroom2].
  set (k := view_con c) in *. set (q := view_req r) in *. set (x := concat (p :: pieces)) in *.
  assert (con_rel c k) as Hcr by by apply con_rel_view.
  assert (req_rel r q) as Hrr by by apply req_rel_view.
  assert (in_message (state k)) as Hst.
  { destruct Hk as (_ & _ & Hk). unfold in_message, before_body. destruct (state k); try done; auto. }
  destruct (feed_total words0 Hw0 Hw (p :: pieces) Hbs k q Hst Hsv (λ _, Hb)) as [[[[k1 q1] nx] rest] Ef].
  assert (Forall (Forall byte) [x]) as Hbx.
  { constructor; [|done]. subst x. clear -Hbs. induction Hbs; simpl; [done|]. by apply Forall_app. }
  destruct (feed_total words0 Hw0 Hw [x] Hbx k q Hst Hsv (λ _, Hb)) as [[[[k2 q2] nx2] rest2] Ef2].
  pose proof (feed_whole words0 k q p pieces _ _ Hk Ef) as Ha.
  assert (concat [x] = x) as Ex by (simpl; by rewrite app_nil_r).
  pose proof (feed_whole words0 k q x [] (k2, q2, nx2) rest2) as Ha2. rewrite Ex in Ha2.
  specialize (Ha2 Hk Ef2). fold x in Ha. apply agree_sym in Ha. pose proof (agree_trans _ _ _ Ha Ha2) as Hab.
  assert (rest2 = []) as ->.
  { clear -Ef2. cbn [feed eb_add flat_queue mbind option_bind] in Ef2.
    destruct (evhttp_read_cb words0 None None _ q) as [[[k3 q3] nx3]|]; [|done]. cbn [mbind option_bind] in Ef2.
    destruct nx3; by injection Ef2. }
  rewrite with_rest_nil in Hab. unfold agree in Hab. cbn [fmap option_fmap option_map with_rest erase] in Hab.
  injection Hab as Es Et Ei -> ->.
  destruct (feed_sim words0 (p :: pieces) c r k q k1 q2 nx2 rest Hcr Hrr) as (c1 & r1 & E1 & Hc1 & Hr1); [|done|done|].
  { fold x. simpl. lia. }
  destruct (feed_sim words0 [x] c r k q k2 q2 nx2 [] Hcr Hrr) as (c2 & r2 & E2 & Hc2 & Hr2); [|done|done|].
  { rewrite Ex. simpl. lia. }
  apply con_rel_view in Hc1 as [_ Hv1]. apply con_rel_view in Hc2 as [_ Hv2].
  apply req_rel_view in Hr1 as [_ Hq1]. apply req_rel_view in Hr2 as [_ Hq2].
  exists c1, r1, nx2, rest, c2, r2. split; [done|]. split; [done|]. split; [by rewrite Hq1, Hq2|].
  subst k1 k2. simpl in *. by rewrite Et, Ei.
Qed.
Lemma demo_reading s kd n : before_body s → 0 <= n <= EV_SSIZE_MAX → reading (view_con (demo_con s)) (view_req (demo_req kd)) n.
Proof. intros Hs Hn. split; [done|]. split; [lia|]. by destruct Hs as [-> | ->]. Qed.
Lemma message_cut_anyhow_witness :
  let p := str "GET / HTTP/1.1" in let pieces := [[13]; [10; 13; 10]] in
  ∃ c1 r1 nx rest c2 r2,
    feed stack_words (demo_con EVCON_READING_FIRSTLINE) (demo_req EVHTTP_REQUEST) (p :: pieces) = Some (c1, r1, nx, rest) ∧
    feed stack_words (demo_con EVCON_READING_FIRSTLINE) (demo_req EVHTTP_REQUEST) [concat (p :: pieces)] = Some (c2, r2, nx, []) ∧
    view_req r2 = view_req r1 ∧ state c2 = state c1 ∧
    eb_bytes (con_input c2) = eb_bytes (con_input c1) ++ concat rest.
Proof.
  intros p pieces. apply (message_cut_anyhow (B := evbuffer) stack_words).
  - apply stack_words_ok.
  - apply stack_words_ok.
  - apply (demo_valid EVCON_READING_FIRSTLINE EVHTTP_REQUEST).
  - apply (demo_valid EVCON_READING_FIRSTLINE EVHTTP_REQUEST).
  - intros _ _. by exists demo_settings, demo_server.
  - cbn [demo_con con_input]. rewrite (proj2 demo_empty_ok). subst p pieces. repeat constructor; unfold byte; vm_compute; done.
  - apply demo_reading; [by left|]. cbn [demo_con con_input]. rewrite (proj2 demo_empty_ok). by vm_compute.
  - apply demo_room. by vm_compute.
Defined.

(** * Sending and receiving *)

Lemma demo_awaits kd : awaits (demo_con EVCON_READING_FIRSTLINE) (demo_req kd) kd.
Proof.
  destruct (demo_valid EVCON_READING_FIRSTLINE kd). split; try done; try apply demo_empty_ok. intros _. by exists demo_settings, demo_server.
Qed.

(** C32: a reply that a server sends in chunks is put together again by the client:
    whatever the chunks are and in whatever pieces they arrive, the client ends with
    the same status, reason, headers and the bytes of all chunks in order. *)
Theorem http_reply_delivered {MM : Malloc} {MT : MallocTotal} {B : Type} {EB : EvbufferOps B} {EL : EvbufferLaws B}
    words0 now cs rs minor' code reason text bufs c r :
  zlen words0 = 8 → Forall word16 words0 →
  can_reply cs rs minor' code → valid_tm now → reason_of code reason = Some text → plain text →
  Forall (λ b, eb_inv b ∧ Forall byte (eb_bytes b)) bufs →
  awaits c r EVHTTP_RESPONSE → type (first r) ∉ [EVHTTP_REQ_CONNECT; EVHTTP_REQ_HEAD] →
  let n := head_room cs rs text + zlen (concat (chunk_text <$> pieces_of bufs)) + 5 in
  fits_output cs n → enough_room c r n →
  ∃ cs1 rs1 cs2 cs3 rs3 wire,
    evhttp_send_reply_start now cs rs code reason = Some (cs1, rs1) ∧
    send_chunks cs1 rs1 bufs = Some cs2 ∧ evhttp_send_reply_end cs2 rs1 = Some (cs3, rs3) ∧
    eb_bytes (con_output cs3) = eb_bytes (con_output cs) ++ wire ∧
    ∀ p pieces, concat (p :: pieces) = wire →
    ∃ c1 r1 rest, feed words0 c r (p :: pieces) = Some (c1, r1, Done, rest) ∧
      eb_bytes (con_input c1) = [] ∧ concat rest = [] ∧
      response_code (first r1) = code ∧ response_code_line (first r1) = Some text ∧
      major (first r1) = 1 ∧ minor (first r1) = minor' ∧
      input_headers r1 = output_headers rs1 ∧ eb_bytes (input_buffer (body r1)) = concat (eb_bytes <$> bufs).
Proof.
  intros Hw0 Hw Hcan Hnow Hrs Hpt Hbufs Haw Hty n Hf Hroom.
  destruct (reply_sent now cs rs minor' code reason text bufs Hcan Hnow Hrs Hpt Hbufs Hf)
    as (cs1 & rs1 & cs2 & cs3 & rs3 & E1 & E2 & E3 & Hw3 & Hk & Hlen).
  set (tail := reply_tail bufs) in *.
  set (wire := head_text (response_text minor' code text) (output_headers rs1) ++ tail) in *.
  exists cs1, rs1, cs2, cs3, rs3, wire. split; [done|]. split; [done|]. split; [done|]. split; [by apply wr_bytes|].
  intros p pieces Ep.
  assert (zlen wire <= EV_SSIZE_MAX ∧ enough_room c r (zlen wire)) as [Hlw Hroom'].
  { destruct Hroom as [Hr1 Hr2]. unfold enough_room. pose proof (eb_cap_int (B := B)). pose proof (zlen_nonneg (eb_bytes (input_buffer (body r)))).
    pose proof (zlen_nonneg (eb_bytes (con_input c))). unfold INT_MAX, EV_SSIZE_MAX in *. split; [lia|]. split; [lia|done]. }
  pose proof (awaits_reading c r _ (zlen wire) Haw ltac:(split; [apply zlen_nonneg|done])) as Hrd.
  destruct Haw as [Hc Hr Hst Hlim Hsv Hkd Hih Hnb Hib Hin].
  destruct Hcan as [_ _ _ _ _ _ Hv (Hcode & H204 & H304 & _) _ _]. destruct Hk as (Hwire & Hte & _).
  apply not_elem_of_cons in Hty as [Hco Hhe]. apply not_elem_of_cons in Hhe as [Hhe _].
  destruct (response_received words0 (view_con c) (view_req r) minor' code text (output_headers rs1) tail
    (concat (pieces_of bufs)) []) as (k1 & q1 & Erd & Ek & Ehs & Eb & Efl); try done.
  { lia. }
  { eapply framed_chunked; [exact Hte|done|apply pieces_nonempty]. }
  { left. by rewrite Hte. }
  { by rewrite app_nil_r. }
  rewrite app_nil_r in Erd. fold wire in Erd.
  destruct (feed_delivers words0 c r p pieces k1 q1) as (c1 & r1 & rest & Efd & Ev & Ei & Er); rewrite ?Ep; try done.
  { intros _ Hk. by rewrite Hkd in Hk. }
  { apply reply_bytes; try done. lia. }
  exists c1, r1, rest. split; [done|]. subst q1. cbn [first input_headers body input_buffer view_req] in *.
  rewrite Efl, Eb, Hib, Ehs, pieces_concat. by split_and!.
Qed.
Lemma demo_can_reply : can_reply (demo_con EVCON_WRITING) demo_asked 1 200.
Proof.
  split; try done; try apply demo_empty_ok.
  - exists demo_server. split; [done|]. by intros t [= <-].
  - split_and!; [|done|by vm_compute]. repeat constructor; cbn [fst snd]; try done; try (by apply (bool_decide_unpack _); vm_compute). by intros ? [= <-].
Qed.
Lemma demo_buf_ok b : b ∈ [demo_body; demo_empty] → eb_inv b ∧ Forall byte (eb_bytes b).
Proof.
  intros Hb. set_unfold in Hb. destruct Hb as [->|[->|[]]].
  - split; [apply demo_body_ok|]. rewrite (proj2 demo_body_ok). by apply text_bytes; vm_compute.
  - split; [apply demo_empty_ok|]. by rewrite (proj2 demo_empty_ok).
Qed.
Lemma http_reply_delivered_witness :
  let bufs := [demo_body; demo_empty; demo_body] in
  ∃ cs1 rs1 cs2 cs3 rs3 wire,
    evhttp_send_reply_start demo_now (demo_con EVCON_WRITING) demo_asked 200 None = Some (cs1, rs1) ∧
    send_chunks cs1 rs1 bufs = Some cs2 ∧ evhttp_send_reply_end cs2 rs1 = Some (cs3, rs3) ∧
    eb_bytes (con_output cs3) = eb_bytes (con_output (demo_con EVCON_WRITING)) ++ wire ∧
    ∀ p pieces, concat (p :: pieces) = wire →
    ∃ c1 r1 rest, feed stack_words (demo_con EVCON_READING_FIRSTLINE) (demo_req EVHTTP_RESPONSE) (p :: pieces) = Some (c1, r1, Done, rest) ∧
      eb_bytes (con_input c1) = [] ∧ concat rest = [] ∧
      response_code (first r1) = 200 ∧ response_code_line (first r1) = Some (str "OK") ∧
      major (first r1) = 1 ∧ minor (first r1) = 1 ∧
      input_headers r1 = output_headers rs1 ∧ eb_bytes (input_buffer (body r1)) = concat (eb_bytes <$> bufs).
Proof.
  intros bufs. apply (http_reply_delivered (B := evbuffer) stack_words demo_now).
  - apply stack_words_ok.
  - apply stack_words_ok.
  - apply demo_can_reply.
  - by vm_compute.
  - done.
  - by apply (bool_decide_unpack _); vm_compute.
  - apply Forall_forall. intros b Hb. apply demo_buf_ok. subst bufs. clear -Hb. set_unfold in Hb. set_solver.
  - apply demo_awaits.
  - by apply (bool_decide_unpack _); vm_compute.
  - unfold fits_output, head_room, pieces_of. subst bufs. rewrite !fmap_cons. cbn [demo_con con_output].
    rewrite (proj2 demo_empty_ok), (proj2 demo_body_ok). by vm_compute.
  - apply demo_room. unfold head_room, pieces_of. subst bufs. rewrite !fmap_cons, (proj2 demo_empty_ok), (proj2 demo_body_ok). by vm_compute.
Defined.
