(* ===== verification/EventDefs.v ===== *)
(** The event base of [src/event.c]: its data, and the operations that move
    events between its queues.

    All events live in one store ([evs], a map from identities to [event]);
    queues hold identities, as the C code links the same objects into several
    lists.  The map from descriptors to events ([src/evmap.c]) is used through
    the interface [EvmapOps]; the clock through [Clock].  There is one base, and
    the caller holds its lock; [other_thread] says whether the calls come from another
    thread than the one that runs the loop.

    A function gets stuck ([None]) when an [EVUTIL_ASSERT] fails, when
    [event_errx] would terminate the process, or on an invalid pointer. *)
From S2P Require Import Prelude Timeval MinHeap.

(** * Constants *)

Definition EVLIST_TIMEOUT : Z := 0x01.
Definition EVLIST_INSERTED : Z := 0x02.
Definition EVLIST_ACTIVE : Z := 0x08.
Definition EVLIST_INTERNAL : Z := 0x10.
Definition EVLIST_ACTIVE_LATER : Z := 0x20.
Definition EVLIST_FINALIZING : Z := 0x40.
Definition EVLIST_INIT : Z := 0x80.
Definition EVLIST_ALL : Z := 0xff.

Definition EV_TIMEOUT : Z := 0x01.
Definition EV_READ : Z := 0x02.
Definition EV_WRITE : Z := 0x04.
Definition EV_SIGNAL : Z := 0x08.
Definition EV_PERSIST : Z := 0x10.
Definition EV_ET : Z := 0x20.
Definition EV_FINALIZE : Z := 0x40.
Definition EV_CLOSED : Z := 0x80.
(** [EV_READ|EV_WRITE|EV_CLOSED] *)
Definition EV_IO : Z := Z.lor EV_READ (Z.lor EV_WRITE EV_CLOSED).

Definition MICROSECONDS_MASK : Z := 0x000fffff.
Definition COMMON_TIMEOUT_IDX_MASK : Z := 0x0ff00000.
Definition COMMON_TIMEOUT_IDX_SHIFT : Z := 20.
Definition COMMON_TIMEOUT_MASK : Z := 0xf0000000.
Definition COMMON_TIMEOUT_MAGIC : Z := 0x50000000.
Definition MAX_COMMON_TIMEOUTS : Z := 256.
Definition MAX_DEFERREDS_QUEUED : Z := 32.
Definition EVENT_MAX_PRIORITIES : Z := 256.

(** * Data *)

Inductive closure :=
| EV_CLOSURE_EVENT
| EV_CLOSURE_EVENT_SIGNAL
| EV_CLOSURE_EVENT_PERSIST
| EV_CLOSURE_CB_SELF
| EV_CLOSURE_CB_FINALIZE
| EV_CLOSURE_EVENT_FINALIZE
| EV_CLOSURE_EVENT_FINALIZE_FREE.
#[export] Instance closure_eq_dec : EqDecision closure.
Proof. solve_decision. Defined.

(** Callbacks with their argument: user code (known by a number), or a function
    of the library. *)
Inductive callback :=
| CbUser (f : nat)
| CbCommonTimeout (ctl : nat)
| CbLoopexit
| CbOnce (cb : callback).

(** [struct event] with its [struct event_callback].  A deferred callback is an
    event without [EVLIST_INIT], of which only the callback part is used.
    [ev_pncalls] tells whether the pointer is set; it then points to the
    counter of the running [event_signal_closure]. *)
Record event := Event {
  ev_has_base : bool;
  ev_flags : Z; ev_pri : Z; ev_closure : closure; ev_callback : callback;
  ev_fd : Z; ev_events : Z; ev_res : Z;
  ev_timeout : timeval; min_heap_idx : Z;
  ev_io_timeout : timeval;
  ev_ncalls : Z; ev_pncalls : bool
}.

(** Memory that holds no event yet. *)
#[export] Instance event_inhabited : Inhabited event :=
  populate (Event false 0 0 EV_CLOSURE_CB_SELF (CbUser 0) 0 0 0 (TV 0 0) (-1) (TV 0 0) 0 false).

Definition set_flags (f : Z) (v : event) : event :=
  Event (ev_has_base v) f (ev_pri v) (ev_closure v) (ev_callback v) (ev_fd v) (ev_events v)
    (ev_res v) (ev_timeout v) (min_heap_idx v) (ev_io_timeout v) (ev_ncalls v) (ev_pncalls v).
Definition set_pri (p : Z) (v : event) : event :=
  Event (ev_has_base v) (ev_flags v) p (ev_closure v) (ev_callback v) (ev_fd v) (ev_events v)
    (ev_res v) (ev_timeout v) (min_heap_idx v) (ev_io_timeout v) (ev_ncalls v) (ev_pncalls v).
Definition set_closure (c : closure) (cb : callback) (v : event) : event :=
  Event (ev_has_base v) (ev_flags v) (ev_pri v) c cb (ev_fd v) (ev_events v)
    (ev_res v) (ev_timeout v) (min_heap_idx v) (ev_io_timeout v) (ev_ncalls v) (ev_pncalls v).
Definition set_res (r : Z) (v : event) : event :=
  Event (ev_has_base v) (ev_flags v) (ev_pri v) (ev_closure v) (ev_callback v) (ev_fd v)
    (ev_events v) r (ev_timeout v) (min_heap_idx v) (ev_io_timeout v) (ev_ncalls v) (ev_pncalls v).
Definition set_timeout (tv : timeval) (v : event) : event :=
  Event (ev_has_base v) (ev_flags v) (ev_pri v) (ev_closure v) (ev_callback v) (ev_fd v)
    (ev_events v) (ev_res v) tv (min_heap_idx v) (ev_io_timeout v) (ev_ncalls v) (ev_pncalls v).
Definition set_heap_idx (i : Z) (v : event) : event :=
  Event (ev_has_base v) (ev_flags v) (ev_pri v) (ev_closure v) (ev_callback v) (ev_fd v)
    (ev_events v) (ev_res v) (ev_timeout v) i (ev_io_timeout v) (ev_ncalls v) (ev_pncalls v).
Definition set_io_timeout (tv : timeval) (v : event) : event :=
  Event (ev_has_base v) (ev_flags v) (ev_pri v) (ev_closure v) (ev_callback v) (ev_fd v)
    (ev_events v) (ev_res v) (ev_timeout v) (min_heap_idx v) tv (ev_ncalls v) (ev_pncalls v).
Definition set_calls (n : Z) (p : bool) (v : event) : event :=
  Event (ev_has_base v) (ev_flags v) (ev_pri v) (ev_closure v) (ev_callback v) (ev_fd v)
    (ev_events v) (ev_res v) (ev_timeout v) (min_heap_idx v) (ev_io_timeout v) n p.

(** [ev_flags &= ~m] and [ev_flags |= m] *)
Definition clear_flag (m : Z) (v : event) : event := set_flags (ev_flags v &~ m)%ev v.
Definition set_flag (m : Z) (v : event) : event := set_flags (Z.lor (ev_flags v) m) v.

(** The events as the timer heap sees them. *)
Abbreviation store := (gmap evid event).
#[export] Instance store_timer : TimerStore store := {|
  ts_timeout s e := ev_timeout (s !!! e);
  ts_idx s e := min_heap_idx (s !!! e);
  ts_set_idx e i s := <[e := set_heap_idx i (s !!! e)]> s
|}.
#[export] Instance store_timer_laws : TimerStoreLaws store.
Proof.
  split; intros s e i x; cbn [ts_timeout ts_idx ts_set_idx store_timer];
    destruct (decide (x = e)) as [->|];
    rewrite ?lookup_total_insert_eq, ?lookup_total_insert_ne by done; done.
Qed.

(** [struct common_timeout_list] *)
Record common_timeout_list := Ctl {
  duration : timeval; timeout_event : evid; ctl_events : list evid
}.

(** The fields of [struct event_base], in groups. *)
Record counters := Counters {
  event_count : Z; event_count_max : Z;
  event_count_active : Z; event_count_active_max : Z;
  virtual_event_count : Z
}.
Record queues := Queues {
  activequeues : list (list evid); active_later_queue : list evid; n_deferreds_queued : Z
}.
Record timers := Timers {
  timeheap : min_heap; common_timeout_queues : list common_timeout_list
}.
(** [tick] counts the readings of the clocks. *)
Record clock := ClockState {
  tv_cache : timeval; tick : nat; tv_clock_diff : timeval; last_updated_clock_diff : Z;
  no_cache_time : bool
}.
(** [ncalls_zeroed]: the counter of the running [event_signal_closure], a local
    variable, was set to 0 through [ev_pncalls]. *)
Record loop_state := Loop {
  event_gotterm : bool; event_break : bool; event_continue : bool;
  event_running_priority : Z; running_loop : bool;
  current_event : option evid; ncalls_zeroed : bool
}.
(** [other_thread]: threads are in use and the caller is not the owner of the base;
    [notified] counts the calls of [th_notify_fn]. *)
Record notify := Notify {
  other_thread : bool; has_notify_fn : bool; is_notify_pending : bool; notified : Z
}.
Record config := Config {
  max_dispatch_time : timeval; max_dispatch_callbacks : Z; limit_callbacks_after_prio : Z
}.

Record event_base (M : Type) := Base {
  evs : store; evmap : M;
  cnt : counters; qs : queues; tms : timers; clk : clock; lp : loop_state; nt : notify; cfg : config
}.
Arguments Base {M}. Arguments evs {M}. Arguments evmap {M}. Arguments cnt {M}.
Arguments qs {M}. Arguments tms {M}. Arguments clk {M}. Arguments lp {M}. Arguments nt {M}.
Arguments cfg {M}.

(** * Interfaces *)

(** The operations of [src/evmap.c]: descriptor or signal number, event, and the
    event's [ev_events]; the result is -1, 0 or 1, and [None] when an assertion
    fails. *)
Class EvmapOps (M : Type) := {
  evmap_io_add_ : M → Z → evid → Z → option (M * Z);
  evmap_io_del_ : M → Z → evid → Z → option (M * Z);
  evmap_signal_add_ : M → Z → evid → M * Z;
  evmap_signal_del_ : M → Z → evid → option (M * Z);
}.

(** [clock_now n] is the [n]th reading of the monotonic clock ([None] when the
    system call fails), [wall_now n] of [gettimeofday]. *)
Class Clock := { clock_now : nat → option timeval; wall_now : nat → timeval }.

(** * Lists of the base *)

(** [TAILQ_REMOVE]: the element must be in the list. *)
Fixpoint tailq_remove (e : evid) (l : list evid) : option (list evid) :=
  match l with
  | [] => None
  | x :: l => if decide (x = e) then Some l else l ← tailq_remove e l; Some (x :: l)
  end.

Definition is_common_timeout (tv : timeval) (n_common : Z) : bool :=
  if negb (Z.land (tv_usec tv) COMMON_TIMEOUT_MASK =? COMMON_TIMEOUT_MAGIC) then false
  else Z.shiftr (Z.land (tv_usec tv) COMMON_TIMEOUT_IDX_MASK) COMMON_TIMEOUT_IDX_SHIFT <? n_common.
Definition COMMON_TIMEOUT_IDX (tv : timeval) : Z :=
  Z.shiftr (Z.land (tv_usec tv) COMMON_TIMEOUT_IDX_MASK) COMMON_TIMEOUT_IDX_SHIFT.
Definition is_same_common_timeout (tv1 tv2 : timeval) : bool :=
  (tv_usec tv1 &~ MICROSECONDS_MASK)%ev =? (tv_usec tv2 &~ MICROSECONDS_MASK)%ev.
(** [tv.tv_usec &= MICROSECONDS_MASK] *)
Definition mask_usec (tv : timeval) : timeval := TV (tv_sec tv) (Z.land (tv_usec tv) MICROSECONDS_MASK).

Section base_ops.
Context {M : Type} {EO : EvmapOps M} {CK : Clock} {RA : Realloc}.
Abbreviation base := (event_base M).

(** ** Access *)

Definition the_event (e : evid) (b : base) : event := evs b !!! e.
Definition get_event (e : evid) : prog base event := gets (the_event e).
Definition set_evs (s : store) (b : base) : base :=
  Base s (evmap b) (cnt b) (qs b) (tms b) (clk b) (lp b) (nt b) (cfg b).
Definition upd_event (e : evid) (f : event → event) : prog base unit :=
  modify (λ b, set_evs (<[e := f (the_event e b)]> (evs b)) b).
Definition set_map (m : M) (b : base) : base :=
  Base (evs b) m (cnt b) (qs b) (tms b) (clk b) (lp b) (nt b) (cfg b).
Definition set_cnt (c : counters) (b : base) : base :=
  Base (evs b) (evmap b) c (qs b) (tms b) (clk b) (lp b) (nt b) (cfg b).
Definition set_qs (q : queues) (b : base) : base :=
  Base (evs b) (evmap b) (cnt b) q (tms b) (clk b) (lp b) (nt b) (cfg b).
Definition set_tms (t : timers) (b : base) : base :=
  Base (evs b) (evmap b) (cnt b) (qs b) t (clk b) (lp b) (nt b) (cfg b).
Definition set_clk (c : clock) (b : base) : base :=
  Base (evs b) (evmap b) (cnt b) (qs b) (tms b) c (lp b) (nt b) (cfg b).
Definition set_lp (l : loop_state) (b : base) : base :=
  Base (evs b) (evmap b) (cnt b) (qs b) (tms b) (clk b) l (nt b) (cfg b).
Definition set_nt (n : notify) (b : base) : base :=
  Base (evs b) (evmap b) (cnt b) (qs b) (tms b) (clk b) (lp b) n (cfg b).

Definition nactivequeues (b : base) : Z := zlen (activequeues (qs b)).
Definition n_common_timeouts (b : base) : Z := zlen (common_timeout_queues (tms b)).
Definition N_ACTIVE_CALLBACKS (b : base) : Z := event_count_active (cnt b).

Definition event_haveevents (b : base) : bool :=
  (0 <? virtual_event_count (cnt b)) || (0 <? event_count (cnt b)).

Definition evthread_notify_base : prog base Z :=
  b ← get_state;
  if negb (has_notify_fn (nt b)) then mret (-1)
  else if is_notify_pending (nt b) then mret 0
  else
    _ ← put_state (set_nt (Notify (other_thread (nt b)) (has_notify_fn (nt b)) true
                             (notified (nt b) + 1)) b);
    mret 0.
Definition EVBASE_NEED_NOTIFY (b : base) : bool := other_thread (nt b) && running_loop (lp b).
(** [if (cond && EVBASE_NEED_NOTIFY(base)) evthread_notify_base(base)] *)
Definition maybe_notify (cond : bool) : prog base unit :=
  b ← get_state;
  when (cond && EVBASE_NEED_NOTIFY b) (_ ← evthread_notify_base; mret tt).

(** ** Time *)

Definition CLOCK_SYNC_INTERVAL : Z := 5.

(** [None] for the result -1. *)
Definition gettime : prog base (option timeval) :=
  b ← get_state;
  let c := clk b in
  if negb (tv_sec (tv_cache c) =? 0) then mret (Some (tv_cache c))
  else
    match clock_now (tick c) with
    | None =>
        _ ← put_state (set_clk (ClockState (tv_cache c) (S (tick c)) (tv_clock_diff c)
                                  (last_updated_clock_diff c) (no_cache_time c)) b);
        mret None
    | Some tp =>
        let '(diff, upd) :=
          if i64 (last_updated_clock_diff c + CLOCK_SYNC_INTERVAL) <? tv_sec tp
          then (evutil_timersub (wall_now (tick c)) tp, tv_sec tp)
          else (tv_clock_diff c, last_updated_clock_diff c) in
        _ ← put_state (set_clk (ClockState (tv_cache c) (S (tick c)) diff upd (no_cache_time c)) b);
        mret (Some tp)
    end.
(** A caller that ignores the result and uses [*tp]. *)
Definition gettime_now : prog base timeval := r ← gettime; deref r.

Definition set_cache (tv : timeval) (b : base) : base :=
  set_clk (ClockState tv (tick (clk b)) (tv_clock_diff (clk b)) (last_updated_clock_diff (clk b))
             (no_cache_time (clk b))) b.
Definition clear_time_cache : prog base unit :=
  modify (λ b, set_cache (TV 0 (tv_usec (tv_cache (clk b)))) b).
Definition update_time_cache : prog base unit :=
  _ ← clear_time_cache;
  b ← get_state;
  when (negb (no_cache_time (clk b)))
    (r ← gettime; match r with Some tv => modify (set_cache tv) | None => mret tt end).

(** ** Counters *)

Definition b2z (c : bool) : Z := if c then 1 else 0.

Definition DECR_EVENT_COUNT (flags : Z) : prog base unit :=
  modify (λ b, let c := cnt b in
    set_cnt (Counters (event_count c - b2z (negb (has flags EVLIST_INTERNAL))) (event_count_max c)
               (event_count_active c) (event_count_active_max c) (virtual_event_count c)) b).
Definition INCR_EVENT_COUNT (flags : Z) : prog base unit :=
  modify (λ b, let c := cnt b in
    let n := event_count c + b2z (negb (has flags EVLIST_INTERNAL)) in
    set_cnt (Counters n (Z.max (event_count_max c) n)
               (event_count_active c) (event_count_active_max c) (virtual_event_count c)) b).
Definition decr_active : prog base unit :=
  modify (λ b, let c := cnt b in
    set_cnt (Counters (event_count c) (event_count_max c) (event_count_active c - 1)
               (event_count_active_max c) (virtual_event_count c)) b).
Definition incr_active : prog base unit :=
  modify (λ b, let c := cnt b in
    let n := event_count_active c + 1 in
    set_cnt (Counters (event_count c) (event_count_max c) n
               (Z.max (event_count_active_max c) n) (virtual_event_count c)) b).

(** ** Queues *)

Definition event_queue_remove_inserted (e : evid) : prog base unit :=
  v ← get_event e;
  _ ← EVUTIL_ASSERT (has (ev_flags v) EVLIST_INSERTED);
  _ ← DECR_EVENT_COUNT (ev_flags v);
  upd_event e (clear_flag EVLIST_INSERTED).

Definition set_activeq (i : Z) (q : list evid) (b : base) : base :=
  set_qs (Queues (<[Z.to_nat i := q]> (activequeues (qs b))) (active_later_queue (qs b))
            (n_deferreds_queued (qs b))) b.
Definition get_activeq (i : Z) : prog base (list evid) :=
  b ← get_state; deref (zget (activequeues (qs b)) i).
Definition set_later (q : list evid) (b : base) : base :=
  set_qs (Queues (activequeues (qs b)) q (n_deferreds_queued (qs b))) b.

Definition event_queue_remove_active (e : evid) : prog base unit :=
  v ← get_event e;
  _ ← EVUTIL_ASSERT (has (ev_flags v) EVLIST_ACTIVE);
  _ ← DECR_EVENT_COUNT (ev_flags v);
  _ ← upd_event e (clear_flag EVLIST_ACTIVE);
  _ ← decr_active;
  q ← get_activeq (ev_pri v);
  q ← deref (tailq_remove e q);
  modify (set_activeq (ev_pri v) q).

Definition event_queue_remove_active_later (e : evid) : prog base unit :=
  v ← get_event e;
  _ ← EVUTIL_ASSERT (has (ev_flags v) EVLIST_ACTIVE_LATER);
  _ ← DECR_EVENT_COUNT (ev_flags v);
  _ ← upd_event e (clear_flag EVLIST_ACTIVE_LATER);
  _ ← decr_active;
  b ← get_state;
  q ← deref (tailq_remove e (active_later_queue (qs b)));
  modify (set_later q).

Definition get_ctl (i : Z) : prog base common_timeout_list :=
  b ← get_state; deref (zget (common_timeout_queues (tms b)) i).
Definition set_ctl_events (i : Z) (l : list evid) : prog base unit :=
  c ← get_ctl i;
  modify (λ b, set_tms (Timers (timeheap (tms b))
    (<[Z.to_nat i := Ctl (duration c) (timeout_event c) l]> (common_timeout_queues (tms b)))) b).

(** The heap operations on the base. *)
Definition lift_heap (op : min_heap → store → option (Z * min_heap * store)) : prog base Z :=
  λ b, '(r, h, s) ← op (timeheap (tms b)) (evs b);
       Some (r, set_evs s (set_tms (Timers h (common_timeout_queues (tms b))) b)).

Definition event_queue_remove_timeout (e : evid) : prog base unit :=
  v ← get_event e;
  _ ← EVUTIL_ASSERT (has (ev_flags v) EVLIST_TIMEOUT);
  _ ← DECR_EVENT_COUNT (ev_flags v);
  _ ← upd_event e (clear_flag EVLIST_TIMEOUT);
  n ← gets n_common_timeouts;
  if is_common_timeout (ev_timeout v) n then
    c ← get_ctl (COMMON_TIMEOUT_IDX (ev_timeout v));
    l ← deref (tailq_remove e (ctl_events c));
    set_ctl_events (COMMON_TIMEOUT_IDX (ev_timeout v)) l
  else
    _ ← lift_heap (λ h s, min_heap_erase_ h s e);
    mret tt.

(** The search from the end of the list, on the reversed list. *)
Fixpoint inorder_rev (e : evid) (tv : timeval) (rev : list evid) : prog base (list evid) :=
  match rev with
  | [] => mret [e]
  | x :: rest =>
      v ← get_event x;
      _ ← EVUTIL_ASSERT (is_same_common_timeout (ev_timeout v) tv);
      if evutil_timercmp Z.geb tv (ev_timeout v) then mret (e :: x :: rest)
      else l ← inorder_rev e tv rest; mret (x :: l)
  end.
Definition insert_common_timeout_inorder (i : Z) (e : evid) : prog base unit :=
  c ← get_ctl i;
  v ← get_event e;
  l ← inorder_rev e (ev_timeout v) (reverse (ctl_events c));
  set_ctl_events i (reverse l).

Definition event_queue_insert_inserted (e : evid) : prog base unit :=
  v ← get_event e;
  _ ← EVUTIL_ASSERT (negb (has (ev_flags v) EVLIST_INSERTED));
  _ ← INCR_EVENT_COUNT (ev_flags v);
  upd_event e (set_flag EVLIST_INSERTED).

Definition event_queue_insert_active (e : evid) : prog base unit :=
  v ← get_event e;
  if has (ev_flags v) EVLIST_ACTIVE then mret tt
  else
    _ ← INCR_EVENT_COUNT (ev_flags v);
    _ ← upd_event e (set_flag EVLIST_ACTIVE);
    _ ← incr_active;
    n ← gets nactivequeues;
    _ ← EVUTIL_ASSERT (ev_pri v <? n);
    q ← get_activeq (ev_pri v);
    modify (set_activeq (ev_pri v) (q ++ [e])).

Definition event_queue_insert_active_later (e : evid) : prog base unit :=
  v ← get_event e;
  if has (ev_flags v) (Z.lor EVLIST_ACTIVE_LATER EVLIST_ACTIVE) then mret tt
  else
    _ ← INCR_EVENT_COUNT (ev_flags v);
    _ ← upd_event e (set_flag EVLIST_ACTIVE_LATER);
    _ ← incr_active;
    n ← gets nactivequeues;
    _ ← EVUTIL_ASSERT (ev_pri v <? n);
    modify (λ b, set_later (active_later_queue (qs b) ++ [e]) b).

(** The result of [min_heap_push_] is not looked at. *)
Definition event_queue_insert_timeout (e : evid) : prog base unit :=
  v ← get_event e;
  _ ← EVUTIL_ASSERT (negb (has (ev_flags v) EVLIST_TIMEOUT));
  _ ← INCR_EVENT_COUNT (ev_flags v);
  _ ← upd_event e (set_flag EVLIST_TIMEOUT);
  n ← gets n_common_timeouts;
  if is_common_timeout (ev_timeout v) n
  then insert_common_timeout_inorder (COMMON_TIMEOUT_IDX (ev_timeout v)) e
  else _ ← lift_heap (λ h s, min_heap_push_ h s e); mret tt.

Definition set_deferreds (n : Z) (b : base) : base :=
  set_qs (Queues (activequeues (qs b)) (active_later_queue (qs b)) n) b.

Fixpoint make_later_loop (l : list evid) : prog base unit :=
  match l with
  | [] => mret tt
  | e :: l =>
      _ ← modify (set_later l);
      _ ← upd_event e (λ v, set_flag EVLIST_ACTIVE (clear_flag EVLIST_ACTIVE_LATER v));
      v ← get_event e;
      n ← gets nactivequeues;
      _ ← EVUTIL_ASSERT (ev_pri v <? n);
      q ← get_activeq (ev_pri v);
      _ ← modify (set_activeq (ev_pri v) (q ++ [e]));
      _ ← modify (λ b, set_deferreds (n_deferreds_queued (qs b) +
                     b2z (bool_decide (ev_closure v = EV_CLOSURE_CB_SELF))) b);
      make_later_loop l
  end.
Definition event_queue_make_later_events_active : prog base unit :=
  b ← get_state; make_later_loop (active_later_queue (qs b)).
End base_ops.
