(* ===== verification/EventApi.v ===== *)
(** The operations of [src/event.c] on events: adding, deleting, activating and
    finalizing them, deferred callbacks, and timeouts. *)
From S2P Require Import Prelude Timeval MinHeap EventDefs.

Section api.
Context {M : Type} {EO : EvmapOps M} {CK : Clock} {RA : Realloc}.
Abbreviation base := (event_base M).

Implicit Types (e : evid) (tv : timeval).

(** ** Adding *)

(** [min_heap_reserve_(&base->timeheap, 1 + min_heap_size_(&base->timeheap))] *)
Definition reserve_timer : prog base bool :=
  b ← get_state;
  match min_heap_reserve_ (timeheap (tms b)) (u32 (1 + min_heap_size_ (timeheap (tms b)))) with
  | None => mret false
  | Some h => _ ← put_state (set_tms (Timers h (common_timeout_queues (tms b))) b); mret true
  end.

Definition evmap_add (e : evid) : prog base Z :=
  b ← get_state;
  let v := the_event e b in
  if has (ev_events v) EV_IO then
    '(m, res) ← deref (evmap_io_add_ (evmap b) (ev_fd v) e (ev_events v));
    _ ← put_state (set_map m b); mret res
  else if has (ev_events v) EV_SIGNAL then
    let '(m, res) := evmap_signal_add_ (evmap b) (ev_fd v) e in
    _ ← put_state (set_map m b); mret res
  else mret 0.

(** [if (ev->ev_ncalls && ev->ev_pncalls) *ev->ev_pncalls = 0] *)
Definition abort_signal_loop (e : evid) : prog base unit :=
  v ← get_event e;
  when (negb (ev_ncalls v =? 0) && ev_pncalls v)
    (modify (λ b, let l := lp b in
       set_lp (Loop (event_gotterm l) (event_break l) (event_continue l) (event_running_priority l)
                 (running_loop l) (current_event l) true) b)).

(** The new [ev_timeout] of an event that is added with [tv]. *)
Definition due_time (now tv : timeval) (tv_is_absolute common : bool) : timeval :=
  if tv_is_absolute then tv
  else if common then
    let t := evutil_timeradd now (mask_usec tv) in
    TV (tv_sec t) (Z.lor (tv_usec t) (tv_usec tv &~ MICROSECONDS_MASK)%ev)
  else evutil_timeradd now tv.

(** Whether a timer that was just inserted calls for waking up the loop. *)
Definition timer_notify (e : evid) (now : timeval) (notify : bool) : prog base bool :=
  b ← get_state;
  if min_heap_elt_is_top_ (evs b) e then mret true
  else
    top ← deref (min_heap_top_ (timeheap (tms b)));
    match top with
    | Some top =>
        mret (notify || evutil_timercmp Z.ltb (ev_timeout (the_event top b)) now)
    | None => mret notify
    end.

(** The timeout part of [event_add_nolock_]; [schedule] is
    [common_timeout_schedule]. *)
Definition add_timeout (schedule : common_timeout_list → evid → prog base unit)
    (e : evid) (tv : timeval) (tv_is_absolute notify : bool) : prog base bool :=
  v ← get_event e;
  _ ← when (bool_decide (ev_closure v = EV_CLOSURE_EVENT_PERSIST) && negb tv_is_absolute)
        (upd_event e (set_io_timeout tv));
  _ ← when (has (ev_flags v) EVLIST_TIMEOUT) (event_queue_remove_timeout e);
  _ ← when (has (ev_flags v) EVLIST_ACTIVE && has (ev_res v) EV_TIMEOUT)
        (_ ← when (has (ev_events v) EV_SIGNAL) (abort_signal_loop e);
         event_queue_remove_active e);
  now ← gettime_now;
  n ← gets n_common_timeouts;
  let common := is_common_timeout tv n in
  _ ← upd_event e (set_timeout (due_time now tv tv_is_absolute common));
  _ ← event_queue_insert_timeout e;
  if common then
    v ← get_event e;
    c ← get_ctl (COMMON_TIMEOUT_IDX (ev_timeout v));
    _ ← when (bool_decide (head (ctl_events c) = Some e)) (schedule c e);
    mret notify
  else timer_notify e now notify.

(** The descriptor part: result and whether the backend changed. *)
Definition add_inserted (e : evid) : prog base (Z * bool) :=
  v ← get_event e;
  if has (ev_events v) (Z.lor EV_IO EV_SIGNAL) &&
     negb (has (ev_flags v) (Z.lor EVLIST_INSERTED (Z.lor EVLIST_ACTIVE EVLIST_ACTIVE_LATER)))
  then
    res ← evmap_add e;
    _ ← when (negb (res =? -1)) (event_queue_insert_inserted e);
    mret (if res =? 1 then (0, true) else (res, false))
  else mret (0, false).

(** The recursion through [common_timeout_schedule] ends after one step: the
    event it adds is no common timeout. *)
Fixpoint event_add_depth (depth : nat) (e : evid) (tv : option timeval) (tv_is_absolute : bool)
  : prog base Z :=
  v ← get_event e;
  _ ← EVUTIL_ASSERT (negb (has (ev_flags v) (Z.lnot EVLIST_ALL)));
  if has (ev_flags v) EVLIST_FINALIZING then mret (-1)
  else
    ok ← (if bool_decide (is_Some tv) && negb (has (ev_flags v) EVLIST_TIMEOUT)
          then reserve_timer else mret true);
    if negb ok then mret (-1)
    else
      '(res, notify) ← add_inserted e;
      notify ←
        (match tv with
         | Some tv =>
             if negb (res =? -1) then
               add_timeout
                 (λ c head,
                    v ← get_event head;
                    match depth with
                    | O => deref None
                    | S depth =>
                        _ ← event_add_depth depth (timeout_event c)
                              (Some (mask_usec (ev_timeout v))) true;
                        mret tt
                    end)
                 e tv tv_is_absolute notify
             else mret notify
         | None => mret notify
         end);
      _ ← maybe_notify (negb (res =? -1) && notify);
      mret res.
Definition event_add_nolock_ := event_add_depth 1.
Definition common_timeout_schedule (c : common_timeout_list) (head : evid) : prog base unit :=
  v ← get_event head;
  _ ← event_add_depth 0 (timeout_event c) (Some (mask_usec (ev_timeout v))) true;
  mret tt.

Definition event_add (e : evid) (tv : option timeval) : prog base Z :=
  v ← get_event e;
  if negb (ev_has_base v) then mret (-1) else event_add_nolock_ e tv false.

(** ** Deleting *)

Definition evmap_del (e : evid) : prog base Z :=
  b ← get_state;
  let v := the_event e b in
  '(m, res) ← deref (if has (ev_events v) EV_IO
                     then evmap_io_del_ (evmap b) (ev_fd v) e (ev_events v)
                     else evmap_signal_del_ (evmap b) (ev_fd v) e);
  _ ← put_state (set_map m b); mret res.

Definition del_inserted (e : evid) : prog base (Z * bool) :=
  v ← get_event e;
  if has (ev_flags v) EVLIST_INSERTED then
    _ ← event_queue_remove_inserted e;
    res ← evmap_del e;
    b ← get_state;
    let notify := (res =? 1) || negb (event_haveevents b) && (N_ACTIVE_CALLBACKS b =? 0) in
    mret (if res =? 1 then 0 else res, notify)
  else mret (0, false).

(** [even_if_finalizing]: [blocking == EVENT_DEL_EVEN_IF_FINALIZING]. *)
Definition event_del_nolock_ (e : evid) (even_if_finalizing : bool) : prog base Z :=
  v ← get_event e;
  if negb (ev_has_base v) then mret (-1)
  else if negb even_if_finalizing && has (ev_flags v) EVLIST_FINALIZING then mret 0
  else
    _ ← EVUTIL_ASSERT (negb (has (ev_flags v) (Z.lnot EVLIST_ALL)));
    _ ← when (has (ev_events v) EV_SIGNAL) (abort_signal_loop e);
    _ ← when (has (ev_flags v) EVLIST_TIMEOUT) (event_queue_remove_timeout e);
    _ ← (if has (ev_flags v) EVLIST_ACTIVE then event_queue_remove_active e
         else when (has (ev_flags v) EVLIST_ACTIVE_LATER) (event_queue_remove_active_later e));
    '(res, notify) ← del_inserted e;
    _ ← maybe_notify (negb (res =? -1) && notify);
    mret res.
Definition event_del (e : evid) : prog base Z := event_del_nolock_ e false.

(** ** Activating *)

Definition event_callback_activate_nolock_ (e : evid) : prog base Z :=
  v ← get_event e;
  if has (ev_flags v) EVLIST_FINALIZING then mret 0
  else
    let both := has (ev_flags v) EVLIST_ACTIVE && has (ev_flags v) EVLIST_ACTIVE_LATER in
    _ ← EVUTIL_ASSERT (negb both);
    if has (ev_flags v) EVLIST_ACTIVE then mret 0
    else
      let later := has (ev_flags v) EVLIST_ACTIVE_LATER in
      _ ← when later (event_queue_remove_active_later e);
      _ ← event_queue_insert_active e;
      _ ← maybe_notify true;
      mret (if later then 0 else 1).

Definition event_callback_activate_later_nolock_ (e : evid) : prog base Z :=
  v ← get_event e;
  if has (ev_flags v) (Z.lor EVLIST_ACTIVE EVLIST_ACTIVE_LATER) then mret 0
  else
    _ ← event_queue_insert_active_later e;
    _ ← maybe_notify true;
    mret 1.

Definition set_continue (c : bool) (b : base) : base :=
  let l := lp b in
  set_lp (Loop (event_gotterm l) (event_break l) c (event_running_priority l)
            (running_loop l) (current_event l) (ncalls_zeroed l)) b.

Definition event_active_nolock_ (e : evid) (res ncalls : Z) : prog base unit :=
  v ← get_event e;
  if has (ev_flags v) EVLIST_FINALIZING then mret tt
  else
    let active := has (ev_flags v) EVLIST_ACTIVE in
    let later := has (ev_flags v) EVLIST_ACTIVE_LATER in
    _ ← EVUTIL_ASSERT (negb (active && later));
    if active then upd_event e (λ v, set_res (i16 (Z.lor (ev_res v) res)) v)
    else
      _ ← upd_event e (λ v, set_res (if later then i16 (Z.lor (ev_res v) res) else i16 res) v);
      b ← get_state;
      _ ← when (ev_pri v <? event_running_priority (lp b)) (modify (set_continue true));
      _ ← when (has (ev_events v) EV_SIGNAL) (upd_event e (set_calls ncalls false));
      _ ← event_callback_activate_nolock_ e;
      mret tt.
Definition event_active (e : evid) (res ncalls : Z) : prog base unit :=
  v ← get_event e;
  if negb (ev_has_base v) then mret tt else event_active_nolock_ e res ncalls.

Definition event_active_later_nolock_ (e : evid) (res : Z) : prog base unit :=
  v ← get_event e;
  if has (ev_flags v) (Z.lor EVLIST_ACTIVE EVLIST_ACTIVE_LATER)
  then upd_event e (λ v, set_res (i16 (Z.lor (ev_res v) res)) v)
  else
    _ ← upd_event e (set_res (i16 res));
    _ ← event_callback_activate_later_nolock_ e;
    mret tt.

(** ** Deferred callbacks and finalization *)

Definition event_callback_cancel_nolock_ (e : evid) (even_if_finalizing : bool) : prog base Z :=
  v ← get_event e;
  if has (ev_flags v) EVLIST_FINALIZING && negb even_if_finalizing then mret 0
  else if has (ev_flags v) EVLIST_INIT then event_del_nolock_ e even_if_finalizing
  else
    let active := has (ev_flags v) EVLIST_ACTIVE in
    let later := has (ev_flags v) EVLIST_ACTIVE_LATER in
    _ ← EVUTIL_ASSERT (negb (active && later));
    _ ← when active (event_queue_remove_active e);
    _ ← when later (event_queue_remove_active_later e);
    mret 0.

Definition event_deferred_cb_schedule_ (e : evid) : prog base Z :=
  b ← get_state;
  if MAX_DEFERREDS_QUEUED <? n_deferreds_queued (qs b)
  then event_callback_activate_later_nolock_ e
  else
    r ← event_callback_activate_nolock_ e;
    _ ← when (negb (r =? 0)) (modify (λ b, set_deferreds (n_deferreds_queued (qs b) + 1) b));
    mret r.

(** [*cb = {0}] with function and priority set. *)
Definition event_deferred_cb_init_ (e : evid) (priority : Z) (cb : callback) : prog base unit :=
  upd_event e (λ _, Event false 0 (u8 priority) EV_CLOSURE_CB_SELF cb 0 0 0
                      (TV 0 0) (-1) (TV 0 0) 0 false).

Definition add_finalizing (e : evid) : prog base unit :=
  upd_event e (set_flag EVLIST_FINALIZING).

Definition event_finalize_nolock_ (free : bool) (e : evid) (cb : callback) : prog base Z :=
  _ ← event_del_nolock_ e false;
  _ ← upd_event e (set_closure (if free then EV_CLOSURE_EVENT_FINALIZE_FREE
                                else EV_CLOSURE_EVENT_FINALIZE) cb);
  _ ← event_active_nolock_ e EV_FINALIZE 1;
  _ ← add_finalizing e;
  mret 0.

Definition event_callback_finalize_nolock_ (e : evid) (cb : callback) : prog base unit :=
  v ← get_event e;
  _ ← (if has (ev_flags v) EVLIST_INIT then event_del_nolock_ e false
       else event_callback_cancel_nolock_ e false);
  _ ← upd_event e (set_closure EV_CLOSURE_CB_FINALIZE cb);
  _ ← event_callback_activate_nolock_ e;
  add_finalizing e.

Fixpoint finalize_each (l : list evid) (cb : callback) : prog base Z :=
  match l with
  | [] => mret 0
  | e :: l =>
      b ← get_state;
      if bool_decide (current_event (lp b) = Some e) then
        _ ← event_callback_finalize_nolock_ e cb;
        n ← finalize_each l cb; mret (n + 1)
      else
        _ ← event_callback_cancel_nolock_ e false;
        finalize_each l cb
  end.
Definition event_callback_finalize_many_ (l : list evid) (cb : callback) : prog base Z :=
  n_pending ← finalize_each l cb;
  _ ← when (n_pending =? 0)
        (e ← deref (head l); event_callback_finalize_nolock_ e cb);
  mret 0.

(** ** Setting up and inspecting events *)

Definition event_assign (e : evid) (has_base : bool) (fd events : Z) (cb : callback) : prog base Z :=
  v ← get_event e;
  b ← get_state;
  (* the fields that are set before the check *)
  let v1 := Event has_base EVLIST_INIT (ev_pri v) (ev_closure v) cb fd events 0
              (ev_timeout v) (min_heap_idx v) (ev_io_timeout v) 0 false in
  if has events EV_SIGNAL && has events EV_IO then
    _ ← upd_event e (λ _, v1); mret (-1)
  else
    let v2 :=
      if has events EV_SIGNAL then set_closure EV_CLOSURE_EVENT_SIGNAL cb v1
      else if has events EV_PERSIST
      then set_io_timeout (TV 0 0) (set_closure EV_CLOSURE_EVENT_PERSIST cb v1)
      else set_closure EV_CLOSURE_EVENT cb v1 in
    let v3 := set_heap_idx (-1) v2 in
    let v4 := if has_base then set_pri (u8 (nactivequeues b `div` 2)) v3 else v3 in
    _ ← upd_event e (λ _, v4); mret 0.

Definition event_base_set (e : evid) : prog base Z :=
  v ← get_event e;
  if negb (ev_flags v =? EVLIST_INIT) then mret (-1)
  else
    b ← get_state;
    _ ← upd_event e (λ v, let v := set_pri (u8 (nactivequeues b `div` 2)) v in
           Event true (ev_flags v) (ev_pri v) (ev_closure v) (ev_callback v) (ev_fd v) (ev_events v)
             (ev_res v) (ev_timeout v) (min_heap_idx v) (ev_io_timeout v) (ev_ncalls v) (ev_pncalls v));
    mret 0.

Definition event_priority_set (e : evid) (pri : Z) : prog base Z :=
  v ← get_event e;
  n ← gets nactivequeues;
  if has (ev_flags v) EVLIST_ACTIVE then mret (-1)
  else if (pri <? 0) || (n <=? pri) then mret (-1)
  else _ ← upd_event e (set_pri (u8 pri)); mret 0.

(** The mask of pending conditions, and the time reported through [tv]. *)
Definition event_pending (e : evid) (event : Z) : prog base (Z * option timeval) :=
  v ← get_event e;
  b ← get_state;
  if negb (ev_has_base v) then mret (0, None)
  else
    let flags := 0 in
    let flags := if has (ev_flags v) EVLIST_INSERTED
                 then Z.lor flags (Z.land (ev_events v) (Z.lor EV_IO EV_SIGNAL)) else flags in
    let flags := if has (ev_flags v) (Z.lor EVLIST_ACTIVE EVLIST_ACTIVE_LATER)
                 then Z.lor flags (ev_res v) else flags in
    let flags := if has (ev_flags v) EVLIST_TIMEOUT then Z.lor flags EV_TIMEOUT else flags in
    let event := Z.land event (Z.lor EV_TIMEOUT (Z.lor EV_IO EV_SIGNAL)) in
    mret (Z.land flags event,
          if has (Z.land flags event) EV_TIMEOUT
          then Some (evutil_timeradd (tv_clock_diff (clk b)) (mask_usec (ev_timeout v)))
          else None).

(** [ev_io_timeout] shares its memory with [ev_ncalls] and [ev_pncalls], which
    are cleared with it. *)
Definition event_remove_timer_nolock_ (e : evid) : prog base Z :=
  v ← get_event e;
  _ ← when (has (ev_flags v) EVLIST_TIMEOUT)
        (_ ← event_queue_remove_timeout e;
         upd_event e (λ v, set_calls 0 false (set_io_timeout (TV 0 0) v)));
  mret 0.
Definition event_remove_timer (e : evid) : prog base Z :=
  v ← get_event e;
  if negb (ev_has_base v) then mret (-1) else event_remove_timer_nolock_ e.

(** [alloc_ok] is the outcome of [mm_calloc]. *)
Definition event_base_priority_init (npriorities : Z) (alloc_ok : bool) : prog base Z :=
  b ← get_state;
  if negb (N_ACTIVE_CALLBACKS b =? 0) || (npriorities <? 1) || (EVENT_MAX_PRIORITIES <=? npriorities)
  then mret (-1)
  else if npriorities =? nactivequeues b then mret 0
  else
    let qs' n := Queues (zrepeat [] n) (active_later_queue (qs b)) (n_deferreds_queued (qs b)) in
    if alloc_ok then _ ← put_state (set_qs (qs' npriorities) b); mret 0
    else _ ← put_state (set_qs (qs' 0) b); mret (-1).

Definition set_virtual (n : Z) (b : base) : base :=
  let c := cnt b in
  set_cnt (Counters (event_count c) (event_count_max c) (event_count_active c)
             (event_count_active_max c) n) b.
Definition event_base_add_virtual_ : prog base unit :=
  modify (λ b, set_virtual (virtual_event_count (cnt b) + 1) b).
Definition event_base_del_virtual_ : prog base unit :=
  b ← get_state;
  _ ← EVUTIL_ASSERT (0 <? virtual_event_count (cnt b));
  _ ← modify (λ b, set_virtual (virtual_event_count (cnt b) - 1) b);
  b ← get_state;
  maybe_notify (virtual_event_count (cnt b) =? 0).

(** ** Timeouts *)

(** The time to wait: [Some None] is a wait without limit, [None] the result -1. *)
Definition timeout_next : prog base (option (option timeval)) :=
  b ← get_state;
  top ← deref (min_heap_top_ (timeheap (tms b)));
  match top with
  | None => mret (Some None)
  | Some e =>
      now ← gettime;
      match now with
      | None => mret None
      | Some now =>
          v ← get_event e;
          if evutil_timercmp Z.leb (ev_timeout v) now then mret (Some (Some (TV 0 0)))
          else
            let tv := evutil_timersub (ev_timeout v) now in
            _ ← EVUTIL_ASSERT (0 <=? tv_sec tv);
            _ ← EVUTIL_ASSERT (0 <=? tv_usec tv);
            mret (Some (Some tv))
      end
  end.

Fixpoint timeout_loop (fuel : nat) (now : timeval) : prog base unit :=
  b ← get_state;
  top ← deref (min_heap_top_ (timeheap (tms b)));
  match top with
  | None => mret tt
  | Some e =>
      v ← get_event e;
      if evutil_timercmp Z.gtb (ev_timeout v) now then mret tt
      else
        match fuel with
        | O => deref None
        | S fuel =>
            _ ← event_del_nolock_ e false;
            _ ← event_active_nolock_ e EV_TIMEOUT 1;
            timeout_loop fuel now
        end
  end.
(** Every round takes one event off the heap. *)
Definition timeout_process : prog base unit :=
  b ← get_state;
  if min_heap_empty_ (timeheap (tms b)) then mret tt
  else
    now ← gettime_now;
    timeout_loop (Z.to_nat (min_heap_size_ (timeheap (tms b)))) now.

(** The loop of [common_timeout_callback]: the event it stops at. *)
Fixpoint common_timeout_loop (fuel : nat) (i : Z) (now : timeval) : prog base (option evid) :=
  c ← get_ctl i;
  match head (ctl_events c) with
  | None => mret None
  | Some e =>
      v ← get_event e;
      let tv := ev_timeout v in
      if (tv_sec now <? tv_sec tv) ||
         (tv_sec tv =? tv_sec now) && (tv_usec now <? Z.land (tv_usec tv) MICROSECONDS_MASK)
      then mret (Some e)
      else
        match fuel with
        | O => deref None
        | S fuel =>
            _ ← event_del_nolock_ e false;
            _ ← event_active_nolock_ e EV_TIMEOUT 1;
            common_timeout_loop fuel i now
        end
  end.
Definition common_timeout_callback (i : nat) : prog base unit :=
  now ← gettime_now;
  c ← get_ctl (Z.of_nat i);
  ev ← common_timeout_loop (length (ctl_events c)) (Z.of_nat i) now;
  match ev with
  | Some e => c ← get_ctl (Z.of_nat i); common_timeout_schedule c e
  | None => mret tt
  end.

(** The duration the base uses for a requested one. *)
Definition normal_duration (d : timeval) (n_common : Z) : timeval :=
  if 1000000 <? tv_usec d then
    let tv := if is_common_timeout d n_common then mask_usec d else d in
    TV (i64 (tv_sec tv + Z.quot (tv_usec tv) 1000000)) (Z.rem (tv_usec tv) 1000000)
  else d.

Definition same_duration (d : timeval) (c : common_timeout_list) : bool :=
  (tv_sec d =? tv_sec (duration c)) &&
  (tv_usec d =? Z.land (tv_usec (duration c)) MICROSECONDS_MASK).

(** [fresh] is the address of the [timeout_event] of the new list; [alloc_ok]
    tells whether the allocations succeed. *)
Definition event_base_init_common_timeout (d : timeval) (fresh : evid) (alloc_ok : bool)
  : prog base (option timeval) :=
  b ← get_state;
  let n := n_common_timeouts b in
  let d := normal_duration d n in
  match List.find (same_duration d) (common_timeout_queues (tms b)) with
  | Some c =>
      _ ← EVUTIL_ASSERT (is_common_timeout (duration c) n);
      mret (Some (duration c))
  | None =>
      if n =? MAX_COMMON_TIMEOUTS then mret None
      else if negb alloc_ok then mret None
      else
        let d := TV (tv_sec d) (Z.lor (Z.lor (tv_usec d) COMMON_TIMEOUT_MAGIC)
                                  (Z.shiftl n COMMON_TIMEOUT_IDX_SHIFT)) in
        _ ← event_assign fresh true (-1) 0 (CbCommonTimeout (Z.to_nat n));
        _ ← upd_event fresh (set_flag EVLIST_INTERNAL);
        _ ← event_priority_set fresh 0;
        _ ← modify (λ b, set_tms (Timers (timeheap (tms b))
              (common_timeout_queues (tms b) ++ [Ctl d fresh []])) b);
        n ← gets n_common_timeouts;
        _ ← EVUTIL_ASSERT (is_common_timeout d n);
        mret (Some d)
  end.
End api.
