(* ===== verification/EventLoop.v ===== *)
(** The event loop of [src/event.c]: running the callbacks of active events in
    the order of their priorities, and [event_base_loop].

    Callbacks of the program and the backend are parameters, of class [Env].
    They run without the lock, so they may call every operation of the library;
    a run of a loop need not end.  Its functions therefore take a number of
    rounds and return [None] when these are used up; getting stuck stays a
    failure of the enclosing [prog]. *)
From S2P Require Import Prelude Timeval MinHeap EventDefs EventApi.

Definition EVLOOP_ONCE : Z := 0x01.
Definition EVLOOP_NONBLOCK : Z := 0x02.
Definition EVLOOP_NO_EXIT_ON_EMPTY : Z := 0x04.

(** [user_callback f e res] is the call of the program's function [f] for the
    event or callback [e]; [dispatch] is the backend's. *)
Class Env (M : Type) := {
  user_callback : nat → evid → Z → prog (event_base M) unit;
  dispatch : option timeval → prog (event_base M) Z
}.

Section loop.
Context {M : Type} {EO : EvmapOps M} {CK : Clock} {RA : Realloc} {EN : Env M}.
Abbreviation base := (event_base M).
Implicit Types (e : evid).

(** ** Fields of the loop *)

Definition upd_lp (f : loop_state → loop_state) (b : base) : base := set_lp (f (lp b)) b.
Definition with_gotterm (g : bool) (l : loop_state) : loop_state :=
  Loop g (event_break l) (event_continue l) (event_running_priority l) (running_loop l)
    (current_event l) (ncalls_zeroed l).
Definition with_break (k : bool) (l : loop_state) : loop_state :=
  Loop (event_gotterm l) k (event_continue l) (event_running_priority l) (running_loop l)
    (current_event l) (ncalls_zeroed l).
Definition with_priority (p : Z) (l : loop_state) : loop_state :=
  Loop (event_gotterm l) (event_break l) (event_continue l) p (running_loop l)
    (current_event l) (ncalls_zeroed l).
Definition with_running (r : bool) (l : loop_state) : loop_state :=
  Loop (event_gotterm l) (event_break l) (event_continue l) (event_running_priority l) r
    (current_event l) (ncalls_zeroed l).
Definition with_current (c : option evid) (l : loop_state) : loop_state :=
  Loop (event_gotterm l) (event_break l) (event_continue l) (event_running_priority l)
    (running_loop l) c (ncalls_zeroed l).
Definition with_zeroed (z : bool) (l : loop_state) : loop_state :=
  Loop (event_gotterm l) (event_break l) (event_continue l) (event_running_priority l)
    (running_loop l) (current_event l) z.

(** ** Control *)

Definition event_loopexit_cb : prog base unit := modify (upd_lp (with_gotterm true)).

Definition notify_result : prog base Z :=
  b ← get_state; if EVBASE_NEED_NOTIFY b then evthread_notify_base else mret 0.
Definition event_base_loopbreak : prog base Z :=
  _ ← modify (upd_lp (with_break true)); notify_result.
Definition event_base_loopcontinue : prog base Z :=
  _ ← modify (set_continue true); notify_result.
Definition event_base_got_break : prog base bool := gets (λ b, event_break (lp b)).
Definition event_base_got_exit : prog base bool := gets (λ b, event_gotterm (lp b)).

(** [fresh] is the new [event_once], [alloc_ok] the outcome of [mm_calloc]; the
    list [once_events] is not modelled. *)
Definition event_base_once (fresh : evid) (alloc_ok : bool) (fd events : Z) (cb : callback)
    (tv : option timeval) : prog base Z :=
  if has events (Z.lor EV_SIGNAL EV_PERSIST) then mret (-1)
  else if negb alloc_ok then mret (-1)
  else if Z.land events (Z.lor EV_TIMEOUT (Z.lor EV_SIGNAL EV_IO)) =? EV_TIMEOUT then
    _ ← event_assign fresh true (-1) 0 (CbOnce cb);
    if match tv with None => true | Some tv => negb (evutil_timerisset tv) end
    then _ ← event_active_nolock_ fresh EV_TIMEOUT 1; mret 0
    else event_add_nolock_ fresh tv false
  else if has events EV_IO then
    _ ← event_assign fresh true fd (Z.land events EV_IO) (CbOnce cb);
    event_add_nolock_ fresh tv false
  else mret (-1).
Definition event_base_loopexit (fresh : evid) (alloc_ok : bool) (tv : option timeval) : prog base Z :=
  event_base_once fresh alloc_ok (-1) EV_TIMEOUT CbLoopexit tv.

(** ** Callbacks *)

(** [event_once_cb] calls the stored callback and releases its memory, which is
    not modelled. *)
Fixpoint run_callback (cb : callback) (e : evid) (res : Z) : prog base unit :=
  match cb with
  | CbUser f => user_callback f e res
  | CbCommonTimeout i => common_timeout_callback i
  | CbLoopexit => event_loopexit_cb
  | CbOnce cb => run_callback cb e res
  end.
Definition call_event (e : evid) : prog base unit :=
  v ← get_event e; run_callback (ev_callback v) e (ev_res v).

(** The loop over the calls of a signal; [ncalls] is a [short]. *)
Fixpoint signal_loop (fuel : nat) (e : evid) (ncalls : Z) : prog base unit :=
  if ncalls =? 0 then mret tt
  else
    match fuel with
    | O => deref None
    | S fuel =>
        let ncalls := i16 (ncalls - 1) in
        _ ← upd_event e (λ v, set_calls ncalls (if ncalls =? 0 then false else ev_pncalls v) v);
        _ ← modify (upd_lp (with_zeroed false));
        _ ← call_event e;
        b ← get_state;
        let ncalls := if ncalls_zeroed (lp b) then 0 else ncalls in
        if event_break (lp b) then
          when (negb (ncalls =? 0)) (upd_event e (λ v, set_calls (ev_ncalls v) false v))
        else signal_loop fuel e ncalls
    end.
Definition event_signal_closure (e : evid) : prog base unit :=
  v ← get_event e;
  let ncalls := i16 (ev_ncalls v) in
  _ ← when (negb (ncalls =? 0)) (upd_event e (λ v, set_calls (ev_ncalls v) true v));
  signal_loop (Z.to_nat (ncalls mod 65536)) e ncalls.

(** The next due time of a persistent event. *)
Definition persist_run_at (v : event) (now : timeval) (n_common : Z) : timeval :=
  let common := is_common_timeout (ev_timeout v) n_common in
  let usec_mask := if common then (tv_usec (ev_io_timeout v) &~ MICROSECONDS_MASK)%ev else 0 in
  let delay := if common then mask_usec (ev_io_timeout v) else ev_io_timeout v in
  let relative_to :=
    if has (ev_res v) EV_TIMEOUT
    then if common then mask_usec (ev_timeout v) else ev_timeout v
    else now in
  let run_at := evutil_timeradd relative_to delay in
  let run_at := if evutil_timercmp Z.ltb run_at now then evutil_timeradd now delay else run_at in
  TV (tv_sec run_at) (Z.lor (tv_usec run_at) usec_mask).
Definition persist_reschedule (e : evid) : prog base unit :=
  v ← get_event e;
  when (negb (tv_sec (ev_io_timeout v) =? 0) || negb (tv_usec (ev_io_timeout v) =? 0))
    (_ ← EVUTIL_ASSERT (is_same_common_timeout (ev_timeout v) (ev_io_timeout v));
     now ← gettime_now;
     n ← gets n_common_timeouts;
     _ ← event_add_nolock_ e (Some (persist_run_at v now n)) true;
     mret tt).
Definition event_persist_closure (e : evid) : prog base unit :=
  _ ← persist_reschedule e; call_event e.

Definition run_closure (e : evid) : prog base unit :=
  v ← get_event e;
  match ev_closure v with
  | EV_CLOSURE_EVENT_SIGNAL =>
      _ ← EVUTIL_ASSERT (has (ev_flags v) EVLIST_INIT); event_signal_closure e
  | EV_CLOSURE_EVENT_PERSIST =>
      _ ← EVUTIL_ASSERT (has (ev_flags v) EVLIST_INIT); event_persist_closure e
  | EV_CLOSURE_EVENT => _ ← EVUTIL_ASSERT (has (ev_flags v) EVLIST_INIT); call_event e
  | EV_CLOSURE_CB_SELF => call_event e
  | EV_CLOSURE_EVENT_FINALIZE | EV_CLOSURE_EVENT_FINALIZE_FREE =>
      _ ← EVUTIL_ASSERT (has (ev_flags v) EVLIST_INIT);
      _ ← modify (upd_lp (with_current None));
      _ ← EVUTIL_ASSERT (has (ev_flags v) EVLIST_FINALIZING);
      call_event e
  | EV_CLOSURE_CB_FINALIZE =>
      _ ← modify (upd_lp (with_current None));
      _ ← EVUTIL_ASSERT (has (ev_flags v) EVLIST_FINALIZING);
      call_event e
  end.

(** ** Active queues *)

(** Taking the first event off its queue before its callback runs. *)
Definition take_active (e : evid) : prog base unit :=
  v ← get_event e;
  if has (ev_flags v) EVLIST_INIT then
    if has (ev_events v) EV_PERSIST || has (ev_flags v) EVLIST_FINALIZING
    then event_queue_remove_active e
    else _ ← event_del_nolock_ e false; mret tt
  else event_queue_remove_active e.

(** Whether the time for callbacks is over. *)
Definition past_endtime (count : Z) (endtime : option timeval) : prog base bool :=
  match endtime with
  | Some endtime =>
      if count =? 0 then mret false
      else
        _ ← update_time_cache;
        now ← gettime_now;
        mret (evutil_timercmp Z.geb now endtime)
  | None => mret false
  end.

Fixpoint event_process_active_single_queue (rounds : nat) (i : Z) (max_to_process : Z)
    (endtime : option timeval) (count : Z) : prog base (option Z) :=
  q ← get_activeq i;
  match head q with
  | None => mret (Some count)
  | Some e =>
      match rounds with
      | O => mret None
      | S rounds =>
          _ ← take_active e;
          v ← get_event e;
          let count := if has (ev_flags v) EVLIST_INTERNAL then count else count + 1 in
          _ ← modify (upd_lp (with_current (Some e)));
          _ ← run_closure e;
          _ ← modify (upd_lp (with_current None));
          b ← get_state;
          if event_break (lp b) then mret (Some (-1))
          else if max_to_process <=? count then mret (Some count)
          else
            stop ← past_endtime count endtime;
            if (stop : bool) then mret (Some count)
            else
              b ← get_state;
              if event_continue (lp b) then mret (Some count)
              else event_process_active_single_queue rounds i max_to_process endtime count
      end
  end.

(** The loop over the priorities from [i] on, at most [n] of them. *)
Fixpoint process_priorities (rounds n : nat) (i maxcb : Z) (endtime : option timeval)
    (limit_after_prio : Z) : prog base (option Z) :=
  b ← get_state;
  if nactivequeues b <=? i then mret (Some 0)
  else
    match n with
    | O => mret None
    | S n =>
        q ← get_activeq i;
        if bool_decide (q = [])
        then process_priorities rounds n (i + 1) maxcb endtime limit_after_prio
        else
          _ ← modify (upd_lp (with_priority i));
          c ← (if i <? limit_after_prio
               then event_process_active_single_queue rounds i INT_MAX None 0
               else event_process_active_single_queue rounds i maxcb endtime 0);
          match c with
          | None => mret None
          | Some c =>
              if c =? 0 then process_priorities rounds n (i + 1) maxcb endtime limit_after_prio
              else mret (Some c)
          end
    end.
Definition event_process_active (rounds : nat) : prog base (option Z) :=
  b ← get_state;
  let maxcb := max_dispatch_callbacks (cfg b) in
  let limit_after_prio := limit_callbacks_after_prio (cfg b) in
  endtime ←
    (if 0 <=? tv_sec (max_dispatch_time (cfg b)) then
       _ ← update_time_cache;
       now ← gettime_now;
       mret (Some (evutil_timeradd (max_dispatch_time (cfg b)) now))
     else mret None);
  b ← get_state;
  c ← process_priorities rounds (Z.to_nat (nactivequeues b)) 0 maxcb endtime limit_after_prio;
  match c with
  | None => mret None
  | Some c => _ ← modify (upd_lp (with_priority (-1))); mret (Some c)
  end.

(** ** The loop *)

(** The waiting time of the next dispatch; [timeout_next] leaves it undefined
    when the clock fails. *)
Definition wait_time (flags : Z) : prog base (option timeval) :=
  b ← get_state;
  if (N_ACTIVE_CALLBACKS b =? 0) && negb (has flags EVLOOP_NONBLOCK)
  then r ← timeout_next; deref r
  else mret (Some (TV 0 0)).

(** What one round of the loop ends with. *)
Inductive round :=
| Again
| Return (retval : Z)
| Unfinished.

Definition loop_round (rounds : nat) (flags : Z) : prog base round :=
  _ ← modify (set_continue false);
  _ ← modify (set_deferreds 0);
  b ← get_state;
  if event_gotterm (lp b) || event_break (lp b) then mret (Return 0)
  else
    tv ← wait_time flags;
    b ← get_state;
    if negb (has flags EVLOOP_NO_EXIT_ON_EMPTY) && negb (event_haveevents b) &&
       (N_ACTIVE_CALLBACKS b =? 0)
    then mret (Return 1)
    else
      _ ← event_queue_make_later_events_active;
      _ ← clear_time_cache;
      res ← dispatch tv;
      if res =? -1 then mret (Return (-1))
      else
        _ ← update_time_cache;
        _ ← timeout_process;
        b ← get_state;
        if negb (N_ACTIVE_CALLBACKS b =? 0) then
          n ← event_process_active rounds;
          match n with
          | None => mret Unfinished
          | Some n =>
              b ← get_state;
              if has flags EVLOOP_ONCE && (N_ACTIVE_CALLBACKS b =? 0) && negb (n =? 0)
              then mret (Return 0) else mret Again
          end
        else if has flags EVLOOP_NONBLOCK then mret (Return 0) else mret Again.

Fixpoint loop_rounds (rounds : nat) (flags : Z) : prog base (option Z) :=
  match rounds with
  | O => mret None
  | S rounds' =>
      r ← loop_round rounds flags;
      match r with
      | Again => loop_rounds rounds' flags
      | Return retval =>
          _ ← clear_time_cache;
          _ ← modify (upd_lp (with_running false));
          mret (Some retval)
      | Unfinished => mret None
      end
  end.

Definition event_base_loop (rounds : nat) (flags : Z) : prog base (option Z) :=
  b ← get_state;
  if running_loop (lp b) then mret (Some (-1))
  else
    _ ← modify (upd_lp (with_running true));
    _ ← clear_time_cache;
    _ ← modify (upd_lp (with_gotterm false));
    _ ← modify (upd_lp (with_break false));
    loop_rounds rounds flags.
Definition event_base_dispatch (rounds : nat) : prog base (option Z) := event_base_loop rounds 0.
End loop.
