(* ===== verification/EventInv.v ===== *)
(** The invariant of the event base, and that every queue operation keeps it.

    An event is in a queue exactly when its flags say so; the counters count the
    flags; the timer heap is a heap.  The invariant is a conjunction of facts
    that each look at a few fields of the events ("views"), so that an
    operation that leaves a view alone keeps the corresponding fact. *)
From S2P Require Import Prelude Timeval MinHeap EventDefs.

(** * Flags *)

Lemma has_lor f g m : has (Z.lor f g) m = has f m || has g m.
Proof.
  unfold has. rewrite Z.land_lor_distr_l, <-negb_andb. f_equal.
  apply eq_true_iff_eq. by rewrite andb_true_iff, !Z.eqb_eq, Z.lor_eq_0_iff.
Qed.
Lemma has_lor_r f m n : has f (Z.lor m n) = has f m || has f n.
Proof.
  assert (H : ∀ a b, has a b = has b a) by (intros; unfold has; by rewrite Z.land_comm).
  rewrite !(H f). apply has_lor.
Qed.
Lemma has_andnot f m n : has (f &~ m)%ev n = has f (n &~ m)%ev.
Proof. unfold has. by rewrite <-!Z.land_assoc, (Z.land_comm (Z.lnot m)). Qed.
Lemma has_0 f : has f 0 = false.
Proof. unfold has. by rewrite Z.land_0_r. Qed.

Definition fl (v : event) (m : Z) : bool := has (ev_flags v) m.

Lemma fl_clear_other m v n : (n &~ m)%ev = n → fl (clear_flag m v) n = fl v n.
Proof. intros H. unfold fl, clear_flag. simpl. by rewrite has_andnot, H. Qed.
Lemma fl_clear_same m v n : (n &~ m)%ev = 0 → fl (clear_flag m v) n = false.
Proof. intros H. unfold fl, clear_flag. simpl. by rewrite has_andnot, H, has_0. Qed.
Lemma fl_clear_le m v n : fl (clear_flag m v) n = true → fl v n = true.
Proof.
  unfold fl, clear_flag. simpl. rewrite has_andnot. intros H.
  rewrite <-(Z.lor_ldiff_and n m), has_lor_r, Z.ldiff_land. by rewrite H.
Qed.
Lemma fl_set_other m v n : has m n = false → fl (set_flag m v) n = fl v n.
Proof. intros H. unfold fl, set_flag. simpl. by rewrite has_lor, H, orb_false_r. Qed.
Lemma fl_set_same m v n : has m n = true → fl (set_flag m v) n = true.
Proof. intros H. unfold fl, set_flag. simpl. by rewrite has_lor, H, orb_true_r. Qed.
(** Both premises are settled by evaluation. *)
Ltac fl_simpl :=
  repeat first
    [ rewrite fl_clear_other by reflexivity | rewrite fl_clear_same by reflexivity
    | rewrite fl_set_other by reflexivity | rewrite fl_set_same by reflexivity ].

(** * Sums over the events of the program *)

Fixpoint tally (w : event → Z) (E : evid → event) (l : list evid) : Z :=
  match l with [] => 0 | e :: l => w (E e) + tally w E l end.

Lemma tally_ext w E E' l : (∀ x, x ∈ l → w (E' x) = w (E x)) → tally w E' l = tally w E l.
Proof.
  induction l as [|x l IH]; simpl; intros H; [done|].
  rewrite (H x) by set_solver. rewrite IH; [done|]. intros; apply H; set_solver.
Qed.
Lemma tally_upd w E E' l e :
  NoDup l → e ∈ l → (∀ x, x ≠ e → w (E' x) = w (E x)) →
  tally w E' l = tally w E l - w (E e) + w (E' e).
Proof.
  induction l as [|x l IH]; simpl; intros Hnd He H; [set_solver|].
  apply NoDup_cons in Hnd as [Hx Hnd]. apply elem_of_cons in He as [->|He].
  - rewrite (tally_ext w E E') by (intros; apply H; set_solver). lia.
  - rewrite IH, (H x) by (done || set_solver). lia.
Qed.
Lemma tally_nonneg w E l : (∀ v, 0 <= w v) → 0 <= tally w E l.
Proof. intros H. induction l as [|x l IH]; simpl; [done|]. pose proof (H (E x)). lia. Qed.
Lemma tally_0 w E l : (∀ v, 0 <= w v) → tally w E l = 0 ↔ ∀ x, x ∈ l → w (E x) = 0.
Proof.
  intros H. induction l as [|x l IH]; simpl; [split; [set_solver|done]|].
  pose proof (H (E x)). pose proof (tally_nonneg w E l H). split.
  - intros Hz y [->|Hy]%elem_of_cons; [lia|]. apply IH; [lia|done].
  - intros Hz. rewrite (proj2 IH) by (intros; apply Hz; set_solver).
    rewrite Hz by set_solver. done.
Qed.

(** How often [event_count] and [event_count_active] count an event. *)
Definition active_weight (v : event) : Z :=
  b2z (fl v EVLIST_ACTIVE) + b2z (fl v EVLIST_ACTIVE_LATER).
Definition weight (v : event) : Z :=
  if fl v EVLIST_INTERNAL then 0
  else b2z (fl v EVLIST_TIMEOUT) + b2z (fl v EVLIST_INSERTED) + active_weight v.

Lemma b2z_nonneg c : 0 <= b2z c.
Proof. by destruct c. Qed.
Lemma active_weight_nonneg v : 0 <= active_weight v.
Proof. unfold active_weight. pose proof (b2z_nonneg (fl v EVLIST_ACTIVE)).
  pose proof (b2z_nonneg (fl v EVLIST_ACTIVE_LATER)). lia. Qed.
Lemma weight_nonneg v : 0 <= weight v.
Proof.
  unfold weight. destruct (fl v EVLIST_INTERNAL); [done|].
  pose proof (active_weight_nonneg v). pose proof (b2z_nonneg (fl v EVLIST_TIMEOUT)).
  pose proof (b2z_nonneg (fl v EVLIST_INSERTED)). lia.
Qed.

(** * Removing from a list *)

Lemma tailq_remove_ok e l :
  NoDup l → e ∈ l → ∃ l', tailq_remove e l = Some l' ∧ NoDup l' ∧ ∀ x, x ∈ l' ↔ x ∈ l ∧ x ≠ e.
Proof.
  induction l as [|y l IH]; simpl; intros Hnd He; [set_solver|].
  apply NoDup_cons in Hnd as [Hy Hnd]. destruct (decide (y = e)) as [->|Hne].
  - exists l. split; [done|]. split; [done|]. set_solver.
  - destruct IH as (l' & -> & Hnd' & Hl'); [done|set_solver|].
    exists (y :: l'). split; [done|]. split; [|set_solver].
    apply NoDup_cons. split; [|done]. rewrite Hl'. tauto.
Qed.

(** * Interfaces with laws *)

(** What [evmap] promises: [em_io m fd] and [em_sig m s] are the events listed
    for a descriptor and for a signal.  [em_inv m mask] is its invariant, for
    events whose [ev_events] are [mask]. *)
Class EvmapLaws (M : Type) {EO : EvmapOps M} := {
  em_io : M → Z → evid → Prop;
  em_sig : M → Z → evid → Prop;
  em_inv : M → (evid → Z) → Prop;
  em_inv_ext m mask mask' :
    (∀ x fd, em_io m fd x ∨ em_sig m fd x → mask' x = mask x) → em_inv m mask → em_inv m mask';
  em_io_add m mask fd e :
    em_inv m mask → (∀ fd, ¬ em_io m fd e) → has (mask e) EV_IO = true →
    ∃ m' r, evmap_io_add_ m fd e (mask e) = Some (m', r) ∧
    em_inv m' mask ∧ (r = -1 ∨ r = 0 ∨ r = 1) ∧
    (∀ fd' x, em_io m' fd' x ↔ em_io m fd' x ∨ r ≠ -1 ∧ 0 <= fd ∧ fd' = fd ∧ x = e) ∧
    (∀ s x, em_sig m' s x ↔ em_sig m s x);
  em_io_del m mask fd e :
    em_inv m mask → (0 <= fd → em_io m fd e) →
    ∃ m' r, evmap_io_del_ m fd e (mask e) = Some (m', r) ∧
      em_inv m' mask ∧ (r = -1 ∨ r = 0 ∨ r = 1) ∧
      (∀ fd' x, em_io m' fd' x ↔ em_io m fd' x ∧ ¬ (0 <= fd ∧ fd' = fd ∧ x = e)) ∧
      (∀ s x, em_sig m' s x ↔ em_sig m s x);
  em_sig_add m mask s e m' r :
    em_inv m mask → (∀ s, ¬ em_sig m s e) →
    evmap_signal_add_ m s e = (m', r) →
    em_inv m' mask ∧ (r = -1 ∨ r = 0 ∨ r = 1) ∧
    (∀ fd x, em_io m' fd x ↔ em_io m fd x) ∧
    (∀ s' x, em_sig m' s' x ↔ em_sig m s' x ∨ r ≠ -1 ∧ s' = s ∧ x = e);
  em_sig_del m mask s e :
    em_inv m mask → em_sig m s e →
    ∃ m' r, evmap_signal_del_ m s e = Some (m', r) ∧
      em_inv m' mask ∧ (r = -1 ∨ r = 0 ∨ r = 1) ∧
      (∀ fd x, em_io m' fd x ↔ em_io m fd x) ∧
      (∀ s' x, em_sig m' s' x ↔ em_sig m s' x ∧ ¬ (s' = s ∧ x = e))
}.

(** The clock does not fail, and its values are normal. *)
Class ClockLaws {CK : Clock} := {
  clock_ok n : ∃ tv, clock_now n = Some tv ∧ tv_norm tv ∧ 0 < tv_sec tv < 2 ^ 63
}.

(** * Durations and due times *)

(** [usec] of the common timeout with index [i]. *)
Definition common_usec (i w : Z) : Z := COMMON_TIMEOUT_MAGIC + i * 2 ^ 20 + w.

Lemma common_usec_bits i w :
  0 <= w < 2 ^ 20 → 0 <= i < 256 →
  Z.land (common_usec i w) MICROSECONDS_MASK = w ∧
  Z.shiftr (Z.land (common_usec i w) COMMON_TIMEOUT_IDX_MASK) COMMON_TIMEOUT_IDX_SHIFT = i ∧
  Z.land (common_usec i w) COMMON_TIMEOUT_MASK = COMMON_TIMEOUT_MAGIC ∧
  (common_usec i w &~ MICROSECONDS_MASK)%ev = common_usec i 0.
Proof.
  intros Hw Hi. unfold common_usec.
  assert (Hland : ∀ u, Z.land u MICROSECONDS_MASK = u mod 2 ^ 20).
  { intros u. change MICROSECONDS_MASK with (Z.ones 20). by rewrite Z.land_ones. }
  assert (Hidx : ∀ u, Z.shiftr (Z.land u COMMON_TIMEOUT_IDX_MASK) COMMON_TIMEOUT_IDX_SHIFT =
                      (u `div` 2 ^ 20) mod 2 ^ 8).
  { intros u. rewrite Z.shiftr_land. change (Z.shiftr COMMON_TIMEOUT_IDX_MASK _) with (Z.ones 8).
    rewrite Z.land_ones by done. by rewrite Z.shiftr_div_pow2. }
  assert (Hmask : ∀ u, Z.land u COMMON_TIMEOUT_MASK = (u `div` 2 ^ 28) mod 2 ^ 4 * 2 ^ 28).
  { intros u. change COMMON_TIMEOUT_MASK with (Z.shiftl (Z.ones 4) 28).
    rewrite <-(Z.shiftl_mul_pow2 _ 28), <-(Z.shiftr_div_pow2 u 28), <-Z.land_ones by done.
    rewrite Z.shiftl_land. apply Z.bits_inj_iff'. intros k Hk.
    rewrite !Z.land_spec, !Z.shiftl_spec by done.
    destruct (Z.ltb_spec (k - 28) 0); [rewrite (Z.testbit_neg_r _ (k - 28)) by done; by rewrite !andb_false_r|].
    rewrite Z.shiftr_spec by done. by replace (k - 28 + 28) with k by lia. }
  assert (Hnot : ∀ u, (u &~ MICROSECONDS_MASK)%ev = u `div` 2 ^ 20 * 2 ^ 20).
  { intros u. rewrite <-Z.ldiff_land. change MICROSECONDS_MASK with (Z.ones 20).
    rewrite Z.ldiff_ones_r by done. by rewrite Z.shiftl_mul_pow2, Z.shiftr_div_pow2. }
  rewrite Hland, Hidx, Hmask, Hnot. unfold COMMON_TIMEOUT_MAGIC. change (2 ^ 20) with 1048576 in *.
  change (2 ^ 8) with 256. change (2 ^ 28) with 268435456. change (2 ^ 4) with 16.
  split_and!; lia.
Qed.

(** * The invariant *)

(** An event up to its position in the heap. *)
Definition core (v : event) : event := set_heap_idx (-1) v.

(** What each part of the invariant sees of an event. *)
Definition act_view (v : event) : bool * bool * Z :=
  (fl v EVLIST_ACTIVE, fl v EVLIST_ACTIVE_LATER, ev_pri v).
Definition timer_view (v : event) : bool * timeval * Z :=
  (fl v EVLIST_TIMEOUT, ev_timeout v, min_heap_idx v).
Definition map_view (v : event) : bool * Z * Z := (fl v EVLIST_INSERTED, ev_fd v, ev_events v).

(** The active queues hold the active events of their priority. *)
Record act_ok (s : store) (q : queues) : Prop := {
  ao_queue i l : zget (activequeues q) i = Some l →
    NoDup l ∧ ∀ e, e ∈ l ↔ fl (s !!! e) EVLIST_ACTIVE = true ∧ ev_pri (s !!! e) = i;
  ao_later : NoDup (active_later_queue q);
  ao_later_in e : e ∈ active_later_queue q ↔ fl (s !!! e) EVLIST_ACTIVE_LATER = true;
  ao_pri e : 0 <= ev_pri (s !!! e) < zlen (activequeues q);
  ao_excl e : fl (s !!! e) EVLIST_ACTIVE = true → fl (s !!! e) EVLIST_ACTIVE_LATER = false
}.

(** Times the base can hold when it has [n] common timeouts. *)
Definition plain_tv (tv : timeval) : Prop := 0 <= tv_usec tv <= 1000000 ∧ - 2 ^ 63 <= tv_sec tv < 2 ^ 63.
Definition common_tv (i : Z) (tv : timeval) : Prop :=
  ∃ w, 0 <= w <= 1000000 ∧ tv_usec tv = common_usec i w ∧ - 2 ^ 63 <= tv_sec tv < 2 ^ 63.
Definition good_tv (n : Z) (tv : timeval) : Prop :=
  plain_tv tv ∨ ∃ i, 0 <= i < n ∧ common_tv i tv.

(** [x] is not due after [y]. *)
Definition due_before (s : store) (x y : evid) : Prop :=
  tv_gtb (ev_timeout (s !!! x)) (ev_timeout (s !!! y)) = false.

(** The heap holds the ordinary timeouts, each list its common timeouts in the
    order in which they are due. *)
Record tm_ok (s : store) (t : timers) : Prop := {
  to_heap : heap_wf (timeheap t) s;
  to_mem e : min_heap_idx (s !!! e) ≠ -1 ↔
    fl (s !!! e) EVLIST_TIMEOUT = true ∧
    is_common_timeout (ev_timeout (s !!! e)) (zlen (common_timeout_queues t)) = false;
  to_nodup i c : zget (common_timeout_queues t) i = Some c → NoDup (ctl_events c);
  to_list i c e : zget (common_timeout_queues t) i = Some c →
    e ∈ ctl_events c ↔ fl (s !!! e) EVLIST_TIMEOUT = true ∧ common_tv i (ev_timeout (s !!! e));
  to_due e : fl (s !!! e) EVLIST_TIMEOUT = true →
    good_tv (zlen (common_timeout_queues t)) (ev_timeout (s !!! e));
  to_ctl i c : zget (common_timeout_queues t) i = Some c → common_tv i (duration c);
  to_max : zlen (common_timeout_queues t) <= 256;
  to_sorted i c : zget (common_timeout_queues t) i = Some c → StronglySorted (due_before s) (ctl_events c)
}.

Lemma sorted_ext s s' l :
  (∀ x, x ∈ l → ev_timeout (s' !!! x) = ev_timeout (s !!! x)) →
  StronglySorted (due_before s) l → StronglySorted (due_before s') l.
Proof.
  intros He. induction 1 as [|x l Hs IH Hf]; constructor.
  - apply IH. intros y Hy. apply He. set_solver.
  - rewrite Forall_forall in Hf |- *. intros y Hy. unfold due_before. rewrite !He by set_solver. by apply Hf.
Qed.
(** Changing an event that is in no list. *)
Lemma sorted_insert s e w l : e ∉ l → StronglySorted (due_before s) l → StronglySorted (due_before (<[e := w]> s)) l.
Proof. intros He. apply sorted_ext. intros x Hx. rewrite lookup_total_insert_ne; [done|]. by intros ->. Qed.
Lemma sorted_remove R e (l l' : list evid) : tailq_remove e l = Some l' → StronglySorted R l → StronglySorted R l'.
Proof.
  intros Hr Hs. revert l' Hr. induction Hs as [|x l Hs IH Hf]; simpl; intros l'; [done|].
  case_decide; [by intros [= <-]|]. destruct (tailq_remove e l) as [k|] eqn:E; [|done]. intros [= <-].
  constructor; [by apply IH|]. rewrite Forall_forall in Hf |- *. intros y Hy. apply Hf.
  clear -E Hy. revert k E Hy. induction l as [|z l IH]; simpl; intros k; [done|].
  case_decide; [intros [= <-]; set_solver|]. destruct (tailq_remove e l) as [j|]; [|done]. intros [= <-] Hy.
  apply elem_of_cons in Hy as [->|Hy]; [by left|right; by eapply IH].
Qed.

Lemma common_tv_spec i tv n :
  common_tv i tv → 0 <= i < n → n <= 256 →
  is_common_timeout tv n = true ∧ COMMON_TIMEOUT_IDX tv = i ∧
  (tv_usec tv &~ MICROSECONDS_MASK)%ev = common_usec i 0 ∧ plain_tv (mask_usec tv).
Proof.
  intros (w & Hw & Hu & Hs) Hi Hn.
  destruct (common_usec_bits i w) as (H1 & H2 & H3 & H4); [lia..|].
  unfold is_common_timeout, COMMON_TIMEOUT_IDX, plain_tv, mask_usec. simpl.
  rewrite Hu, H1, H2, H3, H4, Z.eqb_refl. cbn [andb].
  destruct (Z.ltb_spec i n); [|lia]. split_and!; done || lia.
Qed.

Lemma plain_tv_spec tv n :
  plain_tv tv → is_common_timeout tv n = false ∧ (tv_usec tv &~ MICROSECONDS_MASK)%ev = 0 ∧
  mask_usec tv = tv.
Proof.
  intros Hp. unfold plain_tv in Hp. destruct tv as [sec u]. simpl in Hp.
  destruct (common_usec_bits 0 u) as (H1 & H2 & H3 & H4); [lia..|].
  assert (Hm : Z.land u MICROSECONDS_MASK = u).
  { change MICROSECONDS_MASK with (Z.ones 20). rewrite Z.land_ones by done. apply Z.mod_small. lia. }
  assert (Hc : Z.land u COMMON_TIMEOUT_MASK = 0).
  { rewrite <-Hm, <-Z.land_assoc. by rewrite Z.land_0_r. }
  unfold is_common_timeout, mask_usec. simpl. rewrite Hc, Hm.
  split; [done|]. split; [|done]. rewrite <-Hm, <-Z.land_assoc, Z.land_lnot_diag. apply Z.land_0_r.
Qed.

Lemma plain_not_common tv i : plain_tv tv → common_tv i tv → 0 <= i < 256 → False.
Proof.
  intros Hp Hc Hi. pose proof (plain_tv_spec tv 256 Hp) as (H1 & _).
  pose proof (common_tv_spec i tv 256 Hc Hi ltac:(lia)) as (H2 & _). congruence.
Qed.

Lemma good_tv_cases n tv :
  good_tv n tv → n <= 256 →
  plain_tv tv ∧ is_common_timeout tv n = false ∨
  common_tv (COMMON_TIMEOUT_IDX tv) tv ∧ 0 <= COMMON_TIMEOUT_IDX tv < n ∧ is_common_timeout tv n = true.
Proof.
  intros [Hp|(i & Hi & Hc)] Hn; [left; split; [done|]; by apply plain_tv_spec|right].
  destruct (common_tv_spec i tv n Hc Hi Hn) as (H1 & H2 & _). by rewrite H2.
Qed.

(** The invariant, for a program that uses the events [U]. *)
Section invariant.
Context {M : Type} {EO : EvmapOps M} {EL : EvmapLaws M}.
Abbreviation base := (event_base M).
Context (U : list evid).

Record map_ok (s : store) (m : M) : Prop := {
  mo_inv : em_inv m (λ e, ev_events (s !!! e));
  mo_io fd e : em_io m fd e ↔
    fl (s !!! e) EVLIST_INSERTED = true ∧ has (ev_events (s !!! e)) EV_IO = true ∧
    fd = ev_fd (s !!! e) ∧ 0 <= fd;
  mo_sig sg e : em_sig m sg e ↔
    fl (s !!! e) EVLIST_INSERTED = true ∧ has (ev_events (s !!! e)) EV_IO = false ∧
    sg = ev_fd (s !!! e)
}.

Record cnt_ok (s : store) (c : counters) : Prop := {
  co_count : event_count c = tally weight (λ e, s !!! e) U;
  co_active : event_count_active c = tally active_weight (λ e, s !!! e) U;
  co_max : event_count c <= event_count_max c;
  co_active_max : event_count_active c <= event_count_active_max c
}.

Record core_inv (b : base) : Prop := {
  ci_flags e : fl (evs b !!! e) (Z.lnot EVLIST_ALL) = false;
  ci_out e : e ∉ U → ev_flags (evs b !!! e) = 0;
  ci_act : act_ok (evs b) (qs b);
  ci_tm : tm_ok (evs b) (tms b);
  ci_map : map_ok (evs b) (evmap b);
  ci_cnt : cnt_ok (evs b) (cnt b)
}.

(** Frames. *)
Lemma act_ok_ext s s' q :
  (∀ x, act_view (s' !!! x) = act_view (s !!! x)) → act_ok s q → act_ok s' q.
Proof.
  intros Hv [Hq Hl Hli Hp He].
  assert (Hf : ∀ x, fl (s' !!! x) EVLIST_ACTIVE = fl (s !!! x) EVLIST_ACTIVE ∧
     fl (s' !!! x) EVLIST_ACTIVE_LATER = fl (s !!! x) EVLIST_ACTIVE_LATER ∧
     ev_pri (s' !!! x) = ev_pri (s !!! x)).
  { intros x. specialize (Hv x). unfold act_view in Hv. by simplify_eq. }
  split.
  - intros i l Hi. destruct (Hq i l Hi) as [Hnd Hin]. split; [done|].
    intros e. destruct (Hf e) as (-> & _ & ->). apply Hin.
  - done.
  - intros e. destruct (Hf e) as (_ & -> & _). apply Hli.
  - intros e. destruct (Hf e) as (_ & _ & ->). apply Hp.
  - intros e. destruct (Hf e) as (-> & -> & _). apply He.
Qed.

Lemma tm_ok_ext s s' t :
  (∀ x, timer_view (s' !!! x) = timer_view (s !!! x)) → tm_ok s t → tm_ok s' t.
Proof.
  intros Hv [Hh Hm Hn Hl Hd Hc Hx Hso].
  assert (Hf : ∀ x, fl (s' !!! x) EVLIST_TIMEOUT = fl (s !!! x) EVLIST_TIMEOUT ∧
     ev_timeout (s' !!! x) = ev_timeout (s !!! x) ∧
     min_heap_idx (s' !!! x) = min_heap_idx (s !!! x)).
  { intros x. specialize (Hv x). unfold timer_view in Hv. by simplify_eq. }
  split; try done.
  - eapply heap_wf_ext; [..|done]; intros x; simpl; by destruct (Hf x) as (_ & ? & ?).
  - intros e. destruct (Hf e) as (-> & -> & ->). apply Hm.
  - intros i c e. destruct (Hf e) as (-> & -> & _). apply Hl.
  - intros e. destruct (Hf e) as (-> & -> & _). apply Hd.
  - intros i c Hi. eapply sorted_ext; [|by eapply Hso]. intros x _. apply Hf.
Qed.

Lemma map_ok_ext s s' m :
  (∀ x, map_view (s' !!! x) = map_view (s !!! x)) → map_ok s m → map_ok s' m.
Proof.
  intros Hv [Hi Hio Hs].
  assert (Hf : ∀ x, fl (s' !!! x) EVLIST_INSERTED = fl (s !!! x) EVLIST_INSERTED ∧
     ev_fd (s' !!! x) = ev_fd (s !!! x) ∧ ev_events (s' !!! x) = ev_events (s !!! x)).
  { intros x. specialize (Hv x). unfold map_view in Hv. by simplify_eq. }
  split.
  - eapply em_inv_ext; [|done]. intros x fd _. simpl. by destruct (Hf x) as (_ & _ & ->).
  - intros fd e. destruct (Hf e) as (-> & -> & ->). apply Hio.
  - intros sg e. destruct (Hf e) as (-> & -> & ->). apply Hs.
Qed.

(** Overwriting one event. *)
Lemma view_insert {A} (view : event → A) (s : store) e w x :
  view w = view (s !!! e) → view (<[e := w]> s !!! x) = view (s !!! x).
Proof.
  intros H. destruct (decide (x = e)) as [->|Hne].
  - by rewrite lookup_total_insert_eq.
  - by rewrite lookup_total_insert_ne.
Qed.
End invariant.

Arguments ci_flags {M EO EL U b}. Arguments ci_out {M EO EL U b}. Arguments ci_act {M EO EL U b}.
Arguments ci_tm {M EO EL U b}. Arguments ci_map {M EO EL U b}. Arguments ci_cnt {M EO EL U b}.
