(* ===== verification/EventQueue.v ===== *)
(** The queue operations of [EventDefs] keep the invariant.  Each lemma
    [wp_<operation>] gives the state after the operation as a change of one
    event ([f] applied to it) with everything else in place. *)
From S2P Require Import Prelude Timeval MinHeap EventDefs EventInv.

(** * Events up to heap positions *)

Lemma core_fields v w :
  core v = core w →
  ev_has_base v = ev_has_base w ∧ ev_flags v = ev_flags w ∧ ev_pri v = ev_pri w ∧
  ev_closure v = ev_closure w ∧ ev_callback v = ev_callback w ∧ ev_fd v = ev_fd w ∧
  ev_events v = ev_events w ∧ ev_res v = ev_res w ∧ ev_timeout v = ev_timeout w ∧
  ev_io_timeout v = ev_io_timeout w ∧ ev_ncalls v = ev_ncalls w ∧ ev_pncalls v = ev_pncalls w.
Proof. destruct v, w. unfold core, set_heap_idx. simpl. intros H. injection H; intros; subst. by split_and!. Qed.
Lemma core_fl v w m : core v = core w → fl v m = fl w m.
Proof. intros H%core_fields. unfold fl. by destruct H as (_ & -> & _). Qed.
Lemma core_weight v w : core v = core w → active_weight v = active_weight w ∧ weight v = weight w.
Proof. intros H. unfold weight, active_weight. by rewrite !(core_fl _ _ _ H). Qed.
Lemma core_idem v : core (core v) = core v.
Proof. done. Qed.

(** * Changes of one event *)

Lemma act_ok_upd s q q' e w :
  act_ok s q → zlen (activequeues q') = zlen (activequeues q) →
  (∀ i l', zget (activequeues q') i = Some l' → ∃ l, zget (activequeues q) i = Some l ∧ NoDup l' ∧
     (e ∈ l' ↔ fl w EVLIST_ACTIVE = true ∧ ev_pri w = i) ∧ ∀ x, x ≠ e → x ∈ l' ↔ x ∈ l) →
  NoDup (active_later_queue q') →
  (e ∈ active_later_queue q' ↔ fl w EVLIST_ACTIVE_LATER = true) →
  (∀ x, x ≠ e → x ∈ active_later_queue q' ↔ x ∈ active_later_queue q) →
  0 <= ev_pri w < zlen (activequeues q) →
  (fl w EVLIST_ACTIVE = true → fl w EVLIST_ACTIVE_LATER = false) →
  act_ok (<[e := w]> s) q'.
Proof.
  intros [Hq Hl Hli Hp Hx] Hlen Hq' Hnd He Hne Hpw Hxw. split.
  - intros i l' Hi. destruct (Hq' i l' Hi) as (l & Hil & Hnd' & Hew & Hxl). split; [done|].
    intros x. destruct (decide (x = e)) as [->|Hxe].
    + by rewrite lookup_total_insert_eq.
    + rewrite lookup_total_insert_ne, Hxl by done. by apply Hq.
  - done.
  - intros x. destruct (decide (x = e)) as [->|Hxe].
    + by rewrite lookup_total_insert_eq.
    + rewrite lookup_total_insert_ne, Hne by done. apply Hli.
  - intros x. rewrite Hlen. destruct (decide (x = e)) as [->|Hxe].
    + by rewrite lookup_total_insert_eq.
    + by rewrite lookup_total_insert_ne.
  - intros x. destruct (decide (x = e)) as [->|Hxe].
    + by rewrite lookup_total_insert_eq.
    + rewrite lookup_total_insert_ne by done. apply Hx.
Qed.

(** The queue of priority [i] becomes [l]. *)
Lemma zget_set_queue (q : queues) i l j l' :
  0 <= i < zlen (activequeues q) →
  zget (<[Z.to_nat i := l]> (activequeues q)) j = Some l' →
  j = i ∧ l' = l ∨ j ≠ i ∧ zget (activequeues q) j = Some l'.
Proof.
  intros Hi. rewrite zget_insert by done. destruct (decide (i = j)) as [->|Hne].
  - intros [= <-]. by left.
  - intros H. right. split; [congruence|done].
Qed.

Lemma act_ok_set_queue s q i l l' e w n :
  act_ok s q → zget (activequeues q) i = Some l → NoDup l' →
  ev_pri w = i → (e ∈ l' ↔ fl w EVLIST_ACTIVE = true) → (∀ x, x ≠ e → x ∈ l' ↔ x ∈ l) →
  fl w EVLIST_ACTIVE_LATER = fl (s !!! e) EVLIST_ACTIVE_LATER → ev_pri (s !!! e) = i →
  (fl w EVLIST_ACTIVE = true → fl w EVLIST_ACTIVE_LATER = false) →
  act_ok (<[e := w]> s) (Queues (<[Z.to_nat i := l']> (activequeues q)) (active_later_queue q) n).
Proof.
  intros Ha Hl Hnd Hpw Hin Hne Hlat Hpri Hx. pose proof (zget_Some_range _ _ _ Hl).
  pose proof Ha as [Hq Hlt Hli Hp _].
  eapply act_ok_upd; simpl; try done.
  - by rewrite zlen_insert.
  - intros j l'' [[-> ->]|[Hj Hl'']]%zget_set_queue; [| |lia].
    + exists l. split; [done|]. split; [done|]. split; [|done]. rewrite Hin. tauto.
    + exists l''. destruct (Hq j l'' Hl'') as [Hnd' Hin']. split_and!; try done.
      rewrite Hin', Hpri, Hpw. split; intros [_ ?]; congruence.
  - rewrite Hlat. apply Hli.
  - by rewrite Hpw.
Qed.

Lemma act_ok_set_later s q l' e w n :
  act_ok s q → NoDup l' → ev_pri w = ev_pri (s !!! e) →
  (e ∈ l' ↔ fl w EVLIST_ACTIVE_LATER = true) →
  (∀ x, x ≠ e → x ∈ l' ↔ x ∈ active_later_queue q) →
  fl w EVLIST_ACTIVE = fl (s !!! e) EVLIST_ACTIVE →
  (fl w EVLIST_ACTIVE = true → fl w EVLIST_ACTIVE_LATER = false) →
  act_ok (<[e := w]> s) (Queues (activequeues q) l' n).
Proof.
  intros Ha Hnd Hpri Hin Hne Hact Hx. pose proof Ha as [Hq Hlt Hli Hp _].
  eapply act_ok_upd; simpl; try done.
  - intros i l Hl. exists l. destruct (Hq i l Hl) as [Hnd' Hin']. split_and!; try done.
    by rewrite Hact, Hpri.
  - rewrite Hpri. apply Hp.
Qed.

(** Timers: the event is in no timer structure before and after. *)
Lemma tm_ok_idle s t e w :
  tm_ok s t → fl (s !!! e) EVLIST_TIMEOUT = false → fl w EVLIST_TIMEOUT = false →
  min_heap_idx w = min_heap_idx (s !!! e) →
  tm_ok (<[e := w]> s) t.
Proof.
  intros [Hh Hm Hn Hl Hd Hc Hx Hso] He Hw Hi.
  assert (Hie : min_heap_idx (s !!! e) = -1).
  { destruct (decide (min_heap_idx (s !!! e) = -1)); [done|].
    destruct (proj1 (Hm e) n) as [? _]. congruence. }
  split; try done.
  - eapply heap_wf_ext; [..|done]; intros x; simpl; destruct (decide (x = e)) as [->|];
      rewrite ?lookup_total_insert_eq, ?lookup_total_insert_ne by done; try done.
  - intros x. destruct (decide (x = e)) as [->|].
    + rewrite lookup_total_insert_eq, Hi, Hie, Hw. split; [done|by intros [? _]].
    + by rewrite lookup_total_insert_ne.
  - intros i c x Hic. destruct (decide (x = e)) as [->|].
    + rewrite lookup_total_insert_eq, (Hl i c e Hic), He, Hw. split; by intros [? _].
    + rewrite lookup_total_insert_ne by done. by apply Hl.
  - intros x. destruct (decide (x = e)) as [->|].
    + rewrite lookup_total_insert_eq, Hw. done.
    + rewrite lookup_total_insert_ne by done. apply Hd.
  - intros i c Hic. apply sorted_insert; [|by eapply Hso]. intros [Hf _]%(Hl i c e Hic). congruence.
Qed.

(** Heap operations change only positions. *)
Lemma put_at_core (s0 : store) p (s : store) h e p' s' :
  put_at p s h e = Some (p', s') →
  (∀ x, core (s !!! x) = core (s0 !!! x)) → ∀ x, core (s' !!! x) = core (s0 !!! x).
Proof.
  unfold put_at. intros H Hs x. simplify_option_eq. rewrite <-Hs.
  destruct (decide (x = e)) as [->|]; by rewrite ?lookup_total_insert_eq, ?lookup_total_insert_ne.
Qed.
Lemma set_idx_core (s0 s : store) e i :
  (∀ x, core (s !!! x) = core (s0 !!! x)) → ∀ x, core (ts_set_idx e i s !!! x) = core (s0 !!! x).
Proof.
  intros Hs x. rewrite <-Hs. simpl.
  destruct (decide (x = e)) as [->|]; by rewrite ?lookup_total_insert_eq, ?lookup_total_insert_ne.
Qed.
Lemma erase_core h (s : store) e r h' s' :
  min_heap_erase_ h s e = Some (r, h', s') → ∀ x, core (s' !!! x) = core (s !!! x).
Proof.
  intros H. apply (erase_writes (λ _ s', ∀ x, core (s' !!! x) = core (s !!! x))
    (put_at_core s) (λ _, set_idx_core s) _ _ _ _ _ _ H). done.
Qed.
Lemma push_core {RA : Realloc} h (s : store) e r h' s' :
  min_heap_push_ h s e = Some (r, h', s') → ∀ x, core (s' !!! x) = core (s !!! x).
Proof.
  intros H. by apply (push_writes (λ _ s', ∀ x, core (s' !!! x) = core (s !!! x))
    (λ p s, put_at_core _ p s) _ _ _ _ _ _ H).
Qed.
Lemma put_at_len n p (s : store) h e p' s' :
  put_at p s h e = Some (p', s') → zlen p = n → zlen p' = n.
Proof.
  unfold put_at. intros H Hp. destruct (zset p h e) as [q|] eqn:E; [|done].
  apply zset_Some in E as [_ ->]. injection H as <- <-. by rewrite zlen_insert.
Qed.
Lemma erase_len h (s : store) e r h' s' :
  min_heap_erase_ h s e = Some (r, h', s') → zlen (hp h') = zlen (hp h).
Proof.
  intros H. by apply (erase_writes (λ p _, zlen p = zlen (hp h))
    (put_at_len _) (λ _ _ _ _ H, H) _ _ _ _ _ _ H).
Qed.

(** The heap changes for [e] only; [e] is in no list of common timeouts. *)
Lemma tm_ok_heap s t s' h' e :
  tm_ok s t → heap_wf h' s' →
  (∀ x, x ≠ e → core (s' !!! x) = core (s !!! x) ∧
     (min_heap_idx (s' !!! x) = -1 ↔ min_heap_idx (s !!! x) = -1)) →
  (min_heap_idx (s' !!! e) ≠ -1 ↔ fl (s' !!! e) EVLIST_TIMEOUT = true) →
  (fl (s !!! e) EVLIST_TIMEOUT = true → plain_tv (ev_timeout (s !!! e))) →
  (fl (s' !!! e) EVLIST_TIMEOUT = true → plain_tv (ev_timeout (s' !!! e))) →
  tm_ok s' (Timers h' (common_timeout_queues t)).
Proof.
  intros [Hh Hm Hnd Hl Hd Hc Hx Hso] Hwf Hne He Hp Hp'.
  assert (Hfl : ∀ x, x ≠ e → fl (s' !!! x) EVLIST_TIMEOUT = fl (s !!! x) EVLIST_TIMEOUT ∧
                             ev_timeout (s' !!! x) = ev_timeout (s !!! x)).
  { intros x Hxe. destruct (Hne x Hxe) as [Hcore _]. split; [by apply core_fl|].
    by apply core_fields in Hcore as (_&_&_&_&_&_&_&_&?&_). }
  split; simpl; try done.
  - intros x. destruct (decide (x = e)) as [->|Hxe].
    + rewrite He. split; [|by intros []]. intros Hf. split; [done|]. by apply plain_tv_spec, Hp'.
    + destruct (Hfl x Hxe) as [-> ->]. rewrite <-Hm. by destruct (Hne x Hxe) as [_ ->].
  - intros i c x Hi. destruct (decide (x = e)) as [->|Hxe].
    + rewrite (Hl i c e Hi). pose proof (zget_Some_range _ _ _ Hi).
      split; intros [Hf Hct]; exfalso; eapply plain_not_common; try exact Hct; (lia || auto).
    + destruct (Hfl x Hxe) as [-> ->]. by apply Hl.
  - intros x. destruct (decide (x = e)) as [->|Hxe]; [left; auto|].
    destruct (Hfl x Hxe) as [-> ->]. apply Hd.
  - intros i c Hi. eapply sorted_ext; [|by eapply Hso]. intros x Hin. apply Hfl. intros ->.
    apply (Hl i c e Hi) in Hin as [Hf Hct]. pose proof (zget_Some_range _ _ _ Hi).
    eapply plain_not_common; [by apply Hp|exact Hct|lia].
Qed.

(** One list of common timeouts changes in [e]; the heap does not. *)
Lemma tm_ok_list s t e w i c l' :
  tm_ok s t → zget (common_timeout_queues t) i = Some c → NoDup l' →
  min_heap_idx w = min_heap_idx (s !!! e) →
  (fl (s !!! e) EVLIST_TIMEOUT = true → common_tv i (ev_timeout (s !!! e))) →
  (fl w EVLIST_TIMEOUT = true → common_tv i (ev_timeout w)) →
  (e ∈ l' ↔ fl w EVLIST_TIMEOUT = true) → (∀ x, x ≠ e → x ∈ l' ↔ x ∈ ctl_events c) →
  StronglySorted (due_before (<[e := w]> s)) l' →
  tm_ok (<[e := w]> s)
    (Timers (timeheap t) (<[Z.to_nat i := Ctl (duration c) (timeout_event c) l']> (common_timeout_queues t))).
Proof.
  intros [Hh Hm Hnd Hl Hd Hc Hx Hso] Hi Hnd' Hidx Hce Hcw Hel Hne Hsl.
  pose proof (zget_Some_range _ _ _ Hi) as Hir.
  assert (Hcom : ∀ tv, common_tv i tv → is_common_timeout tv (zlen (common_timeout_queues t)) = true).
  { intros tv Htv. by eapply common_tv_spec. }
  assert (Hidle : min_heap_idx (s !!! e) = -1).
  { destruct (decide (min_heap_idx (s !!! e) = -1)) as [|Hn]; [done|].
    apply Hm in Hn as [Hf Hnc]. rewrite Hcom in Hnc by auto. done. }
  assert (Hother : ∀ j tv, j ≠ i → 0 <= j < zlen (common_timeout_queues t) →
            common_tv i tv → ¬ common_tv j tv).
  { intros j tv Hji Hj H1 H2. apply Hji.
    destruct (common_tv_spec i tv _ H1 Hir Hx) as (_ & <- & _).
    by destruct (common_tv_spec j tv _ H2 Hj Hx) as (_ & <- & _). }
  split; simpl; rewrite ?zlen_insert.
  - eapply heap_wf_ext; [..|done]; intros x; simpl; (destruct (decide (x = e)) as [->|];
      rewrite ?lookup_total_insert_eq, ?lookup_total_insert_ne by done); done.
  - intros x. destruct (decide (x = e)) as [->|Hxe].
    + rewrite lookup_total_insert_eq, Hidx, Hidle. split; [done|]. intros [Hf Hnc].
      rewrite Hcom in Hnc by auto. done.
    + by rewrite lookup_total_insert_ne.
  - intros j c'. rewrite zget_insert by done. destruct (decide (i = j)) as [<-|]; [|apply Hnd].
    by intros [= <-].
  - intros j c' x. rewrite zget_insert by done. destruct (decide (i = j)) as [<-|Hij].
    + intros [= <-]. simpl. destruct (decide (x = e)) as [->|Hxe].
      * rewrite lookup_total_insert_eq, Hel. split; [auto|by intros []].
      * rewrite lookup_total_insert_ne, Hne by done. by apply Hl.
    + intros Hj. pose proof (zget_Some_range _ _ _ Hj). destruct (decide (x = e)) as [->|Hxe].
      * rewrite lookup_total_insert_eq, (Hl j c' e Hj).
        split; intros [Hf Hct]; exfalso; eapply (Hother j); try exact Hct; auto.
      * rewrite lookup_total_insert_ne by done. by apply Hl.
  - intros x. destruct (decide (x = e)) as [->|Hxe].
    + rewrite lookup_total_insert_eq. intros Hf. right. exists i. auto.
    + rewrite lookup_total_insert_ne by done. apply Hd.
  - intros j c'. rewrite zget_insert by done. destruct (decide (i = j)) as [<-|]; [|apply Hc].
    intros [= <-]. apply (Hc i c Hi).
  - done.
  - intros j c'. rewrite zget_insert by done. destruct (decide (i = j)) as [<-|Hij]; [by intros [= <-]|].
    intros Hj. apply sorted_insert; [|by eapply Hso]. intros [Hf Hct]%(Hl j c' e Hj).
    eapply (Hother j); [done|by eapply zget_Some_range|by apply Hce|done].
Qed.

(** * States that differ in one event *)

Section queue_lemmas.
Context {M : Type} {EO : EvmapOps M} {EL : EvmapLaws M} {RA : Realloc}.
Abbreviation base := (event_base M).
Context (U : list evid) (U_nodup : NoDup U) (U_small : zlen U < 2 ^ 31).
Abbreviation inv := (core_inv U).

Definition ctl_frame (t : timers) : list (timeval * evid) :=
  (λ c, (duration c, timeout_event c)) <$> common_timeout_queues t.

(** Everything but events, queues, timers and counters. *)
Record rest (b b' : base) : Prop := {
  rs_map : evmap b' = evmap b;
  rs_clk : clk b' = clk b;
  rs_lp : lp b' = lp b;
  rs_nt : nt b' = nt b;
  rs_cfg : cfg b' = cfg b;
  rs_nq : nactivequeues b' = nactivequeues b;
  rs_ctl : ctl_frame (tms b') = ctl_frame (tms b);
  rs_virt : virtual_event_count (cnt b') = virtual_event_count (cnt b)
}.
(** Other events keep everything but their heap position. *)
Definition only (e : evid) (b b' : base) : Prop :=
  ∀ x, x ≠ e → core (evs b' !!! x) = core (evs b !!! x).

Lemma rest_refl b : rest b b.
Proof. by constructor. Qed.
Lemma rest_trans b1 b2 b3 : rest b1 b2 → rest b2 b3 → rest b1 b3.
Proof. intros [] []; constructor; congruence. Qed.
Lemma only_refl e b : only e b b.
Proof. done. Qed.
Lemma only_trans e b1 b2 b3 : only e b1 b2 → only e b2 b3 → only e b1 b3.
Proof. intros H1 H2 x Hx. by rewrite H2, H1. Qed.
Lemma only_insert e w b b' : evs b' = <[e := w]> (evs b) → only e b b'.
Proof. intros H x Hx. by rewrite H, lookup_total_insert_ne. Qed.

Lemma n_common_frame b b' : rest b b' → n_common_timeouts b' = n_common_timeouts b.
Proof.
  intros H. apply rs_ctl in H. unfold n_common_timeouts, ctl_frame, zlen in *.
  apply (f_equal length) in H. rewrite !length_fmap in H. lia.
Qed.

(** The counters follow the weight of the event that changed. *)
Lemma cnt_ok_upd s s' c e :
  cnt_ok U s c → e ∈ U → (∀ x, x ≠ e → core (s' !!! x) = core (s !!! x)) →
  ∀ n nm a am v,
  n = event_count c - weight (s !!! e) + weight (s' !!! e) →
  a = event_count_active c - active_weight (s !!! e) + active_weight (s' !!! e) →
  n <= nm → a <= am →
  cnt_ok U s' (Counters n nm a am v).
Proof.
  intros [H1 H2 _ _] He Hx n nm a am v -> -> ? ?.
  assert (Hw : ∀ x, x ≠ e → weight (s' !!! x) = weight (s !!! x) ∧
                            active_weight (s' !!! x) = active_weight (s !!! x)).
  { intros x Hxe. specialize (Hx x Hxe). unfold weight, active_weight.
    by rewrite !(core_fl _ _ _ Hx). }
  split; simpl; try done.
  - rewrite (tally_upd weight (λ x, s !!! x)) with (e := e); [by rewrite <-H1|done..|].
    intros x Hxe. apply (Hw x Hxe).
  - rewrite (tally_upd active_weight (λ x, s !!! x)) with (e := e); [by rewrite <-H2|done..|].
    intros x Hxe. apply (Hw x Hxe).
Qed.

(** The parts of the invariant about single events, after a change of [e]. *)
Lemma flags_upd (b : base) (s' : store) e :
  inv b → e ∈ U → (∀ x, x ≠ e → core (s' !!! x) = core (evs b !!! x)) →
  fl (s' !!! e) (Z.lnot EVLIST_ALL) = false →
  (∀ x, fl (s' !!! x) (Z.lnot EVLIST_ALL) = false) ∧ (∀ x, x ∉ U → ev_flags (s' !!! x) = 0).
Proof.
  intros Hi He Hx Hf. split; intros x; destruct (decide (x = e)) as [->|Hxe]; try done.
  - rewrite (core_fl _ _ _ (Hx x Hxe)). apply (ci_flags Hi).
  - intros Hu. destruct (core_fields _ _ (Hx x Hxe)) as (_ & -> & _). by apply (ci_out Hi).
Qed.

Lemma in_U b e m : inv b → fl (evs b !!! e) m = true → e ∈ U.
Proof.
  intros Hi Hf. destruct (decide (e ∈ U)) as [|Hn]; [done|].
  unfold fl in Hf. by rewrite (ci_out Hi e Hn) in Hf.
Qed.

(** The invariant for a change of [e] that leaves the timers and the map alone. *)
Lemma inv_upd_act (b b' : base) e w :
  inv b → e ∈ U → evs b' = <[e := w]> (evs b) →
  timer_view w = timer_view (evs b !!! e) → map_view w = map_view (evs b !!! e) →
  fl w (Z.lnot EVLIST_ALL) = false → tms b' = tms b → evmap b' = evmap b →
  act_ok (evs b') (qs b') → cnt_ok U (evs b') (cnt b') → inv b'.
Proof.
  intros Hi He Hev Ht Hm Hf Htm Hmp Ha Hc.
  destruct (flags_upd b (evs b') e Hi He) as [Hf1 Hf2].
  - intros x Hx. by rewrite Hev, lookup_total_insert_ne.
  - by rewrite Hev, lookup_total_insert_eq.
  - split; try done.
    + rewrite Htm, Hev. eapply tm_ok_ext; [|apply (ci_tm Hi)]. intros x. by apply view_insert.
    + rewrite Hmp, Hev. eapply map_ok_ext; [|apply (ci_map Hi)]. intros x. by apply view_insert.
Qed.

(** Weights after one flag changed. *)
Lemma active_weight_clear v m :
  (m = EVLIST_ACTIVE ∨ m = EVLIST_ACTIVE_LATER) → fl v m = true →
  active_weight (clear_flag m v) = active_weight v - 1 ∧
  weight (clear_flag m v) = weight v - b2z (negb (fl v EVLIST_INTERNAL)).
Proof.
  intros [-> | ->] Hm; unfold weight, active_weight; fl_simpl; rewrite Hm; cbn [b2z];
    destruct (fl v EVLIST_INTERNAL); cbn [negb b2z]; lia.
Qed.
Lemma active_weight_set v m :
  (m = EVLIST_ACTIVE ∨ m = EVLIST_ACTIVE_LATER) → fl v m = false →
  active_weight (set_flag m v) = active_weight v + 1 ∧
  weight (set_flag m v) = weight v + b2z (negb (fl v EVLIST_INTERNAL)).
Proof.
  intros [-> | ->] Hm; unfold weight, active_weight; fl_simpl; rewrite Hm; cbn [b2z];
    destruct (fl v EVLIST_INTERNAL); cbn [negb b2z]; lia.
Qed.
Lemma timer_weight_clear v m :
  (m = EVLIST_TIMEOUT ∨ m = EVLIST_INSERTED) → fl v m = true →
  active_weight (clear_flag m v) = active_weight v ∧
  weight (clear_flag m v) = weight v - b2z (negb (fl v EVLIST_INTERNAL)).
Proof.
  intros [-> | ->] Hm; unfold weight, active_weight; fl_simpl; rewrite Hm; cbn [b2z];
    destruct (fl v EVLIST_INTERNAL); cbn [negb b2z]; lia.
Qed.
Lemma timer_weight_set v m :
  (m = EVLIST_TIMEOUT ∨ m = EVLIST_INSERTED) → fl v m = false →
  active_weight (set_flag m v) = active_weight v ∧
  weight (set_flag m v) = weight v + b2z (negb (fl v EVLIST_INTERNAL)).
Proof.
  intros [-> | ->] Hm; unfold weight, active_weight; fl_simpl; rewrite Hm; cbn [b2z];
    destruct (fl v EVLIST_INTERNAL); cbn [negb b2z]; lia.
Qed.

(** Counters after one flag of an event changed; [n] is what the counter of
    active events changes by. *)
Lemma cnt_clear_active s c e m v :
  cnt_ok U s c → e ∈ U → (m = EVLIST_ACTIVE ∨ m = EVLIST_ACTIVE_LATER) → fl (s !!! e) m = true →
  cnt_ok U (<[e := clear_flag m (s !!! e)]> s)
    (Counters (event_count c - b2z (negb (fl (s !!! e) EVLIST_INTERNAL))) (event_count_max c)
       (event_count_active c - 1) (event_count_active_max c) v).
Proof.
  intros Hc He Hm Hf. destruct (active_weight_clear (s !!! e) m Hm Hf) as [Hw1 Hw2].
  pose proof (co_max _ _ _ Hc). pose proof (co_active_max _ _ _ Hc).
  pose proof (b2z_nonneg (negb (fl (s !!! e) EVLIST_INTERNAL))).
  eapply cnt_ok_upd; [done|exact He|..]; rewrite ?lookup_total_insert_eq; try lia.
  intros x Hx. by rewrite lookup_total_insert_ne.
Qed.
Lemma cnt_set_active s c e m v :
  cnt_ok U s c → e ∈ U → (m = EVLIST_ACTIVE ∨ m = EVLIST_ACTIVE_LATER) → fl (s !!! e) m = false →
  let n := event_count c + b2z (negb (fl (s !!! e) EVLIST_INTERNAL)) in
  cnt_ok U (<[e := set_flag m (s !!! e)]> s)
    (Counters n (Z.max (event_count_max c) n) (event_count_active c + 1)
       (Z.max (event_count_active_max c) (event_count_active c + 1)) v).
Proof.
  intros Hc He Hm Hf n. destruct (active_weight_set (s !!! e) m Hm Hf) as [Hw1 Hw2].
  eapply cnt_ok_upd; [done|exact He|..]; rewrite ?lookup_total_insert_eq; try lia.
  intros x Hx. by rewrite lookup_total_insert_ne.
Qed.
(** The same for the flags that count no active event; [s'] may differ from
    [s] in heap positions. *)
Lemma cnt_clear_timer (s s' : store) c e m v :
  cnt_ok U s c → e ∈ U → (m = EVLIST_TIMEOUT ∨ m = EVLIST_INSERTED) → fl (s !!! e) m = true →
  (∀ x, core (s' !!! x) = core (if decide (x = e) then clear_flag m (s !!! e) else s !!! x)) →
  cnt_ok U s' (Counters (event_count c - b2z (negb (fl (s !!! e) EVLIST_INTERNAL))) (event_count_max c)
       (event_count_active c) (event_count_active_max c) v).
Proof.
  intros Hc He Hm Hf Hs. destruct (timer_weight_clear (s !!! e) m Hm Hf) as [Hw1 Hw2].
  pose proof (co_max _ _ _ Hc). pose proof (co_active_max _ _ _ Hc).
  pose proof (b2z_nonneg (negb (fl (s !!! e) EVLIST_INTERNAL))).
  pose proof (Hs e) as Hse. rewrite decide_True in Hse by done.
  destruct (core_weight _ _ Hse) as [Hs1 Hs2].
  eapply cnt_ok_upd; [done|exact He|..]; try lia.
  intros x Hx. by rewrite Hs, decide_False.
Qed.
Lemma cnt_set_timer (s s' : store) c e m v :
  cnt_ok U s c → e ∈ U → (m = EVLIST_TIMEOUT ∨ m = EVLIST_INSERTED) → fl (s !!! e) m = false →
  (∀ x, core (s' !!! x) = core (if decide (x = e) then set_flag m (s !!! e) else s !!! x)) →
  let n := event_count c + b2z (negb (fl (s !!! e) EVLIST_INTERNAL)) in
  cnt_ok U s' (Counters n (Z.max (event_count_max c) n) (event_count_active c)
     (event_count_active_max c) v).
Proof.
  intros Hc He Hm Hf Hs n. destruct (timer_weight_set (s !!! e) m Hm Hf) as [Hw1 Hw2].
  pose proof (co_active_max _ _ _ Hc).
  pose proof (Hs e) as Hse. rewrite decide_True in Hse by done.
  destruct (core_weight _ _ Hse) as [Hs1 Hs2].
  eapply cnt_ok_upd; [done|exact He|..]; try lia.
  intros x Hx. by rewrite Hs, decide_False.
Qed.
Lemma core_insert (s : store) e w x :
  core (<[e := w]> s !!! x) = core (if decide (x = e) then w else s !!! x).
Proof.
  destruct (decide (x = e)) as [->|]; by rewrite ?lookup_total_insert_eq, ?lookup_total_insert_ne.
Qed.

Lemma core_insert_eq (s : store) e w : core (<[e := w]> s !!! e) = core w.
Proof. by rewrite lookup_total_insert_eq. Qed.

(** ** Active queues *)

Ltac solve_rest :=
  constructor; try done; unfold nactivequeues; simpl; by rewrite ?zlen_insert, ?zlen_app.

Lemma active_queue b e :
  inv b → ∃ l, zget (activequeues (qs b)) (ev_pri (evs b !!! e)) = Some l ∧ NoDup l ∧
    ∀ x, x ∈ l ↔ fl (evs b !!! x) EVLIST_ACTIVE = true ∧ ev_pri (evs b !!! x) = ev_pri (evs b !!! e).
Proof.
  intros Hi. destruct (zget_in_range _ _ (ao_pri _ _ (ci_act Hi) e)) as [l Hl].
  exists l. split; [done|]. by apply (ao_queue _ _ (ci_act Hi)).
Qed.

(** One active flag of [e] changes, and the queues and counters follow. *)
Lemma inv_active_change b e w q c :
  inv b → e ∈ U → timer_view w = timer_view (evs b !!! e) → map_view w = map_view (evs b !!! e) →
  fl w (Z.lnot EVLIST_ALL) = false →
  act_ok (<[e := w]> (evs b)) q → cnt_ok U (<[e := w]> (evs b)) c →
  inv (set_qs q (set_cnt c (set_evs (<[e := w]> (evs b)) b))).
Proof. intros Hi He Ht Hm Hf Ha Hc. by eapply (inv_upd_act b _ e w). Qed.

Lemma wp_remove_active e b (Q : unit → base → Prop) :
  inv b → fl (evs b !!! e) EVLIST_ACTIVE = true →
  (∀ b', inv b' → rest b b' → only e b b' → tms b' = tms b →
     core (evs b' !!! e) = core (clear_flag EVLIST_ACTIVE (evs b !!! e)) →
     active_later_queue (qs b') = active_later_queue (qs b) → Q tt b') →
  wp (event_queue_remove_active e) Q b.
Proof.
  intros Hi Ha HQ. pose proof (in_U _ _ _ Hi Ha) as HU.
  destruct (active_queue b e Hi) as (l & Hl & Hnd & Hin).
  destruct (tailq_remove_ok e l Hnd) as (l' & Hrm & Hnd' & Hin'); [by apply Hin|].
  unfold event_queue_remove_active, get_event, the_event, DECR_EVENT_COUNT, upd_event, decr_active,
    get_activeq, the_event.
  repeat wp_step; [done|]. eapply wp_deref; [exact Hl|].
  wp_step. eapply wp_deref; [exact Hrm|]. wp_step.
  apply HQ; try done.
  - eapply (inv_active_change b e (clear_flag EVLIST_ACTIVE (evs b !!! e))); try done;
      unfold timer_view, map_view; fl_simpl; try done; [apply (ci_flags Hi)|..].
    + eapply act_ok_set_queue; try done; [apply (ci_act Hi)|..]; fl_simpl; try done.
      * rewrite Hin'. split; [by intros [_ ?]|done].
      * intros x Hx. rewrite Hin'. tauto.
    + apply (cnt_clear_active (evs b) (cnt b) e EVLIST_ACTIVE); [apply (ci_cnt Hi)|done|by left|done].
  - solve_rest.
  - eapply only_insert. reflexivity.
  - apply core_insert_eq.
Qed.

(** [e] goes to the end of the queue of its priority. *)
Definition queued_last (e : evid) (b b' : base) : Prop :=
  ∃ l, zget (activequeues (qs b)) (ev_pri (evs b !!! e)) = Some l ∧
    activequeues (qs b') = <[Z.to_nat (ev_pri (evs b !!! e)) := l ++ [e]]> (activequeues (qs b)).

Lemma wp_insert_active e b (Q : unit → base → Prop) :
  inv b → e ∈ U → fl (evs b !!! e) EVLIST_ACTIVE = false →
  fl (evs b !!! e) EVLIST_ACTIVE_LATER = false →
  (∀ b', inv b' → rest b b' → only e b b' → tms b' = tms b →
     core (evs b' !!! e) = core (set_flag EVLIST_ACTIVE (evs b !!! e)) →
     queued_last e b b' → active_later_queue (qs b') = active_later_queue (qs b) → Q tt b') →
  wp (event_queue_insert_active e) Q b.
Proof.
  intros Hi HU Ha Hlat HQ.
  destruct (active_queue b e Hi) as (l & Hl & Hnd & Hin).
  pose proof (ao_pri _ _ (ci_act Hi) e) as Hpri.
  unfold event_queue_insert_active, get_event, the_event, INCR_EVENT_COUNT, upd_event, incr_active,
    get_activeq, the_event.
  do 2 wp_step. fold (fl (evs b !!! e) EVLIST_ACTIVE). rewrite Ha.
  repeat wp_step; [unfold nactivequeues; simpl; lia|]. eapply wp_deref; [exact Hl|]. wp_step.
  apply HQ; try done.
  - eapply (inv_active_change b e (set_flag EVLIST_ACTIVE (evs b !!! e))); try done;
      unfold timer_view, map_view; fl_simpl; try done; [apply (ci_flags Hi)|..].
    + eapply act_ok_set_queue; try done; [apply (ci_act Hi)|..]; fl_simpl; try done.
      * apply NoDup_app. split; [done|]. split; [|apply NoDup_singleton].
        intros x Hx%Hin [-> | Hf]%elem_of_cons; [|set_solver]. destruct Hx. congruence.
      * set_solver.
      * intros x Hx. set_solver.
    + apply (cnt_set_active (evs b) (cnt b) e EVLIST_ACTIVE); [apply (ci_cnt Hi)|done|by left|done].
  - solve_rest.
  - eapply only_insert. reflexivity.
  - apply core_insert_eq.
  - by exists l.
Qed.

Lemma wp_remove_later e b (Q : unit → base → Prop) :
  inv b → fl (evs b !!! e) EVLIST_ACTIVE_LATER = true →
  (∀ b', inv b' → rest b b' → only e b b' → tms b' = tms b →
     core (evs b' !!! e) = core (clear_flag EVLIST_ACTIVE_LATER (evs b !!! e)) →
     activequeues (qs b') = activequeues (qs b) → Q tt b') →
  wp (event_queue_remove_active_later e) Q b.
Proof.
  intros Hi Ha HQ. pose proof (in_U _ _ _ Hi Ha) as HU. pose proof (ci_act Hi) as Hact.
  destruct (tailq_remove_ok e _ (ao_later _ _ Hact)) as (l' & Hrm & Hnd' & Hin');
    [by apply (ao_later_in _ _ Hact)|].
  unfold event_queue_remove_active_later, get_event, the_event, DECR_EVENT_COUNT, upd_event,
    decr_active, the_event.
  repeat wp_step; [done|]. eapply wp_deref; [exact Hrm|]. wp_step.
  apply HQ; try done.
  - eapply (inv_active_change b e (clear_flag EVLIST_ACTIVE_LATER (evs b !!! e))); try done;
      unfold timer_view, map_view; fl_simpl; try done; [apply (ci_flags Hi)|..].
    + eapply act_ok_set_later; try done; fl_simpl; try done.
      * rewrite Hin'. split; [by intros [_ ?]|done].
      * intros x Hx. rewrite Hin'. simpl. tauto.
    + apply (cnt_clear_active (evs b) (cnt b) e EVLIST_ACTIVE_LATER); [apply (ci_cnt Hi)|done|by right|done].
  - eapply only_insert. reflexivity.
  - apply core_insert_eq.
Qed.

Lemma wp_insert_later e b (Q : unit → base → Prop) :
  inv b → e ∈ U → fl (evs b !!! e) EVLIST_ACTIVE = false →
  fl (evs b !!! e) EVLIST_ACTIVE_LATER = false →
  (∀ b', inv b' → rest b b' → only e b b' → tms b' = tms b →
     core (evs b' !!! e) = core (set_flag EVLIST_ACTIVE_LATER (evs b !!! e)) →
     activequeues (qs b') = activequeues (qs b) →
     active_later_queue (qs b') = active_later_queue (qs b) ++ [e] → Q tt b') →
  wp (event_queue_insert_active_later e) Q b.
Proof.
  intros Hi HU Ha Hlat HQ. pose proof (ci_act Hi) as Hact.
  pose proof (ao_pri _ _ Hact e) as Hpri.
  unfold event_queue_insert_active_later, get_event, the_event, INCR_EVENT_COUNT, upd_event,
    incr_active, the_event.
  do 2 wp_step. rewrite has_lor_r. fold (fl (evs b !!! e) EVLIST_ACTIVE_LATER).
  fold (fl (evs b !!! e) EVLIST_ACTIVE). rewrite Ha, Hlat. cbn [orb].
  repeat wp_step; [unfold nactivequeues; simpl; lia|].
  apply HQ; try done.
  - eapply (inv_active_change b e (set_flag EVLIST_ACTIVE_LATER (evs b !!! e))); try done;
      unfold timer_view, map_view; fl_simpl; try done; [apply (ci_flags Hi)|..].
    + eapply act_ok_set_later; try done; fl_simpl; try done; simpl.
      * apply NoDup_app. split; [apply (ao_later _ _ Hact)|]. split; [|apply NoDup_singleton].
        intros x Hx%(ao_later_in _ _ Hact) [-> | Hf]%elem_of_cons; [|set_solver]. congruence.
      * set_solver.
      * intros x Hx. set_solver.
      * congruence.
    + apply (cnt_set_active (evs b) (cnt b) e EVLIST_ACTIVE_LATER); [apply (ci_cnt Hi)|done|by right|done].
  - eapply only_insert. reflexivity.
  - apply core_insert_eq.
Qed.

(** ** Other fields *)

(** A change that no part of the invariant sees. *)
Lemma inv_benign (b : base) e w :
  inv b → act_view w = act_view (evs b !!! e) → timer_view w = timer_view (evs b !!! e) →
  map_view w = map_view (evs b !!! e) → ev_flags w = ev_flags (evs b !!! e) →
  inv (set_evs (<[e := w]> (evs b)) b).
Proof.
  intros Hi Ha Ht Hm Hf.
  assert (Hfl : ∀ x, ev_flags (<[e := w]> (evs b) !!! x) = ev_flags (evs b !!! x))
    by (intros; by apply (view_insert ev_flags)).
  assert (Hw : ∀ x, weight (<[e := w]> (evs b) !!! x) = weight (evs b !!! x) ∧
                    active_weight (<[e := w]> (evs b) !!! x) = active_weight (evs b !!! x)).
  { intros x. unfold weight, active_weight, fl. by rewrite !Hfl. }
  split; cbn [set_evs evs qs tms evmap cnt].
  - intros x. unfold fl. rewrite Hfl. apply (ci_flags Hi).
  - intros x Hx. rewrite Hfl. by apply (ci_out Hi).
  - eapply act_ok_ext; [|apply (ci_act Hi)]. intros x. by apply view_insert.
  - eapply tm_ok_ext; [|apply (ci_tm Hi)]. intros x. by apply view_insert.
  - eapply map_ok_ext; [|apply (ci_map Hi)]. intros x. by apply view_insert.
  - destruct (ci_cnt Hi) as [H1 H2 H3 H4]. split; try done.
    + rewrite H1. symmetry. apply tally_ext. intros x _. apply Hw.
    + rewrite H2. symmetry. apply tally_ext. intros x _. apply Hw.
Qed.

(** The same for states that differ outside of what the invariant reads. *)
Lemma inv_frame (b b' : base) :
  evs b' = evs b → qs b' = qs b → tms b' = tms b → evmap b' = evmap b → cnt b' = cnt b →
  inv b → inv b'.
Proof. intros H1 H2 H3 H4 H5 []. split; by rewrite ?H1, ?H2, ?H3, ?H4, ?H5. Qed.

Lemma wp_upd_benign e f b (Q : unit → base → Prop) :
  inv b → (∀ v, act_view (f v) = act_view v ∧ timer_view (f v) = timer_view v ∧
                map_view (f v) = map_view v ∧ ev_flags (f v) = ev_flags v) →
  (∀ b', inv b' → rest b b' → only e b b' → tms b' = tms b → qs b' = qs b → cnt b' = cnt b →
     evs b' !!! e = f (evs b !!! e) → Q tt b') →
  wp (upd_event e f) Q b.
Proof.
  intros Hi Hf HQ. destruct (Hf (evs b !!! e)) as (H1 & H2 & H3 & H4). apply HQ; try done.
  - by apply inv_benign.
  - eapply only_insert. reflexivity.
  - apply lookup_total_insert_eq.
Qed.

(** The due time of an event without a pending timeout may change. *)
Lemma inv_retime (b : base) e tv :
  inv b → fl (evs b !!! e) EVLIST_TIMEOUT = false →
  inv (set_evs (<[e := set_timeout tv (evs b !!! e)]> (evs b)) b).
Proof.
  intros Hi Hf. split; cbn [set_evs evs qs tms evmap cnt].
  - intros x. rewrite (view_insert (λ v, fl v _)) by done. apply (ci_flags Hi).
  - intros x Hx. rewrite (view_insert ev_flags) by done. by apply (ci_out Hi).
  - eapply act_ok_ext; [|apply (ci_act Hi)]. intros x. by apply view_insert.
  - apply tm_ok_idle; [apply (ci_tm Hi)|done..].
  - eapply map_ok_ext; [|apply (ci_map Hi)]. intros x. by apply view_insert.
  - destruct (ci_cnt Hi) as [H1 H2 H3 H4]. split; try done.
    + rewrite H1. symmetry. apply tally_ext. intros x _. by apply (view_insert weight).
    + rewrite H2. symmetry. apply tally_ext. intros x _. by apply (view_insert active_weight).
Qed.

(** ** Timers *)

Lemma ctl_frame_set t i c l h :
  zget (common_timeout_queues t) i = Some c →
  ctl_frame (Timers h (<[Z.to_nat i := Ctl (duration c) (timeout_event c) l]> (common_timeout_queues t)))
  = ctl_frame t.
Proof.
  intros Hg. pose proof (zget_Some_range _ _ _ Hg). rewrite zget_nonneg in Hg by lia.
  unfold ctl_frame. cbn [common_timeout_queues]. rewrite list_fmap_insert. apply list_insert_id.
  by rewrite list_lookup_fmap, Hg.
Qed.

(** The timers change for [e], whose timeout flag changes with them. *)
Lemma inv_timer_change (b b' : base) e w :
  inv b → e ∈ U →
  (∀ x, core (evs b' !!! x) = core (if decide (x = e) then w else evs b !!! x)) →
  act_view w = act_view (evs b !!! e) → map_view w = map_view (evs b !!! e) →
  fl w (Z.lnot EVLIST_ALL) = false →
  qs b' = qs b → evmap b' = evmap b → tm_ok (evs b') (tms b') → cnt_ok U (evs b') (cnt b') →
  inv b'.
Proof.
  intros Hi HU Hev Ha Hm Hf Hq Hmp Ht Hc.
  assert (Hview : ∀ x, act_view (evs b' !!! x) = act_view (evs b !!! x) ∧
                       map_view (evs b' !!! x) = map_view (evs b !!! x)).
  { intros x. specialize (Hev x). unfold act_view, map_view in *.
    destruct (core_fields _ _ Hev) as (_ & _ & -> & _ & _ & -> & -> & _).
    rewrite !(core_fl _ _ _ Hev). by destruct (decide (x = e)) as [->|]. }
  destruct (flags_upd b (evs b') e Hi HU) as [Hf1 Hf2].
  - intros x Hx. by rewrite Hev, decide_False.
  - rewrite (core_fl _ _ _ (Hev e)). by rewrite decide_True.
  - split; try done.
    + rewrite Hq. eapply act_ok_ext; [|apply (ci_act Hi)]. apply Hview.
    + rewrite Hmp. eapply map_ok_ext; [|apply (ci_map Hi)]. apply Hview.
Qed.

Lemma timer_cases b e :
  inv b → fl (evs b !!! e) EVLIST_TIMEOUT = true →
  let tv := ev_timeout (evs b !!! e) in
  plain_tv tv ∧ is_common_timeout tv (n_common_timeouts b) = false ∨
  ∃ c, common_tv (COMMON_TIMEOUT_IDX tv) tv ∧ is_common_timeout tv (n_common_timeouts b) = true ∧
    zget (common_timeout_queues (tms b)) (COMMON_TIMEOUT_IDX tv) = Some c.
Proof.
  intros Hi Hf tv. pose proof (ci_tm Hi) as Ht.
  destruct (good_tv_cases _ _ (to_due _ _ Ht e Hf) (to_max _ _ Ht)) as [?|(Hc & Hr & Hn)]; [by left|].
  right. destruct (zget_in_range _ _ Hr) as [c Hg]. by exists c.
Qed.

(** Room for one more event in the heap without asking for memory. *)
Definition has_room (t : timers) : Prop := hn (timeheap t) + 1 <= zlen (hp (timeheap t)).
Definition can_push (t : timers) : Prop :=
  is_Some (min_heap_reserve_ (timeheap t) (hn (timeheap t) + 1)).
Lemma room_can_push t : has_room t → can_push t.
Proof.
  unfold has_room, can_push, min_heap_reserve_, ha. intros.
  destruct (Z.ltb_spec (zlen (hp (timeheap t))) (hn (timeheap t) + 1)); [lia|by eexists].
Qed.

(** What becomes of the timers when [e] leaves them. *)
Definition timer_left (e : evid) (b b' : base) : Prop :=
  zlen (hp (timeheap (tms b'))) = zlen (hp (timeheap (tms b))) ∧
  if is_common_timeout (ev_timeout (evs b !!! e)) (n_common_timeouts b)
  then timeheap (tms b') = timeheap (tms b)
  else hn (timeheap (tms b')) = hn (timeheap (tms b)) - 1.

Lemma wp_remove_timeout e b (Q : unit → base → Prop) :
  inv b → fl (evs b !!! e) EVLIST_TIMEOUT = true →
  (∀ b', inv b' → rest b b' → only e b b' → qs b' = qs b →
     core (evs b' !!! e) = core (clear_flag EVLIST_TIMEOUT (evs b !!! e)) →
     timer_left e b b' → Q tt b') →
  wp (event_queue_remove_timeout e) Q b.
Proof.
  intros Hi Ha HQ. pose proof (in_U _ _ _ Hi Ha) as HU. pose proof (ci_tm Hi) as Ht.
  unfold event_queue_remove_timeout, get_event, the_event, DECR_EVENT_COUNT, upd_event, the_event.
  do 4 wp_step; [done|]. do 6 wp_step.
  set (w := clear_flag EVLIST_TIMEOUT (evs b !!! e)).
  set (c1 := Counters _ _ _ _ _).
  match goal with |- wp _ _ ?st => change st with (set_evs (<[e := w]> (evs b)) (set_cnt c1 b)) end.
  match goal with |- context [is_common_timeout _ ?n] => change n with (n_common_timeouts b) end.
  assert (Hfin : ∀ s' t', (∀ x, core (s' !!! x) = core (<[e := w]> (evs b) !!! x)) → tm_ok s' t' →
            ctl_frame t' = ctl_frame (tms b) →
            timer_left e b (set_evs s' (set_tms t' (set_cnt c1 b))) →
            Q tt (set_evs s' (set_tms t' (set_cnt c1 b)))).
  { intros s' t' Hcore Ht' Hfr Hleft. apply HQ; try done.
    - assert (Hcore' : ∀ x, core (s' !!! x) = core (if decide (x = e) then w else evs b !!! x)).
      { intros x. by rewrite Hcore, core_insert. }
      apply (inv_timer_change b _ e w); try done; unfold act_view, map_view, w; fl_simpl; try done;
        [apply (ci_flags Hi)|].
      apply (cnt_clear_timer (evs b) s' (cnt b) e EVLIST_TIMEOUT); [apply (ci_cnt Hi)|done|by left|done..].
    - intros x Hx. simpl. by rewrite Hcore, core_insert, decide_False.
    - simpl. by rewrite Hcore, core_insert, decide_True. }
  destruct (timer_cases b e Hi Ha) as [[Hp Hnc]|(c & Hct & Hc & Hg)].
  - rewrite Hnc. wp_step. unfold lift_heap. 
    assert (Hidx : ts_idx (<[e := w]> (evs b)) e ≠ -1).
    { simpl. rewrite lookup_total_insert_eq. apply (to_mem _ _ Ht). by split. }
    assert (Hwf : heap_wf (timeheap (tms b)) (<[e := w]> (evs b))).
    { eapply heap_wf_ext; [..|apply (to_heap _ _ Ht)]; intros x; simpl; intros;
        by apply (view_insert _). }
    destruct (erase_wf _ _ _ Hwf Hidx) as (h' & s' & He & Hwf' & Hn & Hie & [Hft Hfi]).
    unfold wp at 1. cbn [set_evs set_cnt tms evs]. rewrite He. cbn [mbind option_bind].
    wp_step. apply (Hfin s' (Timers h' (common_timeout_queues (tms b)))); try done.
    + by eapply erase_core.
    + eapply tm_ok_heap with (e := e); [done..| | | | ].
      * intros x Hx. split; [rewrite (erase_core _ _ _ _ _ _ He); by rewrite core_insert, decide_False|].
        specialize (Hfi x Hx). simpl in Hfi. by rewrite lookup_total_insert_ne in Hfi.
      * simpl in Hie. rewrite Hie, (core_fl _ _ _ (erase_core _ _ _ _ _ _ He e)), lookup_total_insert_eq.
        unfold w. fl_simpl. done.
      * done.
      * rewrite (core_fl _ _ _ (erase_core _ _ _ _ _ _ He e)), lookup_total_insert_eq.
        unfold w. by fl_simpl.
    + unfold timer_left. rewrite Hnc. simpl. split; [|done]. by eapply erase_len.
  - rewrite Hc. wp_step. unfold get_ctl at 1. wp_step. wp_step. eapply wp_deref; [exact Hg|].
    wp_step.
    destruct (tailq_remove_ok e (ctl_events c)) as (l' & Hrm & Hnd' & Hin');
      [by eapply (to_nodup _ _ Ht)|by apply (to_list _ _ Ht _ _ e Hg)|].
    eapply wp_deref; [exact Hrm|]. unfold set_ctl_events, get_ctl. wp_step. wp_step. wp_step.
    eapply wp_deref; [exact Hg|]. wp_step.
    apply (Hfin (<[e := w]> (evs b)) (Timers (timeheap (tms b)) (<[Z.to_nat _ := Ctl (duration c) (timeout_event c) l']> (common_timeout_queues (tms b))))); try done.
    + eapply tm_ok_list; try done.
      * rewrite Hin'. unfold w. fl_simpl. split; [by intros [_ ?]|done].
      * intros x Hx. rewrite Hin'. tauto.
      * apply sorted_insert; [rewrite Hin'; by intros [_ ?]|]. eapply sorted_remove; [exact Hrm|]. by eapply (to_sorted _ _ Ht).
    + by apply ctl_frame_set.
    + unfold timer_left. by rewrite Hc.
Qed.

(** The heap holds events of [U] only, so it cannot outgrow its indices. *)
Lemma heap_size_bound (b : base) e :
  inv b → e ∈ U → min_heap_idx (evs b !!! e) = -1 → hn (timeheap (tms b)) + 1 < 2 ^ 31.
Proof.
  intros Hi HU He. pose proof (ci_tm Hi) as Ht. pose proof (to_heap _ _ Ht) as Hh.
  pose proof (so_cap _ _ _ _ (hw_slots _ _ Hh)) as Hcap.
  set (l := ztake (hn (timeheap (tms b))) (hp (timeheap (tms b)))).
  assert (Hl : zlen l = hn (timeheap (tms b))) by (unfold l; rewrite zlen_ztake; lia).
  assert (Hin : ∀ x, x ∈ l → min_heap_idx (evs b !!! x) ≠ -1).
  { intros x [k Hk]%list_elem_of_lookup. apply lookup_lt_Some in Hk as Hlt. unfold l in Hk.
    unfold zlen in Hl.
    destruct (so_fwd _ _ _ _ (hw_slots _ _ Hh) (Z.of_nat k)) as (y & Hy & Hyi & _); [lia|].
    rewrite zget_nonneg, Nat2Z.id in Hy by lia. unfold ztake in Hk. rewrite lookup_take in Hk.
    rewrite decide_True in Hk by lia. simpl in Hyi. simplify_eq. lia. }
  assert (Hsub : e :: l ⊆+ U).
  { apply NoDup_submseteq.
    - apply NoDup_cons. split; [intros Hx%Hin; done|]. by eapply (heap_slots_NoDup _ (evs b)).
    - intros x [->|Hx]%elem_of_cons; [done|].
      apply Hin, (to_mem _ _ Ht) in Hx as [Hf _]. by eapply in_U. }
  apply submseteq_length in Hsub. simpl in Hsub. unfold zlen in *. lia.
Qed.

(** Comparing due times. *)
Lemma timercmp_geb a b : evutil_timercmp Z.geb a b = negb (tv_gtb b a).
Proof.
  apply eq_true_iff_eq. rewrite negb_true_iff, tv_gtb_false. unfold evutil_timercmp.
  rewrite !Z.geb_leb. destruct (Z.eqb_spec (tv_sec a) (tv_sec b)); rewrite Z.leb_le; lia.
Qed.
Lemma due_before_trans s x y z : due_before s x y → due_before s y z → due_before s x z.
Proof. unfold due_before. rewrite !tv_gtb_false. lia. Qed.
Lemma due_before_total s x y : due_before s x y ∨ due_before s y x.
Proof. unfold due_before. rewrite !tv_gtb_false. lia. Qed.

(** The reversed list of a common timeout, latest first. *)
Lemma wp_inorder_rev e tv (b : base) : ∀ l,
  (∀ x, x ∈ l → is_same_common_timeout (ev_timeout (evs b !!! x)) tv = true) →
  tv = ev_timeout (evs b !!! e) → StronglySorted (flip (due_before (evs b))) l →
  wp (inorder_rev (M:=M) e tv l) (λ l' b', b' = b ∧ l' ≡ₚ e :: l ∧ StronglySorted (flip (due_before (evs b))) l') b.
Proof.
  induction l as [|x l IH]; intros Hs Htv Hsort; cbn [inorder_rev].
  { wp_step. split_and!; [done|done|]. by repeat constructor. }
  unfold get_event, the_event. apply StronglySorted_inv in Hsort as [Hsort Hf].
  do 2 wp_step. wp_step. wp_step; [apply Hs; set_solver|]. rewrite timercmp_geb.
  destruct (tv_gtb _ tv) eqn:Hg; cbn [negb].
  - wp_step. eapply wp_mono; [apply IH; [intros; apply Hs; set_solver|done..]|].
    intros l' b' (-> & Hl' & Hsl). wp_step. split_and!; [done|rewrite Hl'; by constructor|].
    constructor; [done|]. apply Forall_forall. intros y Hy. rewrite Hl' in Hy.
    apply elem_of_cons in Hy as [->|Hy]; [|by eapply Forall_forall in Hf].
    unfold flip. destruct (due_before_total (evs b) e x) as [?|Hxe]; [done|]. unfold due_before in Hxe. congruence.
  - wp_step. split_and!; [done|done|]. constructor; [by constructor|].
    assert (Hxe : flip (due_before (evs b)) e x) by (unfold flip, due_before; by rewrite <-Htv).
    constructor; [done|]. eapply Forall_impl; [exact Hf|]. intros y Hy. by eapply due_before_trans.
Qed.
Lemma sorted_reverse {A} (R : A → A → Prop) l : StronglySorted R l → StronglySorted (flip R) (reverse l).
Proof.
  induction 1 as [|x l Hs IH Hf]; [constructor|]. rewrite reverse_cons. revert IH.
  assert (Hf' : ∀ y, y ∈ reverse l → R x y) by (intros y Hy; rewrite elem_of_reverse in Hy; by eapply Forall_forall in Hf).
  clear -Hf'. induction (reverse l) as [|y k IHk]; intros IH; [by repeat constructor|].
  apply StronglySorted_inv in IH as [IH Hk]. cbn. constructor.
  - apply IHk; [|done]. intros z Hz. apply Hf'. set_solver.
  - apply Forall_app. split; [done|]. repeat constructor. apply Hf'. set_solver.
Qed.

Lemma common_same i tv tv' n :
  0 <= i < n → n <= 256 → common_tv i tv → common_tv i tv' → is_same_common_timeout tv tv' = true.
Proof.
  intros Hi Hn H1 H2. unfold is_same_common_timeout.
  destruct (common_tv_spec _ _ _ H1 Hi Hn) as (_ & _ & -> & _).
  destruct (common_tv_spec _ _ _ H2 Hi Hn) as (_ & _ & -> & _). apply Z.eqb_refl.
Qed.

(** What becomes of the timers when [e] enters them. *)
Definition timer_entered (e : evid) (b b' : base) : Prop :=
  let tv := ev_timeout (evs b !!! e) in
  if is_common_timeout tv (n_common_timeouts b)
  then timeheap (tms b') = timeheap (tms b) ∧
       common_tv (COMMON_TIMEOUT_IDX tv) tv ∧
       (∃ c, zget (common_timeout_queues (tms b')) (COMMON_TIMEOUT_IDX tv) = Some c ∧ e ∈ ctl_events c)
  else min_heap_idx (evs b' !!! e) ≠ -1.

Lemma wp_insert_timeout e b (Q : unit → base → Prop) :
  inv b → e ∈ U → fl (evs b !!! e) EVLIST_TIMEOUT = false →
  good_tv (n_common_timeouts b) (ev_timeout (evs b !!! e)) →
  (plain_tv (ev_timeout (evs b !!! e)) → can_push (tms b)) →
  (∀ b', inv b' → rest b b' → only e b b' → qs b' = qs b →
     core (evs b' !!! e) = core (set_flag EVLIST_TIMEOUT (evs b !!! e)) →
     timer_entered e b b' → Q tt b') →
  wp (event_queue_insert_timeout e) Q b.
Proof.
  intros Hi HU Ha Hgood Hpush HQ. pose proof (ci_tm Hi) as Ht.
  assert (Hidle : min_heap_idx (evs b !!! e) = -1).
  { destruct (decide (min_heap_idx (evs b !!! e) = -1)) as [|Hn]; [done|].
    apply (to_mem _ _ Ht) in Hn as [Hf _]. congruence. }
  unfold event_queue_insert_timeout, get_event, the_event, INCR_EVENT_COUNT, upd_event, the_event.
  do 4 wp_step; [by fold (fl (evs b !!! e) EVLIST_TIMEOUT); rewrite Ha|]. do 6 wp_step.
  set (w := set_flag EVLIST_TIMEOUT (evs b !!! e)).
  set (c1 := Counters _ _ _ _ _).
  match goal with |- wp _ _ ?st => change st with (set_evs (<[e := w]> (evs b)) (set_cnt c1 b)) end.
  match goal with |- context [is_common_timeout _ ?n] => change n with (n_common_timeouts b) end.
  assert (Hfin : ∀ s' t', (∀ x, core (s' !!! x) = core (<[e := w]> (evs b) !!! x)) → tm_ok s' t' →
            ctl_frame t' = ctl_frame (tms b) →
            timer_entered e b (set_evs s' (set_tms t' (set_cnt c1 b))) →
            Q tt (set_evs s' (set_tms t' (set_cnt c1 b)))).
  { intros s' t' Hcore Ht' Hfr Hleft. apply HQ; try done.
    - assert (Hcore' : ∀ x, core (s' !!! x) = core (if decide (x = e) then w else evs b !!! x)).
      { intros x. by rewrite Hcore, core_insert. }
      apply (inv_timer_change b _ e w); try done; unfold act_view, map_view, w; fl_simpl; try done;
        [apply (ci_flags Hi)|].
      apply (cnt_set_timer (evs b) s' (cnt b) e EVLIST_TIMEOUT); [apply (ci_cnt Hi)|done|by left|done..].
    - intros x Hx. simpl. by rewrite Hcore, core_insert, decide_False.
    - simpl. by rewrite Hcore, core_insert, decide_True. }
  destruct (good_tv_cases _ _ Hgood (to_max _ _ Ht)) as [[Hp Hnc]|(Hct & Hr & Hc)].
  - rewrite Hnc. wp_step. unfold lift_heap.
    assert (Hidx : ts_idx (<[e := w]> (evs b)) e = -1) by (simpl; by rewrite lookup_total_insert_eq).
    assert (Hwf : heap_wf (timeheap (tms b)) (<[e := w]> (evs b))).
    { eapply heap_wf_ext; [..|apply (to_heap _ _ Ht)]; intros x; simpl; intros;
        by apply (view_insert _). }
    destruct (Hpush Hp) as [h1 Hres].
    destruct (push_wf _ _ _ _ Hwf Hidx (heap_size_bound b e Hi HU Hidle) Hres)
      as (h' & s' & He & Hwf' & Hn & Hie & [Hft Hfi]).
    unfold wp at 1. cbn [set_evs set_cnt tms evs]. rewrite He. cbn [mbind option_bind].
    wp_step. apply (Hfin s' (Timers h' (common_timeout_queues (tms b)))); try done.
    + by eapply push_core.
    + eapply tm_ok_heap with (e := e); [done..| | | | ].
      * intros x Hx. split; [rewrite (push_core _ _ _ _ _ _ He); by rewrite core_insert, decide_False|].
        specialize (Hfi x Hx). simpl in Hfi. by rewrite lookup_total_insert_ne in Hfi.
      * rewrite (core_fl _ _ _ (push_core _ _ _ _ _ _ He e)), lookup_total_insert_eq.
        unfold w. by fl_simpl.
      * congruence.
      * intros _. specialize (Hft e). simpl in Hft. rewrite lookup_total_insert_eq in Hft.
        by rewrite Hft.
    + unfold timer_entered. by rewrite Hnc.
  - rewrite Hc. unfold insert_common_timeout_inorder, get_ctl, get_event, the_event.
    destruct (zget_in_range _ _ Hr) as [c Hg].
    assert (Hnin : e ∉ ctl_events c).
    { intros Hin. apply (to_list _ _ Ht _ _ e Hg) in Hin as [? _]. congruence. }
    do 3 wp_step. eapply wp_deref; [exact Hg|]. do 2 wp_step. wp_step.
    cbn [set_evs set_cnt evs]. rewrite lookup_total_insert_eq.
    eapply wp_mono; [apply wp_inorder_rev|].
    { intros x Hx. rewrite elem_of_reverse in Hx.
      apply (to_list _ _ Ht _ _ x Hg) in Hx as [Hfx Hcx]. cbn [set_evs set_cnt evs].
      destruct (decide (x = e)) as [->|Hne]; [congruence|]. rewrite lookup_total_insert_ne by done.
      by eapply common_same; [exact Hr|apply (to_max _ _ Ht)|..]. }
    { cbn [set_evs set_cnt evs]. by rewrite lookup_total_insert_eq. }
    { cbn [set_evs set_cnt evs]. apply sorted_reverse, sorted_insert; [done|]. by eapply (to_sorted _ _ Ht). }
    intros l' b' (-> & Hl' & Hsl). unfold set_ctl_events, get_ctl. do 3 wp_step. eapply wp_deref; [exact Hg|].
    wp_step.
    assert (Hmem : ∀ x, x ∈ reverse l' ↔ x = e ∨ x ∈ ctl_events c).
    { intros x. rewrite elem_of_reverse, Hl', elem_of_cons, elem_of_reverse. done. }
    apply (Hfin (<[e := w]> (evs b)) (Timers (timeheap (tms b)) (<[Z.to_nat _ := Ctl (duration c) (timeout_event c) (reverse l')]> (common_timeout_queues (tms b))))); try done.
    + eapply tm_ok_list; try done.
      * rewrite reverse_Permutation, Hl'. apply NoDup_cons. rewrite elem_of_reverse.
        split; [done|]. rewrite reverse_Permutation. by eapply (to_nodup _ _ Ht).
      * rewrite Hmem. unfold w. fl_simpl. tauto.
      * intros x Hx. rewrite Hmem. tauto.
      * exact (sorted_reverse _ _ Hsl).
    + by apply ctl_frame_set.
    + unfold timer_entered. rewrite Hc. split; [done|]. split; [done|].
      exists (Ctl (duration c) (timeout_event c) (reverse l')).
      split; [|apply Hmem; by left]. cbn [set_evs set_tms tms common_timeout_queues].
      rewrite zget_insert by done. by rewrite decide_True.
Qed.
End queue_lemmas.
