(* ===== verification/EventOps.v ===== *)
(** The operations of [EventApi] keep the invariant of the event base, and what
    they do to the event they are called on. *)
From S2P Require Import Prelude Timeval MinHeap EventDefs EventApi EventInv EventQueue.

Section ops.
Context {M : Type} {EO : EvmapOps M} {EL : EvmapLaws M} {CK : Clock} {CL : ClockLaws} {RA : Realloc}.
Abbreviation base := (event_base M).
Context (U : list evid) (U_nodup : NoDup U) (U_small : zlen U < 2 ^ 31).
Abbreviation inv := (core_inv U).

(** ** What no operation on events changes *)

Definition loop_view (l : loop_state) : bool * bool * Z * bool * option evid :=
  (event_gotterm l, event_break l, event_running_priority l, running_loop l, current_event l).

Record api_frame (b b' : base) : Prop := {
  af_cfg : cfg b' = cfg b;
  af_nq : nactivequeues b' = nactivequeues b;
  af_ctl : ctl_frame (tms b') = ctl_frame (tms b);
  af_virt : virtual_event_count (cnt b') = virtual_event_count (cnt b);
  af_loop : loop_view (lp b') = loop_view (lp b);
  af_need : other_thread (nt b') = other_thread (nt b);
  af_fn : has_notify_fn (nt b') = has_notify_fn (nt b);
  af_cache : tv_cache (clk b') = tv_cache (clk b)
}.
Lemma api_refl b : api_frame b b.
Proof. by constructor. Qed.
Lemma api_trans b1 b2 b3 : api_frame b1 b2 → api_frame b2 b3 → api_frame b1 b3.
Proof. intros [] []; constructor; congruence. Qed.
Lemma rest_api b b' : rest b b' → api_frame b b'.
Proof. intros []; constructor; congruence. Qed.
Hint Resolve api_refl rest_api : evlib.

Lemma n_common_api b b' : api_frame b b' → n_common_timeouts b' = n_common_timeouts b.
Proof.
  intros H. apply af_ctl in H. unfold n_common_timeouts, ctl_frame, zlen in *.
  apply (f_equal length) in H. rewrite !length_fmap in H. lia.
Qed.

(** Changes outside of what the invariant reads. *)
Record quiet_step (b b' : base) : Prop := {
  qt_evs : evs b' = evs b; qt_qs : qs b' = qs b; qt_tms : tms b' = tms b;
  qt_map : evmap b' = evmap b; qt_cnt : cnt b' = cnt b; qt_api : api_frame b b'
}.
Lemma quiet_refl_ev b : quiet_step b b.
Proof. by split. Qed.
Lemma quiet_inv b b' : quiet_step b b' → inv b → inv b'.
Proof. intros []. by apply inv_frame. Qed.
Lemma quiet_only e b b' : quiet_step b b' → only e b b'.
Proof. intros [He _ _ _ _ _] x _. by rewrite He. Qed.

Lemma wp_quiet {A} (m : prog base A) (P : A → base → Prop) b (Q : A → base → Prop) :
  wp m (λ a b', quiet_step b b' ∧ P a b') b →
  (∀ a b', quiet_step b b' → P a b' → Q a b') → wp m Q b.
Proof. intros H HQ. eapply wp_mono; [exact H|]. intros a b' [? ?]. auto. Qed.

Lemma wp_maybe_notify c b (Q : unit → base → Prop) :
  (∀ b', quiet_step b b' → lp b' = lp b → clk b' = clk b → Q tt b') →
  wp (maybe_notify c) Q b.
Proof.
  intros HQ. unfold maybe_notify, evthread_notify_base. do 2 wp_step.
  destruct (c && EVBASE_NEED_NOTIFY b); cbn [when]; [|wp_step; by apply HQ; try apply quiet_refl_ev].
  do 3 wp_step. destruct (negb _); [do 2 wp_step; by apply HQ; try apply quiet_refl_ev|].
  destruct (is_notify_pending _); [do 2 wp_step; by apply HQ; try apply quiet_refl_ev|].
  repeat wp_step. apply HQ; [|done..]. by split.
Qed.

Lemma wp_abort_signal e b (Q : unit → base → Prop) :
  (∀ b', quiet_step b b' → clk b' = clk b → Q tt b') → wp (abort_signal_loop e) Q b.
Proof.
  intros HQ. unfold abort_signal_loop, get_event. do 2 wp_step.
  destruct (negb _ && _); cbn [when]; wp_step; apply HQ; try done; apply quiet_refl_ev.
Qed.
Lemma wp_when_abort c e b (Q : unit → base → Prop) :
  (∀ b', quiet_step b b' → clk b' = clk b → Q tt b') → wp (when c (abort_signal_loop e)) Q b.
Proof. intros HQ. destruct c; cbn [when]; [by apply wp_abort_signal|]. wp_step. by apply HQ; try apply quiet_refl_ev. Qed.

(** The clock. *)
Definition cache_ok (b : base) : Prop :=
  tv_sec (tv_cache (clk b)) = 0 ∨ tv_norm (tv_cache (clk b)) ∧ 0 < tv_sec (tv_cache (clk b)) < 2 ^ 63.
Lemma gettime_ok b :
  cache_ok b →
  ∃ now b', gettime b = Some (Some now, b') ∧ quiet_step b b' ∧ tv_norm now ∧ lp b' = lp b ∧ nt b' = nt b ∧
    0 < tv_sec now < 2 ^ 63.
Proof.
  intros Hc. unfold gettime. unfold mbind, prog_bind, get_state.
  destruct (Z.eqb_spec (tv_sec (tv_cache (clk b))) 0) as [E|E]; cbn [negb].
  - destruct (clock_ok (tick (clk b))) as (tv & -> & Hn & Hpos).
    destruct (_ <? _); (eexists _, _; split; [reflexivity|]; split; [|split; [exact Hn|split; [done|split; [done|exact Hpos]]]];
      split; try done; by constructor).
  - destruct Hc as [?|[Hc Hs]]; [done|]. eexists _, b. split; [reflexivity|]. split; [apply quiet_refl_ev|]. done.
Qed.
Lemma wp_gettime_now b (Q : timeval → base → Prop) :
  cache_ok b →
  (∀ now b', quiet_step b b' → tv_norm now → gettime b = Some (Some now, b') → Q now b') →
  wp gettime_now Q b.
Proof.
  intros Hc HQ. destruct (gettime_ok b Hc) as (now & b' & Hg & Hq & Hn & _).
  unfold gettime_now. wp_step. unfold wp at 1. rewrite Hg. by apply wp_deref with now; [|apply HQ].
Qed.
Lemma api_cache b b' : api_frame b b' → cache_ok b → cache_ok b'.
Proof. intros [_ _ _ _ _ _ _ H]. unfold cache_ok. by rewrite H. Qed.

(** ** Descriptors and signals *)

(** A change of the map for [e], whose inserted flag changes with it. *)
Lemma inv_map_change (b : base) e m w c :
  inv b → e ∈ U → act_view w = act_view (evs b !!! e) → timer_view w = timer_view (evs b !!! e) →
  fl w (Z.lnot EVLIST_ALL) = false →
  map_ok (<[e := w]> (evs b)) m → cnt_ok U (<[e := w]> (evs b)) c →
  inv (set_map m (set_cnt c (set_evs (<[e := w]> (evs b)) b))).
Proof.
  intros Hi HU Ha Ht Hf Hm Hc.
  destruct (flags_upd U b (<[e := w]> (evs b)) e Hi HU) as [Hf1 Hf2].
  - intros x Hx. by rewrite lookup_total_insert_ne.
  - by rewrite lookup_total_insert_eq.
  - split; try done.
    + eapply act_ok_ext; [|apply (ci_act Hi)]. intros x. by apply view_insert.
    + eapply tm_ok_ext; [|apply (ci_tm Hi)]. intros x. by apply view_insert.
Qed.

(** [map_ok] from the laws of the map, for an event that leaves or enters. *)
Lemma map_ok_del (s : store) (m m' : M) e w :
  map_ok s m → em_inv m' (λ x, ev_events (s !!! x)) →
  ev_events w = ev_events (s !!! e) → fl w EVLIST_INSERTED = false →
  (∀ fd x, x ≠ e → em_io m' fd x ↔ em_io m fd x) → (∀ fd, ¬ em_io m' fd e) →
  (∀ g x, x ≠ e → em_sig m' g x ↔ em_sig m g x) → (∀ g, ¬ em_sig m' g e) →
  map_ok (<[e := w]> s) m'.
Proof.
  intros [Hi Hio Hsig] Hi' Hev Hf H1 H2 H3 H4. split.
  - eapply em_inv_ext; [|done]. intros x fd _. by apply (view_insert ev_events).
  - intros fd x. destruct (decide (x = e)) as [->|Hne].
    + rewrite lookup_total_insert_eq, Hf. split; [by intros ?%H2|by intros [? _]].
    + rewrite lookup_total_insert_ne, H1 by done. apply Hio.
  - intros g x. destruct (decide (x = e)) as [->|Hne].
    + rewrite lookup_total_insert_eq, Hf. split; [by intros ?%H4|by intros [? _]].
    + rewrite lookup_total_insert_ne, H3 by done. apply Hsig.
Qed.

Lemma evmap_del_ok (s : store) (m : M) e :
  map_ok s m → fl (s !!! e) EVLIST_INSERTED = true →
  ∃ m' r, (if has (ev_events (s !!! e)) EV_IO
           then evmap_io_del_ m (ev_fd (s !!! e)) e (ev_events (s !!! e))
           else evmap_signal_del_ m (ev_fd (s !!! e)) e) = Some (m', r) ∧
    (r = -1 ∨ r = 0 ∨ r = 1) ∧ map_ok (<[e := clear_flag EVLIST_INSERTED (s !!! e)]> s) m'.
Proof.
  intros Hm Hf. pose proof Hm as [Hi Hio Hsig].
  destruct (has (ev_events (s !!! e)) EV_IO) eqn:Eio.
  - destruct (em_io_del m (λ x, ev_events (s !!! x)) (ev_fd (s !!! e)) e Hi)
      as (m' & r & Hdel & Hi' & Hr & Hio' & Hsig').
    { intros Hfd. by apply Hio. }
    exists m', r. split; [done|]. split; [done|].
    eapply map_ok_del; try done; [by fl_simpl|..].
    + intros fd x Hx. rewrite Hio'. split; [by intros []|]. intros H. split; [done|]. by intros (_ & _ & ?).
    + intros fd [H Hn]%Hio'. apply Hn. by apply Hio in H as (_ & _ & -> & ?).
    + intros g [Hg [? _]]%Hsig'%Hsig. congruence.
  - destruct (em_sig_del m (λ x, ev_events (s !!! x)) (ev_fd (s !!! e)) e Hi)
      as (m' & r & Hdel & Hi' & Hr & Hio' & Hsig').
    { by apply Hsig. }
    exists m', r. split; [done|]. split; [done|].
    eapply map_ok_del; try done; [by fl_simpl|..].
    + intros fd [_ [? _]]%Hio'%Hio. congruence.
    + intros g x Hx. rewrite Hsig'. split; [by intros []|]. intros H. split; [done|]. by intros (_ & ?).
    + intros g [H Hn]%Hsig'. apply Hn. by apply Hsig in H as (_ & _ & ->).
Qed.

Lemma wp_del_inserted e b (Q : Z * bool → base → Prop) :
  inv b →
  (∀ b' r n, inv b' → api_frame b b' → only e b b' → tms b' = tms b → qs b' = qs b →
     evs b' !!! e = (if fl (evs b !!! e) EVLIST_INSERTED
                     then clear_flag EVLIST_INSERTED (evs b !!! e) else evs b !!! e) →
     (r = 0 ∨ r = -1) → Q (r, n) b') →
  wp (del_inserted e) Q b.
Proof.
  intros Hi HQ. unfold del_inserted, get_event, the_event. do 2 wp_step.
  fold (fl (evs b !!! e) EVLIST_INSERTED). destruct (fl (evs b !!! e) EVLIST_INSERTED) eqn:Ef.
  - pose proof (in_U U _ _ _ Hi Ef) as HU.
    unfold event_queue_remove_inserted, DECR_EVENT_COUNT, upd_event, get_event, the_event.
    do 5 wp_step; [done|]. do 4 wp_step.
    unfold evmap_del, the_event. do 3 wp_step.
    destruct (evmap_del_ok _ _ e (ci_map Hi) Ef) as (m' & r & Hdel & Hr & Hm).
    cbn [set_evs set_cnt evs evmap]. rewrite lookup_total_insert_eq.
    change (ev_events (clear_flag EVLIST_INSERTED ?v)) with (ev_events v).
    change (ev_fd (clear_flag EVLIST_INSERTED ?v)) with (ev_fd v).
    eapply wp_deref; [exact Hdel|]. cbv beta iota. repeat wp_step.
    apply HQ; try done.
    + apply (inv_map_change b e m' (clear_flag EVLIST_INSERTED (evs b !!! e))); try done;
        unfold act_view, timer_view; fl_simpl; try done; [apply (ci_flags Hi)|].
      apply (cnt_clear_timer U U_nodup (evs b) _ (cnt b) e EVLIST_INSERTED);
        [apply (ci_cnt Hi)|done|by right|done|apply core_insert].
    + eapply only_insert. reflexivity.
    + apply lookup_total_insert_eq.
    + destruct (Z.eqb_spec r 1); lia.
  - wp_step. apply HQ; try done. by left.
Qed.

(** ** Deleting *)

Lemma clear_id m v : fl v m = false → clear_flag m v = v.
Proof.
  unfold fl, has, clear_flag. intros H%negb_false_iff%Z.eqb_eq. destruct v. unfold set_flags. simpl in *.
  f_equal. rewrite <-Z.ldiff_land. rewrite <-(Z.lor_ldiff_and ev_flags m) at 2.
  by rewrite H, Z.lor_0_r.
Qed.
Lemma clear_clear m n v : clear_flag n (clear_flag m v) = clear_flag (Z.lor m n) v.
Proof. unfold clear_flag, set_flags. simpl. by rewrite <-!Z.ldiff_land, Z.ldiff_ldiff_l. Qed.
Lemma core_clear m v w : core v = core w → core (clear_flag m v) = core (clear_flag m w).
Proof. intros H. change (clear_flag m (core v) = clear_flag m (core w)). by rewrite H. Qed.

(** Removing [e] from the timers, if it is there. *)
Lemma wp_clear_timeout e b (Q : unit → base → Prop) :
  inv b →
  (∀ b', inv b' → rest b b' → only e b b' → qs b' = qs b →
     core (evs b' !!! e) = core (clear_flag EVLIST_TIMEOUT (evs b !!! e)) →
     zlen (hp (timeheap (tms b'))) = zlen (hp (timeheap (tms b))) →
     hn (timeheap (tms b')) = hn (timeheap (tms b)) -
       b2z (fl (evs b !!! e) EVLIST_TIMEOUT &&
            negb (is_common_timeout (ev_timeout (evs b !!! e)) (n_common_timeouts b))) →
     Q tt b') →
  wp (when (fl (evs b !!! e) EVLIST_TIMEOUT) (event_queue_remove_timeout e)) Q b.
Proof.
  intros Hi HQ. destruct (fl (evs b !!! e) EVLIST_TIMEOUT) eqn:Ef; cbn [when].
  - apply (wp_remove_timeout U U_nodup); [done..|]. intros b' Hi' Hr Ho Hq Hc [Hl Ht].
    apply HQ; try done. destruct (is_common_timeout _ _); cbn [andb negb b2z]; [rewrite Ht|]; lia.
  - wp_step. apply HQ; try done; [by rewrite clear_id|cbn; lia].
Qed.

Definition EVLIST_QUEUED : Z := Z.lor EVLIST_ACTIVE EVLIST_ACTIVE_LATER.

(** Removing [e] from the queue of active events it is in. *)
Lemma wp_clear_active e b (Q : unit → base → Prop) :
  inv b →
  (∀ b', inv b' → rest b b' → only e b b' → tms b' = tms b →
     core (evs b' !!! e) = core (clear_flag EVLIST_QUEUED (evs b !!! e)) → Q tt b') →
  wp (if fl (evs b !!! e) EVLIST_ACTIVE then event_queue_remove_active e
      else when (fl (evs b !!! e) EVLIST_ACTIVE_LATER) (event_queue_remove_active_later e)) Q b.
Proof.
  intros Hi HQ. unfold EVLIST_QUEUED in HQ. rewrite <-clear_clear in HQ.
  pose proof (ao_excl _ _ (ci_act Hi) e) as Hx.
  destruct (fl (evs b !!! e) EVLIST_ACTIVE) eqn:Ea.
  - apply (wp_remove_active U U_nodup); [done..|]. intros b' Hi' Hr Ho Ht Hc _.
    apply HQ; try done. rewrite (clear_id EVLIST_ACTIVE_LATER); [done|]. fl_simpl. auto.
  - rewrite (clear_id EVLIST_ACTIVE) in HQ by done.
    destruct (fl (evs b !!! e) EVLIST_ACTIVE_LATER) eqn:El; cbn [when].
    + apply (wp_remove_later U U_nodup); [done..|]. intros b' Hi' Hr Ho Ht Hc _. by apply HQ.
    + wp_step. apply HQ; try done; by rewrite clear_id.
Qed.

Definition EVLIST_PENDING : Z := Z.lor EVLIST_TIMEOUT (Z.lor EVLIST_QUEUED EVLIST_INSERTED).

(** What [event_del_nolock_] does to an event that is not protected. *)
Record deleted (e : evid) (b b' : base) : Prop := {
  dl_api : api_frame b b';
  dl_only : only e b b';
  dl_core : core (evs b' !!! e) = core (clear_flag EVLIST_PENDING (evs b !!! e));
  dl_len : zlen (hp (timeheap (tms b'))) = zlen (hp (timeheap (tms b)));
  dl_heap : hn (timeheap (tms b')) = hn (timeheap (tms b)) -
       b2z (fl (evs b !!! e) EVLIST_TIMEOUT &&
            negb (is_common_timeout (ev_timeout (evs b !!! e)) (n_common_timeouts b)))
}.

Lemma wp_del e fin b (Q : Z → base → Prop) :
  inv b →
  (ev_has_base (evs b !!! e) = false → Q (-1) b) →
  (ev_has_base (evs b !!! e) = true → fl (evs b !!! e) EVLIST_FINALIZING = true → fin = false → Q 0 b) →
  (∀ b' r, inv b' → deleted e b b' → ev_has_base (evs b !!! e) = true →
     (fin = true ∨ fl (evs b !!! e) EVLIST_FINALIZING = false) → (r = 0 ∨ r = -1) → Q r b') →
  wp (event_del_nolock_ e fin) Q b.
Proof.
  intros Hi HQ1 HQ2 HQ3. unfold event_del_nolock_, get_event, the_event. do 2 wp_step.
  destruct (ev_has_base (evs b !!! e)) eqn:Eb; cbn [negb]; [|by wp_step; apply HQ1].
  fold (fl (evs b !!! e) EVLIST_FINALIZING).
  destruct (negb fin && _) eqn:Efin; [wp_step; apply HQ2; destruct fin, (fl _ _); done|].
  assert (Hfin : fin = true ∨ fl (evs b !!! e) EVLIST_FINALIZING = false)
    by (destruct fin, (fl _ _); auto).
  do 2 wp_step; [apply negb_true_iff, (ci_flags Hi)|]. wp_step. apply wp_when_abort. intros b1 Hq1 _.
  pose proof (quiet_inv _ _ Hq1 Hi) as Hi1. rewrite <-(qt_evs _ _ Hq1).
  fold (fl (evs b1 !!! e) EVLIST_TIMEOUT). fold (fl (evs b1 !!! e) EVLIST_ACTIVE).
  fold (fl (evs b1 !!! e) EVLIST_ACTIVE_LATER).
  wp_step. apply wp_clear_timeout; [done|]. intros b2 Hi2 Hr2 Ho2 Hqs2 Hc2 Hl2 Hn2.
  assert (Hfl : ∀ m, m = EVLIST_ACTIVE ∨ m = EVLIST_ACTIVE_LATER → fl (evs b1 !!! e) m = fl (evs b2 !!! e) m).
  { intros m Hm. rewrite (core_fl _ _ m Hc2). destruct Hm as [-> | ->]; by fl_simpl. }
  rewrite !Hfl by auto. wp_step. apply wp_clear_active; [done|]. intros b3 Hi3 Hr3 Ho3 Ht3 Hc3.
  wp_step. apply wp_del_inserted; [done|]. intros b4 r n Hi4 Ha4 Ho4 Ht4 Hqs4 Hev4 Hr.
  wp_step. apply wp_maybe_notify. intros b5 Hq5 _ _. wp_step.
  apply HQ3; try done; [by eapply quiet_inv|]. split.
  - pose proof (qt_api _ _ Hq1). pose proof (qt_api _ _ Hq5).
    eauto 10 using api_trans, rest_api.
  - eauto 10 using only_trans, quiet_only.
  - rewrite (qt_evs _ _ Hq5), Hev4.
    assert (Hc4 : core (clear_flag EVLIST_INSERTED (evs b3 !!! e)) =
                  core (clear_flag EVLIST_PENDING (evs b !!! e))).
    { unfold EVLIST_PENDING. rewrite <-!clear_clear, <-(qt_evs _ _ Hq1).
      apply core_clear. rewrite Hc3. by apply core_clear. }
    destruct (fl (evs b3 !!! e) EVLIST_INSERTED) eqn:Ef; [done|].
    by rewrite <-Hc4, clear_id.
  - by rewrite (qt_tms _ _ Hq5), Ht4, Ht3, Hl2, (qt_tms _ _ Hq1).
  - rewrite (qt_tms _ _ Hq5), Ht4, Ht3, Hn2, (qt_tms _ _ Hq1).
    by rewrite (n_common_api _ _ (qt_api _ _ Hq1)), (qt_evs _ _ Hq1).
Qed.

(** ** Activating *)

Lemma core_set m v w : core v = core w → core (set_flag m v) = core (set_flag m w).
Proof. intros H. change (set_flag m (core v) = set_flag m (core w)). by rewrite H. Qed.
Lemma core_eq v w : v = w → core v = core w.
Proof. by intros ->. Qed.

(** An event whose callback enters a queue of active events. *)
Definition made_active (v : event) : event :=
  if fl v EVLIST_ACTIVE then v else set_flag EVLIST_ACTIVE (clear_flag EVLIST_ACTIVE_LATER v).

Record callback_activated (e : evid) (b b' : base) : Prop := {
  ca_api : api_frame b b';
  ca_only : only e b b';
  ca_core : core (evs b' !!! e) = core (made_active (evs b !!! e));
  ca_tms : tms b' = tms b;
  ca_queue : if fl (evs b !!! e) EVLIST_ACTIVE then activequeues (qs b') = activequeues (qs b)
             else queued_last e b b';
  ca_clk : clk b' = clk b;
  ca_lp : lp b' = lp b
}.

Lemma wp_callback_activate e b (Q : Z → base → Prop) :
  inv b → e ∈ U → fl (evs b !!! e) EVLIST_FINALIZING = false →
  (∀ b', inv b' → callback_activated e b b' →
     Q (b2z (negb (fl (evs b !!! e) EVLIST_ACTIVE) && negb (fl (evs b !!! e) EVLIST_ACTIVE_LATER))) b') →
  wp (event_callback_activate_nolock_ e) Q b.
Proof.
  intros Hi HU Hfin HQ. unfold event_callback_activate_nolock_, get_event, the_event. do 2 wp_step.
  fold (fl (evs b !!! e) EVLIST_FINALIZING). rewrite Hfin.
  fold (fl (evs b !!! e) EVLIST_ACTIVE). fold (fl (evs b !!! e) EVLIST_ACTIVE_LATER).
  pose proof (ao_excl _ _ (ci_act Hi) e) as Hx.
  destruct (fl (evs b !!! e) EVLIST_ACTIVE) eqn:Ea.
  - rewrite Hx by done. do 2 wp_step; [done|]. wp_step. apply HQ; [done|].
    split; try done; unfold made_active; by rewrite ?Ea.
  - do 2 wp_step; [done|]. wp_step.
    assert (Hins : ∀ b1, inv b1 → rest b b1 → only e b b1 → tms b1 = tms b →
       core (evs b1 !!! e) = core (clear_flag EVLIST_ACTIVE_LATER (evs b !!! e)) →
       activequeues (qs b1) = activequeues (qs b) →
       wp (_ ← event_queue_insert_active e; _ ← maybe_notify true;
           mret (if fl (evs b !!! e) EVLIST_ACTIVE_LATER then 0 else 1)) Q b1).
    { intros b1 Hi1 Hr1 Ho1 Ht1 Hc1 Hq1. wp_step.
      apply (wp_insert_active U U_nodup); [done|done|done|..].
      - rewrite (core_fl _ _ _ Hc1). by fl_simpl.
      - rewrite (core_fl _ _ _ Hc1). by fl_simpl.
      - intros b2 Hi2 Hr2 Ho2 Ht2 Hc2 Hq2 _. wp_step. apply wp_maybe_notify.
        intros b3 Hq3 Hp3 Hk3. wp_step.
        replace (if fl (evs b !!! e) EVLIST_ACTIVE_LATER then 0 else 1) with
          (b2z (negb false && negb (fl (evs b !!! e) EVLIST_ACTIVE_LATER)))
          by (by destruct (fl _ EVLIST_ACTIVE_LATER)).
        apply HQ; [by eapply quiet_inv|]. split.
        + eapply api_trans; [by apply rest_api|]. eapply api_trans; [by apply rest_api|apply Hq3].
        + eapply only_trans; [done|]. eapply only_trans; [done|by apply quiet_only].
        + rewrite (qt_evs _ _ Hq3), Hc2. unfold made_active. rewrite Ea. by apply core_set.
        + by rewrite (qt_tms _ _ Hq3), Ht2.
        + rewrite Ea. destruct Hq2 as (l & Hl & Hl').
          destruct (core_fields _ _ Hc1) as (_ & _ & Hp & _).
          change (ev_pri (clear_flag EVLIST_ACTIVE_LATER ?v)) with (ev_pri v) in Hp.
          rewrite Hp, Hq1 in Hl, Hl'. exists l. by rewrite (qt_qs _ _ Hq3).
        + by rewrite Hk3, (rs_clk _ _ Hr2), (rs_clk _ _ Hr1).
        + by rewrite Hp3, (rs_lp _ _ Hr2), (rs_lp _ _ Hr1). }
    destruct (fl (evs b !!! e) EVLIST_ACTIVE_LATER) eqn:El; cbn [when].
    + apply (wp_remove_later U U_nodup); [done..|]. intros b1 Hi1 Hr1 Ho1 Ht1 Hc1 Hq1. by apply Hins.
    + wp_step. apply Hins; try done. by rewrite clear_id.
Qed.

(** An event that is activated with [res] and [ncalls]. *)
Definition activated (res ncalls : Z) (v : event) : event :=
  if fl v EVLIST_ACTIVE then set_res (i16 (Z.lor (ev_res v) res)) v
  else
    let v1 := set_res (if fl v EVLIST_ACTIVE_LATER then i16 (Z.lor (ev_res v) res) else i16 res) v in
    let v2 := if has (ev_events v) EV_SIGNAL then set_calls ncalls false v1 else v1 in
    made_active v2.

Record event_activated (e : evid) (res ncalls : Z) (b b' : base) : Prop := {
  ea_api : api_frame b b';
  ea_only : only e b b';
  ea_core : core (evs b' !!! e) = core (activated res ncalls (evs b !!! e));
  ea_tms : tms b' = tms b;
  ea_queue : if fl (evs b !!! e) EVLIST_ACTIVE then activequeues (qs b') = activequeues (qs b)
             else queued_last e b b';
  ea_clk : clk b' = clk b;
  ea_continue : event_continue (lp b') = event_continue (lp b) ||
    negb (fl (evs b !!! e) EVLIST_ACTIVE) && (ev_pri (evs b !!! e) <? event_running_priority (lp b))
}.

Lemma core_upd (f : event → event) v w :
  (∀ x, core (f x) = f (core x)) → core v = core w → core (f v) = core (f w).
Proof. intros Hf H. by rewrite !Hf, H. Qed.

Lemma set_res_views r v :
  act_view (set_res r v) = act_view v ∧ timer_view (set_res r v) = timer_view v ∧
  map_view (set_res r v) = map_view v ∧ ev_flags (set_res r v) = ev_flags v.
Proof. done. Qed.

Lemma wp_continue c b (Q : unit → base → Prop) :
  (∀ b', quiet_step b b' → clk b' = clk b →
     event_continue (lp b') = event_continue (lp b) || c → Q tt b') →
  wp (when c (modify (set_continue true))) Q b.
Proof.
  intros HQ. destruct c; cbn [when]; wp_step.
  - apply HQ; [by split|done|by rewrite orb_true_r].
  - apply HQ; [apply quiet_refl_ev|done|by rewrite orb_false_r].
Qed.

Lemma wp_active e res n b (Q : unit → base → Prop) :
  inv b → e ∈ U →
  (fl (evs b !!! e) EVLIST_FINALIZING = true → Q tt b) →
  (∀ b', fl (evs b !!! e) EVLIST_FINALIZING = false → inv b' → event_activated e res n b b' → Q tt b') →
  wp (event_active_nolock_ e res n) Q b.
Proof.
  intros Hi HU HQ1 HQ2. unfold event_active_nolock_, get_event, the_event. do 2 wp_step.
  fold (fl (evs b !!! e) EVLIST_FINALIZING). fold (fl (evs b !!! e) EVLIST_ACTIVE).
  fold (fl (evs b !!! e) EVLIST_ACTIVE_LATER).
  destruct (fl (evs b !!! e) EVLIST_FINALIZING) eqn:Ef; [wp_step; auto|].
  pose proof (ao_excl _ _ (ci_act Hi) e) as Hx.
  destruct (fl (evs b !!! e) EVLIST_ACTIVE) eqn:Ea.
  - rewrite Hx by done. do 2 wp_step; [done|].
    apply (wp_upd_benign U); [done|done|]. intros b' Hi' Hr Ho Ht Hq _ Hev.
    apply HQ2; [done|done|]. split; rewrite ?Ea; try done.
    + by apply rest_api.
    + rewrite Hev. unfold activated. by rewrite Ea.
    + by rewrite Hq.
    + by rewrite (rs_clk _ _ Hr).
    + rewrite (rs_lp _ _ Hr). by rewrite orb_false_r.
  - do 2 wp_step; [done|]. wp_step.
    set (later := fl (evs b !!! e) EVLIST_ACTIVE_LATER) in *.
    apply (wp_upd_benign U); [done|by intros v; destruct later|]. intros b1 Hi1 Hr1 Ho1 Ht1 Hq1 _ Hev1.
    do 2 wp_step. wp_step.
    set (v1 := set_res (if later then i16 (Z.lor (ev_res (evs b !!! e)) res) else i16 res) (evs b !!! e)).
    assert (Hev1' : evs b1 !!! e = v1) by (rewrite Hev1; unfold v1; by destruct later). clear Hev1.
    apply wp_continue. intros b2 Hq2 Hk2 Hc2.
    pose proof (quiet_inv _ _ Hq2 Hi1) as Hi2. wp_step.
    set (v2 := if has (ev_events (evs b !!! e)) EV_SIGNAL then set_calls n false v1 else v1).
    assert (Hsig : ∀ b3, inv b3 → rest b2 b3 → only e b2 b3 → tms b3 = tms b2 → qs b3 = qs b2 →
              evs b3 !!! e = v2 →
              wp (_ ← event_callback_activate_nolock_ e; mret tt) Q b3).
    { intros b3 Hi3 Hr3 Ho3 Ht3 Hq3 Hev3.
      assert (Hfl : ∀ m, fl (evs b3 !!! e) m = fl (evs b !!! e) m).
      { intros m. rewrite Hev3. unfold v2, v1. by destruct (has _ EV_SIGNAL), later. }
      wp_step. apply wp_callback_activate; [done|done|by rewrite Hfl|].
      intros b4 Hi4 [A4 O4 C4 T4 Q4 K4 L4]. wp_step. apply HQ2; [done|done|]. rewrite Hfl, Ea in Q4.
      assert (Hpri : ev_pri (evs b3 !!! e) = ev_pri (evs b !!! e)).
      { rewrite Hev3. unfold v2, v1. by destruct (has _ EV_SIGNAL), later. }
      assert (Hqs : qs b3 = qs b) by (by rewrite Hq3, (qt_qs _ _ Hq2), Hq1).
      pose proof (qt_api _ _ Hq2). split.
      - eauto 10 using api_trans, rest_api.
      - eauto 10 using only_trans, quiet_only.
      - rewrite C4, Hev3. unfold activated. by rewrite Ea.
      - by rewrite T4, Ht3, (qt_tms _ _ Hq2), Ht1.
      - rewrite Ea. destruct Q4 as (l & Hl & Hl'). rewrite Hpri, Hqs in Hl, Hl'. by exists l.
      - by rewrite K4, (rs_clk _ _ Hr3), Hk2, (rs_clk _ _ Hr1).
      - rewrite Ea. cbn [negb andb].
        by rewrite L4, (rs_lp _ _ Hr3), Hc2, (rs_lp _ _ Hr1). }
    destruct (has (ev_events (evs b !!! e)) EV_SIGNAL) eqn:Es; cbn [when].
    + apply (wp_upd_benign U); [done|done|]. intros b3 Hi3 Hr3 Ho3 Ht3 Hq3 _ Hev3.
      apply Hsig; try done. rewrite Hev3, (qt_evs _ _ Hq2), Hev1'. done.
    + wp_step. apply Hsig; try done. by rewrite (qt_evs _ _ Hq2), Hev1'.
Qed.
End ops.

Arguments af_cfg {M b b'}. Arguments af_nq {M b b'}. Arguments af_ctl {M b b'}.
Arguments af_virt {M b b'}. Arguments af_loop {M b b'}. Arguments af_need {M b b'}.
Arguments af_fn {M b b'}. Arguments af_cache {M b b'}.
Arguments qt_evs {M b b'}. Arguments qt_qs {M b b'}. Arguments qt_tms {M b b'}.
Arguments qt_map {M b b'}. Arguments qt_cnt {M b b'}. Arguments qt_api {M b b'}.
