(* ===== verification/EventAdd.v ===== *)
(** [event_add_nolock_]: the invariant and the effect on the event. *)
From S2P Require Import Prelude Timeval MinHeap EventDefs EventApi EventInv EventQueue EventOps.

(** The time [gettime] reports. *)
Definition now_of {CK : Clock} (c : clock) : timeval :=
  if negb (tv_sec (tv_cache c) =? 0) then tv_cache c else default (TV 0 0) (clock_now (tick c)).

Section add.
Context {M : Type} {EO : EvmapOps M} {EL : EvmapLaws M} {CK : Clock} {CL : ClockLaws} {RA : Realloc}.
Abbreviation base := (event_base M).
Context (U : list evid) (U_nodup : NoDup U) (U_small : zlen U < 2 ^ 31).
Abbreviation inv := (core_inv U).

(** ** The descriptor part *)

Lemma map_ok_add (s : store) (m m' : M) e w :
  map_ok s m → em_inv m' (λ x, ev_events (s !!! x)) →
  ev_events w = ev_events (s !!! e) → ev_fd w = ev_fd (s !!! e) → fl w EVLIST_INSERTED = true →
  (∀ fd x, x ≠ e → em_io m' fd x ↔ em_io m fd x) →
  (∀ fd, em_io m' fd e ↔ has (ev_events w) EV_IO = true ∧ fd = ev_fd w ∧ 0 <= fd) →
  (∀ g x, x ≠ e → em_sig m' g x ↔ em_sig m g x) →
  (∀ g, em_sig m' g e ↔ has (ev_events w) EV_IO = false ∧ g = ev_fd w) →
  map_ok (<[e := w]> s) m'.
Proof.
  intros [Hi Hio Hsig] Hi' Hev Hfd Hf H1 H2 H3 H4. split.
  - eapply em_inv_ext; [|done]. intros x fd _. by apply (view_insert ev_events).
  - intros fd x. destruct (decide (x = e)) as [->|Hne].
    + rewrite lookup_total_insert_eq, Hf, H2. tauto.
    + rewrite lookup_total_insert_ne, H1 by done. apply Hio.
  - intros g x. destruct (decide (x = e)) as [->|Hne].
    + rewrite lookup_total_insert_eq, Hf, H4. tauto.
    + rewrite lookup_total_insert_ne, H3 by done. apply Hsig.
Qed.

Lemma map_ok_same (s : store) (m m' : M) :
  map_ok s m → em_inv m' (λ x, ev_events (s !!! x)) →
  (∀ fd x, em_io m' fd x ↔ em_io m fd x) → (∀ g x, em_sig m' g x ↔ em_sig m g x) → map_ok s m'.
Proof.
  intros [Hi Hio Hsig] Hi' H1 H2. split; [done|..]; intros.
  - by rewrite H1, Hio.
  - by rewrite H2, Hsig.
Qed.

Lemma inv_set_map (b : base) m : inv b → map_ok (evs b) m → inv (set_map m b).
Proof. intros [] ?. by split. Qed.

(** Whether [event_add_nolock_] adds the event to the map. *)
Definition wants_map (v : event) : bool :=
  has (ev_events v) (Z.lor EV_IO EV_SIGNAL) &&
  negb (has (ev_flags v) (Z.lor EVLIST_INSERTED (Z.lor EVLIST_ACTIVE EVLIST_ACTIVE_LATER))).
Lemma wants_map_fresh v : wants_map v = true → fl v EVLIST_INSERTED = false.
Proof.
  unfold wants_map, fl. rewrite !has_lor_r. intros [_ H]%andb_true_iff.
  by destruct (has (ev_flags v) EVLIST_INSERTED).
Qed.
Definition inserted (v : event) : event := if wants_map v then set_flag EVLIST_INSERTED v else v.

Lemma evmap_add_ok (b : base) e :
  inv b → wants_map (evs b !!! e) = true →
  ∃ m r, evmap_add e b = Some (r, set_map m b) ∧ (r = -1 ∨ r = 0 ∨ r = 1) ∧
    map_ok (if r =? -1 then evs b else <[e := set_flag EVLIST_INSERTED (evs b !!! e)]> (evs b)) m.
Proof.
  intros Hi Hw. pose proof (wants_map_fresh _ Hw) as Hf. pose proof (ci_map Hi) as Hm.
  pose proof Hm as [Hmi Hio Hsig].
  assert (Hnio : ∀ fd, ¬ em_io (evmap b) fd e) by (intros fd [? _]%Hio; congruence).
  assert (Hnsig : ∀ g, ¬ em_sig (evmap b) g e) by (intros g [? _]%Hsig; congruence).
  unfold evmap_add, mbind, prog_bind, get_state, the_event.
  destruct (has (ev_events (evs b !!! e)) EV_IO) eqn:Eio.
  - destruct (em_io_add _ (λ x, ev_events (evs b !!! x)) (ev_fd (evs b !!! e)) _ Hmi Hnio Eio)
      as (m & r & Ea & Hi' & Hr & H1 & H2). rewrite Ea. cbn [deref].
    exists m, r. split; [done|]. split; [done|].
    destruct (Z.eqb_spec r (-1)) as [->|Hne].
    + eapply map_ok_same; [done|done|intros fd x|done]. rewrite H1. split; [by intros [?|[? _]]|auto].
    + eapply map_ok_add; try done; [by fl_simpl|..].
      * intros fd x Hx. rewrite H1. split; [intros [?|(_ & _ & _ & ?)]; done|auto].
      * intros fd. rewrite H1. split.
        -- intros [H|(_ & ? & -> & _)]; [by apply Hnio in H|done].
        -- intros (_ & -> & ?). auto.
      * intros g. rewrite H2. split; [by intros ?%Hnsig|]. intros [H _].
        change (has (ev_events (evs b !!! e)) EV_IO = false) in H. congruence.
  - assert (Hs : has (ev_events (evs b !!! e)) EV_SIGNAL = true).
    { unfold wants_map in Hw. rewrite has_lor_r, Eio in Hw. by apply andb_true_iff in Hw as [? _]. }
    rewrite Hs. destruct (evmap_signal_add_ _ _ _) as [m r] eqn:Ea.
    destruct (em_sig_add _ (λ x, ev_events (evs b !!! x)) _ _ _ _ Hmi Hnsig Ea) as (Hi' & Hr & H1 & H2).
    exists m, r. split; [done|]. split; [done|].
    destruct (Z.eqb_spec r (-1)) as [->|Hne].
    + eapply map_ok_same; [done|done|done|intros g x]. rewrite H2. split; [by intros [?|[? _]]|auto].
    + eapply map_ok_add; try done; [by fl_simpl|..].
      * intros fd. rewrite H1. split; [by intros ?%Hnio|]. intros [H _].
        change (has (ev_events (evs b !!! e)) EV_IO = true) in H. congruence.
      * intros g x Hx. rewrite H2. split; [intros [?|(_ & _ & ?)]; done|auto].
      * intros g. rewrite H2. split.
        -- intros [H|(_ & -> & _)]; [by apply Hnsig in H|done].
        -- intros [_ ->]. auto.
Qed.

Lemma wp_add_inserted e b (Q : Z * bool → base → Prop) :
  inv b → e ∈ U →
  (∀ b' r n, inv b' → api_frame b b' → only e b b' → tms b' = tms b → qs b' = qs b →
     clk b' = clk b → lp b' = lp b →
     (r = -1 ∧ wants_map (evs b !!! e) = true ∧ evs b' = evs b ∨
      r = 0 ∧ evs b' !!! e = inserted (evs b !!! e)) →
     Q (r, n) b') →
  wp (add_inserted e) Q b.
Proof.
  intros Hi HU HQ. unfold add_inserted, get_event, the_event. do 2 wp_step.
  fold (wants_map (evs b !!! e)). unfold inserted in HQ.
  destruct (wants_map (evs b !!! e)) eqn:Ew; [|wp_step; apply HQ; try done; by right].
  destruct (evmap_add_ok b e Hi Ew) as (m & r & Ha & Hr & Hm).
  wp_step. unfold wp at 1. rewrite Ha. wp_step.
  destruct (Z.eqb_spec r (-1)) as [->|Hne]; cbn [negb when].
  - wp_step. wp_step. apply HQ; try done; [by apply inv_set_map|by left].
  - unfold event_queue_insert_inserted, INCR_EVENT_COUNT, upd_event, get_event, the_event.
    pose proof (wants_map_fresh _ Ew) as Hf. unfold fl in Hf.
    repeat wp_step; [cbn [set_map evs]; by rewrite Hf|].
    match goal with |- Q _ ?st => set (bf := st) end.
    assert (Hr0 : ∃ n, (if r =? 1 then (0, true) else (r, false)) = (0, n)).
    { destruct (Z.eqb_spec r 1); [by exists true|]. exists false. f_equal. lia. }
    destruct Hr0 as [n ->]. unfold bf. apply HQ; try done.
    + apply (inv_map_change U b e m (set_flag EVLIST_INSERTED (evs b !!! e))); try done;
        unfold act_view, timer_view; fl_simpl; try done; [apply (ci_flags Hi)|].
      apply (cnt_set_timer U U_nodup (evs b) _ (cnt b) e EVLIST_INSERTED);
        [apply (ci_cnt Hi)|done|by right|done|apply core_insert].
    + eapply only_insert. reflexivity.
    + right. split; [done|]. apply lookup_total_insert_eq.
Qed.

(** ** The full invariant *)

(** The event that fires for a list of common timeouts. *)
Record timer_event_ok (i : Z) (v : event) : Prop := {
  te_events : ev_events v = 0;
  te_closure : ev_closure v = EV_CLOSURE_EVENT;
  te_callback : ev_callback v = CbCommonTimeout (Z.to_nat i);
  te_base : ev_has_base v = true;
  te_plain : fl v EVLIST_TIMEOUT = true → plain_tv (ev_timeout v)
}.
Definition ctl_ok (b : base) : Prop := ∀ i c,
  zget (common_timeout_queues (tms b)) i = Some c →
  timeout_event c ∈ U ∧ timer_event_ok i (evs b !!! timeout_event c).
(** Events other than those. *)
Definition user_event (b : base) (e : evid) : Prop := ∀ i c,
  zget (common_timeout_queues (tms b)) i = Some c → timeout_event c ≠ e.

(** The period of a persistent event belongs to the same common timeout as its
    due time. *)
Definition period_ok (n : Z) (v : event) : Prop :=
  ev_closure v = EV_CLOSURE_EVENT_PERSIST → ev_io_timeout v ≠ TV 0 0 →
  is_same_common_timeout (ev_timeout v) (ev_io_timeout v) = true ∧
  good_tv n (ev_timeout v) ∧ good_tv n (ev_io_timeout v).

(** The flags that a closure relies on when it runs. *)
Definition closure_ok (v : event) : Prop :=
  match ev_closure v with
  | EV_CLOSURE_CB_SELF => True
  | EV_CLOSURE_CB_FINALIZE => fl v EVLIST_FINALIZING = true
  | EV_CLOSURE_EVENT_FINALIZE | EV_CLOSURE_EVENT_FINALIZE_FREE =>
      fl v EVLIST_INIT = true ∧ fl v EVLIST_FINALIZING = true
  | _ => fl v EVLIST_INIT = true
  end.
(** Only lists of the base are named by internal callbacks. *)
Fixpoint callback_ok (n : Z) (cb : callback) : Prop :=
  match cb with
  | CbCommonTimeout i => Z.of_nat i < n
  | CbOnce cb => callback_ok n cb
  | CbUser _ | CbLoopexit => True
  end.
(** [event_del_nolock_] can take a timer or an active event away. *)
Record event_ok (n : Z) (v : event) : Prop := {
  eo_period : period_ok n v;
  eo_timer : fl v EVLIST_TIMEOUT = true →
    ev_has_base v = true ∧ fl v EVLIST_INIT = true ∧ fl v EVLIST_FINALIZING = false;
  eo_queued : fl v EVLIST_QUEUED = true → fl v EVLIST_INIT = true → ev_has_base v = true;
  eo_inserted : fl v EVLIST_INSERTED = true →
    ev_has_base v = true ∧ has (ev_events v) (Z.lor EV_IO EV_SIGNAL) = true;
  eo_closure : closure_ok v;
  eo_callback : callback_ok n (ev_callback v)
}.

Record base_inv (b : base) : Prop := {
  bv_core : inv b;
  bv_cache : cache_ok b;
  bv_ctl : ctl_ok b;
  bv_nq : nactivequeues b <= 256;
  bv_event e : event_ok (n_common_timeouts b) (evs b !!! e)
}.

(** The lists keep their timer events. *)
Lemma ctl_skeleton (b b' : base) i c' :
  ctl_frame (tms b') = ctl_frame (tms b) →
  zget (common_timeout_queues (tms b')) i = Some c' →
  ∃ c, zget (common_timeout_queues (tms b)) i = Some c ∧ timeout_event c = timeout_event c' ∧
       duration c = duration c'.
Proof.
  unfold ctl_frame. intros Hf Hg. pose proof (zget_Some_range _ _ _ Hg).
  rewrite zget_nonneg in Hg by lia.
  assert (Hm : ((λ c, (duration c, timeout_event c)) <$> common_timeout_queues (tms b')) !! Z.to_nat i =
               Some (duration c', timeout_event c')) by (by rewrite list_lookup_fmap, Hg).
  rewrite Hf, list_lookup_fmap in Hm. apply fmap_Some in Hm as (c & Hc & [= -> ->]).
  exists c. rewrite zget_nonneg by lia. done.
Qed.
Lemma user_event_frame (b b' : base) e : ctl_frame (tms b') = ctl_frame (tms b) → user_event b e → user_event b' e.
Proof. intros Hf Hu i c' Hc. destruct (ctl_skeleton _ _ _ _ Hf Hc) as (c & Hg & <- & _). by eapply Hu. Qed.

Lemma timer_event_core i v w : core v = core w → timer_event_ok i w → timer_event_ok i v.
Proof.
  intros Hc [H1 H2 H3 H4 H5].
  destruct (core_fields _ _ Hc) as (Hb & _ & _ & Hcl & Hcb & _ & He & _ & Ht & _).
  split; rewrite ?He, ?Hcl, ?Hcb, ?Hb, ?Ht; try done. by rewrite (core_fl _ _ _ Hc).
Qed.
Lemma event_core n v w : core v = core w → event_ok n w → event_ok n v.
Proof.
  intros Hc [H1 H2 H3 H4 H5 H6].
  destruct (core_fields _ _ Hc) as (Hb & _ & _ & Hcl & Hcb & _ & He & _ & Ht & Hio & _).
  split; unfold period_ok, closure_ok in *; by rewrite ?(core_fl _ _ _ Hc), ?Hb, ?Hcl, ?Hcb, ?Ht, ?Hio, ?He.
Qed.

(** The full invariant after a change of one event. *)
Lemma base_inv_upd (b b' : base) e :
  base_inv b → inv b' → api_frame b b' → only e b b' →
  (user_event b e ∨ ∀ i, timer_event_ok i (evs b !!! e) → timer_event_ok i (evs b' !!! e)) →
  event_ok (n_common_timeouts b) (evs b' !!! e) →
  base_inv b'.
Proof.
  intros [Hc Hk Ht Hnq Hp] Hi' Ha Ho Hte Hpe. split; [done|by eapply api_cache| |by rewrite (af_nq Ha)|].
  - intros i c' Hc'. destruct (ctl_skeleton _ _ _ _ (af_ctl Ha) Hc') as (c & Hg & <- & _).
    destruct (Ht i c Hg) as [HU Hok]. split; [done|].
    destruct (decide (timeout_event c = e)) as [<-|Hne].
    { destruct Hte as [Hu|Hte]; [by destruct (Hu _ _ Hg)|by apply Hte]. }
    by eapply timer_event_core; [apply Ho|].
  - rewrite (n_common_api U _ _ Ha). intros x. destruct (decide (x = e)) as [->|Hne]; [done|].
    by eapply event_core; [apply Ho|].
Qed.

(** Most changes of an event keep the last two conditions. *)
Lemma timer_event_mono i v w :
  ev_events w = ev_events v → ev_closure w = ev_closure v → ev_callback w = ev_callback v →
  ev_has_base w = ev_has_base v → ev_timeout w = ev_timeout v →
  (fl w EVLIST_TIMEOUT = true → fl v EVLIST_TIMEOUT = true) →
  timer_event_ok i v → timer_event_ok i w.
Proof. intros H1 H2 H3 H4 H5 H6 []. split; rewrite ?H1, ?H2, ?H3, ?H4, ?H5; auto. Qed.
Lemma event_mono_period n v w :
  period_ok n w → ev_closure w = ev_closure v → ev_callback w = ev_callback v →
  ev_has_base w = ev_has_base v → ev_events w = ev_events v → fl w EVLIST_INIT = fl v EVLIST_INIT →
  fl w EVLIST_FINALIZING = fl v EVLIST_FINALIZING →
  (fl w EVLIST_TIMEOUT = true → fl v EVLIST_TIMEOUT = true) →
  (fl w EVLIST_QUEUED = true → fl v EVLIST_INIT = true → fl v EVLIST_QUEUED = true ∨ ev_has_base v = true) →
  (fl w EVLIST_INSERTED = true → fl v EVLIST_INSERTED = true ∨
     ev_has_base v = true ∧ has (ev_events v) (Z.lor EV_IO EV_SIGNAL) = true) →
  event_ok n v → event_ok n w.
Proof.
  intros Hp H1 Hcb H4 He H5 H6 H7 H8 H9 [_ T Q I C CB].
  split; [done|..]; unfold closure_ok in *; rewrite ?H1, ?Hcb, ?H4, ?He, ?H5, ?H6; auto.
  - intros Hq Hi. destruct (H8 Hq Hi); auto.
  - intros Hi. destruct (H9 Hi); auto.
Qed.
Lemma event_mono n v w :
  ev_closure w = ev_closure v → ev_callback w = ev_callback v → ev_timeout w = ev_timeout v → ev_io_timeout w = ev_io_timeout v →
  ev_has_base w = ev_has_base v → ev_events w = ev_events v → fl w EVLIST_INIT = fl v EVLIST_INIT →
  fl w EVLIST_FINALIZING = fl v EVLIST_FINALIZING →
  (fl w EVLIST_TIMEOUT = true → fl v EVLIST_TIMEOUT = true) →
  (fl w EVLIST_QUEUED = true → fl v EVLIST_INIT = true → fl v EVLIST_QUEUED = true ∨ ev_has_base v = true) →
  (fl w EVLIST_INSERTED = true → fl v EVLIST_INSERTED = true ∨
     ev_has_base v = true ∧ has (ev_events v) (Z.lor EV_IO EV_SIGNAL) = true) →
  event_ok n v → event_ok n w.
Proof.
  intros H1 Hcb H2 H3 H4 He H5 H6 H7 H8 H9 Hv. eapply event_mono_period; [|done..].
  unfold period_ok. rewrite H1, H2, H3. apply Hv.
Qed.

(** ** Due times *)

Lemma lor_common i w : 0 <= w < 2 ^ 20 → 0 <= i < 256 → Z.lor w (common_usec i 0) = common_usec i w.
Proof.
  intros Hw Hi. destruct (common_usec_bits i w Hw Hi) as (H1 & _ & _ & H4).
  rewrite <-(Z.lor_ldiff_and (common_usec i w) MICROSECONDS_MASK).
  by rewrite Z.ldiff_land, H4, H1, Z.lor_comm.
Qed.

Lemma plain_small tv : plain_tv tv → small_usec tv.
Proof. unfold plain_tv, small_usec. lia. Qed.
Lemma plain_usec tv : plain_tv tv → 0 <= tv_usec tv <= 1000000.
Proof. by intros []. Qed.
Lemma norm_usec tv : tv_norm tv → 0 <= tv_usec tv <= 1000000.
Proof. unfold tv_norm. lia. Qed.
Lemma timeradd_plain now tv :
  0 <= tv_usec now <= 1000000 → plain_tv tv → plain_tv (evutil_timeradd now tv).
Proof.
  intros Hn Hp. split; [|apply timeradd_sec_range]. rewrite timeradd_usec; [|unfold small_usec; lia|by apply plain_small].
  unfold plain_tv in Hp. destruct (Z.leb_spec 1000000 (tv_usec now + tv_usec tv)); lia.
Qed.

Lemma due_time_ok now tv n ab :
  tv_norm now → good_tv n tv → n <= 256 →
  let d := due_time now tv ab (is_common_timeout tv n) in
  good_tv n d ∧ is_same_common_timeout d tv = true ∧ (plain_tv tv → plain_tv d) ∧
  (∀ i, 0 <= i < n → common_tv i tv → common_tv i d) ∧
  is_common_timeout d n = is_common_timeout tv n.
Proof.
  intros Hnow Hg Hn d.
  assert (Hmain : (plain_tv tv → plain_tv d) ∧ (∀ i, 0 <= i < n → common_tv i tv → common_tv i d)).
  { split.
    - intros Hp. unfold d, due_time. destruct ab; [done|].
      destruct (plain_tv_spec tv n Hp) as (-> & _). by apply timeradd_plain; [apply norm_usec|].
    - intros i Hi Hc. unfold d, due_time. destruct ab; [done|].
      destruct (common_tv_spec i tv n Hc Hi Hn) as (-> & _ & Hm & Hp).
      pose proof (timeradd_plain now (mask_usec tv) (norm_usec _ Hnow) Hp) as [Hpl Hsl].
      eexists. split; [exact Hpl|]. split; [|exact Hsl]. simpl. rewrite Hm. apply lor_common; lia. }
  destruct Hmain as [H1 H2].
  destruct Hg as [Hp|(i & Hi & Hc)].
  - specialize (H1 Hp). split; [by left|].
    destruct (plain_tv_spec tv n Hp) as (-> & E1 & _), (plain_tv_spec d n H1) as (-> & E2 & _).
    split; [|done]. unfold is_same_common_timeout. by rewrite E1, E2.
  - specialize (H2 i Hi Hc) as Hd. split; [right; by exists i|].
    split; [by eapply common_same|].
    destruct (common_tv_spec i tv n Hc Hi Hn) as (-> & _), (common_tv_spec i d n Hd Hi Hn) as (-> & _).
    done.
Qed.

(** ** The timeout part *)

Definition persisted (tv : timeval) (ab : bool) (v : event) : event :=
  if bool_decide (ev_closure v = EV_CLOSURE_EVENT_PERSIST) && negb ab then set_io_timeout tv v else v.
(** An event that was active because of its timeout no longer is. *)
Definition unexpired (v : event) : event :=
  if fl v EVLIST_ACTIVE && has (ev_res v) EV_TIMEOUT then clear_flag EVLIST_ACTIVE v else v.
(** The event that [add_timeout] leaves behind. *)
Definition timed (now tv : timeval) (ab common : bool) (v : event) : event :=
  set_flag EVLIST_TIMEOUT
    (set_timeout (due_time now tv ab common)
       (unexpired (clear_flag EVLIST_TIMEOUT (persisted tv ab v)))).

Lemma gettime_now_of (b b' : base) now : gettime b = Some (Some now, b') → now = now_of (clk b).
Proof.
  unfold gettime, mbind, prog_bind, get_state, now_of.
  destruct (negb _); [by intros [= <- _]|]. destruct (clock_now _); [|done].
  destruct (_ <? _); by intros [= <- _].
Qed.

Lemma wp_timer_notify e now notify (b : base) (Q : bool → base → Prop) :
  inv b → (∀ r, Q r b) → wp (timer_notify e now notify) Q b.
Proof.
  intros Hi HQ. unfold timer_notify. do 2 wp_step.
  destruct (min_heap_elt_is_top_ _ _); [by wp_step|]. wp_step.
  pose proof (hw_slots _ _ (to_heap _ _ (ci_tm Hi))) as Hs.
  assert (∃ t, min_heap_top_ (timeheap (tms b)) = Some t) as [t Ht].
  { unfold min_heap_top_. destruct (Z.eqb_spec (hn (timeheap (tms b))) 0); [by eexists|].
    pose proof (so_cap _ _ _ _ Hs). destruct (so_fwd _ _ _ _ Hs 0) as (x & -> & _); [lia|]. by eexists. }
  eapply wp_deref; [done|]. destruct t; by wp_step.
Qed.

(** [x] is [v] with other timeouts and without some of the flags in [m]. *)
Lemma wp_unexpire e (b : base) (Q : unit → base → Prop) :
  inv b →
  (∀ b', inv b' → api_frame b b' → only e b b' → tms b' = tms b → clk b' = clk b →
     core (evs b' !!! e) = core (unexpired (evs b !!! e)) → Q tt b') →
  wp (when (fl (evs b !!! e) EVLIST_ACTIVE && has (ev_res (evs b !!! e)) EV_TIMEOUT)
        (_ ← when (has (ev_events (evs b !!! e)) EV_SIGNAL) (abort_signal_loop e);
         event_queue_remove_active e)) Q b.
Proof.
  intros Hi HQ. unfold unexpired in HQ.
  destruct (fl (evs b !!! e) EVLIST_ACTIVE && _) eqn:E; cbn [when].
  - apply andb_true_iff in E as [Ea _]. wp_step. apply wp_when_abort. intros b1 Hq1 Hk1.
    pose proof (qt_evs Hq1) as Hev.
    apply (wp_remove_active U U_nodup); [by eapply quiet_inv|by rewrite Hev|].
    intros b2 Hi2 Hr2 Ho2 Ht2 Hc2 _. apply HQ; try done.
    + eapply api_trans; [apply Hq1|by apply rest_api].
    + eapply only_trans; [by apply quiet_only|done].
    + by rewrite Ht2, (qt_tms Hq1).
    + by rewrite (rs_clk _ _ Hr2).
    + by rewrite Hc2, Hev.
  - wp_step. by apply HQ.
Qed.

Lemma timed_same now tv ab c v :
  ev_has_base (timed now tv ab c v) = ev_has_base v ∧ ev_events (timed now tv ab c v) = ev_events v ∧
  ev_closure (timed now tv ab c v) = ev_closure v ∧ ev_callback (timed now tv ab c v) = ev_callback v ∧
  ev_timeout (timed now tv ab c v) = due_time now tv ab c ∧
  ev_io_timeout (timed now tv ab c v) =
    (if bool_decide (ev_closure v = EV_CLOSURE_EVENT_PERSIST) && negb ab then tv else ev_io_timeout v).
Proof. unfold timed, unexpired, persisted. split_and!; repeat case_match; done. Qed.

Lemma timed_period n now tv ab v :
  tv_norm now → good_tv n tv → n <= 256 → (ab = true → period_ok n (set_timeout tv v)) →
  period_ok n (timed now tv ab (is_common_timeout tv n) v).
Proof.
  intros Hnow Hg Hn Hab Hcl Hio.
  destruct (timed_same now tv ab (is_common_timeout tv n) v) as (_ & _ & Hc & _ & Ht & Hi).
  rewrite Hc in Hcl. rewrite Hi in *. rewrite Ht, bool_decide_eq_true_2 in * by done.
  destruct ab; cbn [andb negb] in *.
  - by apply Hab.
  - split_and!; [by apply due_time_ok..|done].
Qed.
(** The flags of a timed event. *)
Ltac timed_flags_simpl :=
  repeat (fl_simpl;
    match goal with
    | |- context [fl (set_timeout ?t ?v) ?m] => change (fl (set_timeout t v) m) with (fl v m)
    | |- context [fl (set_io_timeout ?t ?v) ?m] => change (fl (set_io_timeout t v) m) with (fl v m)
    end); fl_simpl.
Lemma timed_flags now tv ab c v m :
  m = EVLIST_INIT ∨ m = EVLIST_FINALIZING ∨ m = EVLIST_INSERTED → fl (timed now tv ab c v) m = fl v m.
Proof.
  intros Hm. unfold timed, unexpired, persisted.
  destruct (bool_decide _ && _), (fl _ EVLIST_ACTIVE && _); destruct Hm as [-> |[-> | ->]]; by timed_flags_simpl.
Qed.
Lemma timed_events now tv ab c v : ev_events (timed now tv ab c v) = ev_events v.
Proof. unfold timed, unexpired, persisted. by repeat case_match. Qed.
Lemma fl_queued v : fl v EVLIST_QUEUED = fl v EVLIST_ACTIVE || fl v EVLIST_ACTIVE_LATER.
Proof. unfold fl, EVLIST_QUEUED. apply has_lor_r. Qed.
Lemma timed_event_ok n now tv ab v :
  tv_norm now → good_tv n tv → n <= 256 → (ab = true → period_ok n (set_timeout tv v)) →
  ev_has_base v = true → fl v EVLIST_INIT = true → fl v EVLIST_FINALIZING = false → event_ok n v →
  event_ok n (timed now tv ab (is_common_timeout tv n) v).
Proof.
  intros Hnow Hg Hn Hab Hb Hi Hf [_ _ Hq Hin Hcl Hcb].
  destruct (timed_same now tv ab (is_common_timeout tv n) v) as (Eb & _ & Ec & Ecb & _).
  split.
  - by apply timed_period.
  - intros _. by rewrite !timed_flags, Eb by auto.
  - intros _ _. by rewrite Eb.
  - rewrite timed_flags, Eb, timed_events by auto. exact Hin.
  - unfold closure_ok in *. by rewrite Ec, !timed_flags by auto.
  - by rewrite Ecb.
Qed.
Lemma timed_timer_event i n now tv ab v :
  tv_norm now → plain_tv tv → timer_event_ok i v →
  timer_event_ok i (timed now tv ab (is_common_timeout tv n) v).
Proof.
  intros Hnow Hp [H1 H2 H3 H4 _].
  destruct (timed_same now tv ab (is_common_timeout tv n) v) as (Hb & He & Hc & Hcb & Ht & _).
  split; rewrite ?Hb, ?He, ?Hc, ?Hcb, ?Ht; try done. intros _.
  destruct (plain_tv_spec tv n Hp) as (-> & _). unfold due_time. destruct ab; [done|]. by apply timeradd_plain; [apply norm_usec|].
Qed.

Lemma set_timeout_core tv v w : core v = core w → core (set_timeout tv v) = core (set_timeout tv w).
Proof. intros H. change (set_timeout tv (core v) = set_timeout tv (core w)). by rewrite H. Qed.
Lemma unexpired_core v w : core v = core w → core (unexpired v) = core (unexpired w).
Proof.
  intros H. unfold unexpired.
  replace (fl v EVLIST_ACTIVE && has (ev_res v) EV_TIMEOUT)
    with (fl w EVLIST_ACTIVE && has (ev_res w) EV_TIMEOUT).
  - destruct (_ && _); [by apply core_clear|done].
  - change (fl (core w) EVLIST_ACTIVE && has (ev_res (core w)) EV_TIMEOUT =
            fl (core v) EVLIST_ACTIVE && has (ev_res (core v)) EV_TIMEOUT). by rewrite H.
Qed.

(** Room for [e] in the heap once it has left its old place. *)
Definition room_for (b : base) (e : evid) : Prop :=
  fl (evs b !!! e) EVLIST_TIMEOUT &&
    negb (is_common_timeout (ev_timeout (evs b !!! e)) (n_common_timeouts b)) = false →
  has_room (tms b).

(** Everything up to the insertion. *)
Lemma wp_retimed {A} e tv ab (b : base) (K : timeval → prog base A) (Q : A → base → Prop) :
  base_inv b → e ∈ U →
  (∀ now b', inv b' → api_frame b b' → only e b b' → now = now_of (clk b) → tv_norm now →
     core (evs b' !!! e) =
       core (unexpired (clear_flag EVLIST_TIMEOUT (persisted tv ab (evs b !!! e)))) →
     (room_for b e → has_room (tms b')) → wp (K now) Q b') →
  wp (v ← get_event e;
      _ ← when (bool_decide (ev_closure v = EV_CLOSURE_EVENT_PERSIST) && negb ab)
            (upd_event e (set_io_timeout tv));
      _ ← when (has (ev_flags v) EVLIST_TIMEOUT) (event_queue_remove_timeout e);
      _ ← when (has (ev_flags v) EVLIST_ACTIVE && has (ev_res v) EV_TIMEOUT)
            (_ ← when (has (ev_events v) EV_SIGNAL) (abort_signal_loop e);
             event_queue_remove_active e);
      now ← gettime_now; K now) Q b.
Proof.
  intros Hb HU HQ. pose proof (bv_core _ Hb) as Hi. unfold get_event, the_event. do 3 wp_step.
  set (v := evs b !!! e) in *.
  assert (Hper : ∀ Q1 : unit → base → Prop,
    (∀ b', inv b' → rest b b' → only e b b' → tms b' = tms b → evs b' !!! e = persisted tv ab v → Q1 tt b') →
    wp (when (bool_decide (ev_closure v = EV_CLOSURE_EVENT_PERSIST) && negb ab)
          (upd_event e (set_io_timeout tv))) Q1 b).
  { intros Q1 HQ1. unfold persisted in HQ1. destruct (_ && _); cbn [when].
    - apply (wp_upd_benign U); [done|done|]. intros. by apply HQ1.
    - wp_step. by apply HQ1. }
  apply Hper. clear Hper. intros b1 Hi1 Hr1 Ho1 Ht1 Hv1.
  assert (Hsame : ∀ m, has (ev_flags v) m = fl (evs b1 !!! e) m).
  { intros m. rewrite Hv1. unfold persisted. by destruct (_ && _). }
  assert (Hs2 : ev_timeout (evs b1 !!! e) = ev_timeout v ∧ ev_res (evs b1 !!! e) = ev_res v ∧
                ev_events (evs b1 !!! e) = ev_events v).
  { rewrite Hv1. unfold persisted. by destruct (_ && _). }
  destruct Hs2 as (Etv & Eres & Eev). rewrite !Hsame.
  wp_step. apply (wp_clear_timeout U U_nodup); [done|]. intros b2 Hi2 Hr2 Ho2 Hqs2 Hc2 Hl2 Hn2.
  assert (Hf2 : fl (evs b1 !!! e) EVLIST_ACTIVE = fl (evs b2 !!! e) EVLIST_ACTIVE).
  { rewrite (core_fl _ _ _ Hc2). by fl_simpl. }
  destruct (core_fields _ _ Hc2) as (_ & _ & _ & _ & _ & _ & Ev2 & Er2 & _).
  change (ev_events (clear_flag _ ?x)) with (ev_events x) in Ev2.
  change (ev_res (clear_flag _ ?x)) with (ev_res x) in Er2.
  rewrite Hf2, <-Eev, <-Eres, <-Ev2, <-Er2.
  wp_step. apply wp_unexpire; [done|]. intros b3 Hi3 Ha3 Ho3 Ht3 Hk3 Hc3.
  wp_step. apply wp_gettime_now; [eapply api_cache; [|apply Hb]; eauto using api_trans, rest_api|].
  intros now b4 Hq4 Hnow Hg. pose proof (gettime_now_of _ _ _ Hg) as Hg'.
  apply HQ; try done.
  - by eapply quiet_inv.
  - pose proof (qt_api Hq4). eauto 10 using api_trans, rest_api.
  - eauto 10 using only_trans, quiet_only.
  - by rewrite Hg', Hk3, (rs_clk _ _ Hr2), (rs_clk _ _ Hr1).
  - rewrite (qt_evs Hq4), Hc3, <-Hv1. by apply unexpired_core.
  - unfold room_for, has_room. fold v. rewrite (qt_tms Hq4), Ht3, Hl2, Hn2, Ht1, Etv.
    rewrite (n_common_frame U _ _ Hr1), <-(Hsame EVLIST_TIMEOUT). fold (fl v EVLIST_TIMEOUT).
    intros Hroom. clear Hn2. destruct (_ && _); [|specialize (Hroom eq_refl)]; cbn [b2z]; [|lia].
    pose proof (so_cap _ _ _ _ (hw_slots _ _ (to_heap _ _ (ci_tm Hi)))). lia.
Qed.

Lemma due_plain now tv ab n :
  tv_norm now → good_tv n tv → n <= 256 → plain_tv (due_time now tv ab (is_common_timeout tv n)) → plain_tv tv.
Proof.
  intros Hnow Hg Hn Hp. destruct (due_time_ok now tv n ab Hnow Hg Hn) as (_ & _ & _ & _ & Hc).
  destruct (plain_tv_spec _ n Hp) as (Hf & _).
  destruct (good_tv_cases n tv Hg Hn) as [[? _]|(_ & _ & ?)]; [done|congruence].
Qed.

(** What the timeout part needs from its caller. *)
Record can_time (b : base) (e : evid) (tv : timeval) (ab : bool) : Prop := {
  ct_good : good_tv (n_common_timeouts b) tv;
  ct_user : user_event b e ∨ plain_tv tv;
  ct_base : ev_has_base (evs b !!! e) = true;
  ct_init : fl (evs b !!! e) EVLIST_INIT = true;
  ct_fin : fl (evs b !!! e) EVLIST_FINALIZING = false;
  ct_abs : ab = true → period_ok (n_common_timeouts b) (set_timeout tv (evs b !!! e));
  ct_room : plain_tv tv → room_for b e
}.

(** The timeout part, up to the call of [schedule]. *)
Lemma wp_entered {A} e tv ab (b : base) (K : prog base A) (Q : A → base → Prop) now b1 :
  base_inv b → e ∈ U → can_time b e tv ab → inv b1 → api_frame b b1 → only e b b1 →
  tv_norm now →
  core (evs b1 !!! e) = core (unexpired (clear_flag EVLIST_TIMEOUT (persisted tv ab (evs b !!! e)))) →
  (room_for b e → has_room (tms b1)) →
  (∀ b2, base_inv b2 → api_frame b b2 → only e b b2 →
     core (evs b2 !!! e) =
       core (timed now tv ab (is_common_timeout tv (n_common_timeouts b)) (evs b !!! e)) → wp K Q b2) →
  wp (_ ← upd_event e (set_timeout (due_time now tv ab (is_common_timeout tv (n_common_timeouts b))));
      _ ← event_queue_insert_timeout e; K) Q b1.
Proof.
  intros Hb HU [Hg Hu Hbase Hinit Hfin Habs Hroom] Hi1 Ha1 Ho1 Hnow Hc1 Hr1 HQ.
  pose proof (to_max _ _ (ci_tm (bv_core _ Hb))) as Hmax. fold (n_common_timeouts b) in Hmax.
  set (d := due_time now tv ab (is_common_timeout tv (n_common_timeouts b))).
  set (v := evs b !!! e) in *.
  destruct (due_time_ok now tv _ ab Hnow Hg Hmax) as (Hgd & _ & _ & _ & _). fold d in Hgd.
  assert (Hidle : fl (evs b1 !!! e) EVLIST_TIMEOUT = false).
  { rewrite (core_fl _ _ _ Hc1). unfold unexpired.
    destruct (_ && _); fl_simpl; done. }
  unfold upd_event, the_event. do 2 wp_step.
  match goal with |- wp _ _ ?st => set (b2 := st) end.
  assert (Hev2 : evs b2 !!! e = set_timeout d (evs b1 !!! e)) by apply lookup_total_insert_eq.
  assert (Hn2 : n_common_timeouts b2 = n_common_timeouts b) by (by rewrite <-(n_common_api U _ _ Ha1)).
  wp_step. apply (wp_insert_timeout U U_nodup U_small); [by apply inv_retime|done|by rewrite Hev2|by rewrite Hev2, Hn2|..].
  { rewrite Hev2. intros Hp%due_plain; [|done..]. by apply room_can_push, Hr1, Hroom. }
  intros b3 Hi3 Hr3 Ho3 _ Hc3 _. rewrite Hev2 in Hc3.
  assert (Hcore : core (evs b3 !!! e) = core (timed now tv ab (is_common_timeout tv (n_common_timeouts b)) v)).
  { rewrite Hc3. apply core_set. by apply set_timeout_core. }
  assert (Ha : api_frame b b3).
  { eapply api_trans; [done|]. eapply api_trans; [|by apply rest_api]. by constructor. }
  assert (Ho : only e b b3).
  { eapply only_trans; [done|]. eapply only_trans; [|done]. by eapply only_insert. }
  apply HQ; [|done..]. eapply base_inv_upd with (e := e); [done..| |].
  - destruct Hu as [Hu|Hp]; [by left|right]. intros i Hte.
    eapply timer_event_core; [done|]. by apply timed_timer_event.
  - eapply event_core; [done|]. apply timed_event_ok; try done. apply (bv_event _ Hb).
Qed.

(** What [schedule] has to keep: it may change the timer event [t] only. *)
Definition schedule_ok (schedule : common_timeout_list → evid → prog base unit) (e : evid) (b : base) : Prop :=
  ∀ i c b1 (Q : unit → base → Prop),
    base_inv b1 → api_frame b b1 → only e b b1 → zget (common_timeout_queues (tms b1)) i = Some c →
    fl (evs b1 !!! e) EVLIST_TIMEOUT = true → common_tv i (ev_timeout (evs b1 !!! e)) →
    (∀ b2, base_inv b2 → api_frame b1 b2 → only (timeout_event c) b1 b2 → Q tt b2) →
    wp (schedule c e) Q b1.

(** Other events, apart from the timer events of the base. *)
Definition only_user (e : evid) (b b' : base) : Prop :=
  ∀ x, x ≠ e → user_event b x → core (evs b' !!! x) = core (evs b !!! x).
Lemma only_only_user e b b' : only e b b' → only_user e b b'.
Proof. intros H x Hx _. by apply H. Qed.

Lemma wp_add_timeout schedule e tv ab notify (b : base) (Q : bool → base → Prop) :
  base_inv b → e ∈ U → can_time b e tv ab →
  (is_common_timeout tv (n_common_timeouts b) = true → schedule_ok schedule e b) →
  (∀ r b', base_inv b' → api_frame b b' → only_user e b b' →
     core (evs b' !!! e) =
       core (timed (now_of (clk b)) tv ab (is_common_timeout tv (n_common_timeouts b)) (evs b !!! e)) →
     (is_common_timeout tv (n_common_timeouts b) = false → only e b b') → Q r b') →
  wp (add_timeout schedule e tv ab notify) Q b.
Proof.
  intros Hb HU Hcan Hs HQ. unfold add_timeout.
  apply wp_retimed; [done..|]. intros now b1 Hi1 Ha1 Ho1 Hnow' Hnow Hc1 Hr1. do 2 wp_step.
  rewrite (n_common_api U _ _ Ha1). eapply wp_entered; [done..|].
  intros b2 Hb2 Ha2 Ho2 Hc2. rewrite Hnow' in Hc2.
  destruct (is_common_timeout tv (n_common_timeouts b)) eqn:Ec.
  - pose proof (to_max _ _ (ci_tm (bv_core _ Hb))) as Hmax. fold (n_common_timeouts b) in Hmax.
    destruct (good_tv_cases _ _ (ct_good _ _ _ _ Hcan) Hmax) as [[_ ?]|(Hct & Hr & _)]; [congruence|].
    assert (Htv : ev_timeout (evs b2 !!! e) = due_time now tv ab true).
    { change (ev_timeout (core (evs b2 !!! e)) = due_time now tv ab true). rewrite Hc2, <-Hnow'. apply timed_same. }
    destruct (due_time_ok now tv _ ab Hnow (ct_good _ _ _ _ Hcan) Hmax) as (_ & _ & _ & Hdc & _).
    rewrite Ec in Hdc. specialize (Hdc _ Hr Hct). rewrite <-Htv in Hdc.
    destruct (common_tv_spec _ _ _ Hdc Hr Hmax) as (_ & Hidx & _).
    unfold get_event, the_event, get_ctl. do 3 wp_step. wp_step. rewrite Hidx.
    destruct (zget_in_range (common_timeout_queues (tms b2)) (COMMON_TIMEOUT_IDX tv)) as [c Hg].
    { fold (n_common_timeouts b2). by rewrite (n_common_api U _ _ Ha2). }
    wp_step. eapply wp_deref; [exact Hg|]. wp_step.
    assert (Hfin : ∀ b3, base_inv b3 → api_frame b2 b3 → only (timeout_event c) b2 b3 →
                     wp (mret notify) Q b3).
    { intros b3 Hb3 Ha3 Ho3.
      destruct (ctl_skeleton _ _ _ _ (af_ctl Ha2) Hg) as (c0 & Hg0 & Ht0 & _).
      destruct (ct_user _ _ _ _ Hcan) as [Hu|Hp]; [|destruct (plain_tv_spec tv (n_common_timeouts b) Hp); congruence].
      wp_step. apply HQ; [done|by eapply api_trans| | |done].
      - intros x Hx Hux. rewrite Ho3; [by apply Ho2|]. intros ->. by apply (Hux _ _ Hg0).
      - rewrite Ho3; [done|]. intros ->. by apply (Hu _ _ Hg0). }
    destruct (bool_decide _); cbn [when]; [|wp_step; by apply Hfin].
    eapply (Hs eq_refl); [done..| |done|done].
    rewrite (core_fl _ _ _ Hc2). unfold timed. by fl_simpl.
  - apply wp_timer_notify; [apply Hb2|]. intros r. apply HQ; try done. by apply only_only_user.
Qed.

(** ** [event_add_nolock_] *)

Lemma wp_reserve_timer e (b : base) (Q : bool → base → Prop) :
  base_inv b → e ∈ U → fl (evs b !!! e) EVLIST_TIMEOUT = false →
  Q false b →
  (∀ b', base_inv b' → api_frame b b' → evs b' = evs b → clk b' = clk b → has_room (tms b') → Q true b') →
  wp reserve_timer Q b.
Proof.
  intros Hb HU Hf HQ1 HQ2. unfold reserve_timer. do 2 wp_step.
  pose proof (bv_core _ Hb) as Hi. pose proof (ci_tm Hi) as Ht. pose proof (to_heap _ _ Ht) as Hh.
  assert (Hidle : min_heap_idx (evs b !!! e) = -1).
  { destruct (decide (min_heap_idx (evs b !!! e) = -1)) as [|Hn]; [done|].
    apply (to_mem _ _ Ht) in Hn as [? _]. congruence. }
  pose proof (heap_size_bound U U_small b e Hi HU Hidle) as Hsz.
  pose proof (so_cap _ _ _ _ (hw_slots _ _ Hh)) as Hcap.
  unfold min_heap_size_. rewrite u32_small by (change (2 ^ 31) with 2147483648 in *; lia).
  destruct (min_heap_reserve_ _ _) as [h|] eqn:Er; [|by wp_step].
  destruct (reserve_keeps _ (1 + hn (timeheap (tms b))) h _ Hh) as (Hn & Hl & Hl' & Hk); [lia|done|]. do 2 wp_step. wp_step.
  assert (Ht' : tm_ok (evs b) (Timers h (common_timeout_queues (tms b)))).
  { destruct Ht. split; try done. by eapply heap_wf_grow. }
  apply HQ2; try done.
  - destruct Hb as [[] Hk' Hc Hnq Hp]. by split.
  - unfold has_room. cbn [set_tms tms timeheap]. lia.
Qed.

(** An event after a successful [event_add_nolock_]. *)
Definition added (now : timeval) (n : Z) (tv : option timeval) (ab : bool) (v : event) : event :=
  match tv with
  | Some tv => timed now tv ab (is_common_timeout tv n) (inserted v)
  | None => inserted v
  end.

Record event_added (e : evid) (tv : option timeval) (ab : bool) (r : Z) (b b' : base) : Prop := {
  ad_api : api_frame b b';
  ad_only : only_user e b b';
  ad_plain : (∀ t, tv = Some t → is_common_timeout t (n_common_timeouts b) = false) → only e b b';
  ad_res :
    r = -1 ∧ core (evs b' !!! e) = core (evs b !!! e) ∧
      (fl (evs b !!! e) EVLIST_FINALIZING = true ∨ wants_map (evs b !!! e) = true ∨
       is_Some tv ∧ fl (evs b !!! e) EVLIST_TIMEOUT = false) ∨
    r = 0 ∧ fl (evs b !!! e) EVLIST_FINALIZING = false ∧
      core (evs b' !!! e) = core (added (now_of (clk b)) (n_common_timeouts b) tv ab (evs b !!! e))
}.

(** What [event_add_nolock_] needs from its caller when there is a timeout. *)
Record can_add (b : base) (e : evid) (tv : timeval) (ab : bool) : Prop := {
  an_good : good_tv (n_common_timeouts b) tv;
  an_user : user_event b e ∨ plain_tv tv;
  an_init : fl (evs b !!! e) EVLIST_INIT = true;
  an_abs : ab = true → period_ok (n_common_timeouts b) (set_timeout tv (evs b !!! e));
  an_room : plain_tv tv → fl (evs b !!! e) EVLIST_TIMEOUT = true → room_for b e
}.

Lemma inserted_same v :
  ev_events (inserted v) = ev_events v ∧ ev_closure (inserted v) = ev_closure v ∧
  ev_callback (inserted v) = ev_callback v ∧ ev_has_base (inserted v) = ev_has_base v ∧
  ev_timeout (inserted v) = ev_timeout v ∧ ev_io_timeout (inserted v) = ev_io_timeout v ∧
  fl (inserted v) EVLIST_TIMEOUT = fl v EVLIST_TIMEOUT ∧
  fl (inserted v) EVLIST_INIT = fl v EVLIST_INIT ∧
  fl (inserted v) EVLIST_FINALIZING = fl v EVLIST_FINALIZING ∧
  fl (inserted v) EVLIST_QUEUED = fl v EVLIST_QUEUED.
Proof. unfold inserted. destruct (wants_map v); split_and!; try done; by fl_simpl. Qed.

Lemma base_inv_inserted e (b b' : base) :
  base_inv b → ev_has_base (evs b !!! e) = true →
  inv b' → api_frame b b' → only e b b' → evs b' !!! e = inserted (evs b !!! e) →
  base_inv b'.
Proof.
  intros Hb Hbase Hi Ha Ho Hv. destruct (inserted_same (evs b !!! e)) as (H1 & H2 & H3 & H4 & H5 & H6 & H7 & H8 & H9 & H10).
  eapply base_inv_upd with (e := e); [done..| |]; rewrite Hv.
  - right. intros i. apply timer_event_mono; try done. by rewrite H7.
  - eapply event_mono; [..|apply (bv_event _ Hb e)]; try done; rewrite ?H7, ?H10; auto.
    unfold inserted. destruct (wants_map (evs b !!! e)) eqn:Ew; [|auto]. intros _. right. split; [done|].
    unfold wants_map in Ew. by apply andb_true_iff in Ew as [? _].
Qed.

Lemma can_time_inserted e tv ab (b b1 b2 : base) :
  can_add b e tv ab → ev_has_base (evs b !!! e) = true →
  api_frame b b1 → api_frame b b2 → evs b1 = evs b → tms b2 = tms b1 →
  tms b1 = tms b ∨ has_room (tms b1) →
  (fl (evs b !!! e) EVLIST_TIMEOUT = false → has_room (tms b1)) →
  fl (evs b !!! e) EVLIST_FINALIZING = false →
  evs b2 !!! e = inserted (evs b !!! e) → can_time b2 e tv ab.
Proof.
  intros [H1 H2 Hinit H3 H4] Hbase Ha1 Ha2 He1 Ht2 Hroom Hroom' Hfin Hv.
  destruct (inserted_same (evs b !!! e)) as (I1 & I2 & I3 & I4 & I5 & I6 & I7 & I8 & I9 & _).
  split.
  - by rewrite (n_common_api U _ _ Ha2).
  - destruct H2; [left; by eapply user_event_frame; [apply (af_ctl Ha2)|]|by right].
  - by rewrite Hv, I4.
  - by rewrite Hv, I8.
  - by rewrite Hv, I9.
  - intros Hab. rewrite (n_common_api U _ _ Ha2), Hv. specialize (H3 Hab).
    unfold period_ok in *. cbn [set_timeout ev_closure ev_io_timeout ev_timeout] in *. by rewrite I2, I6.
  - intros Hp. unfold room_for. rewrite (n_common_api U _ _ Ha2), Hv, I7, I5, Ht2. intros Hr.
    destruct Hroom as [Heq|]; [|done].
    destruct (fl (evs b !!! e) EVLIST_TIMEOUT) eqn:Ef; [|by apply Hroom'].
    rewrite Heq. apply H4; [done..|]. by rewrite Ef.
Qed.

(** The room in the heap is there, or was made. *)
Lemma wp_maybe_reserve e (tv : option timeval) (b : base) (Q : bool → base → Prop) :
  base_inv b → e ∈ U →
  (is_Some tv ∧ fl (evs b !!! e) EVLIST_TIMEOUT = false → Q false b) →
  (∀ b', base_inv b' → api_frame b b' → evs b' = evs b → clk b' = clk b →
     tms b' = tms b ∨ has_room (tms b') →
     (is_Some tv → fl (evs b !!! e) EVLIST_TIMEOUT = false → has_room (tms b')) → Q true b') →
  wp (if bool_decide (is_Some tv) && negb (fl (evs b !!! e) EVLIST_TIMEOUT)
      then reserve_timer else mret true) Q b.
Proof.
  intros Hb HU HQ1 HQ2. destruct (bool_decide_reflect (is_Some tv)) as [Hs|Hs]; cbn [andb].
  - destruct (fl (evs b !!! e) EVLIST_TIMEOUT) eqn:Ef; cbn [negb].
    + wp_step. apply HQ2; try done; by left.
    + eapply wp_reserve_timer; [done..|by apply HQ1|]. intros. apply HQ2; try done. by right.
  - wp_step. apply HQ2; try done; by left.
Qed.

Definition depth_schedule (depth : nat) (c : common_timeout_list) (head : evid) : prog base unit :=
  v ← get_event head;
  match depth with
  | O => deref None
  | S depth =>
      _ ← event_add_depth depth (timeout_event c) (Some (mask_usec (ev_timeout v))) true;
      mret tt
  end.

Lemma event_add_depth_eq depth e (tv : option timeval) ab :
  event_add_depth depth e tv ab =
    (v ← get_event e;
     _ ← EVUTIL_ASSERT (negb (has (ev_flags v) (Z.lnot EVLIST_ALL)));
     if has (ev_flags v) EVLIST_FINALIZING then mret (-1)
     else
       ok ← (if bool_decide (is_Some tv) && negb (has (ev_flags v) EVLIST_TIMEOUT)
             then reserve_timer else mret true);
       if negb ok then mret (-1)
       else
         '(res, notify) ← add_inserted e;
         notify ←
           (match tv with
            | Some tv =>
                if negb (res =? -1) then add_timeout (depth_schedule depth) e tv ab notify
                else mret notify
            | None => mret notify
            end);
         _ ← maybe_notify (negb (res =? -1) && notify);
         mret res : prog base Z).
Proof. by destruct depth. Qed.

Definition add_fails (tv : option timeval) (v : event) : Prop :=
  fl v EVLIST_FINALIZING = true ∨ wants_map v = true ∨ is_Some tv ∧ fl v EVLIST_TIMEOUT = false.

(** After the descriptor part succeeded. *)
Lemma wp_add_rest depth e tv ab n (b b2 : base) (Q : Z → base → Prop) :
  e ∈ U → base_inv b2 → fl (evs b !!! e) EVLIST_FINALIZING = false →
  api_frame b b2 → only e b b2 → clk b2 = clk b → evs b2 !!! e = inserted (evs b !!! e) →
  (∀ t, tv = Some t → can_time b2 e t ab) →
  (∀ t, tv = Some t → is_common_timeout t (n_common_timeouts b2) = true →
     schedule_ok (depth_schedule depth) e b2) →
  (∀ b' r, base_inv b' → event_added e tv ab r b b' → Q r b') →
  wp (notify ← (match tv with
       | Some tv => if negb (0 =? -1) then add_timeout (depth_schedule depth) e tv ab n else mret n
       | None => mret n
       end);
      _ ← maybe_notify (negb (0 =? -1) && notify);
      mret 0) Q b2.
Proof.
  intros HU Hb2 Hfin Ha2 Ho2 Hk2 Hv2 Hcan Hs HQ. cbn [Z.eqb negb].
  assert (Hfinish : ∀ r b3, base_inv b3 → api_frame b2 b3 → only_user e b2 b3 →
     ((∀ t, tv = Some t → is_common_timeout t (n_common_timeouts b2) = false) → only e b2 b3) →
     core (evs b3 !!! e) = core (added (now_of (clk b)) (n_common_timeouts b) tv ab (evs b !!! e)) →
     wp (_ ← maybe_notify (true && r); mret 0) Q b3).
  { intros r b3 Hb3 Ha3 Ho3 Hp3 Hc3. wp_step. apply wp_maybe_notify. intros b4 Hq4 _ _. wp_step.
    pose proof (qt_api Hq4) as Ha4.
    assert (Hall : api_frame b b4) by eauto using api_trans.
    apply HQ.
    - eapply (base_inv_upd b3 _ e); try done; [by eapply quiet_inv; [|apply Hb3]|by apply quiet_only|..];
        rewrite (qt_evs Hq4); [by right|apply (bv_event _ Hb3)].
    - split; [done|..].
      + intros x Hx Hu. rewrite (qt_evs Hq4). rewrite Ho3; [by apply Ho2|done|].
        by eapply user_event_frame; [apply (af_ctl Ha2)|].
      + rewrite <-(n_common_api U _ _ Ha2). intros Hp. specialize (Hp3 Hp).
        eauto using only_trans, quiet_only.
      + right. by rewrite (qt_evs Hq4). }
  destruct tv as [tv|].
  - wp_step. apply wp_add_timeout; [done|done|by apply Hcan|intros Hc; by eapply Hs|].
    intros r b3 Hb3 Ha3 Ho3 Hc3 Hp3. apply Hfinish; try done.
    + intros Hp. by apply Hp3, Hp.
    + rewrite Hc3, Hk2, Hv2, (n_common_api U _ _ Ha2). done.
  - do 2 wp_step. apply Hfinish; try done. by rewrite Hv2.
Qed.

Lemma wp_add_depth depth e tv ab (b : base) (Q : Z → base → Prop) :
  base_inv b → e ∈ U → ev_has_base (evs b !!! e) = true → (∀ t, tv = Some t → can_add b e t ab) →
  (∀ t, tv = Some t → is_common_timeout t (n_common_timeouts b) = true →
     ∀ b', base_inv b' → api_frame b b' → schedule_ok (depth_schedule depth) e b') →
  (∀ b' r, base_inv b' → event_added e tv ab r b b' → Q r b') →
  wp (event_add_depth depth e tv ab) Q b.
Proof.
  intros Hb HU Hbase Hcan Hs HQ. rewrite event_add_depth_eq.
  assert (Hfail : ∀ b' , base_inv b' → api_frame b b' → evs b' = evs b →
     add_fails tv (evs b !!! e) → Q (-1) b').
  { intros b' Hb' Ha He Hwhy. assert (only e b b') by (intros x _; by rewrite He).
    apply HQ; [done|]. split; [done|by apply only_only_user|done|left; by rewrite He]. }
  unfold get_event at 1. unfold the_event at 1. do 2 wp_step.
  wp_step; wp_step; [apply negb_true_iff, (ci_flags (bv_core _ Hb))|].
  fold (fl (evs b !!! e) EVLIST_FINALIZING). fold (fl (evs b !!! e) EVLIST_TIMEOUT).
  destruct (fl (evs b !!! e) EVLIST_FINALIZING) eqn:Efin.
  { wp_step. apply Hfail; try done. by left. }
  wp_step. apply (wp_maybe_reserve e tv b); [done..| |].
  { intros Hw. cbn [negb]. wp_step. apply Hfail; try done. right. by right. }
  intros b1 Hb1 Ha1 He1 Hk1 Hr1 Hr1'. cbn [negb]. wp_step.
  apply (wp_add_inserted); [apply Hb1|done|].
  intros b2 r n Hi2 Ha2 Ho2 Ht2 Hq2 Hk2 _ Hres. rewrite He1 in Hres.
  assert (Ha : api_frame b b2) by eauto using api_trans.
  assert (Ho : only e b b2) by (intros x Hx; by rewrite Ho2, He1).
  destruct Hres as [(-> & Hw & Hev)|(-> & Hv)].
  - assert (Hb2 : base_inv b2).
    { eapply (base_inv_upd b1 _ e); try done; rewrite Hev, <-He1; [by right|apply (bv_event _ Hb1)]. }
    wp_step.
    assert (Hend : wp (_ ← maybe_notify (false && n); mret (-1)) Q b2).
    { wp_step. unfold maybe_notify. cbn [andb]. do 2 wp_step. cbn [andb when]. do 2 wp_step.
      apply Hfail; try done. right. by left. }
    change (-1 =? -1) with true. cbn [negb]. destruct tv; cbn [negb]; wp_step; exact Hend.
  - apply wp_add_rest with (b := b); try done.
    + eapply (base_inv_inserted e b1); try done; by rewrite He1.
    + congruence.
    + intros t ->. eapply (can_time_inserted e t ab b b1 b2); try done; [by apply Hcan|].
      intros Hf. by apply Hr1'.
    + intros t Ht. rewrite (n_common_api U _ _ Ha). intros Hc. eapply Hs; try done.
      eapply (base_inv_inserted e b1); try done; by rewrite He1.
Qed.

(** ** The whole operation *)

Lemma wp_timer_event_add c i tv (b : base) (Q : Z → base → Prop) :
  base_inv b → zget (common_timeout_queues (tms b)) i = Some c → plain_tv tv →
  (∀ b' r, base_inv b' → event_added (timeout_event c) (Some tv) true r b b' → Q r b') →
  wp (event_add_depth 0 (timeout_event c) (Some tv) true) Q b.
Proof.
  intros Hb Hg Hp HQ. destruct (bv_ctl _ Hb _ _ Hg) as [HU [H1 H2 H3 H4 H5]].
  apply wp_add_depth; [done..| | |done].
  - intros t [= <-]. split; [by left|by right| | |].
    + pose proof (eo_closure _ _ (bv_event _ Hb (timeout_event c))) as Hcl. unfold closure_ok in Hcl.
      by rewrite H2 in Hcl.
    + intros _. unfold period_ok. cbn [set_timeout ev_closure]. by rewrite H2.
    + intros _ Hf. unfold room_for. rewrite Hf.
      destruct (plain_tv_spec _ (n_common_timeouts b) (H5 Hf)) as (-> & _). done.
  - intros t [= <-] Hc. destruct (plain_tv_spec tv (n_common_timeouts b) Hp) as (? & _). congruence.
Qed.

Lemma schedule_plain e i (b : base) :
  base_inv b → 0 <= i < n_common_timeouts b → common_tv i (ev_timeout (evs b !!! e)) →
  plain_tv (mask_usec (ev_timeout (evs b !!! e))).
Proof.
  intros Hb Hi Hc. pose proof (to_max _ _ (ci_tm (bv_core _ Hb))).
  by eapply common_tv_spec; [..|done].
Qed.

Lemma wp_schedule c i e (b : base) (Q : unit → base → Prop) :
  base_inv b → zget (common_timeout_queues (tms b)) i = Some c →
  common_tv i (ev_timeout (evs b !!! e)) →
  (∀ b', base_inv b' → api_frame b b' → only (timeout_event c) b b' → Q tt b') →
  wp (common_timeout_schedule c e) Q b.
Proof.
  intros Hb Hg Hc HQ. unfold common_timeout_schedule, get_event, the_event. do 2 wp_step. wp_step.
  assert (Hp : plain_tv (mask_usec (ev_timeout (evs b !!! e)))).
  { eapply schedule_plain; [done| |done]. unfold n_common_timeouts. by apply zget_Some_range in Hg. }
  eapply wp_timer_event_add; [done..|]. intros b' r Hb' [Ha _ Ho _]. wp_step. apply HQ; [done..|].
  apply Ho. intros t [= <-]. by apply plain_tv_spec.
Qed.

Lemma schedule_1_ok e (b : base) : schedule_ok (depth_schedule 1) e b.
Proof.
  intros i c b1 Q Hb1 _ _ Hg _ Hc HQ.
  change (depth_schedule 1 c e) with (common_timeout_schedule c e). by eapply wp_schedule.
Qed.

Lemma wp_event_add_nolock e tv ab (b : base) (Q : Z → base → Prop) :
  base_inv b → e ∈ U → ev_has_base (evs b !!! e) = true → (∀ t, tv = Some t → can_add b e t ab) →
  (∀ b' r, base_inv b' → event_added e tv ab r b b' → Q r b') →
  wp (event_add_nolock_ e tv ab) Q b.
Proof.
  intros Hb HU Hbase Hcan HQ. apply wp_add_depth; [done..| |done]. intros. apply schedule_1_ok.
Qed.
End add.

Arguments bv_core {M EO EL U b}. Arguments bv_cache {M EO EL U b}. Arguments bv_ctl {M EO EL U b}.
Arguments bv_nq {M EO EL U b}. Arguments bv_event {M EO EL U b}.
Arguments ad_api {M CK e tv ab r b b'}. Arguments ad_only {M CK e tv ab r b b'}.
Arguments ad_plain {M CK e tv ab r b b'}. Arguments ad_res {M CK e tv ab r b b'}.
