(* ===== verification/EventBase.v ===== *)
(** The remaining operations of [EventApi] on the full invariant of the base:
    deletion, activation, deferred callbacks, finalization, set-up, timers. *)
From S2P Require Import Prelude Timeval MinHeap EventDefs EventApi EventInv EventQueue EventOps EventAdd.

Section base.
Context {M : Type} {EO : EvmapOps M} {EL : EvmapLaws M} {CK : Clock} {CL : ClockLaws} {RA : Realloc}.
Abbreviation base := (event_base M).
Context (U : list evid) (U_nodup : NoDup U) (U_small : zlen U < 2 ^ 31).
Abbreviation inv := (core_inv U).
Abbreviation good := (base_inv U).

(** ** Changes that the last conditions do not see *)

Record tame (v w : event) : Prop := {
  tm_events : ev_events w = ev_events v;
  tm_closure : ev_closure w = ev_closure v;
  tm_callback : ev_callback w = ev_callback v;
  tm_base : ev_has_base w = ev_has_base v;
  tm_timeout : ev_timeout w = ev_timeout v;
  tm_period : ev_io_timeout w = ev_io_timeout v;
  tm_flag : fl w EVLIST_TIMEOUT = true → fl v EVLIST_TIMEOUT = true;
  tm_init : fl w EVLIST_INIT = fl v EVLIST_INIT;
  tm_fin : fl w EVLIST_FINALIZING = fl v EVLIST_FINALIZING;
  tm_queued : fl w EVLIST_QUEUED = true → fl v EVLIST_INIT = true →
    fl v EVLIST_QUEUED = true ∨ ev_has_base v = true;
  tm_inserted : fl w EVLIST_INSERTED = true → fl v EVLIST_INSERTED = true
}.
Lemma tame_refl v : tame v v.
Proof. split; auto. Qed.
Lemma tame_trans u v w : tame u v → tame v w → tame u w.
Proof.
  intros [A1 A2 A3 A4 A5 A6 A7 A8 A9 A10 A11] [B1 B2 B3 B4 B5 B6 B7 B8 B9 B10 B11].
  split; try congruence; [auto|..].
  - intros Hq Hi. rewrite A8 in B10. destruct (B10 Hq Hi); [auto|right; congruence].
  - auto.
Qed.
(** Dropping flags of the queues and of the map. *)
Lemma tame_clear m v :
  (EVLIST_INIT &~ m)%ev = EVLIST_INIT → (EVLIST_FINALIZING &~ m)%ev = EVLIST_FINALIZING → tame v (clear_flag m v).
Proof.
  intros H1 H2. split; try done.
  - apply fl_clear_le.
  - by apply fl_clear_other.
  - by apply fl_clear_other.
  - intros H _. left. by eapply fl_clear_le.
  - apply fl_clear_le.
Qed.
Lemma tame_core v w w' : core w' = core w → tame v w → tame v w'.
Proof.
  intros Hc []. destruct (core_fields _ _ Hc) as (E1 & _ & _ & E4 & E5 & _ & E7 & _ & E9 & E10 & _).
  split; rewrite ?E1, ?E4, ?E5, ?E7, ?E9, ?E10, ?(core_fl _ _ _ Hc); done.
Qed.

Lemma good_tame (b b' : base) e :
  good b → inv b' → api_frame b b' → only e b b' → tame (evs b !!! e) (evs b' !!! e) → good b'.
Proof.
  intros Hb Hi Ha Ho []. eapply base_inv_upd with (e := e); [done..| |].
  - right. intros i. by apply timer_event_mono.
  - eapply event_mono; [..|apply (bv_event Hb e)]; auto.
Qed.
Lemma good_core (b b' : base) e w :
  good b → inv b' → api_frame b b' → only e b b' → core (evs b' !!! e) = core w →
  tame (evs b !!! e) w → good b'.
Proof. intros. eapply good_tame; [done..|]. by eapply tame_core. Qed.
Lemma good_quiet (b b' : base) : good b → quiet_step b b' → good b'.
Proof.
  intros Hb Hq. eapply (good_tame b b' 0%nat); [done|by eapply quiet_inv; [|apply Hb]|apply Hq|by apply quiet_only|].
  rewrite (qt_evs Hq). apply tame_refl.
Qed.

(** ** Deletion *)

Lemma deleted_good e (b b' : base) : good b → inv b' → deleted e b b' → good b'.
Proof.
  intros Hb Hi [Ha Ho Hc _ _]. eapply good_core; [done..|]. by apply tame_clear.
Qed.

Lemma wp_event_del e fin b (Q : Z → base → Prop) :
  good b →
  (∀ b' r, good b' → api_frame b b' → only e b b' → (r = 0 ∨ r = -1) →
     (b' = b ∨ deleted e b b') →
     (ev_has_base (evs b !!! e) = true → fin = true ∨ fl (evs b !!! e) EVLIST_FINALIZING = false →
      deleted e b b') → fl (evs b' !!! e) EVLIST_TIMEOUT = false →
     tame (evs b !!! e) (evs b' !!! e) → Q r b') →
  wp (event_del_nolock_ e fin) Q b.
Proof.
  intros Hb HQ. pose proof (eo_timer _ _ (bv_event Hb e)) as Ht.
  apply (wp_del U U_nodup); [apply Hb|..].
  - intros He. apply HQ; try done; [by right|by left|congruence| |apply tame_refl].
    destruct (fl _ EVLIST_TIMEOUT); [|done]. destruct Ht; congruence.
  - intros He Hf Hn. apply HQ; try done; [by left|by left|by intros _ [?|?]; congruence| |apply tame_refl].
    destruct (fl _ EVLIST_TIMEOUT); [|done]. destruct Ht as (_ & _ & ?); congruence.
  - intros b' r Hi Hd _ _ Hr. apply HQ; try done; [by eapply deleted_good|apply Hd|apply Hd|by right|..].
    + rewrite (core_fl _ _ _ (dl_core _ _ _ Hd)). by fl_simpl.
    + eapply tame_core; [apply (dl_core _ _ _ Hd)|by apply tame_clear].
Qed.

(** ** Activation *)

(** An event that may be activated: if set up, it belongs to the base. *)
Definition may_run (v : event) : Prop := fl v EVLIST_INIT = true → ev_has_base v = true.
Lemma made_active_tame v : may_run v → tame v (made_active v).
Proof.
  intros Hr. unfold made_active. destruct (fl v EVLIST_ACTIVE); [apply tame_refl|].
  split; try done; fl_simpl; auto.
Qed.
Lemma activated_tame r n v : may_run v → tame v (activated r n v).
Proof.
  intros Hr. unfold activated. destruct (fl v EVLIST_ACTIVE); [split; auto|].
  eapply tame_trans; [|apply made_active_tame]; destruct (has _ EV_SIGNAL); done || (split; auto).
Qed.

Lemma wp_event_active e res n b (Q : unit → base → Prop) :
  good b → e ∈ U → may_run (evs b !!! e) →
  (fl (evs b !!! e) EVLIST_FINALIZING = true → Q tt b) →
  (∀ b', fl (evs b !!! e) EVLIST_FINALIZING = false → good b' → event_activated e res n b b' → Q tt b') →
  wp (event_active_nolock_ e res n) Q b.
Proof.
  intros Hb HU Hr HQ1 HQ2. apply (wp_active U U_nodup U_small); [apply Hb|done|done|].
  intros b' Hf Hi Ha. apply HQ2; [done| |done].
  eapply good_core; [done|done|apply (ea_api _ _ _ _ _ Ha)|apply (ea_only _ _ _ _ _ Ha)|apply (ea_core _ _ _ _ _ Ha)|].
  by apply activated_tame.
Qed.

Lemma wp_callback_active e b (Q : Z → base → Prop) :
  good b → e ∈ U → may_run (evs b !!! e) →
  (∀ b' r, good b' → api_frame b b' → only e b b' →
     (fl (evs b !!! e) EVLIST_FINALIZING = false → callback_activated e b b') → Q r b') →
  wp (event_callback_activate_nolock_ e) Q b.
Proof.
  intros Hb HU Hr HQ. destruct (fl (evs b !!! e) EVLIST_FINALIZING) eqn:Ef.
  - unfold event_callback_activate_nolock_, get_event, the_event. do 2 wp_step.
    fold (fl (evs b !!! e) EVLIST_FINALIZING). rewrite Ef. wp_step. by apply HQ.
  - apply (wp_callback_activate U U_nodup U_small); [apply Hb|done|done|]. intros b' Hi Ha.
    destruct Ha as [A O C] eqn:HA. apply HQ; [|done|done|done].
    eapply good_core; [done|done|exact A|exact O|exact C|by apply made_active_tame].
Qed.

Lemma wp_callback_later e b (Q : Z → base → Prop) :
  good b → e ∈ U → may_run (evs b !!! e) →
  (∀ b' r, good b' → api_frame b b' → only e b b' → Q r b') →
  wp (event_callback_activate_later_nolock_ e) Q b.
Proof.
  intros Hb HU Hr HQ. unfold event_callback_activate_later_nolock_, get_event, the_event. do 2 wp_step.
  rewrite has_lor_r. fold (fl (evs b !!! e) EVLIST_ACTIVE). fold (fl (evs b !!! e) EVLIST_ACTIVE_LATER).
  destruct (fl (evs b !!! e) EVLIST_ACTIVE || _) eqn:E; [wp_step; by apply HQ|].
  apply orb_false_iff in E as [Ea El]. wp_step.
  apply (wp_insert_later U U_nodup U_small); [apply Hb|done..|]. intros b1 Hi1 Hr1 Ho1 Ht1 Hc1 _ _.
  wp_step. apply wp_maybe_notify. intros b2 Hq2 _ _. wp_step.
  assert (good b1).
  { eapply good_core; [done|done|by apply rest_api|done|done|]. split; try done; fl_simpl; auto. }
  apply HQ; [by eapply good_quiet|eapply api_trans; [by apply rest_api|apply Hq2]|].
  eapply only_trans; [done|by apply quiet_only].
Qed.

(** A change of an event that no part of the invariant sees. *)
Lemma wp_upd_good e f b (Q : unit → base → Prop) :
  good b → (∀ v, act_view (f v) = act_view v ∧ timer_view (f v) = timer_view v ∧
                 map_view (f v) = map_view v ∧ ev_flags (f v) = ev_flags v) →
  tame (evs b !!! e) (f (evs b !!! e)) →
  (∀ b', good b' → rest b b' → only e b b' → tms b' = tms b → qs b' = qs b →
     evs b' !!! e = f (evs b !!! e) → Q tt b') →
  wp (upd_event e f) Q b.
Proof.
  intros Hb Hf Ht HQ. apply (wp_upd_benign U); [apply Hb|done|].
  intros b' Hi Hr Ho Ht' Hq _ Hev. apply HQ; try done.
  eapply good_tame; [done|done|by apply rest_api|done|]. by rewrite Hev.
Qed.

Lemma tame_res r v : tame v (set_res r v).
Proof. split; auto. Qed.
Lemma wp_active_later e res b (Q : unit → base → Prop) :
  good b → e ∈ U → may_run (evs b !!! e) → (∀ b', good b' → api_frame b b' → only e b b' → Q tt b') →
  wp (event_active_later_nolock_ e res) Q b.
Proof.
  intros Hb HU Hr HQ. unfold event_active_later_nolock_, get_event, the_event. do 2 wp_step.
  destruct (has _ _).
  - apply wp_upd_good; [done|done|apply tame_res|]. intros b1 Hb1 Hr1 Ho1 _ _ _. apply HQ; [done|by apply rest_api|done].
  - wp_step. apply wp_upd_good; [done|done|apply tame_res|]. intros b1 Hb1 Hr1 Ho1 _ _ Hev1.
    wp_step. apply wp_callback_later; [done|done|by rewrite Hev1|]. intros b2 r Hb2 Ha2 Ho2. wp_step.
    apply HQ; [done| |by eapply only_trans]. eapply api_trans; [by apply rest_api|done].
Qed.

(** Leaving the queues of active callbacks. *)
Lemma wp_dequeue e b (Q : unit → base → Prop) :
  good b →
  (∀ b', good b' → api_frame b b' → only e b b' → tms b' = tms b →
     core (evs b' !!! e) = core (clear_flag EVLIST_QUEUED (evs b !!! e)) → Q tt b') →
  wp (if fl (evs b !!! e) EVLIST_ACTIVE then event_queue_remove_active e
      else when (fl (evs b !!! e) EVLIST_ACTIVE_LATER) (event_queue_remove_active_later e)) Q b.
Proof.
  intros Hb HQ. apply (wp_clear_active U U_nodup); [apply Hb|]. intros b' Hi Hr Ho Ht Hc.
  apply HQ; [|by apply rest_api|done..].
  eapply good_core; [done|done|by apply rest_api|done|done|]. by apply tame_clear.
Qed.

Lemma wp_cancel e fin b (Q : Z → base → Prop) :
  good b →
  (∀ b' r, good b' → api_frame b b' → only e b b' → fl (evs b' !!! e) EVLIST_TIMEOUT = false →
     tame (evs b !!! e) (evs b' !!! e) → Q r b') →
  wp (event_callback_cancel_nolock_ e fin) Q b.
Proof.
  intros Hb HQ. unfold event_callback_cancel_nolock_, get_event, the_event. do 2 wp_step.
  pose proof (eo_timer _ _ (bv_event Hb e)) as Ht.
  fold (fl (evs b !!! e) EVLIST_FINALIZING).
  destruct (fl (evs b !!! e) EVLIST_FINALIZING && _) eqn:Ef.
  { apply andb_true_iff in Ef as [Ef _]. wp_step. apply HQ; try done; [|apply tame_refl].
    destruct (fl (evs b !!! e) EVLIST_TIMEOUT); [|done]. destruct Ht as (_ & _ & ?); congruence. }
  fold (fl (evs b !!! e) EVLIST_INIT). destruct (fl (evs b !!! e) EVLIST_INIT) eqn:Ei.
  { apply wp_event_del; [done|]. intros. by apply HQ. }
  assert (Ht' : fl (evs b !!! e) EVLIST_TIMEOUT = false).
  { destruct (fl (evs b !!! e) EVLIST_TIMEOUT); [|done]. destruct Ht as (_ & ? & _); congruence. }
  fold (fl (evs b !!! e) EVLIST_ACTIVE). fold (fl (evs b !!! e) EVLIST_ACTIVE_LATER).
  pose proof (ao_excl _ _ (ci_act (bv_core Hb)) e) as Hx.
  wp_step. wp_step.
  { destruct (fl _ EVLIST_ACTIVE); [by rewrite Hx|done]. }
  wp_step.
  assert (Hd : wp (if fl (evs b !!! e) EVLIST_ACTIVE then event_queue_remove_active e
      else when (fl (evs b !!! e) EVLIST_ACTIVE_LATER) (event_queue_remove_active_later e))
      (λ _ b', Q 0 b') b).
  { apply wp_dequeue; [done|]. intros b' Hb' Ha' Ho' _ Hc'. apply HQ; [done..| |].
    - rewrite (core_fl _ _ _ Hc'). by fl_simpl.
    - eapply tame_core; [done|by apply tame_clear]. }
  destruct (fl (evs b !!! e) EVLIST_ACTIVE) eqn:Ea.
  - rewrite Hx by done. cbn [when]. eapply wp_mono; [exact Hd|]. intros [] b' H. do 3 wp_step. done.
  - cbn [when]. wp_step. wp_step. eapply wp_mono; [exact Hd|]. intros [] b' H. by wp_step.
Qed.

Lemma good_deferreds n (b : base) : good b → good (set_deferreds n b).
Proof. intros [[? ? [] ? ? ?] ? ? ? ?]. split; [split; [done|done|by split|done..]|done..]. Qed.

Lemma wp_deferred_schedule e b (Q : Z → base → Prop) :
  good b → e ∈ U → may_run (evs b !!! e) → (∀ b' r, good b' → api_frame b b' → only e b b' → Q r b') →
  wp (event_deferred_cb_schedule_ e) Q b.
Proof.
  intros Hb HU Hr HQ. unfold event_deferred_cb_schedule_. do 2 wp_step.
  destruct (_ <? _); [by apply wp_callback_later|]. wp_step.
  apply wp_callback_active; [done..|]. intros b1 r Hb1 Ha1 Ho1 _. wp_step.
  destruct (negb _); cbn [when]; do 2 wp_step; apply HQ; try done.
  - by apply good_deferreds.
  - destruct Ha1. by constructor.
Qed.

(** ** Finalization *)

(** The counters see the weights only. *)
Lemma cnt_ok_same (s : store) c e w :
  cnt_ok U s c → weight w = weight (s !!! e) → active_weight w = active_weight (s !!! e) →
  cnt_ok U (<[e := w]> s) c.
Proof.
  intros [H1 H2 H3 H4] Hw Ha. split; [| |done|done].
  - rewrite H1. symmetry. apply tally_ext. intros x _. by apply view_insert.
  - rewrite H2. symmetry. apply tally_ext. intros x _. by apply view_insert.
Qed.

(** A flag that the invariant does not read. *)
Lemma inv_flag (b : base) e w :
  inv b → e ∈ U → act_view w = act_view (evs b !!! e) → timer_view w = timer_view (evs b !!! e) →
  map_view w = map_view (evs b !!! e) → fl w EVLIST_INTERNAL = fl (evs b !!! e) EVLIST_INTERNAL →
  fl w (Z.lnot EVLIST_ALL) = false → inv (set_evs (<[e := w]> (evs b)) b).
Proof.
  intros Hi HU Ha Ht Hm Hint Hf.
  apply (inv_upd_act U b _ e w); try done; [cbn [set_evs evs qs]..|].
  - eapply act_ok_ext; [|apply (ci_act Hi)]. intros x. by apply view_insert.
  - assert (Haw : active_weight w = active_weight (evs b !!! e)).
    { exact (f_equal (λ p, b2z p.1.1 + b2z p.1.2) Ha). }
    apply cnt_ok_same; [apply (ci_cnt Hi)| |done].
    unfold weight. rewrite Hint, Haw. destruct (fl (evs b !!! e) EVLIST_INTERNAL); [done|]. f_equal.
    by rewrite (f_equal (λ p, p.1.1) Ht : fl w EVLIST_TIMEOUT = _),
      (f_equal (λ p, p.1.1) Hm : fl w EVLIST_INSERTED = _).
Qed.

Lemma wp_add_finalizing e b (Q : unit → base → Prop) :
  inv b → e ∈ U →
  (∀ b', inv b' → api_frame b b' → only e b b' →
     evs b' !!! e = set_flag EVLIST_FINALIZING (evs b !!! e) → Q tt b') →
  wp (add_finalizing e) Q b.
Proof.
  intros Hb HU HQ. unfold add_finalizing, upd_event, the_event. wp_step.
  apply HQ; try done; [|by eapply only_insert|apply lookup_total_insert_eq].
  apply inv_flag; try done; unfold act_view, timer_view, map_view; fl_simpl; try done. apply (ci_flags Hb).
Qed.

(** Activating [e] in the middle of its finalization. *)
Lemma wp_active_inv e res n b (Q : unit → base → Prop) :
  inv b → e ∈ U → may_run (evs b !!! e) →
  (∀ b', inv b' → api_frame b b' → only e b b' → tame (evs b !!! e) (evs b' !!! e) → Q tt b') →
  wp (event_active_nolock_ e res n) Q b.
Proof.
  intros Hi HU Hr HQ. apply (wp_active U U_nodup U_small); [done|done|..].
  - intros _. apply HQ; try done. apply tame_refl.
  - intros b' _ Hi' Ha. apply HQ; [done|apply (ea_api _ _ _ _ _ Ha)|apply (ea_only _ _ _ _ _ Ha)|].
    eapply tame_core; [apply (ea_core _ _ _ _ _ Ha)|by apply activated_tame].
Qed.
Lemma wp_callback_inv e b (Q : Z → base → Prop) :
  inv b → e ∈ U → may_run (evs b !!! e) →
  (∀ b' r, inv b' → api_frame b b' → only e b b' → tame (evs b !!! e) (evs b' !!! e) → Q r b') →
  wp (event_callback_activate_nolock_ e) Q b.
Proof.
  intros Hi HU Hr HQ. destruct (fl (evs b !!! e) EVLIST_FINALIZING) eqn:Ef.
  - unfold event_callback_activate_nolock_, get_event, the_event. do 2 wp_step.
    fold (fl (evs b !!! e) EVLIST_FINALIZING). rewrite Ef. wp_step. apply HQ; try done. apply tame_refl.
  - apply (wp_callback_activate U U_nodup U_small); [done|done|done|]. intros b' Hi' Ha.
    destruct Ha as [A O C] eqn:HA. apply HQ; [done|done|done|].
    eapply tame_core; [done|by apply made_active_tame].
Qed.

(** The closures of finalizers. *)
Definition final_closure (c : closure) (v : event) : Prop :=
  c = EV_CLOSURE_CB_FINALIZE ∨
  (c = EV_CLOSURE_EVENT_FINALIZE ∨ c = EV_CLOSURE_EVENT_FINALIZE_FREE) ∧ fl v EVLIST_INIT = true.

Lemma wp_finalize_rest {A} e c cb (act : prog base A) b (Q : unit → base → Prop) :
  good b → e ∈ U → user_event b e → may_run (evs b !!! e) →
  fl (evs b !!! e) EVLIST_TIMEOUT = false → final_closure c (evs b !!! e) →
  callback_ok (n_common_timeouts b) cb →
  (∀ b1 (Q1 : A → base → Prop), inv b1 → may_run (evs b1 !!! e) →
     (∀ a b2, inv b2 → api_frame b1 b2 → only e b1 b2 → tame (evs b1 !!! e) (evs b2 !!! e) → Q1 a b2) →
     wp act Q1 b1) →
  (∀ b', good b' → api_frame b b' → only e b b' → may_run (evs b' !!! e) → Q tt b') →
  wp (_ ← upd_event e (set_closure c cb); _ ← act; add_finalizing e) Q b.
Proof.
  intros Hb HU Hu Hr Ht Hc Hcb Hact HQ. wp_step. apply (wp_upd_benign U); [apply Hb|done|].
  intros b1 Hi1 Hr1 Ho1 _ _ _ Hev1. wp_step. apply Hact; [done|by rewrite Hev1|].
  intros a b2 Hi2 Ha2 Ho2 T. apply wp_add_finalizing; [done..|]. intros b3 Hi3 Ha3 Ho3 Hev3.
  rewrite Hev1 in T. destruct T as [T1 T2 T3 T4 _ _ T7 T8 _ _ T11].
  assert (Ha : api_frame b b3) by eauto 10 using api_trans, rest_api.
  assert (Ho : only e b b3) by eauto 10 using only_trans.
  assert (Hrun : may_run (evs b3 !!! e)).
  { rewrite Hev3. unfold may_run. fl_simpl. rewrite T8. cbn [set_flag set_flags ev_has_base]. by rewrite T4. }
  apply HQ; [|done..]. eapply base_inv_upd with (e := e); [done..|by left|].
  rewrite Hev3 in *. split; unfold period_ok, closure_ok; cbn [set_flag set_flags ev_closure ev_has_base ev_callback];
    rewrite ?T2, ?T3, ?T4; fl_simpl; cbn [set_closure ev_closure ev_has_base ev_callback].
  - intros ->. by destruct Hc as [?|[[?|?] _]].
  - intros H. apply T7 in H. change (fl (evs b !!! e) EVLIST_TIMEOUT = true) in H. congruence.
  - intros _. rewrite T8. exact Hr.
  - cbn [set_flag set_flags ev_events]. rewrite T1. intros H%T11. by apply (eo_inserted _ _ (bv_event Hb e)).
  - rewrite T8. destruct Hc as [-> |[[-> | ->] Hc]]; done.
  - done.
Qed.

Lemma wp_finalize free e cb b (Q : Z → base → Prop) :
  good b → e ∈ U → user_event b e → may_run (evs b !!! e) → callback_ok (n_common_timeouts b) cb → fl (evs b !!! e) EVLIST_INIT = true →
  (∀ b', good b' → api_frame b b' → only e b b' → Q 0 b') →
  wp (event_finalize_nolock_ free e cb) Q b.
Proof.
  intros Hb HU Hu Hr Hcb Hini HQ. unfold event_finalize_nolock_. wp_step.
  apply wp_event_del; [done|]. intros b1 r1 Hb1 Ha1 Ho1 _ _ _ Ht1 [_ _ _ Hv1 _ _ _ Hv2 _ _].
  assert (W : wp (_ ← upd_event e (set_closure (if free then EV_CLOSURE_EVENT_FINALIZE_FREE
                                               else EV_CLOSURE_EVENT_FINALIZE) cb);
                  _ ← event_active_nolock_ e EV_FINALIZE 1; add_finalizing e) (λ _ b', Q 0 b') b1).
  { apply wp_finalize_rest; [done|done|by eapply user_event_frame; [apply Ha1|]| |done|..].
    - unfold may_run. by rewrite Hv1, Hv2.
    - right. split; [destruct free; auto|by rewrite Hv2].
    - by rewrite (n_common_api U _ _ Ha1).
    - intros b2 Q1 H1 H2 H3. apply wp_active_inv; [done..|]. intros. by apply H3.
    - intros b2 Hb2 Ha2 Ho2 _. apply HQ; eauto using api_trans, only_trans. }
  apply wp_bind in W. wp_step. eapply wp_mono; [exact W|]. intros [] b2 W2.
  apply wp_bind in W2. wp_step. eapply wp_mono; [exact W2|]. intros [] b3 W3.
  wp_step. eapply wp_mono; [exact W3|]. intros [] b4 W4. by wp_step.
Qed.

Lemma wp_callback_finalize e cb b (Q : unit → base → Prop) :
  good b → e ∈ U → user_event b e → may_run (evs b !!! e) → callback_ok (n_common_timeouts b) cb →
  (∀ b', good b' → api_frame b b' → only e b b' → may_run (evs b' !!! e) → Q tt b') →
  wp (event_callback_finalize_nolock_ e cb) Q b.
Proof.
  intros Hb HU Hu Hr Hcb HQ. unfold event_callback_finalize_nolock_, get_event, the_event. do 3 wp_step.
  assert (Hrest : ∀ b1, good b1 → api_frame b b1 → only e b b1 → fl (evs b1 !!! e) EVLIST_TIMEOUT = false →
    tame (evs b !!! e) (evs b1 !!! e) →
    wp (_ ← upd_event e (set_closure EV_CLOSURE_CB_FINALIZE cb);
        _ ← event_callback_activate_nolock_ e; add_finalizing e) Q b1).
  { intros b1 Hb1 Ha1 Ho1 Ht1 [_ _ _ Hv1 _ _ _ Hv2 _ _].
    apply wp_finalize_rest; [done|done|by eapply user_event_frame; [apply Ha1|]| |done|by left|by rewrite (n_common_api U _ _ Ha1)|..].
    - unfold may_run. by rewrite Hv1, Hv2.
    - intros b2 Q1 H1 H2 H3. apply wp_callback_inv; [done..|]. intros. by eapply H3.
    - intros b2 Hb2 Ha2 Ho2 Hr2. apply HQ; eauto using api_trans, only_trans. }
  destruct (has _ EVLIST_INIT).
  - apply wp_event_del; [done|]. intros. by apply Hrest.
  - apply wp_cancel; [done|]. intros. by apply Hrest.
Qed.

(** Other events than those in [l]. *)
Definition only_in (l : list evid) (b b' : base) : Prop :=
  ∀ x, x ∉ l → core (evs b' !!! x) = core (evs b !!! x).
Lemma only_in_step e l (b b1 b' : base) : only e b b1 → only_in l b1 b' → only_in (e :: l) b b'.
Proof. intros Ho Hl x [Hx Hxl]%not_elem_of_cons. by rewrite Hl, Ho. Qed.

Lemma may_run_core v w : core v = core w → may_run w → may_run v.
Proof.
  intros Hc. destruct (core_fields _ _ Hc) as (E & _). unfold may_run. by rewrite E, (core_fl _ _ _ Hc).
Qed.
Lemma may_run_tame v w : tame v w → may_run v → may_run w.
Proof. intros [_ _ _ E _ _ _ Ei _ _]. unfold may_run. by rewrite E, Ei. Qed.

(** The callbacks that [event_callback_finalize_many_] can be called with. *)
Definition can_finalize (b : base) (e : evid) : Prop := e ∈ U ∧ user_event b e ∧ may_run (evs b !!! e).

Lemma wp_finalize_each cb l : ∀ b (Q : Z → base → Prop),
  good b → callback_ok (n_common_timeouts b) cb → Forall (can_finalize b) l →
  (∀ b' n, good b' → api_frame b b' → only_in l b b' → Forall (can_finalize b') l → Q n b') →
  wp (finalize_each l cb) Q b.
Proof.
  induction l as [|e l IH]; intros b Q Hb Hcb Hl HQ; cbn [finalize_each]; [wp_step; by apply HQ|].
  apply Forall_cons in Hl as [(HU & Hu & Hr) Hl]. do 2 wp_step.
  assert (Hstep : ∀ (b1 : base) Q1, good b1 → api_frame b b1 → only e b b1 → may_run (evs b1 !!! e) →
     (∀ b' n, good b' → api_frame b b' → only_in (e :: l) b b' → Forall (can_finalize b') (e :: l) → Q1 n b') →
     wp (finalize_each l cb) Q1 b1).
  { intros b1 Q1 Hb1 Ha1 Ho1 Hr1 HQ1. apply IH; [done|by rewrite (n_common_api U _ _ Ha1)| |].
    - eapply Forall_impl; [exact Hl|]. intros x (? & ? & Hx).
      split_and!; [done|by eapply user_event_frame; [apply Ha1|]|].
      destruct (decide (x = e)) as [->|Hne]; [done|]. by eapply may_run_core; [apply Ho1|].
    - intros b' n Hb' Ha' Hin Hl'. assert (Ha : api_frame b b') by by eapply api_trans.
      apply HQ1; [done..|by eapply only_in_step|]. apply Forall_cons. split; [|done].
      split_and!; [done|by eapply user_event_frame; [apply Ha|]|].
      destruct (decide (e ∈ l)) as [Hel|Hel].
      + rewrite Forall_forall in Hl'. by apply Hl'.
      + by eapply may_run_core; [apply Hin|]. }
  case_bool_decide; wp_step.
  - apply wp_callback_finalize; [done..|]. intros b1 Hb1 Ha1 Ho1 Hr1. wp_step.
    apply Hstep; [done..|]. intros b' n Hb' Ha' Hin Hl'. wp_step. by apply HQ.
  - apply wp_cancel; [done|]. intros b1 r Hb1 Ha1 Ho1 _ T. apply Hstep; try done. by eapply may_run_tame.
Qed.

Lemma wp_finalize_many cb l b (Q : Z → base → Prop) :
  good b → callback_ok (n_common_timeouts b) cb → Forall (can_finalize b) l → l ≠ [] →
  (∀ b', good b' → api_frame b b' → only_in l b b' → Q 0 b') →
  wp (event_callback_finalize_many_ l cb) Q b.
Proof.
  intros Hb Hcb Hl Hne HQ. unfold event_callback_finalize_many_. wp_step.
  apply wp_finalize_each; [done..|]. intros b1 n Hb1 Ha1 Hin Hl1. wp_step.
  destruct (n =? 0); cbn [when]; [|do 2 wp_step; by apply HQ].
  destruct l as [|e l]; [done|]. wp_step. eapply wp_deref; [done|].
  apply Forall_cons in Hl1 as [(HU & Hu & Hr) _].
  apply wp_callback_finalize; [done..|by rewrite (n_common_api U _ _ Ha1)|].
  intros b2 Hb2 Ha2 Ho2 _. wp_step. apply HQ; [done|by eapply api_trans|].
  intros x Hx. rewrite Ho2; [by apply Hin|]. intros ->. set_solver.
Qed.

(** ** Setting up events *)

(** Overwriting an event that is neither pending nor active with another such. *)
Definition idle (v : event) : Prop := fl v EVLIST_PENDING = false.
Lemma idle_flags v :
  idle v → fl v EVLIST_TIMEOUT = false ∧ fl v EVLIST_INSERTED = false ∧
           fl v EVLIST_ACTIVE = false ∧ fl v EVLIST_ACTIVE_LATER = false.
Proof.
  unfold idle, fl, EVLIST_PENDING, EVLIST_QUEUED. rewrite !has_lor_r. rewrite !orb_false_iff. tauto.
Qed.
Lemma idle_heap (b : base) e : inv b → idle (evs b !!! e) → min_heap_idx (evs b !!! e) = -1.
Proof.
  intros Hi (Hf & _)%idle_flags. destruct (decide (min_heap_idx (evs b !!! e) = -1)) as [|Hn]; [done|].
  apply (to_mem _ _ (ci_tm Hi)) in Hn as [? _]. congruence.
Qed.

Lemma act_ok_idle s q e w :
  act_ok s q → idle (s !!! e) → idle w → 0 <= ev_pri w < zlen (activequeues q) →
  act_ok (<[e := w]> s) q.
Proof.
  intros [Hq Hl Hli Hp Hx] (_ & _ & Ha & Hal)%idle_flags (_ & _ & Ha' & Hal')%idle_flags Hpw. split.
  - intros i l Hg. destruct (Hq i l Hg) as [Hnd Hin]. split; [done|]. intros x. rewrite Hin.
    destruct (decide (x = e)) as [->|]; [|by rewrite lookup_total_insert_ne].
    rewrite lookup_total_insert_eq, Ha, Ha'. by split; intros [? _].
  - done.
  - intros x. rewrite Hli. destruct (decide (x = e)) as [->|]; [|by rewrite lookup_total_insert_ne].
    by rewrite lookup_total_insert_eq, Hal, Hal'.
  - intros x. destruct (decide (x = e)) as [->|];
      [by rewrite lookup_total_insert_eq|rewrite lookup_total_insert_ne by done; apply Hp].
  - intros x. destruct (decide (x = e)) as [->|];
      [by rewrite lookup_total_insert_eq, Ha'|rewrite lookup_total_insert_ne by done; apply Hx].
Qed.

Lemma tm_ok_unset s t e w :
  tm_ok s t → idle (s !!! e) → idle w → min_heap_idx (s !!! e) = -1 → min_heap_idx w = -1 →
  tm_ok (<[e := w]> s) t.
Proof.
  intros [Hh Hm Hn Hl Hd Hc Hx Hso] (Ht & _)%idle_flags (Ht' & _)%idle_flags Hi Hi'. split; try done.
  - eapply heap_wf_ext; [| |exact Hh]; intros x; simpl.
    + by apply (view_insert min_heap_idx); rewrite Hi.
    + intros Hxi. destruct (decide (x = e)) as [->|]; [done|by rewrite lookup_total_insert_ne].
  - intros x. destruct (decide (x = e)) as [->|]; [|rewrite lookup_total_insert_ne by done; apply Hm].
    rewrite lookup_total_insert_eq, Hi', Ht'. split; [done|by intros [? _]].
  - intros i c x Hg. rewrite (Hl i c x Hg). destruct (decide (x = e)) as [->|]; [|by rewrite lookup_total_insert_ne].
    rewrite lookup_total_insert_eq, Ht, Ht'. by split; intros [? _].
  - intros x. destruct (decide (x = e)) as [->|]; [by rewrite lookup_total_insert_eq, Ht'|].
    rewrite lookup_total_insert_ne by done. apply Hd.
  - intros i c Hg. apply sorted_insert; [|by eapply Hso]. intros [? _]%(Hl i c e Hg). congruence.
Qed.

Lemma map_ok_idle s m e w :
  map_ok s m → idle (s !!! e) → idle w → map_ok (<[e := w]> s) m.
Proof.
  intros [Hi Hio Hsig] (_ & Hf & _)%idle_flags (_ & Hf' & _)%idle_flags. split.
  - eapply em_inv_ext; [|exact Hi]. intros x fd Hx. simpl.
    destruct (decide (x = e)) as [->|]; [|by rewrite lookup_total_insert_ne].
    destruct Hx as [[? _]%Hio|[? _]%Hsig]; congruence.
  - intros fd x. rewrite Hio. destruct (decide (x = e)) as [->|]; [|by rewrite lookup_total_insert_ne].
    rewrite lookup_total_insert_eq, Hf, Hf'. by split; intros [? _].
  - intros fd x. rewrite Hsig. destruct (decide (x = e)) as [->|]; [|by rewrite lookup_total_insert_ne].
    rewrite lookup_total_insert_eq, Hf, Hf'. by split; intros [? _].
Qed.

Lemma idle_weight v : idle v → weight v = 0 ∧ active_weight v = 0.
Proof.
  intros (H1 & H2 & H3 & H4)%idle_flags. unfold weight, active_weight. rewrite H1, H2, H3, H4.
  by destruct (fl v EVLIST_INTERNAL).
Qed.

Lemma inv_idle (b : base) e w :
  inv b → e ∈ U → idle (evs b !!! e) → idle w → fl w (Z.lnot EVLIST_ALL) = false →
  0 <= ev_pri w < nactivequeues b → min_heap_idx w = -1 →
  inv (set_evs (<[e := w]> (evs b)) b).
Proof.
  intros Hi HU Hid Hw Hf Hp Hx. pose proof (idle_heap _ _ Hi Hid).
  split; cbn [set_evs evs qs tms evmap cnt].
  - intros x. destruct (decide (x = e)) as [->|];
      [by rewrite lookup_total_insert_eq|rewrite lookup_total_insert_ne by done; apply (ci_flags Hi)].
  - intros x Hxu. rewrite lookup_total_insert_ne by (intros ->; done). by apply (ci_out Hi).
  - by apply act_ok_idle; [apply Hi|..].
  - by apply tm_ok_unset; [apply Hi|..].
  - by apply map_ok_idle; [apply Hi|..].
  - destruct (idle_weight _ Hid) as [W1 W2], (idle_weight _ Hw) as [W3 W4].
    apply cnt_ok_same; [apply (ci_cnt Hi)|congruence..].
Qed.

Lemma idle_event_ok n v : idle v → period_ok n v → closure_ok v → callback_ok n (ev_callback v) → event_ok n v.
Proof.
  intros Hi Hp Hc Hcb. destruct (idle_flags v Hi) as (Ht & Hin & Ha & Hl).
  split; [done|by rewrite Ht| |by rewrite Hin|done|done]. by rewrite fl_queued, Ha, Hl.
Qed.
Lemma good_idle (b : base) e w :
  good b → e ∈ U → user_event b e → idle (evs b !!! e) → idle w → fl w (Z.lnot EVLIST_ALL) = false →
  0 <= ev_pri w < nactivequeues b → min_heap_idx w = -1 → period_ok (n_common_timeouts b) w → closure_ok w →
  callback_ok (n_common_timeouts b) (ev_callback w) → good (set_evs (<[e := w]> (evs b)) b).
Proof.
  intros Hb HU Hu H1 H2 H3 H4 H5 H6 H7 H8.
  eapply base_inv_upd with (e := e); [done|by apply inv_idle; [apply Hb|..]|by constructor|by eapply only_insert|by left|].
  cbn [set_evs evs]. rewrite lookup_total_insert_eq. by apply idle_event_ok.
Qed.

Lemma default_pri (b : base) : good b → 0 <= u8 (nactivequeues b `div` 2) < nactivequeues b.
Proof.
  intros Hb. pose proof (ao_pri _ _ (ci_act (bv_core Hb)) 0%nat) as Hp. fold (nactivequeues b) in Hp.
  pose proof (bv_nq Hb). unfold u8. rewrite Z.mod_small; lia.
Qed.

Lemma wp_assign e base_set fd events cb b (Q : Z → base → Prop) :
  good b → e ∈ U → user_event b e → idle (evs b !!! e) →
  has events EV_SIGNAL && has events EV_IO = false ∨ closure_ok (set_flags EVLIST_INIT (evs b !!! e)) →
  callback_ok (n_common_timeouts b) cb →
  (∀ b' r, good b' → api_frame b b' → only e b b' → idle (evs b' !!! e) →
     tms b' = tms b → qs b' = qs b →
     (r = -1 ↔ has events EV_SIGNAL && has events EV_IO = true) →
     ev_events (evs b' !!! e) = events → ev_fd (evs b' !!! e) = fd →
     ev_has_base (evs b' !!! e) = base_set → ev_flags (evs b' !!! e) = EVLIST_INIT → Q r b') →
  wp (event_assign e base_set fd events cb) Q b.
Proof.
  intros Hb HU Hu Hid Hclo Hcb HQ. pose proof (eo_period _ _ (bv_event Hb e)) as Hper. unfold event_assign, get_event, the_event. do 4 wp_step.
  pose proof (idle_heap _ _ (bv_core Hb) Hid) as Hx.
  pose proof (ao_pri _ _ (ci_act (bv_core Hb)) e) as Hp. fold (nactivequeues b) in Hp.
  pose proof (default_pri b Hb) as Hdp.
  assert (Hset : ∀ w r, idle w → ev_flags w = EVLIST_INIT → 0 <= ev_pri w < nactivequeues b →
     min_heap_idx w = -1 → period_ok (n_common_timeouts b) w → closure_ok w →
     callback_ok (n_common_timeouts b) (ev_callback w) → (r = -1 ↔ has events EV_SIGNAL && has events EV_IO = true) → ev_events w = events → ev_fd w = fd →
     ev_has_base w = base_set → wp (_ ← upd_event e (λ _, w); mret r) Q b).
  { intros w r H1 H2 H3 H4 H5 H5' H5'' H6 H7 H8 H9. unfold upd_event. do 3 wp_step.
    assert (Hev : evs (set_evs (<[e := w]> (evs b)) b) !!! e = w) by apply lookup_total_insert_eq.
    apply HQ; rewrite ?Hev; try done.
    - apply good_idle; try done. unfold fl. by rewrite H2.
    - by eapply only_insert. }
  destruct (has events EV_SIGNAL && has events EV_IO) eqn:E.
  - apply Hset; try done. by destruct Hclo.
  - apply Hset; try done; by destruct (has events EV_SIGNAL), (has events EV_PERSIST), base_set.
Qed.

Lemma wp_base_set e b (Q : Z → base → Prop) :
  good b → e ∈ U → user_event b e →
  (∀ b' r, good b' → api_frame b b' → only e b b' → Q r b') →
  wp (event_base_set e) Q b.
Proof.
  intros Hb HU Hu HQ. unfold event_base_set, get_event, the_event. do 2 wp_step.
  destruct (Z.eqb_spec (ev_flags (evs b !!! e)) EVLIST_INIT) as [E|E]; cbn [negb]; [|wp_step; by apply HQ].
  assert (Hid : idle (evs b !!! e)) by (unfold idle, fl; by rewrite E).
  do 3 wp_step. unfold upd_event. do 2 wp_step.
  match goal with |- context [<[e := ?w0]> _] => set (w := w0) end.
  assert (Hw : ev_flags w = EVLIST_INIT) by exact E.
  apply HQ; try done; [|by eapply only_insert].
  apply good_idle; try done.
  - unfold fl. by rewrite Hw.
  - by apply default_pri.
  - apply (idle_heap _ _ (bv_core Hb) Hid).
  - apply (eo_period _ _ (bv_event Hb e)).
  - apply (eo_closure _ _ (bv_event Hb e)).
  - apply (eo_callback _ _ (bv_event Hb e)).
Qed.

Lemma act_ok_pri s q e p :
  act_ok s q → fl (s !!! e) EVLIST_ACTIVE = false → 0 <= p < zlen (activequeues q) →
  act_ok (<[e := set_pri p (s !!! e)]> s) q.
Proof.
  intros [Hq Hl Hli Hp Hx] Ha Hpw. split.
  - intros i l Hg. destruct (Hq i l Hg) as [Hnd Hin]. split; [done|]. intros x. rewrite Hin.
    destruct (decide (x = e)) as [->|]; [|by rewrite lookup_total_insert_ne].
    rewrite lookup_total_insert_eq. change (fl (set_pri p ?v)) with (fl v). rewrite Ha.
    by split; intros [? _].
  - done.
  - intros x. by rewrite (view_insert (λ v, fl v EVLIST_ACTIVE_LATER)).
  - intros x. destruct (decide (x = e)) as [->|];
      [by rewrite lookup_total_insert_eq|rewrite lookup_total_insert_ne by done; apply Hp].
  - intros x. rewrite (view_insert (λ v, fl v EVLIST_ACTIVE)), (view_insert (λ v, fl v EVLIST_ACTIVE_LATER)) by done.
    apply Hx.
Qed.

Lemma wp_priority_set e pri b (Q : Z → base → Prop) :
  good b →
  (∀ b' r, good b' → api_frame b b' → only e b b' →
     (r = -1 ∧ evs b' = evs b ∧
        (fl (evs b !!! e) EVLIST_ACTIVE = true ∨ ¬ 0 <= pri < nactivequeues b) ∨
      r = 0 ∧ evs b' = <[e := set_pri pri (evs b !!! e)]> (evs b) ∧
        fl (evs b !!! e) EVLIST_ACTIVE = false ∧ 0 <= pri < nactivequeues b) → Q r b') →
  wp (event_priority_set e pri) Q b.
Proof.
  intros Hb HQ. unfold event_priority_set, get_event, the_event. do 4 wp_step.
  fold (fl (evs b !!! e) EVLIST_ACTIVE).
  destruct (fl (evs b !!! e) EVLIST_ACTIVE) eqn:Ea; [wp_step; apply HQ; try done; left; auto|].
  destruct (Z.ltb_spec pri 0), (Z.leb_spec (nactivequeues b) pri); cbn [orb];
    try (wp_step; apply HQ; try done; left; split_and!; [done|done|right; lia]).
  unfold upd_event. do 3 wp_step. pose proof (bv_nq Hb).
  assert (Hu8 : u8 pri = pri) by (unfold u8; rewrite Z.mod_small; lia). rewrite Hu8.
  change (the_event e b) with (evs b !!! e). set (w := set_pri pri (evs b !!! e)).
  assert (Hi : inv (set_evs (<[e := w]> (evs b)) b)).
  { pose proof (bv_core Hb) as Hi. split; cbn [set_evs evs qs tms evmap cnt].
    - intros x. rewrite (view_insert (λ v, fl v _)) by done. apply (ci_flags Hi).
    - intros x Hx. rewrite (view_insert ev_flags) by done. by apply (ci_out Hi).
    - by apply act_ok_pri; [apply Hi|..].
    - eapply tm_ok_ext; [|apply (ci_tm Hi)]. intros x. by apply view_insert.
    - eapply map_ok_ext; [|apply (ci_map Hi)]. intros x. by apply view_insert.
    - by apply cnt_ok_same; [apply (ci_cnt Hi)|..]. }
  apply HQ.
  - eapply good_tame; [done|done|by constructor|by eapply only_insert|]. cbn [set_evs evs].
    rewrite lookup_total_insert_eq. split; auto.
  - by constructor.
  - by eapply only_insert.
  - right. split_and!; done || lia.
Qed.

(** Taking an event off the timers, with its period. *)
Lemma wp_remove_timer e b (Q : Z → base → Prop) :
  good b →
  (∀ b', good b' → api_frame b b' → only e b b' → fl (evs b' !!! e) EVLIST_TIMEOUT = false → Q 0 b') →
  wp (event_remove_timer_nolock_ e) Q b.
Proof.
  intros Hb HQ. unfold event_remove_timer_nolock_, get_event, the_event. do 2 wp_step.
  fold (fl (evs b !!! e) EVLIST_TIMEOUT).
  destruct (fl (evs b !!! e) EVLIST_TIMEOUT) eqn:Ef; cbn [when]; [|wp_step; wp_step; wp_step; by apply HQ].
  do 2 wp_step. apply (wp_remove_timeout U U_nodup); [apply Hb|done|].
  intros b1 Hi1 Hr1 Ho1 _ Hc1 _. apply (wp_upd_benign U); [done|done|].
  intros b2 Hi2 Hr2 Ho2 _ _ _ Hev2. wp_step.
  assert (Hf : fl (evs b2 !!! e) EVLIST_TIMEOUT = false).
  { rewrite Hev2. change (fl (evs b1 !!! e) EVLIST_TIMEOUT = false). rewrite (core_fl _ _ _ Hc1). by fl_simpl. }
  destruct (core_fields _ _ Hc1) as (E1 & _ & _ & E4 & E5 & _ & E7 & _ & E9 & E10 & _).
  apply HQ; [|eapply api_trans; by apply rest_api|by eapply only_trans|done].
  eapply base_inv_upd with (e := e); [done|done|eapply api_trans; by apply rest_api|by eapply only_trans|..].
  - right. intros i. apply timer_event_mono; rewrite ?Hev2; try done.
  - assert (Hm : ∀ m, fl (evs b2 !!! e) m = fl (clear_flag EVLIST_TIMEOUT (evs b !!! e)) m).
    { intros m. rewrite Hev2. exact (core_fl _ _ m Hc1). }
    eapply event_mono_period; [..|apply (bv_event Hb e)]; rewrite ?Hm; fl_simpl; try done.
    + rewrite Hev2. intros _ H. by destruct H.
    + by rewrite Hev2.
    + by rewrite Hev2.
    + by rewrite Hev2.
    + by rewrite Hev2.
    + auto.
    + auto.
Qed.

Lemma good_virtual n (b : base) : good b → good (set_virtual n b).
Proof. intros [[? ? ? ? ? []] ? ? ? ?]. split; [split; [done..|by split]|done..]. Qed.
Lemma wp_del_virtual b (Q : unit → base → Prop) :
  good b → 0 < virtual_event_count (cnt b) → (∀ b', good b' → evs b' = evs b → Q tt b') →
  wp event_base_del_virtual_ Q b.
Proof.
  intros Hb Hv HQ. unfold event_base_del_virtual_. do 4 wp_step; [by apply Z.ltb_lt|]. do 4 wp_step.
  apply wp_maybe_notify. intros b' Hq _ _. apply HQ; [|apply (qt_evs Hq)].
  eapply good_quiet; [|done]. by apply good_virtual.
Qed.
End base.
