(* ===== verification/EventTimers.v ===== *)
(** The time-driven operations: the wait of the next dispatch, expired timers,
    common timeouts, and callbacks that were put off. *)
From S2P Require Import Prelude Timeval MinHeap EventDefs EventApi EventInv EventQueue.
From S2P Require Import EventOps EventAdd EventBase.

Section timers.
Context {M : Type} {EO : EvmapOps M} {EL : EvmapLaws M} {CK : Clock} {CL : ClockLaws} {RA : Realloc}.
Abbreviation base := (event_base M).
Context (U : list evid) (U_nodup : NoDup U) (U_small : zlen U < 2 ^ 31).
Abbreviation inv := (core_inv U).
Abbreviation good := (base_inv U).

(** ** The top of the heap *)

Lemma heap_top (b : base) :
  inv b →
  (hn (timeheap (tms b)) = 0 ∧ min_heap_top_ (timeheap (tms b)) = Some None ∧
     (∀ x, min_heap_idx (evs b !!! x) = -1)) ∨
  ∃ e, 0 < hn (timeheap (tms b)) ∧ min_heap_top_ (timeheap (tms b)) = Some (Some e) ∧
    min_heap_idx (evs b !!! e) ≠ -1 ∧
    ∀ x, min_heap_idx (evs b !!! x) ≠ -1 →
      tv_gtb (ev_timeout (evs b !!! e)) (ev_timeout (evs b !!! x)) = false.
Proof.
  intros Hi. pose proof (to_heap _ _ (ci_tm Hi)) as Hh.
  pose proof (so_cap _ _ _ _ (hw_slots _ _ Hh)) as Hcap.
  unfold min_heap_top_. destruct (Z.eqb_spec (hn (timeheap (tms b))) 0) as [E|E].
  - left. split_and!; [done|done|]. intros x. destruct (decide (min_heap_idx (evs b !!! x) = -1)) as [|Hn]; [done|].
    destruct (member_slot _ _ _ Hh Hn). lia.
  - right. destruct (so_fwd _ _ _ _ (hw_slots _ _ Hh) 0) as (e & He & Hx & _); [lia|].
    exists e. rewrite He. split_and!; [lia|done| |].
    + change (min_heap_idx (evs b !!! e) = 0) in Hx. by rewrite Hx.
    + intros x Hm. by apply (top_minimal _ _ e Hh He x).
Qed.

(** ** The wait of the next dispatch *)

(** No limit without timers, else the time until the first of them is due. *)
Definition waits (b : base) (tv : option timeval) : Prop :=
  match tv with
  | None => ∀ x, min_heap_idx (evs b !!! x) = -1
  | Some tv => ∃ e, min_heap_idx (evs b !!! e) ≠ -1 ∧
      (∀ x, min_heap_idx (evs b !!! x) ≠ -1 → tv_us (ev_timeout (evs b !!! e)) <= tv_us (ev_timeout (evs b !!! x))) ∧
      tv_us tv = Z.max 0 (tv_us (ev_timeout (evs b !!! e)) - tv_us (now_of (clk b))) ∧
      0 <= tv_sec tv ∧ 0 <= tv_usec tv <= 1000000
  end.

Lemma in_heap_plain (b : base) e :
  inv b → min_heap_idx (evs b !!! e) ≠ -1 →
  fl (evs b !!! e) EVLIST_TIMEOUT = true ∧ plain_tv (ev_timeout (evs b !!! e)) ∧
  is_common_timeout (ev_timeout (evs b !!! e)) (n_common_timeouts b) = false.
Proof.
  intros Hi [Hf Hc]%(to_mem _ _ (ci_tm Hi)). fold (n_common_timeouts b) in Hc.
  split; [done|]. split; [|done].
  destruct (timer_cases _ _ _ Hi Hf) as [[? _]|(c & _ & ? & _)]; [done|congruence].
Qed.

Lemma gtb_us a b : plain_tv a → plain_tv b → tv_gtb a b = false → tv_us a <= tv_us b.
Proof.
  unfold plain_tv, tv_gtb, evutil_timercmp, tv_us. intros.
  destruct (Z.eqb_spec (tv_sec a) (tv_sec b)); lia.
Qed.

Lemma wp_timeout_next (b : base) (Q : option (option timeval) → base → Prop) :
  good b → (∀ tv b', quiet_step b b' → waits b tv → Q (Some tv) b') → wp timeout_next Q b.
Proof.
  intros Hb HQ. pose proof (bv_core Hb) as Hi. unfold timeout_next. do 3 wp_step.
  destruct (heap_top b Hi) as [(_ & Ht & Hno)|(e & _ & Ht & He & Hmin)].
  { eapply wp_deref; [exact Ht|]. cbv beta iota. wp_step. apply HQ; [apply quiet_refl_ev|done]. }
  eapply wp_deref; [exact Ht|]. cbv beta iota. wp_step.
  destruct (gettime_ok b (bv_cache Hb)) as (now & b' & Hg & Hq & Hn & _ & _ & Hns).
  pose proof (gettime_now_of _ _ _ Hg) as Hnow. unfold wp at 1. rewrite Hg. cbv beta iota.
  unfold get_event, the_event. do 2 wp_step. rewrite (qt_evs Hq).
  destruct (in_heap_plain b e Hi He) as (_ & Hp & _).
  assert (Hw : ∀ tv, tv_us tv = Z.max 0 (tv_us (ev_timeout (evs b !!! e)) - tv_us now) →
             0 <= tv_sec tv → 0 <= tv_usec tv <= 1000000 → waits b (Some tv)).
  { intros tv H1 H2 H3. exists e. split_and!; try done; [|by rewrite <-Hnow|lia|lia].
    intros x Hx. apply gtb_us; [done|by apply in_heap_plain|by apply Hmin]. }
  unfold plain_tv, tv_norm in *.
  destruct (evutil_timercmp Z.leb _ _) eqn:Ec; unfold evutil_timercmp in Ec.
  - wp_step. apply HQ; [done|]. apply Hw; simpl; try lia. unfold tv_us. simpl.
    destruct (Z.eqb_spec (tv_sec (ev_timeout (evs b !!! e))) (tv_sec now)); lia.
  - set (tv := evutil_timersub _ _).
    assert (Htv : 0 <= tv_sec tv ∧ 0 <= tv_usec tv <= 1000000 ∧
                  tv_us tv = tv_us (ev_timeout (evs b !!! e)) - tv_us now ∧
                  0 <= tv_us (ev_timeout (evs b !!! e)) - tv_us now).
    { unfold tv. rewrite timersub_fits; [|unfold small_usec; lia..|].
      2: { unfold sec_fits. destruct (Z.eqb_spec (tv_sec (ev_timeout (evs b !!! e))) (tv_sec now)); lia. }
      unfold tv_us.
      destruct (Z.eqb_spec (tv_sec (ev_timeout (evs b !!! e))) (tv_sec now)), (Z.ltb_spec (tv_usec (ev_timeout (evs b !!! e)) - tv_usec now) 0);
        cbn [tv_sec tv_usec]; lia. }
    destruct Htv as (H1 & H2 & H3 & H4).
    do 2 wp_step; [by apply Z.leb_le|]. do 2 wp_step; [apply Z.leb_le; lia|]. wp_step.
    apply HQ; [done|]. apply Hw; lia.
Qed.

(** ** Expired timers *)

(** An event whose timer expired. *)
Definition fired (v : event) : event := activated EV_TIMEOUT 1 (clear_flag EVLIST_PENDING v).
Definition due (n : Z) (now : timeval) (v : event) : bool :=
  fl v EVLIST_TIMEOUT && negb (is_common_timeout (ev_timeout v) n) &&
  negb (evutil_timercmp Z.gtb (ev_timeout v) now).

Lemma activated_core r n v w : core v = core w → core (activated r n v) = core (activated r n w).
Proof.
  apply core_upd. clear. intros v. unfold activated, made_active.
  change (fl (core v)) with (fl v). change (ev_events (core v)) with (ev_events v).
  destruct (fl v EVLIST_ACTIVE) eqn:Ea; [done|].
  destruct (has _ EV_SIGNAL), (fl v EVLIST_ACTIVE_LATER); cbn [set_res set_calls]; unfold fl in *; cbn; by rewrite Ea.
Qed.
Lemma fired_flags v m :
  m = EVLIST_TIMEOUT ∨ m = EVLIST_INSERTED ∨ m = EVLIST_ACTIVE_LATER → fl (fired v) m = false.
Proof.
  intros Hm. unfold fired, activated, made_active. fl_simpl.
  assert (Hs : ∀ u k, fl (set_flag EVLIST_ACTIVE (clear_flag EVLIST_ACTIVE_LATER u)) k =
    fl (set_flag EVLIST_ACTIVE (clear_flag EVLIST_ACTIVE_LATER (set_flags (ev_flags u) v))) k) by done.
  destruct (has _ EV_SIGNAL); cbn [set_res set_calls];
    match goal with |- context [if fl ?u EVLIST_ACTIVE then _ else _] =>
      change (fl u EVLIST_ACTIVE) with (fl (clear_flag EVLIST_PENDING v) EVLIST_ACTIVE) end; fl_simpl;
    rewrite Hs; cbn [ev_flags clear_flag set_flags];
    change (set_flags _ v) with (clear_flag EVLIST_PENDING v);
    destruct Hm as [-> |[-> | ->]]; by fl_simpl.
Qed.

(** Deleting and activating an event whose timer expired. *)
Lemma wp_fire e (b : base) (Q : unit → base → Prop) :
  good b → fl (evs b !!! e) EVLIST_TIMEOUT = true →
  (∀ b', good b' → api_frame b b' → only e b b' → core (evs b' !!! e) = core (fired (evs b !!! e)) →
     hn (timeheap (tms b')) = hn (timeheap (tms b)) -
       b2z (negb (is_common_timeout (ev_timeout (evs b !!! e)) (n_common_timeouts b))) → Q tt b') →
  wp (_ ← event_del_nolock_ e false; event_active_nolock_ e EV_TIMEOUT 1) Q b.
Proof.
  intros Hb Hf HQ. destruct (eo_timer _ _ (bv_event Hb e) Hf) as (Hbase & Hini & Hfin). wp_step.
  apply (wp_event_del U U_nodup); [done|]. intros b1 r Hb1 Ha1 Ho1 _ _ Hd _ T.
  specialize (Hd Hbase (or_intror Hfin)). destruct Hd as [_ _ Hc _ Hn]. rewrite Hf in Hn.
  assert (Hfin1 : fl (evs b1 !!! e) EVLIST_FINALIZING = false) by (by rewrite (tm_fin _ _ T)).
  apply (wp_event_active U U_nodup U_small); [done|by eapply (in_U U); [apply Hb|]| |congruence|].
  { intros _. by rewrite (tm_base _ _ T). }
  intros b2 _ Hb2 H2. apply HQ; [done| | | |].
  - eapply api_trans; [done|apply (ea_api _ _ _ _ _ H2)].
  - eapply only_trans; [done|apply (ea_only _ _ _ _ _ H2)].
  - rewrite (ea_core _ _ _ _ _ H2). unfold fired. by apply activated_core.
  - by rewrite (ea_tms _ _ _ _ _ H2).
Qed.

Lemma due_core n now v w : core v = core w → due n now v = due n now w.
Proof.
  intros Hc. destruct (core_fields _ _ Hc) as (_ & _ & _ & _ & _ & _ & _ & _ & Et & _).
  unfold due. by rewrite Et, (core_fl _ _ _ Hc).
Qed.
Lemma due_fired n now v : due n now (fired v) = false.
Proof. unfold due. by rewrite fired_flags by auto. Qed.

(** What the expiry of timers leaves of an event. *)
Definition expired (n : Z) (now : timeval) (v : event) : event := if due n now v then fired v else v.

Lemma wp_timeout_loop now : ∀ fuel (b : base) (Q : unit → base → Prop),
  good b → hn (timeheap (tms b)) <= Z.of_nat fuel →
  (∀ b', good b' → api_frame b b' →
     (∀ x, core (evs b' !!! x) = core (expired (n_common_timeouts b) now (evs b !!! x))) →
     (∀ x, due (n_common_timeouts b) now (evs b' !!! x) = false) → Q tt b') →
  wp (timeout_loop fuel now) Q b.
Proof.
  induction fuel as [|fuel IH]; intros b Q Hb Hfuel HQ; cbn [timeout_loop].
  all: pose proof (bv_core Hb) as Hi; do 3 wp_step.
  all: assert (Hnone : (∀ x, due (n_common_timeouts b) now (evs b !!! x) = false) → Q tt b) by
    (intros Hno; apply HQ; try done; intros x; unfold expired; by rewrite Hno).
  all: destruct (heap_top b Hi) as [(_ & Ht & Hno)|(e & Hpos & Ht & He & Hmin)];
    (eapply wp_deref; [exact Ht|]); cbv beta iota; [wp_step; apply Hnone; intros x|].
  1, 3: unfold due; destruct (fl (evs b !!! x) EVLIST_TIMEOUT) eqn:Ef; [|done];
    destruct (is_common_timeout _ _) eqn:Ec; [done|];
    destruct (proj2 (to_mem _ _ (ci_tm Hi) x)); [done|apply Hno].
  { lia. }
  unfold get_event, the_event. do 2 wp_step.
  destruct (in_heap_plain b e Hi He) as (Hf & _ & Hnc).
  destruct (evutil_timercmp Z.gtb (ev_timeout (evs b !!! e)) now) eqn:Eg.
  - wp_step. apply Hnone. intros x. unfold due. destruct (fl (evs b !!! x) EVLIST_TIMEOUT) eqn:Efx; [|done].
    destruct (is_common_timeout (ev_timeout (evs b !!! x)) _) eqn:Ecx; [done|]. cbn [andb negb].
    apply negb_false_iff. apply not_false_iff_true. intros Hx.
    assert (Hmx : min_heap_idx (evs b !!! x) ≠ -1) by (by apply (to_mem _ _ (ci_tm Hi))).
    pose proof (tv_gtb_trans _ _ now (Hmin x Hmx) Hx) as Hle. unfold tv_gtb in Hle. congruence.
  - assert (W : wp (_ ← event_del_nolock_ e false; event_active_nolock_ e EV_TIMEOUT 1)
                  (λ _ b', wp (timeout_loop fuel now) Q b') b).
    { apply wp_fire; [done|done|]. intros b1 Hb1 Ha1 Ho1 Hc1 Hn1. rewrite Hnc in Hn1. cbn [negb b2z] in Hn1.
      pose proof (n_common_api U _ _ Ha1) as Hnn.
      apply IH; [done|lia|]. rewrite Hnn. intros b2 Hb2 Ha2 Hall Hno.
      apply HQ; [done|by eapply api_trans| |done].
      intros x. rewrite Hall. unfold expired. destruct (decide (x = e)) as [->|Hxe].
      - rewrite (due_core _ _ _ _ Hc1), due_fired, Hc1. unfold due. by rewrite Hf, Hnc, Eg.
      - rewrite (due_core _ _ _ _ (Ho1 x Hxe)). destruct (due _ _ _); [|by apply Ho1].
        unfold fired. apply activated_core, core_clear. by apply Ho1. }
    apply wp_bind in W. wp_step. eapply wp_mono; [exact W|]. intros r b1 W1.
    wp_step. eapply wp_mono; [exact W1|]. intros [] b2 W2. exact W2.
Qed.

Lemma wp_timeout_process (b : base) (Q : unit → base → Prop) :
  good b →
  (∀ b', good b' → api_frame b b' →
     (∀ x, core (evs b' !!! x) = core (expired (n_common_timeouts b) (now_of (clk b)) (evs b !!! x))) → Q tt b') →
  wp timeout_process Q b.
Proof.
  intros Hb HQ. unfold timeout_process. do 2 wp_step. unfold min_heap_empty_, min_heap_size_.
  destruct (Z.eqb_spec (hn (timeheap (tms b))) 0) as [E|E].
  - destruct (heap_top b (bv_core Hb)) as [(_ & _ & Hno)|(e & ? & _)]; [|lia].
    wp_step. apply HQ; [done..|]. intros x. unfold expired, due.
    destruct (fl (evs b !!! x) EVLIST_TIMEOUT) eqn:Ef; [|done].
    destruct (is_common_timeout _ _) eqn:Ec; [done|].
    destruct (proj2 (to_mem _ _ (ci_tm (bv_core Hb)) x)); [done|apply Hno].
  - wp_step. apply wp_gettime_now; [apply (bv_cache Hb)|]. intros now b1 Hq1 Hn Hg.
    pose proof (gettime_now_of _ _ _ Hg) as ->.
    pose proof (so_cap _ _ _ _ (hw_slots _ _ (to_heap _ _ (ci_tm (bv_core Hb))))) as Hcap.
    apply wp_timeout_loop; [by eapply good_quiet|rewrite (qt_tms Hq1); lia|].
    rewrite (n_common_api U _ _ (qt_api Hq1)), (qt_evs Hq1). intros b' Hb' Ha' Hall _.
    apply HQ; [done| |done]. eapply api_trans; [apply Hq1|done].
Qed.

(** ** Callbacks that were put off *)

(** A callback moves from the list of later ones to the queue of its priority. *)
Definition promoted (v : event) : event := set_flag EVLIST_ACTIVE (clear_flag EVLIST_ACTIVE_LATER v).

Lemma act_ok_promote s q e l al d :
  act_ok s q → active_later_queue q = e :: l → zget (activequeues q) (ev_pri (s !!! e)) = Some al →
  act_ok (<[e := promoted (s !!! e)]> s)
    (Queues (<[Z.to_nat (ev_pri (s !!! e)) := al ++ [e]]> (activequeues q)) l d).
Proof.
  intros [Hq Hl Hli Hp Hx] Hlat Hal. pose proof (Hp e) as Hpe. rewrite Hlat in Hl.
  apply NoDup_cons in Hl as [Hel Hl].
  assert (Hle : fl (s !!! e) EVLIST_ACTIVE_LATER = true) by (apply Hli; rewrite Hlat; set_solver).
  assert (Hae : fl (s !!! e) EVLIST_ACTIVE = false).
  { destruct (fl _ EVLIST_ACTIVE) eqn:E; [|done]. apply Hx in E. congruence. }
  assert (Hpr : ∀ x, ev_pri (<[e := promoted (s !!! e)]> s !!! x) = ev_pri (s !!! x)).
  { intros x. by apply (view_insert ev_pri). }
  split; cbn [activequeues active_later_queue].
  - intros i k Hk. rewrite zget_insert in Hk by done. destruct (decide _) as [<-|Hi].
    + injection Hk as <-. destruct (Hq _ _ Hal) as [Hnd Hin]. split.
      * apply NoDup_app. split; [done|]. split; [|apply NoDup_singleton].
        intros x Hxa Hxe. apply list_elem_of_singleton in Hxe as ->. apply Hin in Hxa as [? _]. congruence.
      * intros x. rewrite elem_of_app, list_elem_of_singleton, Hin, Hpr.
        destruct (decide (x = e)) as [->|Hne].
        -- rewrite lookup_total_insert_eq. unfold promoted. fl_simpl. tauto.
        -- rewrite lookup_total_insert_ne by done. tauto.
    + destruct (Hq i k Hk) as [Hnd Hin]. split; [done|]. intros x. rewrite Hin, Hpr.
      destruct (decide (x = e)) as [->|Hne]; [|by rewrite lookup_total_insert_ne].
      split; intros [_ ?]; congruence.
  - done.
  - intros x. destruct (decide (x = e)) as [->|Hne].
    + rewrite lookup_total_insert_eq. unfold promoted. fl_simpl. done.
    + rewrite lookup_total_insert_ne by done. rewrite <-Hli, Hlat. set_solver.
  - intros x. rewrite Hpr, zlen_insert. apply Hp.
  - intros x. destruct (decide (x = e)) as [->|Hne].
    + rewrite lookup_total_insert_eq. unfold promoted. by fl_simpl.
    + rewrite lookup_total_insert_ne by done. apply Hx.
Qed.

Lemma promoted_weight v :
  fl v EVLIST_ACTIVE = false → fl v EVLIST_ACTIVE_LATER = true →
  weight (promoted v) = weight v ∧ active_weight (promoted v) = active_weight v.
Proof.
  intros H1 H2. assert (E : active_weight (promoted v) = active_weight v).
  { unfold active_weight, promoted. fl_simpl. by rewrite H1, H2. }
  split; [|done]. unfold weight. rewrite E. unfold promoted. fl_simpl. done.
Qed.

(** The queue of a priority, after the callbacks of [l] were added to it. *)
Definition joined (s : store) (i : Z) (l : list evid) : list evid :=
  filter (λ x, ev_pri (s !!! x) = i) l.

Record promoted_all (l : list evid) (b b' : base) : Prop := {
  pa_api : api_frame b b';
  pa_core x : core (evs b' !!! x) = core (if decide (x ∈ l) then promoted (evs b !!! x) else evs b !!! x);
  pa_tms : tms b' = tms b;
  pa_clk : clk b' = clk b;
  pa_lp : lp b' = lp b;
  pa_later : active_later_queue (qs b') = [];
  pa_queues i q : zget (activequeues (qs b)) i = Some q →
    zget (activequeues (qs b')) i = Some (q ++ joined (evs b) i l)
}.

Lemma wp_make_later_loop l : ∀ (b : base) (Q : unit → base → Prop),
  good b → active_later_queue (qs b) = l →
  (∀ b', good b' → promoted_all l b b' → Q tt b') →
  wp (make_later_loop l) Q b.
Proof.
  induction l as [|e l IH]; intros b Q Hb Hlat HQ; cbn [make_later_loop].
  { wp_step. apply HQ; [done|]. split; try done. intros i q Hq. by rewrite app_nil_r. }
  pose proof (bv_core Hb) as Hi. pose proof (ci_act Hi) as Ha.
  assert (Hle : fl (evs b !!! e) EVLIST_ACTIVE_LATER = true) by (apply (ao_later_in _ _ Ha); rewrite Hlat; set_solver).
  assert (Hae : fl (evs b !!! e) EVLIST_ACTIVE = false).
  { destruct (fl _ EVLIST_ACTIVE) eqn:E; [|done]. apply (ao_excl _ _ Ha) in E. congruence. }
  pose proof (in_U U _ _ _ Hi Hle) as HU.
  destruct (active_queue U b e Hi) as (al & Hal & _ & _).
  pose proof (ao_pri _ _ Ha e) as Hpri.
  unfold upd_event, get_event, the_event, get_activeq.
  do 8 wp_step. cbn [set_later set_qs set_evs evs qs nactivequeues activequeues].
  rewrite lookup_total_insert_eq.
  change (ev_pri (set_flag _ _)) with (ev_pri (evs b !!! e)).
  do 2 wp_step; [apply Z.ltb_lt; apply Hpri|]. do 3 wp_step. eapply wp_deref; [exact Hal|]. do 4 wp_step.
  set (w := promoted (evs b !!! e)).
  match goal with |- wp _ _ ?st => set (b1 := st) end.
  assert (Hev1 : evs b1 !!! e = w) by apply lookup_total_insert_eq.
  assert (Hne1 : ∀ x, x ≠ e → evs b1 !!! x = evs b !!! x) by (intros x Hx; by apply lookup_total_insert_ne).
  destruct (promoted_weight _ Hae Hle) as [Hw1 Hw2].
  assert (Hi1 : inv b1).
  { apply (inv_upd_act U b b1 e w); try done; unfold timer_view, map_view, w, promoted; fl_simpl; try done.
    - apply (ci_flags Hi).
    - eapply (act_ok_promote (evs b) (qs b) e l al); done.
    - by apply cnt_ok_same; [apply (ci_cnt Hi)|..]. }
  assert (Ha1 : api_frame b b1).
  { split; try done. unfold nactivequeues, b1. cbn. by rewrite zlen_insert. }
  assert (Hb1 : good b1).
  { eapply good_tame with (e := e); [done|done|done|by eapply only_insert|]. rewrite Hev1.
    split; unfold w, promoted; fl_simpl; try done; rewrite ?fl_queued, ?Hle, ?orb_true_r; auto. }
  apply IH; [done|done|]. intros b2 Hb2 [P1 P2 P3 P4 P5 P6 P7].
  assert (Hel : e ∉ l).
  { pose proof (ao_later _ _ Ha) as Hnd. rewrite Hlat in Hnd. by apply NoDup_cons in Hnd as [? _]. }
  apply HQ; [done|]. split; try done.
  - by eapply api_trans.
  - intros x. rewrite P2. destruct (decide (x = e)) as [->|Hxe].
    + rewrite decide_False, decide_True by set_solver. by rewrite Hev1.
    + rewrite Hne1 by done. destruct (decide (x ∈ l)), (decide (x ∈ e :: l)); done || set_solver.
  - intros i q Hq. unfold joined. rewrite filter_cons.
    assert (Hjoin : joined (evs b1) i l = joined (evs b) i l).
    { unfold joined. apply list_filter_iff. intros x. change (evs b1) with (<[e := w]> (evs b)). by rewrite (view_insert ev_pri). }
    assert (Hq1 : zget (activequeues (qs b1)) i =
              Some (if decide (ev_pri (evs b !!! e) = i) then q ++ [e] else q)).
    { unfold b1. cbn. rewrite zget_insert by done. destruct (decide _) as [<-|]; [by simplify_eq|done]. }
    rewrite (P7 _ _ Hq1), Hjoin. unfold joined. destruct (decide _); [by rewrite <-app_assoc|done].
Qed.

Lemma wp_make_later (b : base) (Q : unit → base → Prop) :
  good b → (∀ b', good b' → promoted_all (active_later_queue (qs b)) b b' → Q tt b') →
  wp event_queue_make_later_events_active Q b.
Proof.
  intros Hb HQ. unfold event_queue_make_later_events_active. do 2 wp_step. by apply wp_make_later_loop.
Qed.

(** ** Common timeouts *)

Lemma ctl_at (b b' : base) i c :
  api_frame b b' → zget (common_timeout_queues (tms b)) i = Some c →
  ∃ c', zget (common_timeout_queues (tms b')) i = Some c' ∧ timeout_event c' = timeout_event c.
Proof.
  intros Ha Hg. destruct (zget_in_range (common_timeout_queues (tms b')) i) as [c' Hc'].
  { apply zget_Some_range in Hg. pose proof (n_common_api U _ _ Ha) as Hn. unfold n_common_timeouts in Hn. lia. }
  exists c'. split; [done|].
  destruct (ctl_skeleton _ _ _ _ (af_ctl Ha) Hc') as (c0 & Hg0 & <- & _). by simplify_eq.
Qed.

(** The list of a common timeout after its first event fired. *)
Lemma fired_list (b b' : base) i c c' e :
  inv b → inv b' → only e b b' → core (evs b' !!! e) = core (fired (evs b !!! e)) →
  zget (common_timeout_queues (tms b)) i = Some c → zget (common_timeout_queues (tms b')) i = Some c' →
  e ∈ ctl_events c → length (ctl_events c) = S (length (ctl_events c')).
Proof.
  intros Hi Hi' Ho Hc Hg Hg' He. pose proof (ci_tm Hi) as Ht. pose proof (ci_tm Hi') as Ht'.
  assert (Hp : ctl_events c ≡ₚ e :: ctl_events c').
  { apply NoDup_Permutation.
    - by eapply (to_nodup _ _ Ht).
    - apply NoDup_cons. split; [|by eapply (to_nodup _ _ Ht')].
      rewrite (to_list _ _ Ht' _ _ e Hg'), (core_fl _ _ _ Hc), fired_flags by auto. by intros [? _].
    - intros x. rewrite elem_of_cons, (to_list _ _ Ht _ _ x Hg), (to_list _ _ Ht' _ _ x Hg').
      destruct (decide (x = e)) as [->|Hx].
      + split; [auto|]. intros _. by apply (to_list _ _ Ht _ _ e Hg).
      + destruct (core_fields _ _ (Ho x Hx)) as (_ & _ & _ & _ & _ & _ & _ & _ & -> & _).
        rewrite (core_fl _ _ _ (Ho x Hx)). split; [auto|by intros [?|?]]. }
  by apply Permutation_length in Hp.
Qed.

Lemma wp_common_loop i now : ∀ fuel (b : base) c (Q : option evid → base → Prop),
  good b → zget (common_timeout_queues (tms b)) i = Some c → (length (ctl_events c) <= fuel)%nat →
  (∀ r b', good b' → api_frame b b' →
     match r with
     | None => True
     | Some e => common_tv i (ev_timeout (evs b' !!! e))
     end → Q r b') →
  wp (common_timeout_loop fuel i now) Q b.
Proof.
  induction fuel as [|fuel IH]; intros b c Q Hb Hg Hlen HQ; cbn [common_timeout_loop]; unfold get_ctl.
  all: do 3 wp_step; (eapply wp_deref; [exact Hg|]).
  all: destruct (ctl_events c) as [|e l] eqn:El; cbn [head]; [wp_step; by apply HQ|].
  { simpl in Hlen. lia. }
  unfold get_event, the_event. do 2 wp_step.
  assert (He : e ∈ ctl_events c) by (rewrite El; set_solver).
  apply (to_list _ _ (ci_tm (bv_core Hb)) _ _ e Hg) in He as Hf. destruct Hf as [Hf Hct].
  destruct (_ || _); [wp_step; by apply HQ|].
  assert (W : wp (_ ← event_del_nolock_ e false; event_active_nolock_ e EV_TIMEOUT 1)
                (λ _ b', wp (common_timeout_loop fuel i now) Q b') b).
  { apply wp_fire; [done|done|]. intros b1 Hb1 Ha1 Ho1 Hc1 _.
    destruct (ctl_at _ _ _ _ Ha1 Hg) as (c1 & Hg1 & _).
    eapply IH; [done|exact Hg1| |].
    - pose proof (fired_list _ _ _ _ _ _ (bv_core Hb) (bv_core Hb1) Ho1 Hc1 Hg Hg1 He) as Hl.
      rewrite El in Hl. simpl in *. lia.
    - intros r b2 Hb2 Ha2 Hr. apply HQ; [done|by eapply api_trans|done]. }
  apply wp_bind in W. wp_step. eapply wp_mono; [exact W|]. intros r b1 W1.
  wp_step. eapply wp_mono; [exact W1|]. intros [] b2 W2. exact W2.
Qed.

Lemma wp_common_callback i (b : base) (Q : unit → base → Prop) :
  good b → Z.of_nat i < n_common_timeouts b → (∀ b', good b' → api_frame b b' → Q tt b') →
  wp (common_timeout_callback i) Q b.
Proof.
  intros Hb Hi HQ. unfold common_timeout_callback. wp_step.
  apply wp_gettime_now; [apply (bv_cache Hb)|]. intros now b1 Hq1 _ _.
  pose proof (good_quiet U _ _ Hb Hq1) as Hb1.
  destruct (zget_in_range (common_timeout_queues (tms b1)) (Z.of_nat i)) as [c Hg].
  { pose proof (n_common_api U _ _ (qt_api Hq1)) as Hn. unfold n_common_timeouts in *. lia. }
  unfold get_ctl. do 3 wp_step. eapply wp_deref; [exact Hg|]. wp_step.
  eapply wp_common_loop; [done|exact Hg|done|]. intros r b2 Hb2 Ha2 Hr.
  destruct r as [e|]; [|wp_step; apply HQ; [done|eapply api_trans; [apply Hq1|done]]].
  destruct (ctl_at _ _ _ _ Ha2 Hg) as (c2 & Hg2 & _).
  do 3 wp_step. eapply wp_deref; [exact Hg2|].
  eapply (wp_schedule U U_nodup U_small); [done|done|done|]. intros b3 Hb3 Ha3 _.
  apply HQ; [done|]. eapply api_trans; [apply Hq1|]. by eapply api_trans.
Qed.

(** A base with one more list of common timeouts. *)
Definition with_list (c : common_timeout_list) (t : timers) : timers :=
  Timers (timeheap t) (common_timeout_queues t ++ [c]).

Lemma zget_with_list t c i c' :
  zget (common_timeout_queues (with_list c t)) i = Some c' →
  zget (common_timeout_queues t) i = Some c' ∧ i < zlen (common_timeout_queues t) ∨
  i = zlen (common_timeout_queues t) ∧ c' = c.
Proof.
  unfold with_list. cbn [common_timeout_queues]. intros Hg.
  destruct (Z.lt_ge_cases i (zlen (common_timeout_queues t))).
  - rewrite zget_app_l in Hg by done. auto.
  - pose proof (zget_Some_range _ _ _ Hg) as Hr. rewrite zlen_app in Hr. change (zlen [c]) with 1 in Hr.
    assert (i = zlen (common_timeout_queues t)) as -> by lia.
    rewrite zget_app_r, Z.sub_diag in Hg by lia. right. split; [done|]. by injection Hg as <-.
Qed.

Lemma good_tv_mono n n' tv : n <= n' → good_tv n tv → good_tv n' tv.
Proof. intros Hn [?|(i & ? & ?)]; [by left|right]. exists i. split; [lia|done]. Qed.
Lemma good_tv_fresh n tv : 0 <= n < 256 → good_tv n tv → ¬ common_tv n tv.
Proof.
  intros Hn [Hp|(i & Hi & w & Hw & Hu)] Hc.
  - by eapply plain_not_common.
  - destruct Hc as (w' & Hw' & Hu'). unfold common_usec in *. lia.
Qed.
Lemma is_common_mono n tv :
  0 <= n < 256 → good_tv n tv → is_common_timeout tv (n + 1) = is_common_timeout tv n.
Proof.
  intros Hn [Hp|(i & Hi & Hc)].
  - by destruct (plain_tv_spec tv n Hp) as (-> & _), (plain_tv_spec tv (n + 1) Hp) as (-> & _).
  - destruct (common_tv_spec i tv n Hc) as (-> & _); [lia..|].
    by destruct (common_tv_spec i tv (n + 1) Hc) as (-> & _); [lia..|].
Qed.

Lemma tm_ok_with_list s t d f :
  tm_ok s t → zlen (common_timeout_queues t) < 256 → common_tv (zlen (common_timeout_queues t)) d →
  tm_ok s (with_list (Ctl d f []) t).
Proof.
  intros [Hh Hm Hn Hl Hd Hc Hx Hso] Hmax Hcd. set (n := zlen (common_timeout_queues t)) in *.
  assert (Hn0 : 0 <= n) by apply Zle_0_nat.
  assert (Hlen : zlen (common_timeout_queues (with_list (Ctl d f []) t)) = n + 1).
  { unfold with_list. cbn. rewrite zlen_app. done. }
  split; rewrite ?Hlen.
  - done.
  - intros e. rewrite Hm. split; intros [Hf Hco]; (split; [done|]).
    + rewrite is_common_mono; [done|lia|by apply Hd].
    + rewrite is_common_mono in Hco; [done|lia|by apply Hd].
  - intros i c [[Hg _]|[-> ->]]%zget_with_list; [by eapply Hn|constructor].
  - intros i c e [[Hg _]|[-> ->]]%zget_with_list; [by apply Hl|]. fold n. cbn [ctl_events].
    split; [set_solver|]. intros [Hf Hco]. by destruct (good_tv_fresh n _ ltac:(lia) (Hd _ Hf)).
  - intros e Hf. eapply good_tv_mono; [|by apply Hd]. lia.
  - intros i c [[Hg _]|[-> ->]]%zget_with_list; [by eapply Hc|done].
  - lia.
  - intros i c [[Hg _]|[-> ->]]%zget_with_list; [by eapply Hso|constructor].
Qed.

Lemma callback_ok_mono n n' cb : n <= n' → callback_ok n cb → callback_ok n' cb.
Proof. intros Hn. induction cb; simpl; auto. lia. Qed.
Lemma event_ok_mono n n' v : n <= n' → event_ok n v → event_ok n' v.
Proof.
  intros Hn [H1 H2 H3 H4 H5]. split; try done; [|by eapply callback_ok_mono].
  intros Hc Hi. destruct (H1 Hc Hi) as (? & ? & ?). split_and!; [done|by eapply good_tv_mono..].
Qed.

Lemma good_with_list (b : base) d f w :
  good b → n_common_timeouts b < 256 → common_tv (n_common_timeouts b) d →
  f ∈ U → user_event b f → idle (evs b !!! f) → idle w → fl w (Z.lnot EVLIST_ALL) = false →
  0 <= ev_pri w < nactivequeues b → min_heap_idx w = -1 → ev_io_timeout w = TV 0 0 ∨ ev_closure w = EV_CLOSURE_EVENT →
  closure_ok w → timer_event_ok (n_common_timeouts b) w →
  good (set_tms (with_list (Ctl d f []) (tms b)) (set_evs (<[f := w]> (evs b)) b)).
Proof.
  intros Hb Hmax Hcd HU Hu Hid Hw Hf Hp Hx Hper Hclo Hte.
  pose proof (inv_idle U b f w (bv_core Hb) HU Hid Hw Hf Hp Hx) as [I1 I2 I3 I4 I5 I6].
  assert (Hn : n_common_timeouts (set_tms (with_list (Ctl d f []) (tms b)) (set_evs (<[f := w]> (evs b)) b)) =
               n_common_timeouts b + 1).
  { unfold n_common_timeouts. cbn. rewrite zlen_app. done. }
  split; [split; try done|apply Hb| |apply Hb|]; rewrite ?Hn; cbn [set_tms set_evs tms evs].
  - by apply tm_ok_with_list.
  - intros i c [[Hg Hi]|[-> ->]]%zget_with_list.
    + destruct (bv_ctl Hb i c Hg) as [HUc Hok]. split; [done|]. cbn [set_tms set_evs evs].
      rewrite lookup_total_insert_ne; [done|]. intros E. by apply (Hu _ _ Hg).
    + split; [done|]. cbn [timeout_event set_tms set_evs evs]. by rewrite lookup_total_insert_eq.
  - intros x. destruct (decide (x = f)) as [->|Hne].
    + rewrite lookup_total_insert_eq. apply idle_event_ok; [done| |done|].
      * intros Hc Hi. destruct Hper; congruence.
      * rewrite (te_callback _ _ Hte). cbn [callback_ok]. rewrite Z2Nat.id by apply Zle_0_nat. lia.
    + rewrite lookup_total_insert_ne by done. eapply event_ok_mono; [|apply (bv_event Hb)]. lia.
Qed.

Lemma normal_duration_plain d n :
  0 <= tv_usec d → - 2 ^ 63 <= tv_sec d < 2 ^ 63 → n <= 256 → plain_tv (normal_duration d n).
Proof.
  intros Hd Hs Hn. unfold normal_duration. destruct (Z.ltb_spec 1000000 (tv_usec d)); [|unfold plain_tv; lia].
  set (t := if is_common_timeout d n then mask_usec d else d).
  assert (0 <= tv_usec t).
  { unfold t. destruct (is_common_timeout d n); [|done]. by apply Z.land_nonneg; right. }
  split; [|apply i64_range]. cbn [tv_usec]. pose proof (Z.rem_bound_pos (tv_usec t) 1000000). lia.
Qed.

Lemma magic_lor i w :
  0 <= i < 256 → 0 <= w < 2 ^ 20 →
  Z.lor (Z.lor w COMMON_TIMEOUT_MAGIC) (Z.shiftl i COMMON_TIMEOUT_IDX_SHIFT) = common_usec i w.
Proof.
  intros Hi Hw. rewrite <-(lor_common i w Hw Hi), <-Z.lor_assoc. f_equal.
  set (x := Z.shiftl i COMMON_TIMEOUT_IDX_SHIFT).
  assert (Hx : x = i * 2 ^ 20) by (unfold x, COMMON_TIMEOUT_IDX_SHIFT; by rewrite Z.shiftl_mul_pow2).
  assert (Hland : Z.land COMMON_TIMEOUT_MAGIC x = 0).
  { assert (E : x = Z.land x (Z.ones 28)).
    { rewrite Z.land_ones by done. rewrite Z.mod_small; [done|]. change (2 ^ 20) with 1048576 in Hx.
      change (2 ^ 28) with 268435456. lia. }
    rewrite E, (Z.land_comm COMMON_TIMEOUT_MAGIC), <-Z.land_assoc.
    change (Z.land (Z.ones 28) COMMON_TIMEOUT_MAGIC) with 0. apply Z.land_0_r. }
  pose proof (Z.add_lor_land COMMON_TIMEOUT_MAGIC x) as Ha. unfold common_usec. lia.
Qed.

Lemma wp_init_common d f ok (b : base) (Q : option timeval → base → Prop) :
  good b → 0 <= tv_usec d → - 2 ^ 63 <= tv_sec d < 2 ^ 63 → f ∈ U → user_event b f → idle (evs b !!! f) →
  (∀ r b', good b' → (r = None → evs b' = evs b ∧ tms b' = tms b) →
     (∀ x, x ≠ f → evs b' !!! x = evs b !!! x) →
     (∀ d', r = Some d' → is_common_timeout d' (n_common_timeouts b') = true ∧
        n_common_timeouts b <= n_common_timeouts b' ∧
        tv_sec d' = tv_sec (normal_duration d (n_common_timeouts b)) ∧
        Z.land (tv_usec d') MICROSECONDS_MASK = tv_usec (normal_duration d (n_common_timeouts b))) → Q r b') →
  wp (event_base_init_common_timeout d f ok) Q b.
Proof.
  intros Hb Hd Hds HU Hu Hid HQ. unfold event_base_init_common_timeout. do 2 wp_step.
  pose proof (ci_tm (bv_core Hb)) as Ht. pose proof (to_max _ _ Ht) as Hmax. fold (n_common_timeouts b) in Hmax.
  pose proof (normal_duration_plain d _ Hd Hds Hmax) as Hp. set (d1 := normal_duration d (n_common_timeouts b)) in *.
  destruct (List.find _ _) as [c|] eqn:Ef.
  - apply List.find_some in Ef as [Hin Hs]. apply list_elem_of_In, list_elem_of_lookup in Hin as [i Hi].
    assert (Hg : zget (common_timeout_queues (tms b)) (Z.of_nat i) = Some c).
    { rewrite zget_nonneg by lia. by rewrite Nat2Z.id. }
    pose proof (to_ctl _ _ Ht _ _ Hg) as Hct. pose proof (zget_Some_range _ _ _ Hg) as Hr.
    destruct (common_tv_spec _ _ (n_common_timeouts b) Hct) as (Hco & _); [done..|].
    wp_step. wp_step; [done|]. wp_step. apply HQ; try done. intros d' [= <-].
    unfold same_duration in Hs. apply andb_true_iff in Hs as [?%Z.eqb_eq ?%Z.eqb_eq]. done.
  - destruct (Z.eqb_spec (n_common_timeouts b) MAX_COMMON_TIMEOUTS) as [E|E]; [wp_step; by apply HQ|].
    destruct ok; cbn [negb]; [|wp_step; by apply HQ].
    assert (Hlt : n_common_timeouts b < 256) by (unfold MAX_COMMON_TIMEOUTS in E; lia).
    assert (Hn0 : 0 <= n_common_timeouts b) by apply Zle_0_nat.
    unfold plain_tv in Hp.
    change (2 ^ 20) with 1048576 in *.
    pose proof (magic_lor (n_common_timeouts b) (tv_usec d1)) as Hus. rewrite Hus by lia.
    set (d2 := TV (tv_sec d1) (common_usec (n_common_timeouts b) (tv_usec d1))).
    assert (Hcd : common_tv (n_common_timeouts b) d2) by (exists (tv_usec d1); by destruct Hp).
    pose proof (default_pri U b Hb) as Hdp.
    pose proof (ao_pri _ _ (ci_act (bv_core Hb)) f) as Hpf. fold (nactivequeues b) in Hpf.
    unfold event_assign, event_priority_set, get_event, upd_event, the_event.
    change (has 0 EV_SIGNAL) with false. change (has 0 EV_PERSIST) with false. cbn [andb]. cbv iota.
    do 10 wp_step. cbn [set_evs evs]. rewrite lookup_total_insert_eq, insert_insert_eq.
    match goal with |- context [<[f := ?w0]> (evs b)] => set (w1 := w0) end.
    do 4 wp_step. cbn [set_evs evs]. rewrite lookup_total_insert_eq.
    change (has (ev_flags w1) EVLIST_ACTIVE) with false. cbv iota. wp_step.
    match goal with |- context [(0 <? 0) || ?c] => assert (Hn : c = false) end.
    { apply Z.leb_gt. change (0 < nactivequeues b). lia. }
    rewrite Hn. change ((0 <? 0) || false) with false. cbv iota.
    do 5 wp_step. cbn [set_evs evs]. rewrite lookup_total_insert_eq, insert_insert_eq.
    set (w := set_pri (u8 0) w1).
    match goal with |- wp _ _ ?st => set (b1 := st) end.
    assert (Hb1 : good b1).
    { apply (good_with_list b d2 f w); try done; [|by right]. change (0 <= 0 < nactivequeues b). lia. }
    assert (Hn1 : n_common_timeouts b1 = n_common_timeouts b + 1).
    { unfold n_common_timeouts. cbn. rewrite zlen_app. done. }
    destruct (common_tv_spec _ _ (n_common_timeouts b1) Hcd) as (Hco & _); [lia..|].
    do 2 wp_step. wp_step. wp_step; [done|]. wp_step. apply HQ; [done|done| |].
    + intros x Hx. by apply lookup_total_insert_ne.
    + intros d' [= <-]. split_and!; [done|lia|done|].
      apply (common_usec_bits (n_common_timeouts b) (tv_usec d1)); lia.
Qed.
End timers.
