(* ===== verification/EventRun.v ===== *)
(** Running callbacks and the loop: no assertion fails and the invariant of the
    base survives, whatever the callbacks of the program and the backend do
    within their contracts. *)
From S2P Require Import Prelude Timeval MinHeap EventDefs EventApi EventLoop EventInv.
From S2P Require Import EventQueue EventOps EventAdd EventBase EventTimers.

(** ** Periods *)

Section periods.
Context {CK : Clock}.


Lemma same_common_cases n a b :
  good_tv n a → good_tv n b → n <= 256 → is_same_common_timeout a b = true →
  plain_tv a ∧ plain_tv b ∨ ∃ i, 0 <= i < n ∧ common_tv i a ∧ common_tv i b.
Proof.
  unfold is_same_common_timeout. intros [Ha|(i & Hi & Ha)] [Hb|(j & Hj & Hb)] Hn Hs%Z.eqb_eq.
  - by left.
  - destruct (plain_tv_spec a n Ha) as (_ & E1 & _), (common_tv_spec j b n Hb Hj Hn) as (_ & _ & E2 & _).
    rewrite E1, E2 in Hs. unfold common_usec, COMMON_TIMEOUT_MAGIC in Hs. lia.
  - destruct (plain_tv_spec b n Hb) as (_ & E1 & _), (common_tv_spec i a n Ha Hi Hn) as (_ & _ & E2 & _).
    rewrite E1, E2 in Hs. unfold common_usec, COMMON_TIMEOUT_MAGIC in Hs. lia.
  - right. exists i. split_and!; [lia..|done|].
    destruct (common_tv_spec i a n Ha Hi Hn) as (_ & _ & E1 & _), (common_tv_spec j b n Hb Hj Hn) as (_ & _ & E2 & _).
    rewrite E1, E2 in Hs. unfold common_usec in Hs. assert (i = j) as -> by lia. done.
Qed.

(** The next due time of a persistent event is one the base can hold, and
    belongs to the same list as its period. *)
Lemma persist_run_at_ok v now n :
  tv_norm now → n <= 256 → good_tv n (ev_timeout v) → good_tv n (ev_io_timeout v) →
  is_same_common_timeout (ev_timeout v) (ev_io_timeout v) = true →
  good_tv n (persist_run_at v now n) ∧
  is_same_common_timeout (persist_run_at v now n) (ev_io_timeout v) = true ∧
  (is_common_timeout (ev_timeout v) n = true → ¬ plain_tv (persist_run_at v now n)).
Proof.
  intros Hnow Hn Ht Hp Hs.
  destruct (same_common_cases _ _ _ Ht Hp Hn Hs) as [[H1 H2]|(i & Hi & H1 & H2)]; unfold persist_run_at.
  - destruct (plain_tv_spec _ n H1) as (-> & _), (plain_tv_spec _ n H2) as (_ & E2 & _).
    set (rel := if has (ev_res v) EV_TIMEOUT then ev_timeout v else now).
    assert (Hrel : 0 <= tv_usec rel <= 1000000) by (unfold rel; destruct (has _ _); [by eapply plain_usec|by apply norm_usec]).
    match goal with |- context [tv_sec ?r0] => set (r := r0) end.
    assert (Hr : plain_tv r) by (unfold r; destruct (evutil_timercmp _ _ _); apply timeradd_plain; try done; by apply norm_usec).
    rewrite Z.lor_0_r. change (TV (tv_sec r) (tv_usec r)) with (TV (tv_sec r) (tv_usec r)).
    assert (Hr' : plain_tv (TV (tv_sec r) (tv_usec r))) by exact Hr.
    split; [by left|]. split; [|done]. unfold is_same_common_timeout.
    destruct (plain_tv_spec _ n Hr') as (_ & -> & _). by rewrite E2.
  - destruct (common_tv_spec i _ n H1 Hi Hn) as (-> & _ & _ & M1), (common_tv_spec i _ n H2 Hi Hn) as (_ & _ & E2 & M2).
    set (rel := if has (ev_res v) EV_TIMEOUT then mask_usec (ev_timeout v) else now).
    assert (Hrel : 0 <= tv_usec rel <= 1000000) by (unfold rel; destruct (has _ _); [by eapply plain_usec|by apply norm_usec]).
    match goal with |- context [tv_sec ?r0] => set (r := r0) end.
    assert (Hr : plain_tv r) by (unfold r; destruct (evutil_timercmp _ _ _); apply timeradd_plain; try done; by apply norm_usec).
    assert (Hc : common_tv i (TV (tv_sec r) (Z.lor (tv_usec r) (tv_usec (ev_io_timeout v) &~ MICROSECONDS_MASK)%ev))).
    { exists (tv_usec r). destruct Hr as [Hr Hrs]. split; [exact Hr|]. split; [|exact Hrs]. cbn [tv_usec]. rewrite E2.
      apply lor_common; [|lia]. change (2 ^ 20) with 1048576. lia. }
    split; [right; by exists i|]. split; [by eapply common_same|].
    intros _ Hpl. eapply plain_not_common; [exact Hpl|exact Hc|lia].
Qed.
End periods.

(** ** Contracts *)

(** What the loop relies on across calls. *)
Record loop_frame {M} (b b' : event_base M) : Prop := {
  lf_nq : nactivequeues b' = nactivequeues b;
  lf_cfg : cfg b' = cfg b;
  lf_common : n_common_timeouts b <= n_common_timeouts b'
}.

(** Callbacks of the program and the backend may use the operations of the
    library as they like, but respect the invariant. *)
Class EnvLaws (M : Type) {EO : EvmapOps M} {EL : EvmapLaws M} {CK : Clock} {EN : Env M} (U : list evid) := {
  user_callback_ok f e res b :
    base_inv U b → wp (user_callback f e res) (λ _ b', base_inv U b' ∧ loop_frame b b') b;
  dispatch_ok tv b :
    base_inv U b → wp (dispatch tv) (λ _ b', base_inv U b' ∧ loop_frame b b') b
}.

Section run.
Context {M : Type} {EO : EvmapOps M} {EL : EvmapLaws M} {CK : Clock} {CL : ClockLaws} {RA : Realloc}.
Context {EN : Env M}.
Abbreviation base := (event_base M).
Context (U : list evid) (U_nodup : NoDup U) (U_small : zlen U < 2 ^ 31) {ENL : EnvLaws M U}.
Abbreviation inv := (core_inv U).
Abbreviation good := (base_inv U).

Lemma lf_refl (b : base) : loop_frame b b.
Proof. by split. Qed.
Lemma lf_trans (b1 b2 b3 : base) : loop_frame b1 b2 → loop_frame b2 b3 → loop_frame b1 b3.
Proof. intros [] []. split; [congruence..|lia]. Qed.
Lemma lf_api (b b' : base) : api_frame b b' → loop_frame b b'.
Proof. intros Ha. split; [apply (af_nq Ha)|apply (af_cfg Ha)|by rewrite (n_common_api U _ _ Ha)]. Qed.
Lemma good_lp f (b : base) : good b → good (upd_lp f b).
Proof. intros [[] ? ? ? ?]. by split. Qed.
Lemma lf_lp f (b : base) : loop_frame b (upd_lp f b).
Proof. by split. Qed.

(** One step of the loop: the invariant and the frame. *)
Definition safe {A} (m : prog base A) : Prop :=
  ∀ b, good b → wp m (λ _ b', good b' ∧ loop_frame b b') b.
Lemma wp_safe {A} (m : prog base A) b (Q : A → base → Prop) :
  safe m → good b → (∀ a b', good b' → loop_frame b b' → Q a b') → wp m Q b.
Proof. intros Hm Hb HQ. eapply wp_mono; [by apply Hm|]. intros a b' []. by apply HQ. Qed.
Lemma wp_safe_run {A} (m : prog base A) b (Q : A → base → Prop) :
  safe m → good b → (∀ a b', m b = Some (a, b') → good b' → loop_frame b b' → Q a b') → wp m Q b.
Proof.
  intros Hm Hb HQ. specialize (Hm b Hb). unfold wp in *. destruct (m b) as [[a b']|] eqn:E; [|done].
  destruct Hm. by apply HQ.
Qed.
Lemma safe_ret {A} (a : A) : safe (mret a).
Proof. intros b Hb. wp_step. by split; [|apply lf_refl]. Qed.
Lemma safe_bind {A B} (m : prog base A) (k : A → prog base B) :
  safe m → (∀ a, safe (k a)) → safe (m ≫= k).
Proof.
  intros Hm Hk b Hb. wp_step. apply wp_safe; [done..|]. intros a b1 Hb1 H1.
  apply wp_safe; [done..|]. intros a2 b2 Hb2 H2. split; [done|by eapply lf_trans].
Qed.
Lemma safe_gets {A} (f : base → A) : safe (gets f).
Proof. intros b Hb. wp_step. by split; [|apply lf_refl]. Qed.
Lemma safe_get : safe get_state.
Proof. intros b Hb. wp_step. by split; [|apply lf_refl]. Qed.
Lemma safe_lp f : safe (modify (upd_lp f)).
Proof. intros b Hb. wp_step. split; [by apply good_lp|apply lf_lp]. Qed.
Lemma safe_when c (m : prog base unit) : safe m → safe (when c m).
Proof. intros Hm. destruct c; [done|apply safe_ret]. Qed.
Lemma safe_if {A} (c : bool) (m1 m2 : prog base A) : safe m1 → safe m2 → safe (if c then m1 else m2).
Proof. by destruct c. Qed.

Hint Resolve safe_ret safe_gets safe_get safe_lp safe_when safe_if : evlib.
Ltac safe_step := first [ apply safe_bind; [|intros ?] | apply safe_when | apply safe_if | solve [eauto with evlib] ].

(** ** Callbacks *)

Lemma set_calls_ok e n p b (Q : unit → base → Prop) :
  good b → (∀ b', good b' → api_frame b b' → Q tt b') → wp (upd_event e (set_calls n p)) Q b.
Proof.
  intros Hb HQ. apply (wp_upd_good U); [done|done|split; auto|]. intros b' Hb' Hr _ _ _ _.
  apply HQ; [done|by apply rest_api].
Qed.
Lemma safe_calls e (f : event → event) :
  (∀ v, ∃ n p, f v = set_calls n p v) → safe (upd_event e f).
Proof.
  intros Hf b Hb. apply (wp_upd_good U); [done| | |].
  - intros v. destruct (Hf v) as (n & p & ->). done.
  - destruct (Hf (evs b !!! e)) as (n & p & ->). split; auto.
  - intros b' Hb' Hr _ _ _ _. split; [done|]. by apply lf_api, rest_api.
Qed.

Lemma run_callback_ok cb e res b (Q : unit → base → Prop) :
  good b → callback_ok (n_common_timeouts b) cb →
  (∀ b', good b' → loop_frame b b' → Q tt b') → wp (run_callback cb e res) Q b.
Proof.
  intros Hb Hcb HQ. induction cb as [f|i| |cb IH]; cbn [run_callback callback_ok] in *.
  - eapply wp_mono; [by apply user_callback_ok|]. intros [] b' []. by apply HQ.
  - eapply wp_common_callback; [done..|]. intros b' Hb' Ha. apply HQ; [done|by apply lf_api].
  - apply wp_safe; [apply safe_lp|done|]. intros []. apply HQ.
  - by apply IH.
Qed.
Lemma safe_call e : safe (call_event e).
Proof.
  intros b Hb. unfold call_event, get_event, the_event. do 2 wp_step.
  apply run_callback_ok; [done|apply (bv_event Hb)|done].
Qed.

(** The rounds suffice for every number of calls a [short] can hold. *)
Lemma i16_pred n : -32768 <= n < 32768 → n ≠ 0 → i16 (n - 1) mod 65536 = n mod 65536 - 1 ∧ -32768 <= i16 (n - 1) < 32768.
Proof.
  intros Hn H0. unfold i16, swrap. change (2 ^ 16) with 65536. change (2 ^ (16 - 1)) with 32768.
  Z.div_mod_to_equations. lia.
Qed.
Lemma i16_range n : -32768 <= i16 n < 32768.
Proof. unfold i16, swrap. change (2 ^ 16) with 65536. change (2 ^ (16 - 1)) with 32768. Z.div_mod_to_equations. lia. Qed.

Lemma safe_signal_loop e : ∀ fuel n,
  -32768 <= n < 32768 → (Z.to_nat (n mod 65536) <= fuel)%nat → safe (signal_loop fuel e n).
Proof.
  induction fuel as [|fuel IH]; intros n Hn Hf; cbn [signal_loop].
  all: destruct (Z.eqb_spec n 0) as [|H0]; [apply safe_ret|].
  { lia. }
  destruct (i16_pred n Hn H0) as [Hm Hr].
  apply safe_bind; [apply safe_calls; eauto|]. intros _.
  apply safe_bind; [apply safe_lp|]. intros _.
  apply safe_bind; [apply safe_call|]. intros _.
  apply safe_bind; [apply safe_get|]. intros b. destruct (event_break (lp b)).
  - apply safe_when, safe_calls; eauto.
  - apply IH; destruct (ncalls_zeroed (lp b)); try lia.
Qed.
Lemma safe_signal_closure e : safe (event_signal_closure e).
Proof.
  unfold event_signal_closure. apply safe_bind; [apply safe_gets|]. intros v.
  apply safe_bind; [apply safe_when, safe_calls; eauto|]. intros _.
  apply safe_signal_loop; [apply i16_range|done].
Qed.

(** ** Persistent events *)

(** Rescheduling needs an event that belongs to the base. *)
Lemma persist_ok e b (Q : unit → base → Prop) :
  good b → e ∈ U → may_run (evs b !!! e) → ev_closure (evs b !!! e) = EV_CLOSURE_EVENT_PERSIST →
  (∀ b', good b' → api_frame b b' → Q tt b') → wp (persist_reschedule e) Q b.
Proof.
  intros Hb HU Hr Hc HQ. unfold persist_reschedule, get_event, the_event. do 2 wp_step.
  set (v := evs b !!! e) in *.
  destruct (negb (tv_sec (ev_io_timeout v) =? 0) || negb (tv_usec (ev_io_timeout v) =? 0)) eqn:Eset;
    cbn [when]; [|wp_step; by apply HQ].
  assert (Hset : ev_io_timeout v ≠ TV 0 0) by (intros E; by rewrite E in Eset).
  destruct (eo_period _ _ (bv_event Hb e) Hc Hset) as (Hs & Ht & Hp).
  pose proof (eo_closure _ _ (bv_event Hb e)) as Hini. unfold closure_ok in Hini. fold v in Hini. rewrite Hc in Hini.
  wp_step. wp_step; [done|]. wp_step. apply wp_gettime_now; [apply (bv_cache Hb)|].
  intros now b1 Hq1 Hn _. pose proof (good_quiet U _ _ Hb Hq1) as Hb1.
  pose proof (n_common_api U _ _ (qt_api Hq1)) as Hnc.
  pose proof (to_max _ _ (ci_tm (bv_core Hb))) as Hmax. fold (n_common_timeouts b) in Hmax.
  do 2 wp_step. rewrite Hnc.
  destruct (persist_run_at_ok v now (n_common_timeouts b)) as (G1 & G2 & G3); [done..|].
  wp_step. apply (wp_event_add_nolock U U_nodup U_small); [done|done| | |].
  { rewrite (qt_evs Hq1). by apply Hr. }
  - intros t [= <-]. split; rewrite ?(qt_evs Hq1), ?Hnc; fold v.
    + done.
    + left. intros i c Hg Heq. destruct (bv_ctl Hb1 _ _ Hg) as [_ [_ Hcl _ _ _]].
      rewrite (qt_evs Hq1), Heq in Hcl. fold v in Hcl. congruence.
    + done.
    + intros _ _ _. cbn [set_timeout ev_timeout ev_io_timeout]. done.
    + intros Hpl Hf. unfold room_for. rewrite (qt_evs Hq1), Hnc. fold v. rewrite Hf.
      destruct (is_common_timeout (ev_timeout v) _) eqn:E; [by destruct G3|done].
  - intros b2 r Hb2 Had. wp_step. apply HQ; [done|]. eapply api_trans; [apply Hq1|apply (ad_api Had)].
Qed.

(** ** Closures *)

Lemma run_closure_ok e b (Q : unit → base → Prop) :
  good b → e ∈ U → may_run (evs b !!! e) →
  (∀ b', good b' → loop_frame b b' → Q tt b') → wp (run_closure e) Q b.
Proof.
  intros Hb HU Hr HQ. unfold run_closure, get_event, the_event. do 2 wp_step.
  pose proof (eo_closure _ _ (bv_event Hb e)) as Hc. unfold closure_ok, fl in Hc.
  assert (Hcall : wp (call_event e) Q b) by (apply wp_safe; [apply safe_call|done|]; intros []; apply HQ).
  assert (Hfinal : wp (_ ← modify (upd_lp (with_current None));
                       _ ← EVUTIL_ASSERT (has (ev_flags (evs b !!! e)) EVLIST_FINALIZING); call_event e) Q b ∨
                   has (ev_flags (evs b !!! e)) EVLIST_FINALIZING = false).
  { destruct (has _ EVLIST_FINALIZING); [left|by right]. do 3 wp_step. wp_step; [done|].
    apply wp_safe; [apply safe_call|by apply good_lp|]. intros [] b' Hb' Hl.
    apply HQ; [done|]. eapply lf_trans; [apply lf_lp|exact Hl]. }
  destruct (ev_closure (evs b !!! e)) eqn:Ecl.
  - wp_step. wp_step; [done|]. done.
  - wp_step. wp_step; [done|]. apply wp_safe; [apply safe_signal_closure|done|]. intros []. apply HQ.
  - wp_step. wp_step; [done|]. unfold event_persist_closure. wp_step. apply persist_ok; [done..|].
    intros b1 Hb1 Ha1. apply wp_safe; [apply safe_call|done|]. intros [] b2 Hb2 Hl.
    apply HQ; [done|]. eapply lf_trans; [by apply lf_api|done].
  - done.
  - destruct Hfinal; [done|congruence].
  - destruct Hc as [? ?]. wp_step. wp_step; [done|]. destruct Hfinal; [done|congruence].
  - destruct Hc as [? ?]. wp_step. wp_step; [done|]. destruct Hfinal; [done|congruence].
Qed.

(** ** Active queues *)

Lemma take_active_ok e b (Q : unit → base → Prop) :
  good b → fl (evs b !!! e) EVLIST_ACTIVE = true →
  (∀ b', good b' → api_frame b b' → only e b b' → tame (evs b !!! e) (evs b' !!! e) →
     fl (evs b' !!! e) EVLIST_ACTIVE = false → Q tt b') →
  wp (take_active e) Q b.
Proof.
  intros Hb Ha HQ. unfold take_active, get_event, the_event. do 2 wp_step.
  assert (Hrm : wp (event_queue_remove_active e) Q b).
  { apply (wp_remove_active U U_nodup); [apply Hb|done|]. intros b' Hi' Hr Ho _ Hc _.
    assert (T : tame (evs b !!! e) (evs b' !!! e)) by (eapply tame_core; [done|by apply tame_clear]).
    pose proof (rest_api _ _ Hr) as Hr'. apply HQ; [by eapply good_tame|done|done|done|].
    rewrite (core_fl _ _ _ Hc). by fl_simpl. }
  fold (fl (evs b !!! e) EVLIST_INIT). fold (fl (evs b !!! e) EVLIST_FINALIZING).
  destruct (fl (evs b !!! e) EVLIST_INIT) eqn:Ei; [|done].
  destruct (has (ev_events (evs b !!! e)) EV_PERSIST || fl (evs b !!! e) EVLIST_FINALIZING) eqn:E; [done|].
  apply orb_false_iff in E as [_ Ef]. wp_step. apply (wp_event_del U U_nodup); [done|].
  intros b' r Hb' Ha' Ho' _ _ Hd _ T. wp_step. apply HQ; try done.
  assert (Hbase : ev_has_base (evs b !!! e) = true).
  { apply (eo_queued _ _ (bv_event Hb e)); [by rewrite fl_queued, Ha|done]. }
  destruct (Hd Hbase (or_intror Ef)) as [_ _ Hc _ _]. rewrite (core_fl _ _ _ Hc). by fl_simpl.
Qed.

Lemma active_may_run e b : good b → fl (evs b !!! e) EVLIST_ACTIVE = true → may_run (evs b !!! e).
Proof. intros Hb Ha Hi. apply (eo_queued _ _ (bv_event Hb e)); [by rewrite fl_queued, Ha|done]. Qed.

Lemma good_cache tv b : good b → tv_sec tv = 0 ∨ tv_norm tv ∧ 0 < tv_sec tv < 2 ^ 63 → good (set_cache tv b).
Proof. intros [[] ? ? ? ?] Htv. by split. Qed.
Lemma safe_clear_cache : safe clear_time_cache.
Proof.
  intros b Hb. unfold clear_time_cache. wp_step. split; [|by split].
  apply good_cache; [done|by left].
Qed.
Lemma safe_update_cache : safe update_time_cache.
Proof.
  unfold update_time_cache. apply safe_bind; [apply safe_clear_cache|]. intros _.
  apply safe_bind; [apply safe_get|]. intros b0. apply safe_when.
  intros b Hb. wp_step. destruct (gettime_ok b (bv_cache Hb)) as (now & b' & Hg & Hq & Hn & _ & _ & Hns).
  unfold wp at 1. rewrite Hg. wp_step. pose proof (good_quiet U _ _ Hb Hq) as Hb'. split.
  - apply good_cache; [done|right; split; [exact Hn|exact Hns]].
  - eapply lf_trans; [apply lf_api, Hq|by split].
Qed.
Lemma safe_gettime_now : safe gettime_now.
Proof.
  intros b Hb. apply wp_gettime_now; [apply (bv_cache Hb)|]. intros now b' Hq _ _.
  split; [by eapply good_quiet|apply lf_api, Hq].
Qed.
Lemma safe_past_endtime c t : safe (past_endtime c t).
Proof.
  unfold past_endtime. destruct t; [|apply safe_ret]. apply safe_if; [apply safe_ret|].
  apply safe_bind; [apply safe_update_cache|]. intros _.
  apply safe_bind; [apply safe_gettime_now|]. intros. apply safe_ret.
Qed.

Lemma get_activeq_ok i b (Q : list evid → base → Prop) :
  good b → 0 <= i < nactivequeues b →
  (∀ q, (∀ e, e ∈ q → fl (evs b !!! e) EVLIST_ACTIVE = true) → Q q b) → wp (get_activeq i) Q b.
Proof.
  intros Hb Hi HQ. unfold get_activeq. do 2 wp_step.
  destruct (zget_in_range _ _ Hi) as [q Hq]. eapply wp_deref; [exact Hq|].
  apply HQ. intros e He. apply (ao_queue _ _ (ci_act (bv_core Hb)) _ _ Hq) in He. tauto.
Qed.

Lemma single_queue_ok rounds : ∀ i maxp endt count b (Q : option Z → base → Prop),
  good b → 0 <= i < nactivequeues b →
  (∀ r b', good b' → loop_frame b b' → Q r b') →
  wp (event_process_active_single_queue rounds i maxp endt count) Q b.
Proof.
  induction rounds as [|rounds IH]; intros i maxp endt count b Q Hb Hi HQ;
    cbn [event_process_active_single_queue]; wp_step; (apply get_activeq_ok; [done..|]); intros q Hq;
    (destruct q as [|e q]; cbn [head]; [wp_step; by apply HQ|]).
  { wp_step. by apply HQ. }
  assert (Ha : fl (evs b !!! e) EVLIST_ACTIVE = true) by (apply Hq; set_solver).
  wp_step. apply take_active_ok; [done..|]. intros b1 Hb1 Ha1 _ T _.
  unfold get_event, the_event. do 4 wp_step. wp_step.
  apply run_closure_ok; [by apply good_lp|by eapply (in_U U); [apply Hb|]| |].
  { eapply may_run_tame; [exact T|by apply active_may_run]. }
  intros b2 Hb2 H2. wp_step. apply wp_safe; [apply safe_lp|done|]. intros [] b3 Hb3 H3.
  assert (Hl : loop_frame b b3).
  { eapply lf_trans; [by apply lf_api|]. eapply lf_trans; [apply lf_lp|]. by eapply lf_trans. }
  do 2 wp_step. destruct (event_break (lp b3)); [wp_step; by apply HQ|].
  destruct (_ <=? _); [wp_step; by apply HQ|]. wp_step.
  apply wp_safe; [apply safe_past_endtime|done|]. intros stop b4 Hb4 H4.
  assert (Hl4 : loop_frame b b4) by by eapply lf_trans.
  destruct stop; [wp_step; by apply HQ|]. do 2 wp_step.
  destruct (event_continue (lp b4)); [wp_step; by apply HQ|].
  apply IH; [done|by rewrite (lf_nq _ _ Hl4)|]. intros r b5 Hb5 H5. apply HQ; [done|by eapply lf_trans].
Qed.

Lemma priorities_ok rounds maxcb endt limit : ∀ n i b (Q : option Z → base → Prop),
  good b → 0 <= i → (∀ r b', good b' → loop_frame b b' → Q r b') →
  wp (process_priorities rounds n i maxcb endt limit) Q b.
Proof.
  induction n as [|n IH]; intros i b Q Hb Hi HQ; cbn [process_priorities]; do 2 wp_step.
  all: destruct (Z.leb_spec (nactivequeues b) i); [wp_step; by apply HQ|].
  { wp_step. by apply HQ. }
  wp_step. apply get_activeq_ok; [done|lia|]. intros q Hq.
  case_bool_decide; [by apply IH; [|lia|]|]. wp_step.
  apply wp_safe; [apply safe_lp|done|]. intros [] b1 Hb1 H1.
  assert (Hq1 : ∀ r b', good b' → loop_frame b1 b' →
    wp (match r with
        | Some c => if c =? 0 then process_priorities rounds n (i + 1) maxcb endt limit else mret (Some c)
        | None => mret None
        end) Q b').
  { intros r b' Hb' H'. assert (Hl : loop_frame b b') by by eapply lf_trans.
    destruct r as [c|]; [|wp_step; by apply HQ]. destruct (c =? 0); [|wp_step; by apply HQ].
    apply IH; [done|lia|]. intros r b2 Hb2 H2. apply HQ; [done|by eapply lf_trans]. }
  wp_step. destruct (i <? limit); (apply single_queue_ok; [done|rewrite (lf_nq _ _ H1); lia|done]).
Qed.

Lemma process_active_ok rounds b (Q : option Z → base → Prop) :
  good b → (∀ r b', good b' → loop_frame b b' → Q r b') → wp (event_process_active rounds) Q b.
Proof.
  intros Hb HQ. unfold event_process_active. do 3 wp_step.
  assert (Hrest : ∀ endt b1, good b1 → loop_frame b b1 →
    wp (b0 ← get_state;
        c ← process_priorities rounds (Z.to_nat (nactivequeues b0)) 0 (max_dispatch_callbacks (cfg b)) endt
              (limit_callbacks_after_prio (cfg b));
        match c with
        | None => mret None
        | Some c => _ ← modify (upd_lp (with_priority (-1))); mret (Some c)
        end) Q b1).
  { intros endt b1 Hb1 H1. do 3 wp_step. apply priorities_ok; [done|done|]. intros r b2 Hb2 H2.
    assert (Hl : loop_frame b b2) by by eapply lf_trans.
    destruct r as [c|]; [|wp_step; by apply HQ]. do 3 wp_step.
    apply HQ; [by apply good_lp|]. eapply lf_trans; [done|apply lf_lp]. }
  destruct (0 <=? _).
  - wp_step. apply wp_safe; [apply safe_update_cache|done|]. intros [] b1 Hb1 H1. wp_step.
    apply wp_safe; [apply safe_gettime_now|done|]. intros now b2 Hb2 H2. wp_step.
    apply Hrest; [done|by eapply lf_trans].
  - wp_step. apply Hrest; [done|apply lf_refl].
Qed.

(** ** The loop *)

Lemma safe_wait_time flags : safe (wait_time flags).
Proof.
  unfold wait_time. apply safe_bind; [apply safe_get|]. intros b0.
  apply safe_if; [|apply safe_ret]. intros b Hb. wp_step.
  apply (wp_timeout_next U); [done|]. intros tv b' Hq _. apply wp_deref with tv; [done|].
  split; [by eapply good_quiet|apply lf_api, Hq].
Qed.
Lemma safe_deferreds n : safe (modify (set_deferreds n)).
Proof. intros b Hb. wp_step. split; [by apply good_deferreds|by split]. Qed.
Lemma safe_continue c : safe (modify (set_continue c)).
Proof. apply (safe_lp (λ l, Loop (event_gotterm l) (event_break l) c (event_running_priority l)
            (running_loop l) (current_event l) (ncalls_zeroed l))). Qed.
Lemma safe_make_later : safe event_queue_make_later_events_active.
Proof.
  intros b Hb. apply (wp_make_later U U_nodup U_small); [done|]. intros b' Hb' Hp. split; [done|].
  apply lf_api, (pa_api _ _ _ Hp).
Qed.
Lemma safe_timeout_process : safe timeout_process.
Proof.
  intros b Hb. apply (wp_timeout_process U U_nodup U_small); [done|]. intros b' Hb' Ha _.
  split; [done|by apply lf_api].
Qed.
Lemma safe_process_active rounds : safe (event_process_active rounds).
Proof. intros b Hb. by apply process_active_ok. Qed.
Lemma safe_dispatch tv : safe (dispatch tv).
Proof. intros b Hb. by apply (dispatch_ok (U := U)). Qed.

(** The loop ends on its own when nothing is left to wait for. *)
Definition nothing_left (b : base) : Prop := event_haveevents b = false ∧ N_ACTIVE_CALLBACKS b = 0.
(** The base in which a round looks whether somebody asked the loop to end. *)
Definition begun (b : base) : base := set_deferreds 0 (set_continue false b).
Definition asked (b : base) : bool := event_gotterm (lp b) || event_break (lp b).
(** A round that begins in [b] asks the backend, which answers [res] and leaves [b']. *)
Inductive dispatched (flags : Z) (b : base) (res : Z) (b' : base) : Prop :=
| round_dispatched tv b1 b2 b3 :
    asked (begun b) = false → wait_time flags (begun b) = Some (tv, b1) →
    (has flags EVLOOP_NO_EXIT_ON_EMPTY = true ∨ ¬ nothing_left b1) →
    event_queue_make_later_events_active b1 = Some (tt, b2) → clear_time_cache b2 = Some (tt, b3) →
    dispatch tv b3 = Some (res, b') → dispatched flags b res b'.
(** How a round that begins in [b] ends, and in which base: somebody asked the loop
    to end; nothing is left; the backend failed; or the backend succeeded, and then
    the flags say to stop after callbacks have run ([EVLOOP_ONCE]) or when there was
    nothing to run ([EVLOOP_NONBLOCK]), or the loop goes on. *)
Inductive round_end (rounds : nat) (flags : Z) (b : base) : round → base → Prop :=
| end_asked :
    asked (begun b) = true → round_end rounds flags b (Return 0) (begun b)
| end_empty tv b1 :
    asked (begun b) = false → wait_time flags (begun b) = Some (tv, b1) →
    has flags EVLOOP_NO_EXIT_ON_EMPTY = false → nothing_left b1 → round_end rounds flags b (Return 1) b1
| end_failed b1 :
    dispatched flags b (-1) b1 → round_end rounds flags b (Return (-1)) b1
| end_once res b1 b2 n b3 :
    dispatched flags b res b1 → res ≠ -1 → has flags EVLOOP_ONCE = true →
    event_process_active rounds b2 = Some (Some n, b3) → n ≠ 0 → N_ACTIVE_CALLBACKS b3 = 0 →
    round_end rounds flags b (Return 0) b3
| end_nonblock res b1 b2 :
    dispatched flags b res b1 → res ≠ -1 → has flags EVLOOP_NONBLOCK = true → N_ACTIVE_CALLBACKS b2 = 0 →
    round_end rounds flags b (Return 0) b2
| end_again res b1 b2 :
    dispatched flags b res b1 → res ≠ -1 → round_end rounds flags b Again b2
| end_unfinished b1 : round_end rounds flags b Unfinished b1.

Lemma dispatched_unique flags b r1 b1 r2 b2 :
  dispatched flags b r1 b1 → dispatched flags b r2 b2 → r1 = r2 ∧ b1 = b2.
Proof. intros [] []. by simplify_eq. Qed.
Lemma dispatched_left flags b res b' :
  dispatched flags b res b' → asked (begun b) = false ∧
  ∀ tv b1, has flags EVLOOP_NO_EXIT_ON_EMPTY = false → wait_time flags (begun b) = Some (tv, b1) → ¬ nothing_left b1.
Proof.
  intros [tv b1 b2 b3 Ha Hw Hl _ _ _]. split; [done|]. intros tv' b1' Hf Hw'. simplify_eq. by destruct Hl; [congruence|].
Qed.

(** Why the round that begins in [b] and ends in [b'] returns [v]. *)
Record ended_by (flags : Z) (b : base) (v : Z) (b' : base) : Prop := {
  eb_failed : v = -1 ↔ ∃ b1, dispatched flags b (-1) b1;
  eb_empty : v = 1 ↔ asked (begun b) = false ∧ has flags EVLOOP_NO_EXIT_ON_EMPTY = false ∧
    ∃ tv b1, wait_time flags (begun b) = Some (tv, b1) ∧ nothing_left b1;
  eb_zero : v = 0 ↔ asked (begun b) = true ∨ ∃ res b1, dispatched flags b res b1 ∧ res ≠ -1;
  eb_flags : v = 0 → asked (begun b) = true ∨
    has flags (Z.lor EVLOOP_ONCE EVLOOP_NONBLOCK) = true ∧ N_ACTIVE_CALLBACKS b' = 0;
  eb_base : (v = -1 → dispatched flags b (-1) b') ∧ (v = 1 → nothing_left b')
}.
Lemma round_end_by rounds flags b v b' : round_end rounds flags b (Return v) b' → ended_by flags b v b'.
Proof.
  assert (Hok : ∀ res b1, dispatched flags b res b1 → res ≠ -1 →
    has flags (Z.lor EVLOOP_ONCE EVLOOP_NONBLOCK) = true → N_ACTIVE_CALLBACKS b' = 0 → ended_by flags b 0 b').
  { intros res b1 Hd Hres Hf Hn. destruct (dispatched_left _ _ _ _ Hd) as [Ha Hl]. split.
    - split; [done|]. intros [b2 Hd2]. by destruct (dispatched_unique _ _ _ _ _ _ Hd Hd2).
    - split; [done|]. intros (_ & He & tv & b2 & Hw & Hn2). by destruct (Hl tv b2 He Hw).
    - split; [|done]. intros _. right. by exists res, b1.
    - intros _. by right.
    - done. }
  inversion 1 as [Ha|tv b1 Ha Hw Hf Hn|b1 Hd|res b1 b2 n b3 Hd Hr Hf Hp Hk Hn|res b1 b2 Hd Hr Hf Hn| |]; subst.
  - split; try done.
    + split; [done|]. intros [b1 Hd]. apply dispatched_left in Hd as [Hn _]. congruence.
    + split; [done|]. intros [Hn _]. congruence.
    + split; [by left|done].
    + by left.
  - split; try done.
    + split; [done|]. intros [b2 Hd]. apply dispatched_left in Hd as [_ Hl]. by destruct (Hl _ _ Hf Hw).
    + split; [|done]. intros _. split; [done|]. split; [done|]. by exists tv, b'.
    + split; [done|]. intros [Hn'|(res & b2 & Hd & _)]; [congruence|].
      apply dispatched_left in Hd as [_ Hl]. by destruct (Hl _ _ Hf Hw).
  - split; try done.
    + split; [|done]. intros _. by eexists.
    + split; [done|]. intros (_ & Hf & tv & b2 & Hw & Hn). apply dispatched_left in Hd as [_ Hl]. by destruct (Hl _ _ Hf Hw).
    + split; [done|]. intros [Hn|(res & b2 & Hd2 & Hr)].
      * apply dispatched_left in Hd as [Ha _]. congruence.
      * by destruct (dispatched_unique _ _ _ _ _ _ Hd Hd2).
  - apply (Hok res b1); try done. by rewrite has_lor_r, Hf.
  - apply (Hok res b1); try done. by rewrite has_lor_r, Hf, orb_true_r.
Qed.

Lemma loop_round_ok rounds flags b (Q : round → base → Prop) :
  good b → (∀ r b', good b' → loop_frame b b' → round_end rounds flags b r b' → Q r b') → wp (loop_round rounds flags) Q b.
Proof.
  intros Hb HQ. unfold loop_round. wp_step.
  apply wp_safe_run; [apply safe_continue|done|]. intros [] b1 [= <-] Hb1 H1. wp_step.
  apply wp_safe_run; [apply safe_deferreds|done|]. intros [] b2 [= <-] Hb2 H2. do 2 wp_step.
  fold (begun b) in *. assert (L2 : loop_frame b (begun b)) by by eapply lf_trans.
  fold (asked (begun b)). destruct (asked (begun b)) eqn:Easked; [wp_step; apply HQ; [done|done|by constructor]|]. wp_step.
  apply wp_safe_run; [apply safe_wait_time|done|]. intros tv b3 Ew Hb3 H3. do 2 wp_step.
  assert (L3 : loop_frame b b3) by by eapply lf_trans.
  destruct (_ && _ && _) eqn:Eempty.
  { wp_step. apply HQ; [done|done|].
    apply andb_true_iff in Eempty as [[Hf%negb_true_iff He%negb_true_iff]%andb_true_iff Hn%Z.eqb_eq]. by eapply end_empty. }
  assert (Hleft : has flags EVLOOP_NO_EXIT_ON_EMPTY = true ∨ ¬ nothing_left b3).
  { destruct (has flags EVLOOP_NO_EXIT_ON_EMPTY); [by left|right]. intros [He Hn]. rewrite He, Hn in Eempty. done. }
  wp_step. apply wp_safe_run; [apply safe_make_later|done|]. intros [] b4 Em Hb4 H4. wp_step.
  apply wp_safe_run; [apply safe_clear_cache|done|]. intros [] b5 Ec Hb5 H5. wp_step.
  apply wp_safe_run; [apply safe_dispatch|done|]. intros res b6 Ed Hb6 H6.
  assert (Hd : dispatched flags b res b6) by by eapply round_dispatched.
  assert (L6 : loop_frame b b6) by eauto using lf_trans. clear Ew Em Ec Ed Hleft Eempty.
  destruct (Z.eqb_spec res (-1)) as [->|Hres]; [wp_step; apply HQ; [done|done|by apply end_failed]|]. wp_step.
  apply wp_safe; [apply safe_update_cache|done|]. intros [] b7 Hb7 H7. wp_step.
  apply wp_safe; [apply safe_timeout_process|done|]. intros [] b8 Hb8 H8. do 2 wp_step.
  assert (L8 : loop_frame b b8) by eauto using lf_trans.
  destruct (Z.eqb_spec (N_ACTIVE_CALLBACKS b8) 0) as [En|En]; cbn [negb]; cycle 1.
  - wp_step. apply wp_safe_run; [apply safe_process_active|done|]. intros n b9 Ep Hb9 H9.
    assert (L9 : loop_frame b b9) by eauto using lf_trans.
    destruct n as [n|]; [|wp_step; apply HQ; [done|done|constructor]]. do 2 wp_step.
    destruct (has flags EVLOOP_ONCE) eqn:Eo; cbn [andb]; [|wp_step; apply HQ; [done|done|by eapply end_again]].
    destruct (Z.eqb_spec (N_ACTIVE_CALLBACKS b9) 0), (Z.eqb_spec n 0); cbn [andb negb]; wp_step;
      apply HQ; try done; first [by eapply end_once|by eapply end_again].
  - destruct (has flags EVLOOP_NONBLOCK) eqn:Eb; wp_step; apply HQ; try done; first [by eapply end_nonblock|by eapply end_again].
Qed.

(** A run of the loop: rounds that end with [Again], and one that returns.  The
    base the caller gets is that of the last round, marked as not running. *)
Definition finished (b : base) : base :=
  upd_lp (with_running false) (set_cache (TV 0 (tv_usec (tv_cache (clk b)))) b).
Inductive loop_runs (flags : Z) : nat → base → Z → base → Prop :=
| runs_again n b b1 v b' :
    loop_round (S n) flags b = Some (Again, b1) → round_end (S n) flags b Again b1 →
    loop_runs flags n b1 v b' → loop_runs flags (S n) b v b'
| runs_return n b b1 v :
    loop_round (S n) flags b = Some (Return v, b1) → round_end (S n) flags b (Return v) b1 →
    loop_runs flags (S n) b v (finished b1).

Lemma loop_runs_value flags n b v b' : loop_runs flags n b v b' → v = 0 ∨ v = 1 ∨ v = -1.
Proof. induction 1 as [|n b b1 v _ Hend]; [done|]. inversion Hend; auto. Qed.

(** What the caller of the loop sees when it returns. *)
Record loop_returned (rounds : nat) (flags : Z) (b : base) (v : Z) (b' : base) : Prop := {
  lr_runs : loop_runs flags rounds b v b';
  lr_running : running_loop (lp b') = false;
  lr_cache : tv_sec (tv_cache (clk b')) = 0
}.

(** A round, with the equation that the relation records. *)
Lemma loop_round_run rounds flags b (Q : round → base → Prop) :
  good b →
  (∀ r b', loop_round rounds flags b = Some (r, b') → good b' → loop_frame b b' → round_end rounds flags b r b' → Q r b') →
  wp (loop_round rounds flags) Q b.
Proof.
  intros Hb HQ.
  assert (W : wp (loop_round rounds flags) (λ r b', good b' ∧ loop_frame b b' ∧ round_end rounds flags b r b') b).
  { apply loop_round_ok; [done|]. auto. }
  unfold wp in *. destruct (loop_round rounds flags b) as [[r b']|] eqn:E; [|done]. destruct W as (? & ? & ?). by apply HQ.
Qed.

Lemma loop_rounds_ok rounds flags : ∀ b (Q : option Z → base → Prop),
  good b →
  (∀ r b', good b' → loop_frame b b' → match r with Some v => loop_returned rounds flags b v b' | None => True end → Q r b') →
  wp (loop_rounds rounds flags) Q b.
Proof.
  induction rounds as [|rounds IH]; intros b Q Hb HQ; cbn [loop_rounds]; [wp_step; by apply HQ|].
  wp_step. apply loop_round_run; [done|]. intros r b1 E Hb1 H1 Hr. destruct r as [|v|].
  - apply IH; [done|]. intros r b2 Hb2 H2 Hr2. apply HQ; [done|by eapply lf_trans|].
    destruct r as [v|]; [|done]. destruct Hr2. split; [by eapply runs_again|done|done].
  - unfold clear_time_cache. do 5 wp_step. apply HQ.
    + apply good_lp, good_cache; [done|by left].
    + destruct H1. by split.
    + split; [by apply (runs_return flags rounds b b1 v)|done|done].
  - wp_step. by apply HQ.
Qed.
End run.
