(* ===== verification/EventConfig.v ===== *)
(** Configurations and the construction of an event base ([event_config_*] and
    [event_base_new_with_config] of [src/event.c]), and that a new base satisfies
    the invariant. *)
From Stdlib Require String.
From S2P Require Import Prelude Timeval MinHeap EventDefs EventApi EventLoop EventInv.
From S2P Require Import EventQueue EventOps EventAdd EventBase.

Definition EVENT_BASE_FLAG_IGNORE_ENV : Z := 0x02.
Definition EVENT_BASE_FLAG_NO_CACHE_TIME : Z := 0x08.
Definition EVENT_BASE_FLAG_PRECISE_TIMER : Z := 0x20.

Record event_config := EventConfig {
  entries : list String.string;
  max_dispatch_interval : timeval; cfg_max_callbacks : Z; cfg_limit_prio : Z;
  require_features : Z; cfg_flags : Z
}.
(** A backend: its name, its features, and whether its [init] succeeds. *)
Record backend := Backend { name : String.string; features : Z; init_ok : bool }.

Definition event_config_new : event_config := EventConfig [] (TV (-1) 0) INT_MAX 1 0 0.
Definition event_config_set_flag (flag : Z) (c : event_config) : event_config :=
  EventConfig (entries c) (max_dispatch_interval c) (cfg_max_callbacks c) (cfg_limit_prio c)
    (require_features c) (Z.lor (cfg_flags c) flag).
Definition event_config_avoid_method (method : String.string) (c : event_config) : event_config :=
  EventConfig (entries c ++ [method]) (max_dispatch_interval c) (cfg_max_callbacks c)
    (cfg_limit_prio c) (require_features c) (cfg_flags c).
Definition event_config_require_features (f : Z) (c : event_config) : event_config :=
  EventConfig (entries c) (max_dispatch_interval c) (cfg_max_callbacks c) (cfg_limit_prio c)
    f (cfg_flags c).
Definition event_config_set_max_dispatch_interval (max_interval : option timeval)
    (max_callbacks min_priority : Z) (c : event_config) : event_config :=
  EventConfig (entries c)
    (match max_interval with
     | Some tv => tv
     | None => TV (-1) (tv_usec (max_dispatch_interval c))
     end)
    (if 0 <=? max_callbacks then max_callbacks else INT_MAX)
    (if min_priority <? 0 then 0 else min_priority) (require_features c) (cfg_flags c).

Definition event_config_is_avoided_method (c : event_config) (method : String.string) : bool :=
  existsb (λ m, String.eqb m method) (entries c).

(** The limits of the base. *)
Definition dispatch_limits (c : option event_config) : config :=
  let '(time, limit) :=
    match c with
    | Some c => (max_dispatch_interval c, cfg_limit_prio c)
    | None => (TV (-1) 0, 1)
    end in
  let callbacks :=
    match c with
    | Some c => if 0 <=? cfg_max_callbacks c then cfg_max_callbacks c else INT_MAX
    | None => INT_MAX
    end in
  Config time callbacks
    (if (callbacks =? INT_MAX) && (tv_sec time =? -1) then INT_MAX else limit).

(** The backend the base uses.  [disabled] tells which methods the environment
    disables. *)
Definition acceptable (c : option event_config) (disabled : String.string → bool) (o : backend) : bool :=
  match c with
  | Some c => negb (event_config_is_avoided_method c (name o)) &&
              (Z.land (features o) (require_features c) =? require_features c)
  | None => true
  end &&
  (match c with Some c => has (cfg_flags c) EVENT_BASE_FLAG_IGNORE_ENV | None => false end ||
   negb (disabled (name o))).
Fixpoint select_backend (c : option event_config) (disabled : String.string → bool)
    (ops : list backend) : option backend :=
  match ops with
  | [] => None
  | o :: ops =>
      if acceptable c disabled o && init_ok o then Some o else select_backend c disabled ops
  end.

Section config.
Context {M : Type} {EO : EvmapOps M} {CK : Clock} {RA : Realloc}.
Abbreviation base := (event_base M).

(** [m] is the empty map, [n] what the notification of the loop was set up to;
    [alloc_base] and [alloc_queues] are outcomes of [mm_calloc]. *)
Definition event_base_new_with_config (c : option event_config) (disabled : String.string → bool)
    (ops : list backend) (m : M) (n : notify) (alloc_base alloc_queues : bool) : option base :=
  if negb alloc_base then None
  else
    let flags := match c with Some c => cfg_flags c | None => 0 end in
    let b := Base ∅ m (Counters 0 0 0 0 0) (Queues [] [] 0) (Timers min_heap_ctor_ [])
      (ClockState (TV 0 0) 0 (TV 0 0) 0 (has flags EVENT_BASE_FLAG_NO_CACHE_TIME))
      (Loop false false false 0 false None false) n (dispatch_limits c) in
    '(_, b) ← gettime b;
    _ ← select_backend c disabled ops;
    '(r, b) ← event_base_priority_init 1 alloc_queues b;
    if r <? 0 then None else Some b.

Definition event_base_update_cache_time : prog base Z :=
  b ← get_state;
  _ ← when (running_loop (lp b)) update_time_cache;
  mret 0.

(** The cached wall-clock time, or a new reading. *)
Definition event_base_gettimeofday_cached : prog base timeval :=
  b ← get_state;
  let c := clk b in
  if tv_sec (tv_cache c) =? 0 then
    _ ← put_state (set_clk (ClockState (tv_cache c) (S (tick c)) (tv_clock_diff c)
                              (last_updated_clock_diff c) (no_cache_time c)) b);
    mret (wall_now (tick c))
  else mret (evutil_timeradd (tv_cache c) (tv_clock_diff c)).

(** ** A new base *)

Context {EL : EvmapLaws M} {CL : ClockLaws}.
Context (U : list evid).

(** The map without any event. *)
Definition map_empty (m : M) : Prop :=
  em_inv m (λ _, 0) ∧ (∀ fd e, ¬ em_io m fd e) ∧ (∀ s e, ¬ em_sig m s e).

Lemma nothing_at {A} i (x : A) : zget [] i = Some x → False.
Proof. unfold zget. by destruct (i <? 0). Qed.

Lemma fresh_base_inv (b : base) :
  map_empty (evmap b) → evs b = ∅ → cnt b = Counters 0 0 0 0 0 → activequeues (qs b) = [[]] →
  active_later_queue (qs b) = [] → tms b = Timers min_heap_ctor_ [] → cache_ok b → base_inv U b.
Proof.
  intros (Hm & Hio & Hsig) He Hc Hq Hl Ht Hk.
  assert (Hev : ∀ x, (∅ : store) !!! x = inhabitant) by (intros x; by rewrite lookup_total_empty).
  assert (Hsum : ∀ w, w inhabitant = 0 → tally w (λ e, (∅ : store) !!! e) U = 0).
  { intros w Hw. induction U as [|x l IH]; simpl; [done|]. by rewrite IH, Hev, Hw. }
  split; rewrite ?He.
  - split; rewrite ?He.
    + intros e. by rewrite Hev.
    + intros e _. by rewrite Hev.
    + split; rewrite ?Hq, ?Hl; try by (constructor || (intros e; rewrite ?Hev)).
      * intros i l Hi. pose proof (zget_Some_range _ _ _ Hi) as Hr. change (zlen [[]]) with 1 in Hr.
        assert (i = 0) as -> by lia. injection Hi as <-. split; [constructor|].
        intros e. rewrite Hev. split; [set_solver|by intros [? _]].
      * intros e. rewrite Hev. split; [set_solver|done].
    + rewrite Ht. split; cbn [timeheap common_timeout_queues].
      * apply heap_wf_empty. intros x. cbn [ts_idx store_timer]. by rewrite Hev.
      * intros e. rewrite Hev. split; [done|by intros [? _]].
      * intros i c Hi. by destruct (nothing_at i c Hi).
      * intros i c e Hi. by destruct (nothing_at i c Hi).
      * intros e. by rewrite Hev.
      * intros i c Hi. by destruct (nothing_at i c Hi).
      * done.
      * intros i c Hi. by destruct (nothing_at i c Hi).
    + split.
      * eapply em_inv_ext; [|exact Hm]. intros x fd [H|H]; [by destruct (Hio fd x)|by destruct (Hsig fd x)].
      * intros fd e. rewrite Hev. split; [intros H; by destruct (Hio fd e)|by intros [? _]].
      * intros s e. rewrite Hev. split; [intros H; by destruct (Hsig s e)|by intros [? _]].
    + rewrite Hc. split; cbn; try done; by rewrite Hsum.
  - done.
  - intros i c. rewrite Ht. intros Hi. by destruct (nothing_at i c Hi).
  - unfold nactivequeues. by rewrite Hq.
  - intros e. rewrite Hev. by split.
Qed.

Lemma new_base_inv c disabled ops m n a1 a2 b :
  map_empty m → event_base_new_with_config c disabled ops m n a1 a2 = Some b →
  base_inv U b ∧ cfg b = dispatch_limits c ∧ evs b = ∅ ∧ evmap b = m ∧ nactivequeues b = 1 ∧
  running_loop (lp b) = false.
Proof.
  intros Hm. unfold event_base_new_with_config. destruct a1; [|done]. cbn [negb].
  set (b0 := Base ∅ _ _ _ _ _ _ _ _).
  destruct (gettime_ok b0) as (now & b1 & Hg & Hq & _); [by left|].
  cbn [mbind option_bind]. rewrite Hg. destruct (select_backend _ _ _) as [o|]; [|done]. cbn [mbind option_bind].
  destruct Hq as [H1 H2 H3 H4 H5 H6]. unfold event_base_priority_init, N_ACTIVE_CALLBACKS, nactivequeues.
  unfold mbind, prog_bind, option_bind, get_state, put_state, mret, prog_ret. cbv beta iota.
  rewrite H5, H2. cbn.
  destruct a2; [|done]. cbn. intros [= <-]. cbn. pose proof (af_loop H6) as Hl. unfold loop_view in Hl. cbn in Hl.
  split; [|split_and!; cbn; try done; [apply (af_cfg H6)|by simplify_eq]].
  apply fresh_base_inv; cbn; rewrite ?H1, ?H3, ?H4, ?H5, ?H2; try done.
  unfold cache_ok. cbn [set_qs clk]. rewrite (af_cache H6). by left.
Qed.
End config.
