(* ===== verification/EventSafe.v ===== *)
(** The operations of the library as commands of a program, with what each needs
    from its caller, and that a base that is only used this way satisfies the
    invariant: no assertion of the library fails. *)
From S2P Require Import Prelude Timeval MinHeap EventDefs EventApi EventLoop EventInv.
From S2P Require Import EventQueue EventOps EventAdd EventBase EventTimers EventRun.
From S2P Require Import EventConfig.

(** * Commands *)

Inductive command :=
| Assign (e : evid) (has_base : bool) (fd events : Z) (cb : callback)
| DeferredInit (e : evid) (pri : Z) (cb : callback)
| BaseSet (e : evid)
| PrioritySet (e : evid) (pri : Z)
| Add (e : evid) (tv : option timeval)
| Del (e : evid)
| RemoveTimer (e : evid)
| Active (e : evid) (res ncalls : Z)
| ActiveLater (e : evid) (res : Z)
| Deferred (e : evid)
| Cancel (e : evid)
| Finalize (free : bool) (e : evid) (cb : callback)
| FinalizeMany (l : list evid) (cb : callback)
| InitCommon (d : timeval) (fresh : evid) (alloc_ok : bool)
| Once (fresh : evid) (alloc_ok : bool) (fd events : Z) (cb : callback) (tv : option timeval)
| LoopExit (fresh : evid) (alloc_ok : bool) (tv : option timeval)
| LoopBreak
| LoopContinue
| AddVirtual
| DelVirtual
| UpdateCache
| PriorityInit (npriorities : Z) (alloc_ok : bool)
| RunLoop (rounds : nat) (flags : Z).

Section commands.
Context {M : Type} {EO : EvmapOps M} {EL : EvmapLaws M} {CK : Clock} {RA : Realloc} {EN : Env M}.
Abbreviation base := (event_base M).
Context (U : list evid).

Definition forget {A} (m : prog base A) : prog base unit := _ ← m; mret tt.
Definition run (c : command) : prog base unit :=
  match c with
  | Assign e hb fd events cb => forget (event_assign e hb fd events cb)
  | DeferredInit e pri cb => event_deferred_cb_init_ e pri cb
  | BaseSet e => forget (event_base_set e)
  | PrioritySet e pri => forget (event_priority_set e pri)
  | Add e tv => forget (event_add e tv)
  | Del e => forget (event_del e)
  | RemoveTimer e => forget (event_remove_timer e)
  | Active e res n => event_active e res n
  | ActiveLater e res => event_active_later_nolock_ e res
  | Deferred e => forget (event_deferred_cb_schedule_ e)
  | Cancel e => forget (event_callback_cancel_nolock_ e false)
  | Finalize free e cb => forget (event_finalize_nolock_ free e cb)
  | FinalizeMany l cb => forget (event_callback_finalize_many_ l cb)
  | InitCommon d f ok => forget (event_base_init_common_timeout d f ok)
  | Once f ok fd events cb tv => forget (event_base_once f ok fd events cb tv)
  | LoopExit f ok tv => forget (event_base_loopexit f ok tv)
  | LoopBreak => forget event_base_loopbreak
  | LoopContinue => forget event_base_loopcontinue
  | AddVirtual => event_base_add_virtual_
  | DelVirtual => event_base_del_virtual_
  | UpdateCache => forget event_base_update_cache_time
  | PriorityInit n ok => forget (event_base_priority_init n ok)
  | RunLoop rounds flags => forget (event_base_loop rounds flags)
  end.

(** An event of the program, not one that the base made for a common timeout. *)
Definition own (b : base) (e : evid) : Prop := e ∈ U ∧ user_event b e.
(** What callers owe: events are set up before they are used, not set up again
    while they are pending; timeouts are times, or common timeouts of the base. *)
Definition ready (b : base) (e : evid) : Prop :=
  own b e ∧ ev_has_base (evs b !!! e) = true ∧ fl (evs b !!! e) EVLIST_INIT = true.
Definition addable (b : base) (e : evid) (tv : timeval) : Prop :=
  good_tv (n_common_timeouts b) tv ∧
  (plain_tv tv → fl (evs b !!! e) EVLIST_TIMEOUT = true → room_for b e).
Definition fresh_event (b : base) (e : evid) : Prop := own b e ∧ idle (evs b !!! e).
Definition allowed (b : base) (c : command) : Prop :=
  match c with
  | Assign e _ _ events cb =>
      fresh_event b e ∧ callback_ok (n_common_timeouts b) cb ∧
      (has events EV_SIGNAL && has events EV_IO = false ∨ closure_ok (set_flags EVLIST_INIT (evs b !!! e)))
  | DeferredInit e pri cb =>
      fresh_event b e ∧ 0 <= pri < nactivequeues b ∧ callback_ok (n_common_timeouts b) cb
  | Add e tv => ready b e ∧ ∀ t, tv = Some t → addable b e t
  | BaseSet e => own b e
  | Active e _ _ | ActiveLater e _ | Deferred e => e ∈ U ∧ may_run (evs b !!! e)
  | Finalize _ e cb => ready b e ∧ callback_ok (n_common_timeouts b) cb
  | FinalizeMany l cb => Forall (can_finalize U b) l ∧ l ≠ [] ∧ callback_ok (n_common_timeouts b) cb
  | InitCommon d f _ => fresh_event b f ∧ 0 <= tv_usec d ∧ - 2 ^ 63 <= tv_sec d < 2 ^ 63
  | Once f _ _ _ cb tv =>
      fresh_event b f ∧ callback_ok (n_common_timeouts b) cb ∧
      ∀ t, tv = Some t → good_tv (n_common_timeouts b) t
  | LoopExit f _ tv => fresh_event b f ∧ ∀ t, tv = Some t → good_tv (n_common_timeouts b) t
  | PriorityInit n ok => ok = true ∧ ∀ e, ev_pri (evs b !!! e) < n
  | DelVirtual => 0 < virtual_event_count (cnt b)
  | _ => True
  end.

(** The bases a program can reach by commands it may give. *)
Inductive reachable (b0 : base) : base → Prop :=
| reachable_start : reachable b0 b0
| reachable_step b c b' :
    reachable b0 b → allowed b c → run c b = Some (tt, b') → reachable b0 b'.
End commands.

(** * They keep the invariant *)

Section safe.
Context {M : Type} {EO : EvmapOps M} {EL : EvmapLaws M} {CK : Clock} {CL : ClockLaws} {RA : Realloc}.
Context {EN : Env M}.
Abbreviation base := (event_base M).
Context (U : list evid) (U_nodup : NoDup U) (U_small : zlen U < 2 ^ 31) {ENL : EnvLaws M U}.
Abbreviation good := (base_inv U).

Lemma wp_forget {A} (m : prog base A) (b : base) (Q : unit → base → Prop) :
  wp m (λ _ b', Q tt b') b → wp (forget m) Q b.
Proof. intros W. unfold forget. apply wp_bind. exact W. Qed.

Lemma wp_event_add e tv (b : base) (Q : Z → base → Prop) :
  good b → ready U b e → (∀ t, tv = Some t → addable b e t) →
  (∀ b' r, good b' → event_added e tv false r b b' → Q r b') →
  wp (event_add e tv) Q b.
Proof.
  intros Hb ((HU & Hu) & Hbase & Hini) Ht HQ. unfold event_add, get_event, the_event. do 2 wp_step.
  rewrite Hbase. cbn [negb]. apply (wp_event_add_nolock U U_nodup U_small); [done..| |done].
  intros t ->. destruct (Ht t eq_refl) as [Hg Hr]. by split; [|left|..].
Qed.

Lemma wp_deferred_init e pri cb (b : base) (Q : unit → base → Prop) :
  good b → fresh_event U b e → 0 <= pri < nactivequeues b → callback_ok (n_common_timeouts b) cb →
  (∀ b', good b' → Q tt b') → wp (event_deferred_cb_init_ e pri cb) Q b.
Proof.
  intros Hb ((HU & Hu) & Hid) Hp Hcb HQ. unfold event_deferred_cb_init_, upd_event. wp_step. apply HQ.
  pose proof (bv_nq Hb). apply good_idle; try done. cbn [ev_pri]. unfold u8. rewrite Z.mod_small; lia.
Qed.

(** Adding an event that was set up just now. *)
Lemma wp_add_fresh e tv (b b1 : base) (Q : Z → base → Prop) :
  good b1 → own U b e → api_frame b b1 → idle (evs b1 !!! e) → ev_has_base (evs b1 !!! e) = true →
  ev_flags (evs b1 !!! e) = EVLIST_INIT → (∀ t, tv = Some t → good_tv (n_common_timeouts b) t) →
  (∀ b' r, good b' → Q r b') → wp (event_add_nolock_ e tv false) Q b1.
Proof.
  intros Hb1 [HU Hu] Ha Hid Hbase Hf Ht HQ.
  apply (wp_event_add_nolock U U_nodup U_small); [done..| |intros; by apply HQ].
  intros t ->. split.
  - rewrite (n_common_api U _ _ Ha). by apply Ht.
  - left. by eapply user_event_frame; [apply (af_ctl Ha)|].
  - unfold fl. by rewrite Hf.
  - done.
  - intros _ Hto. apply idle_flags in Hid as [Hn _]. congruence.
Qed.

Lemma wp_once f ok fd events cb tv (b : base) (Q : Z → base → Prop) :
  good b → fresh_event U b f → callback_ok (n_common_timeouts b) cb →
  (∀ t, tv = Some t → good_tv (n_common_timeouts b) t) →
  (∀ b' r, good b' → Q r b') → wp (event_base_once f ok fd events cb tv) Q b.
Proof.
  intros Hb ([HU Hu] & Hid) Hcb Ht HQ. unfold event_base_once.
  destruct (has events (Z.lor EV_SIGNAL EV_PERSIST)) eqn:Esp; [wp_step; by apply HQ|].
  destruct ok; cbn [negb]; [|wp_step; by apply HQ].
  destruct (Z.land events _ =? EV_TIMEOUT).
  - wp_step. apply (wp_assign U); try done; [by left|].
    intros b1 r Hb1 Ha1 Ho1 Hid1 _ _ _ _ _ Hbase Hfl.
    assert (Hadd : wp (event_add_nolock_ f tv false) Q b1) by (by apply (wp_add_fresh f tv b)).
    assert (Hrun : may_run (evs b1 !!! f)) by (intros _; exact Hbase).
    destruct tv as [tv|]; [destruct (evutil_timerisset tv); cbn [negb]; [exact Hadd|]|];
      (wp_step; apply (wp_event_active U U_nodup U_small); [done..|intros; wp_step; by apply HQ|
       intros b2 _ Hb2 _; wp_step; by apply HQ]).
  - destruct (has events EV_IO) eqn:Eio; [|wp_step; by apply HQ].
    wp_step. apply (wp_assign U); try done.
    { left. unfold has at 1. rewrite <-Z.land_assoc. change (Z.land EV_IO EV_SIGNAL) with 0. by rewrite Z.land_0_r. }
    intros b1 r Hb1 Ha1 Ho1 Hid1 _ _ _ _ _ Hbase Hfl. by apply (wp_add_fresh f tv b).
Qed.

Lemma safe_notify_result : safe U (notify_result : prog base Z).
Proof.
  intros b Hb. unfold notify_result, evthread_notify_base. do 2 wp_step.
  assert (Hsame : good b ∧ loop_frame b b) by (split; [done|by apply lf_refl]).
  destruct (EVBASE_NEED_NOTIFY b); [|by wp_step]. do 2 wp_step.
  destruct (negb _); [by wp_step|]. destruct (is_notify_pending _); [by wp_step|]. repeat wp_step.
  split; [|by split]. destruct Hb as [[] ? ? ? ?]. by split.
Qed.

(** The base in which the first round begins. *)
Definition entered (b : base) : base :=
  upd_lp (with_break false) (upd_lp (with_gotterm false)
    (set_cache (TV 0 (tv_usec (tv_cache (clk b)))) (upd_lp (with_running true) b))).

Lemma event_base_loop_ok rounds flags (b : base) (Q : option Z → base → Prop) :
  good b →
  (∀ r b', good b' →
     match r with
     | Some v => if running_loop (lp b) then v = -1 ∧ b' = b else loop_returned rounds flags (entered b) v b'
     | None => running_loop (lp b) = false
     end → Q r b') →
  wp (event_base_loop rounds flags) Q b.
Proof.
  intros Hb HQ. unfold event_base_loop, clear_time_cache. do 2 wp_step.
  destruct (running_loop (lp b)); [wp_step; by apply HQ|]. do 8 wp_step.
  apply (loop_rounds_ok U U_nodup U_small).
  - repeat apply good_lp. apply good_cache; [by apply good_lp|by left].
  - intros r b' Hb' _ Hr. apply HQ; [done|by destruct r].
Qed.

Lemma safe_update_cache_time : safe U (event_base_update_cache_time : prog base Z).
Proof.
  unfold event_base_update_cache_time. apply safe_bind; [apply safe_get|]. intros b.
  apply safe_bind; [apply safe_when, (safe_update_cache U)|]. intros []. apply safe_ret.
Qed.

(** Without active callbacks all queues are empty. *)
Lemma none_active (b : base) x :
  good b → N_ACTIVE_CALLBACKS b = 0 →
  fl (evs b !!! x) EVLIST_ACTIVE = false ∧ fl (evs b !!! x) EVLIST_ACTIVE_LATER = false.
Proof.
  intros Hb Hn. destruct (decide (x ∈ U)) as [Hx|Hx].
  - unfold N_ACTIVE_CALLBACKS in Hn. rewrite (co_active _ _ _ (ci_cnt (bv_core Hb))) in Hn.
    pose proof (proj1 (tally_0 _ _ _ active_weight_nonneg) Hn x Hx) as Hw. unfold active_weight in Hw. simpl in Hw.
    by destruct (fl (evs b !!! x) EVLIST_ACTIVE), (fl (evs b !!! x) EVLIST_ACTIVE_LATER).
  - pose proof (ci_out (bv_core Hb) x Hx) as H0. unfold fl. by rewrite H0.
Qed.
Lemma wp_priority_init n (b : base) (Q : Z → base → Prop) :
  good b → (∀ e, ev_pri (evs b !!! e) < n) →
  (∀ b' r, good b' →
     (r = 0 ∧ N_ACTIVE_CALLBACKS b = 0 ∧ 1 <= n < EVENT_MAX_PRIORITIES ∧ nactivequeues b' = n ∨
      r = -1 ∧ b' = b ∧ (N_ACTIVE_CALLBACKS b ≠ 0 ∨ ¬ 1 <= n < EVENT_MAX_PRIORITIES)) → Q r b') →
  wp (event_base_priority_init n true) Q b.
Proof.
  intros Hb Hpri HQ. unfold event_base_priority_init. do 2 wp_step.
  destruct (Z.eqb_spec (N_ACTIVE_CALLBACKS b) 0) as [Hn|Hn]; cbn [negb orb];
    [|wp_step; apply HQ; [done|right; auto]].
  destruct (Z.ltb_spec n 1); cbn [orb]; [wp_step; apply HQ; [done|right; split_and!; [done..|right; lia]]|].
  destruct (Z.leb_spec EVENT_MAX_PRIORITIES n); cbn [orb];
    [wp_step; apply HQ; [done|right; split_and!; [done..|right; lia]]|].
  destruct (Z.eqb_spec n (nactivequeues b)) as [E|E]; [wp_step; apply HQ; [done|left; by rewrite E in *]|].
  do 3 wp_step. assert (Hlen : zlen (zrepeat (@nil evid) n) = n) by (apply zlen_zrepeat; lia).
  apply HQ; [|by left]. pose proof (λ e, none_active b e Hb Hn) as Hno.
  destruct Hb as [[C1 C2 Ca C4 C5 C6] B2 B3 B4 B5]. split; try done; [|unfold nactivequeues; cbn; rewrite Hlen; unfold EVENT_MAX_PRIORITIES in *; lia].
  split; try done. destruct Ca as [Q1 Q2 Q3 Q4 Q5]. split; cbn [set_qs qs evs activequeues active_later_queue]; try done.
  - intros i l Hi. pose proof (zget_Some_range _ _ _ Hi) as Hr. unfold zget in Hi.
    destruct (i <? 0); [done|]. apply lookup_replicate in Hi as [-> _]. split; [constructor|].
    intros e. destruct (Hno e) as [-> _]. split; [set_solver|by intros [? _]].
  - intros e. rewrite Hlen. split; [apply Q4|apply Hpri].
Qed.

Lemma run_ok (b : base) c : good b → allowed U b c → wp (run c) (λ _ b', good b') b.
Proof.
  intros Hb Hal. destruct c; cbn [run allowed] in *; try apply wp_forget.
  - destruct Hal as ([[HU Hu] Hid] & Hcb & Hc). by apply (wp_assign U).
  - destruct Hal as (Hf & Hp & Hcb). by apply wp_deferred_init.
  - destruct Hal. by apply (wp_base_set U).
  - by apply (wp_priority_set U).
  - destruct Hal. by apply wp_event_add.
  - by apply (wp_event_del U U_nodup).
  - unfold event_remove_timer, get_event, the_event. do 2 wp_step.
    destruct (negb _); [by wp_step|]. by apply (wp_remove_timer U U_nodup).
  - destruct Hal. unfold event_active, get_event, the_event. do 2 wp_step.
    destruct (negb _); [by wp_step|]. by apply (wp_event_active U U_nodup U_small).
  - destruct Hal. by apply (wp_active_later U U_nodup U_small).
  - destruct Hal. by apply (wp_deferred_schedule U U_nodup U_small).
  - by apply (wp_cancel U U_nodup).
  - destruct Hal as (([HU Hu] & Hbase & Hini) & Hcb).
    apply (wp_finalize U U_nodup U_small); try done. by intros _.
  - destruct Hal as (Hl & Hne & Hcb). by apply (wp_finalize_many U U_nodup U_small).
  - destruct Hal as ([[HU Hu] Hid] & Hd & Hds). by apply (wp_init_common U).
  - destruct Hal as (Hf & Hcb & Ht). by apply wp_once.
  - destruct Hal as (Hf & Ht). unfold event_base_loopexit. by apply wp_once.
  - unfold event_base_loopbreak. wp_step. wp_step. eapply wp_mono; [apply safe_notify_result, good_lp, Hb|].
    by intros a b' [? _].
  - unfold event_base_loopcontinue. wp_step. wp_step. eapply wp_mono; [apply safe_notify_result|by intros a b' [? _]].
    destruct Hb as [[] ? ? ? ?]. by split.
  - unfold event_base_add_virtual_. wp_step. by apply good_virtual.
  - by apply (wp_del_virtual U).
  - eapply wp_mono; [by apply safe_update_cache_time|by intros a b' [? _]].
  - destruct Hal as [-> ?]. by apply wp_priority_init.
  - by apply event_base_loop_ok.
Qed.

Lemma reachable_good (b0 b : base) : good b0 → reachable U b0 b → good b.
Proof.
  intros Hb0 Hr. induction Hr as [|b c b' Hr IH Hal Hrun]; [done|].
  pose proof (run_ok b c IH Hal) as W. unfold wp in W. by rewrite Hrun in W.
Qed.
End safe.
