(* ===== verification/EvmapDefs.v ===== *)
(** The map from descriptors and signals to events, [src/evmap.c] on platforms
    whose descriptors are small integers.

    A backend is a parameter of class [Eventop] with its own state and its data
    per descriptor ([fdinfo]); [Sigop] is the backend for signals.  [MapAlloc]
    decides which allocations succeed. *)
From S2P Require Import Prelude Timeval MinHeap EventDefs EventApi.

(** [struct eventop]: [op_add st fd old events fdinfo] is the state, the fdinfo
    and the result of [evsel->add], or [None] when it fails an assertion. *)
Class Eventop (B F : Type) := {
  fdinfo_zero : F;
  op_add : B → Z → Z → Z → F → option (B * F * Z);
  op_del : B → Z → Z → Z → F → option (B * F * Z)
}.
(** [base->evsigsel], which is called without an fdinfo. *)
Class Sigop (B : Type) := { sig_add : B → Z → B * Z; sig_del : B → Z → B * Z }.
(** The outcome of [mm_realloc] to a number of bytes, and of [mm_calloc] for the
    entry of a slot. *)
Class MapAlloc := { map_realloc : Z → bool; map_calloc : Z → bool }.

Definition NSIG : Z := 65.
(** The size of a pointer to [struct evmap_io]. *)
Definition POINTER_SIZE : Z := 8.

(** [struct evmap_io] with the fdinfo that follows it. *)
Record evmap_io (F : Type) := EvmapIo {
  io_events : list evid; nread : Z; nwrite : Z; nclose : Z; io_fdinfo : F
}.
Arguments EvmapIo {F}. Arguments io_events {F}. Arguments nread {F}. Arguments nwrite {F}.
Arguments nclose {F}. Arguments io_fdinfo {F}.

(** [struct event_signal_map], for descriptors and for signals; [NULL] entries
    are [None]. *)
Record event_map (B F B2 : Type) := EventMap {
  io : list (option (evmap_io F)); sigmap : list (option (list evid)); evsel : B; evsigsel : B2
}.
Arguments EventMap {B F B2}. Arguments io {B F B2}. Arguments sigmap {B F B2}.
Arguments evsel {B F B2}. Arguments evsigsel {B F B2}.

(** [while (nentries <= slot) nentries <<= 1] *)
Fixpoint grow_entries (fuel : nat) (nentries slot : Z) : Z :=
  match fuel with
  | O => nentries
  | S fuel => if nentries <=? slot then grow_entries fuel (Z.shiftl nentries 1) slot else nentries
  end.

Section evmap.
Context {B F B2 : Type} {OP : Eventop B F} {SO : Sigop B2} {MA : MapAlloc}.
Abbreviation map := (event_map B F B2).

(** The entries after growing, [None] for the result -1. *)
Definition evmap_make_space {A} (entries : list (option A)) (slot : Z) : option (list (option A)) :=
  if zlen entries <=? slot then
    let nentries := if zlen entries =? 0 then 32 else zlen entries in
    if INT_MAX / 2 <? slot then None
    else
      let nentries := grow_entries 31 nentries slot in
      if INT_MAX / POINTER_SIZE <? nentries then None
      else if negb (map_realloc (nentries * POINTER_SIZE)) then None
      else Some (entries ++ zrepeat None (nentries - zlen entries))
  else Some entries.

Definition evmap_io_init : evmap_io F := EvmapIo [] 0 0 0 fdinfo_zero.

(** [GET_IO_SLOT_AND_CTOR]: the entries and the entry of the slot. *)
Definition get_slot_and_ctor {A} (entries : list (option A)) (slot : Z) (ctor : A)
  : option (list (option A) * A) :=
  x ← zget entries slot;
  match x with
  | Some ctx => Some (entries, ctx)
  | None => if map_calloc slot then Some (<[Z.to_nat slot := Some ctor]> entries, ctor) else None
  end.

Definition set_io (l : list (option (evmap_io F))) (m : map) : map :=
  EventMap l (sigmap m) (evsel m) (evsigsel m).
Definition set_evsel (b : B) (m : map) : map := EventMap (io m) (sigmap m) b (evsigsel m).
Definition set_sigmap (l : list (option (list evid))) (m : map) : map :=
  EventMap (io m) l (evsel m) (evsigsel m).
Definition set_evsigsel (b : B2) (m : map) : map := EventMap (io m) (sigmap m) (evsel m) b.
Definition put_io (fd : Z) (ctx : evmap_io F) (m : map) : map :=
  set_io (<[Z.to_nat fd := Some ctx]> (io m)) m.

(** [bit] if [c] *)
Definition bit_if (c : bool) (bit : Z) : Z := if c then bit else 0.
(** [old]: what the descriptor is watched for. *)
Definition interest (ctx : evmap_io F) : Z :=
  Z.lor (bit_if (negb (nread ctx =? 0)) EV_READ)
    (Z.lor (bit_if (negb (nwrite ctx =? 0)) EV_WRITE) (bit_if (negb (nclose ctx =? 0)) EV_CLOSED)).

(** One of the three counters in [evmap_io_add_]: its new value and its part of
    [res]. *)
Definition count_up (n events bit : Z) : Z * Z :=
  if has events bit then (n + 1, bit_if (n + 1 =? 1) bit) else (n, 0).
(** In [evmap_io_del_], with the assertion. *)
Definition count_down (n events bit : Z) : option (Z * Z) :=
  if has events bit then
    _ ← assert_ (0 <=? n - 1); Some (n - 1, bit_if (n - 1 =? 0) bit)
  else Some (n, 0).

(** [evmap_io_add_] once it has the entry of the descriptor.  Mixing edge-triggered
    and level-triggered events is only diagnosed in debug mode, which is off. *)
Definition io_enter m fd e (events : Z) (ctx : evmap_io F) : option (map * Z) :=
  let '(nr, res1) := count_up (nread ctx) events EV_READ in
  let '(nw, res2) := count_up (nwrite ctx) events EV_WRITE in
  let '(nc, res3) := count_up (nclose ctx) events EV_CLOSED in
  let res := Z.lor res1 (Z.lor res2 res3) in
  if (0xffff <? nr) || (0xffff <? nw) || (0xffff <? nc) then Some (m, -1)
  else if res =? 0 then
    Some (put_io fd (EvmapIo (e :: io_events ctx) (u16 nr) (u16 nw) (u16 nc) (io_fdinfo ctx)) m, 0)
  else
    '(b, f, r) ← op_add (evsel m) fd (interest ctx) (Z.lor (Z.land events EV_ET) res) (io_fdinfo ctx);
    let m := set_evsel b m in
    if r =? -1
    then Some (put_io fd (EvmapIo (io_events ctx) (nread ctx) (nwrite ctx) (nclose ctx) f) m, -1)
    else Some (put_io fd (EvmapIo (e :: io_events ctx) (u16 nr) (u16 nw) (u16 nc) f) m, 1).

(** The callers pass the event's own descriptor and [ev_events]. *)
Definition io_add (m : map) (fd : Z) (e : evid) (events : Z) : option (map * Z) :=
  if fd <? 0 then Some (m, 0)
  else
    match evmap_make_space (io m) fd with
    | None => Some (m, -1)
    | Some entries =>
        match get_slot_and_ctor entries fd evmap_io_init with
        | None => Some (set_io entries m, -1)
        | Some (entries, ctx) =>
            io_enter (set_io entries m) fd e events ctx
        end
    end.

Definition io_del (m : map) (fd : Z) (e : evid) (events : Z) : option (map * Z) :=
  if fd <? 0 then Some (m, 0)
  else if zlen (io m) <=? fd then Some (m, -1)
  else
    slot ← zget (io m) fd;
    ctx ← slot;
    let old := interest ctx in
    '(nr, res1) ← count_down (nread ctx) events EV_READ;
    '(nw, res2) ← count_down (nwrite ctx) events EV_WRITE;
    '(nc, res3) ← count_down (nclose ctx) events EV_CLOSED;
    let res := Z.lor res1 (Z.lor res2 res3) in
    '(m, f, retval) ←
      (if res =? 0 then Some (m, io_fdinfo ctx, 0)
       else
         '(b, f, r) ← op_del (evsel m) fd old (Z.lor (Z.land events EV_ET) res) (io_fdinfo ctx);
         Some (set_evsel b m, f, if r =? -1 then -1 else 1));
    l ← tailq_remove e (io_events ctx);
    Some (put_io fd (EvmapIo l (u16 nr) (u16 nw) (u16 nc) f) m, retval).

Definition signal_add (m : map) (sig : Z) (e : evid) : map * Z :=
  if (sig <? 0) || (NSIG <=? sig) then (m, -1)
  else
    match evmap_make_space (sigmap m) sig with
    | None => (m, -1)
    | Some entries =>
        match get_slot_and_ctor entries sig [] with
        | None => (set_sigmap entries m, -1)
        | Some (entries, ctx) =>
            let m := set_sigmap entries m in
            let add m := set_sigmap (<[Z.to_nat sig := Some (e :: ctx)]> (sigmap m)) m in
            match ctx with
            | [] =>
                let '(b, r) := sig_add (evsigsel m) sig in
                let m := set_evsigsel b m in
                if r =? -1 then (m, -1) else (add m, 1)
            | _ => (add m, 1)
            end
        end
    end.

Definition signal_del (m : map) (sig : Z) (e : evid) : option (map * Z) :=
  if (sig <? 0) || (zlen (sigmap m) <=? sig) then Some (m, -1)
  else
    slot ← zget (sigmap m) sig;
    ctx ← slot;
    l ← tailq_remove e ctx;
    let m := set_sigmap (<[Z.to_nat sig := Some l]> (sigmap m)) m in
    match l with
    | [] =>
        let '(b, r) := sig_del (evsigsel m) sig in
        Some (set_evsigsel b m, if r =? -1 then -1 else 1)
    | _ => Some (m, 1)
    end.

#[export] Instance evmap_ops : EvmapOps map := {|
  evmap_io_add_ := io_add; evmap_io_del_ := io_del;
  evmap_signal_add_ := signal_add; evmap_signal_del_ := signal_del
|}.

(** ** Reporting activity *)

Context {CK : Clock} {RA : Realloc}.
Abbreviation base := (event_base map).

(** [LIST_FOREACH]; activating an event leaves the lists of the map alone. *)
Fixpoint LIST_FOREACH (act : evid → prog base unit) (l : list evid) : prog base unit :=
  match l with [] => mret tt | e :: l => _ ← act e; LIST_FOREACH act l end.

Definition evmap_io_active_ (fd events : Z) : prog base unit :=
  b ← get_state;
  if (fd <? 0) || (zlen (io (evmap b)) <=? fd) then mret tt
  else
    slot ← deref (zget (io (evmap b)) fd);
    match slot with
    | None => mret tt
    | Some ctx =>
        LIST_FOREACH (λ e,
          v ← get_event e;
          when (has (ev_events v) (events &~ EV_ET)%ev)
            (event_active_nolock_ e (Z.land (ev_events v) events) 1)) (io_events ctx)
    end.

Definition evmap_signal_active_ (sig ncalls : Z) : prog base unit :=
  b ← get_state;
  if (sig <? 0) || (zlen (sigmap (evmap b)) <=? sig) then mret tt
  else
    slot ← deref (zget (sigmap (evmap b)) sig);
    match slot with
    | None => mret tt
    | Some ctx => LIST_FOREACH (λ e, event_active_nolock_ e EV_SIGNAL ncalls) ctx
    end.
End evmap.
