(* ===== verification/Evmap.v ===== *)
(** The map from descriptors and signals to events keeps its invariant, and
    tells the backend exactly which kinds of events a descriptor starts or
    stops to be watched for.  It provides the interface [EvmapLaws] the event
    base is verified against. *)
From S2P Require Import Prelude Timeval MinHeap EventDefs EventApi EventInv EventQueue.
From S2P Require Import EventOps EventAdd EventBase EventTimers EvmapDefs.

(** * Slots *)

Section slots.
Context {MA : MapAlloc} {A : Type}.
Implicit Types l : list (option A).

(** What a slot holds; a slot beyond the array holds nothing. *)
Definition entry l (i : Z) : option A := mjoin (zget l i).

Lemma entry_range l i x : entry l i = Some x → 0 <= i < zlen l.
Proof.
  unfold entry. destruct (zget l i) as [y|] eqn:E; [|done]. intros _. by eapply zget_Some_range.
Qed.
Lemma zget_entry l i x : entry l i = Some x → zget l i = Some (Some x).
Proof. unfold entry. by destruct (zget l i) as [[]|]; intros [=->]. Qed.
Lemma entry_insert l i x j :
  0 <= i < zlen l → entry (<[Z.to_nat i := Some x]> l) j = if decide (j = i) then Some x else entry l j.
Proof.
  intros Hi. unfold entry. rewrite zget_insert by done.
  destruct (decide (i = j)), (decide (j = i)); by subst.
Qed.
Lemma zget_repeat_None (n i : Z) : mjoin (zget (zrepeat (@None A) n) i) = None.
Proof.
  destruct (zget (zrepeat None n) i) as [y|] eqn:E; [|done]. unfold zget in E.
  destruct (i <? 0); [done|]. by apply lookup_replicate in E as [-> _].
Qed.

Lemma grow_entries_ok fuel : ∀ n slot,
  0 < n → slot < n * 2 ^ Z.of_nat fuel → n <= grow_entries fuel n slot ∧ slot < grow_entries fuel n slot.
Proof.
  induction fuel as [|fuel IH]; intros n slot Hn Hs; [simpl in *; lia|]. cbn [grow_entries].
  destruct (Z.leb_spec n slot); [|lia]. rewrite Z.shiftl_mul_pow2 by done. change (2 ^ 1) with 2.
  destruct (IH (n * 2) slot); [lia| |lia].
  rewrite Nat2Z.inj_succ, Z.pow_succ_r in Hs by lia. lia.
Qed.

(** Growing keeps the entries and makes room for the slot. *)
Lemma make_space_ok l slot l1 :
  evmap_make_space l slot = Some l1 → slot < zlen l1 ∧ ∀ i, entry l1 i = entry l i.
Proof.
  unfold evmap_make_space. destruct (Z.leb_spec (zlen l) slot) as [Hle|]; [|by intros [=<-]].
  destruct (Z.ltb_spec (INT_MAX / 2) slot) as [|Hmax]; [done|].
  set (n0 := if zlen l =? 0 then 32 else zlen l). pose proof (zlen_nonneg l).
  assert (Hn0 : 0 < n0 ∧ zlen l <= n0) by (unfold n0; destruct (Z.eqb_spec (zlen l) 0); lia).
  change (INT_MAX / 2) with 1073741823 in Hmax.
  destruct (grow_entries_ok 31 n0 slot) as [G1 G2]; [lia|change (2 ^ Z.of_nat 31) with 2147483648; lia|].
  cbv zeta. set (g := grow_entries 31 n0 slot) in *. clearbody g n0.
  destruct (_ <? _); [done|]. destruct (map_realloc _); [|done]. intros [=<-].
  split; [rewrite zlen_app, zlen_zrepeat by lia; lia|]. intros i. unfold entry.
  destruct (Z.lt_ge_cases i (zlen l)); [by rewrite zget_app_l|].
  rewrite zget_app_r, zget_repeat_None by done. by rewrite (zget_out l).
Qed.

Lemma get_slot_ok l slot ctor l2 x :
  0 <= slot < zlen l → get_slot_and_ctor l slot ctor = Some (l2, x) →
  zlen l2 = zlen l ∧ x = default ctor (entry l slot) ∧
  ∀ i, entry l2 i = if decide (i = slot) then Some x else entry l i.
Proof.
  intros Hs. unfold get_slot_and_ctor, entry at 1.
  destruct (zget_in_range l slot Hs) as [[y|] E]; rewrite E; simpl.
  - intros [= <- <-]. split_and!; [done..|]. intros i. case_decide as Hi; [|done]. subst i.
    unfold entry. by rewrite E.
  - destruct (map_calloc slot); [|done]. intros [= <- <-]. split; [apply zlen_insert|].
    split; [done|]. intros i. by apply entry_insert.
Qed.
End slots.

(** * Counting the watchers of a descriptor *)

Section watchers.
Implicit Types mask : evid → Z.

Fixpoint watchers mask (bit : Z) (l : list evid) : Z :=
  match l with [] => 0 | e :: l => b2z (has (mask e) bit) + watchers mask bit l end.
(** What the events of a descriptor want to watch. *)
Fixpoint wanted mask (l : list evid) : Z :=
  match l with [] => 0 | e :: l => Z.lor (Z.land (mask e) EV_IO) (wanted mask l) end.

Lemma watchers_nonneg mask bit l : 0 <= watchers mask bit l.
Proof. induction l as [|e l IH]; simpl; [done|]. pose proof (b2z_nonneg (has (mask e) bit)). lia. Qed.
Lemma watchers_ext mask mask' bit l :
  (∀ x, x ∈ l → mask' x = mask x) → watchers mask' bit l = watchers mask bit l.
Proof. induction l; simpl; [done|]. intros H. rewrite IHl, H by set_solver. done. Qed.
Lemma wanted_ext mask mask' l : (∀ x, x ∈ l → mask' x = mask x) → wanted mask' l = wanted mask l.
Proof. induction l; simpl; [done|]. intros H. rewrite IHl, H by set_solver. done. Qed.
Lemma watchers_remove mask bit e l l' :
  tailq_remove e l = Some l' → watchers mask bit l = b2z (has (mask e) bit) + watchers mask bit l'.
Proof.
  revert l'. induction l as [|x l IH]; simpl; intros l'; [done|]. case_decide as Hx; [by intros [=<-]; subst|].
  destruct (tailq_remove e l) as [k|]; [|done]. intros [=<-]. rewrite (IH k) by done. simpl. lia.
Qed.

(** A kind of event is one bit. *)
Lemma land_bit x k : 0 <= k → Z.land x (2 ^ k) = bit_if (Z.testbit x k) (2 ^ k).
Proof.
  intros Hk. apply Z.bits_inj'. intros j Hj. rewrite Z.land_spec, Z.pow2_bits_eqb by done.
  destruct (Z.eqb_spec k j) as [<-|Hne].
  - rewrite andb_true_r. destruct (Z.testbit x k); simpl; [by rewrite Z.pow2_bits_true|by rewrite Z.bits_0].
  - rewrite andb_false_r. destruct (Z.testbit x k); simpl; [by rewrite Z.pow2_bits_false|by rewrite Z.bits_0].
Qed.
Lemma has_bit x k : 0 <= k → has x (2 ^ k) = Z.testbit x k.
Proof.
  intros Hk. unfold has. rewrite land_bit by done. destruct (Z.testbit x k); [|done]. simpl.
  destruct (Z.eqb_spec (2 ^ k) 0); [|done]. pose proof (Z.pow_pos_nonneg 2 k). lia.
Qed.
Lemma land_has x bit : bit ∈ [EV_READ; EV_WRITE; EV_CLOSED] → Z.land x bit = bit_if (has x bit) bit.
Proof.
  intros H. assert (∃ k, 0 <= k ∧ bit = 2 ^ k) as (k & Hk & ->).
  { rewrite !elem_of_cons in H. destruct H as [->|[->|[->|?]]]; [by exists 1|by exists 2|by exists 7|set_solver]. }
  by rewrite land_bit, has_bit.
Qed.

Definition three (r w c : bool) : Z :=
  Z.lor (bit_if r EV_READ) (Z.lor (bit_if w EV_WRITE) (bit_if c EV_CLOSED)).
Lemma land_io x : Z.land x EV_IO = three (has x EV_READ) (has x EV_WRITE) (has x EV_CLOSED).
Proof. unfold EV_IO, three. rewrite !Z.land_lor_distr_r, !land_has by set_solver. done. Qed.
Lemma three_lor r w c r' w' c' : Z.lor (three r w c) (three r' w' c') = three (r || r') (w || w') (c || c').
Proof. by destruct r, w, c, r', w', c'. Qed.
Lemma three_0 r w c : three r w c = 0 ↔ r = false ∧ w = false ∧ c = false.
Proof. by destruct r, w, c; vm_compute; intuition. Qed.
Lemma three_ldiff r w c r' w' c' :
  Z.ldiff (three r w c) (three r' w' c') = three (r && negb r') (w && negb w') (c && negb c').
Proof. by destruct r, w, c, r', w', c'. Qed.

Definition watched mask bit l : bool := negb (watchers mask bit l =? 0).
Lemma watched_cons mask bit e l : watched mask bit (e :: l) = has (mask e) bit || watched mask bit l.
Proof.
  unfold watched. simpl. pose proof (watchers_nonneg mask bit l).
  destruct (has _ _); simpl; [|done]. destruct (Z.eqb_spec (1 + watchers mask bit l) 0); [lia|done].
Qed.
Lemma wanted_three mask l :
  wanted mask l = three (watched mask EV_READ l) (watched mask EV_WRITE l) (watched mask EV_CLOSED l).
Proof. induction l as [|e l IH]; [done|]. cbn [wanted]. by rewrite IH, land_io, three_lor, !watched_cons. Qed.

Lemma count_up_ok mask bit e l :
  count_up (watchers mask bit l) (mask e) bit =
  (watchers mask bit (e :: l), bit_if (watched mask bit (e :: l) && negb (watched mask bit l)) bit).
Proof.
  unfold count_up. rewrite watched_cons. unfold watched. simpl. pose proof (watchers_nonneg mask bit l).
  destruct (has _ _); simpl; [|by rewrite andb_negb_r]. rewrite (Z.add_comm 1).
  by destruct (Z.eqb_spec (watchers mask bit l + 1) 1), (Z.eqb_spec (watchers mask bit l) 0); try lia.
Qed.
Lemma count_down_ok mask bit e l l' :
  tailq_remove e l = Some l' →
  count_down (watchers mask bit l) (mask e) bit =
  Some (watchers mask bit l', bit_if (watched mask bit l && negb (watched mask bit l')) bit).
Proof.
  intros Hr%(watchers_remove mask bit). unfold count_down, watched. rewrite Hr.
  pose proof (watchers_nonneg mask bit l'). destruct (has _ _); cbn [b2z].
  - replace (1 + watchers mask bit l' - 1) with (watchers mask bit l') by lia.
    unfold assert_. destruct (Z.leb_spec 0 (watchers mask bit l')); [|lia]. simpl.
    by destruct (Z.eqb_spec (watchers mask bit l') 0), (Z.eqb_spec (1 + watchers mask bit l') 0); try lia.
  - rewrite Z.add_0_l. by rewrite andb_negb_r.
Qed.
End watchers.

Lemma wanted_io mask l : Z.land (wanted mask l) EV_IO = wanted mask l.
Proof. rewrite wanted_three. by destruct (watched _ _ _), (watched _ _ _), (watched _ _ _). Qed.

(** * What a backend promises *)

(** Its invariant relates its state to the fdinfo of every descriptor.  Told of
    a change of events of a descriptor (never of signals), it does not fail, and
    keeps the invariant with the new fdinfo. *)
Class EventopLaws (B F : Type) {OP : Eventop B F} := {
  op_inv : B → (Z → F) → Prop;
  op_inv_ext b fds fds' : (∀ i, fds' i = fds i) → op_inv b fds → op_inv b fds';
  op_add_ok b fds fd old ev :
    op_inv b fds → 0 <= fd → has ev EV_SIGNAL = false → Z.land old EV_IO = old →
    ∃ b' f r, op_add b fd old ev (fds fd) = Some (b', f, r) ∧
      ∀ fds', fds' fd = f → (∀ i, i ≠ fd → fds' i = fds i) → op_inv b' fds';
  op_del_ok b fds fd old ev :
    op_inv b fds → 0 <= fd → has ev EV_SIGNAL = false → Z.land old EV_IO = old →
    ∃ b' f r, op_del b fd old ev (fds fd) = Some (b', f, r) ∧
      ∀ fds', fds' fd = f → (∀ i, i ≠ fd → fds' i = fds i) → op_inv b' fds'
}.

(** * The map *)

Section evmap.
Context {B F B2 : Type} {OP : Eventop B F} {OL : EventopLaws B F} {SO : Sigop B2} {MA : MapAlloc}.
Abbreviation map := (event_map B F B2).
Implicit Types (m : map) (mask : evid → Z).

Definition events_of m fd : list evid := default [] (io_events <$> entry (io m) fd).
Definition fdinfo_of m fd : F := default fdinfo_zero (io_fdinfo <$> entry (io m) fd).
Definition signals_of m s : list evid := default [] (entry (sigmap m) s).

(** The counters count the events listed; they fit 16 bits. *)
Record ctx_ok mask (ctx : evmap_io F) : Prop := {
  cx_nodup : NoDup (io_events ctx);
  cx_read : nread ctx = watchers mask EV_READ (io_events ctx);
  cx_write : nwrite ctx = watchers mask EV_WRITE (io_events ctx);
  cx_close : nclose ctx = watchers mask EV_CLOSED (io_events ctx);
  cx_fit : nread ctx <= 0xffff ∧ nwrite ctx <= 0xffff ∧ nclose ctx <= 0xffff
}.
Record map_inv m mask : Prop := {
  mi_io fd ctx : entry (io m) fd = Some ctx → ctx_ok mask ctx;
  mi_sig s l : entry (sigmap m) s = Some l → NoDup l
}.
(** The lists and counters are right, and the backend is in order. *)
Record evmap_inv m mask : Prop := {
  vi_map : map_inv m mask;
  vi_sel : op_inv (evsel m) (fdinfo_of m)
}.

Lemma ctx_interest mask ctx : ctx_ok mask ctx → interest ctx = wanted mask (io_events ctx).
Proof. intros [_ Hr Hw Hc _]. by rewrite wanted_three; unfold interest; rewrite Hr, Hw, Hc. Qed.
Lemma ctx_init mask : ctx_ok mask evmap_io_init.
Proof. split; simpl; [constructor|done..]. Qed.

(** Replacing what one descriptor holds. *)
Lemma put_inv m m' mask fd ctx :
  map_inv m mask → sigmap m' = sigmap m → ctx_ok mask ctx →
  (∀ i, entry (io m') i = if decide (i = fd) then Some ctx else entry (io m) i) → map_inv m' mask.
Proof.
  intros [Hi Hs] Es Hc He. split; [|by rewrite Es]. intros i c. rewrite He.
  case_decide; [by intros [=<-]|apply Hi].
Qed.
Lemma put_events m m' fd ctx :
  (∀ i, entry (io m') i = if decide (i = fd) then Some ctx else entry (io m) i) →
  events_of m' fd = io_events ctx ∧ fdinfo_of m' fd = io_fdinfo ctx ∧
  ∀ i, i ≠ fd → events_of m' i = events_of m i ∧ fdinfo_of m' i = fdinfo_of m i.
Proof.
  intros He. unfold events_of, fdinfo_of. rewrite He, decide_True by done.
  split_and!; [done..|]. intros i Hi. by rewrite He, decide_False.
Qed.

(** What the backend is told when the events of a descriptor become [l2] from
    [l1]: the kinds of events only one of them wants. *)
Definition told mask (l1 l2 : list evid) : Z := Z.ldiff (wanted mask l2) (wanted mask l1).

Lemma told_three mask l1 l2 :
  told mask l1 l2 =
  Z.lor (bit_if (watched mask EV_READ l2 && negb (watched mask EV_READ l1)) EV_READ)
    (Z.lor (bit_if (watched mask EV_WRITE l2 && negb (watched mask EV_WRITE l1)) EV_WRITE)
       (bit_if (watched mask EV_CLOSED l2 && negb (watched mask EV_CLOSED l1)) EV_CLOSED)).
Proof. unfold told. by rewrite !wanted_three, three_ldiff. Qed.

(** [l2] has one event more than [l1]. *)
Definition one_more (l1 l2 : list evid) : Prop := ∃ e, l2 = e :: l1 ∨ tailq_remove e l2 = Some l1.
Lemma watched_more mask bit l1 l2 : one_more l1 l2 → watched mask bit l1 = true → watched mask bit l2 = true.
Proof.
  intros (e & He). unfold watched. pose proof (watchers_nonneg mask bit l1).
  destruct He as [->|Hr]; [simpl|rewrite (watchers_remove _ _ _ _ _ Hr)];
    destruct (has (mask e) bit), (Z.eqb_spec (watchers mask bit l1) 0); cbn [b2z]; try done;
    intros _; apply negb_true_iff, Z.eqb_neq; lia.
Qed.
(** What is told accounts for the difference. *)
Lemma told_difference mask l1 l2 :
  one_more l1 l2 →
  Z.lor (wanted mask l1) (told mask l1 l2) = wanted mask l2 ∧
  Z.ldiff (wanted mask l2) (told mask l1 l2) = wanted mask l1.
Proof.
  intros He. unfold told. rewrite !wanted_three, !three_ldiff, three_lor.
  pose proof (watched_more mask EV_READ l1 l2 He) as H1. pose proof (watched_more mask EV_WRITE l1 l2 He) as H2.
  pose proof (watched_more mask EV_CLOSED l1 l2 He) as H3.
  destruct (watched mask EV_READ l1), (watched mask EV_WRITE l1), (watched mask EV_CLOSED l1);
    rewrite ?H1, ?H2, ?H3 by done; split; f_equal;
    repeat match goal with |- context [watched ?m ?b l2] => destruct (watched m b l2) end; done.
Qed.
Lemma told_io mask x l1 l2 : Z.land (Z.lor (Z.land x EV_ET) (told mask l1 l2)) EV_IO = told mask l1 l2.
Proof.
  rewrite Z.land_lor_distr_l, <-Z.land_assoc. change (Z.land EV_ET EV_IO) with 0.
  rewrite Z.land_0_r, Z.lor_0_l. unfold told. rewrite !wanted_three, three_ldiff.
  by destruct (_ && _), (_ && _), (_ && _).
Qed.
(** The wishes of a longer list differ when something is told. *)
Lemma told_0 mask l1 l2 : one_more l1 l2 → told mask l1 l2 = 0 ↔ wanted mask l2 = wanted mask l1.
Proof.
  intros He. unfold told. rewrite !wanted_three, three_ldiff.
  pose proof (λ bit, watched_more mask bit l1 l2 He) as Hle.
  pose proof (Hle EV_READ). pose proof (Hle EV_WRITE). pose proof (Hle EV_CLOSED). rewrite three_0.
  destruct (watched mask EV_READ l1), (watched mask EV_WRITE l1), (watched mask EV_CLOSED l1);
    repeat match goal with H : true = true → _ |- _ => rewrite (H eq_refl) end;
    destruct (watched mask EV_READ l2), (watched mask EV_WRITE l2), (watched mask EV_CLOSED l2);
    vm_compute; intuition discriminate.
Qed.

Record io_frame m m' fd : Prop := {
  if_sig : sigmap m' = sigmap m;
  if_sigsel : evsigsel m' = evsigsel m;
  if_io i : i ≠ fd → events_of m' i = events_of m i ∧ fdinfo_of m' i = fdinfo_of m i
}.

(** The result of [evmap_io_add_] for a descriptor: 1 when the backend was told
    of new kinds of events, 0 when there were none, -1 when the event is not
    listed. *)
Definition io_added mask m fd e m' r : Prop :=
  let l := events_of m fd in
  let news := told mask l (e :: l) in
  (r = -1 ∧ events_of m' fd = l ∧
   (evsel m' = evsel m ∧ fdinfo_of m' fd = fdinfo_of m fd ∨
    op_add (evsel m) fd (wanted mask l) (Z.lor (Z.land (mask e) EV_ET) news) (fdinfo_of m fd) =
    Some (evsel m', fdinfo_of m' fd, -1))) ∨
  (r = 0 ∧ events_of m' fd = e :: l ∧ news = 0 ∧ evsel m' = evsel m ∧ fdinfo_of m' fd = fdinfo_of m fd) ∨
  (r = 1 ∧ events_of m' fd = e :: l ∧ news ≠ 0 ∧
   ∃ ret, ret ≠ -1 ∧
     op_add (evsel m) fd (wanted mask l) (Z.lor (Z.land (mask e) EV_ET) news) (fdinfo_of m fd) =
     Some (evsel m', fdinfo_of m' fd, ret)).

Lemma ctx_put mask ctx e f :
  ctx_ok mask ctx → e ∉ io_events ctx →
  watchers mask EV_READ (e :: io_events ctx) <= 0xffff →
  watchers mask EV_WRITE (e :: io_events ctx) <= 0xffff →
  watchers mask EV_CLOSED (e :: io_events ctx) <= 0xffff →
  ctx_ok mask (EvmapIo (e :: io_events ctx) (u16 (watchers mask EV_READ (e :: io_events ctx)))
    (u16 (watchers mask EV_WRITE (e :: io_events ctx))) (u16 (watchers mask EV_CLOSED (e :: io_events ctx))) f).
Proof.
  intros [Hnd _ _ _ _] He H1 H2 H3. rewrite !u16_small by (split; [apply watchers_nonneg|lia]).
  split; cbn [io_events nread nwrite nclose]; try done. by constructor.
Qed.

Lemma same_io mask m m' fd :
  map_inv m mask → sigmap m' = sigmap m → evsigsel m' = evsigsel m →
  (∀ i, entry (io m') i = entry (io m) i) →
  map_inv m' mask ∧ io_frame m m' fd ∧ events_of m' fd = events_of m fd ∧ fdinfo_of m' fd = fdinfo_of m fd.
Proof.
  intros [Hi Hs] Es Eb He. split_and!.
  - split; [intros i c; rewrite He; apply Hi|by rewrite Es].
  - split; [done..|]. intros i _. unfold events_of, fdinfo_of. by rewrite He.
  - unfold events_of. by rewrite He.
  - unfold fdinfo_of. by rewrite He.
Qed.
(** What a backend is told never mentions signals. *)
Lemma change_no_signal x r w c r' w' c' :
  has (Z.lor (Z.land x EV_ET) (Z.ldiff (three r w c) (three r' w' c'))) EV_SIGNAL = false.
Proof.
  unfold has. rewrite Z.land_lor_distr_l, <-Z.land_assoc, three_ldiff. change (Z.land EV_ET EV_SIGNAL) with 0.
  rewrite Z.land_0_r. by destruct r, w, c, r', w', c'.
Qed.
Lemma told_no_signal mask x l1 l2 : has (Z.lor (Z.land x EV_ET) (told mask l1 l2)) EV_SIGNAL = false.
Proof. unfold told. rewrite !wanted_three. apply change_no_signal. Qed.
(** The backend after an operation on one descriptor. *)
Lemma sel_after m m' fd :
  (∀ i, i ≠ fd → fdinfo_of m' i = fdinfo_of m i) → op_inv (evsel m) (fdinfo_of m) →
  evsel m' = evsel m → fdinfo_of m' fd = fdinfo_of m fd → op_inv (evsel m') (fdinfo_of m').
Proof.
  intros Hi Ho -> Hf. eapply op_inv_ext; [|done]. intros i. destruct (decide (i = fd)) as [->|]; auto.
Qed.
Lemma put_io_ok mask m m' fd ctx :
  map_inv m mask → sigmap m' = sigmap m → evsigsel m' = evsigsel m → ctx_ok mask ctx →
  (∀ i, entry (io m') i = if decide (i = fd) then Some ctx else entry (io m) i) →
  map_inv m' mask ∧ io_frame m m' fd ∧ events_of m' fd = io_events ctx ∧ fdinfo_of m' fd = io_fdinfo ctx.
Proof.
  intros Hm Es Eb Hc He. destruct (put_events m m' fd ctx He) as (H1 & H2 & H3).
  split_and!; [by eapply put_inv|by split|done|done].
Qed.

Lemma io_enter_ok mask m fd e ctx m' r :
  map_inv m mask → entry (io m) fd = Some ctx → e ∉ io_events ctx →
  io_enter m fd e (mask e) ctx = Some (m', r) →
  map_inv m' mask ∧ io_frame m m' fd ∧ io_added mask m fd e m' r.
Proof.
  intros Hm Hctx He. pose proof (mi_io _ _ Hm _ _ Hctx) as Hok. pose proof Hok as [Hnd Er Ew Ec Hfit].
  pose proof (entry_range _ _ _ Hctx) as Hr.
  assert (Hput : ∀ c (m1 : map), ctx_ok mask c → io m1 = io m → sigmap m1 = sigmap m → evsigsel m1 = evsigsel m →
    map_inv (put_io fd c m1) mask ∧ io_frame m (put_io fd c m1) fd ∧
    events_of (put_io fd c m1) fd = io_events c ∧ fdinfo_of (put_io fd c m1) fd = io_fdinfo c).
  { intros c m1 Hc E3 E4 E5. apply put_io_ok; [done..|]. intros i.
    unfold put_io, set_io. cbn [io]. by rewrite E3, entry_insert. }
  assert (Hl : events_of m fd = io_events ctx ∧ fdinfo_of m fd = io_fdinfo ctx).
  { unfold events_of, fdinfo_of. by rewrite Hctx. }
  destruct Hl as [Hl Hf]. unfold io_enter, io_added. rewrite Hl, Hf, <-(ctx_interest _ _ Hok).
  rewrite Er, Ew, Ec, !count_up_ok. cbv iota beta zeta. rewrite <-(told_three mask).
  set (news := told mask _ _).
  destruct (Z.ltb_spec 0xffff (watchers mask EV_READ (e :: io_events ctx))) as [|Fr];
    [intros [= <- <-]; split_and!; [done|by split|left; auto]|].
  destruct (Z.ltb_spec 0xffff (watchers mask EV_WRITE (e :: io_events ctx))) as [|Fw];
    [intros [= <- <-]; split_and!; [done|by split|left; auto]|].
  destruct (Z.ltb_spec 0xffff (watchers mask EV_CLOSED (e :: io_events ctx))) as [|Fc];
    [intros [= <- <-]; split_and!; [done|by split|left; auto]|].
  cbn [orb]. pose proof (λ f, ctx_put mask ctx e f Hok He Fr Fw Fc) as Hnew.
  destruct (Z.eqb_spec news 0) as [Hz|Hz].
  { intros [= <- <-]. destruct (Hput _ m (Hnew (io_fdinfo ctx))) as (? & ? & ? & ?); [done..|].
    split_and!; [done..|]. right; left. split_and!; done. }
  destruct (op_add _ _ _ _ _) as [[[b f] ret]|] eqn:Eop; [|done]. cbn [mbind option_bind].
  destruct (Z.eqb_spec ret (-1)) as [->|].
  - intros [= <- <-]. destruct (Hput (EvmapIo (io_events ctx) (watchers mask EV_READ (io_events ctx))
      (watchers mask EV_WRITE (io_events ctx)) (watchers mask EV_CLOSED (io_events ctx)) f) (set_evsel b m))
      as (? & ? & ? & Hfi); [|done..|split_and!; [done..|left; split_and!; [done..|right]]].
    + split; cbn; [done..|]. by rewrite Er, Ew, Ec in Hfit.
    + by rewrite Hfi.
  - intros [= <- <-]. destruct (Hput _ (set_evsel b m) (Hnew f)) as (? & ? & ? & Hfi); [done..|].
    split_and!; [done..|]. right; right. split_and!; [done..|]. exists ret.
    split; [done|]. cbn [watchers] in Hfi. by rewrite Hfi.
Qed.
Lemma io_enter_total mask m fd e ctx :
  map_inv m mask → op_inv (evsel m) (fdinfo_of m) → entry (io m) fd = Some ctx →
  ∃ m' r, io_enter m fd e (mask e) ctx = Some (m', r).
Proof.
  intros Hm Ho Hctx. pose proof (mi_io _ _ Hm _ _ Hctx) as Hok. pose proof Hok as [Hnd Er Ew Ec Hfit].
  unfold io_enter. rewrite Er, Ew, Ec, !count_up_ok. cbv iota beta zeta. rewrite <-(told_three mask).
  destruct (_ || _); [by eauto|]. destruct (_ =? 0); [by eauto|].
  destruct (op_add_ok _ _ fd (interest ctx)
    (Z.lor (Z.land (mask e) EV_ET) (told mask (io_events ctx) (e :: io_events ctx))) Ho)
    as (b' & f & r & E & _); [apply entry_range in Hctx; lia|apply told_no_signal|
    rewrite (ctx_interest _ _ Hok); apply wanted_io|].
  unfold fdinfo_of in E. rewrite Hctx in E. cbn in E. rewrite E. cbn [mbind option_bind].
  destruct (r =? -1); eauto.
Qed.
Lemma io_added_sel mask m m' fd e r :
  0 <= fd → op_inv (evsel m) (fdinfo_of m) → io_frame m m' fd → io_added mask m fd e m' r →
  op_inv (evsel m') (fdinfo_of m').
Proof.
  intros Hfd Ho [_ _ Hf] Ha. assert (Hi : ∀ i, i ≠ fd → fdinfo_of m' i = fdinfo_of m i) by (intros i ?; by apply Hf).
  assert (Hsel : evsel m' = evsel m ∧ fdinfo_of m' fd = fdinfo_of m fd ∨ ∃ ret,
    op_add (evsel m) fd (wanted mask (events_of m fd))
      (Z.lor (Z.land (mask e) EV_ET) (told mask (events_of m fd) (e :: events_of m fd))) (fdinfo_of m fd) =
    Some (evsel m', fdinfo_of m' fd, ret)).
  { destruct Ha as [(_ & _ & [?|?])|[(_ & _ & _ & ?)|(_ & _ & _ & ret & _ & ?)]]; eauto. }
  destruct Hsel as [[??]|[ret E]]; [by eapply sel_after|].
  destruct (op_add_ok _ _ fd (wanted mask (events_of m fd)) _ Ho Hfd
    (told_no_signal mask (mask e) (events_of m fd) (e :: events_of m fd)) (wanted_io _ _)) as (b' & f & r' & E' & Hop).
  rewrite E in E'. simplify_eq. by apply Hop.
Qed.

Lemma io_add_spec mask m fd e m' r :
  0 <= fd → map_inv m mask → e ∉ events_of m fd → io_add m fd e (mask e) = Some (m', r) →
  map_inv m' mask ∧ io_frame m m' fd ∧ io_added mask m fd e m' r.
Proof.
  intros Hfd Hm He. unfold io_add. destruct (Z.ltb_spec fd 0); [lia|].
  destruct (evmap_make_space (io m) fd) as [l1|] eqn:E1.
  2: { intros [= <- <-]. split_and!; [done|by split|left; auto]. }
  destruct (make_space_ok _ _ _ E1) as [Hlen H1].
  destruct (get_slot_and_ctor l1 fd evmap_io_init) as [[l2 ctx]|] eqn:E2.
  2: { intros [= <- <-]. destruct (same_io mask m (set_io l1 m) fd) as (? & ? & ? & ?); try done.
       split_and!; [done..|]. left. split_and!; [done..|]. by left. }
  destruct (get_slot_ok _ _ _ _ _ (conj Hfd Hlen) E2) as (Hlen2 & Hctx & H2). rewrite H1 in Hctx.
  assert (Hl : events_of m fd = io_events ctx ∧ fdinfo_of m fd = io_fdinfo ctx).
  { unfold events_of, fdinfo_of. rewrite Hctx. by destruct (entry (io m) fd). }
  assert (Hok : ctx_ok mask ctx).
  { rewrite Hctx. destruct (entry (io m) fd) eqn:E; [by eapply mi_io|apply ctx_init]. }
  destruct (put_io_ok mask m (set_io l2 m) fd ctx) as (Hm2 & Hfr & Hl2 & Hf2); try done.
  { intros i. cbn [set_io io]. rewrite H2. case_decide; [done|apply H1]. }
  intros Hent. destruct (io_enter_ok mask (set_io l2 m) fd e ctx m' r) as (G1 & G2 & G3); [done|..|exact Hent|].
  { cbn. by rewrite H2, decide_True. } { by destruct Hl as [<- _]. }
  split; [done|]. split.
  - destruct Hfr as [? ? I1], G2 as [? ? I2]. split; [congruence..|]. intros i Hi.
    destruct (I1 i Hi), (I2 i Hi). split; congruence.
  - unfold io_added in *. destruct Hl as [-> ->]. by rewrite Hl2, Hf2 in G3.
Qed.
Lemma io_add_total mask m fd e :
  map_inv m mask → op_inv (evsel m) (fdinfo_of m) → ∃ m' r, io_add m fd e (mask e) = Some (m', r).
Proof.
  intros Hm Ho. unfold io_add. destruct (Z.ltb_spec fd 0) as [|Hfd]; [by eauto|].
  destruct (evmap_make_space (io m) fd) as [l1|] eqn:E1; [|by eauto].
  destruct (make_space_ok _ _ _ E1) as [Hlen H1].
  destruct (get_slot_and_ctor l1 fd evmap_io_init) as [[l2 ctx]|] eqn:E2; [|by eauto].
  destruct (get_slot_ok _ _ _ _ _ (conj Hfd Hlen) E2) as (Hlen2 & Hctx & H2). rewrite H1 in Hctx.
  apply io_enter_total.
  - eapply put_inv with (m' := set_io l2 m) (ctx := ctx) (fd := fd); [done|done| |].
    + rewrite Hctx. destruct (entry (io m) fd) eqn:E; [by eapply mi_io|apply ctx_init].
    + intros i. cbn [set_io io]. rewrite H2. case_decide; [done|apply H1].
  - eapply op_inv_ext; [|exact Ho]. intros i. unfold fdinfo_of. cbn [set_io io]. rewrite H2.
    case_decide as Hi; [|by rewrite H1]. subst i. rewrite Hctx. by destruct (entry (io m) fd).
  - cbn [set_io io]. by rewrite H2, decide_True.
Qed.
Lemma io_add_ok mask m fd e :
  0 <= fd → evmap_inv m mask → e ∉ events_of m fd →
  ∃ m' r, io_add m fd e (mask e) = Some (m', r) ∧
    evmap_inv m' mask ∧ io_frame m m' fd ∧ io_added mask m fd e m' r.
Proof.
  intros Hfd [Hm Ho] He. destruct (io_add_total mask m fd e Hm Ho) as (m' & r & E). exists m', r. split; [done|].
  destruct (io_add_spec _ _ _ _ _ _ Hfd Hm He E) as (? & ? & ?). split_and!; [|done..].
  split; [done|by eapply io_added_sel].
Qed.

(** The result of [evmap_io_del_]: the event is not listed any more; the backend
    is told which kinds of events nobody wants now. *)
Definition io_deleted mask m fd e m' r : Prop :=
  ∃ l', tailq_remove e (events_of m fd) = Some l' ∧ events_of m' fd = l' ∧
  let gone := told mask l' (events_of m fd) in
  (r = 0 ∧ gone = 0 ∧ evsel m' = evsel m ∧ fdinfo_of m' fd = fdinfo_of m fd) ∨
  (gone ≠ 0 ∧ ∃ ret, r = (if ret =? -1 then -1 else 1) ∧
     op_del (evsel m) fd (wanted mask (events_of m fd)) (Z.lor (Z.land (mask e) EV_ET) gone)
       (fdinfo_of m fd) = Some (evsel m', fdinfo_of m' fd, ret)).

Lemma ctx_drop mask ctx e l' f :
  ctx_ok mask ctx → tailq_remove e (io_events ctx) = Some l' → e ∈ io_events ctx →
  ctx_ok mask (EvmapIo l' (u16 (watchers mask EV_READ l')) (u16 (watchers mask EV_WRITE l'))
    (u16 (watchers mask EV_CLOSED l')) f).
Proof.
  intros [Hnd Er Ew Ec (F1 & F2 & F3)] Hr He. destruct (tailq_remove_ok _ _ Hnd He) as (l2 & E2 & Hnd2 & _).
  rewrite Hr in E2. injection E2 as <-. rewrite Er, (watchers_remove _ _ _ _ _ Hr) in F1.
  rewrite Ew, (watchers_remove _ _ _ _ _ Hr) in F2. rewrite Ec, (watchers_remove _ _ _ _ _ Hr) in F3.
  pose proof (b2z_nonneg (has (mask e) EV_READ)). pose proof (b2z_nonneg (has (mask e) EV_WRITE)).
  pose proof (b2z_nonneg (has (mask e) EV_CLOSED)).
  rewrite !u16_small by (split; [apply watchers_nonneg|lia]).
  split; cbn [io_events nread nwrite nclose]; try done. lia.
Qed.

Lemma io_deleted_sel mask m m' fd e r :
  0 <= fd → op_inv (evsel m) (fdinfo_of m) → io_frame m m' fd → io_deleted mask m fd e m' r →
  op_inv (evsel m') (fdinfo_of m').
Proof.
  intros Hfd Ho [_ _ Hf] (l' & _ & _ & Ha).
  assert (Hi : ∀ i, i ≠ fd → fdinfo_of m' i = fdinfo_of m i) by (intros i ?; by apply Hf).
  destruct Ha as [(_ & _ & ? & ?)|(_ & ret & _ & E)]; [by eapply sel_after|].
  destruct (op_del_ok _ _ fd (wanted mask (events_of m fd)) _ Ho Hfd
    (told_no_signal mask (mask e) l' (events_of m fd)) (wanted_io _ _)) as (b' & f & r' & E' & Hop).
  rewrite E in E'. simplify_eq. by apply Hop.
Qed.
Lemma io_del_spec mask m fd e :
  0 <= fd → evmap_inv m mask → e ∈ events_of m fd →
  ∃ m' r, io_del m fd e (mask e) = Some (m', r) ∧
    map_inv m' mask ∧ io_frame m m' fd ∧ io_deleted mask m fd e m' r.
Proof.
  intros Hfd [Hm Ho] He. unfold io_del. destruct (Z.ltb_spec fd 0); [lia|].
  unfold events_of in He. destruct (entry (io m) fd) as [ctx|] eqn:Hctx; [|simpl in He; set_solver].
  simpl in He. pose proof (entry_range _ _ _ Hctx) as Hr. destruct (Z.leb_spec (zlen (io m)) fd); [lia|].
  rewrite (zget_entry _ _ _ Hctx). cbn [mbind option_bind].
  pose proof (mi_io _ _ Hm _ _ Hctx) as Hok. pose proof Hok as [Hnd Er Ew Ec Hfit].
  destruct (tailq_remove_ok _ _ Hnd He) as (l' & Hl' & _).
  rewrite Er, Ew, Ec, !(count_down_ok _ _ _ _ _ Hl'), Hl'. cbn [mbind option_bind]. cbv iota beta zeta.
  rewrite <-(told_three mask). set (gone := told mask _ _).
  assert (Hl : events_of m fd = io_events ctx ∧ fdinfo_of m fd = io_fdinfo ctx).
  { unfold events_of, fdinfo_of. by rewrite Hctx. }
  destruct Hl as [Hl Hf]. unfold io_deleted. rewrite Hl, Hf, <-(ctx_interest _ _ Hok).
  assert (Hput : ∀ f (m1 : map), io m1 = io m → sigmap m1 = sigmap m → evsigsel m1 = evsigsel m →
    let c := EvmapIo l' (u16 (watchers mask EV_READ l')) (u16 (watchers mask EV_WRITE l'))
      (u16 (watchers mask EV_CLOSED l')) f in
    map_inv (put_io fd c m1) mask ∧ io_frame m (put_io fd c m1) fd ∧
    events_of (put_io fd c m1) fd = l' ∧ fdinfo_of (put_io fd c m1) fd = f).
  { intros f m1 E3 E4 E5 c. apply (put_io_ok mask m _ fd c); [done..|by eapply ctx_drop|]. intros i.
    unfold put_io, set_io. cbn [io]. by rewrite E3, entry_insert. }
  destruct (Z.eqb_spec gone 0) as [Hz|Hz].
  - destruct (Hput (io_fdinfo ctx) m) as (? & ? & ? & ?); [done..|].
    eexists _, _. split; [done|]. split_and!; [done..|]. exists l'. split_and!; [done..|]. by left.
  - destruct (op_del_ok _ _ fd (interest ctx) _ Ho Hfd (told_no_signal mask (mask e) l' (io_events ctx)))
      as (b & f & ret & Eop & _);
      [rewrite (ctx_interest _ _ Hok); apply wanted_io|]. fold gone in Eop. rewrite Hf in Eop. rewrite Eop. cbn [mbind option_bind].
    destruct (Hput f (set_evsel b m)) as (? & ? & ? & Hfi); [done..|].
    eexists _, _. split; [done|]. split_and!; [done..|]. exists l'. split_and!; [done..|]. right.
    split; [done|]. exists ret. split; [done|].
    by rewrite <-Hfi in Eop.
Qed.
Lemma io_del_ok mask m fd e :
  0 <= fd → evmap_inv m mask → e ∈ events_of m fd →
  ∃ m' r, io_del m fd e (mask e) = Some (m', r) ∧
    evmap_inv m' mask ∧ io_frame m m' fd ∧ io_deleted mask m fd e m' r.
Proof.
  intros Hfd Hv He. destruct (io_del_spec mask m fd e Hfd Hv He) as (m' & r & E & ? & ? & ?).
  exists m', r. split_and!; [done| |done..]. split; [done|]. by eapply io_deleted_sel; [|apply Hv|..].
Qed.

(** * Signals *)

Record sig_frame m m' s : Prop := {
  sf_io : io m' = io m;
  sf_sel : evsel m' = evsel m;
  sf_sig i : i ≠ s → signals_of m' i = signals_of m i
}.

(** The backend of signals is told of the first and of the last event. *)
Definition sig_added m s e m' r : Prop :=
  let l := signals_of m s in
  (r = -1 ∧ signals_of m' s = l) ∨
  (r = 1 ∧ signals_of m' s = e :: l ∧
   match l with
   | [] => ∃ ret, ret ≠ -1 ∧ sig_add (evsigsel m) s = (evsigsel m', ret)
   | _ => evsigsel m' = evsigsel m
   end).

Lemma put_sig_ok mask m m' s l :
  map_inv m mask → io m' = io m → evsel m' = evsel m → NoDup l →
  (∀ i, entry (sigmap m') i = if decide (i = s) then Some l else entry (sigmap m) i) →
  map_inv m' mask ∧ sig_frame m m' s ∧ signals_of m' s = l.
Proof.
  intros [Hi Hs] Eio Eb Hnd He. split_and!.
  - split; [by rewrite Eio|]. intros i k. rewrite He. case_decide; [by intros [=<-]|apply Hs].
  - split; [done..|]. intros i Hne. unfold signals_of. by rewrite He, decide_False.
  - unfold signals_of. by rewrite He, decide_True.
Qed.

Lemma signal_add_ok mask m s e m' r :
  map_inv m mask → e ∉ signals_of m s → signal_add m s e = (m', r) →
  map_inv m' mask ∧ sig_frame m m' s ∧ sig_added m s e m' r.
Proof.
  intros Hm He. unfold signal_add.
  destruct (Z.ltb_spec s 0); [intros [= <- <-]; split_and!; [done|by split|by left]|].
  destruct (Z.leb_spec NSIG s); [intros [= <- <-]; split_and!; [done|by split|by left]|]. cbn [orb].
  destruct (evmap_make_space (sigmap m) s) as [l1|] eqn:E1.
  2: { intros [= <- <-]. split_and!; [done|by split|by left]. }
  destruct (make_space_ok _ _ _ E1) as [Hlen H1].
  assert (Hnd : NoDup (signals_of m s)).
  { unfold signals_of. destruct (entry (sigmap m) s) eqn:E; [by eapply mi_sig|constructor]. }
  assert (Hsame : ∀ m1 : map, io m1 = io m → evsel m1 = evsel m →
    (∀ i, default [] (entry (sigmap m1) i) = signals_of m i ∧
          (entry (sigmap m1) i = entry (sigmap m) i ∨ entry (sigmap m1) i = Some (signals_of m i))) →
    map_inv m1 mask ∧ sig_frame m m1 s ∧ sig_added m s e m1 (-1)).
  { intros m1 G1 G2 G3. split_and!.
    - destruct Hm as [Hi Hs]. split; [by rewrite G1|]. intros i l Hl.
      destruct (G3 i) as [_ [G4|G4]]; rewrite G4 in Hl; [by eapply Hs|]. injection Hl as <-.
      unfold signals_of. destruct (entry (sigmap m) i) eqn:E; [by eapply Hs|constructor].
    - split; [done..|]. intros i _. apply G3.
    - left. split; [done|]. apply G3. }
  destruct (get_slot_and_ctor l1 s []) as [[l2 ctx]|] eqn:E2.
  2: { intros [= <- <-]. apply Hsame; [done..|]. intros i. cbn. unfold signals_of. rewrite H1. by split; [|left]. }
  destruct (get_slot_ok _ _ _ _ _ (conj H Hlen) E2) as (Hlen2 & Hctx & H2). rewrite H1 in Hctx.
  change (default [] _) with (signals_of m s) in Hctx. subst ctx.
  assert (Hin : ∀ i, entry l2 i = if decide (i = s) then Some (signals_of m s) else entry (sigmap m) i).
  { intros i. rewrite H2. case_decide; [done|apply H1]. }
  assert (Hadd : ∀ m1 : map, io m1 = io m → evsel m1 = evsel m → sigmap m1 = l2 →
    let m2 := set_sigmap (<[Z.to_nat s := Some (e :: signals_of m s)]> (sigmap m1)) m1 in
    map_inv m2 mask ∧ sig_frame m m2 s ∧ signals_of m2 s = e :: signals_of m s).
  { intros m1 G1 G2 G3 m2. apply put_sig_ok; [done..|by constructor|]. intros i.
    unfold m2. cbn [set_sigmap sigmap]. rewrite G3, entry_insert by lia. case_decide; [done|].
    by rewrite Hin, decide_False. }
  destruct (signals_of m s) as [|x l] eqn:El.
  - cbv zeta. destruct (sig_add _ _) as [b ret] eqn:Eb. destruct (Z.eqb_spec ret (-1)).
    + intros [= <- <-]. apply Hsame; [done..|]. intros i. cbn. unfold signals_of. rewrite Hin.
      case_decide as Hi; [|by split; [|left]]. subst i. unfold signals_of in El. rewrite El. by split; [|right].
    + intros [= <- <-]. destruct (Hadd (set_evsigsel b (set_sigmap l2 m))) as (? & ? & ?); [done..|].
      split_and!; [done..|]. unfold sig_added. rewrite El. right. split_and!; [done..|]. by exists ret.
  - intros [= <- <-]. destruct (Hadd (set_sigmap l2 m)) as (? & ? & ?); [done..|].
    split_and!; [done..|]. unfold sig_added. rewrite El. by right.
Qed.

Definition sig_deleted m s e m' r : Prop :=
  ∃ l', tailq_remove e (signals_of m s) = Some l' ∧ signals_of m' s = l' ∧
  match l' with
  | [] => ∃ ret, r = (if ret =? -1 then -1 else 1) ∧ sig_del (evsigsel m) s = (evsigsel m', ret)
  | _ => r = 1 ∧ evsigsel m' = evsigsel m
  end.

Lemma signal_del_ok mask m s e :
  map_inv m mask → e ∈ signals_of m s →
  ∃ m' r, signal_del m s e = Some (m', r) ∧
    map_inv m' mask ∧ sig_frame m m' s ∧ sig_deleted m s e m' r.
Proof.
  intros Hm He. unfold signal_del, sig_deleted. unfold signals_of in He |- *.
  destruct (entry (sigmap m) s) as [l|] eqn:El; [|simpl in He; set_solver]. simpl in He |- *.
  pose proof (entry_range _ _ _ El) as Hr. pose proof (mi_sig _ _ Hm _ _ El) as Hnd.
  destruct (Z.ltb_spec s 0); [lia|]. destruct (Z.leb_spec (zlen (sigmap m)) s); [lia|]. cbn [orb].
  rewrite (zget_entry _ _ _ El). destruct (tailq_remove_ok _ _ Hnd He) as (l' & Hl' & Hnd' & _).
  cbn [mbind option_bind]. rewrite Hl'. cbn [mbind option_bind].
  set (m1 := set_sigmap _ m).
  destruct (put_sig_ok mask m m1 s l') as (G1 & G2 & G3); [done..| |].
  { intros i. by apply entry_insert. }
  destruct l' as [|x l'].
  - destruct (sig_del _ s) as [b ret] eqn:Eb. eexists _, _. split; [done|].
    split; [by destruct G1|]. split; [by destruct G2|]. exists []. split_and!; [done..|]. by exists ret.
  - eexists _, _. split; [done|]. split_and!; [done..|]. by exists (x :: l').
Qed.

(** * What the base relies on *)

Lemma map_inv_ext m mask mask' :
  (∀ x i, x ∈ events_of m i ∨ x ∈ signals_of m i → mask' x = mask x) → map_inv m mask → map_inv m mask'.
Proof.
  intros He [Hi Hs]. split; [|done]. intros fd ctx Hctx. destruct (Hi _ _ Hctx) as [? Hr Hw Hc ?].
  assert (Hx : ∀ x, x ∈ io_events ctx → mask' x = mask x).
  { intros x Hx. apply (He x fd). left. unfold events_of. by rewrite Hctx. }
  split; rewrite ?(watchers_ext mask mask') by done; done.
Qed.
Lemma events_nodup m mask fd : map_inv m mask → NoDup (events_of m fd).
Proof.
  intros Hm. unfold events_of. destruct (entry (io m) fd) eqn:E; simpl; [|constructor].
  by destruct (mi_io _ _ Hm _ _ E).
Qed.
Lemma signals_nodup m mask s : map_inv m mask → NoDup (signals_of m s).
Proof.
  intros Hm. unfold signals_of. destruct (entry (sigmap m) s) eqn:E; simpl; [|constructor].
  by eapply mi_sig.
Qed.
Lemma events_neg m fd x : x ∈ events_of m fd → 0 <= fd.
Proof.
  unfold events_of. destruct (entry (io m) fd) eqn:E; simpl; [|set_solver].
  intros _. apply entry_range in E. lia.
Qed.

Lemma io_frame_in m m' fd i x : io_frame m m' fd → i ≠ fd → x ∈ events_of m' i ↔ x ∈ events_of m i.
Proof. intros Hf Hi. by destruct (if_io _ _ _ Hf i Hi) as [-> _]. Qed.
Lemma io_frame_sig m m' fd i x : io_frame m m' fd → x ∈ signals_of m' i ↔ x ∈ signals_of m i.
Proof. intros Hf. unfold signals_of. by rewrite (if_sig _ _ _ Hf). Qed.
Lemma sig_frame_in m m' s i x : sig_frame m m' s → x ∈ events_of m' i ↔ x ∈ events_of m i.
Proof. intros Hf. unfold events_of. by rewrite (sf_io _ _ _ Hf). Qed.
Lemma sig_frame_sig m m' s i x : sig_frame m m' s → i ≠ s → x ∈ signals_of m' i ↔ x ∈ signals_of m i.
Proof. intros Hf Hi. by rewrite (sf_sig _ _ _ Hf i Hi). Qed.

Lemma sig_frame_inv m m' mask s :
  map_inv m' mask → op_inv (evsel m) (fdinfo_of m) → sig_frame m m' s → evmap_inv m' mask.
Proof.
  intros Hm Ho [Hi Hs _]. split; [done|]. rewrite Hs. eapply op_inv_ext; [|exact Ho].
  intros i. unfold fdinfo_of. by rewrite Hi.
Qed.

Lemma io_added_in mask m fd e m' r x :
  io_added mask m fd e m' r →
  (r = -1 ∨ r = 0 ∨ r = 1) ∧ (x ∈ events_of m' fd ↔ x ∈ events_of m fd ∨ r ≠ -1 ∧ x = e).
Proof.
  intros [(-> & -> & _)|[(-> & -> & _)|(-> & -> & _)]]; (split; [lia|]).
  - split; [by left|]. by intros [?|[]].
  - rewrite elem_of_cons. naive_solver lia.
  - rewrite elem_of_cons. naive_solver lia.
Qed.
Lemma removed_in e l l' x : NoDup l → tailq_remove e l = Some l' → x ∈ l' ↔ x ∈ l ∧ x ≠ e.
Proof.
  intros Hnd Hr. assert (He : e ∈ l).
  { clear Hnd. revert l' Hr. induction l as [|y l IH]; simpl; intros l'; [done|].
    case_decide; [intros _; set_solver|]. destruct (tailq_remove e l); [|done]. intros _. set_solver. }
  destruct (tailq_remove_ok e l Hnd He) as (k & E & _ & Hin). rewrite Hr in E. injection E as <-. apply Hin.
Qed.
Lemma io_deleted_in mask m fd e m' r x :
  map_inv m mask → io_deleted mask m fd e m' r →
  (r = -1 ∨ r = 0 ∨ r = 1) ∧ (x ∈ events_of m' fd ↔ x ∈ events_of m fd ∧ x ≠ e).
Proof.
  intros Hm (l' & Hl' & -> & Hr). split.
  - destruct Hr as [(-> & _)|(_ & ret & -> & _)]; [lia|]. destruct (ret =? -1); lia.
  - eapply removed_in; [by eapply events_nodup|done].
Qed.
Lemma sig_added_in m s e m' r x :
  sig_added m s e m' r →
  (r = -1 ∨ r = 0 ∨ r = 1) ∧ (x ∈ signals_of m' s ↔ x ∈ signals_of m s ∨ r ≠ -1 ∧ x = e).
Proof.
  intros [(-> & ->)|(-> & -> & _)]; (split; [lia|]).
  - split; [by left|]. by intros [?|[]].
  - rewrite elem_of_cons. naive_solver lia.
Qed.
Lemma sig_deleted_in mask m s e m' r x :
  map_inv m mask → sig_deleted m s e m' r →
  (r = -1 ∨ r = 0 ∨ r = 1) ∧ (x ∈ signals_of m' s ↔ x ∈ signals_of m s ∧ x ≠ e).
Proof.
  intros Hm (l' & Hl' & -> & Hr). split.
  - destruct l'; [|lia]. destruct Hr as (ret & -> & _). destruct (ret =? -1); lia.
  - eapply removed_in; [by eapply signals_nodup|done].
Qed.

#[export] Program Instance evmap_laws : EvmapLaws map := {|
  em_io m fd e := e ∈ events_of m fd;
  em_sig m s e := e ∈ signals_of m s;
  em_inv m mask := evmap_inv m mask
|}.
Next Obligation. intros m mask mask' He [Hm Ho]. split; [|done]. by eapply map_inv_ext. Qed.
Next Obligation.
  intros m mask fd e Hv He _. simpl. destruct (Z.ltb_spec fd 0).
  { exists m, 0. unfold io_add. destruct (Z.ltb_spec fd 0); [|lia]. split_and!; [done|done|lia| |done].
    intros fd' x. split; [by left|]. intros [?|(_ & ? & _)]; [done|lia]. }
  destruct (io_add_ok mask m fd e ltac:(done) Hv (He fd)) as (m' & r & E & G1 & G2 & G3).
  exists m', r.
  split_and!; [done|done|by eapply (io_added_in _ _ _ _ _ _ e)| |intros; by eapply io_frame_sig].
  intros fd' x. destruct (decide (fd' = fd)) as [->|Hne].
  - destruct (io_added_in _ _ _ _ _ _ x G3) as [_ ->]. intuition.
  - rewrite (io_frame_in _ _ _ _ _ G2 Hne). intuition.
Qed.
Next Obligation.
  intros m mask fd e Hv He. pose proof (vi_map _ _ Hv) as Hm. simpl. destruct (Z.ltb_spec fd 0).
  { exists m, 0. unfold io_del. destruct (Z.ltb_spec fd 0); [|lia]. split_and!; [done|done|lia| |done].
    intros fd' x. intuition lia. }
  destruct (io_del_ok mask m fd e ltac:(done) Hv (He ltac:(done))) as (m' & r & E & G1 & G2 & G3).
  exists m', r. split_and!; [done|done|exact (proj1 (io_deleted_in _ _ _ _ _ _ e Hm G3))| |intros; by eapply io_frame_sig].
  intros fd' x. destruct (decide (fd' = fd)) as [->|Hne].
  - destruct (io_deleted_in _ _ _ _ _ _ x Hm G3) as [_ ->]. intuition.
  - rewrite (io_frame_in _ _ _ _ _ G2 Hne). intuition.
Qed.
Next Obligation.
  simpl. intros m mask s e m' r [Hm Ho] He E.
  destruct (signal_add_ok _ _ _ _ _ _ Hm (He s) E) as (G1 & G2 & G3).
  split_and!; [by eapply sig_frame_inv|by eapply (sig_added_in _ _ _ _ _ e)|intros; by eapply sig_frame_in|].
  intros s' x. destruct (decide (s' = s)) as [->|Hne].
  - destruct (sig_added_in _ _ _ _ _ x G3) as [_ ->]. intuition.
  - rewrite (sig_frame_sig _ _ _ _ _ G2 Hne). intuition.
Qed.
Next Obligation.
  simpl. intros m mask s e [Hm Ho] He.
  destruct (signal_del_ok _ _ _ _ Hm He) as (m' & r & E & G1 & G2 & G3).
  exists m', r. split_and!; [done|by eapply sig_frame_inv|exact (proj1 (sig_deleted_in _ _ _ _ _ _ e Hm G3))|intros; by eapply sig_frame_in|].
  intros s' x. destruct (decide (s' = s)) as [->|Hne].
  - destruct (sig_deleted_in _ _ _ _ _ _ x Hm G3) as [_ ->]. intuition.
  - rewrite (sig_frame_sig _ _ _ _ _ G2 Hne). intuition.
Qed.
End evmap.

(** * Reporting activity *)

Section active.
Context {B F B2 : Type} {OP : Eventop B F} {OL : EventopLaws B F} {SO : Sigop B2} {MA : MapAlloc}.
Context {CK : Clock} {CL : ClockLaws} {RA : Realloc}.
Abbreviation map := (event_map B F B2).
Abbreviation base := (event_base map).
Context (U : list evid) (U_nodup : NoDup U) (U_small : zlen U < 2 ^ 31).
Abbreviation good := (base_inv U).

(** The listed event after the descriptor is reported ready for [events]. *)
Definition reported (events : Z) (v : event) : event :=
  if has (ev_events v) (events &~ EV_ET)%ev && negb (fl v EVLIST_FINALIZING)
  then activated (Z.land (ev_events v) events) 1 v else v.
Definition signalled (n : Z) (v : event) : event :=
  if fl v EVLIST_FINALIZING then v else activated EV_SIGNAL n v.

(** Events listed in the map are events of the program and may be activated. *)
Lemma listed_ok (b : base) e :
  good b → fl (evs b !!! e) EVLIST_INSERTED = true → e ∈ U ∧ may_run (evs b !!! e).
Proof.
  intros Hb Hf. split.
  - destruct (decide (e ∈ U)) as [|Hn]; [done|]. pose proof (ci_out (bv_core Hb) e Hn) as H0.
    unfold fl in Hf. by rewrite H0 in Hf.
  - intros _. by apply (eo_inserted _ _ (bv_event Hb e)).
Qed.

Lemma wp_LIST_FOREACH (act : evid → prog base unit) (f : event → event) l : ∀ b (Q : unit → base → Prop),
  good b → NoDup l → (∀ e, e ∈ l → fl (evs b !!! e) EVLIST_INSERTED = true) →
  (∀ e b1 (Q1 : unit → base → Prop), good b1 → fl (evs b1 !!! e) EVLIST_INSERTED = true →
     (∀ b2, good b2 → api_frame b1 b2 → only e b1 b2 → core (evs b2 !!! e) = core (f (evs b1 !!! e)) → Q1 tt b2) →
     wp (act e) Q1 b1) →
  (∀ v w, core v = core w → core (f v) = core (f w)) →
  (∀ b', good b' → api_frame b b' →
     (∀ x, core (evs b' !!! x) = core (if decide (x ∈ l) then f (evs b !!! x) else evs b !!! x)) → Q tt b') →
  wp (LIST_FOREACH act l) Q b.
Proof.
  induction l as [|e l IH]; intros b Q Hb Hnd Hin Hact Hf HQ; cbn [LIST_FOREACH].
  { wp_step. by apply HQ. }
  apply NoDup_cons in Hnd as [He Hnd]. wp_step. apply Hact; [done|apply Hin; set_solver|].
  intros b1 Hb1 Ha1 Ho1 Hc1. apply IH; [done|done| |done|done|].
  - intros x Hx. rewrite (core_fl _ _ _ (Ho1 x ltac:(by intros ->))). apply Hin. set_solver.
  - intros b2 Hb2 Ha2 Hc2. apply HQ; [done|by eapply api_trans|]. intros x. rewrite Hc2.
    destruct (decide (x = e)) as [->|Hx].
    + rewrite decide_False, decide_True by set_solver. exact Hc1.
    + destruct (decide (x ∈ l)), (decide (x ∈ e :: l)); set_solver.
Qed.

Lemma reported_core events v w : core v = core w → core (reported events v) = core (reported events w).
Proof.
  intros H. unfold reported. rewrite (core_fl _ _ _ H).
  destruct (core_fields _ _ H) as (_ & _ & _ & _ & _ & _ & -> & _).
  destruct (_ && _); [by apply activated_core|done].
Qed.
Lemma signalled_core n v w : core v = core w → core (signalled n v) = core (signalled n w).
Proof. intros H. unfold signalled. rewrite (core_fl _ _ _ H). case_match; [done|by apply activated_core]. Qed.

Lemma slot_events (b : base) fd ctx :
  zget (io (evmap b)) fd = Some (Some ctx) → events_of (evmap b) fd = io_events ctx.
Proof. intros H. unfold events_of, entry. by rewrite H. Qed.
Lemma slot_signals (b : base) s l : zget (sigmap (evmap b)) s = Some (Some l) → signals_of (evmap b) s = l.
Proof. intros H. unfold signals_of, entry. by rewrite H. Qed.

(** Exactly the listed events that wait for one of [events] are activated. *)
Lemma wp_io_active fd events (b : base) (Q : unit → base → Prop) :
  good b →
  (∀ b', good b' → api_frame b b' →
     (∀ x, core (evs b' !!! x) =
       core (if decide (x ∈ events_of (evmap b) fd) then reported events (evs b !!! x) else evs b !!! x)) →
     Q tt b') →
  wp (evmap_io_active_ fd events) Q b.
Proof.
  intros Hb HQ. unfold evmap_io_active_. do 2 wp_step.
  assert (Hnone : events_of (evmap b) fd = [] → Q tt b).
  { intros E. apply HQ; [done|done|]. by rewrite E. }
  destruct (Z.ltb_spec fd 0); cbn [orb].
  { wp_step. apply Hnone. unfold events_of. destruct (entry _ fd) eqn:E; [|done]. apply entry_range in E. lia. }
  destruct (Z.leb_spec (zlen (io (evmap b))) fd) as [Hle|Hlt].
  { wp_step. apply Hnone. unfold events_of, entry. by rewrite zget_out. }
  destruct (zget_in_range (io (evmap b)) fd) as [[ctx|] Hg]; [done|..]; wp_step; (eapply wp_deref; [exact Hg|]);
    cbv beta iota.
  2: { wp_step. apply Hnone. unfold events_of, entry. by rewrite Hg. }
  rewrite (slot_events _ _ _ Hg) in HQ. pose proof (vi_map _ _ (mo_inv _ _ (ci_map (bv_core Hb)))) as Hm.
  pose proof (slot_events _ _ _ Hg) as El.
  apply wp_LIST_FOREACH with (f := reported events); [done| | | |apply reported_core|done].
  - rewrite <-El. eapply events_nodup. exact Hm.
  - intros e He. rewrite <-El in He. by apply (mo_io _ _ (ci_map (bv_core Hb))) in He as [? _].
  - intros e b1 Q1 Hb1 Hf HQ1. unfold get_event, the_event. do 2 wp_step. unfold reported in HQ1.
    destruct (has _ _) eqn:Eh; cbn [when andb] in *; [|wp_step; by apply HQ1].
    destruct (listed_ok _ _ Hb1 Hf) as [HU Hr]. apply (wp_event_active U U_nodup U_small); [done..| |].
    + intros Hfin. rewrite Hfin in HQ1. by apply HQ1.
    + intros b2 Hfin Hb2 Ha. rewrite Hfin in HQ1. apply HQ1; [done|apply Ha..].
Qed.

Lemma wp_signal_active s n (b : base) (Q : unit → base → Prop) :
  good b →
  (∀ b', good b' → api_frame b b' →
     (∀ x, core (evs b' !!! x) =
       core (if decide (x ∈ signals_of (evmap b) s) then signalled n (evs b !!! x) else evs b !!! x)) →
     Q tt b') →
  wp (evmap_signal_active_ s n) Q b.
Proof.
  intros Hb HQ. unfold evmap_signal_active_. do 2 wp_step.
  assert (Hnone : signals_of (evmap b) s = [] → Q tt b).
  { intros E. apply HQ; [done|done|]. by rewrite E. }
  destruct (Z.ltb_spec s 0); cbn [orb].
  { wp_step. apply Hnone. unfold signals_of. destruct (entry _ s) eqn:E; [|done]. apply entry_range in E. lia. }
  destruct (Z.leb_spec (zlen (sigmap (evmap b))) s) as [Hle|Hlt].
  { wp_step. apply Hnone. unfold signals_of, entry. by rewrite zget_out. }
  destruct (zget_in_range (sigmap (evmap b)) s) as [[l|] Hg]; [done|..]; wp_step; (eapply wp_deref; [exact Hg|]);
    cbv beta iota.
  2: { wp_step. apply Hnone. unfold signals_of, entry. by rewrite Hg. }
  rewrite (slot_signals _ _ _ Hg) in HQ. pose proof (vi_map _ _ (mo_inv _ _ (ci_map (bv_core Hb)))) as Hm.
  pose proof (slot_signals _ _ _ Hg) as El.
  apply wp_LIST_FOREACH with (f := signalled n); [done| | | |apply signalled_core|done].
  - rewrite <-El. eapply signals_nodup. exact Hm.
  - intros e He. rewrite <-El in He. by apply (mo_sig _ _ (ci_map (bv_core Hb))) in He as [? _].
  - intros e b1 Q1 Hb1 Hf HQ1. unfold signalled in HQ1.
    destruct (listed_ok _ _ Hb1 Hf) as [HU Hr]. apply (wp_event_active U U_nodup U_small); [done..| |].
    + intros Hfin. rewrite Hfin in HQ1. by apply HQ1.
    + intros b2 Hfin Hb2 Ha. rewrite Hfin in HQ1. apply HQ1; [done|apply Ha..].
Qed.
End active.
