(* ===== verification/Backend.v ===== *)
(** What every backend needs to respect the invariant of the event base when it
    dispatches: its own state may change, and events may be reported active. *)
From S2P Require Import Prelude Timeval MinHeap EventDefs EventApi EventLoop EventInv.
From S2P Require Import EventQueue EventOps EventAdd EventBase EventTimers EventRun EvmapDefs Evmap.

Section backend.
Context {B F B2 : Type} {OP : Eventop B F} {OL : EventopLaws B F} {SO : Sigop B2} {MA : MapAlloc}.
Context {CK : Clock} {CL : ClockLaws} {RA : Realloc}.
Abbreviation map := (event_map B F B2).
Abbreviation base := (event_base map).
Implicit Types (m : map).
Context (U : list evid) (U_nodup : NoDup U) (U_small : zlen U < 2 ^ 31).
Abbreviation good := (base_inv U).

(** A map with the same events in place of the map of the base. *)
Lemma good_set_map (b : base) m :
  good b → evmap_inv m (λ x, ev_events (evs b !!! x)) →
  (∀ fd, events_of m fd = events_of (evmap b) fd) → (∀ s, signals_of m s = signals_of (evmap b) s) →
  good (set_map m b) ∧ loop_frame b (set_map m b).
Proof.
  intros [Hc Hk Ht Hnq Hp] Hm H1 H2. split; [|by split]. split; try done.
  apply inv_set_map; [done|]. eapply map_ok_same; [apply (ci_map Hc)|exact Hm|..]; intros.
  - cbn [em_io evmap_laws]. by rewrite H1.
  - cbn [em_sig evmap_laws]. by rewrite H2.
Qed.

(** A backend in order in place of that of the base. *)
Lemma good_set_sel (b : base) sel :
  good b → op_inv sel (fdinfo_of (evmap b)) →
  good (set_map (set_evsel sel (evmap b)) b) ∧ loop_frame b (set_map (set_evsel sel (evmap b)) b).
Proof.
  intros Hb He. pose proof (mo_inv _ _ (ci_map (bv_core Hb))) as [[Hi Hs] _].
  apply good_set_map; [done| |done|done]. split; [by split|exact He].
Qed.

(** Reporting events of a descriptor. *)
Lemma wp_report fd what (b : base) (Q : unit → base → Prop) :
  good b → (∀ b', good b' → loop_frame b b' → Q tt b') → wp (evmap_io_active_ fd what) Q b.
Proof.
  intros Hb HQ. apply (wp_io_active U U_nodup U_small); [done|]. intros b1 Hb1 Ha _.
  apply HQ; [done|by apply (lf_api U)].
Qed.
End backend.
