(* ===== verification/EventThms.v ===== *)
(** The contract of the event base: the theorems about [src/event.c] and
    [src/evmap.c], with concrete instances. *)
From S2P Require Import Prelude Timeval MinHeap EventDefs EventApi EventLoop EventInv.
From S2P Require Import EventQueue EventOps EventAdd EventBase EventTimers EventRun.
From S2P Require Import EventConfig EventSafe EvmapDefs Evmap.

(** * A concrete program *)

(** The clock advances by a second at each reading. *)
#[export] Instance demo_clock : Clock := {|
  clock_now n := Some (TV (Z.min (100 + Z.of_nat n) (2 ^ 62)) 0); wall_now n := TV (1000 + Z.of_nat n) 0
|}.
#[export] Instance demo_clock_laws : ClockLaws.
Proof. split. intros n. exists (TV (Z.min (100 + Z.of_nat n) (2 ^ 62)) 0). unfold tv_norm. cbn [tv_sec tv_usec].
  split; [done|]. lia. Qed.

(** A backend that records the interest it is told of. *)
#[export] Instance demo_eventop : Eventop (list (Z * Z * Z)) unit := {|
  fdinfo_zero := tt;
  op_add b fd old ev _ := Some (b ++ [(fd, old, ev)], tt, 0);
  op_del b fd old ev _ := Some (b ++ [(fd, old, - ev)], tt, 0)
|}.
#[export] Program Instance demo_eventop_laws : EventopLaws (list (Z * Z * Z)) unit := {| op_inv _ _ := True |}.
Solve All Obligations with eauto 10.
#[export] Instance demo_sigop : Sigop unit := {| sig_add b _ := (b, 0); sig_del b _ := (b, 0) |}.
#[export] Instance demo_alloc : MapAlloc := {| map_realloc _ := true; map_calloc _ := true |}.
Abbreviation demo_map := (event_map (list (Z * Z * Z)) unit unit).
Definition demo_empty_map : demo_map := EventMap [] [] [] tt.
Abbreviation demo_base := (event_base demo_map).

(** Callbacks delete their event; the backend always reports descriptor 5 as
    readable. *)
#[export] Instance demo_env : Env demo_map := {|
  user_callback _ e _ := _ ← event_del e; mret tt;
  dispatch _ := _ ← evmap_io_active_ 5 EV_READ; mret 0
|}.
Definition demo_events : list evid := [1; 2; 3; 4]%nat.
Lemma demo_nodup : NoDup demo_events.
Proof. by apply (bool_decide_unpack _). Qed.
Lemma demo_small : zlen demo_events < 2 ^ 31.
Proof. done. Qed.
#[export] Instance demo_env_laws : EnvLaws demo_map demo_events.
Proof.
  split.
  - intros f e res b Hb. cbn [user_callback demo_env]. wp_step.
    apply (wp_event_del demo_events demo_nodup); [done|]. intros b' r Hb' Ha _ _ _ _ _ _. wp_step.
    split; [done|by apply (lf_api demo_events)].
  - intros tv b Hb. cbn [dispatch demo_env]. wp_step.
    apply (wp_io_active demo_events demo_nodup demo_small); [done|]. intros b' Hb' Ha _. wp_step.
    split; [done|by apply (lf_api demo_events)].
Qed.

(** A new base, and one with a reader of descriptor 5 that has a timeout of two
    seconds, a persistent timer and an active event. *)
Definition demo_new : option demo_base :=
  event_base_new_with_config None (λ _, false) [Backend "epoll" 0 true] demo_empty_map
    (Notify false false false 0) true true.
Definition runs (l : list command) (b : demo_base) : option demo_base :=
  foldl (λ ob c, b ← ob; '(_, b) ← run c b; Some b) (Some b) l.
Definition demo_script : list command :=
  [Assign 1%nat true 5 (Z.lor EV_READ EV_WRITE) (CbUser 0); Assign 2%nat true (-1) EV_PERSIST (CbUser 0);
   Assign 3%nat true (-1) 0 (CbUser 0); Add 1%nat (Some (TV 2 0)); Add 2%nat (Some (TV 1 0));
   Active 3%nat EV_TIMEOUT 1].
Definition demo_start : demo_base := default (Base ∅ demo_empty_map (Counters 0 0 0 0 0) (Queues [[]] [] 0)
    (Timers min_heap_ctor_ []) (ClockState (TV 0 0) 0 (TV 0 0) 0 false)
    (Loop false false false 0 false None false) (Notify false false false 0) (dispatch_limits None)) demo_new.
Definition demo : demo_base := default demo_start (runs demo_script demo_start).

Lemma no_entry A (i : Z) : entry (@nil (option A)) i = None.
Proof. unfold entry, zget. by destruct (i <? 0). Qed.
Lemma demo_map_inv mask : evmap_inv demo_empty_map mask.
Proof. split; [|done]. split; intros i c; by rewrite no_entry. Qed.
Lemma demo_map_empty : map_empty demo_empty_map.
Proof.
  split; [apply demo_map_inv|]. split.
  - intros fd e. cbn. unfold events_of. cbn [io demo_empty_map]. rewrite no_entry. set_solver.
  - intros s e. cbn. unfold signals_of. cbn [sigmap demo_empty_map]. rewrite no_entry. set_solver.
Qed.
Lemma demo_start_good : base_inv demo_events demo_start.
Proof.
  eapply (new_base_inv demo_events None (λ _, false) [Backend "epoll" 0 true] demo_empty_map
    (Notify false false false 0) true true); [apply demo_map_empty|]. unfold demo_start, demo_new. reflexivity.
Qed.

(** The bases the script goes through. *)
Definition demo_at (n : nat) : demo_base := default demo_start (runs (take n demo_script) demo_start).
Lemma demo_run n c : demo_script !! n = Some c → run c (demo_at n) = Some (tt, demo_at (S n)).
Proof. destruct n as [|[|[|[|[|[|n]]]]]]; [intros [= <-]; vm_compute; reflexivity..|done]. Qed.
Lemma demo_own n e : (n <= 6)%nat → e ∈ demo_events → own demo_events (demo_at n) e.
Proof.
  intros Hn He. split; [done|]. intros i c Hc. exfalso. revert Hc.
  assert (common_timeout_queues (tms (demo_at n)) = []) as ->; [|apply nothing_at].
  destruct n as [|[|[|[|[|[|[|n]]]]]]]; [vm_compute; reflexivity..|lia].
Qed.
Ltac demo_ev := unfold demo_events; rewrite !elem_of_cons; tauto.
Lemma demo_allowed n c : demo_script !! n = Some c → allowed demo_events (demo_at n) c.
Proof.
  destruct n as [|[|[|[|[|[|n]]]]]]; [intros [= <-]..|done]; cbn [allowed].
  - split; [split; [apply demo_own; [lia|demo_ev]|by vm_compute]|split; [done|by left]].
  - split; [split; [apply demo_own; [lia|demo_ev]|by vm_compute]|split; [done|by left]].
  - split; [split; [apply demo_own; [lia|demo_ev]|by vm_compute]|split; [done|by left]].
  - split; [split; [apply demo_own; [lia|demo_ev]|by vm_compute]|].
    intros t [= <-]. split; [by left|]. vm_compute. done.
  - split; [split; [apply demo_own; [lia|demo_ev]|by vm_compute]|].
    intros t [= <-]. split; [by left|]. vm_compute. done.
  - split; [demo_ev|]. by vm_compute.
Qed.
Lemma demo_reachable n : (n <= 6)%nat → reachable demo_events demo_start (demo_at n).
Proof.
  induction n as [|n IH]; intros Hn; [constructor|].
  destruct (lookup_lt_is_Some_2 demo_script n) as [c Hc]; [simpl; lia|].
  eapply reachable_step; [apply IH; lia|by apply demo_allowed|by apply demo_run].
Qed.
Lemma demo_good : base_inv demo_events demo.
Proof.
  eapply (reachable_good demo_events demo_nodup demo_small); [apply demo_start_good|].
  exact (demo_reachable 6 ltac:(lia)).
Qed.

(** * The contract *)

Section contract.
Context {M : Type} {EO : EvmapOps M} {EL : EvmapLaws M} {CK : Clock} {CL : ClockLaws} {RA : Realloc}.
Context {EN : Env M}.
Abbreviation base := (event_base M).
Context (U : list evid) (U_nodup : NoDup U) (U_small : zlen U < 2 ^ 31) {ENL : EnvLaws M U}.

(** C1: no command of a program makes the library fail.  From a new base, after
    any sequence of allowed commands (with the loop, its callbacks and its
    backend among them), every further allowed command runs to its end: no
    assertion of the library fails, no list is corrupted and no index is out of
    range.  The base then satisfies its invariant again. *)
Theorem api_safe config disabled ops m n a1 a2 (b0 b : base) c :
  map_empty m → event_base_new_with_config config disabled ops m n a1 a2 = Some b0 →
  reachable U b0 b → allowed U b c →
  ∃ b', run c b = Some (tt, b') ∧ base_inv U b'.
Proof.
  intros Hm Hnew Hr Hal. destruct (new_base_inv U _ _ _ _ _ _ _ _ Hm Hnew) as [Hb0 _].
  pose proof (run_ok U U_nodup U_small b c (reachable_good U U_nodup U_small _ _ Hb0 Hr) Hal) as W.
  unfold wp in W. destruct (run c b) as [[[] b']|]; [by exists b'|done].
Qed.

(** Where the events of a base are. *)
Record consistent (b : base) : Prop := {
  cs_active i l e : zget (activequeues (qs b)) i = Some l →
    NoDup l ∧ (e ∈ l ↔ fl (evs b !!! e) EVLIST_ACTIVE = true ∧ ev_pri (evs b !!! e) = i);
  cs_later e : e ∈ active_later_queue (qs b) ↔ fl (evs b !!! e) EVLIST_ACTIVE_LATER = true;
  cs_one e : fl (evs b !!! e) EVLIST_ACTIVE && fl (evs b !!! e) EVLIST_ACTIVE_LATER = false;
  cs_timer e : fl (evs b !!! e) EVLIST_TIMEOUT = true ↔
    min_heap_idx (evs b !!! e) ≠ -1 ∨
    ∃ i c, zget (common_timeout_queues (tms b)) i = Some c ∧ e ∈ ctl_events c;
  cs_map e : ev_fd (evs b !!! e) >= 0 →
    (fl (evs b !!! e) EVLIST_INSERTED = true ↔
     if has (ev_events (evs b !!! e)) EV_IO then em_io (evmap b) (ev_fd (evs b !!! e)) e
     else em_sig (evmap b) (ev_fd (evs b !!! e)) e);
  cs_count : event_count (cnt b) = tally weight (λ e, evs b !!! e) U;
  cs_count_active : event_count_active (cnt b) = tally active_weight (λ e, evs b !!! e) U
}.

Lemma good_consistent (b : base) : base_inv U b → consistent b.
Proof.
  intros Hb. pose proof (bv_core Hb) as Hi. pose proof (ci_act Hi) as Ha. pose proof (ci_tm Hi) as Ht.
  pose proof (ci_map Hi) as Hm. pose proof (ci_cnt Hi) as Hc. split.
  - intros i l e Hg. destruct (ao_queue _ _ Ha _ _ Hg) as [Hnd Hin]. by split.
  - apply (ao_later_in _ _ Ha).
  - intros e. pose proof (ao_excl _ _ Ha e). destruct (fl _ EVLIST_ACTIVE); [simpl; auto|done].
  - intros e. split.
    + intros Hf. pose proof (to_max _ _ Ht) as Hmax.
      destruct (good_tv_cases _ _ (to_due _ _ Ht e Hf) Hmax) as [[_ Hn]|(Hct & Hr & _)].
      * left. by apply (to_mem _ _ Ht).
      * right. destruct (zget_in_range (common_timeout_queues (tms b)) (COMMON_TIMEOUT_IDX (ev_timeout (evs b !!! e)))) as [c Hg]; [done|].
        exists (COMMON_TIMEOUT_IDX (ev_timeout (evs b !!! e))), c. split; [done|]. by apply (to_list _ _ Ht _ _ _ Hg).
    + intros [H|(i & c & Hg & H)]; [by apply (to_mem _ _ Ht) in H as [? _]|by apply (to_list _ _ Ht _ _ _ Hg) in H as [? _]].
  - intros e Hfd. destruct (has _ EV_IO) eqn:E.
    + rewrite (mo_io _ _ Hm). split; [intros; split_and!; done || lia|by intros [? _]].
    + rewrite (mo_sig _ _ Hm). split; [intros; split_and!; done || lia|by intros [? _]].
  - apply Hc.
  - apply Hc.
Qed.

(** C2: the flags of the events tell the truth.  In every base that a program
    reaches, an event is in the active queue of its priority exactly when
    [EVLIST_ACTIVE] is set, in the queue for the next round exactly when
    [EVLIST_ACTIVE_LATER] is (never both), in the timer heap or a list of common
    timeouts exactly when [EVLIST_TIMEOUT] is, and in the map of descriptors and
    signals exactly when [EVLIST_INSERTED] is; the two counters that decide
    whether the loop goes on count these flags. *)
Theorem reachable_consistent config disabled ops m n a1 a2 (b0 b : base) :
  map_empty m → event_base_new_with_config config disabled ops m n a1 a2 = Some b0 →
  reachable U b0 b → consistent b.
Proof.
  intros Hm Hnew Hr. destruct (new_base_inv U _ _ _ _ _ _ _ _ Hm Hnew) as [Hb0 _].
  by apply good_consistent, (reachable_good U U_nodup U_small _ _ Hb0).
Qed.

(** A time with the index of a common timeout added is that time without it. *)
Lemma mask_lor r m :
  0 <= tv_usec r <= 1000000 → (m = 0 ∨ ∃ i, 0 <= i < 256 ∧ m = common_usec i 0) →
  mask_usec (TV (tv_sec r) (Z.lor (tv_usec r) m)) = r.
Proof.
  intros Hr Hm. unfold mask_usec. cbn [tv_sec tv_usec].
  assert (Hu : 0 <= tv_usec r < 2 ^ 20) by (change (2 ^ 20) with 1048576; lia).
  enough (Z.land (Z.lor (tv_usec r) m) MICROSECONDS_MASK = tv_usec r) as -> by (by destruct r).
  destruct Hm as [->|(i & Hi & ->)].
  - rewrite Z.lor_0_r. change MICROSECONDS_MASK with (Z.ones 20). rewrite Z.land_ones by done. by apply Z.mod_small.
  - rewrite lor_common by done. by apply common_usec_bits.
Qed.

(** The due time of an added event: now plus the timeout, with the index of a
    common timeout kept, when the seconds of the sum fit. *)
Lemma due_time_us now tv n :
  tv_norm now → good_tv n tv → n <= 256 → sec_fits (tv_sec now + tv_sec tv) →
  let d := due_time now tv false (is_common_timeout tv n) in
  tv_us (mask_usec d) = tv_us now + tv_us (mask_usec tv) ∧ is_same_common_timeout d tv = true.
Proof.
  intros Hnow Hg Hn Hf d. split; [|by apply (due_time_ok now tv n false)]. unfold d, due_time.
  assert (Hadd : plain_tv (mask_usec tv) → tv_us (evutil_timeradd now (mask_usec tv)) = tv_us now + tv_us (mask_usec tv)).
  { intros Hp. apply timeradd_us; [by apply norm_small|by apply plain_small|done]. }
  destruct Hg as [Hp|(i & Hi & Hc)].
  - destruct (plain_tv_spec tv n Hp) as (-> & _ & Hm). rewrite Hm in Hadd. specialize (Hadd Hp).
    assert (Hpd : plain_tv (evutil_timeradd now tv)) by (apply timeradd_plain; [by apply norm_usec|done]).
    destruct (plain_tv_spec _ n Hpd) as (_ & _ & ->). by rewrite Hm.
  - destruct (common_tv_spec i tv n Hc Hi Hn) as (-> & _ & -> & Hp). specialize (Hadd Hp). cbv zeta.
    rewrite mask_lor; [exact Hadd| |right; exists i; split; [lia|done]].
    apply plain_usec, timeradd_plain; [by apply norm_usec|done].
Qed.

(** C3: [event_add] either fails and leaves the event as it was (no room in the
    heap, or the backend refused the descriptor), or inserts it: its descriptor
    or signal is watched, and with a timeout it becomes due at the current time
    plus the timeout, in place of any time it had, and an expiry that was
    already queued is taken back.  Seconds are signed 64-bit numbers: the due time
    is exactly the sum when the seconds fit, and wraps around otherwise.  Other
    events of the program stay the same. *)
Theorem event_add_effect e tv (b : base) :
  base_inv U b → ready U b e → (∀ t, tv = Some t → addable b e t) →
  wp (event_add e tv) (λ r b', base_inv U b' ∧
    (∀ x, x ≠ e → user_event b x → core (evs b' !!! x) = core (evs b !!! x)) ∧
    (r = -1 ∧ core (evs b' !!! e) = core (evs b !!! e) ∧ add_fails tv (evs b !!! e) ∨
     r = 0 ∧ core (evs b' !!! e) =
       core (added (now_of (clk b)) (n_common_timeouts b) tv false (evs b !!! e)) ∧
     ∀ t, tv = Some t →
       is_same_common_timeout (ev_timeout (evs b' !!! e)) t = true ∧
       (sec_fits (tv_sec (now_of (clk b)) + tv_sec t) →
        tv_us (mask_usec (ev_timeout (evs b' !!! e))) = tv_us (now_of (clk b)) + tv_us (mask_usec t)))) b.
Proof.
  intros Hb He Ht. apply (wp_event_add U U_nodup U_small); [done..|]. intros b' r Hb' [_ Ho _ Hr].
  split; [done|]. split; [exact Ho|]. destruct Hr as [(-> & ? & ?)|(-> & _ & Hc)]; [by left|right].
  split; [done|]. split; [done|]. intros t ->. destruct (Ht t eq_refl) as [Hg _].
  pose proof (to_max _ _ (ci_tm (bv_core Hb))) as Hmax. fold (n_common_timeouts b) in Hmax.
  destruct (gettime_ok b (bv_cache Hb)) as (now & b1 & Eg & _ & Hn & _). apply gettime_now_of in Eg as ->.
  apply core_fields in Hc. destruct Hc as (_ & _ & _ & _ & _ & _ & _ & _ & -> & _).
  change (ev_timeout (added _ _ _ _ _)) with
    (due_time (now_of (clk b)) t false (is_common_timeout t (n_common_timeouts b))).
  split; [by apply (due_time_ok (now_of (clk b)) t (n_common_timeouts b) false)|]. intros Hf. by apply due_time_us.
Qed.

(** A timeout that is accepted may be too long for the sum: the event is then due
    in the past, and expires at once. *)
Lemma due_time_wraps now :
  tv_norm now → 0 < tv_sec now < 2 ^ 63 →
  let t := TV (2 ^ 63 - 1) 0 in
  plain_tv t ∧ evutil_timercmp Z.ltb (due_time now t false false) now = true.
Proof.
  intros Hn Hs t. unfold tv_norm in Hn. split; [unfold plain_tv, t; cbn [tv_sec tv_usec]; lia|].
  unfold due_time, evutil_timeradd, t. cbn [tv_sec tv_usec]. rewrite Z.add_0_r, (i64_small (tv_usec now)) by lia.
  destruct (Z.leb_spec 1000000 (tv_usec now)); [lia|].
  assert (Hw : i64 (tv_sec now + (2 ^ 63 - 1)) = tv_sec now + (2 ^ 63 - 1) - 2 ^ 64).
  { unfold i64, swrap. rewrite <- (Z_mod_plus_full _ (-1)). rewrite Z.mod_small; lia. }
  unfold evutil_timercmp. cbn [tv_sec tv_usec]. rewrite Hw.
  destruct (Z.eqb_spec (tv_sec now + (2 ^ 63 - 1) - 2 ^ 64) (tv_sec now)); [lia|]. apply Z.ltb_lt. lia.
Qed.

(** C4: after [event_del] the event is nowhere: not in an active queue, not
    queued for later, not in the timer heap or a list of common timeouts, not
    watched; every other event stays the same. *)
Theorem event_del_clears e (b : base) :
  base_inv U b → ev_has_base (evs b !!! e) = true → fl (evs b !!! e) EVLIST_FINALIZING = false →
  wp (event_del e) (λ r b', base_inv U b' ∧ (r = 0 ∨ r = -1) ∧
    (∀ i l, zget (activequeues (qs b')) i = Some l → e ∉ l) ∧ (e ∉ active_later_queue (qs b')) ∧
    min_heap_idx (evs b' !!! e) = -1 ∧
    (∀ i c, zget (common_timeout_queues (tms b')) i = Some c → e ∉ ctl_events c) ∧
    (∀ k, ¬ em_io (evmap b') k e ∧ ¬ em_sig (evmap b') k e) ∧
    (∀ x, x ≠ e → core (evs b' !!! x) = core (evs b !!! x))) b.
Proof.
  intros Hb Hbase Hfin. unfold event_del. apply (wp_event_del U U_nodup); [done|].
  intros b' r Hb' _ Ho Hr _ Hd _ _. specialize (Hd Hbase (or_intror Hfin)).
  assert (Hid : idle (evs b' !!! e)).
  { unfold idle. rewrite (core_fl _ _ _ (dl_core _ _ _ Hd)). by fl_simpl. }
  apply idle_flags in Hid as (F1 & F2 & F3 & F4). pose proof (good_consistent _ Hb') as [C1 C2 _ C4 _ _ _].
  pose proof (ci_map (bv_core Hb')) as Hm.
  split; [done|]. split; [done|]. split_and!; [..|exact Ho].
  - intros i l Hg Hin. apply (proj2 (C1 i l e Hg)) in Hin as [? _]. congruence.
  - intros Hin%C2. congruence.
  - destruct (decide (min_heap_idx (evs b' !!! e) = -1)) as [|H]; [done|].
    enough (fl (evs b' !!! e) EVLIST_TIMEOUT = true) by congruence. apply C4. by left.
  - intros i c Hg Hin. enough (fl (evs b' !!! e) EVLIST_TIMEOUT = true) by congruence. apply C4. right. by exists i, c.
  - intros k. split; [intros [? _]%(mo_io _ _ Hm)| intros [? _]%(mo_sig _ _ Hm)]; congruence.
Qed.

Lemma activated_flags r n v :
  (fl v EVLIST_ACTIVE = true → fl v EVLIST_ACTIVE_LATER = false) →
  fl (activated r n v) EVLIST_ACTIVE = true ∧ fl (activated r n v) EVLIST_ACTIVE_LATER = false.
Proof.
  intros Hx. unfold activated. destruct (fl v EVLIST_ACTIVE) eqn:Ea.
  - change (fl v EVLIST_ACTIVE = true ∧ fl v EVLIST_ACTIVE_LATER = false). auto.
  - unfold made_active. match goal with |- context [if fl ?u EVLIST_ACTIVE then _ else _] =>
      assert (fl u EVLIST_ACTIVE = false) as -> by (by destruct (has (ev_events v) EV_SIGNAL)) end.
    by fl_simpl.
Qed.

(** C5: [event_active] puts an event that is not active at the end of the queue
    of its priority, with [res] as its result; for an event that is active
    already, it adds [res] to the result and changes no queue.  Activating an
    event more urgent than the running one ends the current round of the loop.
    An event being finalized is left alone. *)
Theorem event_active_effect e res ncalls (b : base) :
  base_inv U b → e ∈ U → ev_has_base (evs b !!! e) = true → fl (evs b !!! e) EVLIST_FINALIZING = false →
  wp (event_active e res ncalls) (λ _ b', base_inv U b' ∧
    (∀ x, x ≠ e → core (evs b' !!! x) = core (evs b !!! x)) ∧
    fl (evs b' !!! e) EVLIST_ACTIVE = true ∧ fl (evs b' !!! e) EVLIST_ACTIVE_LATER = false ∧
    (if fl (evs b !!! e) EVLIST_ACTIVE
     then activequeues (qs b') = activequeues (qs b) ∧
       ev_res (evs b' !!! e) = i16 (Z.lor (ev_res (evs b !!! e)) res)
     else ∃ l, zget (activequeues (qs b)) (ev_pri (evs b !!! e)) = Some l ∧
       activequeues (qs b') = <[Z.to_nat (ev_pri (evs b !!! e)) := l ++ [e]]> (activequeues (qs b))) ∧
    (fl (evs b !!! e) EVLIST_ACTIVE = false → ev_pri (evs b !!! e) < event_running_priority (lp b) →
     event_continue (lp b') = true)) b.
Proof.
  intros Hb HU Hbase Hfin. unfold event_active, get_event, the_event. do 2 wp_step. rewrite Hbase. cbn [negb].
  apply (wp_event_active U U_nodup U_small); [done|done|by intros _|congruence|].
  intros b' _ Hb' [_ Ho Hc _ Hq _ Hcont]. split; [done|]. split; [exact Ho|].
  pose proof (activated_flags res ncalls (evs b !!! e) (ao_excl _ _ (ci_act (bv_core Hb)) e)) as [F1 F2].
  split_and!; [by rewrite (core_fl _ _ _ Hc)|by rewrite (core_fl _ _ _ Hc)| |].
  - destruct (fl (evs b !!! e) EVLIST_ACTIVE) eqn:Ea; [|exact Hq]. split; [done|].
    apply core_fields in Hc. destruct Hc as (_ & _ & _ & _ & _ & _ & _ & -> & _).
    unfold activated. by rewrite Ea.
  - intros Ha Hp. rewrite Hcont, Ha. apply orb_true_iff. right. by apply Z.ltb_lt.
Qed.

Lemma testbit_lor_if (c : bool) x y k :
  Z.testbit (if c then Z.lor x y else x) k = Z.testbit x k || c && Z.testbit y k.
Proof. destruct c; simpl; [apply Z.lor_spec|by rewrite orb_false_r]. Qed.

(** [event_pending] tells exactly which conditions an event is pending for:
    its timeout when it is in the heap or in a list, the kinds of activity it is
    watched for, and the results it is queued with; nothing else, and only what
    was asked for.  It changes nothing. *)
Theorem event_pending_exact e mask (b : base) :
  ev_has_base (evs b !!! e) = true →
  ∃ r tv, event_pending e mask b = Some ((r, tv), b) ∧
    (is_Some tv ↔ has r EV_TIMEOUT = true) ∧
    (∀ bit, bit ∈ [EV_TIMEOUT; EV_READ; EV_WRITE; EV_CLOSED; EV_SIGNAL] →
       has r bit = has mask bit &&
         (fl (evs b !!! e) EVLIST_TIMEOUT && (bit =? EV_TIMEOUT) ||
          fl (evs b !!! e) EVLIST_INSERTED && negb (bit =? EV_TIMEOUT) && has (ev_events (evs b !!! e)) bit ||
          (fl (evs b !!! e) EVLIST_ACTIVE || fl (evs b !!! e) EVLIST_ACTIVE_LATER) &&
            has (ev_res (evs b !!! e)) bit)).
Proof.
  clear -M. intros Hbase. unfold event_pending, get_event, the_event, gets, get_state.
  unfold mbind, prog_bind, mret, prog_ret. cbv beta iota. rewrite Hbase. cbn [negb].
  eexists _, _. split; [reflexivity|]. split; [destruct (has _ _); split; done || by intros []|].
  fold (fl (evs b !!! e) EVLIST_INSERTED) (fl (evs b !!! e) EVLIST_TIMEOUT). rewrite has_lor_r.
  fold (fl (evs b !!! e) EVLIST_ACTIVE) (fl (evs b !!! e) EVLIST_ACTIVE_LATER).
  intros bit Hbit. assert (∃ k, bit = 2 ^ k ∧ k ∈ [0; 1; 2; 7; 3]) as (k & -> & Hk).
  { rewrite !elem_of_cons in Hbit. destruct Hbit as [->|[->|[->|[->|[->|?]]]]]; [exists 0|exists 1|exists 2|exists 7|exists 3|set_solver];
      (split; [done|set_solver]). }
  assert (0 <= k) by (rewrite !elem_of_cons in Hk; destruct Hk as [->|[->|[->|[->|[->|?]]]]]; lia || set_solver).
  rewrite !has_bit by done.
  assert (Z.testbit EV_TIMEOUT k = (2 ^ k =? EV_TIMEOUT) ∧
    Z.testbit (Z.lor EV_IO EV_SIGNAL) k = negb (2 ^ k =? EV_TIMEOUT) ∧
    Z.testbit (Z.lor EV_TIMEOUT (Z.lor EV_IO EV_SIGNAL)) k = true) as (K1 & K2 & K3).
  { rewrite !elem_of_cons in Hk; destruct Hk as [->|[->|[->|[->|[->|?]]]]]; done || set_solver. }
  rewrite Z.land_spec, (Z.land_spec mask), K3, !testbit_lor_if, Z.land_spec, K1, K2, Z.bits_0.
  by destruct (fl _ EVLIST_TIMEOUT), (fl _ EVLIST_INSERTED), (fl _ EVLIST_ACTIVE || _), (2 ^ k =? EV_TIMEOUT),
    (Z.testbit mask k), (Z.testbit (ev_events _) k), (Z.testbit (ev_res _) k).
Qed.

(** the loop waits exactly until the first timer expires.  [timeout_next]
    gives no bound when the heap is empty; otherwise the distance, in
    microseconds and never negative, from now to the earliest due time in the
    heap. *)
Theorem timeout_next_exact (b : base) :
  base_inv U b →
  wp timeout_next (λ r b', base_inv U b' ∧ evs b' = evs b ∧
    match r with
    | None => False
    | Some None => ∀ x, min_heap_idx (evs b !!! x) = -1
    | Some (Some tv) => ∃ e, min_heap_idx (evs b !!! e) ≠ -1 ∧
        (∀ x, min_heap_idx (evs b !!! x) ≠ -1 →
           tv_us (ev_timeout (evs b !!! e)) <= tv_us (ev_timeout (evs b !!! x))) ∧
        tv_us tv = Z.max 0 (tv_us (ev_timeout (evs b !!! e)) - tv_us (now_of (clk b))) ∧
        0 <= tv_sec tv ∧ 0 <= tv_usec tv <= 1000000
    end) b.
Proof.
  intros Hb. apply (wp_timeout_next U); [done|]. intros tv b' Hq Hw.
  split; [by eapply (good_quiet U)|]. split; [apply (qt_evs Hq)|]. by destruct tv.
Qed.

(** C7: [timeout_process] ends, and activates exactly the events whose timer has
    expired.  Its loop is given as many rounds as the heap has events; that is
    always enough.  Each event in the heap that is due by the current time is
    taken off every queue and made active with [EV_TIMEOUT]; all others stay the
    same. *)
Theorem timeout_process_fires (b : base) :
  base_inv U b →
  wp timeout_process (λ _ b', base_inv U b' ∧
    ∀ x, core (evs b' !!! x) =
      core (if fl (evs b !!! x) EVLIST_TIMEOUT &&
               negb (is_common_timeout (ev_timeout (evs b !!! x)) (n_common_timeouts b)) &&
               negb (evutil_timercmp Z.gtb (ev_timeout (evs b !!! x)) (now_of (clk b)))
            then activated EV_TIMEOUT 1 (clear_flag EVLIST_PENDING (evs b !!! x))
            else evs b !!! x)) b.
Proof.
  intros Hb. apply (wp_timeout_process U U_nodup U_small); [done|]. intros b' Hb' _ Hx. by split.
Qed.

(** what was queued for later becomes active in the same order.  Every event
    of [active_later_queue] is appended to the active queue of its priority, and
    the queue for later is empty afterwards. *)
Theorem make_later_order (b : base) :
  base_inv U b →
  wp event_queue_make_later_events_active (λ _ b', base_inv U b' ∧
    active_later_queue (qs b') = [] ∧ tms b' = tms b ∧
    (∀ i q, zget (activequeues (qs b)) i = Some q →
       zget (activequeues (qs b')) i =
         Some (q ++ filter (λ x, ev_pri (evs b !!! x) = i) (active_later_queue (qs b)))) ∧
    (∀ x, x ∈ active_later_queue (qs b) → fl (evs b' !!! x) EVLIST_ACTIVE = true)) b.
Proof.
  intros Hb. apply (wp_make_later U); [done..|]. intros b' Hb' [_ Hc Ht _ _ Hl Hq].
  split; [done|]. split; [done|]. split; [done|]. split; [exact Hq|].
  intros x Hx. rewrite (core_fl _ _ _ (Hc x)), decide_True by done. unfold promoted. by fl_simpl.
Qed.

(** A run that returns has a last round, and what the loop returns depends on it. *)
Lemma loop_runs_last flags n b v b' : loop_runs flags n b v b' → ∃ k b0 b1,
  loop_round k flags b0 = Some (Return v, b1) ∧ b' = finished b1 ∧ ended_by flags b0 v b1.
Proof. induction 1 as [|n b b1 v He Hend]; [done|]. exists (S n), b, b1. eauto using round_end_by. Qed.

(** C6: running the loop keeps the invariant, for any flags and whatever the
    callbacks do with the operations they may use; and its value is the documented
    one.  It is -1 at once, with nothing changed, when the loop was running
    already.  Otherwise, when it returns, it is not running any more and holds no
    cached time; it went through rounds in each of which the backend succeeded, and
    a last one, which began in [b0] and ended in [b1] ([ended_by]): the value is -1
    exactly when the backend failed in it, which left [b1]; 1 exactly when nobody asked the loop to
    end and, without [EVLOOP_NO_EXIT_ON_EMPTY], neither events nor active callbacks
    were left, as in [b1]; and 0 exactly when the loop was asked to end, or the backend succeeded
    and the flags let the loop end, then with no callback active. *)
Theorem event_base_loop_returns rounds flags (b : base) :
  base_inv U b →
  wp (event_base_loop rounds flags) (λ r b', base_inv U b' ∧
    match r with
    | None => running_loop (lp b) = false
    | Some v =>
        if running_loop (lp b) then v = -1 ∧ b' = b
        else (v = 0 ∨ v = 1 ∨ v = -1) ∧ running_loop (lp b') = false ∧ tv_sec (tv_cache (clk b')) = 0 ∧
             loop_runs flags rounds (entered b) v b' ∧
             ∃ k b0 b1, loop_round k flags b0 = Some (Return v, b1) ∧ b' = finished b1 ∧ ended_by flags b0 v b1
    end) b.
Proof.
  intros Hb. apply (event_base_loop_ok U U_nodup U_small); [done|]. intros r b' Hb' Hr. split; [done|].
  destruct r as [v|]; [|done]. destruct (running_loop (lp b)); [done|]. destruct Hr as [Hruns Hrun Hc].
  split_and!; [|done..|by eapply loop_runs_last]. by eapply loop_runs_value.
Qed.

(** C26: a persistent event with a timeout is due again one period after it was
    due, so that a timer does not drift; but when it is late by more than that,
    or was not run for its timeout, one period after now: it is never due in the
    past, and never more than one period ahead, as long as the seconds of these sums
    fit 64 bits.  The times of a common timeout
    are compared without the index of their list. *)
Theorem persist_next_due v now n :
  tv_norm now → n <= 256 → good_tv n (ev_timeout v) → good_tv n (ev_io_timeout v) →
  tv_norm (mask_usec (ev_timeout v)) → tv_norm (mask_usec (ev_io_timeout v)) →
  is_same_common_timeout (ev_timeout v) (ev_io_timeout v) = true →
  sec_fits (tv_sec (ev_timeout v) + tv_sec (ev_io_timeout v)) → sec_fits (tv_sec now + tv_sec (ev_io_timeout v)) →
  let due := tv_us (mask_usec (ev_timeout v)) in
  let period := tv_us (mask_usec (ev_io_timeout v)) in
  let next := tv_us (mask_usec (persist_run_at v now n)) in
  next = (if has (ev_res v) EV_TIMEOUT && (tv_us now <=? due + period) then due + period
          else tv_us now + period) ∧
  is_same_common_timeout (persist_run_at v now n) (ev_io_timeout v) = true.
Proof.
  intros Hnow Hn Ht Hp Hnt Hnp Hs Hf1 Hf2 due period next.
  destruct (persist_run_at_ok v now n) as (Hg & Hsame & _); [done..|]. split; [|exact Hsame].
  assert (Hdue : ∃ m, persist_run_at v now n =
     (let rel := if has (ev_res v) EV_TIMEOUT then mask_usec (ev_timeout v) else now in
      let r := evutil_timeradd rel (mask_usec (ev_io_timeout v)) in
      let r := if evutil_timercmp Z.ltb r now then evutil_timeradd now (mask_usec (ev_io_timeout v)) else r in
      TV (tv_sec r) (Z.lor (tv_usec r) m)) ∧ (m = 0 ∨ ∃ i, 0 <= i < 256 ∧ m = common_usec i 0)).
  { unfold persist_run_at. destruct (same_common_cases _ _ _ Ht Hp Hn Hs) as [[H1 H2]|(i & Hi & H1 & H2)].
    - destruct (plain_tv_spec _ n H1) as (-> & _ & ->), (plain_tv_spec _ n H2) as (_ & _ & ->).
      exists 0. by split; [|left].
    - destruct (common_tv_spec i _ n H1 Hi Hn) as (-> & _), (common_tv_spec i _ n H2 Hi Hn) as (_ & _ & -> & _).
      exists (common_usec i 0). split; [done|]. right. exists i. split; [lia|done]. }
  destruct Hdue as (m & Heq & Hm). unfold next. rewrite Heq. cbv zeta.
  set (r := if evutil_timercmp _ _ _ then _ else _).
  assert (Hr : tv_norm r) by (unfold r; repeat case_match; auto using timeradd_norm).
  assert (Hmask : mask_usec (TV (tv_sec r) (Z.lor (tv_usec r) m)) = r) by (apply mask_lor; [by apply norm_usec|done]).
  assert (H1 : tv_us (evutil_timeradd (mask_usec (ev_timeout v)) (mask_usec (ev_io_timeout v))) = due + period).
  { by apply timeradd_us; [apply norm_small..|]. }
  assert (H2 : tv_us (evutil_timeradd now (mask_usec (ev_io_timeout v))) = tv_us now + period).
  { by apply timeradd_us; [apply norm_small..|]. }
  rewrite Hmask. unfold r. destruct (has (ev_res v) EV_TIMEOUT); cbn [andb];
    rewrite timercmp_us_lt by auto using timeradd_norm; rewrite ?H1, ?H2.
  - destruct (Z.ltb_spec (due + period) (tv_us now)), (Z.leb_spec (tv_us now) (due + period)); try lia; done.
  - by destruct (_ <? _).
Qed.
End contract.

(** * The map of descriptors *)

Section map_contract.
Context {B F B2 : Type} {OP : Eventop B F} {OL : EventopLaws B F} {SO : Sigop B2} {MA : MapAlloc}.
Abbreviation map := (event_map B F B2).

(** The abstract map: the events of each descriptor, and what the backend holds. *)
Record watch_map := WatchMap { watching : Z → list evid; info : Z → F; backend_state : B }.
Definition abstract (m : map) : watch_map := WatchMap (events_of m) (fdinfo_of m) (evsel m).
(** Its operations.  The kinds of events to watch a descriptor for are computed
    from the list of its events, and the backend is called when they change. *)
Definition same_elsewhere (a a' : watch_map) (fd : Z) : Prop :=
  ∀ i, i ≠ fd → watching a' i = watching a i ∧ info a' i = info a i.
Inductive watch mask (a : watch_map) fd e : watch_map → Z → Prop :=
| watch_fails a' :
    same_elsewhere a a' fd → watching a' fd = watching a fd → watch mask a fd e a' (-1)
| watch_quiet a' :
    wanted mask (e :: watching a fd) = wanted mask (watching a fd) →
    same_elsewhere a a' fd → watching a' fd = e :: watching a fd →
    backend_state a' = backend_state a → watch mask a fd e a' 0
| watch_tells a' ret :
    wanted mask (e :: watching a fd) ≠ wanted mask (watching a fd) →
    op_add (backend_state a) fd (wanted mask (watching a fd))
      (Z.lor (Z.land (mask e) EV_ET)
         (Z.ldiff (wanted mask (e :: watching a fd)) (wanted mask (watching a fd)))) (info a fd)
      = Some (backend_state a', info a' fd, ret) → ret ≠ -1 →
    same_elsewhere a a' fd → watching a' fd = e :: watching a fd → watch mask a fd e a' 1.
Inductive unwatch mask (a : watch_map) fd e : watch_map → Z → Prop :=
| unwatch_quiet a' l :
    tailq_remove e (watching a fd) = Some l → wanted mask l = wanted mask (watching a fd) →
    same_elsewhere a a' fd → watching a' fd = l → backend_state a' = backend_state a →
    unwatch mask a fd e a' 0
| unwatch_tells a' l ret :
    tailq_remove e (watching a fd) = Some l → wanted mask l ≠ wanted mask (watching a fd) →
    op_del (backend_state a) fd (wanted mask (watching a fd))
      (Z.lor (Z.land (mask e) EV_ET) (Z.ldiff (wanted mask (watching a fd)) (wanted mask l))) (info a fd)
      = Some (backend_state a', info a' fd, ret) →
    same_elsewhere a a' fd → watching a' fd = l →
    unwatch mask a fd e a' (if ret =? -1 then -1 else 1).

(** C8: the map of descriptors implements the abstract map.  It keeps counters
    instead of looking at the events of a descriptor, but [evmap_io_add_] and
    [evmap_io_del_] tell the backend exactly the kinds of events that become
    wanted or unwanted, with what was wanted before, only when there are any;
    neither ever fails an assertion or loses a counter. *)
Theorem evmap_io_refines (m : map) mask fd e :
  0 <= fd → evmap_inv m mask →
  (e ∉ events_of m fd → ∃ m' r, evmap_io_add_ m fd e (mask e) = Some (m', r) ∧
     evmap_inv m' mask ∧ watch mask (abstract m) fd e (abstract m') r) ∧
  (e ∈ events_of m fd → ∃ m' r, evmap_io_del_ m fd e (mask e) = Some (m', r) ∧
     evmap_inv m' mask ∧ unwatch mask (abstract m) fd e (abstract m') r).
Proof.
  intros Hfd Hm. split.
  - intros He. destruct (io_add_ok mask m fd e Hfd Hm He) as (m' & r & E & Hm' & [_ _ Hf] & Ha).
    exists m', r. split; [done|]. split; [done|].
    destruct Ha as [(-> & ? & _)|[(-> & ? & H0 & ? & ?)|(-> & ? & H0 & ret & Hret & Hop)]].
    + by apply watch_fails.
    + apply watch_quiet; try done. apply told_0; [exists e; by left|done].
    + eapply watch_tells with (ret := ret); try done. intros Hx. apply H0, told_0; [exists e; by left|done].
  - intros He. destruct (io_del_ok mask m fd e Hfd Hm He) as (m' & r & E & Hm' & [_ _ Hf] & l & Hl & Hl' & Hr).
    exists m', r. split; [done|]. split; [done|]. destruct Hr as [(-> & H0 & ? & ?)|(H0 & ret & -> & Hop)].
    + eapply unwatch_quiet; try done. symmetry. apply told_0; [exists e; by right|done].
    + eapply unwatch_tells; try done. intros Hx. apply H0, told_0; [exists e; by right|done].
Qed.
End map_contract.

Section active_contract.
Context {B F B2 : Type} {OP : Eventop B F} {OL : EventopLaws B F} {SO : Sigop B2} {MA : MapAlloc}.
Context {CK : Clock} {CL : ClockLaws} {RA : Realloc}.
Abbreviation base := (event_base (event_map B F B2)).
Context (U : list evid) (U_nodup : NoDup U) (U_small : zlen U < 2 ^ 31).

(** C9: when the backend reports a descriptor ready, exactly the events that are
    inserted for it and wait for one of the reported conditions become active,
    with those of the conditions they wait for; no other event changes.  The
    descriptor may be any number. *)
Theorem evmap_io_active_exact fd events (b : base) :
  base_inv U b →
  wp (evmap_io_active_ fd events) (λ _ b', base_inv U b' ∧
    ∀ x, core (evs b' !!! x) =
      core (if bool_decide (0 <= fd) && fl (evs b !!! x) EVLIST_INSERTED && (ev_fd (evs b !!! x) =? fd) &&
               has (ev_events (evs b !!! x)) EV_IO &&
               has (ev_events (evs b !!! x)) (events &~ EV_ET)%ev && negb (fl (evs b !!! x) EVLIST_FINALIZING)
            then activated (Z.land (ev_events (evs b !!! x)) events) 1 (evs b !!! x)
            else evs b !!! x)) b.
Proof.
  intros Hb. apply (wp_io_active U U_nodup U_small); [done|]. intros b' Hb' _ Hx. split; [done|].
  intros x. rewrite Hx. clear Hx. f_equal. unfold reported.
  pose proof (mo_io _ _ (ci_map (bv_core Hb)) fd x) as Hin.
  change (em_io (evmap b) fd x) with (x ∈ events_of (evmap b) fd) in Hin.
  destruct (decide (x ∈ events_of (evmap b) fd)) as [Hi|Hi].
  - apply Hin in Hi as (-> & -> & -> & Hfd). rewrite bool_decide_eq_true_2, Z.eqb_refl by done. done.
  - destruct (bool_decide_reflect (0 <= fd)); [|done].
    destruct (fl (evs b !!! x) EVLIST_INSERTED); [|done].
    destruct (Z.eqb_spec (ev_fd (evs b !!! x)) fd); [|done].
    destruct (has (ev_events (evs b !!! x)) EV_IO); [|done]. destruct Hi. by apply Hin.
Qed.
End active_contract.

(** * Witnesses *)

(** Running a program part on the concrete base. *)
Definition outcome {A} (m : prog demo_base A) (b : demo_base) : demo_base :=
  match m b with Some (_, b') => b' | None => b end.
Lemma demo_wp {A} (m : prog demo_base A) (b : demo_base) a (Q : A → demo_base → Prop) :
  wp m Q b → fst <$> m b = Some a → m b = Some (a, outcome m b) ∧ Q a (outcome m b).
Proof. unfold wp, outcome. destruct (m b) as [[a' b']|]; [|done]. simpl. intros H E. by simplify_eq. Qed.

Lemma demo_reached : reachable demo_events demo_start demo.
Proof. exact (demo_reachable 6 ltac:(lia)). Qed.
Lemma demo_ready e : e ∈ [1; 2; 3]%nat → ready demo_events demo e.
Proof.
  rewrite !elem_of_cons. intros [->|[->|[->|?]]]; [..|set_solver];
    (split; [refine (demo_own 6 _ _ _); [lia|demo_ev]|by vm_compute]).
Qed.
Lemma demo_in e : e ∈ [1; 2; 3]%nat → e ∈ demo_events.
Proof. unfold demo_events. rewrite !elem_of_cons. tauto. Qed.
Lemma in_123 : 1%nat ∈ [1; 2; 3]%nat ∧ 2%nat ∈ [1; 2; 3]%nat ∧ 3%nat ∈ [1; 2; 3]%nat.
Proof. rewrite !elem_of_cons. tauto. Qed.
#[local] Opaque demo demo_start.

Lemma api_safe_witness :
  ∃ b', run (RunLoop 20 0) demo = Some (tt, b') ∧ base_inv demo_events b'.
Proof.
  apply (api_safe demo_events demo_nodup demo_small None (λ _, false) [Backend "epoll" 0 true]
    demo_empty_map (Notify false false false 0) true true demo_start demo).
  - exact demo_map_empty.
  - vm_compute. reflexivity.
  - exact demo_reached.
  - exact I.
Defined.
Lemma reachable_consistent_witness : consistent demo_events demo.
Proof.
  apply (reachable_consistent demo_events demo_nodup demo_small None (λ _, false) [Backend "epoll" 0 true]
    demo_empty_map (Notify false false false 0) true true demo_start demo).
  - exact demo_map_empty.
  - vm_compute. reflexivity.
  - exact demo_reached.
Defined.
Lemma demo_addable : ∀ t, Some (TV 7 5) = Some t → addable demo 3%nat t.
Proof. intros t Ht. injection Ht as <-. split; [left; unfold plain_tv; simpl; lia|vm_compute; discriminate]. Qed.
Lemma event_add_effect_witness :
  ∃ b', event_add 3%nat (Some (TV 7 5)) demo = Some (0, b') ∧ base_inv demo_events b'.
Proof.
  destruct (demo_wp _ _ 0 _ (event_add_effect demo_events demo_nodup demo_small 3%nat (Some (TV 7 5)) demo
    demo_good (demo_ready _ (proj2 (proj2 in_123))) demo_addable)) as [E [H _]]; [vm_compute; reflexivity|].
  eexists. split; [exact E|exact H].
Defined.
Lemma event_del_clears_witness :
  ∃ b', event_del 1%nat demo = Some (0, b') ∧ base_inv demo_events b' ∧ min_heap_idx (evs b' !!! 1%nat) = -1.
Proof.
  destruct (demo_wp _ _ 0 _ (event_del_clears demo_events demo_nodup 1%nat demo
    demo_good ltac:(vm_compute; reflexivity) ltac:(vm_compute; reflexivity))) as [E (H1 & _ & _ & _ & H2 & _)]; [vm_compute; reflexivity|].
  eexists. split; [exact E|]. split; [exact H1|exact H2].
Defined.
Lemma event_active_effect_witness :
  ∃ b', event_active 2%nat EV_TIMEOUT 1 demo = Some (tt, b') ∧ fl (evs b' !!! 2%nat) EVLIST_ACTIVE = true.
Proof.
  destruct (demo_wp _ _ tt _ (event_active_effect demo_events demo_nodup demo_small 2%nat EV_TIMEOUT 1 demo
    demo_good (demo_in _ (proj1 (proj2 in_123))) ltac:(vm_compute; reflexivity) ltac:(vm_compute; reflexivity)))
    as [E (_ & _ & H & _)]; [vm_compute; reflexivity|].
  eexists. split; [exact E|exact H].
Defined.
Lemma event_pending_exact_witness :
  ∃ r tv, event_pending 1%nat (Z.lor EV_TIMEOUT EV_READ) demo = Some ((r, tv), demo) ∧ has r EV_READ = true.
Proof.
  destruct (event_pending_exact 1%nat (Z.lor EV_TIMEOUT EV_READ) demo ltac:(vm_compute; reflexivity))
    as (r & tv & E & _ & H). exists r, tv. split; [exact E|].
  rewrite H by (rewrite !elem_of_cons; tauto). vm_compute. reflexivity.
Defined.
Lemma timeout_next_exact_witness : ∃ b', timeout_next demo = Some (Some (Some (TV 0 0)), b') ∧ base_inv demo_events b'.
Proof.
  destruct (demo_wp _ _ (Some (Some (TV 0 0))) _ (timeout_next_exact demo_events demo demo_good)) as [E [H _]];
    [vm_compute; reflexivity|]. eexists. split; [exact E|exact H].
Defined.
Lemma timeout_process_fires_witness : ∃ b', timeout_process demo = Some (tt, b') ∧ base_inv demo_events b'.
Proof.
  destruct (demo_wp _ _ tt _ (timeout_process_fires demo_events demo_nodup demo_small demo demo_good)) as [E [H _]];
    [vm_compute; reflexivity|]. eexists. split; [exact E|exact H].
Defined.
Lemma make_later_order_witness :
  ∃ b', event_queue_make_later_events_active demo = Some (tt, b') ∧ base_inv demo_events b'.
Proof.
  destruct (demo_wp _ _ tt _ (make_later_order demo_events demo_nodup demo_small demo demo_good)) as [E [H _]];
    [vm_compute; reflexivity|]. eexists. split; [exact E|exact H].
Defined.
(** The loop runs the active event, the descriptor's callback and the timers until
    the callbacks have deleted all events. *)
Lemma event_base_loop_returns_witness :
  ∃ b', event_base_loop 20 0 demo = Some (Some 1, b') ∧ event_haveevents b' = false.
Proof.
  destruct (demo_wp _ _ (Some 1) _ (event_base_loop_returns demo_events demo_nodup demo_small 20 0 demo demo_good))
    as [E [_ H]]; [vm_compute; reflexivity|].
  assert (Hr : running_loop (lp demo) = false) by (vm_compute; reflexivity). rewrite Hr in H.
  eexists. split; [exact E|]. destruct H as (_ & _ & _ & _ & k & b0 & b1 & _ & Hb1 & [_ _ _ _ H]).
  rewrite Hb1. exact (proj1 (proj2 H eq_refl)).
Defined.
Definition demo_periodic : event :=
  Event true EVLIST_INIT 0 EV_CLOSURE_EVENT_PERSIST (CbUser 0) (-1) EV_PERSIST EV_TIMEOUT (TV 50 0) (-1) (TV 3 0) 0 false.
Lemma demo_periodic_norm :
  tv_norm (mask_usec (ev_timeout demo_periodic)) ∧ tv_norm (mask_usec (ev_io_timeout demo_periodic)) ∧
  good_tv 0 (ev_timeout demo_periodic) ∧ good_tv 0 (ev_io_timeout demo_periodic).
Proof. split_and!; try (by apply (bool_decide_unpack _)); left; unfold plain_tv; simpl; lia. Qed.
Lemma persist_next_due_witness :
  tv_us (mask_usec (persist_run_at demo_periodic (TV 51 7) 0)) = 53000000 ∧
  tv_us (mask_usec (persist_run_at demo_periodic (TV 60 7) 0)) = 63000007.
Proof.
  destruct demo_periodic_norm as (H1 & H2 & H3 & H4).
  assert (Hn : tv_norm (TV 51 7) ∧ tv_norm (TV 60 7)) by (split; unfold tv_norm; simpl; lia).
  split.
  - destruct (persist_next_due demo_periodic (TV 51 7) 0 (proj1 Hn) ltac:(lia) H3 H4 H1 H2 eq_refl
      ltac:(by apply (bool_decide_unpack _)) ltac:(by apply (bool_decide_unpack _))) as [-> _].
    vm_compute. reflexivity.
  - destruct (persist_next_due demo_periodic (TV 60 7) 0 (proj2 Hn) ltac:(lia) H3 H4 H1 H2 eq_refl
      ltac:(by apply (bool_decide_unpack _)) ltac:(by apply (bool_decide_unpack _))) as [-> _].
    vm_compute. reflexivity.
Defined.

(** A second watcher of descriptor 5, for a new kind of events. *)
Definition demo_mask (e : evid) : Z := if decide (e = 1%nat) then EV_READ else Z.lor EV_READ EV_CLOSED.
Definition demo_watch (m : demo_map) (e : evid) : demo_map := from_option fst m (evmap_io_add_ m 5 e (demo_mask e)).
Definition demo_watched : demo_map := demo_watch demo_empty_map 1%nat.
Lemma demo_watched_inv : evmap_inv demo_watched demo_mask.
Proof.
  destruct (io_add_ok demo_mask demo_empty_map 5 1%nat ltac:(done) (demo_map_inv _)) as (m' & r & E & H & _); [set_solver|].
  assert (demo_watched = m') as ->; [|done]. unfold demo_watched, demo_watch.
  change (evmap_io_add_ demo_empty_map 5 1%nat (demo_mask 1%nat)) with (io_add demo_empty_map 5 1%nat (demo_mask 1%nat)).
  by rewrite E.
Qed.
Lemma evmap_io_refines_witness :
  watch demo_mask (abstract demo_watched) 5 2%nat (abstract (demo_watch demo_watched 2%nat)) 1 ∧
  evsel (demo_watch demo_watched 2%nat) = [(5, 0, EV_READ); (5, EV_READ, EV_CLOSED)].
Proof.
  split; [|vm_compute; reflexivity].
  destruct (proj1 (evmap_io_refines demo_watched demo_mask 5 2%nat ltac:(lia) demo_watched_inv)) as (m' & r & E & _ & H).
  - vm_compute. intros H. inversion H as [|? ? ? H']. inversion H'.
  - assert (Hr : evmap_io_add_ demo_watched 5 2%nat (demo_mask 2%nat) = Some (demo_watch demo_watched 2%nat, 1))
      by (vm_compute; reflexivity).
    rewrite Hr in E. injection E as E1 E2. rewrite E1, E2. exact H.
Defined.
Lemma evmap_io_active_exact_witness :
  ∃ b', evmap_io_active_ 5 EV_READ demo = Some (tt, b') ∧ base_inv demo_events b'.
Proof.
  destruct (demo_wp _ _ tt _ (evmap_io_active_exact demo_events demo_nodup demo_small 5 EV_READ demo demo_good))
    as [E [H _]]; [vm_compute; reflexivity|]. eexists. split; [exact E|exact H].
Defined.
