(* ===== verification/EpollTable.v ===== *)
(** The table of epoll operations, [src/epolltable-internal.h]: which
    [epoll_ctl] brings the kernel from the events that were enabled on a
    descriptor to those that are after a group of changes. *)
From S2P Require Import Prelude EventDefs Evmap EvmapDefs.

Definition EV_CHANGE_ADD : Z := 0x01.
Definition EV_CHANGE_DEL : Z := 0x02.
Definition EV_CHANGE_SIGNAL : Z := EV_SIGNAL.
Definition EV_CHANGE_ET : Z := EV_ET.

(** [struct event_change] *)
Record event_change := EventChange {
  ch_fd : Z; old_events : Z; read_change : Z; write_change : Z; close_change : Z
}.

(** Values of [<sys/epoll.h>]. *)
Definition EPOLLIN : Z := 0x001.
Definition EPOLLOUT : Z := 0x004.
Definition EPOLLERR : Z := 0x008.
Definition EPOLLHUP : Z := 0x010.
Definition EPOLLRDHUP : Z := 0x2000.
Definition EPOLLET : Z := 0x80000000.
Definition EPOLL_CTL_ADD : Z := 1.
Definition EPOLL_CTL_DEL : Z := 2.
Definition EPOLL_CTL_MOD : Z := 3.

(** [struct operation] *)
Record operation := Operation { op_events : Z; op : Z }.

Declare Scope epoll_scope.
Delimit Scope epoll_scope with epoll.
Notation "x .| y" := (Z.lor x y) (at level 45, left associativity) : epoll_scope.
#[local] Open Scope epoll_scope.
#[local] Abbreviation IN := EPOLLIN.
#[local] Abbreviation OUT := EPOLLOUT.
#[local] Abbreviation RDHUP := EPOLLRDHUP.
#[local] Abbreviation ADD := EPOLL_CTL_ADD.
#[local] Abbreviation DEL := EPOLL_CTL_DEL.
#[local] Abbreviation MOD := EPOLL_CTL_MOD.

(** * The table

    One part for each set of old events; a row has the four changes of
    [EV_CLOSED] (none, add, delete, both), the rows go through those of [EV_READ]
    and then of [EV_WRITE]. *)

Definition op_table_none : list operation := [
  Operation 0 0; Operation RDHUP ADD; Operation RDHUP DEL; Operation 0 255;
  Operation IN ADD; Operation (IN .| RDHUP) ADD; Operation IN ADD; Operation 0 255;
  Operation IN DEL; Operation RDHUP ADD; Operation (IN .| RDHUP) DEL; Operation 0 255;
  Operation 0 255; Operation 0 255; Operation 0 255; Operation 0 255;
  Operation OUT ADD; Operation (OUT .| RDHUP) ADD; Operation OUT ADD; Operation 0 255;
  Operation (IN .| OUT) ADD; Operation (IN .| OUT .| RDHUP) ADD; Operation (IN .| OUT) ADD; Operation 0 255;
  Operation OUT ADD; Operation (OUT .| RDHUP) ADD; Operation OUT ADD; Operation 0 255;
  Operation 0 255; Operation 0 255; Operation 0 255; Operation 0 255;
  Operation OUT DEL; Operation RDHUP ADD; Operation (OUT .| RDHUP) DEL; Operation 0 255;
  Operation IN ADD; Operation (IN .| RDHUP) ADD; Operation IN ADD; Operation 0 255;
  Operation (IN .| OUT) DEL; Operation RDHUP ADD; Operation (IN .| OUT .| RDHUP) DEL; Operation 0 255;
  Operation 0 255; Operation 0 255; Operation 0 255; Operation 0 255;
  Operation 0 255; Operation 0 255; Operation 0 255; Operation 0 255;
  Operation 0 255; Operation 0 255; Operation 0 255; Operation 0 255;
  Operation 0 255; Operation 0 255; Operation 0 255; Operation 0 255;
  Operation 0 255; Operation 0 255; Operation 0 255; Operation 0 255
].
Definition op_table_r : list operation := [
  Operation 0 0; Operation (IN .| RDHUP) MOD; Operation IN MOD; Operation 0 255;
  Operation IN MOD; Operation (IN .| RDHUP) MOD; Operation IN MOD; Operation 0 255;
  Operation IN DEL; Operation RDHUP MOD; Operation (IN .| RDHUP) DEL; Operation 0 255;
  Operation 0 255; Operation 0 255; Operation 0 255; Operation 0 255;
  Operation (IN .| OUT) MOD; Operation (IN .| OUT .| RDHUP) MOD; Operation (IN .| OUT) MOD; Operation 0 255;
  Operation (IN .| OUT) MOD; Operation (IN .| OUT .| RDHUP) MOD; Operation (IN .| OUT) MOD; Operation 0 255;
  Operation OUT MOD; Operation (OUT .| RDHUP) MOD; Operation OUT MOD; Operation 0 255;
  Operation 0 255; Operation 0 255; Operation 0 255; Operation 0 255;
  Operation IN MOD; Operation (IN .| RDHUP) MOD; Operation IN MOD; Operation 0 255;
  Operation IN MOD; Operation (IN .| RDHUP) MOD; Operation IN MOD; Operation 0 255;
  Operation (IN .| OUT) DEL; Operation RDHUP MOD; Operation (IN .| OUT .| RDHUP) DEL; Operation 0 255;
  Operation 0 255; Operation 0 255; Operation 0 255; Operation 0 255;
  Operation 0 255; Operation 0 255; Operation 0 255; Operation 0 255;
  Operation 0 255; Operation 0 255; Operation 0 255; Operation 0 255;
  Operation 0 255; Operation 0 255; Operation 0 255; Operation 0 255;
  Operation 0 255; Operation 0 255; Operation 0 255; Operation 0 255
].
Definition op_table_w : list operation := [
  Operation 0 0; Operation (OUT .| RDHUP) MOD; Operation OUT MOD; Operation 0 255;
  Operation (IN .| OUT) MOD; Operation (IN .| OUT .| RDHUP) MOD; Operation (IN .| OUT) MOD; Operation 0 255;
  Operation OUT MOD; Operation (OUT .| RDHUP) MOD; Operation OUT MOD; Operation 0 255;
  Operation 0 255; Operation 0 255; Operation 0 255; Operation 0 255;
  Operation OUT MOD; Operation (OUT .| RDHUP) MOD; Operation OUT MOD; Operation 0 255;
  Operation (IN .| OUT) MOD; Operation (IN .| OUT .| RDHUP) MOD; Operation (IN .| OUT) MOD; Operation 0 255;
  Operation OUT MOD; Operation (OUT .| RDHUP) MOD; Operation OUT MOD; Operation 0 255;
  Operation 0 255; Operation 0 255; Operation 0 255; Operation 0 255;
  Operation OUT DEL; Operation RDHUP MOD; Operation (OUT .| RDHUP) DEL; Operation 0 255;
  Operation IN MOD; Operation (IN .| RDHUP) MOD; Operation IN MOD; Operation 0 255;
  Operation (IN .| OUT) DEL; Operation RDHUP MOD; Operation (IN .| OUT .| RDHUP) DEL; Operation 0 255;
  Operation 0 255; Operation 0 255; Operation 0 255; Operation 0 255;
  Operation 0 255; Operation 0 255; Operation 0 255; Operation 0 255;
  Operation 0 255; Operation 0 255; Operation 0 255; Operation 0 255;
  Operation 0 255; Operation 0 255; Operation 0 255; Operation 0 255;
  Operation 0 255; Operation 0 255; Operation 0 255; Operation 0 255
].
Definition op_table_rw : list operation := [
  Operation 0 0; Operation (IN .| OUT .| RDHUP) MOD; Operation (IN .| OUT) MOD; Operation 0 255;
  Operation (IN .| OUT) MOD; Operation (IN .| OUT .| RDHUP) MOD; Operation (IN .| OUT) MOD; Operation 0 255;
  Operation OUT MOD; Operation (OUT .| RDHUP) MOD; Operation OUT MOD; Operation 0 255;
  Operation 0 255; Operation 0 255; Operation 0 255; Operation 0 255;
  Operation (IN .| OUT) MOD; Operation (IN .| OUT .| RDHUP) MOD; Operation (IN .| OUT) MOD; Operation 0 255;
  Operation (IN .| OUT) MOD; Operation (IN .| OUT .| RDHUP) MOD; Operation (IN .| OUT) MOD; Operation 0 255;
  Operation OUT MOD; Operation (OUT .| RDHUP) MOD; Operation OUT MOD; Operation 0 255;
  Operation 0 255; Operation 0 255; Operation 0 255; Operation 0 255;
  Operation IN MOD; Operation (IN .| RDHUP) MOD; Operation IN MOD; Operation 0 255;
  Operation IN MOD; Operation (IN .| RDHUP) MOD; Operation IN MOD; Operation 0 255;
  Operation (IN .| OUT) DEL; Operation RDHUP MOD; Operation (IN .| OUT .| RDHUP) DEL; Operation 0 255;
  Operation 0 255; Operation 0 255; Operation 0 255; Operation 0 255;
  Operation 0 255; Operation 0 255; Operation 0 255; Operation 0 255;
  Operation 0 255; Operation 0 255; Operation 0 255; Operation 0 255;
  Operation 0 255; Operation 0 255; Operation 0 255; Operation 0 255;
  Operation 0 255; Operation 0 255; Operation 0 255; Operation 0 255
].
Definition op_table_c : list operation := [
  Operation 0 0; Operation RDHUP MOD; Operation RDHUP DEL; Operation 0 255;
  Operation (IN .| RDHUP) MOD; Operation (IN .| RDHUP) MOD; Operation IN MOD; Operation 0 255;
  Operation RDHUP MOD; Operation RDHUP MOD; Operation (IN .| RDHUP) DEL; Operation 0 255;
  Operation 0 255; Operation 0 255; Operation 0 255; Operation 0 255;
  Operation (OUT .| RDHUP) MOD; Operation (OUT .| RDHUP) MOD; Operation OUT MOD; Operation 0 255;
  Operation (IN .| OUT .| RDHUP) MOD; Operation (IN .| OUT .| RDHUP) MOD; Operation (IN .| OUT) MOD; Operation 0 255;
  Operation (OUT .| RDHUP) MOD; Operation (OUT .| RDHUP) MOD; Operation OUT MOD; Operation 0 255;
  Operation 0 255; Operation 0 255; Operation 0 255; Operation 0 255;
  Operation RDHUP MOD; Operation RDHUP MOD; Operation (OUT .| RDHUP) DEL; Operation 0 255;
  Operation (IN .| RDHUP) MOD; Operation (IN .| RDHUP) MOD; Operation IN MOD; Operation 0 255;
  Operation RDHUP MOD; Operation RDHUP MOD; Operation (IN .| OUT .| RDHUP) DEL; Operation 0 255;
  Operation 0 255; Operation 0 255; Operation 0 255; Operation 0 255;
  Operation 0 255; Operation 0 255; Operation 0 255; Operation 0 255;
  Operation 0 255; Operation 0 255; Operation 0 255; Operation 0 255;
  Operation 0 255; Operation 0 255; Operation 0 255; Operation 0 255;
  Operation 0 255; Operation 0 255; Operation 0 255; Operation 0 255
].
Definition op_table_cr : list operation := [
  Operation 0 0; Operation (IN .| RDHUP) MOD; Operation IN MOD; Operation 0 255;
  Operation (IN .| RDHUP) MOD; Operation (IN .| RDHUP) MOD; Operation IN MOD; Operation 0 255;
  Operation RDHUP MOD; Operation RDHUP MOD; Operation (IN .| RDHUP) DEL; Operation 0 255;
  Operation 0 255; Operation 0 255; Operation 0 255; Operation 0 255;
  Operation (IN .| OUT .| RDHUP) MOD; Operation (IN .| OUT .| RDHUP) MOD; Operation (IN .| OUT) MOD; Operation 0 255;
  Operation (IN .| OUT .| RDHUP) MOD; Operation (IN .| OUT .| RDHUP) MOD; Operation (IN .| OUT) MOD; Operation 0 255;
  Operation (OUT .| RDHUP) MOD; Operation (OUT .| RDHUP) MOD; Operation OUT MOD; Operation 0 255;
  Operation 0 255; Operation 0 255; Operation 0 255; Operation 0 255;
  Operation (IN .| RDHUP) MOD; Operation (IN .| RDHUP) MOD; Operation IN MOD; Operation 0 255;
  Operation (IN .| RDHUP) MOD; Operation (IN .| RDHUP) MOD; Operation IN MOD; Operation 0 255;
  Operation RDHUP MOD; Operation RDHUP MOD; Operation (IN .| OUT .| RDHUP) DEL; Operation 0 255;
  Operation 0 255; Operation 0 255; Operation 0 255; Operation 0 255;
  Operation 0 255; Operation 0 255; Operation 0 255; Operation 0 255;
  Operation 0 255; Operation 0 255; Operation 0 255; Operation 0 255;
  Operation 0 255; Operation 0 255; Operation 0 255; Operation 0 255;
  Operation 0 255; Operation 0 255; Operation 0 255; Operation 0 255
].
Definition op_table_cw : list operation := [
  Operation 0 0; Operation (OUT .| RDHUP) MOD; Operation OUT MOD; Operation 0 255;
  Operation (IN .| OUT .| RDHUP) MOD; Operation (IN .| OUT .| RDHUP) MOD; Operation (IN .| OUT) MOD; Operation 0 255;
  Operation (OUT .| RDHUP) MOD; Operation (OUT .| RDHUP) MOD; Operation OUT MOD; Operation 0 255;
  Operation 0 255; Operation 0 255; Operation 0 255; Operation 0 255;
  Operation (OUT .| RDHUP) MOD; Operation (OUT .| RDHUP) MOD; Operation OUT MOD; Operation 0 255;
  Operation (IN .| OUT .| RDHUP) MOD; Operation (IN .| OUT .| RDHUP) MOD; Operation (IN .| OUT) MOD; Operation 0 255;
  Operation (OUT .| RDHUP) MOD; Operation (OUT .| RDHUP) MOD; Operation OUT MOD; Operation 0 255;
  Operation 0 255; Operation 0 255; Operation 0 255; Operation 0 255;
  Operation RDHUP MOD; Operation RDHUP MOD; Operation (OUT .| RDHUP) DEL; Operation 0 255;
  Operation (IN .| RDHUP) MOD; Operation (IN .| RDHUP) MOD; Operation IN MOD; Operation 0 255;
  Operation RDHUP MOD; Operation RDHUP MOD; Operation (IN .| OUT .| RDHUP) DEL; Operation 0 255;
  Operation 0 255; Operation 0 255; Operation 0 255; Operation 0 255;
  Operation 0 255; Operation 0 255; Operation 0 255; Operation 0 255;
  Operation 0 255; Operation 0 255; Operation 0 255; Operation 0 255;
  Operation 0 255; Operation 0 255; Operation 0 255; Operation 0 255;
  Operation 0 255; Operation 0 255; Operation 0 255; Operation 0 255
].
Definition op_table_crw : list operation := [
  Operation 0 0; Operation (IN .| OUT .| RDHUP) MOD; Operation (IN .| OUT) MOD; Operation 0 255;
  Operation (IN .| OUT .| RDHUP) MOD; Operation (IN .| OUT .| RDHUP) MOD; Operation (IN .| OUT) MOD; Operation 0 255;
  Operation (OUT .| RDHUP) MOD; Operation (OUT .| RDHUP) MOD; Operation OUT MOD; Operation 0 255;
  Operation 0 255; Operation 0 255; Operation 0 255; Operation 0 255;
  Operation (IN .| OUT .| RDHUP) MOD; Operation (IN .| OUT .| RDHUP) MOD; Operation (IN .| OUT) MOD; Operation 0 255;
  Operation (IN .| OUT .| RDHUP) MOD; Operation (IN .| OUT .| RDHUP) MOD; Operation (IN .| OUT) MOD; Operation 0 255;
  Operation (OUT .| RDHUP) MOD; Operation (OUT .| RDHUP) MOD; Operation OUT MOD; Operation 0 255;
  Operation 0 255; Operation 0 255; Operation 0 255; Operation 0 255;
  Operation (IN .| RDHUP) MOD; Operation (IN .| RDHUP) MOD; Operation IN MOD; Operation 0 255;
  Operation (IN .| RDHUP) MOD; Operation (IN .| RDHUP) MOD; Operation IN MOD; Operation 0 255;
  Operation RDHUP MOD; Operation RDHUP MOD; Operation (IN .| OUT .| RDHUP) DEL; Operation 0 255;
  Operation 0 255; Operation 0 255; Operation 0 255; Operation 0 255;
  Operation 0 255; Operation 0 255; Operation 0 255; Operation 0 255;
  Operation 0 255; Operation 0 255; Operation 0 255; Operation 0 255;
  Operation 0 255; Operation 0 255; Operation 0 255; Operation 0 255;
  Operation 0 255; Operation 0 255; Operation 0 255; Operation 0 255
].
Definition epoll_op_table : list operation :=
  op_table_none ++ op_table_r ++ op_table_w ++ op_table_rw ++
  op_table_c ++ op_table_cr ++ op_table_cw ++ op_table_crw.

Definition EPOLL_OP_TABLE_INDEX (c : event_change) : Z :=
  let both := EV_CHANGE_ADD .| EV_CHANGE_DEL in
  Z.land (close_change c) both .|
  Z.shiftl (Z.land (read_change c) both) 2 .|
  Z.shiftl (Z.land (write_change c) both) 4 .|
  Z.shiftl (Z.land (old_events c) (EV_READ .| EV_WRITE)) 5 .|
  Z.shiftl (Z.land (old_events c) EV_CLOSED) 1.

(** * The program that generated the table

    [get] of [make_epoll_table.py].  A change of one kind of events is ['0'],
    ['add'], ['del'] or ['xxx']; the old events are three booleans. *)

Inductive change := ChNone | ChAdd | ChDel | ChBoth.
#[export] Instance change_eq_dec : EqDecision change.
Proof. solve_decision. Defined.

Definition any (x : change) (rc wc cc : change) : bool := bool_decide (x ∈ [rc; wc; cc]).
Definition lor_all (l : list Z) : Z := foldl Z.lor 0 l.

(** [events.append(ev)] if [rc == 'add' or (rc != 'del' and 'r' in old)] *)
Definition add_event (c : change) (old : bool) (ev : Z) : list Z :=
  if bool_decide (c = ChAdd) || (negb (bool_decide (c = ChDel)) && old) then [ev] else [].
(** What is left in [modevents], and what is put in [delevents]. *)
Definition mod_event (c : change) (old : bool) (ev : Z) : list Z :=
  if old && negb (bool_decide (c = ChDel)) then [ev] else [].
Definition del_event (c : change) (ev : Z) : list Z := if decide (c = ChDel) then [ev] else [].

Definition get (r w c : bool) (wc rc cc : change) : operation :=
  if any ChBoth rc wc cc then Operation 0 255
  else if any ChAdd rc wc cc then
    let events := add_event rc r IN ++ add_event wc w OUT ++ add_event cc c RDHUP in
    Operation (lor_all events) (if negb (r || w || c) then ADD else MOD)
  else if any ChDel rc wc cc then
    let delevents := del_event rc IN ++ del_event wc OUT ++ del_event cc RDHUP in
    let modevents := mod_event rc r IN ++ mod_event wc w OUT ++ mod_event cc c RDHUP in
    match modevents with
    | [] => Operation (lor_all delevents) DEL
    | _ => Operation (lor_all modevents) MOD
    end
  else Operation 0 0.

(** The nested loops of the program. *)
Definition generated : list operation :=
  '(r, w, c) ← [(false, false, false); (true, false, false); (false, true, false); (true, true, false);
                (false, false, true); (true, false, true); (false, true, true); (true, true, true)];
  wc ← [ChNone; ChAdd; ChDel; ChBoth];
  rc ← [ChNone; ChAdd; ChDel; ChBoth];
  cc ← [ChNone; ChAdd; ChDel; ChBoth];
  [get r w c wc rc cc].

(** C17: the 512 entries of the table are what the generator computes, in its
    order: none was mistyped or lost in the header. *)
Theorem table_generated : epoll_op_table = generated.
Proof. vm_compute. reflexivity. Qed.

(** * What the table means *)

(** The changes the library makes: never both at once. *)
Definition change_bits (c : change) : Z :=
  match c with ChNone => 0 | ChAdd => EV_CHANGE_ADD | ChDel => EV_CHANGE_DEL | ChBoth => 3 end.
Definition after (old : bool) (c : change) : bool :=
  match c with ChNone => old | ChAdd => true | _ => false end.
(** The kernel's events for the kinds of events of the library. *)
Definition epoll_of (ev : Z) : Z :=
  Z.lor (bit_if (has ev EV_READ) EPOLLIN)
    (Z.lor (bit_if (has ev EV_WRITE) EPOLLOUT) (bit_if (has ev EV_CLOSED) EPOLLRDHUP)).

Definition table_entry (idx : Z) (old new : Z) (quiet : bool) : Prop :=
  ∃ o, zget epoll_op_table idx = Some o ∧
    if quiet then o = Operation 0 0 ∧ new = old
    else if new =? 0 then op o = EPOLL_CTL_DEL ∧ op_events o ≠ 0
    else op o = (if old =? 0 then EPOLL_CTL_ADD else EPOLL_CTL_MOD) ∧ op_events o = epoll_of new ∧ op_events o ≠ 0.

Lemma table_meaning r w c rc wc cc fd :
  rc ≠ ChBoth → wc ≠ ChBoth → cc ≠ ChBoth →
  table_entry
    (EPOLL_OP_TABLE_INDEX (EventChange fd (three r w c) (change_bits rc) (change_bits wc) (change_bits cc)))
    (three r w c) (three (after r rc) (after w wc) (after c cc))
    (negb (any ChAdd rc wc cc || any ChDel rc wc cc)).
Proof.
  intros Hr Hw Hc.
  destruct rc, wc, cc; try done; destruct r, w, c; eexists; (split; [vm_compute; reflexivity|vm_compute; repeat split; discriminate]).
Qed.
