(* ===== verification/EpollDefs.v ===== *)
(** The changelist of [src/evmap.c] and the epoll backend, [src/epoll.c].

    The state of the backend ([evsel] of the map) is [struct epollop] with the
    changelist of the base and the kernel's state.  The kernel is a parameter of
    class [EpollSys]: the state after a system call, and its result, where errors
    are the positive [errno]. *)
From S2P Require Import Prelude Timeval MinHeap EventDefs EventApi EventLoop EvmapDefs EpollTable.

Class EpollSys (K : Type) := {
  epoll_create1 : K → K * Z;
  epoll_create : K → K * Z;
  epoll_ctl : K → Z → Z → Z → Z → K * Z;
  epoll_wait : K → Z → Z → Z → K * (Z + list (Z * Z));
  timerfd_create : K → K * Z;
  timerfd_settime : K → Z → Z → Z → K * Z;
  close : K → Z → K
}.

Definition ENOENT : Z := 2.
Definition EINTR : Z := 4.
Definition EBADF : Z := 9.
Definition EPERM : Z := 1.
Definition EEXIST : Z := 17.

Definition EVENT_BASE_FLAG_IGNORE_ENV : Z := 0x02.
Definition EVENT_BASE_FLAG_EPOLL_USE_CHANGELIST : Z := 0x10.
Definition EVENT_BASE_FLAG_PRECISE_TIMER : Z := 0x20.
Definition INITIAL_NEVENT : Z := 32.
Definition MAX_NEVENT : Z := 4096.
Definition MAX_EPOLL_TIMEOUT_MSEC : Z := 35 * 60 * 1000.
Definition sizeof_event_change : Z := 12.
Definition sizeof_epoll_event : Z := 12.

(** [n_changes] is the length of [changes]. *)
Record event_changelist := Changelist { changes : list event_change; changes_size : Z }.
Record event_changelist_fdinfo := Fdinfo { idxplus1 : Z }.
(** [with_changelist]: [base->evsel] is [epollops_changelist]. *)
Record epollop (K : Type) := Epollop {
  with_changelist : bool; changelist : event_changelist;
  nevents : Z; epfd : Z; timerfd : Z; kernel : K
}.
Arguments Epollop {K}. Arguments with_changelist {K}. Arguments changelist {K}. Arguments nevents {K}.
Arguments epfd {K}. Arguments timerfd {K}. Arguments kernel {K}.

Definition set_read (x : Z) (c : event_change) : event_change :=
  EventChange (ch_fd c) (old_events c) x (write_change c) (close_change c).
Definition set_write (x : Z) (c : event_change) : event_change :=
  EventChange (ch_fd c) (old_events c) (read_change c) x (close_change c).
Definition set_close (x : Z) (c : event_change) : event_change :=
  EventChange (ch_fd c) (old_events c) (read_change c) (write_change c) x.
Definition set_fdinfo {F} (f : F) (x : evmap_io F) : evmap_io F :=
  EvmapIo (io_events x) (nread x) (nwrite x) (nclose x) f.

(** * The changelist *)

Section changelist.
Context {MA : MapAlloc}.

Definition event_changelist_init_ : event_changelist := Changelist [] 0.
Definition event_changelist_freemem_ (cl : event_changelist) : event_changelist := event_changelist_init_.

(** [None] for -1. *)
Definition event_changelist_grow (cl : event_changelist) : option event_changelist :=
  let new_size := if changes_size cl <? 64 then 64 else changes_size cl * 2 in
  if map_realloc (new_size * sizeof_event_change) then Some (Changelist (changes cl) new_size) else None.

(** The outer option is a failed assertion; the result is [NULL], or the list, the
    index of the change and the fdinfo. *)
Definition event_changelist_get_or_construct (cl : event_changelist) (fd old : Z) (fdinfo : event_changelist_fdinfo)
  : option (option (event_changelist * Z * event_changelist_fdinfo)) :=
  if idxplus1 fdinfo =? 0 then
    _ ← assert_ (zlen (changes cl) <=? changes_size cl);
    match (if zlen (changes cl) =? changes_size cl then event_changelist_grow cl else Some cl) with
    | None => Some None
    | Some cl =>
        let idx := zlen (changes cl) in
        Some (Some (Changelist (changes cl ++ [EventChange fd old 0 0 0]) (changes_size cl), idx, Fdinfo (idx + 1)))
    end
  else
    change ← zget (changes cl) (idxplus1 fdinfo - 1);
    _ ← assert_ (ch_fd change =? fd);
    Some (Some (cl, idxplus1 fdinfo - 1, fdinfo)).

(** What [f] makes of the change the pointer is for. *)
Definition update_change (cl : event_changelist) (idx : Z) (f : event_change → event_change)
  : option event_changelist :=
  ch ← zget (changes cl) idx;
  Some (Changelist (<[Z.to_nat idx := f ch]> (changes cl)) (changes_size cl)).

Definition add_changes (events : Z) (ch : event_change) : event_change :=
  let evchange := u8 (Z.lor EV_CHANGE_ADD (Z.land events (Z.lor EV_ET (Z.lor EV_PERSIST EV_SIGNAL)))) in
  let ch := if has events (Z.lor EV_READ EV_SIGNAL) then set_read evchange ch else ch in
  let ch := if has events EV_WRITE then set_write evchange ch else ch in
  if has events EV_CLOSED then set_close evchange ch else ch.

Definition event_changelist_add_ (cl : event_changelist) (fd old events : Z) (p : event_changelist_fdinfo)
  : option (event_changelist * event_changelist_fdinfo * Z) :=
  r ← event_changelist_get_or_construct cl fd old p;
  match r with
  | None => Some (cl, p, -1)
  | Some (cl, idx, p) => cl ← update_change cl idx (add_changes events); Some (cl, p, 0)
  end.

Definition del_changes (events : Z) (ch : event_change) : event_change :=
  let del := u8 (Z.lor EV_CHANGE_DEL (Z.land events EV_ET)) in
  let ch := if has events (Z.lor EV_READ EV_SIGNAL)
            then set_read (if negb (has (old_events ch) (Z.lor EV_READ EV_SIGNAL)) then 0 else del) ch else ch in
  let ch := if has events EV_WRITE
            then set_write (if negb (has (old_events ch) EV_WRITE) then 0 else del) ch else ch in
  if has events EV_CLOSED
  then set_close (if negb (has (old_events ch) EV_CLOSED) then 0 else del) ch else ch.

Definition event_changelist_del_ (cl : event_changelist) (fd old events : Z) (p : event_changelist_fdinfo)
  : option (event_changelist * event_changelist_fdinfo * Z) :=
  r ← event_changelist_get_or_construct cl fd old p;
  match r with
  | None => Some (cl, p, -1)
  | Some (cl, idx, p) => cl ← update_change cl idx (del_changes events); Some (cl, p, 0)
  end.
End changelist.

(** * Applying changes *)

Section apply.
Context {K : Type} {SYS : EpollSys K}.

Definition set_kernel (k : K) (ep : epollop K) : epollop K :=
  Epollop (with_changelist ep) (changelist ep) (nevents ep) (epfd ep) (timerfd ep) k.
Definition set_changelist (cl : event_changelist) (ep : epollop K) : epollop K :=
  Epollop (with_changelist ep) cl (nevents ep) (epfd ep) (timerfd ep) (kernel ep).
Definition set_nevents (n : Z) (ep : epollop K) : epollop K :=
  Epollop (with_changelist ep) (changelist ep) n (epfd ep) (timerfd ep) (kernel ep).

(** A second [epoll_ctl] after the first failed. *)
Definition retry (ep : epollop K) (k : K) (ctl fd events : Z) : epollop K * Z :=
  let '(k, e) := epoll_ctl k (epfd ep) ctl fd events in
  (set_kernel k ep, if negb (e =? 0) then -1 else 0).

Definition epoll_apply_one_change (ep : epollop K) (ch : event_change) : option (epollop K * Z) :=
  o ← zget epoll_op_table (EPOLL_OP_TABLE_INDEX ch);
  if op_events o =? 0 then
    _ ← assert_ (op o =? 0); Some (ep, 0)
  else
    let events :=
      if has (Z.lor (read_change ch) (Z.lor (write_change ch) (close_change ch))) EV_CHANGE_ET
      then Z.lor (op_events o) EPOLLET else op_events o in
    let '(k, errno) := epoll_ctl (kernel ep) (epfd ep) (op o) (ch_fd ch) events in
    if errno =? 0 then Some (set_kernel k ep, 0)
    else if (op o =? EPOLL_CTL_MOD) && (errno =? ENOENT) then Some (retry ep k EPOLL_CTL_ADD (ch_fd ch) events)
    else if (op o =? EPOLL_CTL_ADD) && (errno =? EEXIST) then Some (retry ep k EPOLL_CTL_MOD (ch_fd ch) events)
    else if (op o =? EPOLL_CTL_DEL) && ((errno =? ENOENT) || (errno =? EBADF) || (errno =? EPERM))
    then Some (set_kernel k ep, 0)
    else Some (set_kernel k ep, -1).

Fixpoint apply_each (ep : epollop K) (l : list event_change) (r : Z) : option (epollop K * Z) :=
  match l with
  | [] => Some (ep, r)
  | ch :: l => '(ep, x) ← epoll_apply_one_change ep ch; apply_each ep l (if x <? 0 then -1 else r)
  end.
Definition epoll_apply_changes (ep : epollop K) : option (epollop K * Z) :=
  apply_each ep (changes (changelist ep)) 0.

(** The change [epoll_nochangelist_add] and [_del] build, for [EV_CHANGE_ADD] and
    [EV_CHANGE_DEL]. *)
Definition one_change (fd old events change : Z) : event_change :=
  let c := u8 (Z.lor change (Z.land events EV_ET)) in
  EventChange fd old (if has events EV_READ then c else 0) (if has events EV_WRITE then c else 0)
    (if has events EV_CLOSED then c else 0).
Definition epoll_nochangelist_add (ep : epollop K) (fd old events : Z) : option (epollop K * Z) :=
  epoll_apply_one_change ep (one_change fd old events EV_CHANGE_ADD).
Definition epoll_nochangelist_del (ep : epollop K) (fd old events : Z) : option (epollop K * Z) :=
  epoll_apply_one_change ep (one_change fd old events EV_CHANGE_DEL).

Context {MA : MapAlloc}.

Definition lift_changelist (ep : epollop K) (r : event_changelist * event_changelist_fdinfo * Z)
  : epollop K * event_changelist_fdinfo * Z :=
  let '(cl, p, x) := r in (set_changelist cl ep, p, x).
Definition keep_fdinfo (p : event_changelist_fdinfo) (r : epollop K * Z) : epollop K * event_changelist_fdinfo * Z :=
  (r.1, p, r.2).

(** [epollops] and [epollops_changelist] *)
#[export] Instance epollops : Eventop (epollop K) event_changelist_fdinfo := {|
  fdinfo_zero := Fdinfo 0;
  op_add ep fd old events p :=
    if with_changelist ep then lift_changelist ep <$> event_changelist_add_ (changelist ep) fd old events p
    else keep_fdinfo p <$> epoll_nochangelist_add ep fd old events;
  op_del ep fd old events p :=
    if with_changelist ep then lift_changelist ep <$> event_changelist_del_ (changelist ep) fd old events p
    else keep_fdinfo p <$> epoll_nochangelist_del ep fd old events
|}.

(** [getenv_changelist]: the environment sets [EVENT_EPOLL_USE_CHANGELIST];
    [clock_monotonic]: the base reads [CLOCK_MONOTONIC].  The allocations of the
    structure and of its array are [ok1] and [ok2]. *)
Definition epoll_init (k : K) (flags : Z) (getenv_changelist clock_monotonic ok1 ok2 : bool)
    (cl : event_changelist) : K * option (epollop K) :=
  let '(k, fd) := epoll_create1 k in
  let '(k, fd) := if fd =? -1 then epoll_create k else (k, fd) in
  if fd =? -1 then (k, None)
  else if negb ok1 then (close k fd, None)
  else if negb ok2 then (close k fd, None)
  else
    let use := has flags EVENT_BASE_FLAG_EPOLL_USE_CHANGELIST ||
      (negb (has flags EVENT_BASE_FLAG_IGNORE_ENV) && getenv_changelist) in
    let '(k, tfd) :=
      if has flags EVENT_BASE_FLAG_PRECISE_TIMER && clock_monotonic then
        let '(k, tfd) := timerfd_create k in
        if 0 <=? tfd then
          let '(k, e) := epoll_ctl k fd EPOLL_CTL_ADD tfd EPOLLIN in
          if negb (e =? 0) then (close k tfd, -1) else (k, tfd)
        else (k, -1)
      else (k, -1) in
    (k, Some (Epollop use cl INITIAL_NEVENT fd tfd k)).

Definition epoll_dealloc (ep : epollop K) : K :=
  let k := if 0 <=? epfd ep then close (kernel ep) (epfd ep) else kernel ep in
  if 0 <=? timerfd ep then close k (timerfd ep) else k.
End apply.

(** * Dispatching *)

Section dispatch.
Context {K B2 : Type} {SYS : EpollSys K} {SO : Sigop B2} {MA : MapAlloc}.
Context {CK : Clock} {RA : Realloc}.
Abbreviation map := (event_map (epollop K) event_changelist_fdinfo B2).
Abbreviation base := (event_base map).

(** The entry whose fdinfo a change belongs to; entries of signals have none here,
    as signals are not the backend's. *)
Definition event_change_get_fdinfo (m : map) (ch : event_change) : option (evmap_io event_changelist_fdinfo) :=
  if has (read_change ch) EV_CHANGE_SIGNAL then None else mjoin (zget (io m) (ch_fd ch)).

Fixpoint remove_each (m : map) (i : Z) (l : list event_change) : option map :=
  match l with
  | [] => Some m
  | ch :: l =>
      ctx ← event_change_get_fdinfo m ch;
      _ ← assert_ (idxplus1 (io_fdinfo ctx) =? i + 1);
      remove_each (put_io (ch_fd ch) (set_fdinfo (Fdinfo 0) ctx) m) (i + 1) l
  end.
Definition event_changelist_remove_all_ (m : map) : option map :=
  m ← remove_each m 0 (changes (changelist (evsel m)));
  Some (set_evsel (set_changelist (Changelist [] (changes_size (changelist (evsel m)))) (evsel m)) m).

(** [event_changelist_assert_ok]: the loop over the changes, and the one over the
    entries of descriptors. *)
Fixpoint assert_changes (m : map) (i : Z) (l : list event_change) : option unit :=
  match l with
  | [] => Some tt
  | ch :: l =>
      _ ← assert_ (0 <=? ch_fd ch);
      ctx ← event_change_get_fdinfo m ch;
      _ ← assert_ (idxplus1 (io_fdinfo ctx) =? i + 1);
      assert_changes m (i + 1) l
  end.
Fixpoint assert_entries (cl : event_changelist) (fd : Z) (l : list (option (evmap_io event_changelist_fdinfo)))
  : option unit :=
  match l with
  | [] => Some tt
  | x :: l =>
      _ ← match x with
          | Some ctx =>
              if idxplus1 (io_fdinfo ctx) =? 0 then Some tt
              else c ← zget (changes cl) (idxplus1 (io_fdinfo ctx) - 1); assert_ (ch_fd c =? fd)
          | None => Some tt
          end;
      assert_entries cl (fd + 1) l
  end.
Definition event_changelist_assert_ok (m : map) : option unit :=
  let cl := changelist (evsel m) in
  _ ← assert_ (zlen (changes cl) <=? changes_size cl);
  _ ← assert_changes m 0 (changes cl);
  assert_entries cl 0 (io m).

(** The timeout for [epoll_wait], and the backend after arming the timer
    descriptor. *)
Definition wait_timeout (ep : epollop K) (tv : option timeval) : epollop K * Z :=
  if 0 <=? timerfd ep then
    let '(timeout, sec, nsec) :=
      match tv with
      | None => (-1, 0, 0)
      | Some tv => (if (tv_sec tv =? 0) && (tv_usec tv =? 0) then 0 else -1, tv_sec tv, tv_usec tv * 1000)
      end in
    (set_kernel (timerfd_settime (kernel ep) (timerfd ep) sec nsec).1 ep, timeout)
  else
    match tv with
    | None => (ep, -1)
    | Some tv =>
        let timeout := evutil_tv_to_msec_ tv in
        (ep, if (timeout <? 0) || (MAX_EPOLL_TIMEOUT_MSEC <? timeout) then MAX_EPOLL_TIMEOUT_MSEC else timeout)
    end.

(** The library's events for those of the kernel. *)
Definition ready_events (what : Z) : Z :=
  if has what EPOLLERR then Z.lor EV_READ EV_WRITE
  else if has what EPOLLHUP && negb (has what EPOLLRDHUP) then Z.lor EV_READ EV_WRITE
  else Z.lor (bit_if (has what EPOLLIN) EV_READ)
         (Z.lor (bit_if (has what EPOLLOUT) EV_WRITE) (bit_if (has what EPOLLRDHUP) EV_CLOSED)).

Fixpoint report_each (tfd : Z) (l : list (Z * Z)) : prog base unit :=
  match l with
  | [] => mret tt
  | (fd, what) :: l =>
      _ ← when (negb (fd =? tfd) && negb (ready_events what =? 0))
            (evmap_io_active_ fd (Z.lor (ready_events what) EV_ET));
      report_each tfd l
  end.

Definition upd_sel (f : epollop K → epollop K) : prog base unit :=
  modify (λ b, set_map (set_evsel (f (evsel (evmap b))) (evmap b)) b).

(** More room for events when all of it was used. *)
Definition grow_events (res : Z) : prog base unit :=
  b ← get_state;
  let n := nevents (evsel (evmap b)) in
  when ((res =? n) && (n <? MAX_NEVENT) && map_realloc (n * 2 * sizeof_epoll_event)) (upd_sel (set_nevents (n * 2))).

Definition epoll_dispatch (tv : option timeval) : prog base Z :=
  b ← get_state;
  let '(ep, timeout) := wait_timeout (evsel (evmap b)) tv in
  '(ep, _) ← deref (epoll_apply_changes ep);
  m ← deref (event_changelist_remove_all_ (set_evsel ep (evmap b)));
  let '(k, res) := epoll_wait (kernel (evsel m)) (epfd (evsel m)) (nevents (evsel m)) timeout in
  _ ← put_state (set_map (set_evsel (set_kernel k (evsel m)) m) b);
  match res with
  | inl errno => mret (if negb (errno =? EINTR) then -1 else 0)
  | inr l =>
      _ ← EVUTIL_ASSERT (zlen l <=? nevents (evsel m));
      _ ← report_each (timerfd (evsel m)) l;
      _ ← grow_events (zlen l);
      mret 0
  end.
End dispatch.
