(* ===== verification/Epoll.v ===== *)
(** The epoll backend, with and without the changelist: it keeps the promise of
    a backend to the map of descriptors, its dispatch keeps the promise of a
    backend to the event base, and the kernel's interest follows the map. *)
From S2P Require Import Prelude Timeval MinHeap EventDefs EventApi EventLoop EventInv EventQueue.
From S2P Require Import EventOps EventAdd EventBase EventTimers EventRun EvmapDefs Evmap Backend EpollTable EpollDefs.

(** * Changes *)

(** The change of one kind of events that its byte stands for. *)
Definition change_kind (x : Z) : change :=
  let b := Z.land x (Z.lor EV_CHANGE_ADD EV_CHANGE_DEL) in
  if b =? 0 then ChNone else if b =? EV_CHANGE_ADD then ChAdd else if b =? EV_CHANGE_DEL then ChDel else ChBoth.

Lemma change_kind_bits x : change_bits (change_kind x) = Z.land x (Z.lor EV_CHANGE_ADD EV_CHANGE_DEL).
Proof.
  unfold change_kind. set (b := Z.land _ _). assert (Hb : 0 <= b < 4).
  { unfold b. change (Z.lor EV_CHANGE_ADD EV_CHANGE_DEL) with (Z.ones 2). rewrite Z.land_ones by done.
    apply Z.mod_pos_bound. done. }
  unfold EV_CHANGE_ADD, EV_CHANGE_DEL. destruct (Z.eqb_spec b 0) as [->|]; [done|].
  destruct (Z.eqb_spec b 1) as [->|]; [done|]. destruct (Z.eqb_spec b 2) as [->|]; [done|]. simpl. lia.
Qed.
(** A byte built from a change and flags. *)
Lemma change_kind_flags c ev m :
  Z.land m 3 = 0 → Z.land (u8 (Z.lor c (Z.land ev m))) 3 = Z.land c 3.
Proof.
  intros Hm. unfold u8. rewrite <-Z.land_ones by done. rewrite <-Z.land_assoc.
  change (Z.land (Z.ones 8) 3) with 3. rewrite Z.land_lor_distr_l, <-(Z.land_assoc ev), Hm.
  by rewrite Z.land_0_r, Z.lor_0_r.
Qed.
Lemma change_kind_land x y : Z.land x 3 = Z.land y 3 → change_kind x = change_kind y.
Proof. unfold change_kind. change (Z.lor EV_CHANGE_ADD EV_CHANGE_DEL) with 3. by intros ->. Qed.

Lemma byte_no_signal c ev m : has c EV_SIGNAL = false → has (Z.land ev m) EV_SIGNAL = false →
  has (u8 (Z.lor c (Z.land ev m))) EV_SIGNAL = false.
Proof.
  intros Hc Hm. unfold has, u8. rewrite <-Z.land_ones, <-Z.land_assoc by done.
  change (Z.land (Z.ones 8) EV_SIGNAL) with EV_SIGNAL. rewrite Z.land_lor_distr_l.
  unfold has in Hc, Hm. apply negb_false_iff, Z.eqb_eq in Hc, Hm. by rewrite Hc, Hm.
Qed.

(** A change of a descriptor: no kind of events is both added and deleted. *)
Record change_ok (ch : event_change) : Prop := {
  cg_signal : has (read_change ch) EV_CHANGE_SIGNAL = false;
  cg_read : change_kind (read_change ch) ≠ ChBoth;
  cg_write : change_kind (write_change ch) ≠ ChBoth;
  cg_close : change_kind (close_change ch) ≠ ChBoth
}.
(** What the change leaves enabled. *)
Definition target (ch : event_change) : Z :=
  three (after (has (old_events ch) EV_READ) (change_kind (read_change ch)))
    (after (has (old_events ch) EV_WRITE) (change_kind (write_change ch)))
    (after (has (old_events ch) EV_CLOSED) (change_kind (close_change ch))).
Definition quiet (ch : event_change) : bool :=
  negb (any ChAdd (change_kind (read_change ch)) (change_kind (write_change ch)) (change_kind (close_change ch)) ||
        any ChDel (change_kind (read_change ch)) (change_kind (write_change ch)) (change_kind (close_change ch))).

Lemma change_index ch : change_ok ch →
  table_entry (EPOLL_OP_TABLE_INDEX ch) (Z.land (old_events ch) EV_IO) (target ch) (quiet ch).
Proof.
  intros [_ Hr Hw Hc].
  pose proof (table_meaning (has (old_events ch) EV_READ) (has (old_events ch) EV_WRITE) (has (old_events ch) EV_CLOSED)
    _ _ _ (ch_fd ch) Hr Hw Hc) as H.
  rewrite <-land_io in H. replace (EPOLL_OP_TABLE_INDEX ch) with
    (EPOLL_OP_TABLE_INDEX (EventChange (ch_fd ch) (Z.land (old_events ch) EV_IO)
       (change_bits (change_kind (read_change ch))) (change_bits (change_kind (write_change ch)))
       (change_bits (change_kind (close_change ch))))); [exact H|].
  unfold EPOLL_OP_TABLE_INDEX. cbn [close_change read_change write_change old_events].
  rewrite !change_kind_bits, <-!Z.land_assoc. by rewrite !Z.land_diag.
Qed.

(** What adding and deleting kinds of events does to a change. *)
Lemma kind_add ev : change_kind (u8 (Z.lor EV_CHANGE_ADD (Z.land ev (Z.lor EV_ET (Z.lor EV_PERSIST EV_SIGNAL))))) = ChAdd.
Proof. rewrite (change_kind_land _ EV_CHANGE_ADD); [done|by apply change_kind_flags]. Qed.
Lemma kind_flags c ev : change_kind (u8 (Z.lor c (Z.land ev EV_ET))) = change_kind c.
Proof. by apply change_kind_land, change_kind_flags. Qed.
Lemma et_no_signal ev : has (Z.land ev EV_ET) EV_SIGNAL = false.
Proof. unfold has. rewrite <-Z.land_assoc. by rewrite Z.land_0_r. Qed.
Lemma flags_no_signal ev :
  has ev EV_SIGNAL = false → has (Z.land ev (Z.lor EV_ET (Z.lor EV_PERSIST EV_SIGNAL))) EV_SIGNAL = false.
Proof. unfold has. rewrite <-Z.land_assoc. by change (Z.land _ EV_SIGNAL) with EV_SIGNAL at 2. Qed.

Definition new_change (fd old : Z) : event_change := EventChange fd old 0 0 0.
Lemma new_change_ok fd old : change_ok (new_change fd old).
Proof. by split. Qed.
Lemma target_new fd old : target (new_change fd old) = Z.land old EV_IO.
Proof. by rewrite land_io. Qed.

Section one_kind.
Implicit Types ch : event_change.

Lemma add_changes_ok ev ch :
  has ev EV_SIGNAL = false → change_ok ch →
  change_ok (add_changes ev ch) ∧ ch_fd (add_changes ev ch) = ch_fd ch ∧
  old_events (add_changes ev ch) = old_events ch ∧
  target (add_changes ev ch) = Z.lor (target ch) (Z.land ev EV_IO).
Proof.
  intros Hs [H1 H2 H3 H4]. unfold add_changes. rewrite has_lor_r, Hs, orb_false_r.
  pose proof (kind_add ev) as Hk. pose proof (byte_no_signal EV_CHANGE_ADD ev _ eq_refl (flags_no_signal _ Hs)) as Hb.
  set (x := u8 _) in *. clearbody x. unfold target at 2. rewrite land_io, three_lor.
  destruct (has ev EV_READ), (has ev EV_WRITE), (has ev EV_CLOSED);
    unfold set_read, set_write, set_close, target; cbn [ch_fd old_events read_change write_change close_change];
    rewrite ?Hk, ?orb_true_r, ?orb_false_r; cbn [after]; (split; [split; cbn; rewrite ?Hk; done|done]).
Qed.
Lemma del_changes_ok ev ch :
  has ev EV_SIGNAL = false → change_ok ch →
  change_ok (del_changes ev ch) ∧ ch_fd (del_changes ev ch) = ch_fd ch ∧
  old_events (del_changes ev ch) = old_events ch ∧
  (has (old_events ch) EV_SIGNAL = false →
   target (del_changes ev ch) = Z.ldiff (target ch) (Z.land ev EV_IO)).
Proof.
  intros Hs [H1 H2 H3 H4]. unfold del_changes. rewrite has_lor_r, Hs, orb_false_r.
  pose proof (kind_flags EV_CHANGE_DEL ev) as Hk. change (change_kind EV_CHANGE_DEL) with ChDel in Hk.
  pose proof (byte_no_signal EV_CHANGE_DEL ev _ eq_refl (et_no_signal ev)) as Hb.
  set (x := u8 _) in *. clearbody x. unfold target at 2. rewrite land_io, three_ldiff.
  destruct (has ev EV_READ), (has ev EV_WRITE), (has ev EV_CLOSED);
    unfold set_read, set_write, set_close, target; cbn [ch_fd old_events read_change write_change close_change];
    rewrite ?has_lor_r; destruct (has (old_events ch) EV_READ), (has (old_events ch) EV_WRITE),
      (has (old_events ch) EV_CLOSED), (has (old_events ch) EV_SIGNAL);
    cbn [negb orb]; rewrite ?Hk, ?andb_true_r, ?andb_false_r; (split; [split; cbn; rewrite ?Hk; done|done]).
Qed.

Lemma one_change_ok fd old ev c :
  c = EV_CHANGE_ADD ∨ c = EV_CHANGE_DEL →
  change_ok (one_change fd old ev c) ∧
  target (one_change fd old ev c) =
    (if c =? EV_CHANGE_ADD then Z.lor else Z.ldiff) (Z.land old EV_IO) (Z.land ev EV_IO).
Proof.
  intros Hc. pose proof (kind_flags c ev) as Hk.
  assert (Hb : has (u8 (Z.lor c (Z.land ev EV_ET))) EV_SIGNAL = false).
  { apply byte_no_signal; [by destruct Hc as [-> | ->]|apply et_no_signal]. }
  assert (Hx : change_kind c = if c =? EV_CHANGE_ADD then ChAdd else ChDel) by (by destruct Hc as [-> | ->]).
  unfold one_change, target. set (x := u8 _) in *. clearbody x. rewrite !land_io.
  destruct (c =? EV_CHANGE_ADD); rewrite ?three_lor, ?three_ldiff; clear Hc; rewrite Hx in Hk;
  destruct (has ev EV_READ), (has ev EV_WRITE), (has ev EV_CLOSED);
    cbn [old_events read_change write_change close_change]; rewrite ?Hk, ?orb_true_r, ?orb_false_r, ?andb_true_r, ?andb_false_r;
    (split; [split; cbn; rewrite ?Hk; done|done]).
Qed.
End one_kind.

(** * The changelist *)

Section changelist.
Context {MA : MapAlloc}.
Implicit Types (cl : event_changelist) (fds : Z → event_changelist_fdinfo).

(** Every change belongs to the descriptor whose fdinfo points back to it. *)
Record changelist_ok cl fds : Prop := {
  cl_size : zlen (changes cl) <= changes_size cl;
  cl_change i ch : zget (changes cl) i = Some ch →
    0 <= ch_fd ch ∧ idxplus1 (fds (ch_fd ch)) = i + 1 ∧ change_ok ch;
  cl_info fd : 0 <= fd → idxplus1 (fds fd) ≠ 0 →
    ∃ ch, zget (changes cl) (idxplus1 (fds fd) - 1) = Some ch ∧ ch_fd ch = fd
}.
(** The change of a descriptor with fdinfo [f]. *)
Definition pending cl (f : event_changelist_fdinfo) : option event_change :=
  if idxplus1 f =? 0 then None else zget (changes cl) (idxplus1 f - 1).

Lemma changelist_ok_ext cl fds fds' : (∀ i, fds' i = fds i) → changelist_ok cl fds → changelist_ok cl fds'.
Proof.
  intros He [H1 H2 H3]. split; [done|..].
  - intros i ch. rewrite He. apply H2.
  - intros fd. rewrite He. apply H3.
Qed.
Lemma empty_ok n fds : 0 <= n → (∀ i, 0 <= i → idxplus1 (fds i) = 0) → changelist_ok (Changelist [] n) fds.
Proof.
  intros Hn Hf. split; [done|..].
  - intros i ch. unfold zget. by destruct (i <? 0).
  - intros fd Hfd H. by rewrite Hf in H.
Qed.
Lemma pending_fd cl fds fd ch :
  changelist_ok cl fds → 0 <= fd → pending cl (fds fd) = Some ch → ch_fd ch = fd ∧ change_ok ch.
Proof.
  intros Hc Hfd. unfold pending. destruct (Z.eqb_spec (idxplus1 (fds fd)) 0) as [|Hn]; [done|].
  destruct (cl_info _ _ Hc fd Hfd Hn) as (c & E & <-). rewrite E. intros [= <-].
  split; [done|by apply (cl_change _ _ Hc) in E as (_ & _ & ?)].
Qed.
Lemma pending_some cl fds fd :
  changelist_ok cl fds → 0 <= fd → idxplus1 (fds fd) ≠ 0 → ∃ ch, pending cl (fds fd) = Some ch.
Proof.
  intros Hc Hfd Hn. unfold pending. destruct (Z.eqb_spec (idxplus1 (fds fd)) 0); [done|].
  destruct (cl_info _ _ Hc fd Hfd Hn) as (c & E & _). eauto.
Qed.

Lemma grow_ok cl cl' :
  zlen (changes cl) = changes_size cl → event_changelist_grow cl = Some cl' →
  changes cl' = changes cl ∧ zlen (changes cl) < changes_size cl'.
Proof.
  intros Hs. unfold event_changelist_grow. destruct (map_realloc _); [|done]. intros [= <-]. split; [done|].
  cbn [changes_size]. pose proof (zlen_nonneg (changes cl)). destruct (Z.ltb_spec (changes_size cl) 64); lia.
Qed.

(** A new change, for a descriptor that has none. *)
Lemma append_ok cl n fds fd old :
  changelist_ok cl fds → 0 <= fd → idxplus1 (fds fd) = 0 → zlen (changes cl) < n →
  let cl' := Changelist (changes cl ++ [new_change fd old]) n in
  let idx := zlen (changes cl) in
  zget (changes cl') idx = Some (new_change fd old) ∧
  (∀ i, 0 <= i → pending cl' (fds i) = pending cl (fds i)) ∧
  ∀ fds', fds' fd = Fdinfo (idx + 1) → (∀ i, i ≠ fd → fds' i = fds i) → changelist_ok cl' fds'.
Proof.
  intros Hc Hfd Hz Hn cl' idx. pose proof (zlen_nonneg (changes cl)).
  assert (Hlast : zget (changes cl') idx = Some (new_change fd old)).
  { unfold cl'. cbn [changes]. rewrite zget_app_r by lia. by replace (idx - zlen (changes cl)) with 0 by lia. }
  assert (Hold : ∀ i x, zget (changes cl) i = Some x → zget (changes cl') i = Some x).
  { intros i x E. unfold cl'. cbn [changes]. rewrite zget_app_l; [done|]. apply zget_Some_range in E. lia. }
  split; [done|]. split.
  - intros i Hi. unfold pending. destruct (Z.eqb_spec (idxplus1 (fds i)) 0) as [|Hne]; [done|].
    destruct (cl_info _ _ Hc i Hi Hne) as (c & E & _). by rewrite E, (Hold _ _ E).
  - intros fds' H1 H2. split.
    + unfold cl'. cbn [changes changes_size]. rewrite zlen_app. change (zlen [_]) with 1. lia.
    + intros i c Hg. pose proof (zget_Some_range _ _ _ Hg) as Hr. unfold cl' in Hr. cbn [changes] in Hr.
      rewrite zlen_app in Hr. change (zlen [_]) with 1 in Hr. destruct (decide (i = idx)) as [->|Hi].
      * rewrite Hlast in Hg. injection Hg as <-. cbn [ch_fd new_change]. rewrite H1. split_and!; [done..|apply new_change_ok].
      * unfold cl' in Hg. cbn [changes] in Hg. rewrite zget_app_l in Hg by lia.
        destruct (cl_change _ _ Hc _ _ Hg) as (G1 & G2 & G3).
        rewrite (H2 (ch_fd c)); [done|]. intros Hx. rewrite Hx in G2. pose proof (zget_Some_range _ _ _ Hg). lia.
    + intros i Hi Hne. destruct (decide (i = fd)) as [->|Hx].
      * rewrite H1. exists (new_change fd old). split; [|done]. cbn [idxplus1]. by replace (idx + 1 - 1) with idx by lia.
      * rewrite H2 in Hne |- * by done. destruct (cl_info _ _ Hc i Hi Hne) as (c & E & Ec). exists c. auto.
Qed.

(** The change of a descriptor is found or made. *)
Lemma get_or_construct_ok cl fds fd old :
  changelist_ok cl fds → 0 <= fd →
  ∃ r, event_changelist_get_or_construct cl fd old (fds fd) = Some r ∧
  match r with
  | None => True
  | Some (cl', idx, p) =>
      idxplus1 p = idx + 1 ∧
      zget (changes cl') idx = Some (default (new_change fd old) (pending cl (fds fd))) ∧
      (∀ i, 0 <= i → i ≠ fd → pending cl' (fds i) = pending cl (fds i)) ∧
      ∀ fds', fds' fd = p → (∀ i, i ≠ fd → fds' i = fds i) → changelist_ok cl' fds'
  end.
Proof.
  intros Hc Hfd. unfold event_changelist_get_or_construct, assert_.
  destruct (Z.eqb_spec (idxplus1 (fds fd)) 0) as [Hz|Hn].
  - pose proof (cl_size _ _ Hc). destruct (Z.leb_spec (zlen (changes cl)) (changes_size cl)); [|lia].
    cbn [mbind option_bind].
    assert (Hg : ∀ cl', (if zlen (changes cl) =? changes_size cl then event_changelist_grow cl else Some cl) = Some cl' →
      changes cl' = changes cl ∧ zlen (changes cl) < changes_size cl').
    { intros cl'. destruct (Z.eqb_spec (zlen (changes cl)) (changes_size cl)); [by apply grow_ok|].
      intros [= <-]. split; [done|lia]. }
    destruct (if zlen (changes cl) =? changes_size cl then _ else _) as [cl'|]; [|by exists None].
    destruct (Hg cl' eq_refl) as [Ech Hlt].
    eexists; split; [done|]. cbv beta iota. rewrite Ech.
    destruct (append_ok cl (changes_size cl') fds fd old Hc Hfd Hz Hlt) as (H1 & H2 & H3).
    split; [done|]. split; [|by split; [intros; by apply H2|]].
    unfold pending at 1. by rewrite Hz.
  - destruct (cl_info _ _ Hc fd Hfd Hn) as (c & E & Ec). rewrite E. cbn [mbind option_bind].
    rewrite Ec, Z.eqb_refl. cbn [mbind option_bind]. eexists. split; [done|]. cbv beta iota.
    unfold pending at 1. destruct (Z.eqb_spec (idxplus1 (fds fd)) 0); [done|]. rewrite E.
    split_and!; [lia|done|done|]. intros fds' H1 H2. eapply changelist_ok_ext; [|done].
    intros i. destruct (decide (i = fd)) as [->|]; auto.
Qed.

(** Changing the change of a descriptor. *)
Lemma update_ok cl fds fd idx f ch :
  changelist_ok cl fds → 0 <= fd → idxplus1 (fds fd) = idx + 1 → zget (changes cl) idx = Some ch →
  change_ok (f ch) → ch_fd (f ch) = ch_fd ch →
  ∃ cl', update_change cl idx f = Some cl' ∧ changelist_ok cl' fds ∧ pending cl' (fds fd) = Some (f ch) ∧
    ∀ i, 0 <= i → i ≠ fd → pending cl' (fds i) = pending cl (fds i).
Proof.
  intros Hc Hfd Hp Hg Hf Hch. unfold update_change. rewrite Hg. cbn [mbind option_bind].
  pose proof (zget_Some_range _ _ _ Hg) as Hr. destruct (cl_change _ _ Hc _ _ Hg) as (G1 & G2 & _).
  assert (Hcf : ch_fd ch = fd).
  { destruct (cl_info _ _ Hc fd Hfd) as (c & E & <-); [lia|]. rewrite Hp in E.
    replace (idx + 1 - 1) with idx in E by lia. congruence. }
  assert (Hown : ∀ i, 0 <= i → i ≠ fd → idxplus1 (fds i) - 1 ≠ idx).
  { intros i Hi Hne Hx. destruct (cl_info _ _ Hc i Hi) as (c & E & Ec); [lia|]. rewrite Hx in E. congruence. }
  eexists. split; [done|]. split_and!.
  - split; cbn [changes changes_size]; [rewrite zlen_insert; apply Hc|..].
    + intros i c. rewrite zget_insert by done. case_decide as Hi; [|apply (cl_change _ _ Hc)].
      intros [= <-]. rewrite Hch, <-Hi. done.
    + intros i Hi Hne. rewrite zget_insert by done. case_decide as Hx.
      * exists (f ch). split; [done|]. rewrite Hch, Hcf. destruct (decide (i = fd)); [done|]. by destruct (Hown i).
      * by apply (cl_info _ _ Hc).
  - unfold pending. cbn [changes]. rewrite Hp. destruct (Z.eqb_spec (idx + 1) 0); [lia|].
    by rewrite zget_insert, decide_True by lia.
  - intros i Hi Hne. unfold pending. cbn [changes]. destruct (_ =? 0); [done|].
    rewrite zget_insert by done. rewrite decide_False; [done|]. intros E. by apply (Hown i Hi Hne).
Qed.

(** [event_changelist_add_] and [event_changelist_del_]. *)
Definition change_op (f : event_change → event_change) cl (fd old : Z) (p : event_changelist_fdinfo)
  : option (event_changelist * event_changelist_fdinfo * Z) :=
  r ← event_changelist_get_or_construct cl fd old p;
  match r with
  | None => Some (cl, p, -1)
  | Some (cl, idx, p) => cl ← update_change cl idx f; Some (cl, p, 0)
  end.
Definition info_set fds (fd : Z) (p : event_changelist_fdinfo) (i : Z) : event_changelist_fdinfo :=
  if decide (i = fd) then p else fds i.

Lemma change_op_ok f cl fds fd old :
  let ch := default (new_change fd old) (pending cl (fds fd)) in
  changelist_ok cl fds → 0 <= fd → (change_ok ch → change_ok (f ch) ∧ ch_fd (f ch) = ch_fd ch) →
  ∃ cl' p r, change_op f cl fd old (fds fd) = Some (cl', p, r) ∧
    (r = -1 ∧ cl' = cl ∧ p = fds fd ∨
     r = 0 ∧ pending cl' p = Some (f ch) ∧ ∀ i, 0 <= i → i ≠ fd → pending cl' (fds i) = pending cl (fds i)) ∧
    ∀ fds', fds' fd = p → (∀ i, i ≠ fd → fds' i = fds i) → changelist_ok cl' fds'.
Proof.
  intros ch Hc Hfd Hf. unfold change_op.
  destruct (get_or_construct_ok cl fds fd old Hc Hfd) as ([[[cl1 idx] p]|] & E & H); rewrite E; cbn [mbind option_bind].
  2: { exists cl, (fds fd), (-1). split; [done|]. split; [by left|]. intros fds' H1 H2.
       eapply changelist_ok_ext; [|done]. intros i. destruct (decide (i = fd)) as [->|]; auto. }
  destruct H as (Hp & Hg & Hpend & H1). fold ch in Hg.
  assert (Hch : change_ok ch).
  { unfold ch. destruct (pending cl (fds fd)) as [c|] eqn:Ep; cbn; [|apply new_change_ok].
    by destruct (pending_fd _ _ _ _ Hc Hfd Ep). }
  destruct (Hf Hch) as [Hok Hcfd]. set (g := info_set fds fd p).
  assert (Hgfd : g fd = p) by (unfold g, info_set; by rewrite decide_True).
  assert (Hgi : ∀ i, i ≠ fd → g i = fds i) by (intros i Hi; unfold g, info_set; by rewrite decide_False).
  destruct (update_ok cl1 g fd idx f ch) as (cl2 & E2 & G1 & G2 & G3); [by apply H1|done|by rewrite Hgfd|done..|].
  rewrite E2. cbn [mbind option_bind]. exists cl2, p, 0. split; [done|]. rewrite Hgfd in G2. split.
  - right. split_and!; [done..|]. intros i Hi Hne. rewrite <-Hpend, <-(Hgi i) by done. by apply G3.
  - intros fds' F1 F2. eapply changelist_ok_ext; [|exact G1]. intros i.
    destruct (decide (i = fd)) as [->|Hi]; [congruence|by rewrite F2, Hgi].
Qed.
End changelist.

(** * Applying a change *)

(** What the manual says of epoll: [registered k ep fd] are the events [epoll_ctl]
    finds registered for [fd].  Adding and modifying set them, deleting removes
    them, a failed call changes nothing.  Deleting fails with [ENOENT], [EBADF] or
    [EPERM] only when there are none.  [epoll_wait] reports at most as many events
    as asked for. *)
Class EpollLaws (K : Type) {SYS : EpollSys K} := {
  registered : K → Z → Z → option Z;
  epoll_ctl_other k ep ctl fd ev i :
    i ≠ fd → registered (epoll_ctl k ep ctl fd ev).1 ep i = registered k ep i;
  epoll_ctl_same k ep ctl fd ev :
    registered (epoll_ctl k ep ctl fd ev).1 ep fd =
      if (epoll_ctl k ep ctl fd ev).2 =? 0
      then (if ctl =? EPOLL_CTL_DEL then None else Some ev) else registered k ep fd;
  epoll_ctl_absent k ep fd ev :
    (epoll_ctl k ep EPOLL_CTL_DEL fd ev).2 ∈ [ENOENT; EBADF; EPERM] → registered k ep fd = None;
  epoll_wait_same k ep n timeout i : registered (epoll_wait k ep n timeout).1 ep i = registered k ep i;
  epoll_wait_len k ep n timeout l : (epoll_wait k ep n timeout).2 = inr l → zlen l <= n;
  timerfd_settime_same k ep tfd sec nsec i :
    registered (timerfd_settime k tfd sec nsec).1 ep i = registered k ep i
}.

(** The registration for the kinds of events [w]. *)
Definition matches (o : option Z) (w : Z) : Prop :=
  match o with
  | None => w = 0
  | Some x => w ≠ 0 ∧ (x = epoll_of w ∨ x = Z.lor (epoll_of w) EPOLLET)
  end.

Section apply.
Context {K : Type} {SYS : EpollSys K} {SL : EpollLaws K}.
Implicit Types (ep : epollop K) (ch : event_change).

Abbreviation reg ep := (registered (kernel ep) (epfd ep)).

Lemma set_kernel_id ep : set_kernel (kernel ep) ep = ep.
Proof. by destruct ep. Qed.

(** The outcome of a change: the kernel has its target registered, or nothing
    changed. *)
Record applied ep ch ep' (r : Z) : Prop := {
  ap_frame : ep' = set_kernel (kernel ep') ep;
  ap_other i : i ≠ ch_fd ch → reg ep' i = reg ep i;
  ap_result : r = 0 ∨ r = -1;
  ap_done : r = 0 → (quiet ch = true → matches (reg ep (ch_fd ch)) (Z.land (old_events ch) EV_IO)) →
    matches (reg ep' (ch_fd ch)) (target ch);
  ap_failed : r = -1 → reg ep' (ch_fd ch) = reg ep (ch_fd ch)
}.

(** One system call that sets the registration, and one that does not. *)
Lemma applied_ctl ep ch k ctl ev ev' :
  (∀ i, registered k (epfd ep) i = reg ep i) → ctl ≠ EPOLL_CTL_DEL → target ch ≠ 0 →
  ev = epoll_of (target ch) → ev' = ev ∨ ev' = Z.lor ev EPOLLET →
  applied ep ch (set_kernel (epoll_ctl k (epfd ep) ctl (ch_fd ch) ev').1 ep)
    (if negb ((epoll_ctl k (epfd ep) ctl (ch_fd ch) ev').2 =? 0) then -1 else 0).
Proof.
  intros Hk Hctl Ht -> Hev. pose proof (epoll_ctl_same k (epfd ep) ctl (ch_fd ch) ev') as Hs.
  split; cbn [kernel epfd set_kernel].
  - done.
  - intros i Hi. by rewrite epoll_ctl_other, Hk.
  - destruct (_ =? 0); auto.
  - destruct (_ =? 0); [|done]. intros _ _. rewrite Hs. destruct (Z.eqb_spec ctl EPOLL_CTL_DEL); [done|]. done.
  - destruct (_ =? 0); [done|]. intros _. by rewrite Hs, Hk.
Qed.
(** The registration after a failed call. *)
Lemma reg_failed ep ctl fd ev i :
  (epoll_ctl (kernel ep) (epfd ep) ctl fd ev).2 ≠ 0 →
  registered (epoll_ctl (kernel ep) (epfd ep) ctl fd ev).1 (epfd ep) i = reg ep i.
Proof.
  intros He. destruct (decide (i = fd)) as [->|]; [|by apply epoll_ctl_other]. rewrite epoll_ctl_same.
  by destruct (Z.eqb_spec (epoll_ctl (kernel ep) (epfd ep) ctl fd ev).2 0).
Qed.

(** Deleting: an error that says there was nothing to delete counts as success. *)
Lemma applied_del ep ch ev :
  target ch = 0 →
  let k := (epoll_ctl (kernel ep) (epfd ep) EPOLL_CTL_DEL (ch_fd ch) ev).1 in
  let e := (epoll_ctl (kernel ep) (epfd ep) EPOLL_CTL_DEL (ch_fd ch) ev).2 in
  applied ep ch (set_kernel k ep)
    (if (e =? 0) || ((e =? ENOENT) || (e =? EBADF) || (e =? EPERM)) then 0 else -1).
Proof.
  intros Ht k e. pose proof (epoll_ctl_same (kernel ep) (epfd ep) EPOLL_CTL_DEL (ch_fd ch) ev) as Hs.
  fold k e in Hs. split; cbn [kernel epfd set_kernel].
  - done.
  - intros i Hi. by apply epoll_ctl_other.
  - destruct (_ || _); auto.
  - intros Hr _. rewrite Hs, Ht. destruct (Z.eqb_spec e 0); [done|]. cbn [orb] in Hr.
    rewrite (epoll_ctl_absent _ _ _ ev); [done|]. fold e. rewrite !elem_of_cons, elem_of_nil.
    destruct (_ || _) eqn:H; [|done]. rewrite !orb_true_iff, !Z.eqb_eq in H. tauto.
  - rewrite Hs. by destruct (e =? 0).
Qed.

Lemma epoll_apply_one_change_ok ep ch :
  change_ok ch → ∃ ep' r, epoll_apply_one_change ep ch = Some (ep', r) ∧ applied ep ch ep' r.
Proof.
  intros Hc. destruct (change_index ch Hc) as (o & Ho & Hm). unfold epoll_apply_one_change. rewrite Ho.
  cbn [mbind option_bind]. destruct (quiet ch) eqn:Hq.
  { destruct Hm as [-> Ht]. exists ep, 0. split; [done|]. split; try done; [by rewrite set_kernel_id|by left|].
    intros _ H. rewrite Ht. auto. }
  set (ev' := if has _ EV_CHANGE_ET then _ else _).
  assert (Hev : ev' = op_events o ∨ ev' = Z.lor (op_events o) EPOLLET) by (unfold ev'; destruct (has _ _); auto).
  clearbody ev'. destruct (Z.eqb_spec (target ch) 0) as [Ht|Ht].
  { destruct Hm as [Hop Hne]. destruct (Z.eqb_spec (op_events o) 0); [done|]. rewrite Hop.
    pose proof (applied_del ep ch ev' Ht) as H1. cbv zeta in H1.
    destruct (epoll_ctl _ _ _ _ _) as [k e]. cbn [fst snd Z.eqb andb] in *.
    destruct (e =? 0); [by eexists _, _|]. cbn [orb] in H1. destruct (_ || _); by eexists _, _. }
  destruct Hm as (Hop & Hevs & Hne). destruct (Z.eqb_spec (op_events o) 0); [done|].
  assert (Hctl : op o = EPOLL_CTL_ADD ∨ op o = EPOLL_CTL_MOD) by (rewrite Hop; case_match; auto).
  assert (Hndel : op o ≠ EPOLL_CTL_DEL) by (destruct Hctl as [-> | ->]; done).
  pose proof (applied_ctl ep ch (kernel ep) (op o) _ ev' (λ _, eq_refl) Hndel Ht Hevs Hev) as H1.
  pose proof (λ i, reg_failed ep (op o) (ch_fd ch) ev' i) as Hf.
  destruct (epoll_ctl (kernel ep) (epfd ep) (op o) (ch_fd ch) ev') as [k e]. cbn [fst snd] in *.
  destruct (Z.eqb_spec e 0) as [_|He]; [by eexists _, _|].
  assert (Hretry : ∀ ctl, ctl ≠ EPOLL_CTL_DEL →
    ∃ ep' r, Some (retry ep k ctl (ch_fd ch) ev') = Some (ep', r) ∧ applied ep ch ep' r).
  { intros ctl Hd. unfold retry. pose proof (applied_ctl ep ch k ctl _ ev' (λ i, Hf i He) Hd Ht Hevs Hev) as H2.
    destruct (epoll_ctl k (epfd ep) ctl (ch_fd ch) ev') as [k2 e2]. by eexists _, _. }
  destruct (_ && _); [by apply Hretry|]. destruct (_ && _); [by apply Hretry|].
  destruct (Z.eqb_spec (op o) EPOLL_CTL_DEL); [done|]. cbn [andb]. by eexists _, _.
Qed.
End apply.

(** * The backend *)

Section backend.
Context {K : Type} {SYS : EpollSys K} {SL : EpollLaws K} {MA : MapAlloc}.
Implicit Types (ep : epollop K) (fds : Z → event_changelist_fdinfo).
Abbreviation reg ep := (registered (kernel ep) (epfd ep)).

Record epoll_inv ep fds : Prop := {
  ei_list : changelist_ok (changelist ep) fds;
  ei_direct : with_changelist ep = false → changes (changelist ep) = []
}.
Lemma epoll_inv_ext ep fds fds' : (∀ i, fds' i = fds i) → epoll_inv ep fds → epoll_inv ep fds'.
Proof. intros He [H1 H2]. split; [by eapply changelist_ok_ext|done]. Qed.

(** The events [w] are enabled on [fd] now, or will be when the changes are
    applied. *)
Definition tracked ep (f : event_changelist_fdinfo) (fd w : Z) : Prop :=
  match pending (changelist ep) f with
  | None => matches (reg ep fd) w
  | Some ch => matches (reg ep fd) (Z.land (old_events ch) EV_IO) ∧
               has (old_events ch) EV_SIGNAL = false ∧ target ch = w
  end.

(** An operation of the backend that makes [new] of the enabled events [w]. *)
Record operated ep fds (fd w new : Z) (keep : bool) ep' (p : event_changelist_fdinfo) (r : Z) : Prop := {
  or_inv fds' : fds' fd = p → (∀ i, i ≠ fd → fds' i = fds i) → epoll_inv ep' fds';
  or_done : r ≠ -1 → tracked ep (fds fd) fd w → tracked ep' p fd new;
  or_failed : r = -1 → keep = true → tracked ep (fds fd) fd w → tracked ep' p fd w;
  or_other i v : 0 <= i → i ≠ fd → tracked ep (fds i) i v → tracked ep' (fds i) i v;
  or_frame : with_changelist ep' = with_changelist ep ∧ epfd ep' = epfd ep ∧ nevents ep' = nevents ep
}.

Lemma listed_op f ep fds fd w new :
  epoll_inv ep fds → with_changelist ep = true → 0 <= fd → Z.land w EV_IO = w →
  (∀ ch, change_ok ch → change_ok (f ch) ∧ ch_fd (f ch) = ch_fd ch ∧ old_events (f ch) = old_events ch ∧
     (has (old_events ch) EV_SIGNAL = false → target ch = w → target (f ch) = new)) →
  ∃ ep' p r, lift_changelist ep <$> change_op f (changelist ep) fd w (fds fd) = Some (ep', p, r) ∧
    operated ep fds fd w new true ep' p r.
Proof.
  intros [Hc Hd] Hw Hfd Hio Hf.
  set (ch := default (new_change fd w) (pending (changelist ep) (fds fd))).
  assert (Hch : change_ok ch).
  { unfold ch. destruct (pending _ _) eqn:E; [by destruct (pending_fd _ _ _ _ Hc Hfd E)|apply new_change_ok]. }
  destruct (Hf ch Hch) as (F1 & F2 & F3 & F4).
  destruct (change_op_ok f (changelist ep) fds fd w Hc Hfd (λ _, conj F1 F2)) as (cl' & p & r & E & Hr & Hi).
  rewrite E. exists (set_changelist cl' ep), p, r. split; [done|]. split; [| | | |done].
  - intros fds' H1 H2. split; [by apply Hi|]. cbn. by rewrite Hw.
  - intros Hne Ht. destruct Hr as [(-> & _)|(-> & Hp & _)]; [done|]. unfold tracked. cbn [changelist set_changelist].
    rewrite Hp. fold ch. rewrite F3. cbn [kernel epfd].
    assert (Ho : matches (reg ep fd) (Z.land (old_events ch) EV_IO) ∧ has (old_events ch) EV_SIGNAL = false ∧ target ch = w).
    { unfold tracked in Ht. unfold ch. destruct (pending _ _) as [c|]; cbn [default]; [done|].
      rewrite target_new. cbn [old_events new_change]. rewrite Hio. split_and!; [done| |done].
      rewrite <-Hio. unfold has. rewrite <-Z.land_assoc. change (Z.land EV_IO EV_SIGNAL) with 0. by rewrite Z.land_0_r. }
    destruct Ho as (O1 & O2 & O3). split_and!; auto.
  - intros Hne _ Ht. destruct Hr as [(_ & -> & ->)|(-> & _)]; [|done]. exact Ht.
  - intros i v Hi0 Hne Ht. destruct Hr as [(_ & -> & ->)|(_ & _ & Ho)]; [exact Ht|].
    unfold tracked in *. cbn [changelist set_changelist kernel epfd]. by rewrite Ho.
Qed.

Lemma direct_op ep fds fd w ev c :
  epoll_inv ep fds → with_changelist ep = false → 0 <= fd → Z.land w EV_IO = w →
  c = EV_CHANGE_ADD ∨ c = EV_CHANGE_DEL →
  ∃ ep' p r, keep_fdinfo (fds fd) <$> epoll_apply_one_change ep (one_change fd w ev c) = Some (ep', p, r) ∧
    operated ep fds fd w ((if c =? EV_CHANGE_ADD then Z.lor else Z.ldiff) w (Z.land ev EV_IO))
      (c =? EV_CHANGE_ADD) ep' p r.
Proof.
  intros [Hc Hd] Hw Hfd Hio Hcc. destruct (one_change_ok fd w ev c Hcc) as [Hok Ht]. rewrite Hio in Ht.
  destruct (epoll_apply_one_change_ok ep _ Hok) as (ep' & r & E & [Hfr Hoth Hres Hdone Hfail]). rewrite E.
  exists ep', (fds fd), r. split; [done|].
  assert (Hnone : ∀ i, 0 <= i → pending (changelist ep) (fds i) = None).
  { intros i Hi. unfold pending. destruct (Z.eqb_spec (idxplus1 (fds i)) 0) as [|Hn]; [done|].
    destruct (cl_info _ _ Hc i Hi Hn) as (ch & Eg & _). rewrite (Hd Hw) in Eg. unfold zget in Eg. by destruct (_ <? 0). }
  assert (Hcl : changelist ep' = changelist ep ∧ with_changelist ep' = with_changelist ep ∧ epfd ep' = epfd ep ∧
    nevents ep' = nevents ep) by (by rewrite Hfr). destruct Hcl as (Ecl & Ew & Efd & En).
  assert (Htr : ∀ i v, 0 <= i → (tracked ep (fds i) i v ↔ matches (reg ep i) v) ∧
    (tracked ep' (fds i) i v ↔ matches (reg ep' i) v)).
  { intros i v Hi. unfold tracked. by rewrite Ecl, Hnone. }
  split.
  - intros fds' H1 H2. split; [|by rewrite Ecl, Ew]. rewrite Ecl.
    eapply changelist_ok_ext; [|done]. intros i. destruct (decide (i = fd)) as [->|]; auto.
  - intros Hr Hm. apply Htr; [done|]. apply (Htr fd w Hfd) in Hm. cbn [ch_fd one_change old_events] in *.
    rewrite <-Ht. apply Hdone; [by destruct Hres|]. intros _. by rewrite Hio.
  - intros Hr _ Hm. apply Htr; [done|]. apply (Htr fd w Hfd) in Hm. cbn [ch_fd one_change] in *. by rewrite Hfail.
  - intros i v Hi Hne Hm. apply Htr; [done|]. apply (Htr i v Hi) in Hm. cbn [ch_fd one_change] in *. by rewrite Hoth.
  - done.
Qed.

Lemma op_add_operated ep fds fd w ev :
  epoll_inv ep fds → 0 <= fd → has ev EV_SIGNAL = false → Z.land w EV_IO = w →
  ∃ ep' p r, op_add ep fd w ev (fds fd) = Some (ep', p, r) ∧
    operated ep fds fd w (Z.lor w (Z.land ev EV_IO)) true ep' p r.
Proof.
  intros Hi Hfd Hs Hio. cbn [op_add epollops]. destruct (with_changelist ep) eqn:Hw.
  - apply (listed_op (add_changes ev)); [done..|]. intros ch Hok.
    destruct (add_changes_ok ev ch Hs Hok) as (? & ? & ? & Ht). split_and!; [done..|]. intros _ <-. exact Ht.
  - apply (direct_op ep fds fd w ev EV_CHANGE_ADD); auto.
Qed.
Lemma op_del_operated ep fds fd w ev :
  epoll_inv ep fds → 0 <= fd → has ev EV_SIGNAL = false → Z.land w EV_IO = w →
  ∃ ep' p r, op_del ep fd w ev (fds fd) = Some (ep', p, r) ∧
    operated ep fds fd w (Z.ldiff w (Z.land ev EV_IO)) (with_changelist ep) ep' p r.
Proof.
  intros Hi Hfd Hs Hio. cbn [op_del epollops]. destruct (with_changelist ep) eqn:Hw.
  - apply (listed_op (del_changes ev)); [done..|]. intros ch Hok.
    destruct (del_changes_ok ev ch Hs Hok) as (? & ? & ? & Ht). split_and!; [done..|]. intros Ho <-. by apply Ht.
  - apply (direct_op ep fds fd w ev EV_CHANGE_DEL); auto.
Qed.

#[export] Instance epoll_laws : EventopLaws (epollop K) event_changelist_fdinfo.
Proof.
  refine {| op_inv := epoll_inv |}.
  - apply epoll_inv_ext.
  - intros ep fds fd old ev Hi Hfd Hs Ho. destruct (op_add_operated ep fds fd old ev) as (ep' & p & r & E & H); [done..|].
    exists ep', p, r. split; [exact E|]. apply (or_inv _ _ _ _ _ _ _ _ _ H).
  - intros ep fds fd old ev Hi Hfd Hs Ho. destruct (op_del_operated ep fds fd old ev) as (ep' & p & r & E & H); [done..|].
    exists ep', p, r. split; [exact E|]. apply (or_inv _ _ _ _ _ _ _ _ _ H).
Defined.
End backend.

(** * Removing all changes *)

Section remove.
Context {K B2 : Type} {SYS : EpollSys K} {SL : EpollLaws K} {SO : Sigop B2} {MA : MapAlloc}.
Abbreviation map := (event_map (epollop K) event_changelist_fdinfo B2).
Implicit Types (m : map) (mask : evid → Z).

(** Maps that differ in the fdinfo of descriptors only. *)
Record info_frame m m' : Prop := {
  nf_sig : sigmap m' = sigmap m;
  nf_sel : evsel m' = evsel m;
  nf_sigsel : evsigsel m' = evsigsel m;
  nf_len : zlen (io m') = zlen (io m);
  nf_io i : ∃ f, entry (io m') i = set_fdinfo f <$> entry (io m) i
}.
Lemma info_refl m : info_frame m m.
Proof. split; try done. intros i. exists (fdinfo_of m i). unfold fdinfo_of. by destruct (entry (io m) i) as [[]|]. Qed.
Lemma info_trans m1 m2 m3 : info_frame m1 m2 → info_frame m2 m3 → info_frame m1 m3.
Proof.
  intros [] [? ? ? ? H2]. split; try congruence. intros i. destruct (H2 i) as [f ->], (nf_io0 i) as [g ->].
  exists f. by destruct (entry (io m1) i).
Qed.
Lemma info_events m m' fd : info_frame m m' → events_of m' fd = events_of m fd.
Proof. intros H. unfold events_of. destruct (nf_io _ _ H fd) as [f ->]. by destruct (entry (io m) fd). Qed.
Lemma info_signals m m' s : info_frame m m' → signals_of m' s = signals_of m s.
Proof. intros H. unfold signals_of. by rewrite (nf_sig _ _ H). Qed.
Lemma info_map_inv m m' mask : info_frame m m' → map_inv m mask → map_inv m' mask.
Proof.
  intros H [Hi Hs]. split; [|by rewrite (nf_sig _ _ H)]. intros fd ctx. destruct (nf_io _ _ H fd) as [f ->].
  destruct (entry (io m) fd) as [c|] eqn:E; [|done]. intros [= <-]. by destruct (Hi _ _ E).
Qed.

Lemma put_info m fd ctx f :
  entry (io m) fd = Some ctx →
  info_frame m (put_io fd (set_fdinfo f ctx) m) ∧
  ∀ i, fdinfo_of (put_io fd (set_fdinfo f ctx) m) i = if decide (i = fd) then f else fdinfo_of m i.
Proof.
  intros E. pose proof (entry_range _ _ _ E) as Hr. split.
  - split; try done; cbn [put_io set_io io]; [apply zlen_insert|]. intros i. rewrite entry_insert by done.
    case_decide as Hi; [subst i; exists f; by rewrite E|].
    exists (fdinfo_of m i). unfold fdinfo_of. by destruct (entry (io m) i) as [[]|].
  - intros i. unfold fdinfo_of. cbn [put_io set_io io]. rewrite entry_insert by done. by case_decide.
Qed.

(** The changes [l] belong to entries whose fdinfo counts them from [n]. *)
Definition listed m (n : Z) (l : list event_change) : Prop := ∀ i ch,
  zget l i = Some ch → has (read_change ch) EV_CHANGE_SIGNAL = false ∧ idxplus1 (fdinfo_of m (ch_fd ch)) = n + i + 1.

Lemma listed_cons m n ch l : listed m n (ch :: l) → listed m (n + 1) l.
Proof.
  intros H i c E. destruct (H (i + 1) c) as [H1 H2].
  { unfold zget in *. destruct (Z.ltb_spec i 0), (Z.ltb_spec (i + 1) 0); try lia; try done.
    by replace (Z.to_nat (i + 1)) with (S (Z.to_nat i)) by lia. }
  split; [done|lia].
Qed.

Lemma listed_get m n ch l :
  0 <= n → listed m n (ch :: l) →
  ∃ ctx, event_change_get_fdinfo m ch = Some ctx ∧ entry (io m) (ch_fd ch) = Some ctx ∧
    idxplus1 (io_fdinfo ctx) = n + 1.
Proof.
  intros Hn Hl. destruct (Hl 0 ch eq_refl) as [Hs Hx]. unfold event_change_get_fdinfo. rewrite Hs.
  unfold fdinfo_of, entry in *. destruct (mjoin (zget (io m) (ch_fd ch))) as [ctx|]; cbn in Hx; [|lia].
  exists ctx. split_and!; [done..|lia].
Qed.

Lemma remove_each_ok l : ∀ m n,
  0 <= n → listed m n l →
  ∃ m', remove_each m n l = Some m' ∧ info_frame m m' ∧
    ∀ fd, fdinfo_of m' fd = if decide (fd ∈ ch_fd <$> l) then Fdinfo 0 else fdinfo_of m fd.
Proof.
  induction l as [|ch l IH]; intros m n Hn Hl; cbn [remove_each].
  { exists m. split; [done|]. split; [apply info_refl|done]. }
  destruct (listed_get m n ch l Hn Hl) as (ctx & -> & E & Hx). cbn [mbind option_bind].
  unfold assert_. rewrite Hx, Z.eqb_refl. cbn [mbind option_bind].
  destruct (put_info m (ch_fd ch) ctx (Fdinfo 0) E) as [Hf Hi]. set (m1 := put_io _ _ m) in *.
  assert (Hl1 : listed m1 (n + 1) l).
  { intros i c Ec. destruct (listed_cons _ _ _ _ Hl i c Ec) as [H1 H2]. split; [done|]. rewrite Hi.
    case_decide as Hd; [|done]. exfalso. destruct (Hl 0 ch eq_refl) as [_ H3]. rewrite <-Hd, H2 in H3.
    apply zget_Some_range in Ec. lia. }
  destruct (IH m1 (n + 1) ltac:(lia) Hl1) as (m' & E' & Hf' & Hi'). exists m'. split; [done|].
  split; [by eapply info_trans|]. intros fd. rewrite Hi', Hi. cbn [fmap list_fmap].
  destruct (decide (fd ∈ ch_fd <$> l)), (decide (fd ∈ ch_fd ch :: (ch_fd <$> l))), (decide (fd = ch_fd ch)); set_solver.
Qed.

Lemma changes_listed m : epoll_inv (evsel m) (fdinfo_of m) → listed m 0 (changes (changelist (evsel m))).
Proof.
  intros [Hc _] i ch E. destruct (cl_change _ _ Hc _ _ E) as (_ & H2 & H3). split; [by destruct H3|lia].
Qed.

(** The changelist is empty afterwards, and no descriptor has a change. *)
Lemma remove_all_ok m mask :
  map_inv m mask → epoll_inv (evsel m) (fdinfo_of m) →
  ∃ m', event_changelist_remove_all_ m = Some m' ∧ evmap_inv m' mask ∧
    (∀ fd, events_of m' fd = events_of m fd) ∧ (∀ s, signals_of m' s = signals_of m s) ∧
    (∀ fd, 0 <= fd → fdinfo_of m' fd = Fdinfo 0) ∧
    evsel m' = set_changelist (Changelist [] (changes_size (changelist (evsel m)))) (evsel m).
Proof.
  intros Hm Hi. pose proof Hi as [Hc Hd]. unfold event_changelist_remove_all_.
  destruct (remove_each_ok _ m 0 ltac:(done) (changes_listed m Hi)) as (m' & E & Hf & Hx).
  rewrite E. cbn [mbind option_bind]. rewrite (nf_sel _ _ Hf). eexists. split; [done|].
  assert (Hz : ∀ fd, 0 <= fd → fdinfo_of m' fd = Fdinfo 0).
  { intros fd Hfd. rewrite Hx. case_decide as Hn; [done|].
    destruct (decide (idxplus1 (fdinfo_of m fd) = 0)) as [H0|H0]; [destruct (fdinfo_of m fd); simpl in *; by subst|].
    destruct (cl_info _ _ Hc fd Hfd H0) as (c & Ec & <-). exfalso. apply Hn, list_elem_of_fmap. exists c.
    split; [done|]. unfold zget in Ec. destruct (_ <? 0); [done|]. by eapply list_elem_of_lookup_2. }
  split; [split|split_and!; [intros fd; by apply (info_events m m')|intros s; by apply (info_signals m m')|done..]].
  - destruct (info_map_inv m m' mask Hf Hm) as [H1 H2]. by split.
  - cbn [evsel set_evsel]. split; [|done]. apply empty_ok.
    + pose proof (cl_size _ _ Hc). pose proof (zlen_nonneg (changes (changelist (evsel m)))). lia.
    + intros fd Hfd. change (idxplus1 (fdinfo_of m' fd) = 0). by rewrite Hz.
Qed.

(** The library's own check of the changelist. *)
Lemma assert_changes_ok m l : ∀ n,
  0 <= n → listed m n l → Forall (λ ch, 0 <= ch_fd ch) l → assert_changes m n l = Some tt.
Proof.
  induction l as [|ch l IH]; intros n Hn Hl Hp; cbn [assert_changes]; [done|].
  apply Forall_cons in Hp as [Hp Hps]. destruct (listed_get m n ch l Hn Hl) as (ctx & -> & _ & Hx).
  unfold assert_. destruct (Z.leb_spec 0 (ch_fd ch)); [|lia]. cbn [mbind option_bind].
  rewrite Hx, Z.eqb_refl. cbn [mbind option_bind]. apply IH; [lia|by eapply listed_cons|done].
Qed.
Lemma assert_entries_ok cl l : ∀ fd,
  (∀ i ctx, entry l i = Some ctx → idxplus1 (io_fdinfo ctx) ≠ 0 →
     ∃ c, zget (changes cl) (idxplus1 (io_fdinfo ctx) - 1) = Some c ∧ ch_fd c = fd + i) →
  assert_entries cl fd l = Some tt.
Proof.
  induction l as [|x l IH]; intros fd Hl; cbn [assert_entries]; [done|].
  assert (Hrest : assert_entries cl (fd + 1) l = Some tt).
  { apply IH. intros i ctx E Hn. destruct (Hl (i + 1) ctx) as (c & Ec & Efd); [|done|].
    - pose proof (entry_range _ _ _ E). unfold entry, zget in *. destruct (Z.ltb_spec i 0), (Z.ltb_spec (i + 1) 0); try lia.
      by replace (Z.to_nat (i + 1)) with (S (Z.to_nat i)) by lia.
    - exists c. split; [done|lia]. }
  rewrite Hrest. destruct x as [ctx|]; [|done]. destruct (Z.eqb_spec (idxplus1 (io_fdinfo ctx)) 0) as [|Hn]; [done|].
  destruct (Hl 0 ctx eq_refl Hn) as (c & -> & Efd). cbn [mbind option_bind]. unfold assert_.
  replace (fd + 0) with fd in Efd by lia. by rewrite Efd, Z.eqb_refl.
Qed.
Lemma assert_ok_holds m : epoll_inv (evsel m) (fdinfo_of m) → event_changelist_assert_ok m = Some tt.
Proof.
  intros Hi. pose proof Hi as [Hc _]. unfold event_changelist_assert_ok. unfold assert_ at 1.
  destruct (Z.leb_spec (zlen (changes (changelist (evsel m)))) (changes_size (changelist (evsel m)))) as [|Hlt];
    [|pose proof (cl_size _ _ Hc); lia]. cbn [mbind option_bind].
  rewrite assert_changes_ok; [cbn [mbind option_bind]|done|by apply changes_listed|].
  - apply assert_entries_ok. intros i ctx E Hn. pose proof (entry_range _ _ _ E).
    assert (Hf : fdinfo_of m i = io_fdinfo ctx) by (unfold fdinfo_of; by rewrite E).
    rewrite <-Hf in *. apply (cl_info _ _ Hc i); [lia|done].
  - apply Forall_forall. intros ch Hin. apply list_elem_of_lookup in Hin as [i Hi2].
    apply (cl_change _ _ Hc (Z.of_nat i) ch). unfold zget. destruct (Z.ltb_spec (Z.of_nat i) 0); [lia|].
    by rewrite Nat2Z.id.
Qed.
End remove.

(** * Applying all changes *)

Section sync.
Context {K B2 : Type} {SYS : EpollSys K} {SL : EpollLaws K} {SO : Sigop B2} {MA : MapAlloc}.
Abbreviation map := (event_map (epollop K) event_changelist_fdinfo B2).
Implicit Types (m : map) (mask : evid → Z) (ep : epollop K).
Abbreviation reg ep := (registered (kernel ep) (epfd ep)).

Lemma apply_each_ok l : ∀ ep r,
  Forall change_ok l → NoDup (ch_fd <$> l) →
  ∃ ep' r', apply_each ep l r = Some (ep', r') ∧ ep' = set_kernel (kernel ep') ep ∧
    (∀ fd, fd ∉ ch_fd <$> l → reg ep' fd = reg ep fd) ∧
    (r' = 0 → r = 0 ∧ ∀ ch, ch ∈ l → matches (reg ep (ch_fd ch)) (Z.land (old_events ch) EV_IO) →
       matches (reg ep' (ch_fd ch)) (target ch)).
Proof.
  induction l as [|ch l IH]; intros ep r Hok Hnd; cbn [apply_each].
  { exists ep, r. split; [done|]. split; [by rewrite set_kernel_id|]. split; [done|]. intros ->. split; [done|set_solver]. }
  apply Forall_cons in Hok as [Hc Hok]. cbn [fmap list_fmap] in Hnd. apply NoDup_cons in Hnd as [Hn Hnd].
  destruct (epoll_apply_one_change_ok ep ch Hc) as (ep1 & x & -> & [Hf Hoth Hres Hdone _]). cbn [mbind option_bind].
  destruct (IH ep1 (if x <? 0 then -1 else r) Hok Hnd) as (ep' & r' & -> & Hf' & Hout & Hin).
  assert (Hfd1 : epfd ep1 = epfd ep) by (by rewrite Hf).
  assert (Hfd' : epfd ep' = epfd ep) by (by rewrite Hf', <-Hfd1).
  exists ep', r'. split; [done|]. split; [by rewrite Hf', Hf|]. split.
  - intros fd Hfd. cbn [fmap list_fmap] in Hfd. apply not_elem_of_cons in Hfd as [H1 H2].
    rewrite Hout by done. apply Hoth. done.
  - intros ->. destruct (Hin eq_refl) as [Hx Hall]. destruct (Z.ltb_spec x 0); [done|]. split; [done|].
    intros c Hcin Hm. apply elem_of_cons in Hcin as [->|Hcin].
    + rewrite Hout by done. apply Hdone; [lia|done].
    + apply Hall; [done|]. rewrite Hoth; [done|]. intros E. apply Hn. rewrite <-E. by apply list_elem_of_fmap_2.
Qed.

Lemma changes_nodup cl fds : changelist_ok cl fds → NoDup (ch_fd <$> changes cl).
Proof.
  intros Hc. apply NoDup_alt. intros i j fd Hi Hj. rewrite list_lookup_fmap in Hi, Hj.
  apply fmap_Some in Hi as (c & Ec & ->). apply fmap_Some in Hj as (c' & Ec' & Efd).
  assert (Hz : ∀ k x, changes cl !! k = Some x → zget (changes cl) (Z.of_nat k) = Some x).
  { intros k x E. unfold zget. destruct (Z.ltb_spec (Z.of_nat k) 0); [lia|]. by rewrite Nat2Z.id. }
  destruct (cl_change _ _ Hc _ _ (Hz _ _ Ec)) as (_ & H1 & _).
  destruct (cl_change _ _ Hc _ _ (Hz _ _ Ec')) as (_ & H2 & _). rewrite <-Efd in H2. lia.
Qed.
Lemma changes_ok cl fds : changelist_ok cl fds → Forall change_ok (changes cl).
Proof.
  intros Hc. apply Forall_forall. intros ch Hin. apply list_elem_of_lookup in Hin as [i E].
  destruct (cl_change _ _ Hc (Z.of_nat i) ch) as (_ & _ & ?); [|done]. unfold zget.
  destruct (Z.ltb_spec (Z.of_nat i) 0); [lia|]. by rewrite Nat2Z.id.
Qed.

(** Every descriptor has the wanted events enabled, or a change that will enable
    them. *)
Definition in_sync m mask : Prop := ∀ fd, 0 <= fd →
  tracked (evsel m) (fdinfo_of m fd) fd (wanted mask (events_of m fd)).

Lemma sync_elsewhere m m' mask fd :
  0 <= fd → io_frame m m' fd → in_sync m mask →
  tracked (evsel m') (fdinfo_of m' fd) fd (wanted mask (events_of m' fd)) →
  (∀ i v, 0 <= i → i ≠ fd → tracked (evsel m) (fdinfo_of m i) i v → tracked (evsel m') (fdinfo_of m i) i v) →
  in_sync m' mask.
Proof.
  intros Hfd Hf Hs Hm Ho i Hi. destruct (decide (i = fd)) as [->|Hne]; [done|].
  destruct (if_io _ _ _ Hf i Hne) as [-> ->]. apply Ho; [done|done|by apply Hs].
Qed.

Lemma add_sync m mask fd e m' r :
  0 <= fd → evmap_inv m mask → in_sync m mask → io_frame m m' fd → io_added mask m fd e m' r → in_sync m' mask.
Proof.
  intros Hfd [Hm Hi] Hs Hf Ha. pose proof (Hs fd Hfd) as Ht. unfold io_added in Ha. cbv zeta in Ha.
  remember (events_of m fd) as l eqn:El.
  destruct (op_add_operated (evsel m) (fdinfo_of m) fd (wanted mask l)
    (Z.lor (Z.land (mask e) EV_ET) (told mask l (e :: l))) Hi Hfd (told_no_signal _ _ _ _) (wanted_io _ _))
    as (ep' & p & x & E & [_ Hdone Hfail Hoth _]).
  rewrite told_io, (proj1 (told_difference mask l (e :: l) ltac:(exists e; by left))) in Hdone.
  destruct Ha as [(-> & Hl & [[H1 H2]|H1])|[(-> & Hl & H0 & H1 & H2)|(-> & Hl & _ & ret & Hret & H1)]].
  - apply (sync_elsewhere m m' mask fd); [done..| |]; rewrite H1; [by rewrite H2, Hl|done].
  - rewrite H1 in E. simplify_eq. apply (sync_elsewhere m m' mask fd); [done..| |exact Hoth]. rewrite Hl. by apply Hfail.
  - apply (sync_elsewhere m m' mask fd); [done..| |]; rewrite H1; [|done]. rewrite H2, Hl.
    rewrite (proj1 (told_0 mask l (e :: l) ltac:(exists e; by left)) H0). exact Ht.
  - rewrite H1 in E. simplify_eq. apply (sync_elsewhere m m' mask fd); [done..| |exact Hoth]. rewrite Hl. by apply Hdone.
Qed.
Lemma del_sync m mask fd e m' r :
  0 <= fd → evmap_inv m mask → in_sync m mask → io_frame m m' fd → io_deleted mask m fd e m' r → r ≠ -1 →
  in_sync m' mask.
Proof.
  intros Hfd [Hm Hi] Hs Hf (l' & Hr & Hl & Ha) Hne. pose proof (Hs fd Hfd) as Ht. cbv zeta in Ha.
  remember (events_of m fd) as l eqn:El.
  assert (Hmore : one_more l' l) by (exists e; by right).
  destruct (op_del_operated (evsel m) (fdinfo_of m) fd (wanted mask l)
    (Z.lor (Z.land (mask e) EV_ET) (told mask l' l)) Hi Hfd (told_no_signal _ _ _ _) (wanted_io _ _))
    as (ep' & p & x & E & [_ Hdone _ Hoth _]).
  rewrite told_io, (proj2 (told_difference mask l' l Hmore)) in Hdone.
  destruct Ha as [(-> & H0 & H1 & H2)|(_ & ret & -> & H1)].
  - apply (sync_elsewhere m m' mask fd); [done..| |]; rewrite H1; [|done]. rewrite H2, Hl.
    rewrite <-(proj1 (told_0 mask l' l Hmore) H0). exact Ht.
  - rewrite H1 in E. injection E as <- <- <-. apply (sync_elsewhere m m' mask fd); [done..| |exact Hoth].
    rewrite Hl. apply Hdone; [|done]. by intros ->.
Qed.

(** Applying the changes never fails an assertion. *)
Lemma apply_changes_ok ep fds :
  epoll_inv ep fds → ∃ ep' r, epoll_apply_changes ep = Some (ep', r) ∧ ep' = set_kernel (kernel ep') ep ∧
    (r = 0 → ∀ fd w, 0 <= fd → tracked ep (fds fd) fd w → matches (reg ep' fd) w).
Proof.
  intros [Hc _]. unfold epoll_apply_changes.
  destruct (apply_each_ok (changes (changelist ep)) ep 0 (changes_ok _ _ Hc) (changes_nodup _ _ Hc))
    as (ep' & r & E & Hf & Hout & Hin).
  exists ep', r. split; [done|]. split; [done|]. intros ->. destruct (Hin eq_refl) as [_ Hall].
  intros fd w Hfd. unfold tracked. destruct (pending _ _) as [ch|] eqn:Ep.
  - intros (Hm & _ & <-). destruct (pending_fd _ _ _ _ Hc Hfd Ep) as [<- _]. apply Hall; [|done].
    unfold pending in Ep. destruct (_ =? 0); [done|]. unfold zget in Ep. destruct (_ <? 0); [done|].
    by eapply list_elem_of_lookup_2.
  - intros Hm. rewrite Hout; [done|]. intros Hn. apply list_elem_of_fmap in Hn as (ch & -> & Hn).
    apply list_elem_of_lookup in Hn as [i Ei].
    assert (Hz : zget (changes (changelist ep)) (Z.of_nat i) = Some ch).
    { unfold zget. destruct (Z.ltb_spec (Z.of_nat i) 0); [lia|]. by rewrite Nat2Z.id. }
    destruct (cl_change _ _ Hc _ _ Hz) as (_ & Hx & _).
    destruct (pending_some _ _ (ch_fd ch) Hc Hfd) as [c Ec]; [lia|congruence].
Qed.

(** What [epoll_dispatch] does before it waits. *)
Lemma flush_ok m mask :
  evmap_inv m mask →
  ∃ ep' r m', epoll_apply_changes (evsel m) = Some (ep', r) ∧
    event_changelist_remove_all_ (set_evsel ep' m) = Some m' ∧ evmap_inv m' mask ∧
    (∀ fd, events_of m' fd = events_of m fd) ∧ (∀ s, signals_of m' s = signals_of m s) ∧
    (r = 0 → in_sync m mask → in_sync m' mask ∧
       ∀ fd, 0 <= fd → matches (reg (evsel m') fd) (wanted mask (events_of m' fd))).
Proof.
  intros [Hm Hi]. destruct (apply_changes_ok _ _ Hi) as (ep' & r & E & Hf & Hreg).
  assert (Hi' : epoll_inv (evsel (set_evsel ep' m)) (fdinfo_of (set_evsel ep' m))).
  { cbn [evsel set_evsel]. rewrite Hf. destruct Hi. by split. }
  assert (Hm' : map_inv (set_evsel ep' m) mask) by (destruct Hm; by split).
  destruct (remove_all_ok _ mask Hm' Hi') as (m' & E' & Hv & Hev & Hsg & Hz & Hsel).
  exists ep', r, m'. split_and!; [done..|]. intros -> Hs.
  assert (Hmatch : ∀ fd, 0 <= fd → matches (reg (evsel m') fd) (wanted mask (events_of m' fd))).
  { intros fd Hfd. rewrite Hev, Hsel. cbn [set_changelist kernel epfd set_evsel evsel]. by apply Hreg, Hs. }
  split; [|done]. intros fd Hfd. unfold tracked, pending. rewrite (Hz fd Hfd). by apply Hmatch.
Qed.
End sync.

(** * Dispatching *)

Section dispatch.
Context {K B2 : Type} {SYS : EpollSys K} {SL : EpollLaws K} {SO : Sigop B2} {MA : MapAlloc}.
Context {CK : Clock} {CL : ClockLaws} {RA : Realloc}.
Abbreviation map := (event_map (epollop K) event_changelist_fdinfo B2).
Abbreviation base := (event_base map).
Implicit Types (m : map) (ep : epollop K).
Context (U : list evid) (U_nodup : NoDup U) (U_small : zlen U < 2 ^ 31).
Abbreviation good := (base_inv U).

Lemma wp_report_each tfd l : ∀ (b : base) (Q : unit → base → Prop),
  good b → (∀ b', good b' → loop_frame b b' → Q tt b') → wp (report_each tfd l) Q b.
Proof.
  induction l as [|[fd what] l IH]; intros b Q Hb HQ; cbn [report_each].
  { wp_step. apply HQ; [done|apply (lf_refl b)]. }
  wp_step. assert (H : ∀ b1, good b1 → loop_frame b b1 → wp (report_each tfd l) Q b1).
  { intros b1 Hb1 H1. apply IH; [done|]. intros b2 Hb2 H2. apply HQ; [done|by eapply lf_trans]. }
  destruct (_ && _); cbn [when]; [|wp_step; apply H; [done|apply (lf_refl b)]].
  apply (wp_report U U_nodup U_small); [done|]. exact H.
Qed.

Lemma wait_timeout_frame ep tv : wait_timeout ep tv = (set_kernel (kernel (wait_timeout ep tv).1) ep, (wait_timeout ep tv).2).
Proof.
  unfold wait_timeout. destruct (0 <=? timerfd ep).
  - destruct tv as [tv|]; done.
  - destruct tv; cbn [fst snd]; by rewrite set_kernel_id.
Qed.

(** The backend's dispatch never fails and respects the invariant of the base. *)
Lemma epoll_dispatch_ok tv (b : base) :
  good b → wp (epoll_dispatch tv) (λ _ b', good b' ∧ loop_frame b b') b.
Proof.
  intros Hb. unfold epoll_dispatch. do 2 wp_step. rewrite wait_timeout_frame. cbv beta iota.
  set (ep0 := set_kernel _ _). pose proof (mo_inv _ _ (ci_map (bv_core Hb))) as [Hm Hi].
  assert (Hv : evmap_inv (set_evsel ep0 (evmap b)) (λ x, ev_events (evs b !!! x))).
  { destruct Hm, Hi. split; by split. }
  destruct (flush_ok _ _ Hv) as (ep' & r & m' & E & E' & Hv' & H1 & H2 & _).
  wp_step. eapply wp_deref; [exact E|]. cbv beta iota. wp_step.
  eapply wp_deref; [exact E'|]. destruct (epoll_wait _ _ _ _) as [k res] eqn:Ew. wp_step. wp_step.
  set (b1 := set_map _ b).
  assert (Hb1 : good b1 ∧ loop_frame b b1).
  { apply (good_set_map U); [done| |exact H1|exact H2]. destruct Hv' as [[G1 G2] [G3 G4]]. split; by split. }
  destruct Hb1 as [Hb1 Hf1]. destruct res as [errno|l]; [wp_step; done|].
  wp_step. apply wp_assert.
  { apply Z.leb_le. eapply epoll_wait_len. by rewrite Ew. }
  wp_step. apply wp_report_each; [done|]. intros b2 Hb2 Hf2. unfold grow_events. do 3 wp_step.
  destruct (_ && _); cbn [when].
  - unfold upd_sel. wp_step. wp_step. pose proof (mo_inv _ _ (ci_map (bv_core Hb2))) as [_ [Hi2 Hd2]].
    destruct (good_set_sel U b2 (set_nevents (nevents (evsel (evmap b2)) * 2) (evsel (evmap b2)))) as [Hb3 Hf3];
      [done|by split|]. split; [exact Hb3|]. eapply lf_trans; [|exact Hf3]. by eapply lf_trans.
  - do 2 wp_step. split; [done|by eapply lf_trans].
Qed.

(** The environment of a base with this backend. *)
Definition epoll_env (user : nat → evid → Z → prog base unit) : Env map :=
  {| user_callback := user; dispatch := epoll_dispatch |}.
Lemma epoll_env_laws user :
  (∀ f e res (b : base), good b → wp (user f e res) (λ _ b', good b' ∧ loop_frame b b') b) →
  EnvLaws map U (EN := epoll_env user).
Proof. intros Hu. split; [exact Hu|exact epoll_dispatch_ok]. Qed.
End dispatch.
