(* ===== verification/EpollThms.v ===== *)
(** The contract of the epoll backend: the theorems about [src/epoll.c],
    [src/epolltable-internal.h] and the changelist of [src/evmap.c], and the
    event base on top of them. *)
From S2P Require Import Prelude Timeval MinHeap EventDefs EventApi EventLoop EventInv.
From S2P Require Import EventQueue EventOps EventAdd EventBase EventTimers EventRun EventConfig EventSafe.
From S2P Require Import EvmapDefs Evmap EventThms EpollTable EpollDefs Epoll.

Section contract.
Context {K B2 : Type} {SYS : EpollSys K} {SL : EpollLaws K} {SO : Sigop B2} {MA : MapAlloc}.
Abbreviation map := (event_map (epollop K) event_changelist_fdinfo B2).
Implicit Types (m : map) (mask : evid → Z) (ep : epollop K).
Abbreviation reg ep := (registered (kernel ep) (epfd ep)).

(** C16: applying one change through the table of operations, with its retries,
    never fails the assertion on the table.  When it reports success the kernel
    has registered exactly the kinds of events the change leaves enabled (edge
    triggered when the change is), whatever was registered before: also when the
    descriptor was closed and opened again ([MOD] fails, [ADD] is tried) or was
    duplicated ([ADD] fails, [MOD] is tried).  Only a change that changes nothing
    relies on the old registration.  When it reports failure nothing was changed,
    and other descriptors never are. *)
Theorem apply_change_registers ep ch :
  change_ok ch →
  ∃ ep' r, epoll_apply_one_change ep ch = Some (ep', r) ∧ (r = 0 ∨ r = -1) ∧
    (r = 0 → (quiet ch = true → matches (reg ep (ch_fd ch)) (Z.land (old_events ch) EV_IO)) →
       matches (reg ep' (ch_fd ch)) (target ch)) ∧
    (r = -1 → reg ep' (ch_fd ch) = reg ep (ch_fd ch)) ∧
    ∀ fd, fd ≠ ch_fd ch → reg ep' fd = reg ep fd.
Proof.
  intros Hc. destruct (epoll_apply_one_change_ok ep ch Hc) as (ep' & r & E & []). exists ep', r.
  split_and!; done.
Qed.

(** The maps a program makes by adding and deleting events and dispatching, as
    long as the system calls that delete or apply changes succeed. *)
Definition fresh m : Prop :=
  io m = [] ∧ sigmap m = [] ∧ changelist (evsel m) = event_changelist_init_ ∧ ∀ fd, reg (evsel m) fd = None.
Inductive epoll_run mask : map → Prop :=
| run_fresh m : fresh m → epoll_run mask m
| run_add m fd e m' r :
    epoll_run mask m → 0 <= fd → e ∉ events_of m fd → evmap_io_add_ m fd e (mask e) = Some (m', r) →
    epoll_run mask m'
| run_del m fd e m' r :
    epoll_run mask m → 0 <= fd → e ∈ events_of m fd → evmap_io_del_ m fd e (mask e) = Some (m', r) → r ≠ -1 →
    epoll_run mask m'
| run_flush m ep m' :
    epoll_run mask m → epoll_apply_changes (evsel m) = Some (ep, 0) →
    event_changelist_remove_all_ (set_evsel ep m) = Some m' → epoll_run mask m'.

Lemma fresh_inv m mask : fresh m → evmap_inv m mask ∧ in_sync m mask.
Proof.
  intros (H1 & H2 & H3 & H4).
  assert (Hio : ∀ i, entry (io m) i = None) by (intros i; by rewrite H1, no_entry).
  assert (Hsig : ∀ i, entry (sigmap m) i = None) by (intros i; by rewrite H2, no_entry).
  assert (Hf : ∀ i, fdinfo_of m i = Fdinfo 0) by (intros i; unfold fdinfo_of; by rewrite Hio).
  split.
  - split; [split; intros i c; by rewrite ?Hio, ?Hsig|]. split; rewrite H3; [|done].
    apply empty_ok; [done|]. intros i _. by rewrite Hf.
  - intros fd Hfd. unfold tracked, events_of. rewrite H3, Hf, Hio, H4. done.
Qed.
Lemma run_inv mask m : epoll_run mask m → evmap_inv m mask ∧ in_sync m mask.
Proof.
  induction 1 as [m Hf|m fd e m' r _ [Hv Hs] Hfd He E|m fd e m' r _ [Hv Hs] Hfd He E Hr|m ep m' _ [Hv Hs] E E'].
  - by apply fresh_inv.
  - destruct (io_add_ok mask m fd e Hfd Hv He) as (m2 & r2 & E2 & Hv2 & Hf & Ha).
    cbn [evmap_io_add_ evmap_ops] in E. rewrite E in E2. injection E2 as <- <-. split; [done|exact (add_sync m mask fd e m' r Hfd Hv Hs Hf Ha)].
  - destruct (io_del_ok mask m fd e Hfd Hv He) as (m2 & r2 & E2 & Hv2 & Hf & Ha).
    cbn [evmap_io_del_ evmap_ops] in E. rewrite E in E2. injection E2 as <- <-. split; [done|exact (del_sync m mask fd e m' r Hfd Hv Hs Hf Ha Hr)].
  - destruct (flush_ok m mask Hv) as (ep2 & r & m2 & E2 & E3 & Hv2 & _ & _ & H).
    rewrite E in E2. injection E2 as <- <-. rewrite E' in E3. injection E3 as <-. split; [done|by apply H].
Qed.

(** C11: the kernel follows the map.  However events are added and deleted
    between dispatches, each descriptor always has exactly the wanted kinds of
    events registered, or one change in the changelist that leads from what is
    registered to what is wanted.  Without the changelist the kernel is up to date
    after every operation; with it, applying the changes and emptying the list
    never fails an assertion, and when no system call fails the kernel then has
    exactly the wanted events of every descriptor. *)
Theorem epoll_follows_map mask m :
  epoll_run mask m →
  (∀ fd, 0 <= fd → tracked (evsel m) (fdinfo_of m fd) fd (wanted mask (events_of m fd))) ∧
  (with_changelist (evsel m) = false → ∀ fd, 0 <= fd → matches (reg (evsel m) fd) (wanted mask (events_of m fd))) ∧
  ∃ ep r m', epoll_apply_changes (evsel m) = Some (ep, r) ∧
    event_changelist_remove_all_ (set_evsel ep m) = Some m' ∧
    (r = 0 → ∀ fd, 0 <= fd → matches (reg (evsel m') fd) (wanted mask (events_of m fd))).
Proof.
  intros Hr. destruct (run_inv mask m Hr) as [Hv Hs]. split; [exact Hs|]. split.
  - intros Hw fd Hfd. specialize (Hs fd Hfd). destruct Hv as [_ [_ Hd]]. unfold tracked, pending in Hs.
    rewrite (Hd Hw) in Hs. destruct (_ =? 0); [done|]. unfold zget in Hs. by destruct (_ <? 0).
  - destruct (flush_ok m mask Hv) as (ep & r & m' & E & E' & _ & He & _ & H).
    exists ep, r, m'. split_and!; [done..|]. intros -> fd Hfd. rewrite <-He. by apply H.
Qed.

(** the time [epoll_wait] is asked to wait.  Without a timer descriptor it is
    the given time in milliseconds, rounded up so that a timer is due when the
    wait ends, and at most [MAX_EPOLL_TIMEOUT_MSEC]; no time means to wait without
    limit.  With one, the descriptor is armed with the exact time, and the call
    itself does not wait only when the time is zero. *)
Theorem wait_timeout_exact ep tv :
  (∀ t, tv = Some t → 0 <= tv_sec t ∧ 0 <= tv_usec t <= 1000000) →
  if 0 <=? timerfd ep then
    let '(sec, nsec) := match tv with Some t => (tv_sec t, tv_usec t * 1000) | None => (0, 0) end in
    wait_timeout ep tv =
      (set_kernel (timerfd_settime (kernel ep) (timerfd ep) sec nsec).1 ep,
       if bool_decide (tv = Some (TV 0 0)) then 0 else -1)
  else
    wait_timeout ep tv =
      (ep, match tv with
           | Some t => Z.min MAX_EPOLL_TIMEOUT_MSEC ((tv_us t + 999) / 1000)
           | None => -1
           end).
Proof.
  intros Ht. unfold wait_timeout. destruct (0 <=? timerfd ep); destruct tv as [[s u]|]; try done;
    destruct (Ht _ eq_refl) as [Hs Hu]; cbn [tv_sec tv_usec] in *.
  - f_equal. destruct (Z.eqb_spec s 0) as [->|]; [destruct (Z.eqb_spec u 0) as [->|]|]; cbn [andb];
      first [rewrite bool_decide_true by done|rewrite bool_decide_false by congruence]; done.
  - f_equal. pose proof (tv_to_msec_bounds (TV s u) Hs ltac:(cbn; lia)) as Hb. unfold tv_us in *. cbn [tv_sec tv_usec] in *.
    unfold MAX_EPOLL_TIMEOUT_MSEC in *. destruct (Z.eqb_spec (evutil_tv_to_msec_ (TV s u)) (-1)) as [E|E].
    + rewrite E. cbn [Z.ltb orb]. change (-1 <? 0) with true. cbn [orb]. unfold evutil_tv_to_msec_ in E.
      cbn [tv_sec tv_usec] in E. change MAX_SECONDS_IN_MSEC_LONG with 9223372036854774 in E.
      destruct (Z.ltb_spec 1000000 u); [lia|]. destruct (Z.ltb_spec 9223372036854774 s); cbn [orb] in E; [lia|].
      rewrite Z.quot_div_nonneg in E by lia. rewrite i64_small in E by lia. lia.
    + specialize (Hb E). set (t := evutil_tv_to_msec_ _) in *. clearbody t.
      destruct (Z.ltb_spec t 0), (Z.ltb_spec (35 * 60 * 1000) t); cbn [orb]; lia.
Qed.
End contract.

(** * The event base on top of epoll *)

Section stack.
Context {K B2 : Type} {SYS : EpollSys K} {SL : EpollLaws K} {SO : Sigop B2} {MA : MapAlloc}.
Context {CK : Clock} {CL : ClockLaws} {RA : Realloc}.
Abbreviation map := (event_map (epollop K) event_changelist_fdinfo B2).
Abbreviation base := (event_base map).
Context (U : list evid) (U_nodup : NoDup U) (U_small : zlen U < 2 ^ 31).
(** Callbacks of the program that respect the invariant. *)
Context (user : nat → evid → Z → prog base unit).
Context (user_safe : ∀ f e res (b : base), base_inv U b → wp (user f e res) (λ _ b', base_inv U b' ∧ loop_frame b b') b).
#[local] Instance env : Env map := epoll_env user.

Lemma epoll_init_list k flags g c ok1 ok2 cl k' ep :
  epoll_init k flags g c ok1 ok2 cl = (k', Some ep) → changelist ep = cl ∧ nevents ep = INITIAL_NEVENT.
Proof.
  unfold epoll_init. destruct (epoll_create1 k) as [k1 fd1]. destruct (if fd1 =? -1 then _ else _) as [k2 fd].
  destruct (fd =? -1); [done|]. destruct ok1, ok2; try done. cbn [negb].
  destruct (if _ && c then _ else _) as [k3 tfd]. by intros [= <- <-].
Qed.
Lemma epoll_map_empty ep (s : B2) :
  changelist ep = event_changelist_init_ → map_empty (EventMap [] [] ep s : map).
Proof.
  intros He. split.
  - split; [split; intros i c; by rewrite no_entry|]. split; cbn [evsel]; rewrite He; [|done].
    apply empty_ok; [done|]. intros i _. unfold fdinfo_of. cbn [io]. by rewrite no_entry.
  - split; intros i e; cbn [em_io em_sig evmap_laws]; [unfold events_of|unfold signals_of]; cbn [io sigmap];
      rewrite no_entry; set_solver.
Qed.

(** C10: the whole stack is safe: event base, map of descriptors, changelist and
    epoll.  On a new base with a new epoll backend, whatever the program does with
    allowed commands (the loop with its dispatches among them), whatever the
    kernel answers to system calls and whichever of them fail, no assertion of the
    library fails; and the library's own check of the changelist against the map
    ([event_changelist_assert_ok]) passes at every point. *)
Theorem epoll_stack_safe k flags g c ok1 ok2 k' ep s config disabled ops n a1 a2 (b0 b : base) cmd :
  epoll_init k flags g c ok1 ok2 event_changelist_init_ = (k', Some ep) →
  event_base_new_with_config config disabled ops (EventMap [] [] ep s) n a1 a2 = Some b0 →
  reachable U b0 b → allowed U b cmd →
  ∃ b', run cmd b = Some (tt, b') ∧ base_inv U b' ∧ event_changelist_assert_ok (evmap b') = Some tt.
Proof.
  intros Hinit Hnew Hr Hal. destruct (epoll_init_list _ _ _ _ _ _ _ _ _ Hinit) as [Hcl _].
  pose proof (epoll_env_laws U U_nodup U_small user user_safe) as HE.
  destruct (new_base_inv U _ _ _ _ _ _ _ _ (epoll_map_empty ep s Hcl) Hnew) as [Hb0 _].
  pose proof (reachable_good U U_nodup U_small _ _ Hb0 Hr) as Hb.
  pose proof (run_ok U U_nodup U_small b cmd Hb Hal) as W.
  unfold wp in W. destruct (run cmd b) as [[[] b']|]; [|done]. exists b'. split_and!; [done..|].
  apply assert_ok_holds. apply (vi_sel _ _ (mo_inv _ _ (ci_map (bv_core W)))).
Qed.
End stack.

(** * A concrete kernel *)

(** Registrations of one epoll descriptor; registered descriptors are always ready. *)
Abbreviation demo_kernel := (gmap Z Z).
Definition demo_ready_events (k : demo_kernel) : list (Z * Z) :=
  (λ p, (p.1, Z.land p.2 (Z.lor EPOLLIN EPOLLOUT))) <$> map_to_list k.
#[export] Instance demo_epoll : EpollSys demo_kernel := {|
  epoll_create1 k := (k, 3);
  epoll_create k := (k, 3);
  epoll_ctl k _ ctl fd ev :=
    if ctl =? EPOLL_CTL_ADD then match k !! fd with Some _ => (k, EEXIST) | None => (<[fd := ev]> k, 0) end
    else match k !! fd with
         | None => (k, ENOENT)
         | Some _ => if ctl =? EPOLL_CTL_DEL then (delete fd k, 0) else (<[fd := ev]> k, 0)
         end;
  epoll_wait k _ n _ := (k, if n <? 0 then inl EBADF else inr (take (Z.to_nat n) (demo_ready_events k)));
  timerfd_create k := (k, -1);
  timerfd_settime k _ _ _ := (k, 0);
  close k _ := k
|}.
#[export] Program Instance demo_epoll_laws : EpollLaws demo_kernel := {| registered k _ fd := k !! fd |}.
Next Obligation.
  intros k ep ctl fd ev i Hi. cbn [epoll_ctl demo_epoll]. destruct (ctl =? EPOLL_CTL_ADD), (k !! fd); try done; cbn [fst];
    [by rewrite lookup_insert_ne|]. destruct (ctl =? EPOLL_CTL_DEL); cbn [fst]; [by rewrite lookup_delete_ne|by rewrite lookup_insert_ne].
Qed.
Next Obligation.
  intros k ep ctl fd ev. cbn [epoll_ctl demo_epoll]. destruct (Z.eqb_spec ctl EPOLL_CTL_ADD) as [->|].
  { destruct (k !! fd) eqn:E; cbn; [done|]. by rewrite lookup_insert_eq. }
  destruct (k !! fd) eqn:E; [|done]. destruct (ctl =? EPOLL_CTL_DEL); cbn; [by rewrite lookup_delete_eq|by rewrite lookup_insert_eq].
Qed.
Next Obligation.
  intros k ep fd ev. cbn [epoll_ctl demo_epoll]. change (EPOLL_CTL_DEL =? EPOLL_CTL_ADD) with false. cbv iota.
  destruct (k !! fd); [|done]. cbn. rewrite !elem_of_cons. unfold ENOENT, EBADF, EPERM. intros [|[|[|]]]; done || set_solver.
Qed.
Next Obligation. done. Qed.
Next Obligation.
  intros k ep n timeout l. cbn [epoll_wait demo_epoll snd]. destruct (Z.ltb_spec n 0); [done|]. intros [= <-].
  unfold zlen. rewrite length_take. lia.
Qed.
Next Obligation. done. Qed.

Abbreviation epoll_map := (event_map (epollop demo_kernel) event_changelist_fdinfo unit).
Definition demo_epollop (cl : bool) (k : demo_kernel) : epollop demo_kernel :=
  Epollop cl event_changelist_init_ INITIAL_NEVENT 3 (-1) k.

(** Descriptor 7 was closed and opened again: it is not registered any more. *)
Lemma apply_change_registers_witness :
  let ch := EventChange 7 EV_READ 0 EV_CHANGE_ADD 0 in
  ∃ ep', epoll_apply_one_change (demo_epollop false ∅) ch = Some (ep', 0) ∧
    matches (kernel ep' !! 7) (Z.lor EV_READ EV_WRITE) ∧ kernel ep' !! 7 = Some (Z.lor EPOLLIN EPOLLOUT).
Proof.
  intros ch. assert (Hok : change_ok ch) by (by split).
  destruct (apply_change_registers (demo_epollop false ∅) ch Hok) as (ep' & r & E & _ & H & _).
  assert (Er : fst <$> epoll_apply_one_change (demo_epollop false ∅) ch =
    Some (set_kernel (<[7 := Z.lor EPOLLIN EPOLLOUT]> ∅) (demo_epollop false ∅))) by (vm_compute; reflexivity).
  assert (Er2 : snd <$> epoll_apply_one_change (demo_epollop false ∅) ch = Some 0) by (vm_compute; reflexivity).
  rewrite E in Er, Er2. cbn in Er, Er2. injection Er as Er. injection Er2 as Er2.
  exists ep'. split; [by rewrite E, Er2|]. split; [|by rewrite Er].
  apply (H Er2). intros Hq. exfalso. revert Hq. vm_compute. discriminate.
Defined.

(** A reader and a writer of descriptor 5; the reader is deleted before the
    changes are applied. *)
Definition demo_rw (e : evid) : Z := if decide (e = 1%nat) then EV_READ else EV_WRITE.
Definition demo_map0 : epoll_map := EventMap [] [] (demo_epollop true ∅) tt.
Definition map_after (o : option (epoll_map * Z)) : epoll_map := from_option fst demo_map0 o.
Definition demo_map1 : epoll_map := map_after (evmap_io_add_ demo_map0 5 1%nat (demo_rw 1%nat)).
Definition demo_map2 : epoll_map := map_after (evmap_io_add_ demo_map1 5 2%nat (demo_rw 2%nat)).
Definition demo_map3 : epoll_map := map_after (evmap_io_del_ demo_map2 5 1%nat (demo_rw 1%nat)).
Lemma demo_epoll_run : epoll_run demo_rw demo_map3.
Proof.
  apply (run_del _ demo_map2 5 1%nat _ 1); [|done|by apply (bool_decide_unpack _)|vm_compute; reflexivity|done].
  apply (run_add _ demo_map1 5 2%nat _ 1); [|done|by apply (bool_decide_unpack _)|vm_compute; reflexivity].
  apply (run_add _ demo_map0 5 1%nat _ 1); [|done|by apply (bool_decide_unpack _)|vm_compute; reflexivity].
  apply run_fresh. split_and!; try done.
Qed.
Lemma epoll_follows_map_witness :
  ∃ ep m', epoll_apply_changes (evsel demo_map3) = Some (ep, 0) ∧
    event_changelist_remove_all_ (set_evsel ep demo_map3) = Some m' ∧
    matches (kernel (evsel m') !! 5) EV_WRITE ∧ kernel ep !! 5 = Some EPOLLOUT.
Proof.
  destruct (epoll_follows_map demo_rw demo_map3 demo_epoll_run) as (_ & _ & ep & r & m' & E & E' & H).
  assert (Er : (λ p, (p.2, kernel p.1 !! 5)) <$> epoll_apply_changes (evsel demo_map3) = Some (0, Some EPOLLOUT))
    by (vm_compute; reflexivity).
  rewrite E in Er. cbn in Er. injection Er as Er Ek. exists ep, m'. rewrite <-Er. split; [exact E|]. split; [exact E'|].
  split; [|exact Ek]. assert (Hw : wanted demo_rw (events_of demo_map3 5) = EV_WRITE) by (vm_compute; reflexivity).
  rewrite <-Hw. apply (H Er 5). done.
Defined.
Lemma wait_timeout_exact_witness :
  wait_timeout (demo_epollop false ∅) (Some (TV 2 1)) = (demo_epollop false ∅, 2001).
Proof.
  rewrite (wait_timeout_exact (demo_epollop false ∅) (Some (TV 2 1))); [reflexivity|].
  intros t [= <-]. cbn. lia.
Defined.

(** A program on this backend: a reader of descriptor 5, whose callback deletes it. *)
Definition demo_user (f : nat) (e : evid) (res : Z) : prog (event_base epoll_map) unit := _ ← event_del e; mret tt.
Lemma demo_user_safe f e res (b : event_base epoll_map) :
  base_inv demo_events b → wp (demo_user f e res) (λ _ b', base_inv demo_events b' ∧ loop_frame b b') b.
Proof.
  intros Hb. unfold demo_user. wp_step. apply (wp_event_del demo_events demo_nodup); [done|].
  intros b' r Hb' Ha _ _ _ _ _ _. wp_step. split; [done|by apply (lf_api demo_events)].
Qed.
#[local] Existing Instance env.
Definition stack_new : option (event_base epoll_map) :=
  event_base_new_with_config None (λ _, false) [Backend "epoll" 0 true]
    (EventMap [] [] (demo_epollop false ∅) tt) (Notify false false false 0) true true.
Definition stack_base0 : event_base epoll_map :=
  default (Base ∅ demo_map0 (Counters 0 0 0 0 0) (Queues [[]] [] 0) (Timers min_heap_ctor_ [])
    (ClockState (TV 0 0) 0 (TV 0 0) 0 false) (Loop false false false 0 false None false)
    (Notify false false false 0) (dispatch_limits None)) stack_new.
Definition stack_run (c : command) (b : event_base epoll_map) : event_base epoll_map :=
  from_option snd b (run (EN := epoll_env demo_user) c b).
Definition stack_base1 : event_base epoll_map := stack_run (Assign 1%nat true 5 EV_READ (CbUser 0)) stack_base0.
Definition stack_base2 : event_base epoll_map := stack_run (Add 1%nat None) stack_base1.
Lemma stack_own (b : event_base epoll_map) : common_timeout_queues (tms b) = [] → own demo_events b 1%nat.
Proof.
  intros H. split; [demo_ev|]. intros i c Hc. rewrite H in Hc. by apply nothing_at in Hc.
Qed.
Lemma stack_reachable : reachable (EN := epoll_env demo_user) demo_events stack_base0 stack_base2.
Proof.
  apply (reachable_step _ _ stack_base1 (Add 1%nat None)); [|split; [split|]|vm_compute; reflexivity].
  - apply (reachable_step _ _ stack_base0 (Assign 1%nat true 5 EV_READ (CbUser 0)));
      [apply reachable_start|split; [split|split]|vm_compute; reflexivity].
    + apply stack_own. vm_compute. reflexivity.
    + by vm_compute.
    + done.
    + by left.
  - apply stack_own. vm_compute. reflexivity.
  - by vm_compute.
  - intros t Ht. discriminate.
Qed.
Lemma epoll_stack_safe_witness :
  ∃ b', run (EN := epoll_env demo_user) (RunLoop 20 0) stack_base2 = Some (tt, b') ∧
    event_changelist_assert_ok (evmap b') = Some tt.
Proof.
  destruct (epoll_stack_safe demo_events demo_nodup demo_small demo_user demo_user_safe ∅ 0 false false true true
    ∅ (demo_epollop false ∅) tt None (λ _, false) [Backend "epoll" 0 true] (Notify false false false 0) true true
    stack_base0 stack_base2 (RunLoop 20 0)) as (b' & E & _ & H).
  - vm_compute. reflexivity.
  - vm_compute. reflexivity.
  - exact stack_reachable.
  - exact I.
  - exists b'. split; [exact E|exact H].
Defined.
(** The loop ends because the callback of the reader has run. *)
Lemma stack_loop_ends :
  (λ p, event_count (cnt p.2)) <$> run (EN := epoll_env demo_user) (RunLoop 20 0) stack_base2 = Some 0.
Proof. vm_compute. reflexivity. Qed.
