(* ===== verification/Weakrand.v ===== *)
(** * Weak random numbers

    The generator of [src/evutil.c] with which [src/poll.c] chooses where to begin,
    and that [evutil_weakrand_range_] ends: the generator runs through all of its
    2^31 states, among them 0, so 2^31 rounds of the loop are enough. *)
From S2P Require Import Prelude.

(** [struct evutil_weakrand_state]: the seed, 32 bits. *)
Definition evutil_weakrand_state : Type := Z.
Definition EVUTIL_WEAKRAND_MAX : Z := INT_MAX.

Definition evutil_weakrand_ (seed : evutil_weakrand_state) : evutil_weakrand_state * Z :=
  let seed := Z.land (u32 (u32 (seed * 1103515245) + 12345)) 0x7fffffff in
  (seed, seed).

(** A loop of at most [n] rounds that ends with a result. *)
Fixpoint rounds {A R : Type} (step : A → A + R) (n : positive) (a : A) : A + R :=
  match n with
  | xH => step a
  | xO n => match rounds step n a with inl a => rounds step n a | inr r => inr r end
  | xI n =>
      match step a with
      | inl a => match rounds step n a with inl a => rounds step n a | inr r => inr r end
      | inr r => inr r
      end
  end.

Definition weakrand_round (divisor top : Z) (seed : evutil_weakrand_state)
  : evutil_weakrand_state + (evutil_weakrand_state * Z) :=
  let '(seed, x) := evutil_weakrand_ seed in
  let result := Z.quot x divisor in
  if top <=? result then inl seed else inr (seed, result).
(** [None] when the divisor is zero or the rounds do not suffice. *)
Definition evutil_weakrand_range_ (n : positive) (seed : evutil_weakrand_state) (top : Z)
  : option (evutil_weakrand_state * Z) :=
  let divisor := Z.quot EVUTIL_WEAKRAND_MAX top in
  if divisor =? 0 then None
  else match rounds (weakrand_round divisor top) n seed with inr r => Some r | inl _ => None end.

(** * A generator with its full period *)

Section generator.
Definition lcg (x : Z) : Z := x * 1103515245 + 12345.

Lemma lcg_power k :
  ∃ u v, ∀ x, Nat.iter (2 ^ k) lcg x = (1 + 4 * 2 ^ Z.of_nat k * u) * x + 2 ^ Z.of_nat k * (2 * v + 1).
Proof.
  induction k as [|k (u & v & IH)].
  - exists 275878811, 6172. intros x. unfold lcg. cbn. lia.
  - exists (u + 2 * 2 ^ Z.of_nat k * u * u), (v + 2 ^ Z.of_nat k * u * (2 * v + 1)). intros x.
    replace (2 ^ S k)%nat with (2 ^ k + 2 ^ k)%nat by (cbn; lia).
    rewrite Nat.iter_add, !IH. replace (2 ^ Z.of_nat (S k)) with (2 * 2 ^ Z.of_nat k).
    2: { rewrite Nat2Z.inj_succ, Z.pow_succ_r by lia. done. }
    ring.
Qed.

(** Every residue is reached. *)
Lemma lcg_reach k x y : ∃ n : nat, Z.of_nat n < 2 ^ Z.of_nat k ∧ (2 ^ Z.of_nat k | Nat.iter n lcg x - y).
Proof.
  revert x. induction k as [|k IH]; intros x.
  - exists 0%nat. split; [done|]. apply Z.divide_1_l.
  - destruct (IH x) as (n & Hn & d & Hd). destruct (lcg_power k) as (u & v & Hp).
    rewrite Nat2Z.inj_succ, Z.pow_succ_r by lia.
    destruct (Z.Even_or_Odd d) as [[e ->]|[e ->]].
    + exists n. split; [lia|]. exists e. rewrite Hd. ring.
    + exists (2 ^ k + n)%nat. split; [rewrite Nat2Z.inj_add, Nat2Z.inj_pow; lia|].
      rewrite Nat.iter_add, Hp.
      exists (e + 2 * u * Nat.iter n lcg x + v + 1).
      set (z := Nat.iter n lcg x) in *. replace z with (y + (2 * e + 1) * 2 ^ Z.of_nat k) at 1 by lia. lia.
Qed.

(** ** The loop over it *)

Definition next_seed (seed : Z) : Z := fst (evutil_weakrand_ seed).

Lemma mod_31_32 z : (z mod 2 ^ 32) mod 2 ^ 31 = z mod 2 ^ 31.
Proof. apply Z.mod_mod_divide. by exists 2. Qed.

Lemma lcg_mod x : lcg (x mod 2 ^ 31) mod 2 ^ 31 = lcg x mod 2 ^ 31.
Proof. unfold lcg. by rewrite <- Zplus_mod_idemp_l, Zmult_mod_idemp_l, Zplus_mod_idemp_l. Qed.

Lemma next_seed_lcg seed : next_seed seed = lcg seed mod 2 ^ 31.
Proof.
  unfold next_seed, evutil_weakrand_, lcg, u32. cbn [fst].
  change 0x7fffffff with (Z.ones 31). rewrite Z.land_ones by done.
  by rewrite Zplus_mod_idemp_l, mod_31_32.
Qed.

Lemma iter_seed n seed : Nat.iter (S n) next_seed seed = Nat.iter n lcg (next_seed seed) mod 2 ^ 31.
Proof.
  induction n as [|n IH].
  - cbn [Nat.iter nat_rect]. by rewrite next_seed_lcg, Z.mod_mod.
  - change (Nat.iter (S (S n)) next_seed seed) with (next_seed (Nat.iter (S n) next_seed seed)).
    rewrite IH, next_seed_lcg, lcg_mod. done.
Qed.

(** Every seed is followed by zero within 2^31 rounds. *)
Lemma zero_reached seed : ∃ n : nat, Z.of_nat n < 2 ^ 31 ∧ Nat.iter (S n) next_seed seed = 0.
Proof.
  destruct (lcg_reach 31 (next_seed seed) 0) as (n & Hn & Hd). exists n. split; [done|].
  rewrite iter_seed. rewrite Z.sub_0_r in Hd. by apply Z.mod_divide.
Qed.

Section bounded.
Context {A R : Type} (step : A → A + R).

Fixpoint nat_rounds (n : nat) (a : A) : A + R :=
  match n with
  | O => inl a
  | S n => match step a with inl a => nat_rounds n a | inr r => inr r end
  end.

Lemma nat_rounds_add n m a :
  nat_rounds (n + m) a = match nat_rounds n a with inl a => nat_rounds m a | inr r => inr r end.
Proof. revert a. induction n as [|n IH]; intros a; cbn; [done|]. destruct (step a); [apply IH|done]. Qed.

Lemma rounds_nat n a : rounds step n a = nat_rounds (Pos.to_nat n) a.
Proof.
  revert a. induction n as [n IH|n IH|]; intros a; cbn [rounds].
  - rewrite Pos2Nat.inj_xI. cbn [nat_rounds]. destruct (step a) as [b|]; [|done].
    replace (2 * Pos.to_nat n)%nat with (Pos.to_nat n + Pos.to_nat n)%nat by lia.
    rewrite nat_rounds_add, <- !IH. destruct (rounds step n b); [apply IH|done].
  - rewrite Pos2Nat.inj_xO. replace (2 * Pos.to_nat n)%nat with (Pos.to_nat n + Pos.to_nat n)%nat by lia.
    rewrite nat_rounds_add, <- !IH. destruct (rounds step n a); [apply IH|done].
  - change (Pos.to_nat 1) with 1%nat. cbn. by destruct (step a).
Qed.

(** The loop ends when a state that ends it is among the first [n]: with the
    result of the first such state. *)
Lemma nat_rounds_end f j n a :
  (∀ a a', step a = inl a' → a' = f a) → (j < n)%nat → (∀ a', step (Nat.iter j f a) ≠ inl a') →
  ∃ i r, (i <= j)%nat ∧ nat_rounds n a = inr r ∧ step (Nat.iter i f a) = inr r ∧
    ∀ k, (k < i)%nat → ∃ a', step (Nat.iter k f a) = inl a'.
Proof.
  intros Hf. revert n a. induction j as [|j IH]; intros [|n] a Hj Hne; try lia; cbn [nat_rounds].
  - destruct (step a) as [a'|r] eqn:E; [by destruct (Hne a')|]. exists 0%nat, r. split_and!; [lia|done|done|lia].
  - destruct (step a) as [a'|r] eqn:E; [|exists 0%nat, r; split_and!; [lia|done|done|lia]].
    pose proof (Hf _ _ E) as ->. destruct (IH n (f a)) as (i & r & Hi & Hr & Hs & Hk); [lia| |].
    { intros a'. rewrite <- Nat.iter_succ_r. apply Hne. }
    exists (S i), r. split; [lia|]. split; [done|]. split; [by rewrite Nat.iter_succ_r|].
    intros [|k] Hlt; [by exists (f a)|]. rewrite Nat.iter_succ_r. apply Hk. lia.
Qed.
End bounded.

Lemma evutil_weakrand_next seed : evutil_weakrand_ seed = (next_seed seed, next_seed seed).
Proof. done. Qed.

Lemma next_seed_range seed : 0 <= next_seed seed < 2 ^ 31.
Proof. rewrite next_seed_lcg. by apply Z.mod_pos_bound. Qed.

(** A number below [top] is found in at most 2^31 rounds, from the first seed that
    gives one. *)
Lemma weakrand_range_ok seed top : 0 < top <= EVUTIL_WEAKRAND_MAX →
  ∃ i r, evutil_weakrand_range_ (2 ^ 31) seed top = Some (Nat.iter (S i) next_seed seed, r) ∧
    Z.of_nat i < 2 ^ 31 ∧ 0 <= r < top ∧ r = Nat.iter (S i) next_seed seed ÷ (EVUTIL_WEAKRAND_MAX ÷ top) ∧
    ∀ k, (k < i)%nat → top <= Nat.iter (S k) next_seed seed ÷ (EVUTIL_WEAKRAND_MAX ÷ top).
Proof.
  intros Ht. unfold evutil_weakrand_range_. set (d := EVUTIL_WEAKRAND_MAX ÷ top).
  assert (Hd : 0 < d) by (unfold d; rewrite Z.quot_div_nonneg by lia; apply Z.div_str_pos; lia).
  destruct (zero_reached seed) as (j & Hj & Hz). destruct (Z.eqb_spec d 0) as [|_]; [lia|]. rewrite rounds_nat.
  assert (Hstep : ∀ a, weakrand_round d top a =
    if top <=? next_seed a ÷ d then inl (next_seed a) else inr (next_seed a, next_seed a ÷ d)).
  { intros a. unfold weakrand_round. by rewrite evutil_weakrand_next. }
  destruct (nat_rounds_end (weakrand_round d top) next_seed j (Pos.to_nat (2 ^ 31)) seed)
    as (i & r & Hi & -> & Hs & Hk).
  - intros a a'. rewrite Hstep. destruct (_ <=? _); [by intros [= <-]|done].
  - apply Nat2Z.inj_lt. rewrite positive_nat_Z. done.
  - intros a'. rewrite Hstep. change (next_seed (Nat.iter j next_seed seed)) with (Nat.iter (S j) next_seed seed).
    rewrite Hz, Z.quot_0_l by lia. destruct (Z.leb_spec top 0); [lia|done].
  - rewrite Hstep in Hs. change (next_seed (Nat.iter i next_seed seed)) with (Nat.iter (S i) next_seed seed) in Hs.
    destruct (Z.leb_spec top (Nat.iter (S i) next_seed seed ÷ d)) as [|Hlt]; [done|]. injection Hs as <-.
    exists i, (Nat.iter (S i) next_seed seed ÷ d). split; [done|]. split; [lia|].
    split; [split; [|done]; apply Z.quot_pos; [apply next_seed_range|lia]|]. split; [done|].
    intros k Hlt'. destruct (Hk k Hlt') as [a' Ha]. rewrite Hstep in Ha.
    change (next_seed (Nat.iter k next_seed seed)) with (Nat.iter (S k) next_seed seed) in Ha.
    destruct (Z.leb_spec top (Nat.iter (S k) next_seed seed ÷ d)); done.
Qed.
End generator.

(** * The set of descriptors *)

