(* ===== verification/PollDefs.v ===== *)
(** * The backend on poll

    [src/poll.c].  The set of descriptors is an array with a capacity of which the first
    [nfds] entries are used; the fdinfo of a descriptor in the map is the index of
    its entry plus one.  [poll_del] moves the last entry to the place of a removed
    one and changes the fdinfo of that other descriptor, so the fdinfos are a store
    here.  The kernel is a parameter of class [PollSys]. *)
From S2P Require Import Prelude Timeval MinHeap EventDefs EventApi EventLoop EvmapDefs Weakrand.

(** * The backend *)

Definition POLLIN : Z := 0x001.
Definition POLLOUT : Z := 0x004.
Definition POLLERR : Z := 0x008.
Definition POLLHUP : Z := 0x010.
Definition POLLNVAL : Z := 0x020.
Definition POLLRDHUP : Z := 0x2000.
Definition sizeof_pollfd : Z := 8.

Record pollfd := Pollfd { pfd_fd : Z; pfd_events : Z; pfd_revents : Z }.

(** [event_set] has [event_count] entries, [event_set_copy] what was last
    allocated for it. *)
Record pollop := Pollop {
  event_count : Z; nfds : Z; realloc_copy : bool; event_set : list pollfd; event_set_copy : list pollfd
}.
(** The backend with the fdinfos ([idxplus1]) of the descriptors in the map. *)
Record poll_state := PollState { pop : pollop; fdinfo : gmap Z Z }.

(** The result of the system call: an error, or the entries with [revents] set and
    their number.  [junk] is what new memory contains. *)
Class PollSys (K : Type) := { poll_call : K → list pollfd → Z → K * (Z + (Z * list pollfd)) }.
Class PollMem := { poll_realloc : Z → bool; junk : pollfd }.

Definition set_events (v : Z) (p : pollfd) : pollfd := Pollfd (pfd_fd p) v (pfd_revents p).
Definition set_revents (v : Z) (p : pollfd) : pollfd := Pollfd (pfd_fd p) (pfd_events p) v.
(** [mm_realloc] of an array to [n] entries; the size in bytes is a [size_t]. *)
Definition resize {PM : PollMem} (l : list pollfd) (n : Z) : option (list pollfd) :=
  if poll_realloc (u64 (n * sizeof_pollfd)) then Some (ztake n l ++ zrepeat junk (n - zlen l)) else None.

Definition poll_init (allocated : bool) : option pollop :=
  if allocated then Some (Pollop 0 0 false [] []) else None.

Section poll.
Context {PM : PollMem}.
Implicit Types (p : pollop) (s : poll_state).

(** The kinds of [events] as conditions of poll. *)
Definition poll_mask (events : Z) : Z :=
  Z.lor (Z.lor (if has events EV_WRITE then POLLOUT else 0) (if has events EV_READ then POLLIN else 0))
    (if has events EV_CLOSED then POLLRDHUP else 0).

Definition poll_grow p : option pollop :=
  if event_count p <=? nfds p + 1 then
    let tmp_event_count := if event_count p <? 32 then 32 else i32 (event_count p * 2) in
    set ← resize (event_set p) tmp_event_count;
    Some (Pollop tmp_event_count (nfds p) true set (event_set_copy p))
  else Some p.

(** The outer [None]: a failed assertion, or outside an array. *)
Definition poll_add s (fd events : Z) : option (poll_state * Z) :=
  if has events EV_SIGNAL then None
  else if negb (has events (Z.lor (Z.lor EV_READ EV_WRITE) EV_CLOSED)) then Some (s, 0)
  else
    match poll_grow (pop s) with
    | None => Some (s, -1)
    | Some p =>
        idx ← fdinfo s !! fd;
        let i := idx - 1 in
        '(p, i, info) ←
          (if 0 <=? i then Some (p, i, fdinfo s)
           else
             let i := nfds p in
             pfd ← zget (event_set p) i;
             set ← zset (event_set p) i (Pollfd fd 0 (pfd_revents pfd));
             Some (Pollop (event_count p) (nfds p + 1) (realloc_copy p) set (event_set_copy p), i, <[fd := i + 1]> (fdinfo s)));
        pfd ← zget (event_set p) i;
        set ← zset (event_set p) i (Pollfd (pfd_fd pfd) (Z.lor (pfd_events pfd) (poll_mask events)) 0);
        Some (PollState (Pollop (event_count p) (nfds p) (realloc_copy p) set (event_set_copy p)) info, 0)
    end.

Definition poll_del s (fd events : Z) : option (poll_state * Z) :=
  if has events EV_SIGNAL then None
  else if negb (has events (Z.lor (Z.lor EV_READ EV_WRITE) EV_CLOSED)) then Some (s, 0)
  else
    idx ← fdinfo s !! fd;
    let p := pop s in
    let i := idx - 1 in
    if i <? 0 then Some (s, -1)
    else
      pfd ← zget (event_set p) i;
      let events := Z.land (pfd_events pfd) (Z.lnot (poll_mask events)) in
      set ← zset (event_set p) i (set_events events pfd);
      let p := Pollop (event_count p) (nfds p) (realloc_copy p) set (event_set_copy p) in
      if negb (events =? 0) then Some (PollState p (fdinfo s), 0)
      else
        let info := <[fd := 0]> (fdinfo s) in
        let n := nfds p - 1 in
        let p := Pollop (event_count p) n (realloc_copy p) (event_set p) (event_set_copy p) in
        if i =? n then Some (PollState p info, 0)
        else
          last ← zget (event_set p) n;
          set ← zset (event_set p) i last;
          idx ← info !! pfd_fd last;
          if negb (idx =? n + 1) then None
          else Some (PollState (Pollop (event_count p) n (realloc_copy p) set (event_set_copy p)) (<[pfd_fd last := i + 1]> info), 0).

(** ** Dispatching *)

(** The array that is given to the kernel: a copy when other threads may run.
    [None] for -1. *)
Definition poll_set (threads : bool) p : option (option pollop) :=
  if threads then
    match (if realloc_copy p then copy ← resize (event_set_copy p) (event_count p); Some (copy, false)
           else Some (event_set_copy p, realloc_copy p)) with
    | None => Some None
    | Some (copy, again) =>
        if zlen copy <? nfds p then None
        else Some (Some (Pollop (event_count p) (nfds p) again (event_set p) (ztake (nfds p) (event_set p) ++ zdrop (nfds p) copy)))
    end
  else Some (Some p).

Definition poll_msec (tv : option timeval) : Z :=
  match tv with
  | None => -1
  | Some tv =>
      let msec := evutil_tv_to_msec_ tv in
      if (msec <? 0) || (INT_MAX <? msec) then INT_MAX else msec
  end.

(** What an entry reports: the events, 0 for nothing. *)
Definition poll_res (what : Z) : Z :=
  let what := if has what (Z.lor (Z.lor POLLHUP POLLERR) POLLNVAL) then Z.lor what (Z.lor POLLIN POLLOUT) else what in
  Z.lor (Z.lor (if has what POLLIN then EV_READ else 0) (if has what POLLOUT then EV_WRITE else 0))
    (if has what POLLRDHUP then EV_CLOSED else 0).

(** The loop over the entries: the calls of [evmap_io_active_] in order. *)
Fixpoint poll_loop (n : nat) (nfds i : Z) (set : list pollfd) : option (list (Z * Z)) :=
  match n with
  | O => Some []
  | S n =>
      let i := if i + 1 =? nfds then 0 else i + 1 in
      pfd ← zget set i;
      rest ← poll_loop n nfds i set;
      let res := poll_res (pfd_revents pfd) in
      Some (if (pfd_revents pfd =? 0) || (res =? 0) then rest else (pfd_fd pfd, res) :: rest)
  end.

Context {K : Type} {SYS : PollSys K}.

(** [poll_dispatch] without its calls of [evmap_io_active_]: the states, what it
    calls it with and the result. *)
Definition poll_collect (threads : bool) (n : positive) (seed : evutil_weakrand_state) (k : K) p (tv : option timeval)
  : option (K * pollop * evutil_weakrand_state * list (Z * Z) * Z) :=
  q ← poll_set threads p;
  match q with
  | None => Some (k, p, seed, [], -1)
  | Some p =>
      let set := if threads then event_set_copy p else event_set p in
      match poll_call k (ztake (nfds p) set) (poll_msec tv) with
      | (k, inl errno) => Some (k, p, seed, [], if errno =? 4 (* EINTR *) then 0 else -1)
      | (k, inr (res, used)) =>
          let set := used ++ zdrop (nfds p) set in
          let p := Pollop (event_count p) (nfds p) (realloc_copy p)
                     (if threads then event_set p else set) (if threads then set else event_set_copy p) in
          if (res =? 0) || (nfds p =? 0) then Some (k, p, seed, [], 0)
          else
            '(seed, i) ← evutil_weakrand_range_ n seed (nfds p);
            reports ← poll_loop (Z.to_nat (nfds p)) (nfds p) i set;
            Some (k, p, seed, reports, 0)
      end
  end.
End poll.

(** ** The backend of a base *)

(** With the seed of the base and the kernel. *)
Record poll_base (K : Type) := PollBase { store : poll_state; weakrand_seed : evutil_weakrand_state; kernel : K }.
Arguments PollBase {K}. Arguments store {K}. Arguments weakrand_seed {K}. Arguments kernel {K}.

Definition set_store {K} (s : poll_state) (b : poll_base K) : poll_base K := PollBase s (weakrand_seed b) (kernel b).
(** The map has allocated the fdinfo of [fd], zero at first. *)
Definition known_fd (fd : Z) (s : poll_state) : poll_state :=
  match fdinfo s !! fd with Some _ => s | None => PollState (pop s) (<[fd := 0]> (fdinfo s)) end.

Section base.
Context {PM : PollMem} {K B2 : Type} {SYS : PollSys K} {SO : Sigop B2} {MA : MapAlloc} {CK : Clock} {RA : Realloc}.

(** The fdinfos are in the store of the backend, none is in the map. *)
#[export] Instance pollops : Eventop (poll_base K) unit := {|
  fdinfo_zero := tt;
  op_add b fd old ev _ := '(s, r) ← poll_add (known_fd fd (store b)) fd ev; Some (set_store s b, tt, r);
  op_del b fd old ev _ := '(s, r) ← poll_del (known_fd fd (store b)) fd ev; Some (set_store s b, tt, r)
|}.

Abbreviation map := (event_map (poll_base K) unit B2).
Abbreviation base := (event_base map).

Fixpoint report_all (l : list (Z * Z)) : prog base unit :=
  match l with
  | [] => mret tt
  | (fd, res) :: l => _ ← evmap_io_active_ fd res; report_all l
  end.

(** [threads]: the base has a lock. *)
Definition poll_dispatch (threads : bool) (tv : option timeval) : prog base Z :=
  b ← get_state;
  let pb := evsel (evmap b) in
  '(k, p, seed, reports, r) ← deref (poll_collect threads (2 ^ 31) (weakrand_seed pb) (kernel pb) (pop (store pb)) tv);
  _ ← put_state (set_map (set_evsel (PollBase (PollState p (fdinfo (store pb))) seed k) (evmap b)) b);
  _ ← report_all reports;
  mret r.
End base.
