(* ===== verification/Poll.v ===== *)
(** * The poll backend keeps its set of descriptors

    The array of [src/poll.c] with the fdinfos is a map from descriptors to the
    conditions they wait for: every operation keeps the two inverse to one another,
    and [poll_collect] reports each entry that came true once. *)
From S2P Require Import Prelude Timeval MinHeap EventDefs EventApi EventLoop EventInv EvmapDefs Evmap Weakrand PollDefs.

(** [realloc] cannot make an object larger than [PTRDIFF_MAX]. *)
Class PollMemLaws {PM : PollMem} := { realloc_max n : poll_realloc n = true → n <= EV_SSIZE_MAX }.

Section poll.
Context {PM : PollMem} {PML : PollMemLaws}.
Implicit Types (p : pollop) (s : poll_state).

(** What a descriptor waits for: nothing when it has no entry. *)
Definition waits s (fd : Z) : Z :=
  match fdinfo s !! fd with
  | None => 0
  | Some idx =>
      if idx <=? 0 then 0
      else match zget (event_set (pop s)) (idx - 1) with Some pfd => pfd_events pfd | None => 0 end
  end.

(** The used entries of the array and the fdinfos are inverse to one another. *)
Record poll_inv s : Prop := {
  pi_count : 0 <= nfds (pop s) <= event_count (pop s) ∧ event_count (pop s) <= INT_MAX;
  pi_len : zlen (event_set (pop s)) = event_count (pop s);
  pi_size : event_count (pop s) = 0 ∨ 32 <= event_count (pop s);
  pi_entry : ∀ i pfd, 0 <= i < nfds (pop s) → zget (event_set (pop s)) i = Some pfd →
    fdinfo s !! pfd_fd pfd = Some (i + 1) ∧ pfd_events pfd ≠ 0;
  pi_info : ∀ fd n, fdinfo s !! fd = Some n →
    0 <= n <= nfds (pop s) ∧ (0 < n → ∃ pfd, zget (event_set (pop s)) (n - 1) = Some pfd ∧ pfd_fd pfd = fd);
  pi_copy : realloc_copy (pop s) = false → zlen (event_set_copy (pop s)) = event_count (pop s)
}.

Definition put_entry s (i : Z) (pfd : pollfd) : poll_state :=
  let p := pop s in
  PollState (Pollop (event_count p) (nfds p) (realloc_copy p) (<[Z.to_nat i := pfd]> (event_set p)) (event_set_copy p))
    (fdinfo s).
(** The first unused entry becomes used. *)
Definition append_entry s (pfd : pollfd) : poll_state :=
  let p := pop s in
  PollState (Pollop (event_count p) (nfds p + 1) (realloc_copy p)
               (<[Z.to_nat (nfds p) := pfd]> (event_set p)) (event_set_copy p))
    (<[pfd_fd pfd := nfds p + 1]> (fdinfo s)).

Lemma waits_entry s i pfd :
  poll_inv s → 0 <= i < nfds (pop s) → zget (event_set (pop s)) i = Some pfd →
  waits s (pfd_fd pfd) = pfd_events pfd.
Proof.
  intros H Hi E. destruct (pi_entry s H i pfd Hi E) as [Hf _]. unfold waits. rewrite Hf.
  destruct (Z.leb_spec (i + 1) 0); [lia|]. by rewrite Z.add_simpl_r, E.
Qed.

(** A descriptor with an interest is that of one entry. *)
Lemma waits_used s fd : poll_inv s → waits s fd ≠ 0 →
  ∃ i pfd, 0 <= i < nfds (pop s) ∧ zget (event_set (pop s)) i = Some pfd ∧ pfd_fd pfd = fd ∧ pfd_events pfd = waits s fd.
Proof.
  intros H. unfold waits. destruct (fdinfo s !! fd) as [n|] eqn:Ef; [|done].
  destruct (Z.leb_spec n 0); [done|]. intros _. destruct (pi_info s H fd n Ef) as [Hn Hp].
  destruct Hp as (pfd & E & Hfd); [lia|]. rewrite E. exists (n - 1), pfd. repeat split; (done || lia).
Qed.

Lemma put_entry_inv s i pfd pfd' :
  poll_inv s → 0 <= i < nfds (pop s) → zget (event_set (pop s)) i = Some pfd →
  pfd_fd pfd' = pfd_fd pfd → pfd_events pfd' ≠ 0 → poll_inv (put_entry s i pfd').
Proof.
  intros H Hi E Hf Hn. pose proof (pi_count s H) as Hc. pose proof (pi_len s H) as Hl.
  split; cbn [put_entry pop fdinfo event_count nfds realloc_copy event_set event_set_copy].
  - done.
  - by rewrite zlen_insert.
  - apply H.
  - intros j q Hj. rewrite zget_insert by lia. destruct (decide (i = j)) as [->|Hne].
    + intros [= <-]. rewrite Hf. split; [|done]. apply (pi_entry s H j pfd Hi E).
    + apply (pi_entry s H j q Hj).
  - intros fd n Hfd. destruct (pi_info s H fd n Hfd) as [Hr Hp]. split; [done|]. intros Hpos.
    destruct (Hp Hpos) as (q & Hq & Hqf). rewrite zget_insert by lia.
    destruct (decide (i = n - 1)) as [->|]; [exists pfd'|by exists q].
    split; [done|]. rewrite Hf. congruence.
  - apply H.
Qed.

Lemma put_entry_waits s i pfd pfd' fd :
  poll_inv s → 0 <= i < nfds (pop s) → zget (event_set (pop s)) i = Some pfd → pfd_fd pfd' = pfd_fd pfd →
  waits (put_entry s i pfd') fd = if decide (fd = pfd_fd pfd) then pfd_events pfd' else waits s fd.
Proof.
  intros H Hi E Hf. pose proof (pi_count s H) as Hc. pose proof (pi_len s H) as Hl. destruct (pi_entry s H i pfd Hi E) as [Hx _].
  unfold waits. cbn [put_entry pop fdinfo event_set]. destruct (decide (fd = pfd_fd pfd)) as [->|Hne].
  - rewrite Hx. destruct (Z.leb_spec (i + 1) 0); [lia|]. rewrite Z.add_simpl_r, zget_insert by lia. by rewrite decide_True.
  - destruct (fdinfo s !! fd) as [n|] eqn:En; [|done]. destruct (Z.leb_spec n 0); [done|].
    rewrite zget_insert by lia. rewrite decide_False; [done|]. intros ->.
    destruct (pi_info s H fd n En) as [_ Hp]. destruct Hp as (q & Hq & Hqf); [lia|]. congruence.
Qed.

Lemma append_entry_inv s pfd :
  poll_inv s → nfds (pop s) < event_count (pop s) → fdinfo s !! pfd_fd pfd = Some 0 → pfd_events pfd ≠ 0 →
  poll_inv (append_entry s pfd).
Proof.
  intros H Hlt Hf Hn. pose proof (pi_count s H) as Hc. pose proof (pi_len s H) as Hl.
  split; cbn [append_entry pop fdinfo event_count nfds realloc_copy event_set event_set_copy].
  - lia.
  - by rewrite zlen_insert.
  - apply H.
  - intros j q Hj. rewrite zget_insert by lia. destruct (decide (nfds (pop s) = j)) as [<-|Hne].
    + intros [= <-]. by rewrite lookup_insert_eq.
    + intros Hq. destruct (pi_entry s H j q ltac:(lia) Hq) as [Hi Hev]. split; [|done].
      rewrite lookup_insert_ne; [done|]. intros Heq. rewrite Heq in Hf. rewrite Hf in Hi. injection Hi. lia.
  - intros fd n. destruct (decide (fd = pfd_fd pfd)) as [->|Hne].
    + rewrite lookup_insert_eq. intros [= <-]. split; [lia|]. intros _. exists pfd.
      rewrite zget_insert by lia. rewrite decide_True by lia. done.
    + rewrite lookup_insert_ne by done. intros Hfd. destruct (pi_info s H fd n Hfd) as [Hr Hp]. split; [lia|].
      intros Hpos. destruct (Hp Hpos) as (q & Hq & Hqf). exists q. split; [|done].
      rewrite zget_insert by lia. rewrite decide_False by lia. done.
  - apply H.
Qed.

Lemma append_entry_waits s pfd fd :
  poll_inv s → nfds (pop s) < event_count (pop s) →
  waits (append_entry s pfd) fd = if decide (fd = pfd_fd pfd) then pfd_events pfd else waits s fd.
Proof.
  intros H Hlt. pose proof (pi_count s H) as Hc. pose proof (pi_len s H) as Hl.
  unfold waits. cbn [append_entry pop fdinfo event_set]. destruct (decide (fd = pfd_fd pfd)) as [->|Hne].
  - rewrite lookup_insert_eq. destruct (Z.leb_spec (nfds (pop s) + 1) 0); [lia|]. rewrite Z.add_simpl_r, zget_insert by lia.
    by rewrite decide_True.
  - rewrite lookup_insert_ne by done. destruct (fdinfo s !! fd) as [n|] eqn:En; [|done]. destruct (Z.leb_spec n 0); [done|].
    destruct (pi_info s H fd n En) as [Hr _]. rewrite zget_insert by lia. by rewrite decide_False by lia.
Qed.

(** An entry is removed: the last one takes its place. *)
Lemma remove_entry_inv s s' i pfd last :
  let n := nfds (pop s) - 1 in
  poll_inv s → 0 <= i <= n → zget (event_set (pop s)) i = Some pfd → zget (event_set (pop s)) n = Some last →
  nfds (pop s') = n → event_count (pop s') = event_count (pop s) →
  realloc_copy (pop s') = realloc_copy (pop s) → event_set_copy (pop s') = event_set_copy (pop s) →
  zlen (event_set (pop s')) = zlen (event_set (pop s)) →
  (∀ j, 0 <= j < n → zget (event_set (pop s')) j = if decide (j = i) then Some last else zget (event_set (pop s)) j) →
  (∀ x, fdinfo s' !! x = if decide (x = pfd_fd pfd) then Some 0 else if decide (x = pfd_fd last) then Some (i + 1) else fdinfo s !! x) →
  poll_inv s' ∧ ∀ fd, waits s' fd = if decide (fd = pfd_fd pfd) then 0 else waits s fd.
Proof.
  intros n H Hi E El Hn Hc Hr Hcp Hlen Hset Hinfo.
  pose proof (pi_count s H) as Hcnt.
  destruct (pi_entry s H i pfd ltac:(lia) E) as [Hf _]. destruct (pi_entry s H n last ltac:(lia) El) as [Hfl Hel].
  (* an entry stays where it was unless it was the last *)
  assert (Hother : ∀ x k, x ≠ pfd_fd pfd → x ≠ pfd_fd last → fdinfo s !! x = Some k → 0 < k →
            0 <= k - 1 < n ∧ k - 1 ≠ i ∧ ∃ q, zget (event_set (pop s)) (k - 1) = Some q ∧ pfd_fd q = x).
  { intros x k Hx Hxl Hk Hpos. destruct (pi_info s H x k Hk) as [Hr' Hp]. destruct (Hp Hpos) as (q & Hq & Hqf).
    assert (k - 1 ≠ i) by (intros Hki; rewrite Hki in Hq; congruence).
    assert (k - 1 ≠ n) by (intros Hki; rewrite Hki in Hq; congruence).
    split; [unfold n in *; lia|]. split; [done|]. by exists q. }
  (* the last entry moves unless it is the one removed *)
  assert (Hmoved : pfd_fd last ≠ pfd_fd pfd → i < n).
  { intros Hx. destruct (decide (i = n)) as [Hin|]; [|lia]. rewrite Hin in E. congruence. }
  split.
  - split; rewrite ?Hn, ?Hc, ?Hr, ?Hcp, ?Hlen; try apply H; [unfold n in *; lia| |].
    + intros j q Hj. rewrite Hset by done. destruct (decide (j = i)) as [->|Hji].
      * intros [= <-]. rewrite Hinfo. assert (pfd_fd last ≠ pfd_fd pfd) as Hx.
        { intros Hx. rewrite Hx, Hf in Hfl. injection Hfl. unfold n in *. lia. }
        rewrite decide_False by done. by rewrite decide_True.
      * intros Hq. destruct (pi_entry s H j q ltac:(unfold n in *; lia) Hq) as [Hqf Hqe]. split; [|done].
        rewrite Hinfo. rewrite decide_False; [rewrite decide_False; [done|]|]; intros Heq; rewrite Heq in Hqf.
        -- rewrite Hqf in Hfl. injection Hfl. lia.
        -- rewrite Hqf in Hf. injection Hf. lia.
    + intros x k. rewrite Hinfo. destruct (decide (x = pfd_fd pfd)) as [->|Hx]; [intros [= <-]; lia|].
      destruct (decide (x = pfd_fd last)) as [->|Hxl].
      * intros [= <-]. specialize (Hmoved Hx). split; [lia|]. intros _. exists last. rewrite Z.add_simpl_r, Hset by lia.
        by rewrite decide_True.
      * intros Hk. destruct (decide (0 < k)) as [Hpos|Hneg].
        -- destruct (Hother x k Hx Hxl Hk Hpos) as (Hr' & Hki & q & Hq & Hqf). split; [lia|]. intros _. exists q.
           rewrite Hset by lia. by rewrite decide_False.
        -- destruct (pi_info s H x k Hk) as [Hr' _]. split; lia.
  - intros x. unfold waits at 1. rewrite Hinfo. destruct (decide (x = pfd_fd pfd)) as [->|Hx]; [done|].
    destruct (decide (x = pfd_fd last)) as [->|Hxl].
    + specialize (Hmoved Hx). destruct (Z.leb_spec (i + 1) 0); [lia|]. rewrite Z.add_simpl_r, Hset by lia. rewrite decide_True by done.
      symmetry. apply (waits_entry s n); [done|unfold n in *; lia|done].
    + unfold waits. destruct (fdinfo s !! x) as [k|] eqn:Ek; [|done]. destruct (Z.leb_spec k 0); [done|].
      destruct (Hother x k Hx Hxl Ek ltac:(lia)) as (Hr' & Hki & _). rewrite Hset by lia. by rewrite decide_False.
Qed.

(** ** The operations *)

Lemma poll_mask_nonzero events :
  has events (Z.lor (Z.lor EV_READ EV_WRITE) EV_CLOSED) = true → poll_mask events ≠ 0.
Proof.
  rewrite !has_lor_r. unfold poll_mask. destruct (has events EV_READ), (has events EV_WRITE), (has events EV_CLOSED); done.
Qed.

(** A capacity that does not fit an [int] is not allocated. *)
Lemma grow_fits c : 32 <= c <= INT_MAX → poll_realloc (u64 (i32 (c * 2) * sizeof_pollfd)) = true →
  i32 (c * 2) = c * 2 ∧ c * 2 <= INT_MAX.
Proof.
  intros Hc Hr%realloc_max. unfold INT_MAX, EV_SSIZE_MAX, sizeof_pollfd in *.
  destruct (decide (c * 2 < 2 ^ 31)) as [Hlt|Hge]; [split; [apply i32_small|]; lia|]. exfalso. revert Hr.
  assert (i32 (c * 2) = c * 2 - 2 ^ 32) as ->.
  { unfold i32, swrap. rewrite <- (Z_mod_plus_full _ (-1)). rewrite Z.mod_small; lia. }
  unfold u64. rewrite <- (Z_mod_plus_full _ 1), Z.mod_small; lia.
Qed.

Lemma poll_grow_ok s p :
  poll_inv s → poll_grow (pop s) = Some p →
  poll_inv (PollState p (fdinfo s)) ∧ nfds p = nfds (pop s) ∧ nfds p < event_count p ∧
  ∀ fd, waits (PollState p (fdinfo s)) fd = waits s fd.
Proof.
  intros H. pose proof (pi_count s H) as Hc. pose proof (pi_len s H) as Hl. pose proof (pi_size s H) as Hz.
  unfold poll_grow. destruct (Z.leb_spec (event_count (pop s)) (nfds (pop s) + 1)) as [|Hlt].
  2: { intros Hp. injection Hp as <-. replace (PollState (pop s) (fdinfo s)) with s by by destruct s. split; [done|]. split; [done|]. split; [lia|done]. }
  unfold resize. destruct (poll_realloc _) eqn:Er; [|done]. cbn [mbind option_bind].
  set (c := if event_count (pop s) <? 32 then 32 else i32 (event_count (pop s) * 2)) in *.
  assert (Hcc : event_count (pop s) <= c <= INT_MAX ∧ 32 <= c ∧ nfds (pop s) < c).
  { unfold c in *. destruct (Z.ltb_spec (event_count (pop s)) 32); [unfold INT_MAX; lia|].
    destruct (grow_fits (event_count (pop s))) as [-> ?]; [lia..|done|lia]. }
  intros [= <-]. rewrite ztake_all by lia.
  set (set' := event_set (pop s) ++ zrepeat junk (c - zlen (event_set (pop s)))).
  assert (Hget : ∀ j, j < nfds (pop s) → zget set' j = zget (event_set (pop s)) j).
  { intros j Hj. unfold set'. apply zget_app_l. lia. }
  split; [split|split; [done|]]; cbn [pop fdinfo event_count nfds realloc_copy event_set event_set_copy].
  - lia.
  - unfold set'. rewrite zlen_app, zlen_zrepeat; lia.
  - lia.
  - intros i pfd Hi. rewrite Hget by lia. by apply H.
  - intros fd n Hfd. destruct (pi_info s H fd n Hfd) as [Hr Hp]. split; [done|]. intros Hpos. rewrite Hget by lia. by apply Hp.
  - done.
  - split; [lia|]. intros fd. unfold waits. cbn [pop fdinfo event_set]. destruct (fdinfo s !! fd) as [n|] eqn:En; [|done].
    destruct (Z.leb_spec n 0); [done|]. destruct (pi_info s H fd n En) as [Hr _]. by rewrite Hget by lia.
Qed.

(** The conditions of [events] are added to what the descriptor waits for; only
    for want of memory does the operation fail, and then nothing changes. *)
Lemma poll_add_ok s fd events :
  poll_inv s → is_Some (fdinfo s !! fd) → has events EV_SIGNAL = false →
  ∃ s' r, poll_add s fd events = Some (s', r) ∧ poll_inv s' ∧ dom (fdinfo s') = dom (fdinfo s) ∧
    ((r = -1 ∧ s' = s) ∨
     (r = 0 ∧ ∀ x, waits s' x = if decide (x = fd) then Z.lor (waits s fd) (poll_mask events) else waits s x)).
Proof.
  intros H Hfd Hs. unfold poll_add. rewrite Hs.
  destruct (has events (Z.lor (Z.lor EV_READ EV_WRITE) EV_CLOSED)) eqn:Ew; cbn [negb].
  2: { exists s, 0. split; [done|]. split; [done|]. split; [done|]. right. split; [done|]. intros x.
       revert Ew. rewrite !has_lor_r. unfold poll_mask. rewrite !orb_false_iff. intros [[-> ->] ->].
       change (Z.lor (Z.lor 0 0) 0) with 0. rewrite Z.lor_0_r. destruct (decide (x = fd)) as [->|]; done. }
  destruct (poll_grow (pop s)) as [p|] eqn:Eg; [|exists s, (-1); auto 6].
  destruct (poll_grow_ok s p H Eg) as (Hg & Hn & Hlt & Hint). set (g := PollState p (fdinfo s)) in *.
  destruct Hfd as [idx Ei]. rewrite Ei. cbn [mbind option_bind].
  pose proof (pi_len g Hg) as Hl. pose proof (pi_count g Hg) as Hc. cbn [g pop] in Hl, Hc.
  pose proof (poll_mask_nonzero events Ew) as Hm. destruct (pi_info g Hg fd idx Ei) as [Hr Hp].
  destruct (Z.leb_spec 0 (idx - 1)); cbn [mbind option_bind].
  - destruct Hp as (pfd & E & <-); [lia|]. cbn [g pop] in E, Hr.
    rewrite E. cbn [mbind option_bind]. rewrite zset_in_range by lia. cbn [mbind option_bind].
    set (pfd' := Pollfd _ _ _). exists (put_entry g (idx - 1) pfd'), 0.
    assert (Hnz : pfd_events pfd' ≠ 0) by (cbn; rewrite Z.lor_eq_0_iff; tauto).
    split; [done|]. split; [by apply (put_entry_inv g (idx - 1) pfd); [|cbn; lia| | |]|]. split; [done|].
    right. split; [done|]. intros x. rewrite (put_entry_waits g (idx - 1) pfd) by (done || (cbn; lia)).
    rewrite <- !Hint, (waits_entry g (idx - 1) pfd) by (done || (cbn; lia)). done.
  - assert (idx = 0) as -> by lia. destruct (zget_in_range (event_set p) (nfds p)) as [old Eo]; [lia|].
    rewrite Eo. cbn [mbind option_bind]. rewrite zset_in_range by lia. cbn [mbind option_bind event_set nfds event_count realloc_copy event_set_copy].
    rewrite zget_insert by lia. rewrite decide_True by done. cbn [mbind option_bind pfd_fd pfd_events].
    rewrite zset_in_range by (rewrite zlen_insert; lia). cbn [mbind option_bind]. rewrite list_insert_insert_eq, Z.lor_0_l.
    set (pfd' := Pollfd fd (poll_mask events) 0). exists (append_entry g pfd'), 0.
    split; [done|]. split; [by apply append_entry_inv|]. split.
    + cbn. rewrite dom_insert_L. apply elem_of_dom_2 in Ei. set_solver.
    + right. split; [done|]. intros x. rewrite append_entry_waits by done. cbn [pfd' pfd_fd pfd_events].
      rewrite <- !Hint. destruct (decide (x = fd)) as [->|]; [|done]. unfold waits at 1. cbn [g fdinfo]. by rewrite Ei.
Qed.

(** The conditions of [events] are taken from what the descriptor waits for; -1
    when it waits for nothing.  No assertion fails. *)
Lemma poll_del_ok s fd events :
  poll_inv s → is_Some (fdinfo s !! fd) → has events EV_SIGNAL = false →
  ∃ s' r, poll_del s fd events = Some (s', r) ∧ poll_inv s' ∧ dom (fdinfo s') = dom (fdinfo s) ∧
    (r = 0 ∨ r = -1 ∧ waits s fd = 0) ∧
    ∀ x, waits s' x = if decide (x = fd) then Z.land (waits s fd) (Z.lnot (poll_mask events)) else waits s x.
Proof.
  intros H Hfd Hs. unfold poll_del. rewrite Hs.
  destruct (has events (Z.lor (Z.lor EV_READ EV_WRITE) EV_CLOSED)) eqn:Ew; cbn [negb].
  2: { exists s, 0. split; [done|]. split; [done|]. split; [done|]. split; [by left|]. intros x.
       revert Ew. rewrite !has_lor_r. unfold poll_mask. rewrite !orb_false_iff. intros [[-> ->] ->].
       change (Z.lnot (Z.lor (Z.lor 0 0) 0)) with (-1). rewrite Z.land_m1_r. destruct (decide (x = fd)) as [->|]; done. }
  destruct Hfd as [idx Ei]. rewrite Ei. cbn [mbind option_bind].
  pose proof (pi_len s H) as Hl. pose proof (pi_count s H) as Hc. destruct (pi_info s H fd idx Ei) as [Hr Hp].
  destruct (Z.ltb_spec (idx - 1) 0).
  { assert (waits s fd = 0) as Hi0 by (unfold waits; rewrite Ei; destruct (Z.leb_spec idx 0); [done|lia]).
    exists s, (-1). split; [done|]. split; [done|]. split; [done|]. split; [by right|]. intros x. rewrite Hi0, Z.land_0_l.
    by destruct (decide (x = fd)) as [->|]. }
  destruct Hp as (pfd & E & <-); [lia|]. rewrite E. cbn [mbind option_bind]. rewrite zset_in_range by lia. cbn [mbind option_bind].
  assert (Hin : waits s (pfd_fd pfd) = pfd_events pfd) by (apply (waits_entry s (idx - 1)); [done|lia|done]).
  rewrite Hin. set (ev := Z.land (pfd_events pfd) (Z.lnot (poll_mask events))).
  set (i := idx - 1) in *. destruct (Z.eqb_spec ev 0) as [Hev|Hev]; cbn [negb].
  2: { set (pfd' := set_events ev pfd). exists (put_entry s i pfd'), 0. split; [done|].
       split; [by apply (put_entry_inv s i pfd); [|lia| | |]|]. split; [done|]. split; [by left|]. intros x.
       apply (put_entry_waits s i pfd); [done|lia|done|done]. }
  rewrite Hev. cbn [event_set nfds event_count realloc_copy event_set_copy].
  assert (Hdom : ∀ (v : Z), dom (<[pfd_fd pfd := v]> (fdinfo s)) = dom (fdinfo s)).
  { intros v. rewrite dom_insert_L. apply elem_of_dom_2 in Ei. set_solver. }
  destruct (zget_in_range (event_set (pop s)) (nfds (pop s) - 1)) as [last El]; [lia|].
  destruct (pi_entry s H (nfds (pop s) - 1) last ltac:(lia) El) as [Hfl Hel].
  destruct (Z.eqb_spec i (nfds (pop s) - 1)) as [Hil|Hil].
  - match goal with |- ∃ s' r, Some (?t, 0) = _ ∧ _ => exists t, 0 end. split; [done|].
    destruct (remove_entry_inv s (PollState
      (Pollop (event_count (pop s)) (nfds (pop s) - 1) (realloc_copy (pop s)) (<[Z.to_nat i:=set_events ev pfd]> (event_set (pop s))) (event_set_copy (pop s)))
      (<[pfd_fd pfd:=0]> (fdinfo s))) i pfd last) as [Hinv Hint]; try done.
    + lia.
    + cbn. by rewrite zlen_insert.
    + intros j Hj. cbn. rewrite zget_insert by lia. rewrite !decide_False by lia. done.
    + intros x. cbn. destruct (decide (x = pfd_fd pfd)) as [->|Hx]; [by rewrite lookup_insert_eq|].
      rewrite lookup_insert_ne by done. rewrite decide_False; [done|]. rewrite Hil in E. congruence.
    + rewrite Hev in Hinv, Hint. split; [done|]. split; [apply Hdom|]. split; [by left|done].
  - assert (Hne : pfd_fd pfd ≠ pfd_fd last).
    { intros Hx. rewrite Hx, Hfl in Ei. injection Ei. unfold i in Hil. lia. }
    rewrite zget_insert by lia. rewrite decide_False by done. rewrite El. cbn [mbind option_bind].
    rewrite zset_in_range by (rewrite zlen_insert; lia). cbn [mbind option_bind].
    rewrite lookup_insert_ne by done. rewrite Hfl. cbn [mbind option_bind].
    replace (nfds (pop s) - 1 + 1 =? nfds (pop s) - 1 + 1) with true by (symmetry; apply Z.eqb_refl). cbn [negb].
    match goal with |- ∃ s' r, Some (?t, 0) = _ ∧ _ => exists t, 0; destruct (remove_entry_inv s t i pfd last) as [Hinv Hint] end; try done.
    + lia.
    + cbn. by rewrite !zlen_insert.
    + intros j Hj. cbn. rewrite list_insert_insert_eq, zget_insert by lia.
      destruct (decide (i = j)), (decide (j = i)); done || lia.
    + intros x. cbn. destruct (decide (x = pfd_fd pfd)) as [->|Hx]; [by rewrite lookup_insert_ne, lookup_insert_eq|].
      destruct (decide (x = pfd_fd last)) as [->|Hxl]; [by rewrite lookup_insert_eq|]. by rewrite !lookup_insert_ne.
    + split; [done|]. split; [done|]. split; [|auto]. cbn. rewrite dom_insert_L, Hdom. apply elem_of_dom_2 in Hfl. set_solver.
Qed.

(** ** Collecting what is ready *)

Definition pollfd_report (p : pollfd) : option (Z * Z) :=
  let res := poll_res (pfd_revents p) in
  if (pfd_revents p =? 0) || (res =? 0) then None else Some (pfd_fd p, res).
(** The entries after the [i]-th first. *)
Definition rotated {A} (i : Z) (l : list A) : list A := zdrop (i + 1) l ++ ztake (i + 1) l.

Lemma rotated_perm {A} i (l : list A) : rotated i l ≡ₚ l.
Proof. unfold rotated. rewrite Permutation_app_comm. by rewrite ztake_zdrop. Qed.

Lemma poll_loop_take n : ∀ N i set,
  0 <= i < N → N <= zlen set → Z.of_nat n <= N →
  poll_loop n N i set = Some (omap pollfd_report (take n (zdrop (i + 1) (ztake N set ++ ztake N set)))).
Proof.
  induction n as [|n IH]; intros N i set Hi HN Hn; cbn [poll_loop]; [by rewrite take_0|].
  set (u := ztake N set). assert (Hu : zlen u = N) by (apply zlen_ztake; lia).
  set (j := if i + 1 =? N then 0 else i + 1).
  assert (Hj : 0 <= j < N ∧ (j = i + 1 ∨ i + 1 = N ∧ j = 0)) by (unfold j; destruct (Z.eqb_spec (i + 1) N); lia).
  destruct (zget_in_range set j) as [pfd E]; [lia|]. rewrite E. cbn [mbind option_bind].
  rewrite IH by lia. cbn [mbind option_bind]. f_equal. fold u.
  assert (Hd : zdrop (i + 1) (u ++ u) = pfd :: zdrop (i + 2) (u ++ u)).
  { assert (Hg : zget (u ++ u) (i + 1) = Some pfd).
    { destruct Hj as [Hj [<-|[Hij Hj0]]].
      - rewrite zget_app_l by lia. unfold u. by rewrite zget_ztake by lia.
      - rewrite zget_app_r by lia. rewrite Hu, Hij, Z.sub_diag, <- Hj0. unfold u. by rewrite zget_ztake by lia. }
    unfold zdrop. rewrite zget_nonneg in Hg by lia. rewrite (drop_S _ _ _ Hg). do 2 f_equal. lia. }
  rewrite Hd. cbn [take omap list_omap]. fold (@omap list _ pollfd pollfd).
  assert (Ht : take n (zdrop (j + 1) (u ++ u)) = take n (zdrop (i + 2) (u ++ u))).
  { destruct Hj as [Hj [->|[Hij ->]]]; [do 2 f_equal; lia|].
    rewrite (zdrop_app_ge (i + 2)) by lia. rewrite Hu. replace (i + 2 - N) with (0 + 1) by lia. rewrite zdrop_app_le by lia.
    rewrite take_app_le; [done|]. unfold zdrop. rewrite length_drop. unfold zlen in Hu. lia. }
  rewrite Ht. generalize (omap pollfd_report (take n (zdrop (i + 2) (u ++ u)))). intros rest.
  unfold pollfd_report. by destruct (_ || _).
Qed.

Lemma poll_loop_rotated N i set : 0 <= i < N → N <= zlen set →
  poll_loop (Z.to_nat N) N i set = Some (omap pollfd_report (rotated i (ztake N set))).
Proof.
  intros Hi HN. rewrite poll_loop_take by lia. do 2 f_equal. set (u := ztake N set).
  assert (Hu : zlen u = N) by (apply zlen_ztake; lia). unfold rotated.
  rewrite zdrop_app_le by lia. rewrite take_app. unfold zdrop, ztake. rewrite length_drop.
  rewrite take_ge by (rewrite length_drop; unfold zlen in Hu; lia). do 2 f_equal. unfold zlen in Hu. lia.
Qed.

Context {K : Type} {SYS : PollSys K}.

(** Only the conditions that came true differ. *)
Definition same_entries (l l' : list pollfd) : Prop :=
  Forall2 (λ p q : pollfd, pfd_fd q = pfd_fd p ∧ pfd_events q = pfd_events p) l l'.
(** The kernel fills in what came true and leaves the rest of the entries. *)
Class PollLaws := {
  poll_call_entries k l t k' n l' : poll_call k l t = (k', inr (n, l')) → same_entries l l'
}.
Context {PL : PollLaws}.

Lemma same_entries_refl l : same_entries l l.
Proof. induction l; constructor; done. Qed.
Lemma same_entries_len l l' : same_entries l l' → zlen l' = zlen l.
Proof. intros H%Forall2_length. unfold zlen. lia. Qed.
Lemma same_entries_get l l' i q : same_entries l l' → zget l' i = Some q →
  ∃ p : pollfd, zget l i = Some p ∧ pfd_fd q = pfd_fd p ∧ pfd_events q = pfd_events p.
Proof.
  unfold zget. intros H Hq. destruct (i <? 0); [done|].
  destruct (Forall2_lookup_r _ _ _ _ _ H Hq) as (p & ? & ? & ?). by exists p.
Qed.

(** A set with the same entries in use holds the same descriptors. *)
Lemma poll_inv_same s s' :
  poll_inv s → fdinfo s' = fdinfo s → nfds (pop s') = nfds (pop s) → event_count (pop s') = event_count (pop s) →
  zlen (event_set (pop s')) = zlen (event_set (pop s)) →
  same_entries (ztake (nfds (pop s)) (event_set (pop s))) (ztake (nfds (pop s)) (event_set (pop s'))) →
  (realloc_copy (pop s') = false → zlen (event_set_copy (pop s')) = event_count (pop s)) →
  poll_inv s' ∧ ∀ fd, waits s' fd = waits s fd.
Proof.
  intros H Hf Hn Hc Hl Hs Hcp. pose proof (pi_count s H) as Hcnt. pose proof (pi_len s H) as Hlen.
  assert (Hget : ∀ i q, i < nfds (pop s) → zget (event_set (pop s')) i = Some q →
    ∃ p : pollfd, zget (event_set (pop s)) i = Some p ∧ pfd_fd q = pfd_fd p ∧ pfd_events q = pfd_events p).
  { intros i q Hi Hq. rewrite <- (zget_ztake (nfds (pop s))) in Hq by done.
    destruct (same_entries_get _ _ _ _ Hs Hq) as (p & Hp & ?). exists p. by rewrite zget_ztake in Hp. }
  assert (Hfwd : ∀ i (p : pollfd), 0 <= i < nfds (pop s) → zget (event_set (pop s)) i = Some p →
    ∃ q, zget (event_set (pop s')) i = Some q ∧ pfd_fd q = pfd_fd p ∧ pfd_events q = pfd_events p).
  { intros i p Hi Hp. destruct (zget_in_range (event_set (pop s')) i) as [q Hq]; [lia|].
    destruct (Hget i q ltac:(lia) Hq) as (p' & Hp' & ?). exists q. rewrite Hp in Hp'. by injection Hp' as <-. }
  split; [split|]; rewrite ?Hf, ?Hn, ?Hc, ?Hl; try apply H; try done.
  - intros i q Hi Hq. destruct (Hget i q ltac:(lia) Hq) as (p & Hp & -> & ->). by apply (pi_entry s H).
  - intros fd n Hfd. destruct (pi_info s H fd n Hfd) as [Hr Hp]. split; [done|]. intros Hpos.
    destruct (Hp Hpos) as (p & Ep & Hpf). destruct (Hfwd (n - 1) p) as (q & Eq & Hqf & _); [lia|done|]. exists q. by rewrite Hqf.
  - intros fd. unfold waits. rewrite Hf. destruct (fdinfo s !! fd) as [n|] eqn:En; [|done].
    destruct (Z.leb_spec n 0); [done|]. destruct (pi_info s H fd n En) as [Hr Hp]. destruct Hp as (p & Ep & _); [lia|].
    destruct (Hfwd (n - 1) p) as (q & Eq & _ & He); [lia|done|]. by rewrite Ep, Eq.
Qed.

(** Copying the set may fail; otherwise the used entries are those of the set. *)
Lemma poll_set_ok threads s :
  poll_inv s →
  poll_set threads (pop s) = Some None ∧ threads = true ∧ realloc_copy (pop s) = true ∨
  ∃ p, poll_set threads (pop s) = Some (Some p) ∧ nfds p = nfds (pop s) ∧ event_count p = event_count (pop s) ∧
    event_set p = event_set (pop s) ∧ (realloc_copy p = false → zlen (event_set_copy p) = event_count p) ∧
    (threads = true → realloc_copy p = false) ∧
    ztake (nfds p) (if threads then event_set_copy p else event_set p) = ztake (nfds (pop s)) (event_set (pop s)).
Proof.
  intros H. pose proof (pi_count s H) as Hcnt. pose proof (pi_len s H) as Hlen. unfold poll_set.
  destruct threads; [|right; exists (pop s); split_and!; try done; apply H].
  assert (Hgo : ∀ copy, zlen copy = event_count (pop s) →
    (if zlen copy <? nfds (pop s) then None
     else Some (Some (Pollop (event_count (pop s)) (nfds (pop s)) false (event_set (pop s))
            (ztake (nfds (pop s)) (event_set (pop s)) ++ zdrop (nfds (pop s)) copy)))) =
    Some (Some (Pollop (event_count (pop s)) (nfds (pop s)) false (event_set (pop s))
            (ztake (nfds (pop s)) (event_set (pop s)) ++ zdrop (nfds (pop s)) copy))) ∧
    zlen (ztake (nfds (pop s)) (event_set (pop s)) ++ zdrop (nfds (pop s)) copy) = event_count (pop s) ∧
    ztake (nfds (pop s)) (ztake (nfds (pop s)) (event_set (pop s)) ++ zdrop (nfds (pop s)) copy) = ztake (nfds (pop s)) (event_set (pop s))).
  { intros copy Hc. split; [destruct (Z.ltb_spec (zlen copy) (nfds (pop s))); [lia|done]|].
    split; [rewrite zlen_app, zlen_ztake, zlen_zdrop; lia|].
    rewrite ztake_app_le by (rewrite zlen_ztake; lia). apply ztake_ztake. lia. }
  destruct (realloc_copy (pop s)) eqn:Er.
  - unfold resize. destruct (poll_realloc _); cbn [mbind option_bind]; [|by left]. right.
    destruct (Hgo (ztake (event_count (pop s)) (event_set_copy (pop s)) ++ zrepeat junk (event_count (pop s) - zlen (event_set_copy (pop s)))))
      as (-> & Hl & Ht).
    { rewrite zlen_app. destruct (decide (zlen (event_set_copy (pop s)) <= event_count (pop s))).
      - rewrite ztake_all, zlen_zrepeat by lia. lia.
      - rewrite zlen_ztake by lia. unfold zrepeat. replace (Z.to_nat _) with 0%nat by lia. cbn [replicate]. rewrite zlen_nil. lia. }
    eexists. split; [done|]. cbn [nfds event_count event_set realloc_copy event_set_copy]. split_and!; try done.
  - right. destruct (Hgo (event_set_copy (pop s)) (pi_copy s H Er)) as (-> & Hl & Ht).
    eexists. split; [done|]. cbn [nfds event_count event_set realloc_copy event_set_copy]. split_and!; try done.
Qed.

(** What one call of [poll_collect] does with the answer of the kernel. *)
Definition answered (asked : list pollfd) (res : Z + (Z * list pollfd)) (reports : list (Z * Z)) (r : Z) : Prop :=
  match res with
  | inl errno => reports = [] ∧ r = if errno =? 4 then 0 else -1
  | inr (n, used) =>
      r = 0 ∧
      if (n =? 0) || (zlen asked =? 0) then reports = []
      else ∃ i, 0 <= i < zlen asked ∧ reports = omap pollfd_report (rotated i used)
  end.

Lemma zget_app_same {A} (l k : list A) : ztake (zlen l) (l ++ k) = l.
Proof. rewrite ztake_app_le by (pose proof (zlen_nonneg l); lia). by apply ztake_all. Qed.

Lemma poll_collect_ok threads s seed k tv :
  poll_inv s →
  let asked := ztake (nfds (pop s)) (event_set (pop s)) in
  ∃ k' p seed' reports r,
    poll_collect threads (2 ^ 31) seed k (pop s) tv = Some (k', p, seed', reports, r) ∧
    poll_inv (PollState p (fdinfo s)) ∧ (∀ fd, waits (PollState p (fdinfo s)) fd = waits s fd) ∧
    (threads = true ∧ realloc_copy (pop s) = true ∧ r = -1 ∧ reports = [] ∨
     k' = (poll_call k asked (poll_msec tv)).1 ∧ answered asked (poll_call k asked (poll_msec tv)).2 reports r).
Proof.
  intros H asked. pose proof (pi_count s H) as Hcnt. pose proof (pi_len s H) as Hlen.
  assert (Ha : zlen asked = nfds (pop s)) by (apply zlen_ztake; lia).
  unfold poll_collect. destruct (poll_set_ok threads s H) as [(-> & -> & Hr)|(p & -> & Hn & Hc & Hs & Hcp & Hcp' & Hu)].
  { cbn [mbind option_bind]. exists k, (pop s), seed, [], (-1). replace (PollState (pop s) (fdinfo s)) with s by by destruct s.
    split; [done|]. split; [done|]. split; [done|]. by left. }
  cbn [mbind option_bind]. set (set := if threads then event_set_copy p else event_set p) in *. fold asked in Hu. rewrite Hu.
  assert (Hset : nfds p <= zlen set).
  { pose proof (zlen_ztake_le (nfds p) set) as Hle. rewrite Hu, Ha in Hle. lia. }
  assert (Hzset : zlen set = event_count p).
  { unfold set. destruct threads; [apply Hcp; auto|]. rewrite Hs. lia. }
  assert (Hp : poll_inv (PollState p (fdinfo s)) ∧ ∀ fd, waits (PollState p (fdinfo s)) fd = waits s fd).
  { apply poll_inv_same; cbn [pop fdinfo]; rewrite ?Hs; try done; [apply same_entries_refl|]. rewrite <- Hc. done. }
  destruct (poll_call k asked (poll_msec tv)) as [k' [errno|[n used]]] eqn:Ek; cbn [fst snd].
  { exists k', p, seed, [], (if errno =? 4 then 0 else -1). split; [done|]. split; [apply Hp|]. split; [apply Hp|]. right. done. }
  pose proof (poll_call_entries _ _ _ _ _ _ Ek) as He. pose proof (same_entries_len _ _ He) as Hlu.
  set (set' := used ++ zdrop (nfds p) set). cbn [nfds].
  assert (Hset' : ztake (nfds p) set' = used).
  { unfold set'. replace (nfds p) with (zlen used) at 1 by lia. apply zget_app_same. }
  assert (Hlen' : zlen set' = event_count p) by (unfold set'; rewrite zlen_app, zlen_zdrop; lia).
  set (p' := Pollop _ _ _ _ _).
  assert (Hp' : poll_inv (PollState p' (fdinfo s)) ∧ ∀ fd, waits (PollState p' (fdinfo s)) fd = waits s fd).
  { apply poll_inv_same; cbn [pop fdinfo p' nfds event_count event_set realloc_copy event_set_copy]; try done.
    - destruct threads; [by rewrite Hs|]. lia.
    - rewrite <- Hn. destruct threads; [rewrite Hs, Hn; apply same_entries_refl|]. rewrite Hset'. unfold asked in He. by rewrite Hn.
    - intros Hrc. rewrite <- Hc. destruct threads; [done|by apply Hcp]. }
  cbn [answered]. rewrite Ha, <- Hn.
  destruct ((n =? 0) || (nfds p =? 0)) eqn:En.
  { exists k', p', seed, [], 0. split; [done|]. split; [apply Hp'|]. split; [apply Hp'|]. by right. }
  apply orb_false_iff in En as [_ En%Z.eqb_neq].
  destruct (weakrand_range_ok seed (nfds p)) as (n' & i & -> & _ & Hi & _); [unfold EVUTIL_WEAKRAND_MAX; lia|].
  cbn [mbind option_bind]. rewrite (poll_loop_rotated (nfds p) i set') by lia. cbn [mbind option_bind].
  exists k', p', (Nat.iter (S n') next_seed seed), (omap pollfd_report (rotated i (ztake (nfds p) set'))), 0.
  split; [done|]. split; [apply Hp'|]. split; [apply Hp'|]. right. split; [done|]. split; [done|].
  exists i. split; [done|]. by rewrite Hset'.
Qed.
End poll.
