(* ===== verification/PollBase.v ===== *)
(** * The poll backend under the map of descriptors and the event base

    It keeps the promise of a backend to the map, and its dispatch the promise of a
    backend to the event base; what each descriptor waits for follows the map. *)
From S2P Require Import Prelude Timeval MinHeap EventDefs EventApi EventLoop EventInv EventQueue.
From S2P Require Import EventOps EventAdd EventBase EventTimers EventRun EvmapDefs Evmap Backend Weakrand PollDefs Poll.

Section laws.
Context {PM : PollMem} {PML : PollMemLaws} {K B2 : Type} {SYS : PollSys K} {SO : Sigop B2} {MA : MapAlloc}.

Lemma known_fd_ok fd s : poll_inv s →
  poll_inv (known_fd fd s) ∧ is_Some (fdinfo (known_fd fd s) !! fd) ∧ ∀ x, waits (known_fd fd s) x = waits s x.
Proof.
  intros H. unfold known_fd. destruct (fdinfo s !! fd) as [n|] eqn:E; [by rewrite E|]. cbn [fdinfo].
  split; [|split; [by rewrite lookup_insert_eq|]].
  - destruct H as [H1 H2 H3 H4 H5 H6]. split; cbn [pop fdinfo]; try done.
    + intros i pfd Hi Hp. destruct (H4 i pfd Hi Hp) as [Hf He]. split; [|done]. rewrite lookup_insert_ne; [done|].
      intros ->. congruence.
    + intros x k. destruct (decide (x = fd)) as [->|Hne]; [rewrite lookup_insert_eq; intros [= <-]; split; lia|].
      rewrite lookup_insert_ne by done. apply H5.
  - intros x. unfold waits. cbn [fdinfo pop]. destruct (decide (x = fd)) as [->|Hne]; [by rewrite lookup_insert_eq, E|].
    by rewrite lookup_insert_ne by done.
Qed.

(** What the operations do to the conditions the descriptors wait for. *)
Lemma pollops_add (b : poll_base K) fd old ev u :
  poll_inv (store b) → has ev EV_SIGNAL = false →
  ∃ b' r, op_add b fd old ev u = Some (b', tt, r) ∧ poll_inv (store b') ∧
    ((r = -1 ∧ ∀ x, waits (store b') x = waits (store b) x) ∨
     (r = 0 ∧ ∀ x, waits (store b') x =
        if decide (x = fd) then Z.lor (waits (store b) fd) (poll_mask ev) else waits (store b) x)).
Proof.
  intros H Hs. destruct (known_fd_ok fd _ H) as (Hk & Hi & Hw). cbn [op_add pollops].
  destruct (poll_add_ok (known_fd fd (store b)) fd ev Hk Hi Hs) as (s' & r & E & Hinv & _ & Hr).
  rewrite E. cbn [mbind option_bind]. exists (set_store s' b), r. split; [done|]. split; [done|]. cbn [set_store store].
  destruct Hr as [[-> ->]|[-> Hr]]; [left|right]; (split; [done|]); [done|]. intros x. by rewrite Hr, !Hw.
Qed.
Lemma pollops_del (b : poll_base K) fd old ev u :
  poll_inv (store b) → has ev EV_SIGNAL = false →
  ∃ b' r, op_del b fd old ev u = Some (b', tt, r) ∧ poll_inv (store b') ∧
    (r = 0 ∨ r = -1 ∧ waits (store b) fd = 0) ∧
    ∀ x, waits (store b') x =
      if decide (x = fd) then Z.land (waits (store b) fd) (Z.lnot (poll_mask ev)) else waits (store b) x.
Proof.
  intros H Hs. destruct (known_fd_ok fd _ H) as (Hk & Hi & Hw). cbn [op_del pollops].
  destruct (poll_del_ok (known_fd fd (store b)) fd ev Hk Hi Hs) as (s' & r & E & Hinv & _ & Hr & Hr').
  rewrite E. cbn [mbind option_bind]. exists (set_store s' b), r. split; [done|]. split; [done|]. cbn [set_store store].
  rewrite Hw in Hr. split; [done|]. intros x. by rewrite Hr', !Hw.
Qed.

#[export] Instance poll_laws : EventopLaws (poll_base K) unit.
Proof.
  refine {| op_inv (b : poll_base K) _ := poll_inv (store b) |}.
  - done.
  - intros b fds fd old ev H _ Hs _. destruct (pollops_add b fd old ev (fds fd) H Hs) as (b' & r & E & H' & _).
    by exists b', tt, r.
  - intros b fds fd old ev H _ Hs _. destruct (pollops_del b fd old ev (fds fd) H Hs) as (b' & r & E & H' & _).
    by exists b', tt, r.
Defined.

(** ** The map *)

Abbreviation map := (event_map (poll_base K) unit B2).
Implicit Types (m : map) (mask : evid → Z).

(** Every descriptor waits for what its events want. *)
Definition poll_sync m mask : Prop := ∀ fd, 0 <= fd →
  waits (store (evsel m)) fd = poll_mask (wanted mask (events_of m fd)).

Lemma poll_mask_et x ev : poll_mask (Z.lor (Z.land x EV_ET) ev) = poll_mask ev.
Proof.
  unfold poll_mask. assert (H : ∀ k, Z.land EV_ET k = 0 → has (Z.lor (Z.land x EV_ET) ev) k = has ev k).
  { intros k Hk. rewrite has_lor. unfold has at 1. by rewrite <- Z.land_assoc, Hk, Z.land_0_r. }
  by rewrite !H.
Qed.

Lemma poll_mask_lor a b : poll_mask (Z.lor a b) = Z.lor (poll_mask a) (poll_mask b).
Proof.
  unfold poll_mask. rewrite !has_lor. destruct (has a EV_WRITE), (has b EV_WRITE), (has a EV_READ), (has b EV_READ),
    (has a EV_CLOSED), (has b EV_CLOSED); done.
Qed.
Lemma poll_mask_told mask l1 l2 : one_more l1 l2 →
  Z.lor (poll_mask (wanted mask l1)) (poll_mask (told mask l1 l2)) = poll_mask (wanted mask l2) ∧
  Z.land (poll_mask (wanted mask l2)) (Z.lnot (poll_mask (told mask l1 l2))) = poll_mask (wanted mask l1).
Proof.
  intros He. destruct (told_difference mask l1 l2 He) as [H1 H2]. split; [by rewrite <- poll_mask_lor, H1|].
  rewrite <- H2. unfold told. rewrite !wanted_three, !three_ldiff.
  destruct (watched mask EV_READ l1), (watched mask EV_WRITE l1), (watched mask EV_CLOSED l1),
    (watched mask EV_READ l2), (watched mask EV_WRITE l2), (watched mask EV_CLOSED l2); done.
Qed.

Lemma poll_sync_elsewhere m m' mask fd :
  io_frame m m' fd → poll_sync m mask →
  (∀ x, waits (store (evsel m')) x = if decide (x = fd) then poll_mask (wanted mask (events_of m' fd)) else waits (store (evsel m)) x) →
  poll_sync m' mask.
Proof.
  intros Hf Hs Hw i Hi. rewrite Hw. destruct (decide (i = fd)) as [->|Hne]; [done|].
  destruct (if_io _ _ _ Hf i Hne) as [-> _]. by apply Hs.
Qed.
Lemma poll_sync_same m m' mask fd :
  0 <= fd → io_frame m m' fd → poll_sync m mask → (∀ x, waits (store (evsel m')) x = waits (store (evsel m)) x) →
  wanted mask (events_of m' fd) = wanted mask (events_of m fd) → poll_sync m' mask.
Proof.
  intros Hfd Hf Hs Hw He. apply (poll_sync_elsewhere m m' mask fd); [done..|]. intros x. rewrite Hw, He.
  destruct (decide (x = fd)) as [->|]; [by apply Hs|done].
Qed.

Lemma poll_add_sync m mask fd e m' r :
  0 <= fd → evmap_inv m mask → poll_sync m mask → io_frame m m' fd → io_added mask m fd e m' r → poll_sync m' mask.
Proof.
  intros Hfd [Hm Hi] Hs Hf Ha. unfold io_added in Ha. cbv zeta in Ha.
  assert (Hmore : one_more (events_of m fd) (e :: events_of m fd)) by (exists e; by left).
  destruct (pollops_add (evsel m) fd (wanted mask (events_of m fd))
    (Z.lor (Z.land (mask e) EV_ET) (told mask (events_of m fd) (e :: events_of m fd))) (fdinfo_of m fd) Hi (told_no_signal _ _ _ _))
    as (b' & r' & E & _ & Hr).
  rewrite poll_mask_et, (Hs fd Hfd), (proj1 (poll_mask_told mask _ _ Hmore)) in Hr.
  destruct Ha as [(-> & Hl & [[H1 H2]|H1])|[(-> & Hl & H0 & H1 & H2)|(-> & Hl & _ & ret & Hret & H1)]].
  - apply (poll_sync_same m m' mask fd); [done..|by rewrite H1|by rewrite Hl].
  - rewrite H1 in E. simplify_eq. destruct Hr as [[_ Hr]|[Hr _]]; [|done].
    apply (poll_sync_same m m' mask fd); [done..|by rewrite Hl].
  - apply (poll_sync_same m m' mask fd); [done..|by rewrite H1|]. rewrite Hl. by apply told_0.
  - rewrite H1 in E. simplify_eq. destruct Hr as [[-> _]|[-> Hr]]; [done|].
    apply (poll_sync_elsewhere m m' mask fd); [done..|]. by rewrite Hl.
Qed.
(** Unlike adding, deleting cannot fail. *)
Lemma poll_del_sync m mask fd e m' r :
  0 <= fd → evmap_inv m mask → poll_sync m mask → io_frame m m' fd → io_deleted mask m fd e m' r →
  poll_sync m' mask ∧ r ≠ -1.
Proof.
  intros Hfd [Hm Hi] Hs Hf (l' & Hr & Hl & Ha). cbv zeta in Ha.
  assert (Hmore : one_more l' (events_of m fd)) by (exists e; by right).
  destruct (pollops_del (evsel m) fd (wanted mask (events_of m fd))
    (Z.lor (Z.land (mask e) EV_ET) (told mask l' (events_of m fd))) (fdinfo_of m fd) Hi (told_no_signal _ _ _ _))
    as (b' & r' & E & _ & Hret & Hw).
  rewrite poll_mask_et, (Hs fd Hfd), (proj2 (poll_mask_told mask _ _ Hmore)) in Hw.
  destruct Ha as [(-> & H0 & H1 & H2)|(Hg & ret & -> & H1)].
  - split; [|done]. apply (poll_sync_same m m' mask fd); [done..|by rewrite H1|]. rewrite Hl. symmetry. by apply told_0.
  - rewrite H1 in E. injection E as <- _ <-. split; [apply (poll_sync_elsewhere m m' mask fd); [done|done|by rewrite Hl]|].
    destruct Hret as [->|[-> Hz]]; [done|]. clear Hw Hl H1. exfalso. apply Hg. apply told_0; [done|].
    rewrite (Hs fd Hfd) in Hz. destruct (poll_mask_told mask _ _ Hmore) as [H2 _]. rewrite Hz in H2.
    apply Z.lor_eq_0_iff in H2 as [H2 _]. revert Hz H2. rewrite !wanted_three.
    destruct (watched mask EV_READ l'), (watched mask EV_WRITE l'), (watched mask EV_CLOSED l'); try done;
    destruct (watched mask EV_READ (events_of m fd)), (watched mask EV_WRITE (events_of m fd)), (watched mask EV_CLOSED (events_of m fd)); done.
Qed.
End laws.

(** * Dispatching *)

Section dispatch.
Context {PM : PollMem} {PML : PollMemLaws} {K B2 : Type} {SYS : PollSys K} {PL : PollLaws} {SO : Sigop B2} {MA : MapAlloc}.
Context {CK : Clock} {CL : ClockLaws} {RA : Realloc}.
Abbreviation map := (event_map (poll_base K) unit B2).
Abbreviation base := (event_base map).
Context (U : list evid) (U_nodup : NoDup U) (U_small : zlen U < 2 ^ 31).
Abbreviation good := (base_inv U).

Lemma wp_report_all l : ∀ (b : base) (Q : unit → base → Prop),
  good b → (∀ b', good b' → loop_frame b b' → Q tt b') → wp (report_all l) Q b.
Proof.
  induction l as [|[fd res] l IH]; intros b Q Hb HQ; cbn [report_all]; [wp_step; apply HQ; [done|apply lf_refl]|].
  wp_step. apply (wp_report U U_nodup U_small); [done|]. intros b1 Hb1 H1. apply IH; [done|].
  intros b2 Hb2 H2. apply HQ; [done|by eapply lf_trans].
Qed.

(** The backend's dispatch never fails and respects the invariant of the base. *)
Lemma poll_dispatch_ok threads tv (b : base) :
  good b → wp (poll_dispatch threads tv) (λ _ b', good b' ∧ loop_frame b b') b.
Proof.
  intros Hb. unfold poll_dispatch. wp_step. wp_step. pose proof (mo_inv _ _ (ci_map (bv_core Hb))) as [_ Hi].
  destruct (poll_collect_ok threads (store (evsel (evmap b))) (weakrand_seed (evsel (evmap b))) (kernel (evsel (evmap b))) tv Hi)
    as (k' & p & seed' & reports & r & E & Hp & _).
  wp_step. eapply wp_deref; [exact E|]. cbv beta iota. wp_step. wp_step.
  destruct (good_set_sel U b (PollBase (PollState p (fdinfo (store (evsel (evmap b))))) seed' k')) as [Hb1 Hf1]; [done|exact Hp|].
  wp_step. apply wp_report_all; [done|]. intros b2 Hb2 Hf2. wp_step. split; [done|by eapply lf_trans].
Qed.

(** The environment of a base with this backend. *)
Definition poll_env (threads : bool) (user : nat → evid → Z → prog base unit) : Env map :=
  {| user_callback := user; dispatch := poll_dispatch threads |}.
Lemma poll_env_laws threads user :
  (∀ f e res (b : base), good b → wp (user f e res) (λ _ b', good b' ∧ loop_frame b b') b) →
  EnvLaws map U (EN := poll_env threads user).
Proof. intros Hu. split; [exact Hu|exact (poll_dispatch_ok threads)]. Qed.
End dispatch.
