(* ===== verification/PollThms.v ===== *)
(** The contract of the poll backend: the theorems about [src/poll.c] and the
    generator of [src/evutil.c] it uses, and the event base on top of them. *)
From S2P Require Import Prelude Timeval MinHeap EventDefs EventApi EventLoop EventInv.
From S2P Require Import EventQueue EventOps EventAdd EventBase EventTimers EventRun EventConfig EventSafe.
From S2P Require Import EvmapDefs Evmap EventThms Backend Weakrand PollDefs Poll PollBase.

Section contract.
Context {PM : PollMem} {PML : PollMemLaws} {K B2 : Type} {SYS : PollSys K} {PL : PollLaws} {SO : Sigop B2} {MA : MapAlloc}.
Abbreviation map := (event_map (poll_base K) unit B2).
Implicit Types (m : map) (mask : evid → Z) (s : poll_state).

(** C15: choosing a random number below [top] always ends.  [evutil_weakrand_range_]
    draws numbers until the quotient is below [top]; from any seed that happens
    within 2^31 draws, the result is that of the first draw which is good enough,
    and it lies in the range. *)
Theorem evutil_weakrand_range_ends seed top :
  0 < top <= EVUTIL_WEAKRAND_MAX →
  ∃ n r, evutil_weakrand_range_ (2 ^ 31) seed top = Some (Nat.iter (S n) next_seed seed, r) ∧
    Z.of_nat n < 2 ^ 31 ∧ 0 <= r < top ∧ r = Nat.iter (S n) next_seed seed ÷ (EVUTIL_WEAKRAND_MAX ÷ top) ∧
    ∀ k, (k < n)%nat → top <= Nat.iter (S k) next_seed seed ÷ (EVUTIL_WEAKRAND_MAX ÷ top).
Proof. intros Ht. destruct (weakrand_range_ok seed top Ht) as (n & r & H). by exists n, r. Qed.

(** The entries in use are the descriptors that wait for something, each once. *)
Lemma asked_exact s :
  poll_inv s →
  let asked := ztake (nfds (pop s)) (event_set (pop s)) in
  NoDup (pfd_fd <$> asked) ∧
  (∀ fd ev, (∃ q, q ∈ asked ∧ pfd_fd q = fd ∧ pfd_events q = ev) ↔ ev = waits s fd ∧ ev ≠ 0).
Proof.
  intros H asked. pose proof (pi_count s H) as Hc. pose proof (pi_len s H) as Hl.
  assert (Hget : ∀ (i : nat) q, asked !! i = Some q →
    0 <= Z.of_nat i < nfds (pop s) ∧ zget (event_set (pop s)) (Z.of_nat i) = Some q).
  { intros i q. unfold asked, ztake. intros Hq. apply lookup_take_Some in Hq as [Hq Hi].
    split; [lia|]. rewrite zget_nonneg by lia. by rewrite Nat2Z.id. }
  split.
  - apply NoDup_alt. intros i j fd Hi Hj. rewrite list_lookup_fmap in Hi, Hj.
    apply fmap_Some in Hi as (p & Hp & ->). apply fmap_Some in Hj as (q & Hq & Hpq).
    destruct (Hget i p Hp) as [Hri Hip]. destruct (Hget j q Hq) as [Hrj Hjq].
    destruct (pi_entry s H _ _ Hri Hip) as [H1 _]. destruct (pi_entry s H _ _ Hrj Hjq) as [H2 _].
    rewrite Hpq, H2 in H1. injection H1. lia.
  - intros fd ev. split.
    + intros (q & Hq & <- & <-). apply list_elem_of_lookup in Hq as [i Hq]. destruct (Hget i q Hq) as [Hri Hiq].
      split; [symmetry; by apply (waits_entry s (Z.of_nat i))|]. by apply (pi_entry s H _ _ Hri Hiq).
    + intros [-> Hne]. destruct (waits_used s fd H Hne) as (i & q & Hi & Hq & Hfd & Hev). exists q. split; [|done].
      apply list_elem_of_lookup. exists (Z.to_nat i). unfold asked, ztake.
      rewrite lookup_take_lt by lia. by rewrite <- zget_nonneg by lia.
Qed.

(** The maps a program makes by adding and deleting events and dispatching. *)
Inductive poll_run mask : map → Prop :=
| poll_fresh p (sg : B2) seed k :
    poll_init true = Some p → poll_run mask (EventMap [] [] (PollBase (PollState p ∅) seed k) sg)
| poll_run_add m fd e m' r :
    poll_run mask m → 0 <= fd → e ∉ events_of m fd → evmap_io_add_ m fd e (mask e) = Some (m', r) → poll_run mask m'
| poll_run_del m fd e m' r :
    poll_run mask m → 0 <= fd → e ∈ events_of m fd → evmap_io_del_ m fd e (mask e) = Some (m', r) → poll_run mask m'
| poll_run_dispatch m threads n tv seed k p reports r :
    poll_run mask m →
    poll_collect threads n (weakrand_seed (evsel m)) (kernel (evsel m)) (pop (store (evsel m))) tv = Some (k, p, seed, reports, r) →
    n = (2 ^ 31)%positive →
    poll_run mask (set_evsel (PollBase (PollState p (fdinfo (store (evsel m)))) seed k) m).

Lemma poll_fresh_ok p : poll_init true = Some p → poll_inv (PollState p ∅) ∧ ∀ fd, waits (PollState p ∅) fd = 0.
Proof.
  intros [= <-]. split; [split|]; cbn [pop fdinfo nfds event_count event_set event_set_copy realloc_copy]; try done.
  - by left.
  - intros i pfd Hi. lia.
Qed.
Lemma poll_run_inv mask m : poll_run mask m → evmap_inv m mask ∧ poll_sync m mask.
Proof.
  induction 1 as [p sg seed k Hp|m fd e m' r _ [Hv Hs] Hfd He E|m fd e m' r _ [Hv Hs] Hfd He E
    |m threads n tv seed k p reports r _ [Hv Hs] E ->].
  - destruct (poll_fresh_ok p Hp) as [H1 H2]. split.
    + split; [split; intros i c; by rewrite no_entry|exact H1].
    + intros fd Hfd. unfold events_of. cbn [io]. rewrite no_entry. apply H2.
  - destruct (io_add_ok mask m fd e Hfd Hv He) as (m2 & r2 & E2 & Hv2 & Hf & Ha).
    cbn [evmap_io_add_ evmap_ops] in E. rewrite E in E2. injection E2 as <- <-.
    split; [done|exact (poll_add_sync m mask fd e m' r Hfd Hv Hs Hf Ha)].
  - destruct (io_del_ok mask m fd e Hfd Hv He) as (m2 & r2 & E2 & Hv2 & Hf & Ha).
    cbn [evmap_io_del_ evmap_ops] in E. rewrite E in E2. injection E2 as <- <-.
    split; [done|apply (poll_del_sync m mask fd e m' r Hfd Hv Hs Hf Ha)].
  - destruct Hv as [[Hi Hsg] Hp].
    destruct (poll_collect_ok threads (store (evsel m)) (weakrand_seed (evsel m)) (kernel (evsel m)) tv Hp)
      as (k' & p' & seed' & reports' & r' & E' & Hp' & Hw & _).
    rewrite E in E'. injection E' as <- <- <- <- <-. split; [split; [by split|exact Hp']|].
    intros fd Hfd. cbn [set_evsel evsel store]. rewrite Hw. by apply Hs.
Qed.

(** C13: the set that is given to [poll] follows the map.  However events are added
    and deleted between dispatches, and whatever allocations fail, the entries in
    use name each descriptor at most once, exactly those descriptors with a wanted
    kind of event, with the conditions for exactly the wanted kinds.  Deleting an
    event that is in the map never fails. *)
Theorem poll_follows_map mask m :
  poll_run mask m →
  let asked := ztake (nfds (pop (store (evsel m)))) (event_set (pop (store (evsel m)))) in
  NoDup (pfd_fd <$> asked) ∧
  (∀ fd ev, 0 <= fd →
     (∃ q, q ∈ asked ∧ pfd_fd q = fd ∧ pfd_events q = ev) ↔ ev = poll_mask (wanted mask (events_of m fd)) ∧ ev ≠ 0) ∧
  ∀ fd e, 0 <= fd → e ∈ events_of m fd → ∃ m' r, evmap_io_del_ m fd e (mask e) = Some (m', r) ∧ r ≠ -1.
Proof.
  intros Hr. destruct (poll_run_inv mask m Hr) as [Hv Hs]. destruct (asked_exact _ (vi_sel _ _ Hv)) as [Hnd Hx].
  split; [done|]. split.
  - intros fd ev Hfd. rewrite <- (Hs fd Hfd). apply Hx.
  - intros fd e Hfd He. destruct (io_del_ok mask m fd e Hfd Hv He) as (m' & r & E & _ & Hf & Ha). exists m', r. split; [exact E|].
    by apply (poll_del_sync m mask fd e m' r Hfd Hv Hs Hf Ha).
Qed.

(** C14: what one dispatch reports.  The kernel is asked about exactly the
    descriptors that wait for something.  When it reports some, every entry it
    marked is reported once, in the order of the array but begun at a random place
    and continued from the front, with the events its conditions stand for, errors
    and hang-ups standing for reading and writing; an interrupted wait counts as
    nothing ready, any other error is the result -1.  What the descriptors wait
    for stays as it was. *)
Theorem poll_collect_exact threads s seed k tv :
  poll_inv s →
  let asked := ztake (nfds (pop s)) (event_set (pop s)) in
  ∃ k' p seed' reports r,
    poll_collect threads (2 ^ 31) seed k (pop s) tv = Some (k', p, seed', reports, r) ∧
    poll_inv (PollState p (fdinfo s)) ∧ (∀ fd, waits (PollState p (fdinfo s)) fd = waits s fd) ∧
    (threads = true ∧ realloc_copy (pop s) = true ∧ r = -1 ∧ reports = [] ∨
     k' = (poll_call k asked (poll_msec tv)).1 ∧
     match (poll_call k asked (poll_msec tv)).2 with
     | inl errno => reports = [] ∧ r = if errno =? 4 then 0 else -1
     | inr (n, used) =>
         r = 0 ∧ NoDup reports.*1 ∧
         (n ≠ 0 → reports ≡ₚ omap pollfd_report used ∧ ∃ i, reports = omap pollfd_report (zdrop i used ++ ztake i used)) ∧
         (n = 0 → reports = [])
     end).
Proof.
  intros H asked. pose proof (pi_count s H) as Hcnt. pose proof (pi_len s H) as Hlen.
  assert (Ha : zlen asked = nfds (pop s)) by (apply zlen_ztake; lia).
  destruct (poll_collect_ok threads s seed k tv H) as (k' & p & seed' & reports & r & E & Hp & Hw & Hans).
  exists k', p, seed', reports, r. split; [exact E|]. split; [done|]. split; [done|]. fold asked in Hans.
  destruct Hans as [Hans|[Hk Hans]]; [by left|right]. split; [done|].
  destruct (poll_call k asked (poll_msec tv)) as [k2 [errno|[n used]]] eqn:Ec; cbn [fst snd answered] in *; [done|].
  pose proof (poll_call_entries _ _ _ _ _ _ Ec) as He. pose proof (same_entries_len _ _ He) as Hlu.
  destruct Hans as [Hr Hans]. split; [done|].
  assert (Hfds : pfd_fd <$> used = pfd_fd <$> asked).
  { clear -He. induction He as [|x y l l' [Hx _] _ IH]; cbn; [done|]. by rewrite Hx, IH. }
  assert (Hperm : n ≠ 0 → reports ≡ₚ omap pollfd_report used ∧ ∃ i, reports = omap pollfd_report (zdrop i used ++ ztake i used)).
  { intros Hn. destruct (Z.eqb_spec n 0); [done|]. cbn [orb] in Hans. destruct (Z.eqb_spec (zlen asked) 0) as [Hz|].
    - assert (used = []) as -> by (apply zlen_nil_inv; lia). rewrite Hans. split; [done|]. by exists 0.
    - destruct Hans as (i & Hi & ->). split; [by rewrite rotated_perm|]. by exists (i + 1). }
  split; [|split; [done|]].
  - destruct (Z.eqb_spec n 0) as [Hn|Hn]; [cbn [orb] in Hans; rewrite Hans; constructor|].
    destruct (Hperm Hn) as [Hpm _]. rewrite Hpm. destruct (asked_exact s H) as [Hnd _]. fold asked in Hnd. rewrite <- Hfds in Hnd.
    eapply sublist_NoDup; [exact Hnd|]. clear. induction used as [|x used IH]; cbn; [constructor|].
    unfold pollfd_report at 1. destruct (_ || _); cbn; by constructor.
  - intros ->. exact Hans.
Qed.
End contract.

(** * The event base on top of poll *)

Section stack.
Context {PM : PollMem} {PML : PollMemLaws} {K B2 : Type} {SYS : PollSys K} {PL : PollLaws} {SO : Sigop B2} {MA : MapAlloc}.
Context {CK : Clock} {CL : ClockLaws} {RA : Realloc}.
Abbreviation map := (event_map (poll_base K) unit B2).
Abbreviation base := (event_base map).
Context (U : list evid) (U_nodup : NoDup U) (U_small : zlen U < 2 ^ 31) (threads : bool).
(** Callbacks of the program that respect the invariant. *)
Context (user : nat → evid → Z → prog base unit).
Context (user_safe : ∀ f e res (b : base), base_inv U b → wp (user f e res) (λ _ b', base_inv U b' ∧ loop_frame b b') b).
#[local] Instance env : Env map := poll_env threads user.

(** C12: the stack on poll is safe: event base, map of descriptors and the poll
    backend.  On a new base with a new poll backend, whatever the program does with
    allowed commands (the loop with its dispatches among them), whatever the kernel
    answers and whichever allocations fail, no assertion of the library fails, no
    access leaves an array, and the entries in use stay the inverse of the indices
    the map of descriptors keeps. *)
Theorem poll_stack_safe p seed k (sg : B2) config disabled ops n a1 a2 (b0 b : base) cmd :
  poll_init true = Some p →
  event_base_new_with_config config disabled ops (EventMap [] [] (PollBase (PollState p ∅) seed k) sg) n a1 a2 = Some b0 →
  reachable U b0 b → allowed U b cmd →
  ∃ b', run cmd b = Some (tt, b') ∧ base_inv U b' ∧ poll_inv (store (evsel (evmap b'))).
Proof.
  intros Hinit Hnew Hr Hal. pose proof (poll_env_laws U U_nodup U_small threads user user_safe) as HE.
  assert (Hempty : map_empty (EventMap [] [] (PollBase (PollState p ∅) seed k) sg)).
  { destruct (poll_fresh_ok p Hinit) as [Hp _]. split; [split; [split; intros i c; by rewrite no_entry|exact Hp]|].
    split; intros i e; cbn [em_io em_sig evmap_laws]; [unfold events_of|unfold signals_of]; cbn [io sigmap];
      rewrite no_entry; set_solver. }
  destruct (new_base_inv U _ _ _ _ _ _ _ _ Hempty Hnew) as [Hb0 _].
  pose proof (reachable_good U U_nodup U_small _ _ Hb0 Hr) as Hb.
  pose proof (run_ok U U_nodup U_small b cmd Hb Hal) as W.
  unfold wp in W. destruct (run cmd b) as [[[] b']|]; [|done]. exists b'. split; [done|]. split; [exact W|].
  apply (vi_sel _ _ (mo_inv _ _ (ci_map (bv_core W)))).
Qed.
End stack.

(** * A concrete kernel *)

(** Descriptors are always ready for what is asked. *)
#[export] Instance demo_poll : PollSys unit := {|
  poll_call k l _ := (k, inr (zlen l, (λ p, set_revents (pfd_events p) p) <$> l))
|}.
#[export] Instance demo_poll_laws : PollLaws.
Proof.
  split. intros k l t k' n l' [= _ _ <-]. unfold same_entries. apply Forall2_fmap_r. by induction l; constructor.
Qed.
#[export] Instance demo_poll_mem : PollMem := {| poll_realloc n := n <=? 2 ^ 20; junk := Pollfd 99 (-1) (-1) |}.
#[export] Instance demo_poll_mem_laws : PollMemLaws.
Proof. split. intros n. cbn. unfold EV_SSIZE_MAX. lia. Qed.

Abbreviation poll_map := (event_map (poll_base unit) unit unit).
Definition demo_pollop : pollop := default (Pollop 0 0 false [] []) (poll_init true).
Definition demo_poll_base : poll_base unit := PollBase (PollState demo_pollop ∅) 7 tt.

(** Seed 7: the first number is good enough. *)
Lemma evutil_weakrand_range_ends_witness :
  ∃ r, evutil_weakrand_range_ (2 ^ 31) 7 10 = Some (Nat.iter 1 next_seed 7, r) ∧ 0 <= r < 10.
Proof.
  destruct (evutil_weakrand_range_ends 7 10 ltac:(by split)) as (n & r & E & _ & Hr & _ & Hk). exists r. split; [|exact Hr].
  destruct n as [|n]; [exact E|]. specialize (Hk 0%nat ltac:(lia)). vm_compute in Hk. by destruct Hk.
Defined.

(** A reader and a writer of descriptor 5 and a reader of 6; the reader of 5 is
    deleted. *)
Definition demo_kinds (e : evid) : Z := if decide (e = 2%nat) then EV_WRITE else EV_READ.
Definition poll_map0 : poll_map := EventMap [] [] demo_poll_base tt.
Definition poll_after (o : option (poll_map * Z)) : poll_map := from_option fst poll_map0 o.
Definition poll_map1 : poll_map := poll_after (evmap_io_add_ poll_map0 5 1%nat (demo_kinds 1%nat)).
Definition poll_map2 : poll_map := poll_after (evmap_io_add_ poll_map1 5 2%nat (demo_kinds 2%nat)).
Definition poll_map3 : poll_map := poll_after (evmap_io_add_ poll_map2 6 3%nat (demo_kinds 3%nat)).
Definition poll_map4 : poll_map := poll_after (evmap_io_del_ poll_map3 5 1%nat (demo_kinds 1%nat)).
Lemma demo_poll_run3 : poll_run demo_kinds poll_map3.
Proof.
  apply (poll_run_add _ poll_map2 6 3%nat _ 1); [|done|apply (bool_decide_unpack _); vm_compute; exact I|vm_compute; reflexivity].
  apply (poll_run_add _ poll_map1 5 2%nat _ 1); [|done|apply (bool_decide_unpack _); vm_compute; exact I|vm_compute; reflexivity].
  apply (poll_run_add _ poll_map0 5 1%nat _ 1); [|done|apply (bool_decide_unpack _); vm_compute; exact I|vm_compute; reflexivity].
  by apply poll_fresh.
Qed.
Lemma demo_poll_run : poll_run demo_kinds poll_map4.
Proof.
  apply (poll_run_del _ poll_map3 5 1%nat _ 1); [exact demo_poll_run3|done|apply (bool_decide_unpack _); vm_compute; exact I|].
  vm_compute. reflexivity.
Qed.
Lemma poll_follows_map_witness :
  (∃ q, q ∈ ztake 2 (event_set (pop (store (evsel poll_map4)))) ∧ pfd_fd q = 5 ∧ pfd_events q = POLLOUT) ∧
  nfds (pop (store (evsel poll_map4))) = 2.
Proof.
  assert (Hn : nfds (pop (store (evsel poll_map4))) = 2) by (vm_compute; reflexivity). split; [|exact Hn].
  destruct (poll_follows_map demo_kinds poll_map4 demo_poll_run) as (_ & H & _). rewrite Hn in H.
  assert (Hw : poll_mask (wanted demo_kinds (events_of poll_map4 5)) = POLLOUT) by (vm_compute; reflexivity).
  apply (H 5 POLLOUT); [done|]. split; [symmetry; exact Hw|discriminate].
Defined.
Lemma poll_collect_exact_witness :
  ∃ p seed', poll_collect true (2 ^ 31) 7 tt (pop (store (evsel poll_map3))) None =
    Some (tt, p, seed', [(5, Z.lor EV_READ EV_WRITE); (6, EV_READ)], 0).
Proof.
  assert (Hi : poll_inv (store (evsel poll_map3))).
  { destruct (poll_run_inv demo_kinds poll_map3 demo_poll_run3) as [Hv _]. exact (vi_sel _ _ Hv). }
  destruct (poll_collect_exact true (store (evsel poll_map3)) 7 tt None Hi) as (k & p & seed' & reports & r & E & _).
  assert (Ev : (λ x, (x.1.2, x.2)) <$> poll_collect true (2 ^ 31) 7 tt (pop (store (evsel poll_map3))) None =
    Some ([(5, Z.lor EV_READ EV_WRITE); (6, EV_READ)], 0)) by (vm_compute; reflexivity).
  rewrite E in Ev. cbn in Ev. injection Ev as -> ->. exists p, seed'. destruct k. exact E.
Defined.

(** A program on this backend: a reader of descriptor 5, whose callback deletes it. *)
Definition poll_user (f : nat) (e : evid) (res : Z) : prog (event_base poll_map) unit := _ ← event_del e; mret tt.
Lemma poll_user_safe f e res (b : event_base poll_map) :
  base_inv demo_events b → wp (poll_user f e res) (λ _ b', base_inv demo_events b' ∧ loop_frame b b') b.
Proof.
  intros Hb. unfold poll_user. wp_step. apply (wp_event_del demo_events demo_nodup); [done|].
  intros b' r Hb' Ha _ _ _ _ _ _. wp_step. split; [done|by apply (lf_api demo_events)].
Qed.
#[local] Existing Instance env.
Definition poll_new : option (event_base poll_map) :=
  event_base_new_with_config None (λ _, false) [Backend "poll" 0 true]
    (EventMap [] [] demo_poll_base tt) (Notify false false false 0) true true.
Definition poll_base0 : event_base poll_map :=
  default (Base ∅ poll_map0 (Counters 0 0 0 0 0) (Queues [[]] [] 0) (Timers min_heap_ctor_ [])
    (ClockState (TV 0 0) 0 (TV 0 0) 0 false) (Loop false false false 0 false None false)
    (Notify false false false 0) (dispatch_limits None)) poll_new.
Definition poll_step_to (c : command) (b : event_base poll_map) : event_base poll_map :=
  from_option snd b (run (EN := poll_env true poll_user) c b).
Definition poll_base1 : event_base poll_map := poll_step_to (Assign 1%nat true 5 EV_READ (CbUser 0)) poll_base0.
Definition poll_base2 : event_base poll_map := poll_step_to (Add 1%nat None) poll_base1.
Lemma poll_own (b : event_base poll_map) : common_timeout_queues (tms b) = [] → own demo_events b 1%nat.
Proof.
  intros H. split; [demo_ev|]. intros i c Hc. rewrite H in Hc. by apply nothing_at in Hc.
Qed.
Lemma poll_reachable : reachable (EN := poll_env true poll_user) demo_events poll_base0 poll_base2.
Proof.
  apply (reachable_step _ _ poll_base1 (Add 1%nat None)); [|split; [split|]|vm_compute; reflexivity].
  - apply (reachable_step _ _ poll_base0 (Assign 1%nat true 5 EV_READ (CbUser 0)));
      [apply reachable_start|split; [split|split]|vm_compute; reflexivity].
    + apply poll_own. vm_compute. reflexivity.
    + by vm_compute.
    + done.
    + by left.
  - apply poll_own. vm_compute. reflexivity.
  - by vm_compute.
  - intros t Ht. discriminate.
Qed.
Lemma poll_stack_safe_witness :
  ∃ b', run (EN := poll_env true poll_user) (RunLoop 20 0) poll_base2 = Some (tt, b') ∧
    poll_inv (store (evsel (evmap b'))).
Proof.
  destruct (poll_stack_safe demo_events demo_nodup demo_small true poll_user poll_user_safe demo_pollop 7 tt tt
    None (λ _, false) [Backend "poll" 0 true] (Notify false false false 0) true true
    poll_base0 poll_base2 (RunLoop 20 0)) as (b' & E & _ & H).
  - reflexivity.
  - vm_compute. reflexivity.
  - exact poll_reachable.
  - exact I.
  - exists b'. split; [exact E|exact H].
Defined.
(** The loop ends because the callback of the reader has run. *)
Lemma poll_loop_ends :
  (λ p, EventDefs.event_count (cnt p.2)) <$> run (EN := poll_env true poll_user) (RunLoop 20 0) poll_base2 = Some 0.
Proof. vm_compute. reflexivity. Qed.
